(* ===== verification/_CoqProject ===== *)
-Q . S2P
Prelude.v
PyStr.v
Orders.v
Versions.v
PkgVersions.v
Json.v
Base64.v
LicenseToken.v
LicenseState.v
AssetEntitlement.v
Heartbeat.v
LicenseClient.v
ParamSecurity.v
Accounts.v
Scheduling.v
ConfigTree.v
CiscoTree.v
Difflib.v
Restore.v
FileBundle.v
Risk.v
Backups.v
RestoreJob.v
Drivers.v
GroupRuns.v
Remediation.v
HostKeys.v
Alerts.v
Singleton.v
Advisories.v
Utf8.v
Container.v
ContainerProofs.v
Users.v
Directory.v
Access.v
Findings.v
