(* ===== verification/Prelude.v ===== *)
(** * NGCorion: a verification library for the backend's core logic

    NGCorion's backend (src/app, Python) manages the devices of a network:
    licensing, accounts, scheduled audits and backups, configuration restore,
    vulnerability matching, remediation and alerts.  This library models the
    parts that decide something, file by file, and proves what they promise.
    Definitions keep the names of the code; the comment above a definition says
    which function it is.

    ** Parts

    Foundations.  This file: results of code that may raise ([res], [let!],
    [check]), list lemmas, automation.  PyStr: Python's strings.  Json: JSON
    values.  Base64: Python's lenient decoder.  Orders: total preorders and the
    padded lexicographic order the version comparisons are related to.

    Licensing (src/app/core/license_*.py, heartbeat.py, asset_entitlement.py,
    src/app/middleware/license_middleware.py).  LicenseToken: [verify_token]
    accepts exactly the tokens that pass every check.  LicenseState: the state
    of a worker, its cache file, the offline windows, restarts and the
    synchronisation of several workers; a valid state is genuine in every
    reachable state.  LicenseClient: the exchanges with the server; it calls
    LicenseState and LicenseToken and composes their invariants end to end.
    Heartbeat: one beat, the thread's loop interleaved with stop and beat_now,
    the request gate.  AssetEntitlement: which assets may be used.

    Accounts (core/totp.py, mfa.py, sessions.py, api_keys.py, rate limiters):
    one-time codes, two-step sign-in, sessions, API keys, limits.  Users
    (modules/users): accounts, roles and module permissions, and the guards of
    delegation.  Directory (modules/directory): accounts of an LDAP server, what
    their groups give, the periodic check.  Access (core/dependencies.py,
    modules/auth): the whole server's tables, sign-in, what a signed-in user or
    an administrator does to sessions and accounts, and [get_current_user], the
    check in front of every route; it composes the three files before it.
    ParamSecurity (core/hardening_param_security.py): the validators and
    escapers of command parameters against reference lexers of the shells.

    Versions (modules/cve/versions.py), PkgVersions (modules/advisories/
    versions.py): the comparisons are total preorders and refine a reference.
    Advisories (modules/advisories/match.py): installed packages against the
    distributions' advisories, by those comparisons, with its shared cache.
    Findings (modules/cve/findings.py, recommend.py): both joined into one list
    of an inventory's CVEs, the action for each and the plan of upgrades.

    Scheduling (modules/scheduling): recurrence, jobs, and the claims of
    several server processes, each with its own reading of the table.
    GroupRuns (modules/asset_groups/runs.py): runs of an audit or backup over
    a group; the steps of the worker interleave with requests and restarts.

    Configuration restore (modules/backup).  ConfigTree and CiscoTree: parsing,
    comparing and the commands for FortiOS and Cisco IOS
    (restore/config_tree.py).  Difflib: Python's unified_diff.  FileBundle:
    the file backups of servers (restore/file_bundle.py).  Risk: the lockout
    warnings (restore/risk.py).  Backups: change notes and retention
    (changes.py, retention.py).  Restore: the commands sent to a device whose
    command line behaves as documented, defaults included, reach a backup that
    is a full configuration of it.  RestoreJob: the job
    (restore/service.py) against the interface [Driver]; Drivers: the three
    drivers (restore/drivers.py), instances of [Driver] over interfaces of
    their SSH clients ([IosClient], [FortiClient], [HostClient]).

    Remediation (modules/remediation): the items' synchronisation with what
    the modules report, the workflow, risk acceptances with two people.
    HostKeys (core/ssh_host_keys.py, tls_pins.py): trust on first use, stated
    once for the interface [PinStore], the check and the write of overlapping
    connections as separate steps; the SSH store keeps it among all of them,
    the TLS pins among those of one process.
    Alerts (modules/alerts): rules, alerts, messages, retries.
    Singleton (core/singleton.py): which worker process runs a background loop,
    as interleaved coroutines over an advisory lock.
    Utf8, Container, ContainerProofs (modules/sysbackup/container.py): the
    encrypted backup file of the product, written and read in chunks; what is
    read is what was written, and nothing else is accepted.

    ** What the theorems show

    Invariants of every reachable state (license state, job claims, runs,
    retention, acceptances, pins, accounts: one administrator stays active);
    what cannot happen in any history of requests (an ended session or a
    session without the second factor is let in, accounts without the
    administrator's role gain what none of them held); refinement of a
    reference or a specification (file plans, the backup file, the restore
    against a device); what each operation does on every branch (restore job,
    checks of rules, the endings of sessions, the checks of a request in their
    order, the list of CVEs); bounds (guesses of a reset code, concurrency,
    offline windows); termination (restore jobs, runs); liveness (the failover of
    loops); round trips (the backup file); equivalences (three answers about
    one permission, a cache).

    ** Conventions

    A string holds code points 0-255.  A time is an integer of microseconds; a
    function that reads the clock takes the reading as an argument.  Tables
    are lists in the order of their ids or finite maps; a transaction is one
    step, and where several processes act the steps interleave; what reads and
    later writes without a lock (a reset code's tries, a host key's first use)
    is two steps.  Third-party
    code (cryptography, requests, paramiko, netmiko, the hash functions, the
    devices) is an argument or the operations of a class whose laws are its
    documented behaviour; each class has a concrete instance in the file, so
    that the laws can hold.  Titles with a separator outside the characters
    modelled are lists of their parts.

    Fuel.  The version scanners, the Cisco parser and difflib take fuel that
    is a length of their input, and are proved never to run out.  The waits of
    the restore job take one unit for each poll of at least REVERT_POLL
    seconds, and [restore_ends] gives an amount that is enough.  The worker of
    group runs and its threads are steps that interleave; a run ends within
    three rounds for each queued item, one for each thread already at work and
    one more, where a round is a sweep and then some progress of a thread if
    there is one.

    ** Not modelled

    Risk scores (modules/risk): weighted sums and roundings of Python floats.
    The feeds of CVEs and advisories: downloads and bulk SQL.  The queue,
    retention and destinations of system backups and the restore of the database: SQL dumps through psycopg.
    Monitoring, discovery, topology, reports: SNMP, nmap, SSH and WinRM
    sessions and the rendering of documents.  The benchmark rules and command
    templates of the device families: data.  The encrypted storage of settings,
    file locks, the audit log and message texts; the routes not named in the
    files; the front end, migrations, scripts and tests. *)
From Stdlib Require Export ZArith Lia String Ascii.
From stdpp Require Export base gmap strings list option numbers.
From coqutil Require Export Datatypes.RecordSetters.
Export DoubleBraceUpdate.
#[global] Open Scope double_brace_record_update.
(** Reading a field of an updated record computes. *)
#[global] Arguments constant {E} newValue _ /.
#[global] Arguments apply_update {R E} !u /.

#[global] Open Scope Z_scope.

(** ** Errors

    Python code that raises is translated to [res E A]: [Ok] for a normal
    return, [Raise] for an exception of the modelled kind. *)
Inductive res (E A : Type) : Type :=
| Ok (a : A)
| Raise (e : E).
Arguments Ok {E A} a.
Arguments Raise {E A} e.

Definition res_bind {E A B} (m : res E A) (k : A -> res E B) : res E B :=
  match m with Ok a => k a | Raise e => Raise e end.

Definition is_ok {E A} (m : res E A) : bool :=
  match m with Ok _ => true | Raise _ => false end.

Declare Scope res_scope.
Delimit Scope res_scope with res.
Notation "'let!' x := m 'in' k" := (res_bind m (fun x => k))
  (at level 10, x pattern, m at level 100, k at level 200) : res_scope.
(** [check b else e in k]: the early exit of the code, [if not b: raise e]. *)
Notation "'check' b 'else' e 'in' k" := (if b then k else Raise e)
  (at level 10, b at level 100, e at level 100, k at level 200) : res_scope.
#[global] Open Scope res_scope.

(** ** Automation *)
Create HintDb ngc.

(** Split every test of the goal and of the hypotheses, turn boolean tests
    into propositions and close the arithmetic. *)
Ltac bool_prop :=
  repeat match goal with
  | H : (_ && _)%bool = true |- _ => apply andb_prop in H as [? ?]
  | H : (_ || _)%bool = false |- _ => apply orb_false_elim in H as [? ?]
  | H : negb _ = true |- _ => apply negb_true_iff in H
  | H : negb _ = false |- _ => apply negb_false_iff in H
  | H : (_ <? _) = true |- _ => apply Z.ltb_lt in H
  | H : (_ <? _) = false |- _ => apply Z.ltb_ge in H
  | H : (_ <=? _) = true |- _ => apply Z.leb_le in H
  | H : (_ <=? _) = false |- _ => apply Z.leb_gt in H
  | H : (_ =? _) = true |- _ => apply Z.eqb_eq in H
  | H : (_ =? _) = false |- _ => apply Z.eqb_neq in H
  | H : bool_decide _ = true |- _ => apply bool_decide_eq_true in H
  | H : bool_decide _ = false |- _ => apply bool_decide_eq_false in H
  end.

Ltac cases :=
  repeat (case_match; simplify_eq/=); bool_prop.

Ltac zsolve := bool_prop; try lia; auto with ngc.

(** A property of finitely many integers, by evaluation. *)
Lemma range_forall (P : Z -> bool) (n : nat) :
  forallb P (map Z.of_nat (List.seq 0 n)) = true -> forall x, 0 <= x < Z.of_nat n -> P x = true.
Proof.
  intros H x Hx. rewrite forallb_forall in H. apply H. apply in_map_iff.
  exists (Z.to_nat x). split; [lia|]. apply in_seq. lia.
Qed.

Lemma range_forall2 (P : Z -> Z -> bool) (n m : nat) :
  forallb (fun x => forallb (P x) (map Z.of_nat (List.seq 0 m))) (map Z.of_nat (List.seq 0 n)) = true ->
  forall x y, 0 <= x < Z.of_nat n -> 0 <= y < Z.of_nat m -> P x y = true.
Proof.
  intros H x y Hx Hy. apply (range_forall (P x) m); [|done].
  by apply (range_forall (fun x => forallb (P x) _) n H).
Qed.

(** ** Selecting from lists *)
Lemma elem_filter {A} (p : A -> bool) l x : x ∈ List.filter p l <-> x ∈ l /\ p x = true.
Proof. by rewrite !list_elem_of_In, filter_In. Qed.

Lemma filter_le {A} (p q : A -> bool) l :
  (forall y, y ∈ l -> p y = true -> q y = true) ->
  (length (List.filter p l) <= length (List.filter q l))%nat.
Proof.
  induction l as [|y l IH]; intros H; simpl; [done|].
  specialize (IH (fun z Hz => H z (list_elem_of_further _ _ _ Hz))).
  destruct (p y) eqn:E; [rewrite (H y (list_elem_of_here _ _) E); simpl; lia|]. destruct (q y); simpl; lia.
Qed.

(** A stronger condition that fails on a member selects fewer members. *)
Lemma filter_shrinks_in {A} (p q : A -> bool) l x :
  x ∈ l -> (forall y, y ∈ l -> p y = true -> q y = true) -> q x = true -> p x = false ->
  (length (List.filter p l) < length (List.filter q l))%nat.
Proof.
  induction l as [|y l IH]; intros Hx Hpq Hq Hp; [by apply elem_of_nil in Hx|].
  assert (Hle : (length (List.filter p l) <= length (List.filter q l))%nat) by (apply filter_le; intros; apply Hpq; [by right|done]).
  apply elem_of_cons in Hx as [<-|Hx]; simpl.
  - rewrite Hp, Hq. simpl. lia.
  - assert (Hlt := IH Hx (fun z Hz => Hpq z (list_elem_of_further _ _ _ Hz)) Hq Hp).
    destruct (p y) eqn:E; [rewrite (Hpq y (list_elem_of_here _ _) E); simpl; lia|]. destruct (q y); simpl; lia.
Qed.
Lemma filter_shrinks {A} (p q : A -> bool) l x :
  x ∈ l -> (forall y, p y = true -> q y = true) -> q x = true -> p x = false ->
  (length (List.filter p l) < length (List.filter q l))%nat.
Proof. intros Hx H. apply filter_shrinks_in; auto. Qed.

Lemma filter_ext_elem {A} (p q : A -> bool) l :
  (forall y, y ∈ l -> p y = q y) -> List.filter p l = List.filter q l.
Proof. intros H. apply filter_ext_in. intros y Hy. by apply H, list_elem_of_In. Qed.

Lemma filter_map_comm {A B} (p : B -> bool) (f : A -> B) l :
  List.filter p (map f l) = map f (List.filter (fun x => p (f x)) l).
Proof. induction l as [|x l IH]; simpl; [done|]. rewrite IH. by destruct (p (f x)). Qed.

Lemma filter_is_nil {A} (p : A -> bool) l : List.filter p l = [] <-> forall y, y ∈ l -> p y = false.
Proof.
  split.
  - intros H y Hy. apply not_true_is_false. intros Hp.
    assert (Hin : y ∈ List.filter p l) by by apply elem_filter. rewrite H in Hin. by apply elem_of_nil in Hin.
  - intros H. apply elem_of_nil_inv. intros y [Hy Hp]%elem_filter. by rewrite H in Hp.
Qed.
