(* ===== verification/PyStr.v ===== *)
(** * Python strings

    The string operations the modelled modules use.  A Python [str] is a list
    of code points; the model covers the code points 0-255 (one [ascii] each),
    which includes the characters where Python's character classes surprise:
    the separators 0x1c-0x1f, 0x85 and 0xa0, and the superscript digits. *)
From S2P Require Import Prelude.

Abbreviation pystr := (list ascii).

(** A literal. *)
Definition py (s : string) : pystr := list_ascii_of_string s.
#[global] Arguments py : simpl never.

Definition ord (c : ascii) : Z := Z.of_N (N_of_ascii c).
Definition chr (z : Z) : ascii := ascii_of_N (Z.to_N z).

Definition between (lo hi : Z) (c : ascii) : bool := (lo <=? ord c) && (ord c <=? hi).

(** [0-9] of a regular expression on ASCII text. *)
Definition is_digit (c : ascii) : bool := between 48 57 c.
(** [str.isdigit] on one character: also the superscripts 1, 2 and 3. *)
Definition py_isdigit (c : ascii) : bool :=
  is_digit c || (ord c =? 178) || (ord c =? 179) || (ord c =? 185).
Definition is_upper (c : ascii) : bool := between 65 90 c.
Definition is_lower (c : ascii) : bool := between 97 122 c.
Definition is_alpha (c : ascii) : bool := is_upper c || is_lower c.
Definition is_alnum (c : ascii) : bool := is_alpha c || is_digit c.
(** [str.isspace] on one character, which is also what [strip] removes. *)
Definition is_space (c : ascii) : bool :=
  between 9 13 c || between 28 32 c || (ord c =? 133) || (ord c =? 160).

(** [str.lower]: the capital letters of the modelled characters, which include
    the accented ones. *)
Definition is_capital (c : ascii) : bool := is_upper c || between 192 214 c || between 216 222 c.
Definition lower1 (c : ascii) : ascii := if is_capital c then chr (ord c + 32) else c.
Definition lower (s : pystr) : pystr := map lower1 s.

Definition digit_val (c : ascii) : Z := ord c - 48.
(** The number a run of ASCII digits denotes. *)
Definition digits_val (s : pystr) : Z := foldl (fun n c => 10 * n + digit_val c) 0 s.

(** Longest prefix of characters satisfying [p], and the rest. *)
Fixpoint span (p : ascii -> bool) (s : pystr) : pystr * pystr :=
  match s with
  | [] => ([], [])
  | c :: s' => if p c then let '(a, b) := span p s' in (c :: a, b) else ([], s)
  end.

Definition take_while (p : ascii -> bool) (s : pystr) : pystr := fst (span p s).
Definition drop_while (p : ascii -> bool) (s : pystr) : pystr := snd (span p s).

Definition lstrip (s : pystr) : pystr := drop_while is_space s.
Definition rstrip (s : pystr) : pystr := rev (drop_while is_space (rev s)).
Definition strip (s : pystr) : pystr := rstrip (lstrip s).

(** [str.replace(c, w)] for a one-character pattern. *)
Definition replace1 (c : ascii) (w s : pystr) : pystr :=
  concat (map (fun d => if bool_decide (d = c) then w else [d]) s).

Fixpoint is_prefix (p s : pystr) : bool :=
  match p, s with
  | [], _ => true
  | _, [] => false
  | c :: p', d :: s' => bool_decide (c = d) && is_prefix p' s'
  end.

(** [p in s]. *)
Fixpoint is_infix (p s : pystr) : bool :=
  is_prefix p s || match s with [] => false | _ :: s' => is_infix p s' end.

(** [c in s] for one character. *)
Definition has_char (c : ascii) (s : pystr) : bool := existsb (fun d => bool_decide (d = c)) s.

(** [str.partition(c)] / [str.split(c, 1)]: the text before the first [c], and
    the text after it when there is one. *)
Fixpoint partition1 (c : ascii) (s : pystr) : pystr * option pystr :=
  match s with
  | [] => ([], None)
  | d :: s' => if bool_decide (d = c) then ([], Some s')
               else let '(a, r) := partition1 c s' in (d :: a, r)
  end.

(** [str.split(c)]. *)
Fixpoint split_on (c : ascii) (s : pystr) : list pystr :=
  match s with
  | [] => [[]]
  | d :: s' =>
      if bool_decide (d = c) then [] :: split_on c s'
      else match split_on c s' with
           | [] => [[d]]
           | w :: ws => (d :: w) :: ws
           end
  end.

(** [int(s)] of a string: surrounding white space, an optional sign, digits,
    single underscores between digits.  [None] is [ValueError]. *)
Fixpoint int_digits (s : pystr) (acc : Z) (sep_ok : bool) : option Z :=
  match s with
  | [] => if sep_ok then Some acc else None
  | c :: s' =>
      if is_digit c then int_digits s' (10 * acc + digit_val c) true
      else if bool_decide (c = "_"%char) && sep_ok then int_digits s' acc false
      else None
  end.

Definition py_int (s : pystr) : option Z :=
  match strip s with
  | [] => None
  | c :: s' =>
      if bool_decide (c = "-"%char) then option_map Z.opp (int_digits s' 0 false)
      else if bool_decide (c = "+"%char) then int_digits s' 0 false
      else int_digits (c :: s') 0 false
  end.

(** [str(n)] of an integer. *)
Fixpoint dec_digits (fuel : nat) (n : Z) (acc : pystr) : pystr :=
  match fuel with
  | O => acc
  | S f => let acc' := chr (48 + n mod 10) :: acc in
           if n <? 10 then acc' else dec_digits f (n / 10) acc'
  end.
(** One more digit than the number has bits is always enough. *)
Definition dec_nonneg (n : Z) : pystr := dec_digits (S (Z.to_nat (Z.log2 n))) n [].
Definition str_of_int (n : Z) : pystr :=
  if n <? 0 then "-"%char :: dec_nonneg (- n) else dec_nonneg n.

(** ** Lemmas *)

(** Arithmetic on character classes. *)
Ltac char_arith :=
  intros; unfold is_space, py_isdigit, is_alnum, is_alpha, is_digit, is_lower, is_capital, is_upper, between in *;
  lia.

Lemma ord_range c : 0 <= ord c < 256.
Proof.
  unfold ord. pose proof (N_ascii_bounded c). lia.
Qed.

Lemma ord_inj c d : ord c = ord d -> c = d.
Proof.
  unfold ord. intros H%N2Z.inj.
  rewrite <- (ascii_N_embedding c), <- (ascii_N_embedding d). by rewrite H.
Qed.

Lemma ord_chr z : 0 <= z < 256 -> ord (chr z) = z.
Proof. intros ?. unfold ord, chr. rewrite N_ascii_embedding; lia. Qed.

Lemma span_app p s : take_while p s ++ drop_while p s = s.
Proof.
  unfold take_while, drop_while.
  induction s as [|c s IH]; simpl; [done|].
  destruct (p c); [|done]. destruct (span p s); simpl in *. by rewrite IH.
Qed.

Lemma take_while_all p s : forallb p (take_while p s) = true.
Proof.
  unfold take_while. induction s as [|c s IH]; simpl; [done|].
  destruct (p c) eqn:E; [|done]. destruct (span p s); simpl in *. by rewrite E.
Qed.

Lemma drop_while_head p s :
  match drop_while p s with [] => True | c :: _ => p c = false end.
Proof.
  unfold drop_while. induction s as [|c s IH]; simpl; [done|].
  destruct (p c) eqn:E; [|done]. by destruct (span p s).
Qed.

Lemma drop_while_length p s : (length (drop_while p s) <= length s)%nat.
Proof.
  rewrite <- (span_app p s) at 2. rewrite length_app. lia.
Qed.

Lemma digits_val_nonneg s : forallb is_digit s = true -> 0 <= digits_val s.
Proof.
  unfold digits_val. assert (0 <= 0) as H by lia. revert H. generalize 0 at 2 4 as n.
  induction s as [|c s IH]; simpl; intros n Hn Hd; [done|].
  apply andb_prop in Hd as [Hc Hs]. apply IH; [|done].
  unfold is_digit, between, digit_val in *. zsolve.
Qed.

Lemma digits_val_snoc s c : digits_val (s ++ [c]) = 10 * digits_val s + digit_val c.
Proof. unfold digits_val. by rewrite foldl_app. Qed.

Lemma has_char_spec c s : has_char c s = true <-> c ∈ s.
Proof.
  unfold has_char. rewrite existsb_exists. split.
  - intros (d & Hin & ->%bool_decide_eq_true). by apply list_elem_of_In.
  - intros Hin. exists c. split; [by apply list_elem_of_In|by apply bool_decide_eq_true].
Qed.

#[export] Hint Resolve ord_range ord_inj span_app take_while_all digits_val_nonneg : ngc.

(** *** [int] and [str] on integers *)

Lemma is_digit_chr n : 0 <= n < 10 -> is_digit (chr (48 + n)) = true.
Proof. intros ?. unfold is_digit, between. rewrite ord_chr by lia. lia. Qed.

Lemma digit_val_chr n : 0 <= n < 10 -> digit_val (chr (48 + n)) = n.
Proof. intros ?. unfold digit_val. rewrite ord_chr; lia. Qed.

Lemma dec_digits_spec fuel n acc :
  0 <= n < 10 ^ Z.of_nat fuel -> (0 < fuel)%nat ->
  exists ds, dec_digits fuel n acc = ds ++ acc /\ ds <> [] /\
             forallb is_digit ds = true /\ digits_val ds = n.
Proof.
  revert n acc. induction fuel as [|fuel IH]; intros n acc Hn Hf; [lia|].
  pose proof (Z.mod_pos_bound n 10 ltac:(lia)) as Hm.
  pose proof (Z.div_mod n 10 ltac:(lia)) as Hd. simpl.
  destruct (Z.ltb_spec n 10) as [Hlt|Hge].
  - exists [chr (48 + n mod 10)]. split_and!; [done|done| |].
    + simpl. by rewrite is_digit_chr.
    + unfold digits_val; simpl. rewrite digit_val_chr, Z.mod_small; lia.
  - rewrite Nat2Z.inj_succ, Z.pow_succ_r in Hn by lia.
    destruct fuel as [|fuel]; [simpl in Hn; lia|].
    destruct (IH (n / 10) (chr (48 + n mod 10) :: acc)) as (ds & -> & Hne & Hdig & Hval);
      [split; [apply Z.div_pos; lia|apply Z.div_lt_upper_bound; lia]|lia|].
    exists (ds ++ [chr (48 + n mod 10)]). split_and!.
    + by rewrite <- app_assoc.
    + by destruct ds.
    + rewrite forallb_app, Hdig. simpl. by rewrite is_digit_chr.
    + rewrite digits_val_snoc, Hval, digit_val_chr; lia.
Qed.

Lemma dec_nonneg_spec n :
  0 <= n -> dec_nonneg n <> [] /\ forallb is_digit (dec_nonneg n) = true /\
            digits_val (dec_nonneg n) = n.
Proof.
  intros Hn. unfold dec_nonneg.
  destruct (dec_digits_spec (S (Z.to_nat (Z.log2 n))) n []) as (ds & -> & ? & ? & ?);
    [|lia|by rewrite app_nil_r].
  split; [done|]. rewrite Nat2Z.inj_succ, Z2Nat.id by apply Z.log2_nonneg.
  destruct (decide (n = 0)) as [->|]; [done|].
  apply Z.lt_le_trans with (2 ^ Z.succ (Z.log2 n)); [apply Z.log2_spec; lia|].
  apply Z.pow_le_mono_l; lia.
Qed.

Lemma int_digits_spec ds acc b :
  forallb is_digit ds = true -> (ds <> [] \/ b = true) ->
  int_digits ds acc b = Some (foldl (fun n c => 10 * n + digit_val c) acc ds).
Proof.
  revert acc b. induction ds as [|c ds IH]; simpl; intros acc b Hd Hb.
  - destruct Hb as [?| ->]; done.
  - apply andb_prop in Hd as [Hc Hd]. rewrite Hc. apply IH; auto.
Qed.

(** What [int_digits] accepts is digits and underscores only. *)
Lemma int_digits_chars s acc b v :
  int_digits s acc b = Some v ->
  forallb (fun c => is_digit c || bool_decide (c = "_"%char)) s = true.
Proof.
  revert acc b. induction s as [|c s IH]; simpl; intros acc b; [done|].
  destruct (is_digit c); simpl; [eauto|].
  destruct (bool_decide _); simpl; [|done]. destruct b; simpl; [eauto|done].
Qed.

Lemma is_space_digit c : is_digit c = true -> is_space c = false.
Proof. char_arith. Qed.

Lemma strip_no_space s :
  forallb (fun c => negb (is_space c)) s = true -> strip s = s.
Proof.
  assert (forall s, forallb (fun c => negb (is_space c)) s = true -> drop_while is_space s = s) as Hd.
  { intros [|c t]; [done|]. unfold drop_while. simpl. intros [Hc _]%andb_prop.
    apply negb_true_iff in Hc. by rewrite Hc. }
  intros H. unfold strip, lstrip, rstrip. rewrite (Hd s H), Hd; [apply rev_involutive|].
  apply forallb_forall. intros x Hx%in_rev. by eapply forallb_forall in H.
Qed.

Lemma digits_no_space ds :
  forallb is_digit ds = true -> forallb (fun c => negb (is_space c)) ds = true.
Proof.
  intros H. apply forallb_forall. intros x Hx.
  eapply forallb_forall in H; [|done]. by rewrite is_space_digit.
Qed.

(** [int(str(n)) = n]. *)
Lemma py_int_str_of_int n : py_int (str_of_int n) = Some n.
Proof.
  assert (forall m, 0 <= m -> int_digits (dec_nonneg m) 0 false = Some m) as Hdec.
  { intros m Hm. destruct (dec_nonneg_spec m Hm) as (Hne & Hd & Hv).
    rewrite int_digits_spec by auto. f_equal. exact Hv. }
  unfold py_int, str_of_int. destruct (Z.ltb_spec n 0).
  - destruct (dec_nonneg_spec (- n)) as (Hne & Hd & Hv); [lia|].
    rewrite strip_no_space.
    + rewrite bool_decide_eq_true_2 by done. rewrite Hdec by lia. simpl. f_equal. lia.
    + simpl. by apply digits_no_space.
  - destruct (dec_nonneg_spec n) as (Hne & Hd & Hv); [lia|].
    rewrite strip_no_space by (by apply digits_no_space).
    destruct (dec_nonneg n) as [|c s] eqn:E; [done|].
    assert (is_digit c = true) as Hc by (simpl in Hd; by apply andb_prop in Hd as [? _]).
    assert (c <> "-"%char) by (intros ->; done). assert (c <> "+"%char) by (intros ->; done).
    rewrite !bool_decide_eq_false_2, <- E by done. by apply Hdec.
Qed.

(** [str(n)] is digits after an optional minus sign. *)
Lemma str_of_int_chars n :
  forallb (fun c => is_digit c || bool_decide (c = "-"%char)) (str_of_int n) = true.
Proof.
  assert (forall m, 0 <= m ->
    forallb (fun c => is_digit c || bool_decide (c = "-"%char)) (dec_nonneg m) = true) as H.
  { intros m Hm. apply forallb_forall. intros x Hx.
    destruct (dec_nonneg_spec m Hm) as (_ & Hd & _).
    eapply forallb_forall in Hd; [|done]. by rewrite Hd. }
  unfold str_of_int. destruct (Z.ltb_spec n 0); simpl; apply H; lia.
Qed.

(** *** Order and white space *)

(** [a < b] on strings: code point by code point. *)
Fixpoint str_cmp (a b : pystr) : comparison :=
  match a, b with
  | [], [] => Eq
  | [], _ :: _ => Lt
  | _ :: _, [] => Gt
  | c :: a', d :: b' => match ord c ?= ord d with Eq => str_cmp a' b' | r => r end
  end.

Lemma drop_while_app_stop p s t :
  match t with [] => True | c :: _ => p c = false end ->
  drop_while p (s ++ t) = drop_while p s ++ t.
Proof.
  intros Ht. unfold drop_while. induction s as [|c s IH]; simpl.
  - destruct t as [|c t]; [done|]. simpl. by rewrite Ht.
  - destruct (p c); [|done]. destruct (span p s), (span p (s ++ t)); simpl in *. done.
Qed.

Lemma rstrip_decompose s :
  exists ws, s = rstrip s ++ ws /\ forallb is_space ws = true.
Proof.
  exists (rev (take_while is_space (rev s))). unfold rstrip. split.
  - rewrite <- rev_app_distr, span_app. by rewrite rev_involutive.
  - apply forallb_forall. intros x Hx%in_rev.
    pose proof (take_while_all is_space (rev s)) as H.
    by eapply forallb_forall in H.
Qed.

Lemma rstrip_app_stop s t c :
  is_space c = false -> rstrip (s ++ t ++ [c]) = s ++ t ++ [c].
Proof.
  intros Hc. unfold rstrip. rewrite !rev_app_distr. simpl.
  unfold drop_while. simpl. rewrite Hc. simpl.
  by rewrite !rev_app_distr, !rev_involutive, <- app_assoc.
Qed.

Lemma drop_while_lt p c s : p c = true -> (length (drop_while p (c :: s)) <= length s)%nat.
Proof.
  intros Hc. pose proof (drop_while_length p s) as H. unfold drop_while in *. simpl.
  rewrite Hc. by destruct (span p s).
Qed.

Lemma tw_cons p c s : p c = true -> take_while p (c :: s) = c :: take_while p s.
Proof. unfold take_while. simpl. intros ->. by destruct (span p s). Qed.
Lemma dw_cons p c s : p c = true -> drop_while p (c :: s) = drop_while p s.
Proof. unfold drop_while. simpl. intros ->. by destruct (span p s). Qed.
Lemma tw_stop p c s : p c = false -> take_while p (c :: s) = [].
Proof. unfold take_while. simpl. by intros ->. Qed.
Lemma dw_stop p c s : p c = false -> drop_while p (c :: s) = c :: s.
Proof. unfold drop_while. simpl. by intros ->. Qed.

(** The prefix of [s ++ q] is decided inside [s] when the two do not join. *)
Definition joins (p : ascii -> bool) (s q : pystr) : bool :=
  match rev s, q with c :: _, d :: _ => p c && p d | _, _ => false end.

Lemma joins_cons p c s q : s <> [] -> joins p (c :: s) q = joins p s q.
Proof.
  intros Hs. unfold joins. simpl. destruct (rev s) eqn:E; [|done].
  apply (f_equal (@length ascii)) in E. rewrite length_rev in E. by destruct s.
Qed.

Lemma span_joins p s q :
  s <> [] -> joins p s q = false -> span p (s ++ q) = (take_while p s, drop_while p s ++ q).
Proof.
  unfold take_while, drop_while. induction s as [|c s IH]; [done|]. intros _ Hj.
  destruct s as [|d s].
  - unfold joins in Hj. simpl in *. destruct (p c); [|done].
    destruct q as [|d q]; simpl in *; [done|]. by rewrite Hj.
  - rewrite joins_cons in Hj by done. specialize (IH ltac:(done) Hj).
    simpl in *. destruct (p c); [|done]. destruct (p d); [|done].
    destruct (span p s), (span p (s ++ q)); simpl in *. by simplify_eq.
Qed.

Lemma joins_drop p r s q : joins p s q = false -> joins p (drop_while r s) q = false.
Proof.
  intros H. pose proof (span_app r s) as Hs. unfold joins in *.
  rewrite <- Hs, rev_app_distr in H.
  destruct (rev (drop_while r s)); [done|]. exact H.
Qed.

Lemma joins_suffix p u s q : joins p (u ++ s) q = false -> joins p s q = false.
Proof.
  unfold joins. rewrite rev_app_distr. destruct (rev s); simpl; [by intros _|done].
Qed.

Lemma joins_nil_head p s c q : p c = false -> joins p s (c :: q) = false.
Proof. intros H. unfold joins. destruct (rev s); [done|]. rewrite H. apply andb_false_r. Qed.

Lemma lower1_not_upper c : is_capital c = false -> lower1 c = c.
Proof. unfold lower1. by intros ->. Qed.

Lemma space_not_upper c : is_space c = true -> is_capital c = false.
Proof. char_arith. Qed.

Lemma lower_spaces ws : forallb is_space ws = true -> lower ws = ws.
Proof.
  induction ws as [|c ws IH]; simpl; [done|]. intros [Hc Hw]%andb_prop.
  rewrite IH, lower1_not_upper; auto using space_not_upper.
Qed.

Lemma lower_app s t : lower (s ++ t) = lower s ++ lower t.
Proof. apply map_app. Qed.

(** [str.rsplit(c, 1)]: around the last [c], when there is one. *)
Definition rsplit1 (c : ascii) (s : pystr) : option (pystr * pystr) :=
  match partition1 c (rev s) with
  | (a, Some b) => Some (rev b, rev a)
  | (_, None) => None
  end.

(** *** Digit runs as numbers *)

Lemma digits_val_cons_gen n s :
  foldl (fun n c => 10 * n + digit_val c) n s = n * 10 ^ Z.of_nat (length s) + digits_val s.
Proof.
  unfold digits_val. revert n. induction s as [|c s IH]; intros n; [simpl; lia|].
  simpl length.
  cbn [foldl]. rewrite (IH (10 * n + digit_val c)), (IH (10 * 0 + digit_val c)).
  rewrite Nat2Z.inj_succ, Z.pow_succ_r by lia. lia.
Qed.

Lemma digits_val_cons c s :
  digits_val (c :: s) = digit_val c * 10 ^ Z.of_nat (length s) + digits_val s.
Proof. unfold digits_val at 1. simpl. rewrite digits_val_cons_gen. lia. Qed.

Lemma digit_val_range c : is_digit c = true -> 0 <= digit_val c <= 9.
Proof. unfold digit_val. char_arith. Qed.

Lemma digits_val_bound s :
  forallb is_digit s = true -> 0 <= digits_val s < 10 ^ Z.of_nat (length s).
Proof.
  induction s as [|c s IH]; [done|]. intros [Hc Hs]%andb_prop.
  specialize (IH Hs). pose proof (digit_val_range c Hc). rewrite digits_val_cons.
  simpl length. rewrite Nat2Z.inj_succ, Z.pow_succ_r by lia. nia.
Qed.

Definition zero_char : ascii := "0"%char.
Definition is_zero_char (c : ascii) : bool := bool_decide (c = zero_char).

Lemma digits_val_drop_zeros s : digits_val (drop_while is_zero_char s) = digits_val s.
Proof.
  unfold drop_while. induction s as [|c s IH]; [done|]. simpl.
  destruct (is_zero_char c) eqn:E; [|done].
  apply bool_decide_eq_true in E as ->. rewrite digits_val_cons, <- IH.
  change (digit_val zero_char) with 0. destruct (span is_zero_char s); simpl; lia.
Qed.

(** Longer runs without leading zeros are larger. *)
Lemma digits_val_longer c s t :
  forallb is_digit (c :: s) = true -> is_zero_char c = false -> forallb is_digit t = true ->
  (length t < length (c :: s))%nat -> digits_val t < digits_val (c :: s).
Proof.
  intros [Hc Hs]%andb_prop Hz Ht Hl. rewrite digits_val_cons.
  pose proof (digits_val_bound s Hs). pose proof (digits_val_bound t Ht).
  assert (1 <= digit_val c).
  { apply bool_decide_eq_false in Hz. pose proof (digit_val_range c Hc).
    assert (digit_val c <> 0); [|lia]. intros E. apply Hz, ord_inj.
    unfold digit_val in E. change (ord zero_char) with 48. lia. }
  assert (10 ^ Z.of_nat (length t) <= 10 ^ Z.of_nat (length s)); [|nia].
  apply Z.pow_le_mono_r; simpl in *; lia.
Qed.

Lemma digits_val_same_length s t :
  forallb is_digit s = true -> forallb is_digit t = true -> length s = length t ->
  (digits_val s ?= digits_val t) = str_cmp s t.
Proof.
  revert t. induction s as [|c s IH]; intros [|d t]; try done.
  intros [Hc Hs]%andb_prop [Hd Ht]%andb_prop Hl. injection Hl as Hl.
  rewrite !digits_val_cons, Hl. simpl str_cmp.
  pose proof (digits_val_bound s Hs) as Bs. pose proof (digits_val_bound t Ht) as Bt.
  rewrite Hl in Bs. specialize (IH t Hs Ht Hl).
  pose proof (digit_val_range c Hc). pose proof (digit_val_range d Hd).
  set (P := 10 ^ Z.of_nat (length t)) in *. unfold digit_val in *.
  destruct (Z.compare_spec (ord c) (ord d)) as [E|E|E].
  - rewrite E, <- IH. by rewrite Z.add_compare_mono_l.
  - apply Z.compare_lt_iff. nia.
  - apply Z.compare_gt_iff. nia.
Qed.

Lemma forallb_drop_while (q p : ascii -> bool) s :
  forallb q s = true -> forallb q (drop_while p s) = true.
Proof. rewrite <- (span_app p s) at 1. rewrite forallb_app. by intros [_ ?]%andb_prop. Qed.

(** [str.splitlines()]: the line boundaries up to code point 255, "\r\n" being
    one; no line after a final boundary. *)
Definition is_line_break (c : ascii) : bool :=
  between 10 13 c || between 28 30 c || (ord c =? 133).
Fixpoint splitlines (s : pystr) : list pystr :=
  match s with
  | [] => []
  | c :: s' =>
      if is_line_break c then
        [] :: match s' with
              | d :: s'' => if (ord c =? 13) && (ord d =? 10) then splitlines s'' else splitlines s'
              | [] => []
              end
      else match splitlines s' with [] => [[c]] | w :: ws => (c :: w) :: ws end
  end.

(** A property of every character, by evaluation. *)
Lemma ascii_forall (P : ascii -> bool) :
  forallb (fun z => P (chr z)) (map Z.of_nat (List.seq 0 256)) = true -> forall c, P c = true.
Proof.
  intros H c. pose proof (range_forall (fun z => P (chr z)) 256 H (ord c) (ord_range c)) as Hc.
  assert (chr (ord c) = c) as E.
  { apply ord_inj, ord_chr, ord_range. }
  cbv beta in Hc. by rewrite E in Hc.
Qed.

Lemma replace1_cons c w d s : replace1 c w (d :: s) = (if bool_decide (d = c) then w else [d]) ++ replace1 c w s.
Proof. reflexivity. Qed.

Lemma split_on_none c s : has_char c s = false -> split_on c s = [s].
Proof.
  unfold has_char. induction s as [|d s IH]; simpl; [done|].
  intros [Hd Hs]%orb_false_elim. by rewrite Hd, IH.
Qed.

Lemma split_on_app c s t : has_char c s = false -> split_on c (s ++ c :: t) = s :: split_on c t.
Proof.
  unfold has_char. induction s as [|d s IH]; simpl.
  - intros _. by rewrite bool_decide_eq_true_2 by done.
  - intros [Hd Hs]%orb_false_elim. by rewrite Hd, IH.
Qed.

(** [str.split(None, n)]: words between runs of white space, at most [n] cuts;
    the last piece keeps the rest as it is. *)
Definition not_space (c : ascii) : bool := negb (is_space c).
Fixpoint split_ws (n : nat) (s : pystr) : list pystr :=
  match lstrip s with
  | [] => []
  | s' => match n with
          | O => [s']
          | S n => take_while not_space s' :: split_ws n (drop_while not_space s')
          end
  end.

(** A non-empty string without white space, and one that does not begin with it. *)
Definition is_word (w : pystr) : bool := negb (bool_decide (w = [])) && forallb not_space w.
Definition solid (s : pystr) : bool := match s with c :: _ => not_space c | [] => false end.

Lemma lstrip_solid s : solid s = true -> lstrip s = s.
Proof.
  destruct s as [|c s]; [done|]. unfold solid, not_space, lstrip. intros E%negb_true_iff. by apply dw_stop.
Qed.

Lemma is_word_solid w s : is_word w = true -> solid (w ++ s) = true.
Proof. destruct w as [|c w]; [done|]. unfold is_word. simpl. by intros [? _]%andb_prop. Qed.

Lemma span_word w s :
  forallb not_space w = true -> match s with c :: _ => is_space c | [] => true end = true ->
  take_while not_space (w ++ s) = w /\ drop_while not_space (w ++ s) = s.
Proof.
  intros Hw Hs. induction w as [|d w IH]; simpl.
  - destruct s as [|e s]; [done|]. unfold take_while, drop_while, not_space. simpl. by rewrite Hs.
  - apply andb_prop in Hw as [Hd Hw]. rewrite tw_cons, dw_cons by done. destruct (IH Hw) as [-> ->]. done.
Qed.

Lemma split_ws_word n w s :
  is_word w = true -> match s with c :: _ => is_space c | [] => true end = true ->
  split_ws (S n) (w ++ s) = w :: split_ws n s.
Proof.
  intros Hw Hs. cbn [split_ws]. rewrite lstrip_solid by by apply is_word_solid.
  unfold is_word in Hw. apply andb_prop in Hw as [Hne Hw]. destruct w as [|c w]; [done|]. cbn [app].
  destruct (span_word (c :: w) s Hw Hs) as [H1 H2]. cbn [app] in H1, H2. by rewrite H1, H2.
Qed.

Lemma partition1_app c s t : has_char c s = false -> partition1 c (s ++ c :: t) = (s, Some t).
Proof.
  unfold has_char. induction s as [|d s IH]; simpl; [by rewrite bool_decide_eq_true_2|].
  intros [Hd Hs]%orb_false_elim. rewrite Hd, IH; done.
Qed.

Lemma split_ws_rest s : solid s = true -> split_ws 0 (" "%char :: s) = [s].
Proof.
  intros Hs. cbn [split_ws]. unfold lstrip. rewrite dw_cons by done. fold (lstrip s). rewrite lstrip_solid by done.
  by destruct s.
Qed.
