(* ===== verification/Orders.v ===== *)
(** * Total preorders and padded lexicographic order

    Every version comparison of the program decides an order on strings and
    returns -1, 0 or 1.  [TotalPreorderCmp] is what a client of such a
    comparison relies on (sorting, range tests); [lexpad] is the reference
    order the implementations are related to: element-wise comparison of two
    sequences, the shorter one continued with a padding element. *)
From S2P Require Import Prelude PyStr.

(** A three-way comparison that decides a total preorder. *)
Class TotalPreorderCmp {A} (cmp : A -> A -> comparison) : Prop := {
  cmp_flip : forall x y, cmp y x = CompOpp (cmp x y);
  cmp_le_trans : forall x y z, cmp x y <> Gt -> cmp y z <> Gt -> cmp x z <> Gt
}.

#[global] Arguments cmp_flip {A} cmp {_} x y.
#[global] Arguments cmp_le_trans {A} cmp {_} x y z _ _.

Section Preorder.
Context {A : Type} (cmp : A -> A -> comparison) `{!TotalPreorderCmp cmp}.

Lemma cmp_refl x : cmp x x = Eq.
Proof. pose proof (cmp_flip cmp x x) as H. destruct (cmp x x); done. Qed.

Lemma cmp_gt_lt x y : cmp x y = Gt <-> cmp y x = Lt.
Proof. rewrite (cmp_flip cmp x y). destruct (cmp x y); simpl; split; done. Qed.

Lemma cmp_eq_sym x y : cmp x y = Eq -> cmp y x = Eq.
Proof. rewrite (cmp_flip cmp x y). by intros ->. Qed.

Lemma cmp_eq_split x y z :
  cmp x y <> Gt -> cmp y z <> Gt -> cmp x z = Eq -> cmp x y = Eq /\ cmp y z = Eq.
Proof.
  intros Hxy Hyz Hxz.
  assert (cmp z x <> Gt) as Hzx by (rewrite (cmp_flip cmp x z), Hxz; done).
  pose proof (cmp_le_trans cmp z x y Hzx Hxy) as Hzy.
  pose proof (cmp_le_trans cmp y z x Hyz Hzx) as Hyx.
  rewrite (cmp_flip cmp y z) in Hzy. rewrite (cmp_flip cmp x y) in Hyx.
  destruct (cmp x y), (cmp y z); simpl in *; done.
Qed.

Lemma cmp_eq_trans x y z : cmp x y = Eq -> cmp y z = Eq -> cmp x z = Eq.
Proof.
  intros Hxy Hyz.
  assert (cmp x z <> Gt) by (apply (cmp_le_trans cmp x y z); congruence).
  assert (cmp z x <> Gt).
  { apply (cmp_le_trans cmp z y x); [rewrite (cmp_flip cmp y z), Hyz|rewrite (cmp_flip cmp x y), Hxy]; done. }
  rewrite (cmp_flip cmp x z) in *. destruct (cmp x z); done.
Qed.
End Preorder.

(** -1, 0 or 1, as the Python functions return it. *)
Definition int_of_cmp (c : comparison) : Z :=
  match c with Lt => -1 | Eq => 0 | Gt => 1 end.
Definition cmp_of_int (z : Z) : comparison := z ?= 0.

Lemma cmp_of_int_of_cmp c : cmp_of_int (int_of_cmp c) = c.
Proof. by destruct c. Qed.

(** The contract of a comparison function that answers with an integer. *)
Class VersionOrder {A} (compare : A -> A -> Z) : Prop := {
  vo_range : forall a b, compare a b = -1 \/ compare a b = 0 \/ compare a b = 1;
  vo_refl : forall a, compare a a = 0;
  vo_flip : forall a b, compare b a = - compare a b;
  vo_trans : forall a b c, compare a b <= 0 -> compare b c <= 0 -> compare a c <= 0
}.

#[global] Arguments vo_range {A} compare {_} a b.
#[global] Arguments vo_refl {A} compare {_} a.
#[global] Arguments vo_flip {A} compare {_} a b.
#[global] Arguments vo_trans {A} compare {_} a b c _ _.

(** Any function that reads its answer off a total preorder of keys is one. *)
Lemma version_order_of_key {A K} (key : A -> K) (cmp : K -> K -> comparison)
    `{!TotalPreorderCmp cmp} (compare : A -> A -> Z) :
  (forall a b, compare a b = int_of_cmp (cmp (key a) (key b))) -> VersionOrder compare.
Proof.
  intros Hc. split.
  - intros a b. rewrite Hc. destruct (cmp _ _); simpl; auto.
  - intros a. rewrite Hc, cmp_refl; [done|apply _].
  - intros a b. rewrite !Hc, (cmp_flip cmp (key a) (key b)). by destruct (cmp _ _).
  - intros a b c. rewrite !Hc. intros H1 H2.
    assert (cmp (key a) (key c) <> Gt) as H3.
    { apply (cmp_le_trans cmp _ (key b)); [destruct (cmp (key a) _)|destruct (cmp (key b) _)];
        simpl in *; done || lia. }
    destruct (cmp (key a) (key c)); simpl; done || lia.
Qed.

(** ** Padded lexicographic order *)
Section LexPad.
Context {A : Type} (cmp : A -> A -> comparison) (pad : A).

Definition hd_pad (xs : list A) : A := match xs with [] => pad | x :: _ => x end.

Fixpoint lexn (n : nat) (xs ys : list A) : comparison :=
  match n with
  | O => Eq
  | S n => match cmp (hd_pad xs) (hd_pad ys) with
           | Eq => lexn n (tail xs) (tail ys)
           | c => c
           end
  end.

Definition lexpad (xs ys : list A) : comparison :=
  lexn (Nat.max (length xs) (length ys)) xs ys.

Context `{!TotalPreorderCmp cmp}.

Lemma lexn_nil n : lexn n [] [] = Eq.
Proof. induction n; simpl; [done|]. by rewrite cmp_refl. Qed.

Lemma lexn_more n m xs ys :
  (length xs <= n)%nat -> (length ys <= n)%nat -> (n <= m)%nat ->
  lexn m xs ys = lexn n xs ys.
Proof.
  revert m xs ys. induction n as [|n IH]; intros m xs ys Hx Hy Hm.
  - destruct xs, ys; simpl in *; try lia. apply lexn_nil.
  - destruct m as [|m]; [lia|]. simpl. rewrite IH; [done| | |lia].
    + destruct xs; simpl in *; lia.
    + destruct ys; simpl in *; lia.
Qed.

Lemma lexpad_lexn n xs ys :
  (length xs <= n)%nat -> (length ys <= n)%nat -> lexpad xs ys = lexn n xs ys.
Proof. intros. symmetry. apply lexn_more; lia. Qed.

Lemma lexn_flip n xs ys : lexn n ys xs = CompOpp (lexn n xs ys).
Proof.
  revert xs ys. induction n as [|n IH]; intros xs ys; simpl; [done|].
  rewrite (cmp_flip cmp (hd_pad xs) (hd_pad ys)).
  destruct (cmp (hd_pad xs) (hd_pad ys)); simpl; auto.
Qed.

Lemma lexn_trans n xs ys zs :
  lexn n xs ys <> Gt -> lexn n ys zs <> Gt -> lexn n xs zs <> Gt.
Proof.
  revert xs ys zs. induction n as [|n IH]; intros xs ys zs; simpl; [done|].
  set (x := hd_pad xs); set (y := hd_pad ys); set (z := hd_pad zs). intros H1 H2.
  assert (cmp x y <> Gt) as Hxy by (by destruct (cmp x y)).
  assert (cmp y z <> Gt) as Hyz by (by destruct (cmp y z)).
  pose proof (cmp_le_trans cmp x y z Hxy Hyz) as Hxz.
  destruct (cmp x z) eqn:E; [|done|done].
  destruct (cmp_eq_split cmp x y z Hxy Hyz E) as [Ha Hb].
  rewrite Ha in H1. rewrite Hb in H2. eauto.
Qed.

#[export] Instance lexpad_preorder : TotalPreorderCmp lexpad.
Proof.
  split.
  - intros xs ys. set (n := Nat.max (length xs) (length ys)).
    rewrite !(lexpad_lexn n) by lia. apply lexn_flip.
  - intros xs ys zs. set (n := (length xs + length ys + length zs)%nat).
    rewrite !(lexpad_lexn n) by lia. apply lexn_trans.
Qed.

(** Unfolding one element. *)
Lemma lexpad_step xs ys :
  xs <> [] \/ ys <> [] ->
  lexpad xs ys = match cmp (hd_pad xs) (hd_pad ys) with
                 | Eq => lexpad (tail xs) (tail ys)
                 | c => c
                 end.
Proof.
  intros H. set (n := (length xs + length ys)%nat).
  rewrite (lexpad_lexn (S n)) by lia. simpl.
  rewrite (lexpad_lexn n (tail xs) (tail ys)) by (destruct xs, ys; simpl in *; lia). done.
Qed.

Lemma lexpad_cons x y xs ys :
  lexpad (x :: xs) (y :: ys) =
    match cmp x y with Eq => lexpad xs ys | c => c end.
Proof. by rewrite lexpad_step by auto. Qed.

Lemma lexpad_nil_pad ys : lexpad [pad] ys = lexpad [] ys.
Proof.
  destruct ys as [|y ys].
  - rewrite lexpad_step by (by left). simpl. by rewrite cmp_refl.
  - by rewrite (lexpad_step [pad] (y :: ys)), (lexpad_step [] (y :: ys)) by (by right).
Qed.

Lemma lexpad_flip xs ys : lexpad ys xs = CompOpp (lexpad xs ys).
Proof. apply (cmp_flip lexpad). Qed.

Lemma lexpad_app_eq us vs xs ys :
  Forall2 (fun u v => cmp u v = Eq) us vs -> lexpad (us ++ xs) (vs ++ ys) = lexpad xs ys.
Proof.
  induction 1 as [|u v us vs H _ IH]; simpl; [done|]. by rewrite lexpad_cons, H.
Qed.

Lemma lexpad_app_same us xs ys : lexpad (us ++ xs) (us ++ ys) = lexpad xs ys.
Proof. induction us as [|u us IH]; simpl; [done|]. by rewrite lexpad_cons, cmp_refl. Qed.
End LexPad.

#[export] Instance Zcompare_preorder : TotalPreorderCmp Z.compare.
Proof.
  split; [intros; apply Z.compare_antisym|].
  intros x y z. rewrite !Z.compare_le_iff. lia.
Qed.

(** Comparison through a key. *)
Definition cmp_on {A K} (key : A -> K) (cmp : K -> K -> comparison) (x y : A) : comparison :=
  cmp (key x) (key y).

#[export] Instance cmp_on_preorder {A K} (key : A -> K) cmp `{!TotalPreorderCmp cmp} :
  TotalPreorderCmp (cmp_on key cmp).
Proof.
  split; intros; unfold cmp_on in *; [apply (cmp_flip cmp)|by eapply (cmp_le_trans cmp)].
Qed.

(** The first components decide, then the second ones. *)
Definition lex_pair {A B} (ca : A -> A -> comparison) (cb : B -> B -> comparison) (x y : A * B) : comparison :=
  match ca (fst x) (fst y) with Eq => cb (snd x) (snd y) | c => c end.

#[export] Instance lex_pair_preorder {A B} (ca : A -> A -> comparison) (cb : B -> B -> comparison)
    `{!TotalPreorderCmp ca, !TotalPreorderCmp cb} : TotalPreorderCmp (lex_pair ca cb).
Proof.
  split.
  - intros x y. unfold lex_pair. rewrite (cmp_flip ca (fst x)), (cmp_flip cb (snd x)).
    by destruct (ca (fst x) (fst y)).
  - intros [x1 x2] [y1 y2] [z1 z2]. unfold lex_pair. simpl. intros H1 H2.
    assert (ca x1 y1 <> Gt) as Ha by (by destruct (ca x1 y1)).
    assert (ca y1 z1 <> Gt) as Hb by (by destruct (ca y1 z1)).
    pose proof (cmp_le_trans ca x1 y1 z1 Ha Hb) as Hc.
    destruct (ca x1 z1) eqn:E; [|done|done].
    destruct (cmp_eq_split ca x1 y1 z1 Ha Hb E) as [Ea Eb].
    rewrite Ea in H1. rewrite Eb in H2. by eapply (cmp_le_trans cb).
Qed.

(** Integer sequences. *)
Lemma zlex_cons pad x y xs ys :
  lexpad Z.compare pad (x :: xs) (y :: ys) =
    match x ?= y with Eq => lexpad Z.compare pad xs ys | c => c end.
Proof. apply lexpad_cons, _. Qed.

Lemma zlex_nil_l pad y ys :
  lexpad Z.compare pad [] (y :: ys) =
    match pad ?= y with Eq => lexpad Z.compare pad [] ys | c => c end.
Proof. apply (lexpad_step Z.compare pad [] (y :: ys)). by right. Qed.

Lemma zlex_nil_r pad x xs :
  lexpad Z.compare pad (x :: xs) [] =
    match x ?= pad with Eq => lexpad Z.compare pad xs [] | c => c end.
Proof. apply (lexpad_step Z.compare pad (x :: xs) []). by left. Qed.

Create Rewrite HintDb zlex.
#[export] Hint Rewrite zlex_cons zlex_nil_l zlex_nil_r : zlex.

Lemma vo_trans_lt {A} (compare : A -> A -> Z) `{!VersionOrder compare} a b c :
  compare a b <= 0 -> compare b c < 0 -> compare a c < 0.
Proof.
  intros H1 H2. destruct (Z.lt_ge_cases (compare a c) 0) as [|Hge]; [done|exfalso].
  assert (compare c a <= 0) by (rewrite (vo_flip compare a c); lia).
  pose proof (vo_trans compare c a b ltac:(done) H1). rewrite (vo_flip compare b c) in *. lia.
Qed.

Lemma vo_lt_trans {A} (compare : A -> A -> Z) `{!VersionOrder compare} a b c :
  compare a b < 0 -> compare b c <= 0 -> compare a c < 0.
Proof.
  intros H1 H2. destruct (Z.lt_ge_cases (compare a c) 0) as [|Hge]; [done|exfalso].
  assert (compare c a <= 0) by (rewrite (vo_flip compare a c); lia).
  pose proof (vo_trans compare b c a H2 ltac:(done)). rewrite (vo_flip compare a b) in *. lia.
Qed.

(** Strings compare as padded sequences of code points. *)
Lemma str_cmp_lexpad a b : lexpad Z.compare (-1) (map ord a) (map ord b) = str_cmp a b.
Proof.
  revert b. induction a as [|c a IH]; intros [|d b]; simpl; [done| | |].
  - rewrite zlex_nil_l. pose proof (ord_range d).
    destruct (Z.compare_spec (-1) (ord d)); done || lia.
  - rewrite zlex_nil_r. pose proof (ord_range c).
    destruct (Z.compare_spec (ord c) (-1)); done || lia.
  - rewrite zlex_cons, IH. by destruct (ord c ?= ord d).
Qed.

Lemma str_cmp_eq a b : str_cmp a b = Eq -> a = b.
Proof.
  revert b. induction a as [|c a IH]; intros [|d b]; simpl; try done.
  destruct (Z.compare_spec (ord c) (ord d)) as [H| |]; try done.
  intros ?. f_equal; [by apply ord_inj|auto].
Qed.

Lemma str_cmp_refl a : str_cmp a a = Eq.
Proof. induction a; simpl; [done|]. by rewrite Z.compare_refl. Qed.
