(* ===== verification/Versions.v ===== *)
(** * Version comparison for CPE ranges (src/app/modules/cve/versions.py)

    The vulnerability matching decides with [matches] whether an installed
    version lies in the range a CVE names.  [compare] is shown to decide a
    total preorder by relating it to the padded lexicographic order of the
    token sequences, and the documented order of the elements is proved. *)
From S2P Require Import Prelude PyStr Orders.

(** ** Data: the tuples of [_key] *)

(** [(0, word)], [(1, "")] ([_END]), [(2, n)] and [(3, word)]. *)
Inductive elem : Type :=
| Pre (w : pystr)
| End_
| Num (n : Z)
| Word (w : pystr).

#[export] Instance elem_eq_dec : EqDecision elem.
Proof. solve_decision. Defined.

Definition ZERO : elem := Num 0.
Definition PRE_RELEASE : list pystr :=
  map py ["dev"; "alpha"; "beta"; "pre"; "preview"; "rc"]%string.

(** ** Tokens: [_TOKENS.findall], maximal runs of digits or of lower-case letters *)

Definition elem_of_token (t : pystr) : elem :=
  if forallb is_digit t then Num (digits_val t)
  else if bool_decide (t ∈ PRE_RELEASE) then Pre t
  else Word t.

Fixpoint tokens_fuel (fuel : nat) (s : pystr) : list elem :=
  match fuel, s with
  | O, _ | _, [] => []
  | S f, c :: _ =>
      if is_digit c then elem_of_token (take_while is_digit s) :: tokens_fuel f (drop_while is_digit s)
      else if is_lower c then elem_of_token (take_while is_lower s) :: tokens_fuel f (drop_while is_lower s)
      else tokens_fuel f (tail s)
  end.
Definition tokens (s : pystr) : list elem := tokens_fuel (length s) s.

(** [re.sub("^\d+:", "", s)] *)
Definition strip_epoch (s : pystr) : pystr :=
  match take_while is_digit s, drop_while is_digit s with
  | _ :: _, c :: rest => if bool_decide (c = ":"%char) then rest else s
  | _, _ => s
  end.

Definition key (version : pystr) : list elem := tokens (strip_epoch (lower (strip version))).

(** ** Comparison *)

(** [x < y] on the tuples: the kind, then the value. *)
Definition kind (e : elem) : Z :=
  match e with Pre _ => 0 | End_ => 1 | Num _ => 2 | Word _ => 3 end.
Definition elem_lt (x y : elem) : bool :=
  match x, y with
  | Pre a, Pre b | Word a, Word b => bool_decide (str_cmp a b = Lt)
  | Num a, Num b => a <? b
  | _, _ => kind x <? kind y
  end.

(** [{x, y} == {_END, _ZERO}] *)
Definition end_zero (x y : elem) : bool :=
  bool_decide ((x = End_ /\ y = ZERO) \/ (x = ZERO /\ y = End_)).

Definition pad_to (n : nat) (k : list elem) : list elem := k ++ replicate (n - length k) End_.

Fixpoint compare_loop (ps : list (elem * elem)) : Z :=
  match ps with
  | [] => 0
  | (x, y) :: ps' =>
      if end_zero x y then compare_loop ps'
      else if bool_decide (x <> y) then (if elem_lt x y then -1 else 1)
      else compare_loop ps'
  end.

Definition compare (a b : pystr) : Z :=
  let ka := key a in
  let kb := key b in
  let n := Nat.max (length ka) (length kb) in
  compare_loop (zip (pad_to n ka) (pad_to n kb)).

(** ** Range matching *)

(** An [Optional[str]] in a boolean position. *)
Definition truthy (o : option pystr) : bool :=
  match o with Some (_ :: _) => true | _ => false end.

(** [_TOKENS.search]: is there any token? *)
Definition has_token (s : pystr) : bool := existsb (fun c => is_digit c || is_lower c) s.

Definition is_known (version : option pystr) : bool :=
  match version with
  | Some (c :: s) =>
      negb (bool_decide (c :: s ∈ [py "*"; py "-"])) && has_token (lower (c :: s))
  | _ => false
  end.

Record criterion := {
  exact : option pystr;
  start_incl : option pystr;
  start_excl : option pystr;
  end_incl : option pystr;
  end_excl : option pystr
}.

(** A test [x and compare(version, x) ...] of the code. *)
Definition violates (bound : option pystr) (bad : Z -> bool) (v : pystr) : bool :=
  truthy bound && match bound with Some b => bad (compare v b) | None => false end.

Definition matches (version : option pystr) (c : criterion) : bool :=
  let has_range := truthy (start_incl c) || truthy (start_excl c)
                   || truthy (end_incl c) || truthy (end_excl c) in
  if is_known (exact c) then
    is_known version &&
    match version, exact c with Some v, Some x => compare v x =? 0 | _, _ => false end
  else if negb has_range then true
  else if negb (is_known version) then false
  else match version with
       | None => false
       | Some v =>
           if violates (start_incl c) (fun r => r <? 0) v then false
           else if violates (start_excl c) (fun r => r <=? 0) v then false
           else if violates (end_incl c) (fun r => 0 <? r) v then false
           else if violates (end_excl c) (fun r => 0 <=? r) v then false
           else true
       end.

(** ** The order [compare] decides *)

(** An element as a sequence of integers whose lexicographic order is the
    documented one: pre-release word < end of version = 0 < number < letter. *)
Definition elem_key (e : elem) : list Z :=
  match e with
  | Pre w => 0 :: map ord w
  | End_ => [1]
  | Num n => if bool_decide (n = 0) then [1] else [2; n]
  | Word w => 3 :: map ord w
  end.
Definition elem_cmp : elem -> elem -> comparison := cmp_on elem_key (lexpad Z.compare (-1)).

#[export] Instance elem_cmp_preorder : TotalPreorderCmp elem_cmp.
Proof. apply cmp_on_preorder, _. Qed.

(** Numbers of tokens are never negative. *)
Definition elem_wf (e : elem) : Prop := match e with Num n => 0 <= n | _ => True end.

Lemma end_zero_spec x y :
  end_zero x y = match x, y with
                 | End_, Num n | Num n, End_ => bool_decide (n = 0)
                 | _, _ => false
                 end.
Proof.
  unfold end_zero, ZERO. destruct x, y; try (apply bool_decide_eq_false; intuition congruence);
    apply bool_decide_ext; intuition congruence.
Qed.

(** One iteration of the loop of [compare]. *)
Lemma elem_step x y :
  elem_wf x -> elem_wf y ->
  elem_cmp x y =
    if end_zero x y then Eq
    else if bool_decide (x <> y) then (if elem_lt x y then Lt else Gt) else Eq.
Proof.
  intros Hx Hy. destruct (decide (x = y)) as [->|Hne].
  { rewrite (cmp_refl elem_cmp). destruct (end_zero y y); [done|]. by rewrite bool_decide_eq_false_2 by auto. }
  rewrite (bool_decide_eq_true_2 (x <> y)) by done.
  unfold elem_cmp, cmp_on.
  assert (forall a b, Word a <> Word b -> str_cmp a b <> Eq) as HW
    by (intros a b Hab E%str_cmp_eq; congruence).
  assert (forall a b, Pre a <> Pre b -> str_cmp a b <> Eq) as HP
    by (intros a b Hab E%str_cmp_eq; congruence).
  rewrite end_zero_spec.
  destruct x as [a| |n|a], y as [b| |m|b]; simpl in *; try congruence;
    try (destruct (bool_decide_reflect (n = 0)));
    try (destruct (bool_decide_reflect (m = 0)));
    subst; simpl; rewrite ?zlex_cons, ?str_cmp_lexpad; simpl; try done; try congruence.
  - specialize (HP a b Hne). by destruct (str_cmp a b).
  - destruct (Z.ltb_spec 0 m); done || lia.
  - destruct (Z.ltb_spec n 0); done || lia.
  - destruct (Z.compare_spec n m), (Z.ltb_spec n m); try done; lia || congruence.
  - specialize (HW a b Hne). by destruct (str_cmp a b).
Qed.

Lemma elem_of_token_wf t : elem_wf (elem_of_token t).
Proof.
  unfold elem_of_token. destruct (forallb is_digit t) eqn:E.
  - simpl. auto with ngc.
  - by case_bool_decide.
Qed.

Lemma tokens_fuel_wf f s : Forall elem_wf (tokens_fuel f s).
Proof.
  revert s. induction f as [|f IH]; intros [|c s]; simpl; try by constructor.
  destruct (is_digit c); [constructor; [apply elem_of_token_wf|apply IH]|].
  destruct (is_lower c); [constructor; [apply elem_of_token_wf|apply IH]|apply IH].
Qed.

Lemma key_wf v : Forall elem_wf (key v).
Proof. apply tokens_fuel_wf. Qed.

Lemma pad_to_cons n x k : pad_to (S n) (x :: k) = x :: pad_to n k.
Proof. done. Qed.

Lemma pad_to_nil n : pad_to (S n) [] = End_ :: pad_to n [].
Proof. unfold pad_to. by rewrite !app_nil_l, !Nat.sub_0_r. Qed.

Lemma compare_loop_lexn n ka kb :
  Forall elem_wf ka -> Forall elem_wf kb -> (length ka <= n)%nat -> (length kb <= n)%nat ->
  compare_loop (zip (pad_to n ka) (pad_to n kb)) = int_of_cmp (lexn elem_cmp End_ n ka kb).
Proof.
  revert ka kb. induction n as [|n IH]; intros ka kb Ha Hb Hla Hlb.
  - destruct ka, kb; simpl in *; done || lia.
  - assert (forall k, (length k <= S n)%nat ->
        pad_to (S n) k = hd_pad End_ k :: pad_to n (tail k)) as Hpad.
    { intros [|x k] ?; [apply pad_to_nil|apply pad_to_cons]. }
    rewrite !Hpad by done. simpl.
    assert (elem_wf (hd_pad End_ ka)) by (destruct Ha; done).
    assert (elem_wf (hd_pad End_ kb)) by (destruct Hb; done).
    rewrite elem_step by done.
    rewrite IH; [|destruct Ha; done|destruct Hb; done|destruct ka; simpl in *; lia|destruct kb; simpl in *; lia].
    destruct (end_zero _ _); [done|]. case_bool_decide; [|done]. by destruct (elem_lt _ _).
Qed.

(** The loop over the padded tuples is the padded lexicographic comparison of
    the keys. *)
Lemma compare_lexpad a b : compare a b = int_of_cmp (lexpad elem_cmp End_ (key a) (key b)).
Proof.
  unfold compare, lexpad. apply compare_loop_lexn; try apply key_wf; lia.
Qed.

#[export] Instance compare_order : VersionOrder compare.
Proof. eapply (version_order_of_key key (lexpad elem_cmp End_)), compare_lexpad. Qed.

(** ** Tokens of a concatenation *)

(** [p] and [q] meet at a token boundary. *)
Definition boundary (p q : pystr) : bool :=
  negb (joins is_digit p q) && negb (joins is_lower p q).

Lemma tokens_fuel_enough f s : (length s <= f)%nat -> tokens_fuel f s = tokens s.
Proof.
  unfold tokens. revert s.
  enough (forall n s f, (length s <= n)%nat -> (length s <= f)%nat ->
            tokens_fuel f s = tokens_fuel (length s) s) as H by (intros; eauto).
  clear f. induction n as [|n IH]; intros [|c s] f Hn Hf; simpl in *; try lia;
    try (by destruct f).
  destruct f as [|f]; [lia|]. simpl.
  assert (forall t m, (length t <= n)%nat -> (length t <= m)%nat -> (length t <= f)%nat ->
            tokens_fuel f t = tokens_fuel m t) as Heq.
  { intros t m H1 H2 H3. rewrite (IH t f), (IH t m); done. }
  destruct (is_digit c) eqn:Ed; [|destruct (is_lower c) eqn:El].
  - pose proof (drop_while_lt is_digit c s Ed). f_equal. apply Heq; lia.
  - pose proof (drop_while_lt is_lower c s El). f_equal. apply Heq; lia.
  - apply Heq; lia.
Qed.

(** The defining equation of [tokens], without fuel. *)
Lemma tokens_cons c s :
  tokens (c :: s) =
    if is_digit c then elem_of_token (take_while is_digit (c :: s)) :: tokens (drop_while is_digit (c :: s))
    else if is_lower c then elem_of_token (take_while is_lower (c :: s)) :: tokens (drop_while is_lower (c :: s))
    else tokens s.
Proof.
  unfold tokens at 1. cbn [tokens_fuel length list.tail].
  destruct (is_digit c) eqn:Ed; [|destruct (is_lower c) eqn:El; [|done]].
  - rewrite tokens_fuel_enough; [done|]. by apply drop_while_lt.
  - rewrite tokens_fuel_enough; [done|]. by apply drop_while_lt.
Qed.

Lemma tokens_app p q : boundary p q = true -> tokens (p ++ q) = tokens p ++ tokens q.
Proof.
  remember (length p) as n eqn:Hn. revert p Hn.
  induction n as [n IH] using (well_founded_induction lt_wf).
  intros [|c p] -> Hb; [done|]. unfold boundary in Hb.
  apply andb_prop in Hb as [H1%negb_true_iff H2%negb_true_iff].
  assert (forall r, (length (drop_while r (c :: p)) <= length p)%nat ->
            tokens (drop_while r (c :: p) ++ q) = tokens (drop_while r (c :: p)) ++ tokens q) as Hrec.
  { intros r Hr. eapply IH; [|done|]; [simpl; lia|].
    unfold boundary. by rewrite !joins_drop. }
  assert (forall r, joins r (c :: p) q = false ->
            take_while r ((c :: p) ++ q) = take_while r (c :: p) /\
            drop_while r ((c :: p) ++ q) = drop_while r (c :: p) ++ q) as Hspan.
  { intros r Hr. unfold take_while at 1, drop_while at 1. by rewrite span_joins. }
  change ((c :: p) ++ q) with (c :: (p ++ q)) in *. rewrite !tokens_cons.
  destruct (is_digit c) eqn:Ed; [|destruct (is_lower c) eqn:El].
  - destruct (Hspan is_digit H1) as [-> ->]. rewrite Hrec by (by apply drop_while_lt). done.
  - destruct (Hspan is_lower H2) as [-> ->]. rewrite Hrec by (by apply drop_while_lt). done.
  - destruct p as [|d p]; [done|]. apply (IH (length (d :: p))); [simpl; lia|done|].
    unfold boundary. rewrite joins_cons in H1, H2 by done. by rewrite H1, H2.
Qed.

(** ** Keys of extended versions *)

Lemma strip_epoch_suffix s : exists u, s = u ++ strip_epoch s.
Proof.
  unfold strip_epoch. pose proof (span_app is_digit s) as Hs.
  destruct (take_while is_digit s) as [|a t]; [by exists []|].
  destruct (drop_while is_digit s) as [|c r]; [by exists []|].
  case_bool_decide as Hc; [|by exists []]. exists ((a :: t) ++ [c]).
  rewrite <- Hs. by rewrite <- app_assoc.
Qed.

Lemma strip_epoch_app s c w :
  is_digit c = false -> c <> ":"%char -> strip_epoch (s ++ c :: w) = strip_epoch s ++ c :: w.
Proof.
  intros Hd Hc. unfold strip_epoch.
  destruct s as [|a s]; [by unfold take_while; simpl; rewrite Hd|].
  assert (joins is_digit (a :: s) (c :: w) = false) as Hj by (by apply joins_nil_head).
  unfold take_while at 1, drop_while at 1. rewrite span_joins by done. simpl fst; simpl snd.
  destruct (take_while is_digit (a :: s)); [done|].
  destruct (drop_while is_digit (a :: s)) as [|b r]; simpl.
  - by rewrite bool_decide_eq_false_2.
  - by case_bool_decide.
Qed.

Lemma tokens_spaces s ws : forallb is_space ws = true -> tokens (s ++ ws) = tokens s.
Proof.
  intros Hw.
  assert (forall c, is_space c = true -> is_digit c = false /\ is_lower c = false) as Hs.
  { intros c Hc. split; char_arith. }
  assert (tokens ws = []) as Hn.
  { induction ws as [|c ws IH]; [done|]. simpl in Hw. apply andb_prop in Hw as [Hc Hw].
    destruct (Hs c Hc) as [H1 H2]. rewrite tokens_cons, H1, H2. auto. }
  destruct ws as [|c ws]; [by rewrite app_nil_r|].
  simpl in Hw. apply andb_prop in Hw as [Hc Hw]. destruct (Hs c Hc) as [H1 H2].
  rewrite tokens_app, Hn, app_nil_r; [done|].
  unfold boundary. by rewrite !joins_nil_head.
Qed.

Lemma key_lstrip v : key v = tokens (strip_epoch (lower (lstrip v))).
Proof.
  unfold key, strip. destruct (rstrip_decompose (lstrip v)) as (ws & Hs & Hw).
  rewrite Hs at 2. rewrite lower_app, (lower_spaces ws) by done.
  destruct ws as [|c ws]; [by rewrite app_nil_r|].
  assert (is_space c = true) as Hc by (simpl in Hw; by apply andb_prop in Hw as [? _]).
  rewrite strip_epoch_app; [by rewrite tokens_spaces| |].
  - apply not_true_iff_false. intros E. by rewrite is_space_digit in Hc.
  - by intros ->.
Qed.

(** A suffix that starts a new token appends its tokens to the key. *)
Lemma key_app v w c w' t e :
  w = c :: w' -> w = t ++ [e] ->
  is_digit (lower1 c) = false -> lower1 c <> ":"%char -> is_space c = false -> is_space e = false ->
  boundary (lower v) (lower w) = true ->
  key (v ++ w) = key v ++ tokens (lower w).
Proof.
  intros Hw Hw' Hd Hc Hs He Hb. rewrite (key_lstrip v). unfold key, strip, lstrip.
  rewrite drop_while_app_stop by (by rewrite Hw). fold (lstrip v).
  rewrite Hw' at 1. rewrite rstrip_app_stop, <- Hw' by done. rewrite lower_app.
  rewrite Hw at 1. simpl lower at 2. rewrite strip_epoch_app by done.
  change (lower1 c :: lower w') with (lower (c :: w')). rewrite <- Hw. apply tokens_app.
  destruct (strip_epoch_suffix (lower (lstrip v))) as [u Hu].
  pose proof (span_app is_space v) as Hv. fold (lstrip v) in Hv.
  unfold boundary in *. apply andb_prop in Hb as [H1%negb_true_iff H2%negb_true_iff].
  rewrite <- Hv, lower_app, Hu in H1, H2.
  apply joins_suffix, joins_suffix in H1. apply joins_suffix, joins_suffix in H2.
  by rewrite H1, H2.
Qed.

Lemma lexpad_suffix k t : lexpad elem_cmp End_ (k ++ t) k = lexpad elem_cmp End_ t [].
Proof.
  rewrite <- (app_nil_r k) at 2. apply lexpad_app_same, _.
Qed.

Lemma compare_suffix v w c w' t e :
  w = c :: w' -> w = t ++ [e] ->
  is_digit (lower1 c) = false -> lower1 c <> ":"%char -> is_space c = false -> is_space e = false ->
  boundary (lower v) (lower w) = true ->
  compare (v ++ w) v = int_of_cmp (lexpad elem_cmp End_ (tokens (lower w)) []).
Proof. intros. erewrite compare_lexpad, key_app, lexpad_suffix by done. done. Qed.

Lemma boundary_digit u d w :
  is_digit d = true -> match w with c :: _ => is_digit c = false | [] => True end ->
  boundary (u ++ [d]) w = true.
Proof.
  intros Hd Hw. unfold boundary, joins. rewrite rev_app_distr. simpl.
  destruct w as [|c w]; [done|]. rewrite Hw, andb_false_r. simpl.
  replace (is_lower d) with false; [done|]. symmetry. char_arith.
Qed.

Lemma lower_digit u d : is_digit d = true -> lower (u ++ [d]) = lower u ++ [d].
Proof.
  intros Hd. rewrite lower_app. simpl. rewrite lower1_not_upper; [done|char_arith].
Qed.

Lemma compare_after_digit u d c w t e :
  is_digit d = true -> c :: w = t ++ [e] ->
  is_digit (lower1 c) = false -> lower1 c <> ":"%char -> is_space c = false -> is_space e = false ->
  compare ((u ++ [d]) ++ c :: w) (u ++ [d]) =
    int_of_cmp (lexpad elem_cmp End_ (tokens (lower (c :: w))) []).
Proof.
  intros Hd Hw Hc ???. eapply compare_suffix; [done|exact Hw| | | | |]; try done.
  rewrite lower_digit by done. by apply boundary_digit.
Qed.

(** ** Properties *)

(** [versions.compare] answers -1, 0 or 1 and decides a total preorder
    (reflexive, antisymmetric in sign, transitive) on all version strings,
    namely the padded lexicographic order of their token sequences. *)
Theorem compare_total_preorder :
  VersionOrder compare /\
  forall a b, compare a b = int_of_cmp (lexpad elem_cmp End_ (key a) (key b)).
Proof. split; [apply _|apply compare_lexpad]. Qed.

(** The documented order of what may follow a version that ends in a
    digit: a pre-release word is older, nothing and ".0" are the same, a
    further number and a letter are newer. *)
Theorem compare_suffix_order u d :
  is_digit d = true ->
  compare ((u ++ [d]) ++ py "rc1") (u ++ [d]) = -1 /\
  compare ((u ++ [d]) ++ py ".0") (u ++ [d]) = 0 /\
  compare ((u ++ [d]) ++ py ".1") (u ++ [d]) = 1 /\
  compare ((u ++ [d]) ++ py "a") (u ++ [d]) = 1.
Proof.
  intros Hd. unfold py; simpl. split_and!.
  - by rewrite (compare_after_digit _ _ _ _ (py "rc") "1").
  - by rewrite (compare_after_digit _ _ _ _ (py ".") "0").
  - by rewrite (compare_after_digit _ _ _ _ (py ".") "1").
  - by rewrite (compare_after_digit _ _ _ _ [] "a").
Qed.

Lemma compare_suffix_order_witness :
  is_digit "2"%char = true /\
  compare ((py "17." ++ ["2"%char]) ++ py "rc1") (py "17." ++ ["2"%char]) = -1.
Proof. split; [reflexivity|]. apply (compare_suffix_order (py "17.") "2"%char). reflexivity. Defined.

(** The four bounds of a range, as inequalities on [compare]. *)
Definition in_range (c : criterion) (v : pystr) : Prop :=
  (forall b, start_incl c = Some b -> b <> [] -> 0 <= compare v b) /\
  (forall b, start_excl c = Some b -> b <> [] -> 0 < compare v b) /\
  (forall b, end_incl c = Some b -> b <> [] -> compare v b <= 0) /\
  (forall b, end_excl c = Some b -> b <> [] -> compare v b < 0).

Lemma violates_false b bad v :
  violates b bad v = false <-> forall x, b = Some x -> x <> [] -> bad (compare v x) = false.
Proof.
  unfold violates, truthy. split.
  - intros H x -> Hx. by destruct x.
  - intros H. destruct b as [[|c x]|]; try done. simpl. by apply H.
Qed.

Lemma matches_range v c :
  is_known (exact c) = false ->
  truthy (start_incl c) || truthy (start_excl c) || truthy (end_incl c) || truthy (end_excl c) = true ->
  matches (Some v) c = true <-> is_known (Some v) = true /\ in_range c v.
Proof.
  intros He Hr. unfold matches, in_range. rewrite He, Hr. cbn [negb].
  destruct (is_known (Some v)); cbn [negb]; [|intuition done].
  destruct (violates (start_incl c) _ v) eqn:E1; [|destruct (violates (start_excl c) _ v) eqn:E2;
    [|destruct (violates (end_incl c) _ v) eqn:E3; [|destruct (violates (end_excl c) _ v) eqn:E4]]].
  all: rewrite ?violates_false in *.
  5: { split; [|done]. intros _. split_and!; [done|..]; intros b Hb Hne;
       [specialize (E1 b Hb Hne)|specialize (E2 b Hb Hne)|specialize (E3 b Hb Hne)|specialize (E4 b Hb Hne)];
       lia. }
  all: split; [done|]; intros (_ & H1 & H2 & H3 & H4); exfalso.
  all: match goal with E : violates ?b _ _ = true |- _ =>
         revert E; apply not_true_iff_false, violates_false; intros x Hx Hne end.
  - specialize (H1 x Hx Hne). lia.
  - specialize (H2 x Hx Hne). lia.
  - specialize (H3 x Hx Hne). lia.
  - specialize (H4 x Hx Hne). lia.
Qed.

(** A version range is an interval of the order: a known version between
    two matching versions matches too. *)
Theorem matches_interval c lo v hi :
  is_known (exact c) = false -> is_known (Some v) = true ->
  matches (Some lo) c = true -> matches (Some hi) c = true ->
  compare lo v <= 0 -> compare v hi <= 0 -> matches (Some v) c = true.
Proof.
  intros He Hv Hlo Hhi H1 H2.
  destruct (truthy (start_incl c) || truthy (start_excl c) || truthy (end_incl c) || truthy (end_excl c))
    eqn:Hr; [|by unfold matches; rewrite He, Hr].
  rewrite matches_range in * by done. split; [done|].
  destruct Hlo as (_ & L1 & L2 & _ & _), Hhi as (_ & _ & _ & U3 & U4).
  split_and!; intros b Hb Hne.
  - specialize (L1 b Hb Hne). rewrite (vo_flip compare b v).
    assert (compare b lo <= 0) by (rewrite (vo_flip compare lo b); lia).
    pose proof (vo_trans compare b lo v). lia.
  - specialize (L2 b Hb Hne). rewrite (vo_flip compare b v).
    destruct (Z.lt_ge_cases (compare b v) 0); [lia|exfalso].
    assert (compare v b <= 0) by (rewrite (vo_flip compare b v); lia).
    pose proof (vo_trans compare lo v b). lia.
  - specialize (U3 b Hb Hne). pose proof (vo_trans compare v hi b). lia.
  - specialize (U4 b Hb Hne). by apply (vo_trans_lt compare v hi b).
Qed.

Definition fortios_range : criterion :=
  {| exact := None; start_incl := Some (py "7.2.0"); start_excl := None;
     end_incl := None; end_excl := Some (py "7.2.8") |}.

Lemma matches_interval_witness : matches (Some (py "7.2.5")) fortios_range = true.
Proof.
  apply (matches_interval fortios_range (py "7.2.0") (py "7.2.5") (py "7.2.7")); vm_compute; congruence.
Defined.

(** An asset whose version is unknown never matches a criterion that names
    a version or a range, and a criterion without either covers every version. *)
Theorem matches_unknown v c :
  is_known v = false ->
  matches v c = negb (is_known (exact c) || truthy (start_incl c) || truthy (start_excl c)
                      || truthy (end_incl c) || truthy (end_excl c)).
Proof.
  intros Hv. unfold matches. rewrite Hv. destruct (is_known (exact c)); [done|].
  by destruct (truthy (start_incl c)), (truthy (start_excl c)), (truthy (end_incl c)), (truthy (end_excl c)).
Qed.

Lemma matches_unknown_witness : matches None fortios_range = false.
Proof. rewrite (matches_unknown None fortios_range); reflexivity. Defined.
