(* ===== verification/PkgVersions.v ===== *)
(** * Package version order (src/app/modules/advisories/versions.py)

    The comparison of distribution packages, by the rules of dpkg and rpm.
    Each scanner is translated with its two cursors as the two remaining
    suffixes, and is related to a reference order: the padded lexicographic
    comparison of the key a version string denotes.  Version strings are ASCII
    text, as both package managers require. *)
From S2P Require Import Prelude PyStr Orders.

(** What one inner loop of a scanner does: return, or go on with the cursors. *)
Inductive scan : Type :=
| Return (r : Z)
| Continue (a b : pystr).

Definition head_is (p : ascii -> bool) (s : pystr) : bool :=
  match s with c :: _ => p c | [] => false end.

(** [x or y] on integers. *)
Definition or_else (x y : Z) : Z := if x =? 0 then y else x.

Module Deb.
(** [_deb_split] *)
Definition deb_split (v0 : pystr) : Z * pystr * pystr :=
  let v1 := strip v0 in
  let '(epoch, v) :=
    match partition1 ":"%char v1 with
    | (e, Some rest) =>
        if negb (bool_decide (e = [])) && forallb is_digit e then (digits_val e, rest) else (0, v1)
    | (_, None) => (0, v1)
    end in
  match rsplit1 "-"%char v with
  | Some (upstream, revision) => (epoch, upstream, revision)
  | None => (epoch, v, [])
  end.

(** [_deb_order] *)
Definition deb_order (c : ascii) : Z :=
  if is_digit c then 0
  else if is_alpha c then ord c
  else if bool_decide (c = "~"%char) then -1
  else ord c + 256.

Definition order_at (s : pystr) : Z := match s with c :: _ => deb_order c | [] => 0 end.
Definition nondigit_at (s : pystr) : bool := head_is (fun c => negb (is_digit c)) s.

(** The first inner loop: the non-digit prefixes. *)
Fixpoint nondigits (fuel : nat) (a b : pystr) : scan :=
  match fuel with
  | O => Continue a b
  | S f =>
      if nondigit_at a || nondigit_at b then
        let ac := order_at a in
        let bc := order_at b in
        if negb (ac =? bc) then Return (if ac <? bc then -1 else 1)
        else nondigits f (tail a) (tail b)
      else Continue a b
  end.

(** [(x > y) - (x < y)] *)
Definition sign_of (c d : ascii) : Z := int_of_cmp (ord c ?= ord d).

(** The last inner loop: two digit runs side by side, the first difference kept. *)
Fixpoint digit_runs (first_diff : Z) (a b : pystr) : Z * pystr * pystr :=
  match a, b with
  | c :: a', d :: b' =>
      if is_digit c && is_digit d then
        digit_runs (if first_diff =? 0 then sign_of c d else first_diff) a' b'
      else (first_diff, a, b)
  | _, _ => (first_diff, a, b)
  end.

(** [_verrevcmp], one round of its outer loop per unit of fuel. *)
Fixpoint verrevcmp_fuel (fuel : nat) (a b : pystr) : Z :=
  match fuel with
  | O => 0
  | S f =>
      match a, b with
      | [], [] => 0
      | _, _ =>
          match nondigits (length a + length b) a b with
          | Return r => r
          | Continue a1 b1 =>
              let '(first_diff, a2, b2) :=
                digit_runs 0 (drop_while is_zero_char a1) (drop_while is_zero_char b1) in
              if head_is is_digit a2 then 1
              else if head_is is_digit b2 then -1
              else if negb (first_diff =? 0) then first_diff
              else verrevcmp_fuel f a2 b2
          end
      end
  end.
Definition verrevcmp (a b : pystr) : Z := verrevcmp_fuel (S (length a + length b)) a b.

(** [deb_compare] *)
Definition deb_compare (a b : pystr) : Z :=
  let '(ea, ua, ra) := deb_split a in
  let '(eb, ub, rb) := deb_split b in
  if negb (ea =? eb) then (if ea <? eb then -1 else 1)
  else or_else (verrevcmp ua ub) (verrevcmp ra rb).

(** ** The key of a version part

    Runs of non-digits by their order, each ended by 0, then the number that
    follows; the shorter key goes on with zeros. *)
Definition nondigit (c : ascii) : bool := negb (is_digit c).

Fixpoint deb_key_fuel (fuel : nat) (s : pystr) : list Z :=
  match fuel, s with
  | O, _ | _, [] => []
  | S f, _ =>
      let rest := drop_while nondigit s in
      map deb_order (take_while nondigit s) ++
      0 :: digits_val (take_while is_digit rest) :: deb_key_fuel f (drop_while is_digit rest)
  end.
Definition deb_key (s : pystr) : list Z := deb_key_fuel (length s) s.

Definition deb_lex : list Z -> list Z -> comparison := lexpad Z.compare 0.

(** ** The scanner computes the order of the keys *)

Lemma deb_order_nonzero c : is_digit c = false -> deb_order c <> 0.
Proof.
  intros Hd. unfold deb_order. rewrite Hd. pose proof (ord_range c).
  destruct (is_alpha c) eqn:E; [char_arith|]. case_bool_decide; lia.
Qed.

(** Also the empty string is a (zero) non-digit part and a (zero) number. *)
Lemma deb_lex_unfold_l f s ys :
  (length s <= f)%nat ->
  deb_lex (deb_key_fuel f s) ys =
    deb_lex (map deb_order (take_while nondigit s) ++
             0 :: digits_val (take_while is_digit (drop_while nondigit s)) ::
             deb_key_fuel (pred f) (drop_while is_digit (drop_while nondigit s))) ys.
Proof.
  intros Hf. destruct s as [|c s].
  - assert (forall g, deb_key_fuel g [] = []) as Hn by (by intros []).
    change (take_while nondigit []) with (@nil ascii). change (drop_while nondigit []) with (@nil ascii).
    change (drop_while is_digit []) with (@nil ascii). change (digits_val (take_while is_digit [])) with 0.
    rewrite !Hn. simpl app. unfold deb_lex.
    rewrite <- (lexpad_nil_pad Z.compare 0 ys).
    destruct ys as [|y ys]; [reflexivity|].
    rewrite !zlex_cons. destruct (0 ?= y); [|done|done]. symmetry. apply lexpad_nil_pad, _.
  - destruct f as [|f]; [simpl in Hf; lia|]. done.
Qed.

Lemma deb_lex_unfold f g s t :
  (length s <= f)%nat -> (length t <= g)%nat ->
  deb_lex (deb_key_fuel f s) (deb_key_fuel g t) =
    deb_lex (map deb_order (take_while nondigit s) ++
             0 :: digits_val (take_while is_digit (drop_while nondigit s)) ::
             deb_key_fuel (pred f) (drop_while is_digit (drop_while nondigit s)))
            (map deb_order (take_while nondigit t) ++
             0 :: digits_val (take_while is_digit (drop_while nondigit t)) ::
             deb_key_fuel (pred g) (drop_while is_digit (drop_while nondigit t))).
Proof.
  intros Hs Ht. rewrite deb_lex_unfold_l by done. unfold deb_lex.
  rewrite (lexpad_flip _ _ (deb_key_fuel g t)). fold deb_lex.
  rewrite deb_lex_unfold_l by done. unfold deb_lex. by rewrite <- (lexpad_flip _ _).
Qed.

Lemma nondigits_spec fuel a b :
  (length a <= fuel)%nat -> (length b <= fuel)%nat ->
  match nondigits fuel a b with
  | Return r => forall X Y,
      int_of_cmp (deb_lex (map deb_order (take_while nondigit a) ++ 0 :: X)
                          (map deb_order (take_while nondigit b) ++ 0 :: Y)) = r
  | Continue a1 b1 =>
      a1 = drop_while nondigit a /\ b1 = drop_while nondigit b /\
      map deb_order (take_while nondigit a) = map deb_order (take_while nondigit b)
  end.
Proof.
  revert a b. induction fuel as [|fuel IH]; intros a b Ha Hb; simpl.
  { by destruct a, b; simpl in *; try lia. }
  assert (forall s, nondigit_at s = false ->
            take_while nondigit s = [] /\ drop_while nondigit s = s /\ order_at s = 0) as Hstop.
  { intros [|c s]; [done|]. unfold nondigit_at; simpl. intros Hc.
    rewrite tw_stop, dw_stop by done. unfold deb_order. by apply negb_false_iff in Hc as ->. }
  assert (forall s, nondigit_at s = true -> exists c t, s = c :: t /\ nondigit c = true /\
            order_at s = deb_order c /\ deb_order c <> 0) as Hgo.
  { intros [|c s]; [done|]. unfold nondigit_at; simpl. intros Hc. exists c, s.
    split_and!; try done. apply deb_order_nonzero. by apply negb_true_iff in Hc. }
  destruct (nondigit_at a) eqn:Ea, (nondigit_at b) eqn:Eb; simpl.
  - destruct (Hgo a Ea) as (c & s & -> & Hc & -> & _), (Hgo b Eb) as (d & t & -> & Hd & -> & _).
    rewrite !tw_cons, !dw_cons by done. simpl.
    destruct (Z.eqb_spec (deb_order c) (deb_order d)) as [E|E]; simpl.
    + specialize (IH s t ltac:(simpl in *; lia) ltac:(simpl in *; lia)).
      destruct (nondigits fuel s t).
      * intros X Y. unfold deb_lex. rewrite zlex_cons, E, Z.compare_refl. apply IH.
      * destruct IH as (-> & -> & ->). by rewrite E.
    + intros X Y. unfold deb_lex. rewrite zlex_cons.
      destruct (Z.compare_spec (deb_order c) (deb_order d)), (Z.ltb_spec (deb_order c) (deb_order d));
        done || lia.
  - destruct (Hgo a Ea) as (c & s & -> & Hc & -> & Hn), (Hstop b Eb) as (-> & -> & ->).
    rewrite (proj2 (Z.eqb_neq _ _)) by done. simpl. rewrite tw_cons by done.
    intros X Y. simpl. unfold deb_lex. rewrite zlex_cons.
    destruct (Z.compare_spec (deb_order c) 0), (Z.ltb_spec (deb_order c) 0); done || lia.
  - destruct (Hgo b Eb) as (c & s & -> & Hc & -> & Hn), (Hstop a Ea) as (-> & -> & ->).
    rewrite (proj2 (Z.eqb_neq _ _)) by done. simpl. rewrite tw_cons by done.
    intros X Y. simpl. unfold deb_lex. rewrite zlex_cons.
    destruct (Z.compare_spec 0 (deb_order c)), (Z.ltb_spec 0 (deb_order c)); done || lia.
  - destruct (Hstop a Ea) as (-> & -> & _), (Hstop b Eb) as (-> & -> & _). done.
Qed.

Lemma digit_runs_spec fd a b :
  let '(d, a2, b2) := digit_runs fd a b in
  let ra := take_while is_digit a in
  let rb := take_while is_digit b in
  head_is is_digit a2 = (length rb <? length ra)%nat /\
  head_is is_digit b2 = (length ra <? length rb)%nat /\
  (length ra = length rb ->
    a2 = drop_while is_digit a /\ b2 = drop_while is_digit b /\
    d = or_else fd (int_of_cmp (str_cmp ra rb))).
Proof.
  assert (forall x, or_else x 0 = x) as Hor by (intros x; unfold or_else; destruct (Z.eqb_spec x 0); lia).
  revert fd b. induction a as [|c a IH]; intros fd b.
  - destruct b as [|d b]; simpl.
    { split_and!; [done|done|]. intros _. by rewrite Hor. }
    destruct (is_digit d) eqn:Hd.
    + rewrite tw_cons by done. simpl. split_and!; done.
    + rewrite tw_stop, dw_stop by done. split_and!; [done|done|]. intros _. by rewrite Hor.
  - destruct b as [|d b]; simpl.
    { destruct (is_digit c) eqn:Hc.
      - rewrite tw_cons by done. split_and!; done.
      - rewrite tw_stop, dw_stop by done. split_and!; [done|done|]. intros _. by rewrite Hor. }
    destruct (is_digit c) eqn:Hc, (is_digit d) eqn:Hd; simpl; rewrite ?Hc, ?Hd.
    + specialize (IH (if fd =? 0 then sign_of c d else fd) b).
      destruct (digit_runs _ a b) as [[z a2] b2]. rewrite !tw_cons, !dw_cons by done.
      simpl. destruct IH as (H1 & H2 & H3). split_and!; [done|done|].
      intros Hl. injection Hl as Hl. destruct (H3 Hl) as (-> & -> & ->). split_and!; [done|done|].
      unfold or_else, sign_of. destruct (Z.eqb_spec fd 0) as [->|Hfd]; simpl.
      * by destruct (ord c ?= ord d).
      * by rewrite (proj2 (Z.eqb_neq _ _)).
    + rewrite (tw_cons _ c), (tw_stop _ d) by done. simpl. split_and!; done.
    + rewrite (tw_stop _ c), (tw_cons _ d) by done. simpl. split_and!; done.
    + rewrite !tw_stop, !dw_stop by done. split_and!; [done|done|]. intros _. by rewrite Hor.
Qed.

Lemma zero_is_digit c : is_zero_char c = true -> is_digit c = true.
Proof. intros ->%bool_decide_eq_true. done. Qed.

(** Leading zeros change neither the rest nor the number. *)
Lemma drop_zeros_spec s :
  let s' := drop_while is_zero_char s in
  drop_while is_digit s' = drop_while is_digit s /\
  digits_val (take_while is_digit s') = digits_val (take_while is_digit s).
Proof.
  induction s as [|c s IH]; [done|]. simpl in *.
  destruct (is_zero_char c) eqn:Hz; [|by rewrite dw_stop].
  pose proof (zero_is_digit c Hz). rewrite dw_cons, (dw_cons is_digit c s), tw_cons by done.
  destruct IH as [-> ->]. split; [done|]. apply bool_decide_eq_true in Hz as ->.
  rewrite digits_val_cons. change (digit_val zero_char) with 0. lia.
Qed.

Lemma stripped_head s c t : take_while is_digit (drop_while is_zero_char s) = c :: t -> is_zero_char c = false.
Proof.
  pose proof (drop_while_head is_zero_char s). destruct (drop_while is_zero_char s) as [|d r]; [done|].
  destruct (is_digit d) eqn:Hd; [rewrite tw_cons by done; congruence|by rewrite tw_stop].
Qed.

(** One round of the outer loop decides the non-digit part and the number. *)
Lemma round_spec a b :
  let ra := take_while is_digit (drop_while is_zero_char a) in
  let rb := take_while is_digit (drop_while is_zero_char b) in
  int_of_cmp (digits_val (take_while is_digit a) ?= digits_val (take_while is_digit b)) =
    if (length rb <? length ra)%nat then 1
    else if (length ra <? length rb)%nat then -1 else int_of_cmp (str_cmp ra rb).
Proof.
  intros ra rb. destruct (drop_zeros_spec a) as [_ <-], (drop_zeros_spec b) as [_ <-].
  fold ra rb. pose proof (take_while_all is_digit (drop_while is_zero_char a)) as Da.
  pose proof (take_while_all is_digit (drop_while is_zero_char b)) as Db. fold ra in Da. fold rb in Db.
  destruct (Nat.ltb_spec (length rb) (length ra)) as [Hl|Hl];
    [|destruct (Nat.ltb_spec (length ra) (length rb)) as [Hl'|Hl']].
  - destruct ra as [|c t] eqn:E; [simpl in Hl; lia|].
    pose proof (digits_val_longer c t rb Da (stripped_head a c t E) Db Hl) as H.
    by apply Z.compare_gt_iff in H as ->.
  - destruct rb as [|c t] eqn:E; [simpl in Hl'; lia|].
    pose proof (digits_val_longer c t ra Db (stripped_head b c t E) Da Hl') as H.
    by apply Z.compare_lt_iff in H as ->.
  - rewrite digits_val_same_length; [done..|lia].
Qed.

Lemma drop_parts_shorter s :
  (length (drop_while is_digit (drop_while nondigit s)) <= length s)%nat /\
  (s <> [] -> (length (drop_while is_digit (drop_while nondigit s)) < length s)%nat).
Proof.
  pose proof (drop_while_length is_digit (drop_while nondigit s)).
  pose proof (drop_while_length nondigit s). split; [lia|].
  destruct s as [|c s]; [done|]. intros _. destruct (is_digit c) eqn:Hc.
  - rewrite (dw_stop nondigit) by (unfold nondigit; by rewrite Hc).
    pose proof (drop_while_lt is_digit c s Hc). simpl. lia.
  - assert (nondigit c = true) as Hn by (unfold nondigit; by rewrite Hc).
    pose proof (drop_while_lt nondigit c s Hn). simpl. lia.
Qed.

Lemma deb_key_fuel_enough f s : (length s <= f)%nat -> deb_key_fuel f s = deb_key s.
Proof.
  unfold deb_key. revert f. induction s as [s IH] using (induction_ltof1 _ (@length ascii)).
  unfold ltof in IH. intros f Hf. destruct s as [|c s]; [by destruct f|].
  destruct f as [|f]; [simpl in Hf; lia|]. cbn [deb_key_fuel length].
  destruct (drop_parts_shorter (c :: s)) as [_ Hlt]. specialize (Hlt ltac:(done)).
  do 3 f_equal. rewrite IH by (simpl in *; lia). symmetry. apply IH; simpl in *; lia.
Qed.

Lemma verrevcmp_fuel_spec fuel a b :
  (length a + length b < fuel)%nat ->
  verrevcmp_fuel fuel a b = int_of_cmp (deb_lex (deb_key a) (deb_key b)).
Proof.
  revert a b. induction fuel as [|fuel IH]; intros a b Hf; [lia|].
  assert (verrevcmp_fuel (S fuel) a b =
            if bool_decide (a = [] /\ b = []) then 0 else
            match nondigits (length a + length b) a b with
            | Return r => r
            | Continue a1 b1 =>
                let '(first_diff, a2, b2) :=
                  digit_runs 0 (drop_while is_zero_char a1) (drop_while is_zero_char b1) in
                if head_is is_digit a2 then 1
                else if head_is is_digit b2 then -1
                else if negb (first_diff =? 0) then first_diff
                else verrevcmp_fuel fuel a2 b2
            end) as -> by (by destruct a, b).
  case_bool_decide as Hnil; [by destruct Hnil as [-> ->]|].
  unfold deb_key. rewrite deb_lex_unfold by done.
  pose proof (nondigits_spec (length a + length b) a b ltac:(lia) ltac:(lia)) as Hnd.
  destruct (nondigits _ a b) as [r|a1 b1]; [by rewrite Hnd|].
  destruct Hnd as (-> & -> & Heq). set (a1 := drop_while nondigit a). set (b1 := drop_while nondigit b).
  rewrite Heq. unfold deb_lex at 1.
  rewrite (lexpad_app_same Z.compare 0), !zlex_cons by apply _. simpl (0 ?= 0).
  pose proof (digit_runs_spec 0 (drop_while is_zero_char a1) (drop_while is_zero_char b1)) as Hruns.
  pose proof (round_spec a1 b1) as Hround. simpl in Hround.
  destruct (digit_runs 0 _ _) as [[d a2] b2]. destruct Hruns as (-> & -> & Hrest).
  destruct (_ <? _)%nat eqn:E1; [by destruct (_ ?= _)|].
  destruct (length (take_while is_digit (drop_while is_zero_char a1)) <? _)%nat eqn:E2;
    [by destruct (_ ?= _)|].
  apply Nat.ltb_ge in E1, E2. destruct (Hrest ltac:(lia)) as (-> & -> & ->). unfold or_else.
  rewrite Z.eqb_refl, <- Hround.
  destruct (drop_zeros_spec a1) as [-> _], (drop_zeros_spec b1) as [-> _].
  destruct (drop_parts_shorter a) as [La La'], (drop_parts_shorter b) as [Lb Lb'].
  fold a1 in La, La'. fold b1 in Lb, Lb'.
  assert (length (drop_while is_digit a1) + length (drop_while is_digit b1) < length a + length b)%nat.
  { destruct (decide (a = [])) as [Ea|Ha]; [|specialize (La' Ha); lia].
    destruct (decide (b = [])) as [Eb|Hb]; [by exfalso; auto|specialize (Lb' Hb); lia]. }
  destruct (digits_val (take_while is_digit a1) ?= _) eqn:Ec; simpl; try done.
  assert (length (drop_while is_digit a1) <= pred (length a))%nat.
  { destruct (decide (a = [])) as [Ea|Ha]; [rewrite Ea in *; simpl in *; lia|specialize (La' Ha); lia]. }
  assert (length (drop_while is_digit b1) <= pred (length b))%nat.
  { destruct (decide (b = [])) as [Eb|Hb]; [rewrite Eb in *; simpl in *; lia|specialize (Lb' Hb); lia]. }
  rewrite IH by lia. rewrite (deb_key_fuel_enough (pred (length a))) by done.
  by rewrite (deb_key_fuel_enough (pred (length b))) by done.
Qed.

(** The scanner always returns, and returns the order of the keys. *)
Lemma verrevcmp_key a b : verrevcmp a b = int_of_cmp (deb_lex (deb_key a) (deb_key b)).
Proof. apply verrevcmp_fuel_spec. lia. Qed.

(** ** The whole version: epoch, upstream, revision *)

Definition full_key (v : pystr) : Z * list Z * list Z :=
  let '(e, u, r) := deb_split v in (e, deb_key u, deb_key r).
Definition full_cmp : Z * list Z * list Z -> Z * list Z * list Z -> comparison :=
  lex_pair (lex_pair Z.compare deb_lex) deb_lex.

Lemma deb_compare_key a b : deb_compare a b = int_of_cmp (full_cmp (full_key a) (full_key b)).
Proof.
  unfold deb_compare, full_key, full_cmp, lex_pair.
  destruct (deb_split a) as [[ea ua] ra], (deb_split b) as [[eb ub] rb]. simpl.
  rewrite !verrevcmp_key.
  destruct (Z.eqb_spec ea eb) as [->|Hne]; simpl.
  - rewrite Z.compare_refl. by destruct (deb_lex (deb_key ua) _).
  - destruct (Z.compare_spec ea eb), (Z.ltb_spec ea eb); done || lia.
Qed.

#[export] Instance deb_lex_preorder : TotalPreorderCmp deb_lex.
Proof. apply lexpad_preorder, _. Qed.

#[export] Instance deb_version_order : VersionOrder deb_compare.
Proof. apply (version_order_of_key full_key full_cmp), deb_compare_key. Qed.
End Deb.

Module Rpm.
Definition rpm_alnum (c : ascii) : bool := is_alnum c.
Definition skipped (c : ascii) : bool :=
  negb (rpm_alnum c) && negb (has_char c (py "~^")).
Definition starts (k : ascii) (s : pystr) : bool := head_is (fun c => bool_decide (c = k)) s.
Definition empty (s : pystr) : bool := match s with [] => true | _ => false end.

(** The answer after the loop. *)
Definition leftover (a b : pystr) : Z :=
  if empty a && empty b then 0 else if empty a then -1 else 1.

(** Segments of different kinds, or of one kind. *)
Definition segments (isnum : bool) (sa sb : pystr) : Z :=
  if empty sb then (if isnum then 1 else -1)
  else
    let sa' := if isnum then drop_while is_zero_char sa else sa in
    let sb' := if isnum then drop_while is_zero_char sb else sb in
    if isnum && negb (length sa' =? length sb')%nat
    then (if (length sb' <? length sa')%nat then 1 else -1)
    else int_of_cmp (str_cmp sa' sb').

(** The loop of [rpmvercmp], the cursors as the remaining suffixes. *)
Fixpoint rpm_loop (fuel : nat) (a b : pystr) : Z :=
  match fuel with
  | O => 0
  | S f =>
      if empty a && empty b then 0
      else
        let a1 := drop_while skipped a in
        let b1 := drop_while skipped b in
        if starts "~"%char a1 || starts "~"%char b1 then
          if negb (starts "~"%char a1) then 1
          else if negb (starts "~"%char b1) then -1
          else rpm_loop f (tail a1) (tail b1)
        else if starts "^"%char a1 || starts "^"%char b1 then
          if empty a1 then -1
          else if empty b1 then 1
          else if negb (starts "^"%char a1) then 1
          else if negb (starts "^"%char b1) then -1
          else rpm_loop f (tail a1) (tail b1)
        else if empty a1 || empty b1 then leftover a1 b1
        else
          let isnum := head_is is_digit a1 in
          let kind := if isnum then is_digit else is_alpha in
          let r := segments isnum (take_while kind a1) (take_while kind b1) in
          if negb (r =? 0) then r
          else rpm_loop f (drop_while kind a1) (drop_while kind b1)
  end.

Definition rpmvercmp (a b : pystr) : Z :=
  if bool_decide (a = b) then 0 else rpm_loop (S (length a + length b)) a b.

Definition newline : ascii := chr 10.

(** [_rpm_split]; [None] is the [AttributeError] of a pattern that does not
    match, since [.] stops at a line break. *)
Definition rpm_split (v0 : pystr) : option (Z * pystr * pystr) :=
  let v1 := strip v0 in
  let '(epoch, v) :=
    match take_while is_digit v1, drop_while is_digit v1 with
    | (_ :: _) as ds, ":"%char :: rest => (digits_val ds, rest)
    | _, _ => (0, v1)
    end in
  let '(version, release) := match rsplit1 "-"%char v with Some vr => vr | None => (v, []) end in
  if has_char newline version then None else Some (epoch, version, release).

(** [rpm_compare] *)
Definition rpm_compare (a b : pystr) : option Z :=
  match rpm_split a, rpm_split b with
  | Some (ea, va, ra), Some (eb, vb, rb) =>
      Some (if negb (ea =? eb) then (if ea <? eb then -1 else 1)
            else
              let c := rpmvercmp va vb in
              if negb (c =? 0) then c
              else if empty ra || empty rb then 0
              else rpmvercmp ra rb)
  | _, _ => None
  end.

(** ** The key: segments, each a sequence of integers

    [~] before the end of the version (the padding), then [^], then words,
    then numbers. *)
Definition seg_pad : list Z := [1].
Definition seg_cmp : list Z -> list Z -> comparison := lexpad Z.compare (-1).
Definition rpm_lex : list (list Z) -> list (list Z) -> comparison := lexpad seg_cmp seg_pad.

Fixpoint rpm_key_fuel (fuel : nat) (s : pystr) : list (list Z) :=
  match fuel with
  | O => []
  | S f =>
      let s1 := drop_while skipped s in
      if empty s1 then []
      else if starts "~"%char s1 then [0] :: rpm_key_fuel f (tail s1)
      else if starts "^"%char s1 then [2] :: rpm_key_fuel f (tail s1)
      else if head_is is_digit s1 then
        [4; digits_val (take_while is_digit s1)] :: rpm_key_fuel f (drop_while is_digit s1)
      else (3 :: map ord (take_while is_alpha s1)) :: rpm_key_fuel f (drop_while is_alpha s1)
  end.
Definition rpm_key (s : pystr) : list (list Z) := rpm_key_fuel (length s) s.

#[export] Instance seg_cmp_preorder : TotalPreorderCmp seg_cmp.
Proof. apply lexpad_preorder, _. Qed.
#[export] Instance rpm_lex_preorder : TotalPreorderCmp rpm_lex.
Proof. apply lexpad_preorder, _. Qed.

#[local] Arguments starts : simpl never.
#[local] Arguments seg_cmp : simpl never.

(** What remains after the separators: nothing, or one of the four segments. *)
Inductive rest : pystr -> Prop :=
| rest_nil : rest []
| rest_tilde t : rest ("~"%char :: t)
| rest_caret t : rest ("^"%char :: t)
| rest_num c t : is_digit c = true -> rest (c :: t)
| rest_word c t : is_alpha c = true -> is_digit c = false -> rest (c :: t).

Lemma drop_skipped_rest s : rest (drop_while skipped s).
Proof.
  pose proof (drop_while_head skipped s) as H. destruct (drop_while skipped s) as [|c t]; [constructor|].
  unfold skipped, rpm_alnum, is_alnum in H. apply andb_false_iff in H as [H|H]; apply negb_false_iff in H.
  - destruct (is_digit c) eqn:Hd; [by constructor|]. rewrite orb_false_r in H. by constructor.
  - apply has_char_spec in H. simpl in H. set_unfold in H. destruct H as [->|[->|[]]]; constructor.
Qed.

Lemma not_tilde p c t : p c = true -> p "~"%char = false -> starts "~"%char (c :: t) = false.
Proof. intros Hc Hp. unfold starts; simpl. apply bool_decide_eq_false. congruence. Qed.
Lemma not_caret p c t : p c = true -> p "^"%char = false -> starts "^"%char (c :: t) = false.
Proof. intros Hc Hp. unfold starts; simpl. apply bool_decide_eq_false. congruence. Qed.

(** The first segment and what follows it. *)
Definition first_seg (s1 : pystr) : option (list Z * pystr) :=
  if empty s1 then None
  else if starts "~"%char s1 then Some ([0], tail s1)
  else if starts "^"%char s1 then Some ([2], tail s1)
  else if head_is is_digit s1 then
    Some ([4; digits_val (take_while is_digit s1)], drop_while is_digit s1)
  else Some (3 :: map ord (take_while is_alpha s1), drop_while is_alpha s1).

Lemma first_seg_shorter s1 k t :
  rest s1 -> first_seg s1 = Some (k, t) -> (length t < length s1)%nat.
Proof.
  unfold first_seg. destruct 1 as [|u|u|c u Hc|c u Hc Hd]; simpl.
  - done.
  - change (starts "~"%char _) with true. intros [= <- <-]. lia.
  - change (starts "~"%char _) with false. change (starts "^"%char _) with true.
    intros [= <- <-]. lia.
  - rewrite (not_tilde is_digit), (not_caret is_digit), Hc by done. intros [= <- <-].
    pose proof (drop_while_lt is_digit c u Hc). lia.
  - rewrite (not_tilde is_alpha), (not_caret is_alpha), Hd by done. intros [= <- <-].
    pose proof (drop_while_lt is_alpha c u Hc). lia.
Qed.

Lemma rpm_key_fuel_step f s :
  rpm_key_fuel (S f) s =
    match first_seg (drop_while skipped s) with
    | None => []
    | Some (k, t) => k :: rpm_key_fuel f t
    end.
Proof.
  cbn [rpm_key_fuel]. unfold first_seg. repeat case_match; done.
Qed.

Lemma rpm_key_fuel_enough f s : (length s <= f)%nat -> rpm_key_fuel f s = rpm_key s.
Proof.
  unfold rpm_key. revert f. induction s as [s IH] using (induction_ltof1 _ (@length ascii)).
  unfold ltof in IH. intros f Hf. destruct s as [|c s].
  { by destruct f. }
  destruct f as [|f]; [simpl in Hf; lia|]. cbn [length]. rewrite !rpm_key_fuel_step.
  destruct (first_seg _) as [[k t]|] eqn:E; [|done].
  apply first_seg_shorter in E; [|apply drop_skipped_rest].
  pose proof (drop_while_length skipped (c :: s)). simpl length in *.
  f_equal. rewrite (IH t) by lia. symmetry. apply IH; lia.
Qed.

Lemma rpm_key_step s :
  rpm_key s = match first_seg (drop_while skipped s) with
              | None => []
              | Some (k, t) => k :: rpm_key t
              end.
Proof.
  rewrite <- (rpm_key_fuel_enough (S (length s))) by lia. rewrite rpm_key_fuel_step.
  destruct (first_seg _) as [[k t]|] eqn:E; [|done].
  apply first_seg_shorter in E; [|apply drop_skipped_rest].
  pose proof (drop_while_length skipped s). by rewrite rpm_key_fuel_enough by lia.
Qed.

(** Segments of one kind compare as the scanner compares them. *)
Lemma segments_num a b :
  head_is is_digit a = true -> head_is is_digit b = true ->
  segments true (take_while is_digit a) (take_while is_digit b) =
    int_of_cmp (digits_val (take_while is_digit a) ?= digits_val (take_while is_digit b)).
Proof.
  intros Ha Hb. unfold segments.
  assert (empty (take_while is_digit b) = false) as ->.
  { destruct b as [|d b]; [done|]. simpl in Hb. by rewrite tw_cons. }
  rewrite <- (digits_val_drop_zeros (take_while is_digit a)), <- (digits_val_drop_zeros (take_while is_digit b)).
  assert (forall s, forallb is_digit (drop_while is_zero_char (take_while is_digit s)) = true) as Hd.
  { intros s. apply forallb_drop_while, take_while_all. }
  pose proof (Hd a) as Da. pose proof (Hd b) as Db.
  pose proof (drop_while_head is_zero_char (take_while is_digit a)) as Za.
  pose proof (drop_while_head is_zero_char (take_while is_digit b)) as Zb.
  set (u := drop_while is_zero_char (take_while is_digit a)) in *.
  set (v := drop_while is_zero_char (take_while is_digit b)) in *. simpl andb.
  destruct (Nat.eqb_spec (length u) (length v)) as [Hl|Hl]; simpl.
  { by rewrite digits_val_same_length. }
  destruct (Nat.ltb_spec (length v) (length u)).
  - destruct u as [|c u]; [simpl in *; lia|].
    by rewrite (proj2 (Z.compare_gt_iff _ _) (digits_val_longer c u v Da Za Db ltac:(lia))).
  - destruct v as [|c v]; [simpl in *; lia|].
    by rewrite (proj2 (Z.compare_lt_iff _ _) (digits_val_longer c v u Db Zb Da ltac:(lia))).
Qed.

Lemma seg_cmp_num m n : seg_cmp [4; m] [4; n] = (m ?= n).
Proof. unfold seg_cmp. rewrite !zlex_cons. simpl. by destruct (m ?= n). Qed.

Lemma seg_cmp_word u v : seg_cmp (3 :: map ord u) (3 :: map ord v) = str_cmp u v.
Proof. unfold seg_cmp. rewrite zlex_cons. apply str_cmp_lexpad. Qed.

Lemma seg_cmp_kind x y xs ys : x <> y -> seg_cmp (x :: xs) (y :: ys) = (x ?= y).
Proof.
  intros H. unfold seg_cmp. rewrite zlex_cons. by destruct (Z.compare_spec x y).
Qed.

Definition seg_or_pad (o : option (list Z * pystr)) : list Z :=
  match o with Some (k, _) => k | None => seg_pad end.
Definition after (o : option (list Z * pystr)) : pystr :=
  match o with Some (_, t) => t | None => [] end.

(** One round of the loop compares the next segments. *)
Lemma rpm_loop_step f a b :
  let oa := first_seg (drop_while skipped a) in
  let ob := first_seg (drop_while skipped b) in
  rpm_loop (S f) a b =
    match oa, ob with
    | None, None => 0
    | _, _ => match seg_cmp (seg_or_pad oa) (seg_or_pad ob) with
              | Eq => rpm_loop f (after oa) (after ob)
              | c => int_of_cmp c
              end
    end.
Proof.
  cbn [rpm_loop]. destruct (empty a && empty b) eqn:E.
  { by destruct a, b. }
  pose proof (drop_skipped_rest a) as Ra. pose proof (drop_skipped_rest b) as Rb.
  generalize dependent (drop_while skipped a). intros a1 Ra.
  generalize dependent (drop_while skipped b). intros b1 Rb. clear E a b.
  assert (forall c t, is_digit c = true -> starts "~"%char (c :: t) = false) as N1 by (intros; by apply (not_tilde is_digit)).
  assert (forall c t, is_digit c = true -> starts "^"%char (c :: t) = false) as N2 by (intros; by apply (not_caret is_digit)).
  assert (forall c t, is_alpha c = true -> starts "~"%char (c :: t) = false) as W1 by (intros; by apply (not_tilde is_alpha)).
  assert (forall c t, is_alpha c = true -> starts "^"%char (c :: t) = false) as W2 by (intros; by apply (not_caret is_alpha)).
  unfold first_seg.
  destruct Ra as [|t|t|c t Hc|c t Hc Hc'], Rb as [|u|u|d u Hd|d u Hd Hd'];
    repeat match goal with
      | H : is_digit ?x = true |- context [starts _ (?x :: ?y)] => progress (rewrite ?(N1 x y H), ?(N2 x y H))
      | H : is_alpha ?x = true |- context [starts _ (?x :: ?y)] => progress (rewrite ?(W1 x y H), ?(W2 x y H))
      end;
    cbn [empty tail]; repeat match goal with
      | |- context [starts ?x (?y :: ?z)] => first [change (starts x (y :: z)) with true | change (starts x (y :: z)) with false]
      | |- context [starts ?x []] => change (starts x []) with false
    end; cbn [orb andb negb]; try done;
    cbn [head_is]; rewrite ?Hc, ?Hc', ?Hd, ?Hd'; cbn [seg_or_pad after];
    try (unfold seg_pad; rewrite seg_cmp_kind by done; done).
  (* the four cases of two ordinary segments *)
  - rewrite segments_num, seg_cmp_num by done. by destruct (_ ?= _).
  - unfold segments. rewrite (tw_stop is_digit d u) by done. done.
  - assert (is_alpha d = false) as Hda by char_arith.
    unfold segments. rewrite (tw_stop is_alpha d u) by done. done.
  - rewrite seg_cmp_word. unfold segments. rewrite (tw_cons is_alpha d u) by done. simpl.
    by destruct (str_cmp _ _).
Qed.

Lemma first_seg_not_pad s1 k t : rest s1 -> first_seg s1 = Some (k, t) -> seg_cmp seg_pad k <> Eq.
Proof.
  intros Hr. unfold first_seg, seg_pad. intros H.
  repeat case_match; simplify_eq; try (rewrite seg_cmp_kind by done; done).
Qed.

Lemma rpm_loop_key fuel a b :
  (length a + length b < fuel)%nat ->
  rpm_loop fuel a b = int_of_cmp (rpm_lex (rpm_key a) (rpm_key b)).
Proof.
  revert a b. induction fuel as [|fuel IH]; intros a b Hf; [lia|].
  rewrite rpm_loop_step, (rpm_key_step a), (rpm_key_step b).
  pose proof (drop_skipped_rest a) as Ra. pose proof (drop_skipped_rest b) as Rb.
  pose proof (drop_while_length skipped a). pose proof (drop_while_length skipped b).
  destruct (first_seg (drop_while skipped a)) as [[k t]|] eqn:Ea,
    (first_seg (drop_while skipped b)) as [[l u]|] eqn:Eb; [| | |done].
  - pose proof (first_seg_shorter _ _ _ Ra Ea). pose proof (first_seg_shorter _ _ _ Rb Eb).
    unfold rpm_lex. rewrite lexpad_cons by apply _. simpl.
    destruct (seg_cmp k l); try done. apply IH. lia.
  - unfold rpm_lex. rewrite lexpad_step by (apply _ || auto). simpl.
    pose proof (first_seg_not_pad _ _ _ Ra Ea) as Hp.
    rewrite (cmp_flip seg_cmp seg_pad k). by destruct (seg_cmp seg_pad k).
  - unfold rpm_lex. rewrite lexpad_step by (apply _ || auto). simpl.
    pose proof (first_seg_not_pad _ _ _ Rb Eb) as Hp. by destruct (seg_cmp seg_pad l).
Qed.

Lemma rpmvercmp_key a b : rpmvercmp a b = int_of_cmp (rpm_lex (rpm_key a) (rpm_key b)).
Proof.
  unfold rpmvercmp. case_bool_decide as E.
  - rewrite E, cmp_refl by apply _. done.
  - apply rpm_loop_key. lia.
Qed.

#[export] Instance rpm_version_order : VersionOrder rpmvercmp.
Proof. apply (version_order_of_key rpm_key rpm_lex), rpmvercmp_key. Qed.

(** A full version with a release: epoch, version, release. *)
Definition evr_key (e : Z) (v r : pystr) : Z * list (list Z) * list (list Z) :=
  (e, rpm_key v, rpm_key r).
Definition evr_cmp : Z * list (list Z) * list (list Z) -> Z * list (list Z) * list (list Z) -> comparison :=
  lex_pair (lex_pair Z.compare rpm_lex) rpm_lex.
End Rpm.

(** [compare] *)
Definition compare (kind a b : pystr) : option Z :=
  if bool_decide (kind = py "deb") then Some (Deb.deb_compare a b) else Rpm.rpm_compare a b.

(** ** Properties *)

(** Dpkg's comparison, as implemented by the two-cursor scanner, always returns, equals the order of
    the keys (epoch, upstream, revision) under the padded lexicographic order, and is a total
    preorder with answers -1, 0 and 1. *)
Theorem deb_compare_order :
  (forall a b, Deb.deb_compare a b = int_of_cmp (Deb.full_cmp (Deb.full_key a) (Deb.full_key b))) /\
  VersionOrder Deb.deb_compare.
Proof. split; [apply Deb.deb_compare_key | apply Deb.deb_version_order]. Qed.

(** Rpm's segment comparison, as implemented by the two-cursor scanner, always returns, equals the
    order of the segment keys ([~] below the end of the version, then [^], words, numbers),
    and is a total preorder with answers -1, 0 and 1. *)
Theorem rpmvercmp_order :
  (forall a b, Rpm.rpmvercmp a b = int_of_cmp (Rpm.rpm_lex (Rpm.rpm_key a) (Rpm.rpm_key b))) /\
  VersionOrder Rpm.rpmvercmp.
Proof. split; [apply Rpm.rpmvercmp_key | apply Rpm.rpm_version_order]. Qed.

(** Between two rpm versions that both carry a release, [rpm_compare] is the lexicographic order of
    epoch, version and release; when either release is missing it decides on epoch and version
    alone; and a version part with a line break raises. *)
Theorem rpm_compare_cases a b :
  match Rpm.rpm_split a, Rpm.rpm_split b with
  | Some (ea, va, ra), Some (eb, vb, rb) =>
      Rpm.rpm_compare a b =
        Some (int_of_cmp
          (if bool_decide (ra = []) || bool_decide (rb = [])
           then lex_pair Z.compare Rpm.rpm_lex (ea, Rpm.rpm_key va) (eb, Rpm.rpm_key vb)
           else Rpm.evr_cmp (Rpm.evr_key ea va ra) (Rpm.evr_key eb vb rb)))
  | _, _ => Rpm.rpm_compare a b = None
  end.
Proof.
  unfold Rpm.rpm_compare, Rpm.evr_cmp, Rpm.evr_key, lex_pair.
  destruct (Rpm.rpm_split a) as [[[ea va] ra]|]; [|done].
  destruct (Rpm.rpm_split b) as [[[eb vb] rb]|]; [|done]. simpl. f_equal.
  rewrite !Rpm.rpmvercmp_key.
  assert (forall s, Rpm.empty s = bool_decide (s = [])) as He by (by intros []).
  rewrite !He.
  destruct (Z.eqb_spec ea eb) as [->|Hne]; simpl.
  - rewrite Z.compare_refl.
    destruct (Rpm.rpm_lex (Rpm.rpm_key va) _); simpl; repeat case_match; done.
  - destruct (Z.compare_spec ea eb), (Z.ltb_spec ea eb); repeat case_match; done || lia.
Qed.
