(* ===== verification/Json.v ===== *)
(** * JSON values

    What [json.loads] returns, with the Python operations the licensing code
    applies to such values: truth, [int()], [isinstance], comparison with an
    integer or a string, [dict.get].  A float is a fraction, an infinity or a
    NaN; an object keeps its keys in order. *)
From S2P Require Import Prelude PyStr.

Inductive pyfloat : Type :=
| FFin (num : Z) (den : positive)
| FInf (negative : bool)
| FNan.

Inductive json : Type :=
| JNull
| JBool (b : bool)
| JInt (n : Z)
| JFloat (f : pyfloat)
| JStr (s : pystr)
| JList (l : list json)
| JObj (o : list (pystr * json)).

(** [bool(v)] *)
Definition truthy (v : json) : bool :=
  match v with
  | JNull => false
  | JBool b => b
  | JInt n => negb (n =? 0)
  | JFloat (FFin n _) => negb (n =? 0)
  | JFloat _ => true
  | JStr s => match s with [] => false | _ => true end
  | JList l => match l with [] => false | _ => true end
  | JObj o => match o with [] => false | _ => true end
  end.

(** The exceptions of [int(v)]. *)
Inductive int_error : Type := TypeError | ValueError | OverflowError.

(** [int(v)]: floats are cut towards zero. *)
Definition to_int (v : json) : res int_error Z :=
  match v with
  | JBool b => Ok (if b then 1 else 0)
  | JInt n => Ok n
  | JFloat (FFin n d) => Ok (Z.quot n (Zpos d))
  | JFloat (FInf _) => Raise OverflowError
  | JFloat FNan => Raise ValueError
  | JStr s => match py_int s with Some n => Ok n | None => Raise ValueError end
  | JNull | JList _ | JObj _ => Raise TypeError
  end.

(** [isinstance(v, int)]: a [bool] is an [int]. *)
Definition is_int (v : json) : bool :=
  match v with JBool _ | JInt _ => true | _ => false end.
Definition is_str (v : json) : bool := match v with JStr _ => true | _ => false end.
Definition is_null (v : json) : bool := match v with JNull => true | _ => false end.
Definition is_obj (v : json) : bool := match v with JObj _ => true | _ => false end.

(** [v == n] and [v == s]. *)
Definition eq_int (v : json) (n : Z) : bool :=
  match v with
  | JBool b => (if b then 1 else 0) =? n
  | JInt m => m =? n
  | JFloat (FFin m d) => m =? n * Zpos d
  | _ => false
  end.
Definition eq_str (v : json) (s : pystr) : bool :=
  match v with JStr t => bool_decide (t = s) | _ => false end.

(** [o.get(k)] and [k in o]. *)
Fixpoint get (o : list (pystr * json)) (k : pystr) : json :=
  match o with
  | [] => JNull
  | (k', v) :: o' => if bool_decide (k' = k) then v else get o' k
  end.
Definition has_key (o : list (pystr * json)) (k : pystr) : bool :=
  existsb (fun kv => bool_decide (fst kv = k)) o.

(** [v or w] *)
Definition or_json (v w : json) : json := if truthy v then v else w.

Lemma eq_str_true v s : eq_str v s = true <-> v = JStr s.
Proof.
  destruct v; simpl; try (split; [done|congruence]). rewrite bool_decide_eq_true. split; congruence.
Qed.

Lemma truthy_or v w : truthy v = true -> or_json v w = v.
Proof. unfold or_json. by intros ->. Qed.

Lemma is_int_to_int v : is_int v = true -> exists n, to_int v = Ok n.
Proof. destruct v; simpl; try done; eauto. Qed.

Lemma get_absent o k : has_key o k = false -> get o k = JNull.
Proof.
  induction o as [|[k' v] o IH]; simpl; [done|]. intros [H ?]%orb_false_elim. rewrite H. auto.
Qed.
