(* ===== verification/Base64.v ===== *)
(** * URL-safe base64, as Python decodes it

    [base64.urlsafe_b64decode] is [binascii.a2b_base64] (not strict) after
    translating the two URL-safe characters: characters outside the alphabet
    are skipped, decoding stops at the padding that completes a quantum, and
    input that ends inside a quantum raises.  [urlsafe_b64encode] is its
    inverse on the tokens the license server makes. *)
From S2P Require Import Prelude PyStr.

Notation byte := Z (only parsing).

(** [table_a2b_base64] after the URL-safe translation. *)
Definition sextet (c : ascii) : option Z :=
  if is_upper c then Some (ord c - 65)
  else if is_lower c then Some (ord c - 71)
  else if is_digit c then Some (ord c + 4)
  else if bool_decide (c = "-"%char) || bool_decide (c = "+"%char) then Some 62
  else if bool_decide (c = "_"%char) || bool_decide (c = "/"%char) then Some 63
  else None.

(** [binascii.a2b_base64(s, strict_mode=False)]; [None] is [binascii.Error].
    [q] is the position in the quantum, [left] the bits carried over, [pads]
    the number of padding characters in a row. *)
Fixpoint a2b (s : pystr) (q left pads : Z) : option (list byte) :=
  match s with
  | [] => if q =? 0 then Some [] else None
  | c :: s' =>
      if bool_decide (c = "="%char) then
        if (2 <=? q) && (4 <=? q + pads + 1) then Some []
        else a2b s' q left (if 2 <=? q then pads + 1 else pads)
      else
        match sextet c with
        | None => a2b s' q left pads
        | Some v =>
            if q =? 0 then a2b s' 1 v 0
            else if q =? 1 then
              option_map (cons (Z.lor (Z.shiftl left 2) (Z.shiftr v 4))) (a2b s' 2 (Z.land v 15) 0)
            else if q =? 2 then
              option_map (cons (Z.lor (Z.shiftl left 4) (Z.shiftr v 2))) (a2b s' 3 (Z.land v 3) 0)
            else option_map (cons (Z.lor (Z.shiftl left 6) v)) (a2b s' 0 0 0)
        end
  end.

(** [base64.urlsafe_b64decode]; a character above 127 cannot be encoded to
    ASCII, which is a [ValueError] like [binascii.Error]. *)
Definition urlsafe_b64decode (s : pystr) : option (list byte) :=
  if forallb (fun c => ord c <? 128) s then a2b s 0 0 0 else None.

(** The character of a sextet. *)
Definition char64 (v : Z) : ascii :=
  if v <? 26 then chr (v + 65)
  else if v <? 52 then chr (v + 71)
  else if v <? 62 then chr (v - 4)
  else if v =? 62 then "-"%char else "_"%char.

(** [urlsafe_b64encode(bs)] without its padding ([rstrip(b"=")]). *)
Fixpoint b64encode (bs : list byte) : pystr :=
  match bs with
  | [] => []
  | [x] => [char64 (Z.shiftr x 2); char64 (Z.shiftl (Z.land x 3) 4)]
  | [x; y] =>
      [char64 (Z.shiftr x 2);
       char64 (Z.lor (Z.shiftl (Z.land x 3) 4) (Z.shiftr y 4));
       char64 (Z.shiftl (Z.land y 15) 2)]
  | x :: y :: z :: bs' =>
      char64 (Z.shiftr x 2)
      :: char64 (Z.lor (Z.shiftl (Z.land x 3) 4) (Z.shiftr y 4))
      :: char64 (Z.lor (Z.shiftl (Z.land y 15) 2) (Z.shiftr z 6))
      :: char64 (Z.land z 63) :: b64encode bs'
  end.

(** ** Decoding what was encoded *)

Definition is_byte (b : Z) : Prop := 0 <= b < 256.

Definition char64_good (v : Z) : bool :=
  match sextet (char64 v) with Some w => w =? v | None => false end &&
  negb (ord (char64 v) =? 61) && (ord (char64 v) <? 128).

Lemma char64_ok v :
  0 <= v < 64 -> sextet (char64 v) = Some v /\ char64 v <> "="%char /\ ord (char64 v) < 128.
Proof.
  intros Hv.
  pose proof (range_forall char64_good 64 ltac:(vm_compute; reflexivity) v Hv) as H.
  unfold char64_good in H. bool_prop. destruct (sextet _) as [w|]; [|done]. bool_prop. subst w.
  split_and!; [done| |done]. intros E. rewrite E in *. done.
Qed.

Lemma pack42 a b : 0 <= a < 4 -> 0 <= b < 16 ->
  Z.shiftr (Z.lor (Z.shiftl a 4) b) 4 = a /\ Z.land (Z.lor (Z.shiftl a 4) b) 15 = b /\
  0 <= Z.lor (Z.shiftl a 4) b < 64.
Proof.
  intros Ha Hb.
  pose proof (range_forall2 (fun a b => (Z.shiftr (Z.lor (Z.shiftl a 4) b) 4 =? a) &&
    (Z.land (Z.lor (Z.shiftl a 4) b) 15 =? b) && (0 <=? Z.lor (Z.shiftl a 4) b) &&
    (Z.lor (Z.shiftl a 4) b <? 64)) 4 16 ltac:(vm_compute; reflexivity) a b Ha Hb) as H.
  simpl in H. bool_prop. auto.
Qed.

Lemma pack24 a b : 0 <= a < 16 -> 0 <= b < 4 ->
  Z.shiftr (Z.lor (Z.shiftl a 2) b) 2 = a /\ Z.land (Z.lor (Z.shiftl a 2) b) 3 = b /\
  0 <= Z.lor (Z.shiftl a 2) b < 64.
Proof.
  intros Ha Hb.
  pose proof (range_forall2 (fun a b => (Z.shiftr (Z.lor (Z.shiftl a 2) b) 2 =? a) &&
    (Z.land (Z.lor (Z.shiftl a 2) b) 3 =? b) && (0 <=? Z.lor (Z.shiftl a 2) b) &&
    (Z.lor (Z.shiftl a 2) b <? 64)) 16 4 ltac:(vm_compute; reflexivity) a b Ha Hb) as H.
  simpl in H. bool_prop. auto.
Qed.

(** How the bits of a byte are cut. *)
Lemma byte_cut x : is_byte x ->
  Z.lor (Z.shiftl (Z.shiftr x 2) 2) (Z.land x 3) = x /\
  Z.lor (Z.shiftl (Z.shiftr x 4) 4) (Z.land x 15) = x /\
  Z.lor (Z.shiftl (Z.shiftr x 6) 6) (Z.land x 63) = x /\
  (0 <= Z.shiftr x 2 < 64 /\ 0 <= Z.shiftr x 4 < 16 /\ 0 <= Z.shiftr x 6 < 4) /\
  (0 <= Z.land x 3 < 4 /\ 0 <= Z.land x 15 < 16 /\ 0 <= Z.land x 63 < 64).
Proof.
  intros Hx.
  pose proof (range_forall (fun x =>
    (Z.lor (Z.shiftl (Z.shiftr x 2) 2) (Z.land x 3) =? x) &&
    (Z.lor (Z.shiftl (Z.shiftr x 4) 4) (Z.land x 15) =? x) &&
    (Z.lor (Z.shiftl (Z.shiftr x 6) 6) (Z.land x 63) =? x) &&
    ((0 <=? Z.shiftr x 2) && (Z.shiftr x 2 <? 64) && (0 <=? Z.shiftr x 4) && (Z.shiftr x 4 <? 16) &&
     (0 <=? Z.shiftr x 6) && (Z.shiftr x 6 <? 4)) &&
    ((0 <=? Z.land x 3) && (Z.land x 3 <? 4) && (0 <=? Z.land x 15) && (Z.land x 15 <? 16) &&
     (0 <=? Z.land x 63) && (Z.land x 63 <? 64))) 256 ltac:(vm_compute; reflexivity) x Hx) as H.
  simpl in H. bool_prop. auto 20.
Qed.

(** Induction on three bytes at a time. *)
Lemma list3_ind {A} (P : list A -> Prop) :
  P [] -> (forall x, P [x]) -> (forall x y, P [x; y]) ->
  (forall x y z l, P l -> P (x :: y :: z :: l)) -> forall l, P l.
Proof.
  intros H0 H1 H2 H3. fix IH 1. intros [|x [|y [|z l]]]; [exact H0|apply H1|apply H2|apply H3, IH].
Qed.

Lemma a2b_char v s q left pads :
  0 <= v < 64 ->
  a2b (char64 v :: s) q left pads =
    if q =? 0 then a2b s 1 v 0
    else if q =? 1 then
      option_map (cons (Z.lor (Z.shiftl left 2) (Z.shiftr v 4))) (a2b s 2 (Z.land v 15) 0)
    else if q =? 2 then
      option_map (cons (Z.lor (Z.shiftl left 4) (Z.shiftr v 2))) (a2b s 3 (Z.land v 3) 0)
    else option_map (cons (Z.lor (Z.shiftl left 6) v)) (a2b s 0 0 0).
Proof.
  intros Hv. destruct (char64_ok v Hv) as (Hs & He & _). cbn [a2b].
  rewrite bool_decide_eq_false_2 by done. by rewrite Hs.
Qed.

(** The padding the length calls for. *)
Definition padding (n : nat) : pystr := replicate (Z.to_nat ((- Z.of_nat n) mod 4)) "="%char.

Lemma padding_4 n : padding (S (S (S (S n)))) = padding n.
Proof.
  unfold padding. do 2 f_equal. rewrite !Nat2Z.inj_succ.
  replace (- Z.succ (Z.succ (Z.succ (Z.succ (Z.of_nat n))))) with (- Z.of_nat n + (-1) * 4) by lia.
  apply Z.mod_add. lia.
Qed.

Lemma a2b_encode bs :
  Forall is_byte bs -> a2b (b64encode bs ++ padding (length (b64encode bs))) 0 0 0 = Some bs.
Proof.
  induction bs as [|x|x y|x y z bs IH] using list3_ind; intros Hb; [done| | |].
  - inversion Hb as [|? ? Hx _]; subst. destruct (byte_cut x Hx) as (Ex & _ & _ & (? & _) & (? & _)).
    destruct (pack42 (Z.land x 3) 0) as (E1 & E2 & E3); [lia..|]. rewrite Z.lor_0_r in *.
    cbn [b64encode app]. rewrite !a2b_char by done. simpl. by rewrite E1, Ex.
  - inversion Hb as [|? ? Hx Hb']; subst. inversion Hb' as [|? ? Hy _]; subst.
    destruct (byte_cut x Hx) as (Ex & _ & _ & (? & _) & (? & _)).
    destruct (byte_cut y Hy) as (_ & Ey & _ & (_ & ? & _) & (_ & ? & _)).
    destruct (pack42 (Z.land x 3) (Z.shiftr y 4)) as (E1 & E2 & E3); [lia..|].
    destruct (pack24 (Z.land y 15) 0) as (F1 & F2 & F3); [lia..|]. rewrite Z.lor_0_r in *.
    cbn [b64encode app]. rewrite !a2b_char by done. simpl. by rewrite E1, E2, F1, Ex, Ey.
  - inversion Hb as [|? ? Hx Hb']; subst. inversion Hb' as [|? ? Hy Hb'']; subst.
    inversion Hb'' as [|? ? Hz Hbs]; subst.
    destruct (byte_cut x Hx) as (Ex & _ & _ & (? & _) & (? & _)).
    destruct (byte_cut y Hy) as (_ & Ey & _ & (_ & ? & _) & (_ & ? & _)).
    destruct (byte_cut z Hz) as (_ & _ & Ez & (_ & _ & ?) & (_ & _ & ?)).
    destruct (pack42 (Z.land x 3) (Z.shiftr y 4)) as (E1 & E2 & E3); [lia..|].
    destruct (pack24 (Z.land y 15) (Z.shiftr z 6)) as (F1 & F2 & F3); [lia..|].
    cbn [b64encode app length]. rewrite !a2b_char by done. simpl.
    rewrite E1, E2, F1, F2, Ex, Ey, Ez, padding_4, IH; done.
Qed.

Lemma char64_ascii v : 0 <= v < 64 -> (ord (char64 v) <? 128) = true.
Proof. intros Hv. destruct (char64_ok v Hv) as (_ & _ & ?). lia. Qed.

Lemma encode_ascii bs : Forall is_byte bs -> forallb (fun c => ord c <? 128) (b64encode bs) = true.
Proof.
  induction bs as [|x|x y|x y z bs IH] using list3_ind; intros Hb; [done| | |];
    repeat match goal with H : Forall _ (_ :: _) |- _ => apply Forall_cons_iff in H as [? H] end;
    repeat match goal with H : is_byte ?x |- _ => pose proof (byte_cut x H) as (_ & _ & _ & ? & ?); clear H end;
    cbn [b64encode forallb].
  - destruct (pack42 (Z.land x 3) 0) as (_ & _ & E); [lia..|]. rewrite Z.lor_0_r in E.
    by rewrite !char64_ascii by lia.
  - destruct (pack42 (Z.land x 3) (Z.shiftr y 4)) as (_ & _ & E); [lia..|].
    destruct (pack24 (Z.land y 15) 0) as (_ & _ & F); [lia..|]. rewrite Z.lor_0_r in F.
    by rewrite !char64_ascii by lia.
  - destruct (pack42 (Z.land x 3) (Z.shiftr y 4)) as (_ & _ & E); [lia..|].
    destruct (pack24 (Z.land y 15) (Z.shiftr z 6)) as (_ & _ & F); [lia..|].
    rewrite !char64_ascii by lia. auto.
Qed.

Lemma padding_ascii n : forallb (fun c => ord c <? 128) (padding n) = true.
Proof. unfold padding. by induction (Z.to_nat _). Qed.

Lemma decode_encode bs :
  Forall is_byte bs -> urlsafe_b64decode (b64encode bs ++ padding (length (b64encode bs))) = Some bs.
Proof.
  intros Hb. unfold urlsafe_b64decode.
  rewrite forallb_app, encode_ascii, padding_ascii by done. by apply a2b_encode.
Qed.
