(* ===== verification/LicenseToken.v ===== *)
(** * Signed license answers (src/app/core/license_token.py, license_keys.py)

    [verify_token] decides whether an answer of the license server, or a
    cached one, may be trusted.  Third-party code is a parameter: the Ed25519
    key constructor and signature check of [cryptography].  Of the standard
    library base64 is modelled (Base64.v); [json.loads] and the [repr] of a
    non-string JSON value are parameters too, so every theorem holds for any
    JSON reader. *)
From S2P Require Import Prelude PyStr Json Base64.

Definition TOKEN_VERSION : Z := 1.

(** [LicenseTokenError], one constructor per message. *)
Inductive token_error : Type :=
| Unsigned | Malformed | NoKeyBuiltIn | UnknownKey (kid : pystr) | MalformedKey (kid : pystr)
| BadSignature | UnsupportedVersion | WrongType | OtherLicense | OtherMachine | Replayed | NoIssueTime
| NotActivatedHere.

Definition claims := list (pystr * json).

(** The keys built into the code, by key id. *)
Definition LICENSE_SERVER_URL : pystr := py "https://lic.ngcorion.com".
Definition TRUSTED_LICENSE_KEYS : list (pystr * pystr) :=
  [(py "02f8c805e424e285", py "enEtOhXcwcTeVQ8iNrO36S5oNqfI0H9Tgb8coCPANyg=")].

Definition lookup_key (keys : list (pystr * pystr)) (kid : pystr) : option pystr :=
  snd <$> List.find (fun kv => bool_decide (fst kv = kid)) keys.

(** [str.count(c)] *)
Definition count_char (c : ascii) (s : pystr) : Z :=
  Z.of_nat (length (List.filter (fun d => bool_decide (d = c)) s)).

(** [_b64decode] *)
Definition _b64decode (value : pystr) : option (list Z) :=
  urlsafe_b64decode (value ++ padding (length value)).

(** What [cryptography], [json] and [repr] provide. *)
Class TokenLib (pubkey : Type) : Type := {
  key_from_base64 : pystr -> option pubkey;        (** [from_public_bytes(b64decode(..))]; [None] is [ValueError] *)
  signature_ok : pubkey -> list Z -> list Z -> bool; (** [key.verify(sig, payload)] does not raise *)
  json_loads : list Z -> option json;              (** [None] is [ValueError] *)
  py_repr : json -> pystr                          (** [str(v)] of a value that is not a string *)
}.

(** [str(v)] *)
Definition py_str {pubkey} `{TokenLib pubkey} (v : json) : pystr :=
  match v with JStr s => s | _ => py_repr v end.

Section Verify.
Context {pubkey : Type} `{TokenLib pubkey}.
Variable keys : list (pystr * pystr).

(** [_public_key] *)
Definition _public_key (kid : pystr) : res token_error pubkey :=
  match lookup_key keys kid with
  | Some ((_ :: _) as encoded) =>
      match key_from_base64 encoded with
      | Some k => Ok k
      | None => Raise (MalformedKey kid)
      end
  | _ => match keys with [] => Raise NoKeyBuiltIn | _ => Raise (UnknownKey (take 16 kid)) end
  end.

(** The checks on the claims of a token whose signature verified. *)
Definition check_claims (o : claims) (license_key vm_fingerprint : pystr)
    (typ nonce : option pystr) : res token_error claims :=
  check eq_int (get o (py "v")) TOKEN_VERSION else UnsupportedVersion in
  check match typ with Some t => eq_str (get o (py "typ")) t | None => true end else WrongType in
  check eq_str (get o (py "lic")) license_key else OtherLicense in
  check eq_str (get o (py "fp")) vm_fingerprint else OtherMachine in
  check match nonce with Some n => eq_str (get o (py "nonce")) n | None => true end else Replayed in
  check is_int (get o (py "iat")) else NoIssueTime in
  Ok o.

(** [verify_token] *)
Definition verify_token (token : json) (license_key vm_fingerprint : pystr)
    (typ nonce : option pystr) : res token_error claims :=
  match token with
  | JStr t =>
      check count_char "."%char t =? 1 else Unsigned in
      match split_on "."%char t with
      | [body; signature] =>
          match _b64decode body, _b64decode signature with
          | Some payload, Some sig =>
              match json_loads payload with
              | Some (JObj o) =>
                  let! key := _public_key (py_str (or_json (get o (py "kid")) (JStr []))) in
                  check signature_ok key sig payload else BadSignature in
                  check_claims o license_key vm_fingerprint typ nonce
              | _ => Raise Malformed
              end
          | _, _ => Raise Malformed
          end
      | _ => Raise Malformed
      end
  | _ => Raise Unsigned
  end.
End Verify.

(** The dictionary [claims_to_state] makes of verified claims. *)
Record lic_answer : Type := LicAnswer {
  la_valid : bool;
  la_message : pystr;
  la_plan_code : json;
  la_plan_name : json;
  la_is_pilot_mode : bool;
  la_limits : json;
  la_expires_at : json;
  la_issued_at : json;
  la_offline_license : bool;
  la_offline_until : json;
  la_signed_token : pystr
}.

Definition claims_to_state {pubkey} `{TokenLib pubkey} (o : claims) (token : pystr) : lic_answer := {|
  la_valid := truthy (get o (py "valid"));
  la_message := py_str (or_json (get o (py "msg")) (JStr []));
  la_plan_code := get o (py "plan");
  la_plan_name := get o (py "plan_name");
  la_is_pilot_mode := truthy (get o (py "pilot"));
  la_limits := get o (py "limits");
  la_expires_at := get o (py "exp");
  la_issued_at := get o (py "iat");
  la_offline_license := eq_str (get o (py "typ")) (py "offline");
  la_offline_until := get o (py "offline_until");
  la_signed_token := token
|}.

(** ** Lemmas *)

Lemma count_char_app c s t : count_char c (s ++ t) = count_char c s + count_char c t.
Proof. unfold count_char. rewrite List.filter_app, length_app. lia. Qed.

Lemma count_char_0 c s : count_char c s = 0 <-> has_char c s = false.
Proof.
  unfold count_char, has_char. induction s as [|d s IH]; simpl; [done|].
  destruct (bool_decide (d = c)); simpl; [split; [lia|done]|done].
Qed.

(** A string with one [c] is cut there. *)
Lemma split_one c t :
  count_char c t = 1 <->
  exists b s, t = b ++ c :: s /\ has_char c b = false /\ has_char c s = false.
Proof.
  split.
  - induction t as [|d t IH]; [done|]. intros Hc. destruct (decide (d = c)) as [->|Hd].
    + exists [], t. split_and!; [done|done|]. apply count_char_0.
      change (c :: t) with ([c] ++ t) in Hc. rewrite count_char_app in Hc.
      unfold count_char at 1 in Hc. simpl in Hc. rewrite bool_decide_eq_true_2 in Hc by done. simpl in Hc. lia.
    + assert (count_char c t = 1) as Ht.
      { unfold count_char in *. simpl in Hc. by rewrite bool_decide_eq_false_2 in Hc. }
      destruct (IH Ht) as (b & s & -> & Hb & Hs). exists (d :: b), s. split_and!; [done| |done].
      unfold has_char in *. simpl. by rewrite bool_decide_eq_false_2.
  - intros (b & s & -> & Hb%count_char_0 & Hs%count_char_0).
    change (c :: s) with ([c] ++ s). rewrite !count_char_app, Hb, Hs.
    unfold count_char. simpl. by rewrite bool_decide_eq_true_2.
Qed.

Lemma char64_not_dot v : 0 <= v < 64 -> char64 v <> "."%char.
Proof.
  intros Hv. assert (negb (ord (char64 v) =? 46) = true) as Hd.
  { apply (range_forall (fun v => negb (ord (char64 v) =? 46)) 64); [vm_compute; reflexivity|done]. }
  intros E. rewrite E in Hd. done.
Qed.

Lemma encode_no_dot bs : Forall is_byte bs -> has_char "."%char (b64encode bs) = false.
Proof.
  unfold has_char. assert (forall v, 0 <= v < 64 -> bool_decide (char64 v = "."%char) = false) as Hc
    by (intros v Hv; apply bool_decide_eq_false, char64_not_dot, Hv).
  induction bs as [|x|x y|x y z bs IH] using list3_ind; intros Hb; [done| | |];
    repeat match goal with H : Forall _ (_ :: _) |- _ => apply Forall_cons_iff in H as [? H] end;
    repeat match goal with H : is_byte ?x |- _ => pose proof (byte_cut x H) as (_ & _ & _ & ? & ?); clear H end;
    cbn [b64encode existsb].
  - destruct (pack42 (Z.land x 3) 0) as (_ & _ & E); [lia..|]. rewrite Z.lor_0_r in E.
    by rewrite !Hc by lia.
  - destruct (pack42 (Z.land x 3) (Z.shiftr y 4)) as (_ & _ & E); [lia..|].
    destruct (pack24 (Z.land y 15) 0) as (_ & _ & F); [lia..|]. rewrite Z.lor_0_r in F.
    by rewrite !Hc by lia.
  - destruct (pack42 (Z.land x 3) (Z.shiftr y 4)) as (_ & _ & E); [lia..|].
    destruct (pack24 (Z.land y 15) (Z.shiftr z 6)) as (_ & _ & F); [lia..|].
    rewrite !Hc by lia. auto.
Qed.

(** Everything a trusted answer has been checked for. *)
Record trusted {pubkey} `{TokenLib pubkey} (keys : list (pystr * pystr)) (t lic fp : pystr)
    (typ nonce : option pystr) (o : claims) : Prop := {
  tr_parts : exists body signature payload sig kid encoded key,
    t = body ++ "."%char :: signature /\ has_char "."%char body = false /\
    has_char "."%char signature = false /\
    _b64decode body = Some payload /\ _b64decode signature = Some sig /\
    json_loads payload = Some (JObj o) /\
    kid = py_str (or_json (get o (py "kid")) (JStr [])) /\
    lookup_key keys kid = Some encoded /\ encoded <> [] /\ key_from_base64 encoded = Some key /\
    signature_ok key sig payload = true;
  tr_version : eq_int (get o (py "v")) TOKEN_VERSION = true;
  tr_typ : forall ty, typ = Some ty -> get o (py "typ") = JStr ty;
  tr_lic : get o (py "lic") = JStr lic;
  tr_fp : get o (py "fp") = JStr fp;
  tr_nonce : forall n, nonce = Some n -> get o (py "nonce") = JStr n;
  tr_iat : is_int (get o (py "iat")) = true
}.

Section VerifyLemmas.
Context {pubkey : Type} `{TokenLib pubkey}.
Implicit Types (t lic fp : pystr) (typ nonce : option pystr) (o : claims).

Lemma public_key_ok keys kid k :
  _public_key keys kid = Ok k <->
  exists encoded, lookup_key keys kid = Some encoded /\ encoded <> [] /\ key_from_base64 encoded = Some k.
Proof.
  unfold _public_key. split.
  - destruct (lookup_key keys kid) as [[|c e]|]; [by destruct keys| |by destruct keys].
    destruct (key_from_base64 _) eqn:E; [|done]. intros [= ->]. eauto.
  - intros (e & -> & He & Hk). destruct e; [done|]. by rewrite Hk.
Qed.

Lemma check_claims_ok o lic fp typ nonce o' :
  check_claims o lic fp typ nonce = Ok o' <->
  o' = o /\ eq_int (get o (py "v")) TOKEN_VERSION = true /\
  (forall ty, typ = Some ty -> get o (py "typ") = JStr ty) /\
  get o (py "lic") = JStr lic /\ get o (py "fp") = JStr fp /\
  (forall n, nonce = Some n -> get o (py "nonce") = JStr n) /\ is_int (get o (py "iat")) = true.
Proof.
  unfold check_claims. rewrite <- (eq_str_true _ lic), <- (eq_str_true _ fp).
  assert (forall k (x : option pystr),
    (match x with Some s => eq_str (get o k) s | None => true end = true) <->
    (forall s, x = Some s -> get o k = JStr s)) as Ho.
  { intros k [s|]; [|naive_solver]. rewrite eq_str_true. naive_solver. }
  rewrite <- (Ho _ typ), <- (Ho _ nonce).
  repeat case_match; naive_solver.
Qed.

Lemma verify_token_trusted keys t lic fp typ nonce o :
  verify_token keys (JStr t) lic fp typ nonce = Ok o <-> trusted keys t lic fp typ nonce o.
Proof.
  cbn [verify_token]. split.
  - destruct (Z.eqb_spec (count_char "."%char t) 1) as [Hc|]; [|done].
    apply split_one in Hc as (b & s & -> & Hb & Hs).
    rewrite split_on_app, split_on_none by done.
    destruct (_b64decode b) as [p|] eqn:Ep; [|done]. destruct (_b64decode s) as [g|] eqn:Eg; [|done].
    destruct (json_loads p) as [[]|] eqn:Ej; try done. unfold res_bind.
    destruct (_public_key keys _) as [k|] eqn:Ek; [|done].
    destruct (signature_ok k g p) eqn:Esig; [|done].
    intros (-> & ? & ? & ? & ? & ? & ?)%check_claims_ok.
    apply public_key_ok in Ek as (e & ? & ? & ?). split; try done. naive_solver.
  - intros [(b & s & p & g & kid & e & k & -> & Hb & Hs & Ep & Eg & Ej & -> & El & Ee & Ek & Esig) ? ? ? ? ? ?].
    rewrite (proj2 (Z.eqb_eq _ _)) by (apply split_one; eauto).
    rewrite split_on_app, split_on_none, Ep, Eg, Ej by done. unfold res_bind.
    rewrite (proj2 (public_key_ok keys _ k)) by eauto. rewrite Esig. by apply check_claims_ok.
Qed.

Lemma verify_token_str keys v lic fp typ nonce o :
  verify_token keys v lic fp typ nonce = Ok o -> exists t, v = JStr t /\ trusted keys t lic fp typ nonce o.
Proof.
  destruct v; try done. intros Hv. exists s. split; [done|]. by apply verify_token_trusted.
Qed.

(** The server's own format decodes to the bytes it signed. *)
Lemma verify_token_encoded keys payload sig lic fp typ nonce o k e :
  Forall is_byte payload -> Forall is_byte sig -> json_loads payload = Some (JObj o) ->
  lookup_key keys (py_str (or_json (get o (py "kid")) (JStr []))) = Some e -> e <> [] ->
  key_from_base64 e = Some k -> signature_ok k sig payload = true ->
  verify_token keys (JStr (b64encode payload ++ "."%char :: b64encode sig)) lic fp typ nonce =
    check_claims o lic fp typ nonce.
Proof.
  intros Hp Hs Hj Hl He Hk Hsig. cbn [verify_token].
  rewrite (proj2 (Z.eqb_eq _ _)) by (apply split_one; eauto 10 using encode_no_dot).
  rewrite split_on_app, split_on_none by (by apply encode_no_dot). unfold _b64decode.
  rewrite !decode_encode, Hj by done. unfold res_bind.
  rewrite (proj2 (public_key_ok keys _ k)) by eauto. by rewrite Hsig.
Qed.
End VerifyLemmas.

(** ** Properties *)

(** A concrete library for the witnesses: one key, every signature by it
    equal to the payload, one readable payload. *)
Module Toy.
Definition body : list Z := [1; 2; 3].
Definition the_claims : claims :=
  [(py "kid", JStr (py "02f8c805e424e285")); (py "v", JInt 1); (py "typ", JStr (py "validate"));
   (py "lic", JStr (py "AAAA-BBBB-CCCC-DDDD")); (py "fp", JStr (py "fp1")); (py "nonce", JStr (py "n1"));
   (py "iat", JInt 1700000000); (py "valid", JBool true);
   (py "limits", JObj [(py "max_assets", JInt 250)])].
Definition lib : TokenLib unit := {|
  key_from_base64 := fun _ => Some tt;
  signature_ok := fun _ sig payload => bool_decide (sig = payload);
  json_loads := fun p => if bool_decide (p = body) then Some (JObj the_claims) else None;
  py_repr := fun _ => py "?"
|}.
Definition token : pystr := b64encode body ++ "."%char :: b64encode body.
Definition lic : pystr := py "AAAA-BBBB-CCCC-DDDD".
End Toy.

(** C2: an answer is accepted exactly when everything the module promises holds: a token of two parts, both
    base64, the first a JSON object, whose key id names a trusted key under which the signature
    of those bytes verifies, of the known version and the expected type, about this license and
    this machine, echoing the nonce of the request when there is one, with an issue time. *)
Theorem verify_token_iff {pubkey} `{TokenLib pubkey} keys token lic fp typ nonce o :
  verify_token keys token lic fp typ nonce = Ok o <->
  exists t, token = JStr t /\ trusted keys t lic fp typ nonce o.
Proof.
  split; [apply verify_token_str|]. intros (t & -> & Ht). by apply verify_token_trusted.
Qed.

(** An accepted token is bound to one license, one machine and one request: presented for another license,
    machine or nonce it is refused, and with that reason. *)
Theorem verify_token_bound {pubkey} `{TokenLib pubkey} keys token lic fp typ n o :
  verify_token keys token lic fp typ (Some n) = Ok o ->
  (forall lic', lic' <> lic -> verify_token keys token lic' fp typ (Some n) = Raise OtherLicense) /\
  (forall fp', fp' <> fp -> verify_token keys token lic fp' typ (Some n) = Raise OtherMachine) /\
  (forall n', n' <> n -> verify_token keys token lic fp typ (Some n') = Raise Replayed).
Proof.
  destruct token as [| | | |t| |]; try done. intros Hv. pose proof Hv as Hok.
  cbn [verify_token] in Hv |- *.
  repeat (case_match; try done). unfold res_bind in *. repeat (case_match; try done).
  apply check_claims_ok in Hv as (_ & Hver & Htyp & Hlic & Hfp & Hn & Hiat).
  assert (forall s s' : pystr, s' <> s -> eq_str (JStr s) s' = false) as Hne.
  { intros s0 s' Hs. simpl. apply bool_decide_eq_false. congruence. }
  assert (match typ with Some t0 => eq_str (get o0 (py "typ")) t0 | None => true end = true) as Ety.
  { destruct typ as [ty|]; [|done]. by apply eq_str_true, Htyp. }
  unfold check_claims. rewrite Hver, Ety, Hlic, Hfp, (Hn n eq_refl).
  assert (forall s : pystr, eq_str (JStr s) s = true) as Heq by (intros; by apply eq_str_true).
  rewrite !Heq. split_and!; intros x Hx; by rewrite (Hne _ _ Hx).
Qed.

Lemma verify_token_bound_witness :
  exists o, verify_token (H := Toy.lib) TRUSTED_LICENSE_KEYS (JStr Toy.token) Toy.lic (py "fp1")
              (Some (py "validate")) (Some (py "n1")) = Ok o /\
    verify_token (H := Toy.lib) TRUSTED_LICENSE_KEYS (JStr Toy.token) Toy.lic (py "fp1")
              (Some (py "validate")) (Some (py "n2")) = Raise Replayed.
Proof.
  exists Toy.the_claims.
  assert (verify_token (H := Toy.lib) TRUSTED_LICENSE_KEYS (JStr Toy.token) Toy.lic (py "fp1")
              (Some (py "validate")) (Some (py "n1")) = Ok Toy.the_claims) as E
    by (vm_compute; reflexivity).
  split; [exact E|].
  destruct (@verify_token_bound unit Toy.lib _ _ _ _ _ _ _ E) as (_ & _ & Hr). apply Hr. discriminate.
Defined.

(** The format the license server writes (base64url without padding, of the claims and of the
    signature over those very bytes) is read back byte for byte, so a token signed by a
    built-in key is decided by its claims alone. *)
Theorem server_token_decided {pubkey} `{TokenLib pubkey} payload sig lic fp typ nonce o k e :
  Forall is_byte payload -> Forall is_byte sig -> json_loads payload = Some (JObj o) ->
  lookup_key TRUSTED_LICENSE_KEYS (py_str (or_json (get o (py "kid")) (JStr []))) = Some e ->
  e <> [] -> key_from_base64 e = Some k -> signature_ok k sig payload = true ->
  verify_token TRUSTED_LICENSE_KEYS (JStr (b64encode payload ++ "."%char :: b64encode sig))
    lic fp typ nonce = check_claims o lic fp typ nonce.
Proof. intros. by eapply verify_token_encoded. Qed.

Lemma server_token_decided_witness :
  verify_token (H := Toy.lib) TRUSTED_LICENSE_KEYS (JStr (b64encode Toy.body ++ "."%char :: b64encode Toy.body))
    Toy.lic (py "fp1") (Some (py "validate")) (Some (py "n1")) = Ok Toy.the_claims.
Proof.
  rewrite (@server_token_decided unit Toy.lib Toy.body Toy.body Toy.lic (py "fp1") (Some (py "validate"))
    (Some (py "n1")) Toy.the_claims tt (py "enEtOhXcwcTeVQ8iNrO36S5oNqfI0H9Tgb8coCPANyg=")).
  - vm_compute. reflexivity.
  - repeat constructor; vm_compute; congruence.
  - repeat constructor; vm_compute; congruence.
  - reflexivity.
  - vm_compute. reflexivity.
  - discriminate.
  - reflexivity.
  - reflexivity.
Defined.
