(* ===== verification/LicenseState.v ===== *)
(** * The license state (src/app/core/license_state.py)

    The in-memory license of a worker process, its on-disk cache, and every
    function that changes them.  Times are integers of microseconds since the
    Unix epoch (a naive UTC [datetime] without its calendar limits); each
    argument named [now] is one reading of [datetime.utcnow()], with nothing
    assumed about the order of the readings.  The license client and the
    signature check are arguments: the outcome of [client.validate()] and the
    verifier attached to the cache. *)
From S2P Require Import Prelude PyStr Json Base64 LicenseToken.

(** ** Constants *)
Definition second : Z := 1000000.
Definition minute : Z := 60 * second.
Definition hour : Z := 60 * minute.
Definition day : Z := 24 * hour.

Definition OFFLINE_GRACE : Z := 48 * hour.
Definition PILOT_FALLBACK_DAYS : Z := 30.
Definition PILOT_FALLBACK_ASSETS : Z := 5.
Definition CLOCK_ROLLBACK_TOLERANCE : Z := 5 * minute.
Definition SYNC_INTERVAL_SECONDS : Z := 1 * second.

(** ** Data *)

(** The exceptions of the license client, as far as this module tells them
    apart; [e] is what [str(e)] would show. *)
Inductive client_exc : Type :=
| LicenseRejected (detail : pystr)
| LicenseServerUnreachable (e : pystr)
| LicenseNotActivated (e : pystr)
| OtherError (e : pystr).

(** The [message] field: which text, with the values it shows. *)
Inductive message : Type :=
| NoLicenseActivated
| Signed (text : pystr)
| UsingCached (age : Z)
| Unreachable (cached_valid : bool) (e : pystr)
| RejectedByServer (reason : pystr)
| NotActivated (text : pystr)
| ValidationRejected (e : pystr)
| ClockSetBack
| ClockBeforeIssue
| Expired
| OfflineFileEnded
| GraceOver (since : Z)
| RunningAsPilot (until : Z) (plan_name : json).

Record LicenseState : Type := State {
  valid : bool;
  plan_code : json;
  plan_name : json;
  is_pilot_mode : bool;
  max_assets : option Z;
  addon_packs : Z;
  expires_at : option Z;
  msg : message;
  last_validated_at : option Z;
  offline : bool;
  issued_at : option Z;
  offline_pilot : bool;
  offline_pilot_until : option Z;
  offline_license : bool;
  offline_until : option Z
}.

(** [LicenseState()] *)
Definition initial_state : LicenseState := {|
  valid := false; plan_code := JNull; plan_name := JNull; is_pilot_mode := false;
  max_assets := None; addon_packs := 0; expires_at := None; msg := NoLicenseActivated;
  last_validated_at := None; offline := false; issued_at := None; offline_pilot := false;
  offline_pilot_until := None; offline_license := false; offline_until := None
|}.

(** What the state cache holds: the signed token ([None] for null, absent or
    empty) and the latest time seen ([None] when absent, [Some None] when it
    is not an ISO date). *)
Record cache : Type := Cache {
  c_signed_token : option pystr;
  c_last_seen : option (option Z)
}.

(** (inode, size, mtime) of a file. *)
Definition stamp : Type := Z * Z * Z.

(** The module's globals, and the state cache on disk. *)
Record world : Type := World {
  st : LicenseState;
  signed_token : option pystr;
  max_seen : option Z;
  seen_license_stamp : option stamp;
  seen_state_stamp : option stamp;
  last_sync : option Z;          (** [None] is minus infinity *)
  disk : option cache
}.

(** How the module was set up: [_state_cache] attached, the setting
    LICENSE_STATE_CACHE_ENABLED, [_token_verifier] ([None] when not attached;
    its answer [None] is an exception), [_sync_client] attached. *)
Record config : Type := Config {
  store_attached : bool;
  cache_enabled : bool;
  verifier : option (pystr -> option lic_answer);
  client_attached : bool
}.

(** ** Helpers *)

(** [_utc_from_epoch]: [None] for what [int] refuses and for years outside 1..9999. *)
Definition _utc_from_epoch (v : json) : option Z :=
  match to_int v with
  | Ok n => if (-62135596800 <=? n) && (n <=? 253402300799) then Some (n * second) else None
  | Raise _ => None
  end.

(** [_seen_now] *)
Definition _seen_now (now : Z) (w : world) : world :=
  match max_seen w with
  | None => w {{ max_seen := Some now }}
  | Some m => if m <? now then w {{ max_seen := Some now }} else w
  end.

(** [_persist_state]; [write_ok] is whether the file could be written. *)
Definition _persist_state (cfg : config) (write_ok : bool) (now : Z) (w : world) : world :=
  if store_attached cfg && cache_enabled cfg then
    let w1 := _seen_now now w in
    if write_ok then
      w1 {{ disk := Some {| c_signed_token := if valid (st w1) then signed_token w1 else None;
                            c_last_seen := option_map Some (max_seen w1) |} }}
    else w1
  else w.

(** [_max_assets]; the only exception it lets through is [OverflowError]. *)
Definition _max_assets (limits : json) : res int_error (option Z) :=
  match limits with
  | JObj o =>
      if has_key o (py "max_assets") then
        match get o (py "max_assets") with
        | JNull => Ok None
        | v => match to_int v with
               | Ok n => Ok (Some (Z.max n 0))
               | Raise OverflowError => Raise OverflowError
               | Raise _ => Ok (Some PILOT_FALLBACK_ASSETS)
               end
        end
      else Ok (Some PILOT_FALLBACK_ASSETS)
  | _ => Ok (Some PILOT_FALLBACK_ASSETS)
  end.

(** The add-on packs of [_apply]. *)
Definition _addon_packs (limits : json) : res int_error Z :=
  match limits with
  | JObj o => match to_int (or_json (get o (py "addon_packs")) (JInt 0)) with
              | Ok n => Ok n
              | Raise OverflowError => Raise OverflowError
              | Raise _ => Ok 0
              end
  | _ => Ok 0
  end.

(** [_apply]: the assignments in order; the boolean says that an
    [OverflowError] ended it half way. *)
Definition _apply (a : lic_answer) (s : LicenseState) : LicenseState * bool :=
  let s1 := s {{ valid := la_valid a; plan_code := la_plan_code a; plan_name := la_plan_name a;
                 is_pilot_mode := la_is_pilot_mode a }} in
  match _max_assets (la_limits a) with
  | Raise _ => (s1, true)
  | Ok m =>
      let s2 := s1 {{ max_assets := m }} in
      match _addon_packs (la_limits a) with
      | Raise _ => (s2, true)
      | Ok k => (s2 {{ addon_packs := k; expires_at := _utc_from_epoch (la_expires_at a);
                       offline_license := la_offline_license a;
                       offline_until := _utc_from_epoch (la_offline_until a) }}, false)
      end
  end.

(** [_clear_entitlement] *)
Definition _clear_entitlement (s : LicenseState) : LicenseState :=
  s {{ plan_code := JNull; plan_name := JNull; is_pilot_mode := false; max_assets := None;
       addon_packs := 0; expires_at := None; offline_license := false; offline_until := None }}.

(** ** Reading the state: the offline rules *)

(** The copy [get_license_state] works on. *)
Definition snapshot (s : LicenseState) : LicenseState :=
  s {{ offline_pilot := false; offline_pilot_until := None }}.

Definition refuse (s : LicenseState) (m : message) : LicenseState := s {{ valid := false; msg := m }}.

(** [a or b] on optional times (a [datetime] is never falsy). *)
Definition or_time (a b : option Z) : option Z := match a with Some _ => a | None => b end.

Definition before (now : Z) (t : option Z) (tolerance : Z) : bool :=
  match t with Some t => now <? t - tolerance | None => false end.
Definition past (now : Z) (t : option Z) : bool := match t with Some t => t <? now | None => false end.

(** The rules of [get_license_state], after the copy was made. *)
Definition offline_rules (now : Z) (previous_max : option Z) (current : LicenseState) : LicenseState :=
  if negb (valid current) then current
  else if before now previous_max CLOCK_ROLLBACK_TOLERANCE then refuse current ClockSetBack
  else if before now (issued_at current) CLOCK_ROLLBACK_TOLERANCE then refuse current ClockBeforeIssue
  else if past now (expires_at current) then refuse current Expired
  else if offline_license current then
    match offline_until current with
    | None => refuse current OfflineFileEnded
    | Some u => if u <? now then refuse current OfflineFileEnded else current
    end
  else
    match or_time (issued_at current) (last_validated_at current) with
    | None => current
    | Some reference =>
        if now - reference <=? OFFLINE_GRACE then current
        else
          let fallback_until := reference + OFFLINE_GRACE + PILOT_FALLBACK_DAYS * day in
          if fallback_until <? now then refuse current (GraceOver reference)
          else
            current {{ offline_pilot := true; offline_pilot_until := Some fallback_until;
                       is_pilot_mode := true;
                       max_assets := match max_assets current with
                                     | None => Some PILOT_FALLBACK_ASSETS
                                     | Some m => Some (Z.min m PILOT_FALLBACK_ASSETS)
                                     end;
                       msg := RunningAsPilot fallback_until (plan_name current) }}
    end.

(** [get_license_state] *)
Definition get_license_state (now : Z) (w : world) : LicenseState * world :=
  (offline_rules now (max_seen w) (snapshot (st w)), _seen_now now w).

(** ** The operations that change the state *)

(** [set_license_state]; the boolean says that an [OverflowError] escaped. *)
Definition set_license_state (cfg : config) (write_ok : bool) (now now' : Z) (a : lic_answer) (w : world)
    : world * bool :=
  let '(s, overflow) := _apply a (st w) in
  if overflow then (w {{ st := s }}, true)
  else
    let s' := s {{ msg := Signed (la_message a); last_validated_at := Some now;
                   issued_at := _utc_from_epoch (la_issued_at a); offline := false }} in
    (_persist_state cfg write_ok now' (w {{ st := s'; signed_token := Some (la_signed_token a) }}), false).

(** [mark_license_server_offline] *)
Definition mark_license_server_offline (cfg : config) (write_ok : bool) (now : Z) (e : pystr) (w : world) : world :=
  let s := st w in
  _persist_state cfg write_ok now (w {{ st := s {{ offline := true; msg := Unreachable (valid s) e }} }}).

(** [mark_license_rejected] *)
Definition mark_license_rejected (cfg : config) (write_ok : bool) (now now' : Z) (reason : pystr) (w : world) : world :=
  let s := _clear_entitlement ((st w) {{ valid := false; offline := false }}) in
  let s' := s {{ last_validated_at := Some now; issued_at := None; msg := RejectedByServer reason }} in
  _persist_state cfg write_ok now' (w {{ st := s'; signed_token := None }}).

(** [_no_license] *)
Definition _no_license (text : pystr) (w : world) : world :=
  let s := _clear_entitlement ((st w) {{ valid := false; offline := false }}) in
  w {{ st := s {{ issued_at := None; msg := NotActivated text }}; signed_token := None }}.

(** The end of a function: a value, or the exception that left it. *)
Definition overflow_error : client_exc := OtherError (py "cannot convert float infinity to integer").

(** [refresh_license_state]: [answer] is what [client.validate()] gave. *)
Definition refresh_license_state (cfg : config) (write_ok : bool) (now now' now'' : Z)
    (answer : res client_exc lic_answer) (w : world) : world * res client_exc LicenseState :=
  let other e w := (w {{ st := (st w) {{ valid := false; offline := false; msg := ValidationRejected e }} }},
                    Raise (OtherError e)) in
  match answer with
  | Ok a =>
      let '(w1, overflow) := set_license_state cfg write_ok now now' a w in
      if overflow then other (py "cannot convert float infinity to integer") w1
      else let '(s, w2) := get_license_state now'' w1 in (w2, Ok s)
  | Raise (LicenseRejected detail) =>
      (mark_license_rejected cfg write_ok now now' detail w, Raise (LicenseRejected detail))
  | Raise (LicenseServerUnreachable e) =>
      let w1 := mark_license_server_offline cfg write_ok now e w in
      let '(s, w2) := get_license_state now' w1 in (w2, Ok s)
  | Raise (LicenseNotActivated e) =>
      let s := _clear_entitlement ((st w) {{ valid := false; offline := false }}) in
      let w1 := w {{ st := s {{ msg := NotActivated e }} }} in
      let '(s, w2) := get_license_state now w1 in (w2, Ok s)
  | Raise (OtherError e) => other e w
  end.

(** [restore_cached_state]; the outcome is the Boolean it returns, or the
    [OverflowError] that leaves it. *)
Definition restore_cached_state (cfg : config) (now : Z) (w : world) : world * res client_exc bool :=
  if negb (store_attached cfg && cache_enabled cfg) then (w, Ok false)
  else
    match disk w with
    | None => (w, Ok false)
    | Some cached =>
        let seen := match c_last_seen cached with Some s => s | None => None end in
        let w1 := match seen with
                  | Some s => _seen_now s w
                  | None => w
                  end in
        match c_signed_token cached, verifier cfg with
        | Some token, Some verify =>
            match verify token with
            | None => (w1, Ok false)
            | Some a =>
                match _utc_from_epoch (la_issued_at a) with
                | None => (w1, Ok false)
                | Some issued =>
                    if (now <? issued - CLOCK_ROLLBACK_TOLERANCE) || before now seen CLOCK_ROLLBACK_TOLERANCE
                    then (w1, Ok false)
                    else
                      let age := now - issued in
                      let until := if la_offline_license a then _utc_from_epoch (la_offline_until a) else None in
                      let too_old := match until with
                                     | Some u => u <? now
                                     | None => OFFLINE_GRACE + PILOT_FALLBACK_DAYS * day <? age
                                     end in
                      if too_old then (w1, Ok false)
                      else
                        let '(s, overflow) := _apply a (st w1) in
                        if overflow then (w1 {{ st := s }}, Raise overflow_error)
                        else
                          (w1 {{ st := s {{ last_validated_at := Some issued; issued_at := Some issued;
                                            offline := true; msg := UsingCached age }};
                                 signed_token := Some token }}, Ok true)
                end
            end
        | _, _ => (w1, Ok false)
        end
    end.

(** The later of two optional times. *)
Definition max_time (a b : option Z) : option Z :=
  match a, b with
  | Some x, Some y => Some (Z.max x y)
  | None, _ => b
  | _, None => a
  end.

(** When this process was last told something: its own signed answer, or a "no". *)
Definition known_since (s : LicenseState) : option Z :=
  match valid s, last_validated_at s with
  | false, Some v => max_time (issued_at s) (Some v)
  | _, _ => issued_at s
  end.

(** [_adopt_cached_answer]; the boolean says that an [OverflowError] escaped. *)
Definition _adopt_cached_answer (cfg : config) (w : world) : world * bool :=
  match verifier cfg, disk w with
  | Some verify, Some {| c_signed_token := Some token |} =>
      if negb (cache_enabled cfg) || bool_decide (signed_token w = Some token) then (w, false)
      else
        match verify token with
        | None => (w, false)
        | Some a =>
            match _utc_from_epoch (la_issued_at a) with
            | None => (w, false)
            | Some issued =>
                if match known_since (st w) with Some k => issued <=? k | None => false end then (w, false)
                else
                  let '(s, overflow) := _apply a (st w) in
                  if overflow then (w {{ st := s }}, true)
                  else
                    (w {{ st := s {{ msg := Signed (la_message a); last_validated_at := Some issued;
                                     issued_at := Some issued; offline := false }};
                          signed_token := Some token }}, false)
            end
        end
  | _, _ => (w, false)
  end.

(** [attach_state_cache]: the stamps of the two files as they are now. *)
Definition attach_state_cache (license_stamp state_stamp : option stamp) (w : world) : world :=
  w {{ seen_license_stamp := license_stamp; seen_state_stamp := state_stamp; last_sync := None }}.

(** [sync_with_storage].  [lock_free] is whether [_sync_lock] was acquired,
    [mono] the monotonic clock, the two stamps what [os.stat] shows now,
    [is_offline] the client's answer about the license file, [answer] what
    [client.validate()] gives when it is called. *)
Definition sync_with_storage (cfg : config) (lock_free : bool) (mono : Z)
    (license_stamp state_stamp : option stamp) (is_offline write_ok : bool) (now now' now'' : Z)
    (answer : res client_exc lic_answer) (w : world) : world :=
  if negb (store_attached cfg && client_attached cfg) then w
  else if negb lock_free then w
  else if valid (st w) && match last_sync w with Some t => mono - t <? SYNC_INTERVAL_SECONDS | None => false end then w
  else
    let w1 := w {{ last_sync := Some mono }} in
    if bool_decide (license_stamp = seen_license_stamp w) && bool_decide (state_stamp = seen_state_stamp w) then w1
    else
      let license_changed := negb (bool_decide (license_stamp = seen_license_stamp w)) in
      let w2 := w1 {{ seen_license_stamp := license_stamp; seen_state_stamp := state_stamp }} in
      if license_changed && bool_decide (license_stamp = None)
      then _no_license (py "No license is activated on this machine.") w2
      else if license_changed && is_offline
      then fst (refresh_license_state cfg write_ok now now' now'' answer w2)
      else fst (_adopt_cached_answer cfg w2).

(** ** The offline windows *)

(** What the contract says of a license read [now], signed at [reference]. *)
Inductive phase : Type := Own | Pilot | Locked.
Definition phase_at (now reference : Z) : phase :=
  if now - reference <=? OFFLINE_GRACE then Own
  else if now - reference <=? OFFLINE_GRACE + PILOT_FALLBACK_DAYS * day then Pilot
  else Locked.

(** [None] is unlimited. *)
Definition assets_le (a b : option Z) : Prop :=
  match a, b with
  | _, None => True
  | None, Some _ => False
  | Some x, Some y => x <= y
  end.
Definition pilot_assets (m : option Z) : option Z :=
  match m with None => Some PILOT_FALLBACK_ASSETS | Some m => Some (Z.min m PILOT_FALLBACK_ASSETS) end.

(** The clock was not set back, as far as this process can see. *)
Definition clock_ok (now : Z) (w : world) : Prop :=
  before now (max_seen w) CLOCK_ROLLBACK_TOLERANCE = false /\
  before now (issued_at (st w)) CLOCK_ROLLBACK_TOLERANCE = false.

(** When the state may be used. *)
Definition usable (now : Z) (w : world) : Prop :=
  valid (st w) = true /\ clock_ok now w /\ past now (expires_at (st w)) = false /\
  if offline_license (st w) then exists u, offline_until (st w) = Some u /\ now <= u
  else match or_time (issued_at (st w)) (last_validated_at (st w)) with
       | None => True
       | Some r => phase_at now r <> Locked
       end.

(** The fields of a state the rules read. *)
Ltac rules :=
  unfold get_license_state, offline_rules, snapshot, refuse, clock_ok, phase_at in *; simpl in *.

Lemma offline_rules_valid now pm s :
  valid (offline_rules now pm s) = true <->
  valid s = true /\ before now pm CLOCK_ROLLBACK_TOLERANCE = false /\
  before now (issued_at s) CLOCK_ROLLBACK_TOLERANCE = false /\ past now (expires_at s) = false /\
  if offline_license s then exists u, offline_until s = Some u /\ now <= u
  else match or_time (issued_at s) (last_validated_at s) with
       | None => True
       | Some r => phase_at now r <> Locked
       end.
Proof.
  unfold offline_rules, phase_at. destruct s as [v pc pn pm' ma ad ex ms lv off iss op opu ol ou]. simpl.
  destruct v; simpl; [|naive_solver].
  destruct (before now pm _); [simpl; naive_solver|].
  destruct (before now iss _); [simpl; naive_solver|].
  destruct (past now ex); [simpl; naive_solver|].
  destruct ol.
  { destruct ou as [u|]; [|simpl; naive_solver].
    destruct (Z.ltb_spec u now); simpl; split; try done.
    - intros (_ & _ & _ & _ & u' & [= <-] & ?). lia.
    - intros _. split_and!; eauto. }
  destruct (or_time iss lv) as [r|]; [|simpl; naive_solver].
  destruct (Z.leb_spec (now - r) OFFLINE_GRACE); [simpl; naive_solver|].
  destruct (Z.ltb_spec (r + OFFLINE_GRACE + PILOT_FALLBACK_DAYS * day) now) as [H1|H1],
    (Z.leb_spec (now - r) (OFFLINE_GRACE + PILOT_FALLBACK_DAYS * day)) as [H2|H2]; simpl; try lia; naive_solver.
Qed.

Lemma get_valid now w : valid (fst (get_license_state now w)) = true <-> usable now w.
Proof.
  unfold get_license_state, usable, clock_ok. simpl. rewrite offline_rules_valid.
  destruct (st w); simpl. naive_solver.
Qed.

(** Which plan the reading gives, when it gives one. *)
Lemma get_plan now w :
  usable now w ->
  let s := fst (get_license_state now w) in
  if offline_license (st w) then max_assets s = max_assets (st w) /\ offline_pilot s = false
  else match or_time (issued_at (st w)) (last_validated_at (st w)) with
       | None => max_assets s = max_assets (st w) /\ offline_pilot s = false
       | Some r =>
           if now - r <=? OFFLINE_GRACE then max_assets s = max_assets (st w) /\ offline_pilot s = false
           else max_assets s = pilot_assets (max_assets (st w)) /\ offline_pilot s = true /\
                is_pilot_mode s = true /\
                offline_pilot_until s = Some (r + OFFLINE_GRACE + PILOT_FALLBACK_DAYS * day)
       end.
Proof.
  intros (Hv & [Hm Hi] & He & Hu). unfold get_license_state, offline_rules, snapshot. simpl.
  destruct (st w) as [v pc pn pm' ma ad ex ms lv off iss op opu ol ou]. simpl in *. subst v. simpl.
  rewrite Hm, Hi, He. destruct ol.
  { destruct Hu as (u & -> & Hu). by rewrite (proj2 (Z.ltb_ge _ _)). }
  destruct (or_time iss lv) as [r|]; [|done]. unfold phase_at in Hu.
  destruct (Z.leb_spec (now - r) OFFLINE_GRACE); [done|].
  destruct (Z.ltb_spec (r + OFFLINE_GRACE + PILOT_FALLBACK_DAYS * day) now) as [H1|H1]; simpl; [|done].
  destruct (Z.leb_spec (now - r) (OFFLINE_GRACE + PILOT_FALLBACK_DAYS * day)); [lia|done].
Qed.

Lemma pilot_assets_le m : assets_le (pilot_assets m) m /\ assets_le (pilot_assets m) (Some PILOT_FALLBACK_ASSETS).
Proof. destruct m; simpl; lia. Qed.

Lemma assets_le_refl m : assets_le m m.
Proof. destruct m; simpl; lia. Qed.

(** Refused or granted, a reading never offers more than the signed plan. *)
Lemma offline_rules_assets now pm s : assets_le (max_assets (offline_rules now pm s)) (max_assets s).
Proof.
  unfold offline_rules, refuse. destruct s as [v pc pn pm' ma ad ex ms lv off iss op opu ol ou]. simpl.
  repeat case_match; simpl; try apply assets_le_refl; simplify_eq; simpl; lia.
Qed.

Lemma seen_now_max now w : max_seen (_seen_now now w) = max_time (max_seen w) (Some now).
Proof.
  unfold _seen_now. destruct w as [s tok [m|] ls ss sy d]; simpl; [|done].
  destruct (Z.ltb_spec m now); simpl; f_equal; lia.
Qed.
Lemma seen_now_st now w : st (_seen_now now w) = st w.
Proof. unfold _seen_now. destruct w as [s tok [m|] ls ss sy d]; simpl; [|done]. by destruct (m <? now). Qed.
Lemma seen_now_token now w : signed_token (_seen_now now w) = signed_token w.
Proof. unfold _seen_now. destruct w as [s tok [m|] ls ss sy d]; simpl; [|done]. by destruct (m <? now). Qed.
Lemma seen_now_disk now w : disk (_seen_now now w) = disk w.
Proof. unfold _seen_now. destruct w as [s tok [m|] ls ss sy d]; simpl; [|done]. by destruct (m <? now). Qed.
#[export] Hint Rewrite seen_now_max seen_now_st seen_now_token seen_now_disk : lic.

Lemma persist_st cfg ok now w : st (_persist_state cfg ok now w) = st w.
Proof. unfold _persist_state. destruct (_ && _), ok; simpl; try destruct (_seen_now now w) eqn:E; simpl;
  rewrite <- ?(seen_now_st now w), ?E; done. Qed.

Lemma persist_token cfg ok now w : signed_token (_persist_state cfg ok now w) = signed_token w.
Proof. unfold _persist_state. destruct (_ && _), ok; simpl; try destruct (_seen_now now w) eqn:E; simpl;
  rewrite <- ?(seen_now_token now w), ?E; done. Qed.

Lemma persist_max cfg ok now w :
  max_seen (_persist_state cfg ok now w) =
    if store_attached cfg && cache_enabled cfg then max_time (max_seen w) (Some now) else max_seen w.
Proof.
  unfold _persist_state. destruct (_ && _); [|done]. rewrite <- (seen_now_max now w).
  destruct ok; [|done]. by destruct (_seen_now now w).
Qed.

Lemma persist_disk cfg now w :
  store_attached cfg = true -> cache_enabled cfg = true ->
  disk (_persist_state cfg true now w) =
    Some {| c_signed_token := if valid (st w) then signed_token w else None;
            c_last_seen := Some (max_time (max_seen w) (Some now)) |}.
Proof.
  intros Ha He. unfold _persist_state. rewrite Ha, He. simpl.
  assert (max_time (max_seen w) (Some now) = max_seen (_seen_now now w)) as -> by (by rewrite seen_now_max).
  rewrite <- (seen_now_token now w), <- (seen_now_st now w).
  destruct (_seen_now now w) as [s tok [m|] ls ss sy d] eqn:E; [done|].
  pose proof (seen_now_max now w) as Hm. rewrite E in Hm. by destruct (max_seen w).
Qed.
#[export] Hint Rewrite persist_st persist_token persist_max : lic.

(** ** Restarting the process *)

(** A new process: the globals as they are at import, the cache file kept. *)
Definition restart (w : world) : world :=
  {| st := initial_state; signed_token := None; max_seen := None; seen_license_stamp := None;
     seen_state_stamp := None; last_sync := None; disk := disk w |}.

(** An answer [_apply] takes completely. *)
Definition representable (a : lic_answer) : bool :=
  is_ok (_max_assets (la_limits a)) && is_ok (_addon_packs (la_limits a)).

(** The entitlement an answer describes. *)
Definition granted_assets (a : lic_answer) : option Z :=
  match _max_assets (la_limits a) with Ok m => m | Raise _ => None end.

Record describes (a : lic_answer) (s : LicenseState) : Prop := {
  d_valid : valid s = la_valid a;
  d_plan : plan_code s = la_plan_code a;
  d_name : plan_name s = la_plan_name a;
  d_pilot : is_pilot_mode s = la_is_pilot_mode a;
  d_assets : max_assets s = granted_assets a;
  d_expires : expires_at s = _utc_from_epoch (la_expires_at a);
  d_offline : offline_license s = la_offline_license a;
  d_until : offline_until s = _utc_from_epoch (la_offline_until a)
}.

Lemma apply_describes a s :
  representable a = true ->
  let '(s', overflow) := _apply a s in overflow = false /\ describes a s'.
Proof.
  unfold representable, _apply. destruct (_max_assets _) as [m|] eqn:Em; [|done].
  destruct (_addon_packs _) as [k|]; [|done]. intros _. split; [done|].
  destruct s; split; try done. unfold granted_assets. by rewrite Em.
Qed.

Lemma apply_overflow a s : representable a = false -> snd (_apply a s) = true.
Proof.
  unfold representable, _apply. destruct (_max_assets _) as [m|]; [|done].
  by destruct (_addon_packs _).
Qed.

Lemma apply_valid a s : valid (fst (_apply a s)) = la_valid a /\ plan_code (fst (_apply a s)) = la_plan_code a.
Proof.
  unfold _apply. destruct (_max_assets _); [|by destruct s]. by destruct (_addon_packs _), s.
Qed.

(** What [set_license_state] leaves for an answer it takes. *)
Lemma set_license_state_spec cfg ok now now' a w :
  representable a = true ->
  let '(w', overflow) := set_license_state cfg ok now now' a w in
  overflow = false /\ describes a (st w') /\ issued_at (st w') = _utc_from_epoch (la_issued_at a) /\
  last_validated_at (st w') = Some now /\ offline (st w') = false /\
  signed_token w' = Some (la_signed_token a) /\
  max_seen w' = (if store_attached cfg && cache_enabled cfg then max_time (max_seen w) (Some now') else max_seen w) /\
  (store_attached cfg = true -> cache_enabled cfg = true -> ok = true ->
   disk w' = Some {| c_signed_token := if la_valid a then Some (la_signed_token a) else None;
                     c_last_seen := Some (max_time (max_seen w) (Some now')) |}).
Proof.
  intros Hr. unfold set_license_state. pose proof (apply_describes a (st w) Hr) as Ha.
  destruct (_apply a (st w)) as [s o]. destruct Ha as [-> [Hv ? ? ? ? ? ? ?]].
  rewrite persist_st, persist_token, persist_max. destruct s, w; simpl in *.
  split_and!; try done. intros Hs He ->. rewrite persist_disk by done. simpl. by rewrite Hv.
Qed.

(** The rules read only the signed part of a state. *)
Definition same_license (s s' : LicenseState) : Prop :=
  valid s = valid s' /\ max_assets s = max_assets s' /\ expires_at s = expires_at s' /\
  issued_at s = issued_at s' /\ offline_license s = offline_license s' /\
  offline_until s = offline_until s'.

Lemma rules_same now pm pm' s s' i :
  same_license s s' -> issued_at s = Some i ->
  before now pm CLOCK_ROLLBACK_TOLERANCE = false -> before now pm' CLOCK_ROLLBACK_TOLERANCE = false ->
  let r := offline_rules now pm (snapshot s) in
  let r' := offline_rules now pm' (snapshot s') in
  valid r' = valid r /\ max_assets r' = max_assets r /\ offline_pilot r' = offline_pilot r /\
  offline_pilot_until r' = offline_pilot_until r.
Proof.
  intros Hs Hi Hp Hp'. destruct s as [v pc pn ip ma ad ex ms lv off iss op opu ol ou],
    s' as [v' pc' pn' ip' ma' ad' ex' ms' lv' off' iss' op' opu' ol' ou'].
  unfold same_license in Hs. simpl in *. destruct Hs as (<- & <- & <- & <- & <- & <-). subst iss.
  unfold offline_rules, snapshot, refuse. simpl. rewrite Hp, Hp'. repeat case_match; simplify_eq/=; done.
Qed.

Lemma before_le now t k : (forall x, t = Some x -> x <= now) -> 0 <= k -> before now t k = false.
Proof.
  intros H Hk. destruct t as [x|]; [|done]. specialize (H x eq_refl). simpl. apply Z.ltb_ge. lia.
Qed.

Lemma describes_same a s s' :
  describes a s -> describes a s' -> issued_at s = issued_at s' -> same_license s s'.
Proof. intros [] [] ?. unfold same_license. split_and!; congruence. Qed.

(** The outcome of a restore whose cached token verifies to [a]. *)
Lemma restore_spec cfg t w tok a i seen verify :
  store_attached cfg = true -> cache_enabled cfg = true -> verifier cfg = Some verify ->
  disk w = Some {| c_signed_token := Some tok; c_last_seen := Some (Some seen) |} ->
  verify tok = Some a -> representable a = true -> _utc_from_epoch (la_issued_at a) = Some i ->
  seen <= t -> i - CLOCK_ROLLBACK_TOLERANCE <= t ->
  let '(w', r) := restore_cached_state cfg t w in
  (r = Ok true /\ describes a (st w') /\ issued_at (st w') = Some i /\
   last_validated_at (st w') = Some i /\ max_seen w' = max_time (max_seen w) (Some seen) /\
   signed_token w' = Some tok) \/
  (r = Ok false /\ st w' = st w /\
   match (if la_offline_license a then _utc_from_epoch (la_offline_until a) else None) with
   | Some u => u < t
   | None => phase_at t i = Locked
   end).
Proof.
  intros Ha He Hv Hd Htok Hr Hi Hs Hc. unfold restore_cached_state.
  rewrite Ha, He, Hd, Hv. simpl. rewrite Htok, Hi.
  rewrite (proj2 (Z.ltb_ge t (i - CLOCK_ROLLBACK_TOLERANCE))), (proj2 (Z.ltb_ge t (seen - CLOCK_ROLLBACK_TOLERANCE)))
    by (unfold CLOCK_ROLLBACK_TOLERANCE, minute, second in *; lia). simpl.
  set (until := if la_offline_license a then _ else None).
  destruct (match until with Some u => u <? t | None => _ end) eqn:Eold.
  - right. rewrite seen_now_st. split_and!; [done|done|]. destruct until as [u|]; bool_prop; [done|].
    unfold phase_at. unfold PILOT_FALLBACK_DAYS, day, hour, OFFLINE_GRACE, minute, second in *.
    rewrite !(proj2 (Z.leb_gt _ _)) by lia. done.
  - pose proof (apply_describes a (st (_seen_now seen w)) Hr) as Happ.
    destruct (_apply a _) as [s o]. destruct Happ as [-> [Hdv ? ? ? ? ? ? ?]]. left.
    pose proof (seen_now_max seen w) as Hm. generalize dependent (_seen_now seen w).
    intros w1 Hm. destruct w1, s. simpl in *. split_and!; done.
Qed.

(** ** Everything a process can do, as steps *)

Section Steps.
(** The answers whose signature verified for this machine. *)
Variable genuine : lic_answer -> Prop.

(** The verifier accepts only genuine tokens.  It reads the license storage,
    so it may be another function at every step. *)
Definition sound (cfg : config) : Prop :=
  forall verify tok a, verifier cfg = Some verify -> verify tok = Some a -> genuine a.
Definition answer_genuine (r : res client_exc lic_answer) : Prop := forall a, r = Ok a -> genuine a.

Inductive step (w : world) : world -> Prop :=
| step_get now : step w (snd (get_license_state now w))
| step_refresh cfg ok now now' now'' r :
    answer_genuine r -> step w (fst (refresh_license_state cfg ok now now' now'' r w))
| step_offline cfg ok now e : step w (mark_license_server_offline cfg ok now e w)
| step_rejected cfg ok now now' reason : step w (mark_license_rejected cfg ok now now' reason w)
| step_restore cfg now : sound cfg -> step w (fst (restore_cached_state cfg now w))
| step_attach ls ss : step w (attach_state_cache ls ss w)
| step_sync cfg free mono ls ss off ok now now' now'' r :
    sound cfg -> answer_genuine r ->
    step w (sync_with_storage cfg free mono ls ss off ok now now' now'' r w)
| step_restart : step w (restart w)
(** anyone may edit the cache file *)
| step_disk d : step w (w {{ disk := d }}).

Inductive reachable : world -> Prop :=
| reach_init d : reachable {| st := initial_state; signed_token := None; max_seen := None;
                              seen_license_stamp := None; seen_state_stamp := None; last_sync := None; disk := d |}
| reach_step w w' : reachable w -> step w w' -> reachable w'.

(** A valid state comes from a genuine answer that says "valid". *)
Definition backed (s : LicenseState) : Prop :=
  valid s = true ->
  exists a, genuine a /\ la_valid a = true /\ plan_code s = la_plan_code a /\
            (representable a = true -> describes a s).

Lemma backed_apply a s :
  genuine a -> backed (fst (_apply a s)).
Proof.
  intros Hg Hv. destruct (apply_valid a s) as [Ev Ep]. rewrite Ev in Hv. exists a. split_and!; try done.
  intros Hr. pose proof (apply_describes a s Hr) as Hd. by destruct (_apply a s) as [s' o], Hd.
Qed.

(** Backing does not depend on the fields that are not the license. *)
Lemma backed_fields s s' :
  backed s -> valid s' = valid s -> plan_code s' = plan_code s -> plan_name s' = plan_name s ->
  is_pilot_mode s' = is_pilot_mode s -> max_assets s' = max_assets s -> expires_at s' = expires_at s ->
  offline_license s' = offline_license s -> offline_until s' = offline_until s -> backed s'.
Proof.
  intros Hb Ev Ep ? ? ? ? ? ? Hv. rewrite Ev in Hv. destruct (Hb Hv) as (a & Hg & Ha & Hp & Hd).
  exists a. split_and!; try congruence. intros Hr. destruct (Hd Hr). split; congruence.
Qed.

Lemma backed_invalid s : valid s = false -> backed s.
Proof. intros Hv Hv'. congruence. Qed.

Lemma backed_set cfg ok now now' a w :
  genuine a -> backed (st (fst (set_license_state cfg ok now now' a w))).
Proof.
  intros Hg. unfold set_license_state. pose proof (backed_apply a (st w) Hg) as Hb.
  destruct (_apply a (st w)) as [s [|]]; simpl in *; [by destruct w|].
  rewrite persist_st. destruct w, s; simpl in *. by apply (backed_fields _ _ Hb).
Qed.

Lemma backed_get now w : backed (st w) -> backed (st (snd (get_license_state now w))).
Proof. unfold get_license_state; simpl. by rewrite seen_now_st. Qed.

Lemma backed_offline cfg ok now e w : backed (st w) -> backed (st (mark_license_server_offline cfg ok now e w)).
Proof.
  intros Hb. unfold mark_license_server_offline. rewrite persist_st. destruct w as [s ? ? ? ? ? ?], s.
  simpl in *. by apply (backed_fields _ _ Hb).
Qed.

Lemma rejected_st cfg ok now now' reason w :
  valid (st (mark_license_rejected cfg ok now now' reason w)) = false.
Proof. unfold mark_license_rejected. rewrite persist_st. by destruct w as [s ? ? ? ? ? ?], s. Qed.

Lemma backed_refresh cfg ok now now' now'' r w :
  answer_genuine r -> backed (st w) -> backed (st (fst (refresh_license_state cfg ok now now' now'' r w))).
Proof.
  intros Hr Hb. unfold refresh_license_state. destruct r as [a|[d|e|e|e]].
  - pose proof (backed_set cfg ok now now' a w (Hr a eq_refl)) as Hs.
    destruct (set_license_state cfg ok now now' a w) as [w1 [|]]; simpl in *; [|by rewrite seen_now_st].
    apply backed_invalid. by destruct w1 as [s ? ? ? ? ? ?], s.
  - apply backed_invalid. simpl. apply rejected_st.
  - simpl. rewrite seen_now_st. by apply backed_offline.
  - apply backed_invalid. simpl. rewrite seen_now_st. by destruct w as [s ? ? ? ? ? ?], s.
  - apply backed_invalid. by destruct w as [s ? ? ? ? ? ?], s.
Qed.

Lemma backed_adopt cfg w : sound cfg -> backed (st w) -> backed (st (fst (_adopt_cached_answer cfg w))).
Proof.
  intros Hg Hb. unfold _adopt_cached_answer.
  destruct (verifier cfg) as [verify|] eqn:Ev; [|done]. destruct (disk w) as [[[tok|] ls]|]; try done.
  destruct (_ || _); [done|]. destruct (verify tok) as [a|] eqn:Ea; [|done].
  destruct (_utc_from_epoch _) as [i|]; [|done]. destruct (match known_since (st w) with Some k => i <=? k | None => false end); [done|].
  pose proof (backed_apply a (st w) (Hg _ _ _ Ev Ea)) as Hap.
  destruct (_apply a (st w)) as [s [|]]; simpl in *; [by destruct w|].
  destruct w, s; simpl in *. by apply (backed_fields _ _ Hap).
Qed.

Lemma backed_restore cfg now w : sound cfg -> backed (st w) -> backed (st (fst (restore_cached_state cfg now w))).
Proof.
  intros Hg Hb. unfold restore_cached_state. destruct (negb _); [done|].
  destruct (disk w) as [[tok ls]|]; [|done]. simpl.
  set (w1 := match match ls with Some s => s | None => None end with Some s => _seen_now s w | None => w end).
  assert (st w1 = st w) as E1 by (unfold w1; destruct ls as [[x|]|]; auto using seen_now_st).
  destruct tok as [tok|]; [|simpl; by rewrite E1].
  destruct (verifier cfg) as [verify|] eqn:Ev; [|simpl; by rewrite E1].
  destruct (verify tok) as [a|] eqn:Ea; [|simpl; by rewrite E1].
  destruct (_utc_from_epoch (la_issued_at a)) as [i|]; [|simpl; by rewrite E1].
  destruct (_ || _); [simpl; by rewrite E1|].
  set (until := if la_offline_license a then _ else _).
  destruct (match until with Some u => u <? now | None => _ end); [simpl; by rewrite E1|].
  pose proof (backed_apply a (st w1) (Hg _ _ _ Ev Ea)) as Hap.
  destruct (_apply a (st w1)) as [s [|]]; simpl in *.
  - by destruct w1.
  - generalize dependent w1. intros w1 ?. destruct w1, s; simpl in *. by apply (backed_fields _ _ Hap).
Qed.

Lemma backed_step w w' : backed (st w) -> step w w' -> backed (st w').
Proof.
  intros Hb [now|cfg ok now now' now'' r Hr|cfg ok now e|cfg ok now now' reason|cfg now Hg|ls ss
            |cfg free mono ls ss off ok now now' now'' r Hg Hr| |d].
  - by apply backed_get.
  - by apply backed_refresh.
  - by apply backed_offline.
  - apply backed_invalid, rejected_st.
  - by apply backed_restore.
  - by destruct w.
  - unfold sync_with_storage. destruct (negb _); [done|]. destruct (negb free); [done|].
    destruct (_ && _); [done|]. destruct (_ && _); [by destruct w|].
    destruct (_ && _); [apply backed_invalid; unfold _no_license; by destruct w as [s ? ? ? ? ? ?], s|].
    destruct (_ && _); [apply backed_refresh; [done|by destruct w]|apply backed_adopt; [done|by destruct w]].
  - by apply backed_invalid.
  - by destruct w.
Qed.

Lemma backed_reachable w : reachable w -> backed (st w).
Proof.
  induction 1 as [d|w w' _ IH Hs]; [by apply backed_invalid|]. by apply (backed_step w).
Qed.
End Steps.

(** ** The latest time seen *)

Definition time_le (a b : option Z) : Prop :=
  match a, b with
  | None, _ => True
  | Some _, None => False
  | Some x, Some y => x <= y
  end.

Lemma time_le_refl a : time_le a a.
Proof. destruct a; simpl; lia. Qed.
Lemma time_le_trans a b c : time_le a b -> time_le b c -> time_le a c.
Proof. destruct a, b, c; simpl; try done; lia. Qed.
Lemma time_le_max a x : time_le a (max_time a (Some x)) /\ time_le (Some x) (max_time a (Some x)).
Proof. destruct a; simpl; lia. Qed.
Lemma time_le_seen now w : time_le (max_seen w) (max_seen (_seen_now now w)).
Proof. rewrite seen_now_max. apply time_le_max. Qed.
Lemma time_le_persist cfg ok now w : time_le (max_seen w) (max_seen (_persist_state cfg ok now w)).
Proof. rewrite persist_max. destruct (_ && _); [apply time_le_max|apply time_le_refl]. Qed.
#[export] Hint Resolve time_le_refl time_le_seen time_le_persist : ngc.

Lemma time_le_set cfg ok now now' a w :
  time_le (max_seen w) (max_seen (fst (set_license_state cfg ok now now' a w))).
Proof.
  unfold set_license_state. destruct (_apply a (st w)) as [s [|]]; simpl; [by destruct w; auto with ngc|].
  eapply time_le_trans; [|apply time_le_persist]. by destruct w; auto with ngc.
Qed.

Lemma time_le_refresh cfg ok now now' now'' r w :
  time_le (max_seen w) (max_seen (fst (refresh_license_state cfg ok now now' now'' r w))).
Proof.
  unfold refresh_license_state. destruct r as [a|[d|e|e|e]].
  - pose proof (time_le_set cfg ok now now' a w) as H.
    destruct (set_license_state cfg ok now now' a w) as [w1 [|]]; simpl in *.
    + by destruct w1.
    + eapply time_le_trans; [exact H|apply time_le_seen].
  - simpl. unfold mark_license_rejected. eapply time_le_trans; [|apply time_le_persist].
    by destruct w; apply time_le_refl.
  - simpl. eapply time_le_trans; [|apply time_le_seen]. unfold mark_license_server_offline.
    eapply time_le_trans; [|apply time_le_persist]. by destruct w; apply time_le_refl.
  - simpl. eapply time_le_trans; [|apply time_le_seen]. by destruct w; apply time_le_refl.
  - by destruct w; apply time_le_refl.
Qed.

Lemma max_adopt cfg w : max_seen (fst (_adopt_cached_answer cfg w)) = max_seen w.
Proof.
  unfold _adopt_cached_answer. destruct (verifier cfg) as [verify|]; [|done].
  destruct (disk w) as [[[tok|] ls]|]; try done. destruct (_ || _); [done|].
  destruct (verify tok) as [a|]; [|done]. destruct (_utc_from_epoch _) as [i|]; [|done].
  destruct (match known_since (st w) with Some k => i <=? k | None => false end); [done|].
  destruct (_apply a (st w)) as [s [|]]; by destruct w.
Qed.

Lemma time_le_restore cfg now w : time_le (max_seen w) (max_seen (fst (restore_cached_state cfg now w))).
Proof.
  unfold restore_cached_state. destruct (negb _); [apply time_le_refl|].
  destruct (disk w) as [[tok ls]|]; [|apply time_le_refl]. simpl.
  set (w1 := match match ls with Some s => s | None => None end with Some s => _seen_now s w | None => w end).
  assert (time_le (max_seen w) (max_seen w1)) as H1
    by (unfold w1; destruct ls as [[x|]|]; auto with ngc).
  destruct tok as [tok|]; [|done]. destruct (verifier cfg) as [verify|]; [|done].
  destruct (verify tok) as [a|]; [|done]. destruct (_utc_from_epoch (la_issued_at a)) as [i|]; [|done].
  destruct (_ || _); [done|]. set (until := if la_offline_license a then _ else _).
  destruct (match until with Some u => u <? now | None => _ end); [done|].
  destruct (_apply a (st w1)) as [s [|]]; generalize dependent w1; intros w1 ?; by destruct w1.
Qed.

Lemma time_le_sync cfg free mono ls ss off ok now now' now'' r w :
  time_le (max_seen w) (max_seen (sync_with_storage cfg free mono ls ss off ok now now' now'' r w)).
Proof.
  unfold sync_with_storage.
  destruct (negb _); [apply time_le_refl|]. destruct (negb free); [apply time_le_refl|].
  destruct (_ && _); [apply time_le_refl|]. destruct (_ && _); [by destruct w; apply time_le_refl|].
  destruct (_ && _); [by unfold _no_license; destruct w; apply time_le_refl|].
  destruct (_ && _); [|rewrite max_adopt; by destruct w; apply time_le_refl].
  eapply time_le_trans; [|apply time_le_refresh]. by destruct w; apply time_le_refl.
Qed.

(** A step that is not a restart never forgets a time. *)
Inductive live_step genuine (w w' : world) : Prop :=
| live (_ : step genuine w w') (_ : w' <> restart w).

Lemma live_step_seen genuine w w' : live_step genuine w w' -> time_le (max_seen w) (max_seen w').
Proof.
  intros [[now|cfg ok now now' now'' r Hr|cfg ok now e|cfg ok now now' reason|cfg now Hg|ls ss
              |cfg free mono ls ss off ok now now' now'' r Hg Hr| |d] Hne].
  - simpl. auto with ngc.
  - apply time_le_refresh.
  - unfold mark_license_server_offline. eapply time_le_trans; [|apply time_le_persist].
    by destruct w; apply time_le_refl.
  - unfold mark_license_rejected. eapply time_le_trans; [|apply time_le_persist].
    by destruct w; apply time_le_refl.
  - apply time_le_restore.
  - by destruct w; apply time_le_refl.
  - apply time_le_sync.
  - done.
  - by destruct w; apply time_le_refl.
Qed.

Lemma live_steps_seen genuine w w' :
  rtc (live_step genuine) w w' -> time_le (max_seen w) (max_seen w').
Proof.
  induction 1 as [w|w w1 w' Hs _ IH]; [apply time_le_refl|].
  eapply time_le_trans; [by eapply live_step_seen|done].
Qed.

(** ** Properties *)

(** Data for the witnesses: a signed annual plan of 250 assets. *)
Module Demo.
Definition t0 : Z := 1700000000 * second.
Definition answer : lic_answer := {|
  la_valid := true; la_message := py "ok"; la_plan_code := JStr (py "NGC-BUS-250-1Y");
  la_plan_name := JStr (py "NGCorion Business"); la_is_pilot_mode := false;
  la_limits := JObj [(py "max_assets", JInt 250)]; la_expires_at := JInt 1731536000;
  la_issued_at := JInt 1700000000; la_offline_license := false; la_offline_until := JNull;
  la_signed_token := py "token" |}.
Definition verify (tok : pystr) : option lic_answer :=
  if bool_decide (tok = py "token") then Some answer else None.
Definition cfg : config := {| store_attached := true; cache_enabled := true;
                              verifier := Some verify; client_attached := true |}.
Definition fresh : world := restart {| st := initial_state; signed_token := None; max_seen := None;
  seen_license_stamp := None; seen_state_stamp := None; last_sync := None; disk := None |}.
Definition licensed : world := fst (set_license_state cfg true t0 t0 answer fresh).
End Demo.

(** A reading of the license says "valid" exactly when the state holds a valid signed answer, the clock was
    not set back by more than five minutes, the signed term has not ended, and the license file
    or the 48 hours and 30 days since the answer have not run out. *)
Theorem get_license_state_valid_iff now w :
  valid (fst (get_license_state now w)) = true <-> usable now w.
Proof. apply get_valid. Qed.

(** C37: without contact, a license signed at [i] keeps its own plan for 48 hours, then runs as a pilot of at most
    five assets for 30 days more (with the end date the message announces), then is refused; the
    plan's name and term stay. *)
Theorem offline_windows now w i :
  valid (st w) = true -> issued_at (st w) = Some i -> offline_license (st w) = false ->
  clock_ok now w -> past now (expires_at (st w)) = false ->
  let s := fst (get_license_state now w) in
  match phase_at now i with
  | Own => valid s = true /\ max_assets s = max_assets (st w) /\ offline_pilot s = false
  | Pilot => valid s = true /\ max_assets s = pilot_assets (max_assets (st w)) /\
             assets_le (max_assets s) (Some PILOT_FALLBACK_ASSETS) /\
             assets_le (max_assets s) (max_assets (st w)) /\ offline_pilot s = true /\
             offline_pilot_until s = Some (i + OFFLINE_GRACE + PILOT_FALLBACK_DAYS * day)
  | Locked => valid s = false
  end.
Proof.
  intros Hv Hi Ho Hc He s. pose proof (get_valid now w) as Hg. pose proof (get_plan now w) as Hp.
  unfold usable in Hg, Hp. cbv zeta in Hp. fold s in Hg, Hp. clearbody s.
  rewrite Hi, Ho in Hg, Hp. simpl in Hg, Hp.
  unfold phase_at in *. destruct (now - i <=? OFFLINE_GRACE) eqn:E1.
  - destruct Hp as [Hm Hf]; [by split_and!|]. split_and!; [|done|done]. apply Hg. by split_and!.
  - destruct (now - i <=? OFFLINE_GRACE + PILOT_FALLBACK_DAYS * day) eqn:E2.
    + destruct Hp as (Hm & Hf & _ & Hu); [by split_and!|]. destruct (pilot_assets_le (max_assets (st w))).
      rewrite Hm. split_and!; try done. apply Hg. by split_and!.
    + apply not_true_iff_false. intros Hs%Hg. naive_solver.
Qed.

Lemma offline_windows_witness :
  max_assets (fst (get_license_state (Demo.t0 + 3 * day) Demo.licensed)) = Some 5 /\
  valid (fst (get_license_state (Demo.t0 + 33 * day) Demo.licensed)) = false.
Proof.
  assert (phase_at (Demo.t0 + 3 * day) Demo.t0 = Pilot) as Ep by (vm_compute; reflexivity).
  assert (phase_at (Demo.t0 + 33 * day) Demo.t0 = Locked) as El by (vm_compute; reflexivity).
  assert (valid (st Demo.licensed) = true) as Hv by (vm_compute; reflexivity).
  assert (issued_at (st Demo.licensed) = Some Demo.t0) as Hi by (vm_compute; reflexivity).
  assert (offline_license (st Demo.licensed) = false) as Ho by (vm_compute; reflexivity).
  assert (forall k, k = 3 \/ k = 33 -> clock_ok (Demo.t0 + k * day) Demo.licensed /\
            past (Demo.t0 + k * day) (expires_at (st Demo.licensed)) = false) as Hk.
  { intros k [->| ->]; (split; [split|]); vm_compute; reflexivity. }
  split.
  - destruct (Hk 3 (or_introl eq_refl)) as [Hc He].
    pose proof (offline_windows _ _ _ Hv Hi Ho Hc He) as H. cbv zeta in H. rewrite Ep in H.
    destruct H as (_ & -> & _). vm_compute. reflexivity.
  - destruct (Hk 33 (or_intror eq_refl)) as [Hc He].
    pose proof (offline_windows _ _ _ Hv Hi Ho Hc He) as H. cbv zeta in H. rewrite El in H. exact H.
Defined.

(** Time alone never gives anything back: of two readings of one process with no answer in between, the
    later one is valid only if the earlier one is, and grants at most as many assets. *)
Theorem windows_monotone now now' w :
  now <= now' -> clock_ok now w ->
  let '(s, w1) := get_license_state now w in
  let s' := fst (get_license_state now' w1) in
  valid s' = true -> valid s = true /\ assets_le (max_assets s') (max_assets s).
Proof.
  intros Hle Hc. destruct (get_license_state now w) as [s w1] eqn:E.
  assert (s = fst (get_license_state now w)) as -> by (by rewrite E).
  assert (w1 = _seen_now now w) as -> by (unfold get_license_state in E; congruence).
  intros s' Hs'. apply get_valid in Hs' as Hu'. pose proof (get_plan now' _ Hu') as Hp'.
  cbv zeta in Hp'. fold s' in Hp'.
  destruct Hu' as (Hv & _ & He & Hw). rewrite seen_now_st in *.
  assert (usable now w) as Hu.
  { split_and!; [done|done| |].
    - destruct (expires_at (st w)); [|done]. simpl in *. apply Z.ltb_ge. apply Z.ltb_ge in He. lia.
    - destruct (offline_license (st w)).
      + destruct Hw as (u & ? & ?). exists u. split; [done|lia].
      + destruct (or_time _ _) as [r|]; [|done]. unfold phase_at in *. repeat case_match; bool_prop; naive_solver lia. }
  split; [by apply get_valid|]. pose proof (get_plan now w Hu) as Hp. cbv zeta in Hp.
  generalize dependent s'. generalize dependent (fst (get_license_state now w)). intros s _ Hp s' _ Hp'.
  destruct (offline_license (st w)).
  - destruct Hp as [-> _], Hp' as [-> _]. apply assets_le_refl.
  - destruct (or_time _ _) as [r|]; [|destruct Hp as [-> _], Hp' as [-> _]; apply assets_le_refl].
    pose proof (pilot_assets_le (max_assets (st w))).
    destruct (Z.leb_spec (now' - r) OFFLINE_GRACE), (Z.leb_spec (now - r) OFFLINE_GRACE); try lia.
    + destruct Hp as [-> _], Hp' as [-> _]. apply assets_le_refl.
    + destruct Hp as [-> _], Hp' as [-> _]. tauto.
    + destruct Hp as [-> _], Hp' as [-> _]. apply assets_le_refl.
Qed.

Lemma windows_monotone_witness :
  valid (fst (get_license_state (Demo.t0 + day) Demo.licensed)) = true /\
  assets_le (max_assets (fst (get_license_state (Demo.t0 + 3 * day)
                                (snd (get_license_state (Demo.t0 + day) Demo.licensed))))) (Some 250).
Proof.
  pose proof (windows_monotone (Demo.t0 + day) (Demo.t0 + 3 * day) Demo.licensed) as H.
  assert (Demo.t0 + day <= Demo.t0 + 3 * day) as Hle by (vm_compute; discriminate).
  assert (clock_ok (Demo.t0 + day) Demo.licensed) as Hc by (split; vm_compute; reflexivity).
  specialize (H Hle Hc). destruct H as [Hv Ha]; [vm_compute; reflexivity|]. split; [exact Hv|exact Ha].
Defined.

(** A restart neither extends nor shortens the windows: after a valid answer was taken and cached, a process
    that is restarted at any time and comes up on the cache reads, ever after, the same validity,
    the same number of assets and the same pilot end as one that kept running, as long as the
    clock does not go back. *)
Theorem restart_keeps_windows cfg verify now now' a i w t t' :
  store_attached cfg = true -> cache_enabled cfg = true -> verifier cfg = Some verify ->
  verify (la_signed_token a) = Some a -> representable a = true -> la_valid a = true ->
  _utc_from_epoch (la_issued_at a) = Some i ->
  now' <= t -> (forall m, max_seen w = Some m -> m <= t) -> i - CLOCK_ROLLBACK_TOLERANCE <= t -> t <= t' ->
  let w1 := fst (set_license_state cfg true now now' a w) in
  let w2 := fst (restore_cached_state cfg t (restart w1)) in
  let s := fst (get_license_state t' w1) in
  let s' := fst (get_license_state t' w2) in
  valid s' = valid s /\
  (valid s = true -> max_assets s' = max_assets s /\ offline_pilot s' = offline_pilot s /\
                     offline_pilot_until s' = offline_pilot_until s).
Proof.
  intros Ha He Hv Htok Hr Hval Hi Hn Hm Hit Htt w1 w2 s s'.
  pose proof (set_license_state_spec cfg true now now' a w Hr) as Hset.
  subst s s' w2 w1.
  destruct (set_license_state cfg true now now' a w) as [w1 o]. cbn [fst] in *.
  destruct Hset as (_ & Hd & Hiss & _ & _ & _ & Hmax & Hdisk). specialize (Hdisk Ha He eq_refl).
  rewrite Hval in Hdisk. rewrite Ha, He in Hmax. simpl in Hmax. rewrite Hi in Hiss.
  assert (forall x, max_seen w1 = Some x -> x <= t') as Hs1.
  { rewrite Hmax. destruct (max_seen w) as [m|]; intros x [= <-]; [specialize (Hm m eq_refl)|]; lia. }
  assert (before t' (max_seen w1) CLOCK_ROLLBACK_TOLERANCE = false) as Hb1
    by (apply before_le; [done|vm_compute; discriminate]).
  destruct (max_time (max_seen w) (Some now')) as [seen|] eqn:Eseen; [|by destruct (max_seen w)].
  assert (seen <= t) as Hst.
  { destruct (max_seen w) as [m|]; simplify_eq/=; [specialize (Hm m eq_refl)|]; lia. }
  pose proof (restore_spec cfg t (restart w1) (la_signed_token a) a i seen verify Ha He Hv Hdisk Htok Hr Hi Hst Hit) as Hres.
  destruct (restore_cached_state cfg t (restart w1)) as [w2 r]. cbn [fst].
  destruct Hres as [(_ & Hd2 & Hi2 & _ & Hm2 & _)|(_ & Hst2 & Hold)].
  - assert (before t' (max_seen w2) CLOCK_ROLLBACK_TOLERANCE = false) as Hb2.
    { rewrite Hm2. apply before_le; [|vm_compute; discriminate]. intros x [= <-]. lia. }
    destruct (rules_same t' _ _ (st w1) (st w2) i (describes_same a _ _ Hd Hd2 ltac:(congruence)) Hiss Hb1 Hb2)
      as (E1 & E2 & E3 & E4). unfold get_license_state. cbn [fst]. auto.
  - assert (valid (fst (get_license_state t' w2)) = false) as ->.
    { unfold get_license_state. rewrite Hst2. done. }
    assert (valid (fst (get_license_state t' w1)) = false) as ->; [|done].
    apply not_true_iff_false. intros (_ & _ & _ & Hu)%get_valid.
    rewrite Hiss, (d_offline _ _ Hd), (d_until _ _ Hd) in Hu. simpl in Hu.
    destruct (la_offline_license a).
    + destruct Hu as (u & Eu & Hu). rewrite Eu in Hold. lia.
    + unfold phase_at in *. repeat case_match; bool_prop; try done; lia.
Qed.

Lemma restart_keeps_windows_witness :
  let w2 := fst (restore_cached_state Demo.cfg (Demo.t0 + day) (restart Demo.licensed)) in
  valid (fst (get_license_state (Demo.t0 + 4 * day) w2)) = true.
Proof.
  assert (forall m, max_seen Demo.fresh = Some m -> m <= Demo.t0 + day) as Hm by discriminate.
  pose proof (restart_keeps_windows Demo.cfg Demo.verify Demo.t0 Demo.t0 Demo.answer Demo.t0 Demo.fresh
    (Demo.t0 + day) (Demo.t0 + 4 * day) eq_refl eq_refl eq_refl eq_refl ltac:(vm_compute; reflexivity) eq_refl
    ltac:(vm_compute; reflexivity) ltac:(vm_compute; discriminate) Hm
    ltac:(vm_compute; discriminate) ltac:(vm_compute; discriminate)) as H.
  cbv zeta in H. destruct H as [H _]. cbv zeta. fold Demo.licensed in H. rewrite H. vm_compute. reflexivity.
Defined.

(** A rejection is final until a newer signed answer: the license is refused from that moment, the cache no longer
    holds a token, so a restart at any time comes up without a license, and the answer another
    worker cached is not taken when it was signed before the rejection. *)
Theorem rejection_is_final cfg now now' reason w :
  store_attached cfg = true -> cache_enabled cfg = true ->
  let w1 := mark_license_rejected cfg true now now' reason w in
  (forall t, valid (fst (get_license_state t w1)) = false) /\
  (forall t, let '(w2, r) := restore_cached_state cfg t (restart w1) in
             r = Ok false /\ forall t', valid (fst (get_license_state t' w2)) = false) /\
  (forall d, (forall verify tok a i, verifier cfg = Some verify -> verify tok = Some a ->
                _utc_from_epoch (la_issued_at a) = Some i -> i <= now) ->
             st (fst (_adopt_cached_answer cfg (w1 {{ disk := d }}))) = st w1).
Proof.
  intros Ha He w1.
  assert (valid (st w1) = false) as Hv by apply rejected_st.
  assert (forall w, valid (st w) = false -> forall t, valid (fst (get_license_state t w)) = false) as Hget.
  { intros w' Hw t. apply not_true_iff_false. intros [Hx _]%get_valid. congruence. }
  split_and!; [by apply Hget| |].
  - intros t. unfold restore_cached_state. rewrite Ha, He. simpl.
    assert (exists ls, disk w1 = Some {| c_signed_token := None; c_last_seen := ls |}) as [ls Hd].
    { unfold w1, mark_license_rejected. eexists. rewrite persist_disk by done.
      by destruct w as [s ? ? ? ? ? ?], s. }
    rewrite Hd. simpl. split; [done|]. intros t'.
    destruct ls as [[x|]|]; unfold get_license_state; simpl; rewrite ?seen_now_st; done.
  - intros d Hold. unfold _adopt_cached_answer.
    destruct (verifier cfg) as [verify|] eqn:Ev; [|by destruct w1].
    destruct (disk (w1 {{ disk := d }})) as [[[tok|] ls]|]; [|by destruct w1..].
    destruct (_ || _); [by destruct w1|]. destruct (verify tok) as [a|] eqn:Ea; [|by destruct w1].
    destruct (_utc_from_epoch (la_issued_at a)) as [i|] eqn:Ei; [|by destruct w1].
    assert (match known_since (st (w1 {{ disk := d }})) with Some k => i <=? k | None => false end = true) as ->;
      [|by destruct w1].
    assert (known_since (st (w1 {{ disk := d }})) = Some now) as ->.
    { transitivity (known_since (st w1)); [by destruct w1|]. unfold w1, mark_license_rejected.
      rewrite persist_st. by destruct w as [s ? ? ? ? ? ?], s. }
    apply Z.leb_le. by eapply Hold.
Qed.

Lemma rejection_is_final_witness :
  valid (fst (get_license_state (Demo.t0 + day)
    (mark_license_rejected Demo.cfg true (Demo.t0 + hour) (Demo.t0 + hour) (py "revoked") Demo.licensed))) = false.
Proof.
  pose proof (rejection_is_final Demo.cfg (Demo.t0 + hour) (Demo.t0 + hour) (py "revoked") Demo.licensed
    eq_refl eq_refl) as H.
  cbv zeta in H. destruct H as [H _]. exact (H (Demo.t0 + day)).
Defined.

(** C1: whatever the sequence of answers, outages, rejections, restarts, worker synchronisations and edits of the
    cache file, a valid state describes an answer whose signature verified and which says
    "valid": its plan, its number of assets, its term. *)
Theorem valid_state_is_genuine (genuine : lic_answer -> Prop) w :
  reachable genuine w -> valid (st w) = true ->
  exists a, genuine a /\ la_valid a = true /\ plan_code (st w) = la_plan_code a /\
            (representable a = true -> describes a (st w)).
Proof. intros Hr. by apply (backed_reachable genuine). Qed.

Lemma valid_state_is_genuine_witness :
  exists a, a = Demo.answer /\ la_valid a = true.
Proof.
  destruct (valid_state_is_genuine (eq Demo.answer)
    (fst (refresh_license_state Demo.cfg true Demo.t0 Demo.t0 Demo.t0 (Ok Demo.answer) Demo.fresh)))
    as (a & Ha & Hv & _).
  - eapply reach_step; [apply (reach_init _ None)|]. apply step_refresh. intros a [= <-]. reflexivity.
  - vm_compute. reflexivity.
  - exists a. auto.
Defined.

(** What each outcome of a validation does: a signed answer replaces the license; an unreachable server changes
    no part of it; a rejection, an answer of another kind and a missing activation invalidate it,
    and only the last of these is not reported as an error. *)
Theorem refresh_outcomes cfg ok now now' now'' r w :
  let '(w', out) := refresh_license_state cfg ok now now' now'' r w in
  match r with
  | Ok a => if representable a then describes a (st w') /\ is_ok out = true else valid (st w') = false /\ is_ok out = false
  | Raise (LicenseServerUnreachable e) =>
      same_license (st w') (st w) /\ plan_code (st w') = plan_code (st w) /\ signed_token w' = signed_token w /\
      offline (st w') = true /\ is_ok out = true
  | Raise (LicenseRejected d) =>
      valid (st w') = false /\ signed_token w' = None /\ max_assets (st w') = None /\ out = Raise (LicenseRejected d)
  | Raise (LicenseNotActivated e) =>
      valid (st w') = false /\ max_assets (st w') = None /\ is_ok out = true
  | Raise (OtherError e) => valid (st w') = false /\ out = Raise (OtherError e)
  end.
Proof.
  unfold refresh_license_state. destruct r as [a|[d|e|e|e]].
  - destruct (representable a) eqn:Hr.
    + pose proof (set_license_state_spec cfg ok now now' a w Hr) as Hs.
      destruct (set_license_state cfg ok now now' a w) as [w1 o]. destruct Hs as (-> & Hd & _).
      simpl. by rewrite seen_now_st.
    + unfold set_license_state. pose proof (apply_overflow a (st w) Hr) as Ho.
      destruct (_apply a (st w)) as [s o]. simpl in Ho. subst o. by destruct w, s.
  - unfold mark_license_rejected. rewrite persist_st, persist_token.
    by destruct w as [s ? ? ? ? ? ?], s.
  - simpl. rewrite seen_now_st, seen_now_token. unfold mark_license_server_offline.
    rewrite persist_st, persist_token. destruct w as [s ? ? ? ? ? ?], s. by split_and!.
  - simpl. rewrite seen_now_st. by destruct w as [s ? ? ? ? ? ?], s.
  - by destruct w as [s ? ? ? ? ? ?], s.
Qed.

(** A clock that is set back is noticed: once a process has read a time, then until it is restarted, and whatever
    it is told in between, every reading more than five minutes earlier is refused. *)
Theorem clock_rollback_refused genuine now w w' back :
  rtc (live_step genuine) (snd (get_license_state now w)) w' ->
  back < now - CLOCK_ROLLBACK_TOLERANCE ->
  valid (fst (get_license_state back w')) = false.
Proof.
  intros Hs Hb. apply not_true_iff_false. intros (_ & [Hm _] & _)%get_valid.
  apply live_steps_seen in Hs. simpl in Hs. rewrite seen_now_max in Hs.
  pose proof (time_le_trans _ _ _ (proj2 (time_le_max (max_seen w) now)) Hs) as Hn.
  destruct (max_seen w') as [m|]; simpl in *; [|done]. apply Z.ltb_ge in Hm. lia.
Qed.

Lemma clock_rollback_refused_witness :
  valid (fst (get_license_state (Demo.t0 + hour) (snd (get_license_state (Demo.t0 + 2 * hour) Demo.licensed)))) = false.
Proof.
  apply (clock_rollback_refused (eq Demo.answer) (Demo.t0 + 2 * hour) Demo.licensed).
  - apply rtc_refl.
  - vm_compute. reflexivity.
Defined.
