(* ===== verification/AssetEntitlement.v ===== *)
(** * The asset entitlement (src/app/core/asset_entitlement.py)

    How many assets may be managed, and which ones audits and hardening may
    touch.  The inventory is the list of its asset ids (the primary key: no
    two are equal); the queries of the code are functions of it.  The license
    comes in as the state [get_license_state] returned. *)
From S2P Require Import Prelude LicenseState.

Definition inventory := list Z.

(** The refusals: [AssetLimitExceeded], one constructor per message. *)
Inductive limit_error : Type :=
| NoValidLicense
| NotInInventory
| BeyondLimit (limit used : Z)
| NoRoom (limit used room : Z)
| FlushRefused (limit used adding : Z).

(** [entitlement] *)
Definition entitlement (s : LicenseState) : bool * option Z :=
  (valid s, if valid s then max_assets s else Some 0).

(** [count_assets] *)
Definition count_assets (db : inventory) : Z := Z.of_nat (length db).

(** Insertion sort: [ORDER BY id]. *)
Fixpoint insert_id (x : Z) (l : list Z) : list Z :=
  match l with
  | [] => [x]
  | y :: l' => if x <=? y then x :: l else y :: insert_id x l'
  end.
Fixpoint order_by_id (db : inventory) : list Z :=
  match db with [] => [] | x :: db' => insert_id x (order_by_id db') end.

(** The dictionary [usage] returns. *)
Record usage_info : Type := Usage {
  u_used : Z;
  u_max_assets : option Z;
  u_unlimited : bool;
  u_over_limit : bool;
  u_remaining : option Z;
  u_licensed_through_id : option Z
}.

Definition is_none {A} (o : option A) : bool := match o with None => true | Some _ => false end.
Definition or_zero (o : option Z) : Z := match o with Some n => n | None => 0 end.

(** [usage] *)
Definition usage (s : LicenseState) (db : inventory) : usage_info :=
  let '(licensed, limit) := entitlement s in
  let used := count_assets db in
  let over := licensed && match limit with Some l => l <? used | None => false end in
  let through :=
    if over then
      if 0 <? or_zero limit
      then order_by_id db !! Z.to_nat (Z.max (or_zero limit - 1) 0)
      else Some 0
    else None in
  {| u_used := used;
     u_max_assets := if licensed then limit else Some 0;
     u_unlimited := licensed && is_none limit;
     u_over_limit := over;
     u_remaining := if licensed && is_none limit then None else Some (Z.max (or_zero limit - used) 0);
     u_licensed_through_id := through |}.

(** [_position] *)
Definition _position (db : inventory) (asset_id : Z) : Z :=
  Z.of_nat (length (List.filter (fun i => i <=? asset_id) db)).

(** [is_asset_licensed] *)
Definition is_asset_licensed (s : LicenseState) (db : inventory) (asset_id : option Z) : bool :=
  let '(licensed, limit) := entitlement s in
  if negb licensed then false
  else match limit, asset_id with
       | None, _ => true
       | Some _, None => false
       | Some l, Some i => _position db i <=? l
       end.

(** [require_licensed_asset] *)
Definition require_licensed_asset (s : LicenseState) (db : inventory) (asset_id : option Z) : res limit_error unit :=
  let '(licensed, limit) := entitlement s in
  check licensed else NoValidLicense in
  match limit, asset_id with
  | None, _ => Ok tt
  | Some _, None => Raise NotInInventory
  | Some l, Some i =>
      check negb (l <? _position db i) else (BeyondLimit l (count_assets db)) in Ok tt
  end.

(** [check_asset_capacity] *)
Definition check_asset_capacity (s : LicenseState) (db : inventory) (adding : Z) : res limit_error unit :=
  let '(licensed, limit) := entitlement s in
  check licensed else NoValidLicense in
  match limit with
  | None => Ok tt
  | Some l =>
      if adding <=? 0 then Ok tt
      else
        let used := count_assets db in
        check negb (l <? used + adding) else (NoRoom l used (Z.max (l - used) 0)) in Ok tt
  end.

(** [remaining_capacity] *)
Definition remaining_capacity (s : LicenseState) (db : inventory) : option Z :=
  let '(licensed, limit) := entitlement s in
  if negb licensed then Some 0
  else match limit with None => None | Some l => Some (Z.max (l - count_assets db) 0) end.

(** [_refuse_assets_beyond_the_license], then the flush: the new assets are
    inserted unless the guard raised. *)
Definition before_flush (s : LicenseState) (db : inventory) (new_assets : Z) : res limit_error unit :=
  if new_assets =? 0 then Ok tt
  else
    let '(licensed, limit) := entitlement s in
    match licensed, limit with
    | true, Some l =>
        let used := count_assets db in
        check negb (l <? used + new_assets) else (FlushRefused l used new_assets) in Ok tt
    | _, _ => Ok tt
    end.

Definition flush (s : LicenseState) (db : inventory) (new : list Z) : res limit_error inventory :=
  let! _ := before_flush s db (Z.of_nat (length new)) in Ok (db ++ new).

(** ** Sorting *)

Inductive sorted : list Z -> Prop :=
| sorted_nil : sorted []
| sorted_cons x l : (forall y, y ∈ l -> x < y) -> sorted l -> sorted (x :: l).

Lemma insert_id_elem x l y : y ∈ insert_id x l <-> y = x \/ y ∈ l.
Proof.
  induction l as [|z l IH]; simpl; [set_solver|]. destruct (x <=? z); set_solver.
Qed.

Lemma insert_id_length x l : length (insert_id x l) = S (length l).
Proof. induction l as [|z l IH]; simpl; [done|]. destruct (x <=? z); simpl; lia. Qed.

Lemma insert_id_sorted x l : x ∉ l -> sorted l -> sorted (insert_id x l).
Proof.
  intros Hx. induction 1 as [|z l Hz Hl IH]; simpl; [constructor; [set_solver|constructor]|].
  destruct (Z.leb_spec x z).
  - constructor; [|by constructor]. intros y [->|Hy]%elem_of_cons.
    + assert (x <> z) by set_solver. lia.
    + specialize (Hz y Hy). lia.
  - constructor; [|apply IH; set_solver]. intros y [->|Hy]%insert_id_elem; [lia|auto].
Qed.

Lemma order_by_id_elem db y : y ∈ order_by_id db <-> y ∈ db.
Proof.
  induction db as [|x db IH]; simpl; [done|]. rewrite insert_id_elem, elem_of_cons. by rewrite IH.
Qed.

Lemma order_by_id_sorted db : NoDup db -> sorted (order_by_id db).
Proof.
  induction 1 as [|x db Hx Hd IH]; simpl; [constructor|]. apply insert_id_sorted; [by rewrite order_by_id_elem|done].
Qed.

Lemma order_by_id_length db : length (order_by_id db) = length db.
Proof. induction db as [|x db IH]; simpl; [done|]. by rewrite insert_id_length, IH. Qed.

(** How many ids satisfy a test does not depend on the order. *)
Lemma filter_insert_id (p : Z -> bool) x l :
  length (List.filter p (insert_id x l)) = length (List.filter p (x :: l)).
Proof.
  induction l as [|z l IH]; simpl; [done|]. destruct (x <=? z); [done|]. simpl in *.
  destruct (p z), (p x); simpl in *; lia.
Qed.

Lemma filter_order_by_id (p : Z -> bool) db :
  length (List.filter p (order_by_id db)) = length (List.filter p db).
Proof.
  induction db as [|x db IH]; [done|]. cbn [order_by_id]. rewrite filter_insert_id. simpl.
  destruct (p x); simpl; lia.
Qed.

(** In a sorted list the ids up to [i] are the first ones. *)
Lemma sorted_below l i : (forall y, y ∈ l -> i < y) -> List.filter (fun j => j <=? i) l = [].
Proof.
  induction l as [|y l IH]; [done|]. intros H. simpl.
  rewrite (proj2 (Z.leb_gt _ _)); [apply IH|]; intros; apply H; set_solver.
Qed.

Lemma filter_member_pos i l : i ∈ l -> (1 <= length (List.filter (fun j => (j <=? i)%Z) l))%nat.
Proof.
  induction l as [|y l IH]; [set_solver|]. simpl. intros [->|H]%elem_of_cons.
  - rewrite (proj2 (Z.leb_le _ _)) by lia. simpl. lia.
  - destruct (y <=? i); simpl; [lia|auto].
Qed.

Lemma sorted_position l i k x :
  sorted l -> i ∈ l -> l !! k = Some x ->
  ((length (List.filter (fun j => (j <=? i)%Z) l) <= S k)%nat <-> i <= x).
Proof.
  intros Hs. revert k. induction Hs as [|z l Hz Hs IH]; intros k Hi Hk; [done|]. simpl.
  apply elem_of_cons in Hi as [->|Hi].
  - rewrite (proj2 (Z.leb_le _ _)), sorted_below by (lia || done). simpl. split; [|lia]. intros _.
    destruct k as [|k]; simplify_eq/=; [lia|]. apply list_elem_of_lookup_2 in Hk. specialize (Hz x Hk). lia.
  - pose proof (Hz i Hi). rewrite (proj2 (Z.leb_le _ _)) by lia. simpl.
    destruct k as [|k]; simplify_eq/=.
    + pose proof (filter_member_pos i l Hi). lia.
    + rewrite <- (IH k Hi Hk). lia.
Qed.

(** The licensed ids are the first [limit] ones, however many there are. *)
Lemma sorted_count l limit :
  sorted l ->
  length (List.filter (fun i => (length (List.filter (fun j => (j <=? i)%Z) l) <=? limit)%nat) l)
    = Nat.min limit (length l).
Proof.
  intros Hs. revert limit. induction Hs as [|z l Hz Hs IH]; intros limit; [simpl; lia|].
  cbn [List.filter]. rewrite (proj2 (Z.leb_le z z)), (sorted_below l z) by (lia || done). cbn [length].
  rewrite (List.filter_ext_in _ (fun i => match limit with
      | O => false
      | S n => (length (List.filter (fun j => (j <=? i)%Z) l) <=? n)%nat
      end) l).
  - destruct limit as [|n]; simpl; [by rewrite List.filter_false|]. by rewrite IH.
  - intros i Hi%list_elem_of_In. specialize (Hz i Hi).
    rewrite (proj2 (Z.leb_le z i)) by lia. by destruct limit.
Qed.

(** ** Correctness *)

(** Which ids the numbers of the license page declare covered. *)
Definition covered (u : usage_info) (id : Z) : bool :=
  match u_licensed_through_id u with Some t => id <=? t | None => true end.

Lemma position_sorted db id : _position db id = Z.of_nat (length (List.filter (fun j => j <=? id) (order_by_id db))).
Proof. unfold _position. by rewrite filter_order_by_id. Qed.

Lemma position_le_used db id : 0 <= _position db id <= count_assets db.
Proof. unfold _position, count_assets. pose proof (List.filter_length_le (fun i => i <=? id) db). lia. Qed.

Lemma position_positive db id : id ∈ db -> 1 <= _position db id.
Proof. intros Hi. unfold _position. pose proof (filter_member_pos id db Hi). lia. Qed.

(** The id [usage] announces is the last licensed one. *)
Lemma licensed_through s db id :
  NoDup db -> id ∈ db -> (forall l, max_assets s = Some l -> 0 <= l) -> (forall i, i ∈ db -> 0 < i) ->
  valid s = true ->
  is_asset_licensed s db (Some id) = covered (usage s db) id.
Proof.
  intros Hd Hi Hl Hpos Hv. unfold is_asset_licensed, covered, usage, entitlement. rewrite Hv. simpl.
  destruct (max_assets s) as [limit|]; simpl; [|done]. specialize (Hl limit eq_refl).
  pose proof (position_le_used db id). pose proof (position_positive db id Hi).
  destruct (Z.ltb_spec limit (count_assets db)) as [Ho|Ho]; [|apply Z.leb_le; lia].
  destruct (Z.ltb_spec 0 limit) as [Hlim|Hlim].
  - assert (Z.to_nat (limit - 1) < length (order_by_id db))%nat as Hlen
      by (rewrite order_by_id_length; unfold count_assets in Ho; lia).
    rewrite Z.max_l by lia.
    destruct (lookup_lt_is_Some_2 _ _ Hlen) as [x Hx]. rewrite Hx.
    pose proof (sorted_position (order_by_id db) id (Z.to_nat (limit - 1)) x
      (order_by_id_sorted db Hd) (proj2 (order_by_id_elem db id) Hi) Hx) as Hp.
    apply Bool.eq_true_iff_eq. rewrite !Z.leb_le, position_sorted. lia.
  - specialize (Hpos id Hi). transitivity false; [apply Z.leb_gt; lia|symmetry; apply Z.leb_gt; lia].
Qed.

(** ** Properties *)

(** Over the limit, exactly the first [limit] assets by id stay licensed, no matter which ids they have;
    within it every asset is. *)
Theorem licensed_count s db limit :
  NoDup db -> valid s = true -> max_assets s = Some limit -> 0 <= limit ->
  Z.of_nat (length (List.filter (fun i => is_asset_licensed s db (Some i)) db)) = Z.min limit (count_assets db).
Proof.
  intros Hd Hv Hm Hl. unfold is_asset_licensed, entitlement. rewrite Hv, Hm. simpl.
  rewrite <- filter_order_by_id.
  rewrite (List.filter_ext _ (fun i => (length (List.filter (fun j => (j <=? i)%Z) (order_by_id db)) <=? Z.to_nat limit)%nat)).
  - rewrite sorted_count by (by apply order_by_id_sorted). rewrite order_by_id_length. unfold count_assets. lia.
  - intros i. rewrite position_sorted. apply Bool.eq_true_iff_eq. rewrite Z.leb_le, Nat.leb_le. lia.
Qed.

Lemma licensed_count_witness :
  Z.of_nat (length (List.filter (fun i => is_asset_licensed (initial_state {{ valid := true; max_assets := Some 2 }})
    [7; 3; 12; 9] (Some i)) [7; 3; 12; 9])) = 2.
Proof.
  rewrite (licensed_count _ _ 2).
  - reflexivity.
  - apply (bool_decide_unpack _). vm_compute. exact I.
  - reflexivity.
  - reflexivity.
  - lia.
Defined.

(** The numbers the license page shows agree with what is enforced: an asset may be audited or hardened
    exactly when its id does not pass [licensed_through_id], and [require_licensed_asset]
    raises exactly for the others. *)
Theorem usage_agrees s db id :
  NoDup db -> id ∈ db -> (forall i, i ∈ db -> 0 < i) -> (forall l, max_assets s = Some l -> 0 <= l) ->
  valid s = true ->
  is_asset_licensed s db (Some id) = covered (usage s db) id /\
  (is_ok (require_licensed_asset s db (Some id)) = covered (usage s db) id).
Proof.
  intros Hd Hi Hpos Hl Hv. rewrite <- licensed_through by done. split; [done|].
  unfold require_licensed_asset, is_asset_licensed, entitlement. rewrite Hv. simpl.
  destruct (max_assets s) as [l|]; [|done]. destruct (Z.ltb_spec l (_position db id)); simpl; symmetry.
  - by apply Z.leb_gt.
  - by apply Z.leb_le.
Qed.

Lemma usage_agrees_witness :
  let s := initial_state {{ valid := true; max_assets := Some 2 }} in
  u_licensed_through_id (usage s [7; 3; 12; 9]) = Some 7 /\ is_asset_licensed s [7; 3; 12; 9] (Some 9) = false.
Proof.
  split; [vm_compute; reflexivity|].
  destruct (usage_agrees (initial_state {{ valid := true; max_assets := Some 2 }}) [7; 3; 12; 9] 9) as [-> _].
  - apply (bool_decide_unpack _). vm_compute. exact I.
  - apply (bool_decide_unpack _). vm_compute. exact I.
  - intros i Hi. repeat (apply elem_of_cons in Hi as [->|Hi]; [lia|]). by apply not_elem_of_nil in Hi.
  - intros l [= <-]. lia.
  - reflexivity.
  - vm_compute. reflexivity.
Defined.

(** The flush guard is the last line: no insertion under a valid license with a limit leaves the inventory
    above it, the checks of the callers agree with it, and what [remaining_capacity] lets a bulk
    add insert always passes it. *)
Theorem flush_within_limit s db new limit :
  valid s = true -> max_assets s = Some limit ->
  (forall db', flush s db new = Ok db' -> new <> [] -> count_assets db' <= limit) /\
  (is_ok (check_asset_capacity s db (Z.of_nat (length new))) = is_ok (flush s db new)) /\
  (forall room, remaining_capacity s db = Some room -> Z.of_nat (length new) <= room ->
     flush s db new = Ok (db ++ new)).
Proof.
  intros Hv Hm. unfold flush, before_flush, check_asset_capacity, remaining_capacity, entitlement. rewrite Hv, Hm.
  unfold res_bind, count_assets. simpl.
  destruct (Z.eqb_spec (Z.of_nat (length new)) 0) as [E|E].
  - assert (new = []) as -> by (destruct new; simpl in E; [done|lia]). split_and!; done.
  - rewrite (proj2 (Z.leb_gt _ _)) by lia.
    destruct (Z.ltb_spec limit (Z.of_nat (length db) + Z.of_nat (length new))) as [Hlt|Hle]; simpl; split_and!; try done.
    + intros room [= <-] Hr. lia.
    + intros db' [= <-] _. rewrite length_app. lia.
Qed.

Lemma flush_within_limit_witness :
  let s := initial_state {{ valid := true; max_assets := Some 2 }} in
  flush s [4] [5] = Ok [4; 5] /\ is_ok (flush s [4] [5; 6]) = false.
Proof.
  pose proof (flush_within_limit (initial_state {{ valid := true; max_assets := Some 2 }}) [4] [5] 2 eq_refl eq_refl) as (_ & _ & H).
  pose proof (flush_within_limit (initial_state {{ valid := true; max_assets := Some 2 }}) [4] [5; 6] 2 eq_refl eq_refl) as (_ & H' & _).
  cbv zeta. split; [apply (H 1); [reflexivity|vm_compute; discriminate]|]. rewrite <- H'. reflexivity.
Defined.
