(* ===== verification/Heartbeat.v ===== *)
(** * Heartbeat service and license middleware (src/app/core/heartbeat.py,
    src/app/middleware/license_middleware.py)

    One heartbeat and what it does to the license state, the retry delays, the
    worker thread with its two events as a transition system whose steps
    interleave with [stop], [beat_now] and [start], and the gate every API
    request passes. *)
From S2P Require Import Prelude PyStr Json LicenseToken LicenseState.

(** ** One heartbeat *)

(** [_run_once]: [beat] is what [client.heartbeat] gave, [answer] what
    [client.validate] gives afterwards.  The result is whether the license
    server answered. *)
Definition _run_once (cfg : config) (ok : bool) (now now' now'' : Z) (beat : res client_exc unit)
    (answer : res client_exc lic_answer) (w : world) : world * bool :=
  match beat with
  | Ok _ => (fst (refresh_license_state cfg ok now now' now'' answer w), true)
  | Raise (LicenseServerUnreachable e) => (mark_license_server_offline cfg ok now e w, false)
  | Raise (LicenseRejected d) => (mark_license_rejected cfg ok now now' d w, true)
  | Raise (LicenseNotActivated _) => (w, true)
  | Raise (OtherError _) => (w, false)
  end.

(** ** Delays *)

Record service : Type := Service {
  interval_seconds : Z;
  retry_seconds : Z;
  max_retry_seconds : Z;
  consecutive_failures : Z
}.

(** [_next_delay] *)
Definition _next_delay (succeeded : bool) (s : service) : service * Z :=
  if succeeded then (s {{ consecutive_failures := 0 }}, interval_seconds s)
  else
    let n := consecutive_failures s + 1 in
    let backoff := retry_seconds s * 2 ^ (n - 1) in
    (s {{ consecutive_failures := n }}, Z.min (Z.min backoff (max_retry_seconds s)) (interval_seconds s)).

(** The delays of a run of heartbeats. *)
Fixpoint delays (outcomes : list bool) (s : service) : service * list Z :=
  match outcomes with
  | [] => (s, [])
  | o :: os => let '(s1, d) := _next_delay o s in
               let '(s2, ds) := delays os s1 in (s2, d :: ds)
  end.

(** ** The worker thread *)

(** Where the thread of [_heartbeat_loop] is: before the loop test, before
    [_wake_event.clear()], in [_run_once], in [_wake_event.wait(delay)], or
    gone. *)
Inductive pc : Type := AtCheck | AtClear | Beating | Waiting | Dead.

#[export] Instance pc_eq_dec : EqDecision pc.
Proof. solve_decision. Defined.

Record loop_state : Type := Loop {
  thread : pc;
  stop_event : bool;
  wake_event : bool;
  running : bool;
  beats : Z          (** heartbeats begun *)
}.

(** The thread's own next step; [timed_out] lets [wait] return without the
    event.  [None]: it cannot move. *)
Definition thread_step (timed_out : bool) (s : loop_state) : option loop_state :=
  match thread s with
  | AtCheck => Some (if stop_event s then s {{ thread := Dead; running := false }} else s {{ thread := AtClear }})
  | AtClear => Some (s {{ thread := Beating; wake_event := false; beats := beats s + 1 }})
  | Beating => Some (s {{ thread := Waiting }})
  | Waiting => if wake_event s || timed_out then Some (s {{ thread := AtCheck }}) else None
  | Dead => None
  end.

(** [start] when no thread is running, [beat_now], and [stop] in its two
    writes ([_stop_event.set()], then [_wake_event.set()]). *)
Definition start (s : loop_state) : loop_state :=
  if running s && negb (bool_decide (thread s = Dead)) then s
  else {| thread := AtCheck; stop_event := false; wake_event := false; running := true; beats := beats s |}.
Definition beat_now (s : loop_state) : loop_state := s {{ wake_event := true }}.
Definition stop_first (s : loop_state) : loop_state := s {{ running := false; stop_event := true }}.
Definition stop_second (s : loop_state) : loop_state := s {{ wake_event := true }}.
Definition stop (s : loop_state) : loop_state := stop_second (stop_first s).

(** [n] steps of the thread alone, never waiting for a timeout. *)
Fixpoint run_thread (n : nat) (s : loop_state) : loop_state :=
  match n with
  | O => s
  | S n => match thread_step false s with Some s' => run_thread n s' | None => s end
  end.

(** ** The license middleware *)

Inductive response : Type :=
| Proceed                          (** [call_next] *)
| Unavailable (reason : message)   (** 503, the license server cannot be reached *)
| Forbidden (reason : message).    (** 403, a license is required *)

Definition PASSTHROUGH_PATHS : list pystr :=
  [py "/auth/login"; py "/health"; py "/"; py "/api/license/activate"; py "/api/license/status";
   py "/api/license/offline/request"; py "/api/license/offline/install"].

Definition gated (path : pystr) : bool :=
  negb (existsb (fun p => bool_decide (p = path)) PASSTHROUGH_PATHS) && is_prefix (py "/api/") path.

(** [dispatch]: [sync] is the effect of [sync_with_storage()]. *)
Definition dispatch (sync : world -> world) (now : Z) (path : pystr) (w : world) : response * world :=
  if negb (gated path) then (Proceed, w)
  else
    let '(s, w') := get_license_state now (sync w) in
    if negb (valid s) then (if offline s then Unavailable (msg s) else Forbidden (msg s), w')
    else (Proceed, w').

(** ** Lemmas *)

Lemma next_delay_failure s :
  let '(s', d) := _next_delay false s in
  consecutive_failures s' = consecutive_failures s + 1 /\ interval_seconds s' = interval_seconds s /\
  retry_seconds s' = retry_seconds s /\ max_retry_seconds s' = max_retry_seconds s /\
  d = Z.min (Z.min (retry_seconds s * 2 ^ consecutive_failures s) (max_retry_seconds s)) (interval_seconds s).
Proof.
  unfold _next_delay. destruct s as [i r m f]. simpl. split_and!; try done. do 4 f_equal. lia.
Qed.

(** The delay after the [k]-th failure in a row. *)
Definition backoff (s : service) (k : Z) : Z :=
  Z.min (Z.min (retry_seconds s * 2 ^ k) (max_retry_seconds s)) (interval_seconds s).

Lemma delays_failures n s :
  0 <= consecutive_failures s ->
  snd (delays (replicate n false) s) =
    map (fun k => backoff s (consecutive_failures s + Z.of_nat k)) (List.seq 0 n).
Proof.
  revert s. induction n as [|n IH]; intros s Hf; [done|]. cbn [replicate delays].
  pose proof (next_delay_failure s) as Hd. destruct (_next_delay false s) as [s1 d].
  destruct Hd as (H1 & H2 & H3 & H4 & ->). specialize (IH s1 ltac:(lia)).
  destruct (delays (replicate n false) s1) as [s2 ds]. simpl in IH |- *. rewrite IH. f_equal.
  - unfold backoff. by rewrite Z.add_0_r.
  - rewrite <- List.seq_shift, List.map_map. apply List.map_ext. intros k. unfold backoff.
    rewrite H1, H2, H3, H4. do 4 f_equal. lia.
Qed.

Lemma backoff_bounds s k :
  0 < retry_seconds s -> 0 < max_retry_seconds s -> 0 < interval_seconds s -> 0 <= k ->
  0 < backoff s k <= interval_seconds s /\ backoff s k <= max_retry_seconds s /\
  backoff s k <= backoff s (k + 1).
Proof.
  intros Hr Hm Hi Hk. unfold backoff. rewrite Z.pow_add_r by lia. change (2 ^ 1) with 2.
  assert (0 < 2 ^ k) by (apply Z.pow_pos_nonneg; lia). assert (0 < retry_seconds s * 2 ^ k) by nia. nia.
Qed.

(** ** Properties *)

(** What one heartbeat does to the license: an unreachable server never changes the license, a rejection
    invalidates it at once, an answer leads to a full validation, and the thread's worker sees
    every exception as a plain "answered" or "did not answer". *)
Theorem run_once_outcomes cfg ok now now' now'' beat answer w :
  let '(w', answered) := _run_once cfg ok now now' now'' beat answer w in
  match beat with
  | Ok _ => w' = fst (refresh_license_state cfg ok now now' now'' answer w) /\ answered = true
  | Raise (LicenseServerUnreachable e) =>
      same_license (st w') (st w) /\ offline (st w') = true /\ signed_token w' = signed_token w /\ answered = false
  | Raise (LicenseRejected d) => valid (st w') = false /\ signed_token w' = None /\ answered = true
  | Raise (LicenseNotActivated _) => w' = w /\ answered = true
  | Raise (OtherError _) => w' = w /\ answered = false
  end.
Proof.
  unfold _run_once. destruct beat as [u|[d|e|e|e]]; try done.
  - unfold mark_license_rejected. rewrite persist_st, persist_token. by destruct w as [s ? ? ? ? ? ?], s.
  - unfold mark_license_server_offline. rewrite persist_st, persist_token.
    destruct w as [s ? ? ? ? ? ?], s. by split_and!.
Qed.

(** Retries back off exponentially: after a success the next heartbeat waits the normal interval, and the
    delays of any run of failures double from the first one, are positive, never decrease and
    never pass the ceiling or the interval. *)
Theorem retry_backoff s n :
  0 < retry_seconds s -> 0 < max_retry_seconds s -> 0 < interval_seconds s ->
  let '(s0, d0) := _next_delay true s in
  d0 = interval_seconds s /\
  snd (delays (replicate n false) s0) = map (fun k => backoff s (Z.of_nat k)) (List.seq 0 n) /\
  forall k, 0 <= k -> 0 < backoff s k <= interval_seconds s /\ backoff s k <= max_retry_seconds s /\
                      backoff s k <= backoff s (k + 1).
Proof.
  intros Hr Hm Hi. destruct s as [i r m f]. simpl in *. split_and!; [done| |].
  - rewrite delays_failures by done. done.
  - intros k Hk. by apply backoff_bounds.
Qed.

Lemma retry_backoff_witness :
  snd (delays (replicate 5 false) (fst (_next_delay true (Service 3600 60 600 7)))) = [60; 120; 240; 480; 600].
Proof.
  pose proof (retry_backoff (Service 3600 60 600 7) 5 ltac:(reflexivity) ltac:(reflexivity) ltac:(reflexivity)) as H.
  cbn [_next_delay] in H. destruct H as (_ & H & _). exact H.
Defined.

(** A requested heartbeat is sent: wherever the thread is (not stopped), after [beat_now] it begins another
    heartbeat within five of its own steps, without waiting out the delay. *)
Theorem beat_now_served s :
  thread s <> Dead -> stop_event s = false ->
  exists n, (n <= 5)%nat /\ beats (run_thread n (beat_now s)) = beats s + 1 /\
            thread (run_thread n (beat_now s)) = Beating.
Proof.
  intros Hd Hs. destruct s as [p st wk rn b]. simpl in *. subst st. destruct p; try done.
  - exists 2%nat. by split_and!; [lia|..].
  - exists 1%nat. by split_and!; [lia|..].
  - exists 4%nat. by split_and!; [lia|..].
  - exists 3%nat. by split_and!; [lia|..].
Qed.

Lemma beat_now_served_witness :
  exists n, (n <= 5)%nat /\ beats (run_thread n (beat_now (Loop Waiting false false true 4))) = 5.
Proof.
  destruct (beat_now_served (Loop Waiting false false true 4)) as (n & H1 & H2 & _); [discriminate|reflexivity|].
  exists n. split; [exact H1|exact H2].
Defined.

(** Shutdown is immediate exactly when [stop] does not fall between the loop test and the clearing of the wake
    event: everywhere else the thread ends within its current heartbeat; in that window the wake
    is lost and, after one more heartbeat, the thread sits in a wait that only the whole delay
    ends. *)
Theorem stop_prompt_iff s :
  thread s <> Dead ->
  (exists n, thread (run_thread n (stop s)) = Dead) <-> thread s <> AtClear.
Proof.
  intros Hd. destruct s as [p sv wk rn b]. simpl in *. split.
  - intros [n Hn] ->. simpl in Hn. unfold stop, stop_first, stop_second in Hn. simpl in Hn.
    destruct n as [|[|[|n]]]; simpl in Hn; done.
  - intros Hc. destruct p; try done; [exists 1%nat|exists 3%nat|exists 2%nat]; done.
Qed.

Lemma stop_prompt_iff_witness :
  ~ (exists n, thread (run_thread n (stop (Loop AtClear false false true 0))) = Dead).
Proof.
  intros H. apply (stop_prompt_iff (Loop AtClear false false true 0)) in H; [|discriminate].
  apply H. reflexivity.
Defined.

(** An API request outside the listed paths reaches its handler exactly when the license, read after the sync
    with the storage, is valid; otherwise the answer is 503 while the license server is
    unreachable and 403 when it is not, with the state's own reason. *)
Theorem dispatch_gate sync now path w :
  let '(r, w') := dispatch sync now path w in
  if gated path then
    let s := fst (get_license_state now (sync w)) in
    (r = Proceed <-> usable now (sync w)) /\
    (~ usable now (sync w) -> r = if offline s then Unavailable (msg s) else Forbidden (msg s)) /\
    max_seen w' = max_time (max_seen (sync w)) (Some now)
  else r = Proceed /\ w' = w.
Proof.
  unfold dispatch. destruct (gated path); simpl; [|done].
  pose proof (get_valid now (sync w)) as Hv. unfold get_license_state in *. simpl in *.
  destruct (valid (offline_rules now _ _)); simpl; rewrite seen_now_max; split_and!; try done.
  - split; [intros _; by apply Hv|done].
  - intros Hn. by destruct Hn; apply Hv.
  - split; [by destruct (offline _)|]. intros Hu. apply Hv in Hu. done.
Qed.
