(* ===== verification/LicenseClient.v ===== *)
(** * The license client (src/app/core/license_client.py)

    Activation, validation, heartbeat and the offline license file, with the
    classification of failures every caller depends on.  The HTTP transport
    ([requests]) is an argument: what comes back for a request.  The encrypted
    storage is modelled by its content.  The request headers (an HMAC over the
    data) and the retry policy inside the transport are not modelled. *)
From S2P Require Import Prelude PyStr Json Base64 LicenseToken LicenseState Heartbeat.

(** ** Data *)

(** What [save_license] stores. *)
Record stored : Type := Stored {
  s_license_key : pystr;
  s_organization_token : json;
  s_vm_fingerprint : pystr;
  s_offline_mode : bool;           (** mode == "offline" *)
  s_offline_token : json;
  s_plan_type : json;
  s_activated_at : Z
}.

(** A request, without its headers. *)
Record request : Type := Request {
  r_path : pystr;
  r_license_key : pystr;
  r_organization_token : json;
  r_vm_fingerprint : pystr;
  r_nonce : pystr;
  r_asset_count : option Z
}.

(** [response]: status, [response.json()] ([None] when it raises), [response.text]. *)
Record http_response : Type := Response {
  status_code : Z;
  body_json : option json;
  text : pystr
}.
(** [None] is a [RequestException]. *)
Definition transport := request -> option http_response.

(** The exceptions of the client; the comments give the class hierarchy. *)
Inductive client_error : Type :=
| EUnreachable                          (** LicenseServerUnreachable *)
| EServerError (status : Z)             (** LicenseServerError, a LicenseServerUnreachable *)
| EHttp (response : http_response)      (** requests.HTTPError: a 4xx *)
| ERejected (detail : pystr) (status : option Z)  (** LicenseRejected *)
| EUntrusted (why : token_error)        (** LicenseAnswerUntrusted, a LicenseRejected *)
| EUntrustedText (why : pystr)          (** the same, with another text *)
| ENotActivated.                        (** LicenseNotActivated *)

(** Which [except] clause of license_state and heartbeat takes an exception. *)
Definition classify (e : client_error) : client_exc :=
  match e with
  | EUnreachable => LicenseServerUnreachable (py "unreachable")
  | EServerError _ => LicenseServerUnreachable (py "server error")
  | EHttp _ => OtherError (py "http error")
  | ERejected d _ => LicenseRejected d
  | EUntrusted _ => LicenseRejected (py "untrusted answer")
  | EUntrustedText d => LicenseRejected d
  | ENotActivated => LicenseNotActivated (py "not activated")
  end.

Definition SERVER_SIDE_ERROR_STATUSES : list Z := [429; 500; 502; 503; 504].
Definition OFFLINE_REQUEST_HEADER : pystr := py "NGCORION-OFFLINE-REQUEST-1".
Definition OFFLINE_LICENSE_HEADER : pystr := py "NGCORION-OFFLINE-LICENSE-1".
Definition MAX_OFFLINE_FILE_BYTES : Z := 16384.

(** ** Requests *)

(** [_request]: the transport's answer, classified; [raise_for_status] raises
    for 400 and above. *)
Definition _request (http : transport) (r : request) : res client_error http_response :=
  match http r with
  | None => Raise EUnreachable
  | Some resp =>
      let s := status_code resp in
      if bool_decide (s ∈ SERVER_SIDE_ERROR_STATUSES) || (500 <=? s) then Raise (EServerError s)
      else if 400 <=? s then Raise (EHttp resp)
      else Ok resp
  end.

(** [_json] *)
Definition _json (resp : http_response) : res client_error (list (pystr * json)) :=
  match body_json resp with
  | Some (JObj o) => Ok o
  | _ => Raise (EServerError (status_code resp))
  end.

Section Client.
Context {pubkey : Type} `{TokenLib pubkey}.
Variable machine_fingerprint : pystr.
Variable http : transport.

(** [_error_detail] (the response of an HTTPError is never None here). *)
Definition _error_detail (resp : http_response) (fallback : pystr) : pystr :=
  let from_text :=
    match strip (text resp) with [] => fallback | body => take 200 body end in
  match body_json resp with
  | Some (JObj o) => if truthy (get o (py "detail")) then py_str (get o (py "detail")) else from_text
  | _ => from_text
  end.

(** [_verified] *)
Definition _verified (payload : list (pystr * json)) (license_key typ nonce : pystr)
    : res client_error (claims * pystr) :=
  match verify_token TRUSTED_LICENSE_KEYS (get payload (py "signed_token")) license_key
          machine_fingerprint (Some typ) (Some nonce) with
  | Ok o => Ok (o, py_str (get payload (py "signed_token")))
  | Raise e => Raise (EUntrusted e)
  end.

(** [activate]: the state of the verified answer, and the storage after. *)
Definition activate (license_key nonce : pystr) (now : Z) (storage : option stored)
    : option stored * res client_error lic_answer :=
  let r := {| r_path := py "/api/licenses/activate"; r_license_key := license_key;
              r_organization_token := JNull; r_vm_fingerprint := machine_fingerprint;
              r_nonce := nonce; r_asset_count := None |} in
  let attempt :=
    let! response := _request http r in
    let! result := _json response in
    let! ct := _verified result license_key (py "activate") nonce in
    let '(o, token) := ct in
    check truthy (get o (py "valid")) else (EUntrustedText (py "the activation answer does not confirm the license")) in
    let org := get result (py "organization_token") in
    check truthy org else (EServerError (status_code response)) in
    Ok (Stored license_key org machine_fingerprint false JNull (get o (py "plan")) now,
        claims_to_state o token) in
  match attempt with
  | Ok (data, a) => (Some data, Ok a)
  | Raise e => (storage, Raise e)
  end.

(** [_bound_license_data] *)
Definition _bound_license_data (nonce : pystr) (now : Z) (storage : option stored)
    : option stored * res client_error stored :=
  match storage with
  | None => (storage, Raise ENotActivated)
  | Some d =>
      if bool_decide (s_vm_fingerprint d = machine_fingerprint) then (storage, Ok d)
      else if s_offline_mode d
      then (storage, Raise (ERejected (py "The offline license file was issued for another machine") None))
      else
        match activate (s_license_key d) nonce now storage with
        | (st', Ok _) => match st' with Some d' => (st', Ok d') | None => (st', Raise ENotActivated) end
        | (st', Raise (EHttp resp)) =>
            (st', Raise (ERejected (_error_detail resp (py "The license could not be moved to this machine"))
                           (Some (status_code resp))))
        | (st', Raise e) => (st', Raise e)
        end
  end.

(** [_offline_state] *)
Definition _offline_state (token : json) (license_key : pystr) : res client_error lic_answer :=
  match verify_token TRUSTED_LICENSE_KEYS token license_key machine_fingerprint (Some (py "offline")) None with
  | Raise e => Raise (EUntrusted e)
  | Ok o =>
      check truthy (get o (py "valid")) && is_int (get o (py "offline_until"))
        else (EUntrustedText (py "the license file does not grant a license")) in
      Ok (claims_to_state o (py_str token))
  end.

(** [validate] *)
Definition validate (nonce nonce' : pystr) (now : Z) (storage : option stored)
    : option stored * res client_error lic_answer :=
  let '(st', bound) := _bound_license_data nonce now storage in
  (st',
   let! d := bound in
   if s_offline_mode d then _offline_state (s_offline_token d) (s_license_key d)
   else
     let! response := _request http {| r_path := py "/api/licenses/validate"; r_license_key := s_license_key d;
          r_organization_token := s_organization_token d; r_vm_fingerprint := s_vm_fingerprint d;
          r_nonce := nonce'; r_asset_count := None |} in
     let! payload := _json response in
     let! ct := _verified payload (s_license_key d) (py "validate") nonce' in
     Ok (claims_to_state (fst ct) (snd ct))).

(** [heartbeat] *)
Definition heartbeat (asset_count : option Z) (nonce nonce' : pystr) (now : Z) (storage : option stored)
    : option stored * res client_error lic_answer :=
  let '(st', bound) := _bound_license_data nonce now storage in
  (st',
   let! d := bound in
   if s_offline_mode d then _offline_state (s_offline_token d) (s_license_key d)
   else
     let r := {| r_path := py "/api/licenses/heartbeat"; r_license_key := s_license_key d;
          r_organization_token := s_organization_token d; r_vm_fingerprint := s_vm_fingerprint d;
          r_nonce := nonce'; r_asset_count := asset_count |} in
     let! response :=
       match _request http r with
       | Raise (EHttp resp) =>
           if status_code resp =? 400
           then Raise (ERejected (_error_detail resp (py "License rejected by the license server")) (Some 400))
           else Raise (EHttp resp)
       | x => x
       end in
     let! payload := _json response in
     let! ct := _verified payload (s_license_key d) (py "heartbeat") nonce' in
     Ok (claims_to_state (fst ct) (snd ct))).

(** [verify_cached_token]; [None] is any exception. *)
Definition verify_cached_token (storage : option stored) (token : pystr) : option lic_answer :=
  match storage with
  | None => None
  | Some d =>
      match verify_token TRUSTED_LICENSE_KEYS (JStr token) (s_license_key d) machine_fingerprint None None with
      | Ok o => Some (claims_to_state o token)
      | Raise _ => None
      end
  end.

(** [is_offline] *)
Definition is_offline (storage : option stored) : bool :=
  match storage with Some d => s_offline_mode d | None => false end.

(** ** Offline license files *)

(** The non-empty lines, stripped. *)
Definition filled_lines (s : pystr) : list pystr :=
  List.filter (fun l => negb (bool_decide (l = []))) (map strip (splitlines (strip s))).

(** [_offline_token] *)
Definition _offline_token (t : pystr) : res client_error pystr :=
  if bool_decide (t = []) || (MAX_OFFLINE_FILE_BYTES <? Z.of_nat (length t))
  then Raise (EUntrustedText (py "this is not an NGCorion offline license file"))
  else
    match filled_lines t with
    | [header; token] =>
        if bool_decide (header = OFFLINE_LICENSE_HEADER) then Ok token
        else if bool_decide (header = OFFLINE_REQUEST_HEADER)
        then Raise (EUntrustedText (py "this is the request file"))
        else Raise (EUntrustedText (py "this is not an NGCorion offline license file"))
    | header :: _ =>
        if bool_decide (header = OFFLINE_REQUEST_HEADER)
        then Raise (EUntrustedText (py "this is the request file"))
        else Raise (EUntrustedText (py "this is not an NGCorion offline license file"))
    | [] => Raise (EUntrustedText (py "this is not an NGCorion offline license file"))
    end.

(** The license key the unverified file names. *)
Definition named_license (token : pystr) : option pystr :=
  match split_on "."%char token with
  | body :: _ =>
      match _b64decode body with
      | Some payload =>
          match json_loads payload with
          | Some (JObj o) => match get o (py "lic") with JStr k => Some k | _ => None end
          | _ => None
          end
      | None => None
      end
  | [] => None
  end.

(** [install_offline_license]; [now] is [time.time()] in microseconds. *)
Definition install_offline_license (t : pystr) (now : Z) (storage : option stored)
    : option stored * res client_error lic_answer :=
  let attempt :=
    let! token := _offline_token t in
    match named_license token with
    | None => Raise (EUntrustedText (py "the license file is damaged"))
    | Some license_key =>
        let! a := _offline_state (JStr token) license_key in
        match to_int (la_offline_until a) with
        | Ok until =>
            check negb (until * second <=? now) else (EUntrustedText (py "this license file has already ended")) in
            Ok (Stored license_key JNull machine_fingerprint true (JStr token) (la_plan_code a) now, a)
        | Raise _ => Raise (EUntrustedText (py "the license file does not grant a license"))
        end
    end in
  match attempt with
  | Ok (data, a) => (Some data, Ok a)
  | Raise e => (storage, Raise e)
  end.
End Client.

(** ** Every answer is a trusted token *)

(** The end of a client call, as the state layer's [except] clauses see it. *)
Definition outcome {A} (r : res client_error A) : res client_exc A :=
  match r with Ok a => Ok a | Raise e => Raise (classify e) end.

Section Genuine.
Context {pubkey : Type} `{TokenLib pubkey}.
Variable fp : pystr.

(** A state that describes a token signed by a built-in key, for this machine. *)
Definition genuine (a : lic_answer) : Prop :=
  exists t lic typ nonce o, trusted TRUSTED_LICENSE_KEYS t lic fp typ nonce o /\ a = claims_to_state o t.

Lemma verified_genuine payload key typ nonce o t :
  _verified fp payload key typ nonce = Ok (o, t) ->
  trusted TRUSTED_LICENSE_KEYS t key fp (Some typ) (Some nonce) o.
Proof.
  unfold _verified. destruct (verify_token _ _ _ _ _ _) as [o'|] eqn:E; [|done].
  apply verify_token_str in E as (s & -> & Ht). by intros [= <- <-].
Qed.

Lemma offline_state_genuine tok key a :
  _offline_state fp tok key = Ok a ->
  exists t o, tok = JStr t /\ trusted TRUSTED_LICENSE_KEYS t key fp (Some (py "offline")) None o /\
              a = claims_to_state o t /\ truthy (get o (py "valid")) = true /\
              is_int (get o (py "offline_until")) = true.
Proof.
  unfold _offline_state. destruct (verify_token _ _ _ _ _ _) as [o|] eqn:E; [|done].
  apply verify_token_str in E as (s & -> & Ht). case_match eqn:Hb; [|done]. apply andb_prop in Hb as [Hv Hi].
  intros [= <-]. by exists s, o.
Qed.

(** An online answer: what the request carried, and what came back for it. *)
Lemma online_genuine http r key typ nonce a :
  (let! response := _request http r in
   let! payload := _json response in
   let! ct := _verified fp payload key typ nonce in
   Ok (claims_to_state (fst ct) (snd ct))) = Ok a ->
  exists t o, trusted TRUSTED_LICENSE_KEYS t key fp (Some typ) (Some nonce) o /\ a = claims_to_state o t.
Proof.
  destruct (_request http r) as [resp|]; [|done]. simpl.
  destruct (_json resp) as [payload|]; [|done]. simpl.
  destruct (_verified fp payload key typ nonce) as [[o t]|] eqn:E; [|done]. intros [= <-].
  apply verified_genuine in E. eauto.
Qed.

Lemma activate_spec http key nonce now storage :
  match activate fp http key nonce now storage with
  | (st', Ok a) =>
      exists t o org, trusted TRUSTED_LICENSE_KEYS t key fp (Some (py "activate")) (Some nonce) o /\
        a = claims_to_state o t /\ truthy (get o (py "valid")) = true /\ truthy org = true /\
        st' = Some (Stored key org fp false JNull (get o (py "plan")) now)
  | (st', Raise _) => st' = storage
  end.
Proof.
  unfold activate. destruct (_request http _) as [resp|]; [|done]. simpl.
  destruct (_json resp) as [payload|]; [|done]. simpl.
  destruct (_verified fp payload key _ nonce) as [[o t]|] eqn:E; [|done]. simpl.
  destruct (truthy (get o (py "valid"))) eqn:Ev; simpl; [|done].
  destruct (truthy (get payload (py "organization_token"))) eqn:Eo; simpl; [|done].
  apply verified_genuine in E. eauto 10.
Qed.

Lemma validate_genuine http n n' now storage : answer_genuine genuine (outcome (snd (validate fp http n n' now storage))).
Proof.
  intros a. unfold validate. destruct (_bound_license_data fp http n now storage) as [st' [d|e]]; simpl; [|done].
  destruct (s_offline_mode d).
  - destruct (_offline_state fp _ _) as [a'|] eqn:E; simpl; [|done]. intros [= <-].
    apply offline_state_genuine in E as (t & o & _ & Ht & -> & _). unfold genuine. eauto 10.
  - destruct (res_bind _ _) as [a'|] eqn:E; simpl; [|done]. intros [= <-].
    apply online_genuine in E as (t & o & Ht & ->). unfold genuine. eauto 10.
Qed.

Lemma verify_cached_genuine storage t a : verify_cached_token fp storage t = Some a -> genuine a.
Proof.
  unfold verify_cached_token. destruct storage as [d|]; [|done].
  destruct (verify_token _ _ _ _ _ _) as [o|] eqn:E; [|done]. intros [= <-].
  apply verify_token_str in E as (s & [= <-] & Ht). unfold genuine. eauto 10.
Qed.

(** ** The whole of one worker process *)

Record system : Type := System { proc : world; lic_file : option stored }.

(** How the application wires the modules: the cache's verifier reads the
    license file of the moment. *)
Definition wired (attached enabled : bool) (f : option stored) : config :=
  {| store_attached := attached; cache_enabled := enabled;
     verifier := Some (verify_cached_token fp f); client_attached := true |}.

(** One call into the licensing code, with whatever the network answers, the
    clocks read and the files hold. *)
Inductive system_step (s : system) : system -> Prop :=
| sys_get now : system_step s {| proc := snd (get_license_state now (proc s)); lic_file := lic_file s |}
| sys_activate http key nonce now :
    system_step s {| proc := proc s; lic_file := fst (activate fp http key nonce now (lic_file s)) |}
| sys_install text now :
    system_step s {| proc := proc s; lic_file := fst (install_offline_license fp text now (lic_file s)) |}
| sys_refresh at_ en http n n' t ok now now' now'' f r :
    validate fp http n n' t (lic_file s) = (f, r) ->
    system_step s {| proc := fst (refresh_license_state (wired at_ en f) ok now now' now'' (outcome r) (proc s));
                     lic_file := f |}
| sys_heartbeat at_ en http count n1 n2 n3 n4 t ok now now' now'' f b f' r :
    heartbeat fp http count n1 n2 t (lic_file s) = (f, b) ->
    validate fp http n3 n4 t f = (f', r) ->
    system_step s
      {| proc := fst (_run_once (wired at_ en f) ok now now' now''
                        (match b with Ok _ => Ok tt | Raise e => Raise (classify e) end) (outcome r) (proc s));
         lic_file := if is_ok b then f' else f |}
| sys_restore at_ en now :
    system_step s {| proc := fst (restore_cached_state (wired at_ en (lic_file s)) now (proc s)); lic_file := lic_file s |}
| sys_sync at_ en http n n' t free mono ls ss ok now now' now'' f r :
    validate fp http n n' t (lic_file s) = (f, r) ->
    system_step s
      {| proc := sync_with_storage (wired at_ en (lic_file s)) free mono ls ss (is_offline (lic_file s)) ok now now' now''
                   (outcome r) (proc s);
         lic_file := lic_file s |}
| sys_restart : system_step s {| proc := restart (proc s); lic_file := lic_file s |}
(** both files are on a disk the operator controls *)
| sys_files d f : system_step s {| proc := (proc s) {{ disk := d }}; lic_file := f |}.

Lemma wired_sound at_ en f : sound genuine (wired at_ en f).
Proof. intros verify tok a [= <-]. apply verify_cached_genuine. Qed.

(** Every step of the system is made of steps of the license state. *)
Lemma system_step_simulated s s' : system_step s s' -> rtc (step genuine) (proc s) (proc s').
Proof.
  assert (forall w w', step genuine w w' -> rtc (step genuine) w w') as Hone by (intros; by apply rtc_once).
  destruct 1 as [now|http key nonce now|text now|at_ en http n n' t ok now now' now'' f r Ev
                |at_ en http count n1 n2 n3 n4 t ok now now' now'' f b f' r Eb Ev|at_ en now
                |at_ en http n n' t free mono ls ss ok now now' now'' f r Ev| |d f]; simpl.
  - apply Hone, step_get.
  - apply rtc_refl.
  - apply rtc_refl.
  - pose proof (validate_genuine http n n' t (lic_file s)) as Hg. rewrite Ev in Hg.
    by apply Hone, step_refresh.
  - pose proof (validate_genuine http n3 n4 t f) as Hg. rewrite Ev in Hg. unfold _run_once.
    destruct b as [u|e]; [by apply Hone, step_refresh|]. destruct (classify e); simpl.
    + apply Hone, step_rejected.
    + apply Hone, step_offline.
    + apply rtc_refl.
    + apply rtc_refl.
  - apply Hone, step_restore, wired_sound.
  - pose proof (validate_genuine http n n' t (lic_file s)) as Hg. rewrite Ev in Hg.
    by apply Hone, step_sync; [apply wired_sound|].
  - apply Hone, step_restart.
  - apply Hone, step_disk.
Qed.

Lemma system_reachable d f s :
  rtc system_step {| proc := restart {| st := initial_state; signed_token := None; max_seen := None;
      seen_license_stamp := None; seen_state_stamp := None; last_sync := None; disk := d |}; lic_file := f |} s ->
  reachable genuine (proc s).
Proof.
  assert (forall w w', rtc (step genuine) w w' -> reachable genuine w -> reachable genuine w') as Hr.
  { induction 1 as [|w w1 w' Hs _ IH]; [done|]. intros Hw. apply IH. by eapply reach_step. }
  intros Hs. remember {| proc := _; lic_file := f |} as s0 eqn:E0.
  assert (reachable genuine (proc s0)) as H0 by (subst s0; apply reach_init). clear E0.
  induction Hs as [|s0 s1 s Hs _ IH]; [done|]. apply IH. by eapply Hr, H0; apply system_step_simulated.
Qed.
End Genuine.

(** ** Properties *)

(** C38: end to end: from start-up with any files on disk, after any sequence of activations, offline installs,
    validations, heartbeats, cache restores, worker syncs, restarts and edits of the two files,
    against any network, a license that reads as valid was signed by a key built into the code,
    for this machine's fingerprint, as a valid license, and has that answer's plan. *)
Theorem valid_license_is_signed {pubkey} `{TokenLib pubkey} fp d f s now :
  rtc (system_step fp) {| proc := restart {| st := initial_state; signed_token := None; max_seen := None;
      seen_license_stamp := None; seen_state_stamp := None; last_sync := None; disk := d |}; lic_file := f |} s ->
  valid (fst (get_license_state now (proc s))) = true ->
  exists t lic typ nonce o,
    trusted TRUSTED_LICENSE_KEYS t lic fp typ nonce o /\ truthy (get o (py "valid")) = true /\
    plan_code (st (proc s)) = get o (py "plan") /\
    (representable (claims_to_state o t) = true ->
       max_assets (st (proc s)) = granted_assets (claims_to_state o t) /\
       expires_at (st (proc s)) = _utc_from_epoch (get o (py "exp"))).
Proof.
  intros Hs [Hv _]%get_valid. apply system_reachable in Hs.
  destruct (backed_reachable (genuine fp) _ Hs Hv) as (a & (t & lic & typ & n & o & Ht & ->) & Ha & Hp & Hd).
  exists t, lic, typ, n, o. split_and!; [done|done|done|]. intros Hr. by destruct (Hd Hr).
Qed.

Module ToyClient.
Definition file : stored := Stored Toy.lic (JStr (py "org")) (py "fp1") false JNull JNull 0.
Definition server (r : request) : option http_response :=
  Some (Response 200 (Some (JObj [(py "signed_token", JStr Toy.token)])) []).
Definition start : system := {| proc := Demo.fresh; lic_file := Some file |}.
Definition cfg : config := wired (H := Toy.lib) (py "fp1") true true (Some file).
Definition after : system :=
  {| proc := fst (refresh_license_state cfg true Demo.t0 Demo.t0 Demo.t0
       (outcome (snd (validate (H := Toy.lib) (py "fp1") server (py "n0") (py "n1") 0 (Some file)))) Demo.fresh);
     lic_file := Some file |}.
End ToyClient.

Lemma valid_license_is_signed_witness :
  exists t lic typ nonce o,
    trusted (H := Toy.lib) TRUSTED_LICENSE_KEYS t lic (py "fp1") typ nonce o /\ truthy (get o (py "valid")) = true.
Proof.
  destruct (@valid_license_is_signed unit Toy.lib (py "fp1") None (Some ToyClient.file) ToyClient.after Demo.t0)
    as (t & lic & typ & n & o & Ht & Hv & _).
  - eapply rtc_l; [|apply rtc_refl].
    apply (@sys_refresh unit Toy.lib (py "fp1") ToyClient.start true true ToyClient.server (py "n0") (py "n1") 0 true
             Demo.t0 Demo.t0 Demo.t0 (Some ToyClient.file)
             (snd (validate (H := Toy.lib) (py "fp1") ToyClient.server (py "n0") (py "n1") 0 (Some ToyClient.file)))).
    vm_compute. reflexivity.
  - vm_compute. reflexivity.
  - exists t, lic, typ, n, o. split; [exact Ht|exact Hv].
Defined.

(** How a validation of an activated, online license ends is decided by the server's reply alone: no reply, a 5xx, a
    429 or a reply that is not a JSON object is an outage, which never invalidates the license; any
    other 4xx is an error answer; and everything else is a license only when its token verifies
    for this license, machine and request, and a rejection otherwise. *)
Theorem validate_classification {pubkey} `{TokenLib pubkey} fp http n n' now d :
  s_vm_fingerprint d = fp -> s_offline_mode d = false ->
  let r := {| r_path := py "/api/licenses/validate"; r_license_key := s_license_key d;
              r_organization_token := s_organization_token d; r_vm_fingerprint := fp;
              r_nonce := n'; r_asset_count := None |} in
  let '(storage, out) := validate fp http n n' now (Some d) in
  storage = Some d /\
  match http r with
  | None => outcome out = Raise (LicenseServerUnreachable (py "unreachable"))
  | Some resp =>
      let code := status_code resp in
      if (500 <=? code) || (code =? 429) then outcome out = Raise (LicenseServerUnreachable (py "server error"))
      else if 400 <=? code then outcome out = Raise (OtherError (py "http error"))
      else match body_json resp with
           | Some (JObj payload) =>
               match verify_token TRUSTED_LICENSE_KEYS (get payload (py "signed_token")) (s_license_key d) fp
                       (Some (py "validate")) (Some n') with
               | Ok o => exists t, get payload (py "signed_token") = JStr t /\ out = Ok (claims_to_state o t)
               | Raise e => outcome out = Raise (LicenseRejected (py "untrusted answer"))
               end
           | _ => outcome out = Raise (LicenseServerUnreachable (py "server error"))
           end
  end.
Proof.
  intros Hf Ho r. unfold validate, _bound_license_data. rewrite bool_decide_eq_true_2 by done.
  simpl. rewrite Ho, Hf. split; [done|]. fold r. unfold _request.
  destruct (http r) as [resp|]; [|done].
  assert (bool_decide (status_code resp ∈ SERVER_SIDE_ERROR_STATUSES) || (500 <=? status_code resp) =
          (500 <=? status_code resp) || (status_code resp =? 429)) as ->.
  { unfold SERVER_SIDE_ERROR_STATUSES. apply Bool.eq_true_iff_eq. rewrite !orb_true_iff, bool_decide_eq_true, Z.leb_le, Z.eqb_eq.
    rewrite !elem_of_cons. split; [|lia]. intros [[?|[?|[?|[?|[?|H0]]]]]|?]; try lia. by apply not_elem_of_nil in H0. }
  destruct (_ || _); [done|]. destruct (400 <=? status_code resp); [done|]. simpl. unfold _json.
  destruct (body_json resp) as [[]|]; try done. simpl. unfold _verified.
  destruct (verify_token _ _ _ _ _ _) as [o'|e] eqn:E; [|done].
  apply verify_token_str in E as (t & -> & _). simpl. eauto.
Qed.

Lemma validate_classification_witness :
  outcome (snd (validate (H := Toy.lib) (py "fp1") (fun _ => Some (Response 503 None [])) (py "n0") (py "n1") 0
    (Some ToyClient.file))) = Raise (LicenseServerUnreachable (py "server error")).
Proof.
  pose proof (@validate_classification unit Toy.lib (py "fp1") (fun _ => Some (Response 503 None [])) (py "n0") (py "n1") 0
    ToyClient.file eq_refl eq_refl) as H.
  cbv zeta in H. destruct (validate _ _ _ _ _ _) as [f out]. destruct H as [_ H]. exact H.
Defined.

(** Activation stores a license only when the answer is signed, echoes the request's nonce, is about the
    given key and this machine and says "valid"; then it stores that key bound to this machine.
    In every other case the storage is untouched. *)
Theorem activate_stores {pubkey} `{TokenLib pubkey} fp http key nonce now storage :
  match activate fp http key nonce now storage with
  | (st', Ok a) =>
      exists t o org, trusted TRUSTED_LICENSE_KEYS t key fp (Some (py "activate")) (Some nonce) o /\
        a = claims_to_state o t /\ truthy (get o (py "valid")) = true /\ truthy org = true /\
        st' = Some (Stored key org fp false JNull (get o (py "plan")) now)
  | (st', Raise _) => st' = storage
  end.
Proof. apply activate_spec. Qed.

(** An offline license file is installed only when its token is signed, of type "offline", for the license it
    names and this machine, grants a license and has not ended; it is stored whole, so the next
    validation, with no network at all, gives the same state again until the machine changes; and
    a file that is refused leaves the storage untouched. *)
Theorem install_offline_spec {pubkey} `{TokenLib pubkey} fp text now storage :
  match install_offline_license fp text now storage with
  | (st', Ok a) =>
      exists t o key until, trusted TRUSTED_LICENSE_KEYS t key fp (Some (py "offline")) None o /\
        a = claims_to_state o t /\ la_valid a = true /\ to_int (la_offline_until a) = Ok until /\
        now < until * second /\
        (forall http n n' later, validate fp http n n' later st' = (st', Ok a))
  | (st', Raise _) => st' = storage
  end.
Proof.
  unfold install_offline_license. destruct (_offline_token text) as [tok|]; [|done]. simpl.
  destruct (named_license tok) as [key|]; [|done].
  destruct (_offline_state fp (JStr tok) key) as [a|] eqn:E; [|done]. simpl.
  pose proof E as Hoff. apply offline_state_genuine in E as (t & o & [= <-] & Ht & -> & Hv & Hi).
  destruct (to_int _) as [u|] eqn:Eu; [|done].
  destruct (Z.leb_spec (u * second) now) as [Hle|Hlt]; simpl; [done|].
  exists tok, o, key, u. split_and!; [done|done|done|done|done|]. intros http n n' later.
  unfold validate, _bound_license_data. simpl. rewrite bool_decide_eq_true_2 by done. simpl. by rewrite Hoff.
Qed.
