(* ===== verification/ParamSecurity.v ===== *)
(** * Parameter substitution security (src/app/core/hardening_param_security.py)

    The validators and escapers applied to operator-supplied values before
    they are put into command templates, and small reference lexers of the
    languages they protect against: POSIX shell words, here-documents,
    PowerShell single-quoted strings, T-SQL delimiters, device CLI lines.
    A value is a string of code points 0-255; the lexers follow the quoting
    rules of the languages' documentation. *)
From S2P Require Import Prelude PyStr.

(** [ParameterSecurityError], one constructor per reason. *)
Inductive param_error : Type :=
| TooLong (len max_length : Z)
| ControlCharacter (code : Z)
| NulByte
| DelimiterLine (delimiter : pystr)
| ContainsDelimiter (delimiter : pystr)
| Unsupported (sequence : pystr)
| EmptyValue
| NotInCharset
| NotANumber
| BelowMinimum (n m : Z)
| AboveMaximum (n m : Z)
| NotAnOption.

Definition checked := res param_error pystr.

(** ** The module's helpers *)

(** [_CONTROL_CHARS], [_NEWLINE_CHARS] *)
Definition is_control (c : ascii) : bool := (ord c <? 32) || (ord c =? 127).
Definition is_newline_char (c : ascii) : bool := (ord c =? 10) || (ord c =? 13).

(** [_check_length] *)
Definition _check_length (value : pystr) (max_length : Z) : res param_error unit :=
  let len := Z.of_nat (length value) in
  if max_length <? len then Raise (TooLong len max_length) else Ok tt.

(** [_reject_control_chars] *)
Definition forbidden_control (allow_newlines : bool) (c : ascii) : bool :=
  is_control c && negb (allow_newlines && is_newline_char c).
Definition _reject_control_chars (value : pystr) (allow_newlines : bool) : res param_error unit :=
  match List.find (forbidden_control allow_newlines) value with
  | Some c => Raise (ControlCharacter (ord c))
  | None => Ok tt
  end.

Definition nul : ascii := chr 0.
Definition quote : ascii := chr 39.
Definition _reject_nul (value : pystr) : res param_error unit :=
  if has_char nul value then Raise NulByte else Ok tt.

(** The loop [for ch in ...: if ch in value: _fail]. *)
Fixpoint _reject_sequences (sequences : list pystr) (value : pystr) : res param_error unit :=
  match sequences with
  | [] => Ok tt
  | s :: rest => if is_infix s value then Raise (Unsupported s) else _reject_sequences rest value
  end.

(** ** Validators *)

(** [validate_cli_line] *)
Definition validate_cli_line (max_length : Z) (value : pystr) : checked :=
  let! _ := _check_length value max_length in
  let! _ := _reject_control_chars value false in
  Ok value.

(** [validate_heredoc_body] *)
Definition validate_heredoc_body (delimiter : pystr) (max_length : Z) (value : pystr) : checked :=
  let! _ := _check_length value max_length in
  let! _ := _reject_nul value in
  if existsb (fun line => bool_decide (strip line = delimiter)) (splitlines value)
  then Raise (DelimiterLine delimiter) else Ok value.

(** [validate_delimited_text] *)
Definition validate_delimited_text (delimiter : pystr) (max_length : Z) (value : pystr) : checked :=
  let! _ := _check_length value max_length in
  let! _ := _reject_nul value in
  if negb (bool_decide (delimiter = [])) && is_infix delimiter value
  then Raise (ContainsDelimiter delimiter) else Ok value.

(** [_SHELL_BREAKOUT_CHARS]: quote, backtick, dollar, backslash, semicolon,
    newline, carriage return, NUL. *)
Definition _SHELL_BREAKOUT_CHARS : list pystr :=
  [[quote]; [chr 96]; [chr 36]; [chr 92]; [chr 59]; [chr 10]; [chr 13]; [nul]].

(** [reject_shell_breakout_chars] *)
Definition reject_shell_breakout_chars (extra : list pystr) (max_length : Z) (value : pystr) : checked :=
  let! _ := _check_length value max_length in
  let! _ := _reject_sequences (_SHELL_BREAKOUT_CHARS ++ extra) value in
  Ok value.

(** [shlex.quote] *)
Definition shlex_safe (c : ascii) : bool :=
  is_alnum c || has_char c (py "@%+=:,./-_").
Definition quote_shell (value : pystr) : pystr :=
  match value with
  | [] => [quote; quote]
  | _ => if forallb shlex_safe value then value
         else quote :: replace1 quote [quote; chr 34; quote; chr 34; quote] value ++ [quote]
  end.

(** [escape_single_quoted_shell_literal] *)
Definition escape_single_quoted_shell_literal (deny : list pystr) (max_length : Z) (value : pystr) : checked :=
  let! _ := _check_length value max_length in
  let! _ := _reject_nul value in
  let! _ := _reject_sequences deny value in
  Ok (replace1 quote [quote; chr 92; quote; quote] value).

(** [reject_single_quoted_literal_breakout] *)
Definition reject_single_quoted_literal_breakout (extra : list pystr) (max_length : Z) (value : pystr) : checked :=
  let! _ := _check_length value max_length in
  let! _ := _reject_sequences ([[quote]; [chr 10]; [chr 13]; [nul]] ++ extra) value in
  Ok value.

(** [_restrict_to_charset]; a pattern [[...]+] is a predicate on characters. *)
Definition _restrict_to_charset (pattern : ascii -> bool) (max_length : Z) (value : pystr) : checked :=
  if bool_decide (value = []) then Raise EmptyValue
  else
    let! _ := _check_length value max_length in
    if negb (forallb pattern value) then Raise NotInCharset else Ok value.

Definition path_char (c : ascii) : bool := is_alnum c || has_char c (py "_./:-").
Definition identifier_char (c : ascii) : bool := is_alnum c || has_char c (py "_-").
Definition host_list_char (c : ascii) : bool := is_alnum c || has_char c (py "_.:,-").

Definition validate_path (max_length : Z) : pystr -> checked := _restrict_to_charset path_char max_length.
Definition validate_identifier (max_length : Z) : pystr -> checked := _restrict_to_charset identifier_char max_length.
Definition validate_host_list (max_length : Z) : pystr -> checked := _restrict_to_charset host_list_char max_length.

(** [escape_powershell_single_quoted] *)
Definition escape_powershell_single_quoted (max_length : Z) (value : pystr) : checked :=
  let! _ := _check_length value max_length in
  let! _ := _reject_control_chars value false in
  Ok (replace1 quote [quote; quote] value).

(** [_SQL_UNSAFE_CHARS]: quote, closing bracket, semicolon, newline, carriage return. *)
Definition _SQL_UNSAFE_CHARS : list pystr := [[quote]; [chr 93]; [chr 59]; [chr 10]; [chr 13]].

(** [escape_sql_identifier_text] *)
Definition escape_sql_identifier_text (max_length : Z) (value : pystr) : checked :=
  let! _ := _check_length value max_length in
  let! _ := _reject_sequences (_SQL_UNSAFE_CHARS ++ [py "--"]) value in
  Ok value.

(** [validate_integer] *)
Definition validate_integer (min_value max_value : option Z) (value : pystr) : checked :=
  match py_int (strip value) with
  | None => Raise NotANumber
  | Some number =>
      match min_value, max_value with
      | Some lo, _ => if number <? lo then Raise (BelowMinimum number lo) else
          match max_value with
          | Some hi => if hi <? number then Raise (AboveMaximum number hi) else Ok (str_of_int number)
          | None => Ok (str_of_int number)
          end
      | None, Some hi => if hi <? number then Raise (AboveMaximum number hi) else Ok (str_of_int number)
      | None, None => Ok (str_of_int number)
      end
  end.

(** [validate_powershell_bare_integer] *)
Definition validate_powershell_bare_integer := validate_integer.

(** [validate_select] *)
Definition validate_select (options : list pystr) (value : pystr) : checked :=
  if bool_decide (value ∈ options) then Ok value else Raise NotAnOption.

(** ** Reference lexers *)

(** One POSIX shell word, read by the quoting rules of the shell: where it
    ends, and what it stands for.  [None]: the input ends inside quotes, or a
    character that is not a plain part of a word (a blank, an operator, an
    expansion) comes up outside single quotes. *)
Inductive quoting : Type := Unquoted | InSingle | InDouble | AfterBackslash.

Definition shell_special (c : ascii) : bool :=
  is_space c || has_char c (py "|&;<>()$`*?[#~!{}") || (ord c =? 0).

Fixpoint shell_word (q : quoting) (s : pystr) : option pystr :=
  match s with
  | [] => match q with Unquoted => Some [] | _ => None end
  | c :: s' =>
      match q with
      | InSingle => if bool_decide (c = quote) then shell_word Unquoted s' else option_map (cons c) (shell_word InSingle s')
      | InDouble =>
          if ord c =? 34 then shell_word Unquoted s'
          else if has_char c [chr 36; chr 96; chr 92] then None
          else option_map (cons c) (shell_word InDouble s')
      | AfterBackslash => option_map (cons c) (shell_word Unquoted s')
      | Unquoted =>
          if bool_decide (c = quote) then shell_word InSingle s'
          else if ord c =? 34 then shell_word InDouble s'
          else if ord c =? 92 then shell_word AfterBackslash s'
          else if shell_special c then None
          else option_map (cons c) (shell_word Unquoted s')
      end
  end.

(** A PowerShell single-quoted string after its opening quote: the text it
    stands for and what follows the closing quote. *)
Fixpoint powershell_literal (s : pystr) : option (pystr * pystr) :=
  match s with
  | [] => None
  | c :: s' =>
      if bool_decide (c = quote) then
        match s' with
        | d :: s'' => if bool_decide (d = quote)
                      then option_map (fun '(t, r) => (quote :: t, r)) (powershell_literal s'')
                      else Some ([], s')
        | [] => Some ([], [])
        end
      else option_map (fun '(t, r) => (c :: t, r)) (powershell_literal s')
  end.

(** The lines a shell sees in a here-document body. *)
Definition newline_char : ascii := chr 10.
Definition shell_lines (s : pystr) : list pystr := split_on newline_char s.

(** ** Lemmas: escaping *)

Lemma posix_escape_word v rest :
  shell_word InSingle (replace1 quote [quote; chr 92; quote; quote] v ++ quote :: rest) =
    option_map (app v) (shell_word Unquoted rest).
Proof.
  induction v as [|c v IH]; [simpl; by destruct (shell_word Unquoted rest)|].
  rewrite replace1_cons. case_bool_decide as Hc.
  - subst c. cbn [app]. transitivity (option_map (cons quote) (shell_word InSingle
      (replace1 quote [quote; chr 92; quote; quote] v ++ quote :: rest))); [reflexivity|].
    rewrite IH. by destruct (shell_word Unquoted rest).
  - cbn [app shell_word]. rewrite bool_decide_eq_false_2 by done. rewrite IH.
    by destruct (shell_word Unquoted rest).
Qed.

Lemma shlex_escape_word v rest :
  shell_word InSingle (replace1 quote [quote; chr 34; quote; chr 34; quote] v ++ quote :: rest) =
    option_map (app v) (shell_word Unquoted rest).
Proof.
  induction v as [|c v IH]; [simpl; by destruct (shell_word Unquoted rest)|].
  rewrite replace1_cons. case_bool_decide as Hc.
  - subst c. cbn [app]. transitivity (option_map (cons quote) (shell_word InSingle
      (replace1 quote [quote; chr 34; quote; chr 34; quote] v ++ quote :: rest))); [reflexivity|].
    rewrite IH. by destruct (shell_word Unquoted rest).
  - cbn [app shell_word]. rewrite bool_decide_eq_false_2 by done. rewrite IH.
    by destruct (shell_word Unquoted rest).
Qed.

(** A character of [shlex]'s safe set means itself in a bare word. *)
Lemma shlex_safe_plain c :
  shlex_safe c = true -> c <> quote /\ (ord c =? 34) = false /\ (ord c =? 92) = false /\ shell_special c = false.
Proof.
  pose proof (ascii_forall (fun c => negb (shlex_safe c) || (negb (ord c =? 39) && negb (ord c =? 34) &&
    negb (ord c =? 92) && negb (shell_special c))) ltac:(vm_compute; reflexivity) c) as H.
  simpl in H. intros Hs. rewrite Hs in H. simpl in H. bool_prop. split_and!; auto.
  - intros ->. done.
  - by apply Z.eqb_neq.
  - by apply Z.eqb_neq.
Qed.

Lemma safe_word v : forallb shlex_safe v = true -> shell_word Unquoted v = Some v.
Proof.
  induction v as [|c v IH]; [done|]. simpl. intros [Hc Hv]%andb_prop.
  destruct (shlex_safe_plain c Hc) as (Hq & -> & -> & ->). rewrite bool_decide_eq_false_2 by done.
  by rewrite IH.
Qed.

Lemma quote_shell_word v : shell_word Unquoted (quote_shell v) = Some v.
Proof.
  unfold quote_shell. destruct v as [|c v]; [reflexivity|].
  destruct (forallb shlex_safe (c :: v)) eqn:E; [by apply safe_word|].
  change (shell_word Unquoted (quote :: ?x)) with (shell_word InSingle x).
  transitivity (shell_word InSingle (replace1 quote [quote; chr 34; quote; chr 34; quote] (c :: v) ++ quote :: []));
    [reflexivity|].
  rewrite shlex_escape_word. simpl. by rewrite app_nil_r.
Qed.

Lemma powershell_escape v rest :
  head rest <> Some quote ->
  powershell_literal (replace1 quote [quote; quote] v ++ quote :: rest) = Some (v, rest).
Proof.
  intros Hr. induction v as [|c v IH].
  - cbn [replace1 map concat app powershell_literal]. rewrite bool_decide_eq_true_2 by done.
    destruct rest as [|d rest]; [done|]. rewrite bool_decide_eq_false_2; [done|]. intros ->. done.
  - rewrite replace1_cons. case_bool_decide as Hc.
    + subst c. cbn [app]. transitivity (option_map (fun '(t, r) => (quote :: t, r)) (powershell_literal
        (replace1 quote [quote; quote] v ++ quote :: rest))); [reflexivity|]. by rewrite IH.
    + cbn [app powershell_literal]. rewrite bool_decide_eq_false_2 by done. by rewrite IH.
Qed.

(** ** Lemmas: validators *)

Lemma check_length_ok v n : _check_length v n = Ok tt <-> Z.of_nat (length v) <= n.
Proof.
  unfold _check_length. destruct (Z.ltb_spec n (Z.of_nat (length v))); split; try done; lia.
Qed.

Lemma res_bind_ok {E A B} (m : res E A) (k : A -> res E B) b :
  res_bind m k = Ok b <-> exists a, m = Ok a /\ k a = Ok b.
Proof. destruct m; simpl; naive_solver. Qed.

Lemma reject_control_ok v allow :
  _reject_control_chars v allow = Ok tt <-> forallb (fun c => negb (forbidden_control allow c)) v = true.
Proof.
  unfold _reject_control_chars. induction v as [|c v IH]; [done|]. simpl.
  destruct (forbidden_control allow c); simpl; [done|]. exact IH.
Qed.

Lemma reject_sequences_ok ss v :
  _reject_sequences ss v = Ok tt <-> forallb (fun s => negb (is_infix s v)) ss = true.
Proof.
  induction ss as [|s ss IH]; [done|]. simpl. destruct (is_infix s v); simpl; [done|exact IH].
Qed.

Lemma is_infix_1 c v : is_infix [c] v = has_char c v.
Proof.
  induction v as [|d v IH]; [done|]. simpl. rewrite IH. unfold has_char. simpl.
  rewrite andb_true_r. f_equal. apply bool_decide_ext. split; congruence.
Qed.

Lemma validate_integer_ok lo hi v e :
  validate_integer lo hi v = Ok e ->
  exists n, py_int (strip v) = Some n /\ e = str_of_int n /\
    (forall l, lo = Some l -> l <= n) /\ (forall h, hi = Some h -> n <= h).
Proof.
  unfold validate_integer. destruct (py_int (strip v)) as [n|]; [|done].
  intros H. exists n. destruct lo as [l|], hi as [h|];
    repeat match goal with H : context [if ?b then _ else _] |- _ => destruct b eqn:? end; simplify_eq;
    bool_prop; split_and!; intros; simplify_eq; done || lia.
Qed.

(** Every character of the set is harmless in a bare shell word. *)
Lemma charset_safe c : path_char c || identifier_char c || host_list_char c = true -> shlex_safe c = true.
Proof.
  pose proof (ascii_forall (fun c => negb (path_char c || identifier_char c || host_list_char c) || shlex_safe c)
    ltac:(vm_compute; reflexivity) c) as H. simpl in H. intros Hc. by rewrite Hc in H.
Qed.

Lemma forallb_weaken (p q : ascii -> bool) v :
  (forall c, p c = true -> q c = true) -> forallb p v = true -> forallb q v = true.
Proof. rewrite !forallb_forall. auto. Qed.

Lemma restrict_ok p n v e :
  _restrict_to_charset p n v = Ok e -> e = v /\ v <> [] /\ forallb p v = true /\ Z.of_nat (length v) <= n.
Proof.
  unfold _restrict_to_charset. case_bool_decide; [done|]. intros (u & Hl & He)%res_bind_ok. destruct u.
  destruct (forallb p v) eqn:E; [|done]. simpl in He. injection He as <-. apply check_length_ok in Hl. auto.
Qed.

(** ** Lemmas: here-documents *)

Lemma splitlines_head c s :
  is_line_break c = false ->
  splitlines (c :: s) = (c :: match splitlines s with [] => [] | w :: _ => w end) :: tail (splitlines s).
Proof. intros Hc. simpl. rewrite Hc. by destruct (splitlines s). Qed.

(** A line free of any line boundary. *)
Definition plain_line (l : pystr) : Prop := l <> [] /\ forallb (fun c => negb (is_line_break c)) l = true.

Lemma plain_line_head c l : plain_line (c :: l) -> is_line_break c = false /\ (l <> [] -> plain_line l).
Proof.
  intros [_ Hb]. simpl in Hb. apply andb_prop in Hb as [Hc Hb]. apply negb_true_iff in Hc.
  split; [done|]. by split.
Qed.

Lemma split_on_nonempty c s : split_on c s <> [].
Proof. destruct s as [|d s]; simpl; [done|]. case_bool_decide; [done|]. by destruct (split_on c s). Qed.

(** What the induction below carries: the first shell line of [v] is the first
    Python line, and the others are among the others, when they are plain. *)
Definition lines_agree (v : pystr) : Prop :=
  forall w ws, shell_lines v = w :: ws -> forall l, plain_line l ->
    (w = l -> head (splitlines v) = Some l) /\ (l ∈ ws -> l ∈ tail (splitlines v)).

Lemma lines_agree_any v l : lines_agree v -> plain_line l -> l ∈ shell_lines v -> l ∈ splitlines v.
Proof.
  intros Hv Hl Hin. unfold lines_agree in Hv. destruct (shell_lines v) as [|w ws]; [set_solver|].
  destruct (Hv w ws eq_refl l Hl) as [H1 H2]. apply elem_of_cons in Hin as [->|Hin].
  - specialize (H1 eq_refl). destruct (splitlines v); simplify_eq/=. set_solver.
  - specialize (H2 Hin). destruct (splitlines v); simpl in *; set_solver.
Qed.

Lemma lines_agree_newline s : lines_agree s -> lines_agree (newline_char :: s).
Proof.
  intros Hs w ws. unfold shell_lines.
  assert (split_on newline_char (newline_char :: s) = [] :: split_on newline_char s) as -> by done.
  intros [= <- <-] l Hl. split; [intros <-; by destruct Hl|]. intros Hin.
  assert (splitlines (newline_char :: s) = [] :: splitlines s) as -> by (by destruct s).
  simpl. by apply lines_agree_any.
Qed.

Lemma lines_agree_break c s :
  is_line_break c = true -> c <> newline_char -> lines_agree s ->
  (forall s', s = newline_char :: s' -> lines_agree s') -> lines_agree (c :: s).
Proof.
  intros Hc Hn Hs Hs' w ws. unfold shell_lines. simpl. rewrite bool_decide_eq_false_2 by done.
  destruct (split_on newline_char s) as [|w' ws'] eqn:E; [by destruct (split_on_nonempty newline_char s)|].
  intros [= <- <-] l Hl. split.
  { intros <-. apply plain_line_head in Hl as [Hx _]. congruence. }
  intros Hin. rewrite Hc. simpl. destruct s as [|d s'].
  { simpl in E. simplify_eq. set_solver. }
  destruct ((ord c =? 13) && (ord d =? 10)) eqn:Hcr.
  - bool_prop. assert (d = newline_char) as -> by (by apply ord_inj).
    assert (split_on newline_char (newline_char :: s') = [] :: split_on newline_char s') as En by done.
    rewrite En in E. injection E as <- <-. apply lines_agree_any; [by apply Hs'|done|done].
  - destruct (Hs w' ws' E l Hl) as [_ H2]. specialize (H2 Hin).
    destruct (splitlines (d :: s')); simpl in H2; set_solver.
Qed.

Lemma lines_agree_char c s : is_line_break c = false -> lines_agree s -> lines_agree (c :: s).
Proof.
  intros Hc Hs w ws. unfold shell_lines. simpl split_on. rewrite bool_decide_eq_false_2 by (intros ->; done).
  destruct (split_on newline_char s) as [|w' ws'] eqn:E; [by destruct (split_on_nonempty newline_char s)|].
  intros [= <- <-] l Hl. rewrite (splitlines_head c s Hc). split; [|by apply (Hs w' ws' E)].
  intros <-. simpl. do 2 f_equal. apply plain_line_head in Hl as [_ Hl]. destruct w' as [|x w'].
  - destruct s as [|y s']; [done|]. simpl in E. case_bool_decide; [subst y; by destruct s'|].
    by destruct (split_on newline_char s').
  - destruct (Hs (x :: w') ws' E (x :: w') (Hl ltac:(done))) as [H1 _]. specialize (H1 eq_refl).
    by destruct (splitlines s); simplify_eq/=.
Qed.

Lemma all_lines_agree v : lines_agree v.
Proof.
  induction v as [v IH] using (induction_ltof1 _ (@length ascii)). unfold ltof in IH.
  destruct v as [|c s].
  { intros w ws [= <- <-] l [Hl _]. split; [done|set_solver]. }
  destruct (is_line_break c) eqn:Hc; [|apply lines_agree_char; [done|apply IH; simpl; lia]].
  destruct (decide (c = newline_char)) as [->|Hn]; [apply lines_agree_newline, IH; simpl; lia|].
  apply lines_agree_break; [done|done|apply IH; simpl; lia|]. intros s' ->. apply IH. simpl. lia.
Qed.

(** A value without a quote is itself between quotes. *)
Lemma quoted_word v rest :
  has_char quote v = false ->
  shell_word InSingle (v ++ quote :: rest) = option_map (app v) (shell_word Unquoted rest).
Proof.
  unfold has_char. induction v as [|c v IH]; [intros _; simpl; by destruct (shell_word Unquoted rest)|].
  simpl. intros [Hc Hv]%orb_false_elim. rewrite Hc, IH by done. by destruct (shell_word Unquoted rest).
Qed.

Lemma reject_nul_ok v : _reject_nul v = Ok tt <-> has_char nul v = false.
Proof. unfold _reject_nul. by destruct (has_char nul v). Qed.

Lemma deny_list_ok extra n v e :
  reject_shell_breakout_chars extra n v = Ok e ->
  e = v /\ Z.of_nat (length v) <= n /\
  (forall s, s ∈ _SHELL_BREAKOUT_CHARS ++ extra -> is_infix s v = false).
Proof.
  intros ([] & Hl & ([] & Hs & [= <-])%res_bind_ok)%res_bind_ok.
  split_and!; [done|by apply check_length_ok|]. intros s Hin.
  apply reject_sequences_ok in Hs. rewrite forallb_forall in Hs.
  apply negb_true_iff, Hs. by apply list_elem_of_In.
Qed.

Lemma integer_char_safe c : is_digit c || bool_decide (c = "-"%char) = true -> shlex_safe c = true.
Proof.
  intros [Hd|Hc%bool_decide_eq_true]%orb_true_iff; [|by subst c].
  unfold shlex_safe, is_alnum. rewrite Hd. by destruct (is_alpha c).
Qed.

Lemma no_control_one_line v :
  forallb (fun c => negb (forbidden_control false c)) v = true -> shell_lines v = [v].
Proof.
  intros H. unfold shell_lines. apply split_on_none. unfold has_char.
  induction v as [|c v IH]; [done|]. simpl in *. apply andb_prop in H as [Hc Hv]. rewrite IH by done.
  rewrite bool_decide_eq_false_2; [done|]. intros ->. done.
Qed.

(** ** Properties *)

(** An escaped value cannot leave the literal it is put into: between the template's single quotes a POSIX shell
    reads one word that is exactly the value, a PowerShell string literal ends at the template's own
    closing quote and is exactly the value, and [quote_shell] makes one shell word of any value. *)
Theorem escaped_values_contained v :
  (forall deny n e, escape_single_quoted_shell_literal deny n v = Ok e ->
     shell_word Unquoted (quote :: e ++ [quote]) = Some v) /\
  (forall n e rest, escape_powershell_single_quoted n v = Ok e -> head rest <> Some quote ->
     powershell_literal (e ++ quote :: rest) = Some (v, rest)) /\
  shell_word Unquoted (quote_shell v) = Some v.
Proof.
  split_and!; [| |apply quote_shell_word].
  - intros deny n e (_ & _ & (_ & _ & (_ & _ & [= <-])%res_bind_ok)%res_bind_ok)%res_bind_ok.
    transitivity (shell_word InSingle (replace1 quote [quote; chr 92; quote; quote] v ++ quote :: [])); [reflexivity|].
    rewrite posix_escape_word. simpl. by rewrite app_nil_r.
  - intros n e rest (_ & _ & (_ & _ & [= <-])%res_bind_ok)%res_bind_ok Hr. by apply powershell_escape.
Qed.

(** A value that passes the path, identifier, host list or integer check means itself wherever it is put in a shell
    command, quoted or bare: it is one shell word equal to itself, within the length limit, and an
    integer is in its range and in normal form. *)
Theorem restricted_values_are_words v e :
  (forall n, validate_path n v = Ok e \/ validate_identifier n v = Ok e \/ validate_host_list n v = Ok e ->
     e = v /\ v <> [] /\ shell_word Unquoted e = Some e /\ Z.of_nat (length e) <= n) /\
  (forall lo hi, validate_integer lo hi v = Ok e ->
     shell_word Unquoted e = Some e /\ exists n, py_int e = Some n /\ e = str_of_int n /\
       (forall l, lo = Some l -> l <= n) /\ (forall h, hi = Some h -> n <= h)).
Proof.
  split.
  - intros n H.
    assert (e = v /\ v <> [] /\ forallb shlex_safe v = true /\ Z.of_nat (length v) <= n) as (-> & Hne & Hs & Hl).
    { destruct H as [H|[H|H]]; apply restrict_ok in H as (-> & ? & Hp & ?); split_and!; try done;
        (eapply forallb_weaken; [|exact Hp]); intros c Hc; apply charset_safe; rewrite Hc;
        by rewrite ?orb_true_l, ?orb_true_r. }
    split_and!; [done|done|by apply safe_word|done].
  - intros lo hi (n & _ & -> & Hlo & Hhi)%validate_integer_ok. split.
    + apply safe_word. eapply forallb_weaken; [|apply str_of_int_chars]. apply integer_char_safe.
    + exists n. split_and!; [apply py_int_str_of_int|done..].
Qed.

(** Text inserted as a block stays inside it: an accepted here-document body has no line equal to the delimiter
    (as the shell splits lines), an accepted banner does not contain its delimiter, and an accepted
    device CLI value is a single line. *)
Theorem inserted_text_contained v :
  (forall d n e, validate_heredoc_body d n v = Ok e -> plain_line d -> strip d = d ->
     e = v /\ d ∉ shell_lines e /\ has_char nul e = false) /\
  (forall d n e, validate_delimited_text d n v = Ok e -> d <> [] -> e = v /\ is_infix d e = false) /\
  (forall n e, validate_cli_line n v = Ok e -> e = v /\ shell_lines e = [e] /\ Z.of_nat (length e) <= n).
Proof.
  split_and!.
  - intros d n e (_ & _ & ([] & Hn & He)%res_bind_ok)%res_bind_ok Hp Hs.
    destruct (existsb _ (splitlines v)) eqn:Ex; [done|]. injection He as <-.
    split_and!; [done| |by apply reject_nul_ok]. intros Hin.
    apply (lines_agree_any v d (all_lines_agree v) Hp) in Hin.
    assert (existsb (fun line => bool_decide (strip line = d)) (splitlines v) = true); [|congruence].
    apply existsb_exists. exists d. split; [by apply list_elem_of_In|]. by apply bool_decide_eq_true.
  - intros d n e (_ & _ & (_ & _ & He)%res_bind_ok)%res_bind_ok Hd.
    rewrite bool_decide_eq_false_2 in He by done. simpl in He. destruct (is_infix d v) eqn:E; [done|].
    by injection He as <-.
  - intros n e ([] & Hl & ([] & Hc & [= <-])%res_bind_ok)%res_bind_ok.
    apply reject_control_ok in Hc. split_and!; [done|by apply no_control_one_line|by apply check_length_ok].
Qed.

(** C39: the deny list for shell text is sound inside single quotes, where an accepted value is read literally, but not
    in a bare word: it accepts values with a control operator, which ends the command there. *)
Theorem deny_list_contexts :
  (forall extra n v e, reject_shell_breakout_chars extra n v = Ok e ->
     e = v /\ shell_word Unquoted (quote :: e ++ [quote]) = Some e) /\
  (reject_shell_breakout_chars [] 4096 (py "a & reboot") = Ok (py "a & reboot") /\
   shell_word Unquoted (py "a & reboot") = None /\ shell_word Unquoted (py "a&reboot") = None /\
   is_ok (reject_shell_breakout_chars [] 4096 (py "a|reboot")) = true).
Proof.
  split; [|vm_compute; auto].
  intros extra n v e (-> & _ & Hs)%deny_list_ok. split; [done|].
  transitivity (shell_word InSingle (v ++ quote :: [])); [reflexivity|].
  rewrite quoted_word; [simpl; by rewrite app_nil_r|]. rewrite <- is_infix_1. apply Hs. set_solver.
Qed.

(** An accepted T-SQL text closes neither a bracketed identifier nor a string literal, ends no statement and starts
    no comment. *)
Theorem sql_text_contained n v e :
  escape_sql_identifier_text n v = Ok e ->
  e = v /\ Z.of_nat (length e) <= n /\ is_infix (py "--") e = false /\
  forall c, c ∈ [quote; chr 93; chr 59; chr 10; chr 13] -> has_char c e = false.
Proof.
  intros ([] & Hl & ([] & Hs & [= <-])%res_bind_ok)%res_bind_ok.
  apply reject_sequences_ok in Hs. rewrite forallb_forall in Hs.
  assert (forall s, s ∈ _SQL_UNSAFE_CHARS ++ [py "--"] -> is_infix s v = false) as Hn.
  { intros s Hin. apply negb_true_iff, Hs. by apply list_elem_of_In. }
  split_and!; [done|by apply check_length_ok|apply Hn; set_solver|].
  intros c Hc. rewrite <- is_infix_1. apply Hn. unfold _SQL_UNSAFE_CHARS. set_solver.
Qed.

Lemma sql_text_contained_witness : has_char quote (py "app_login") = false.
Proof.
  apply (sql_text_contained 128 (py "app_login") (py "app_login")); [vm_compute; reflexivity|].
  apply elem_of_cons. left. reflexivity.
Defined.
