(* ===== verification/Accounts.v ===== *)
(** * Accounts: second factor, sessions, API keys, login limits
    (src/app/core/totp.py, mfa.py, sessions.py, api_keys.py,
    auth_rate_limiter.py, rate_limiter.py, audit_rate_limiter.py)

    Times are integers of microseconds since the epoch, as in LicenseState.v.
    Hash functions are arguments.  Database rows are records; a query is a
    function of the rows it reads. *)
From S2P Require Import Prelude PyStr LicenseState AssetEntitlement.

(** ** One-time codes *)
Module Totp.
Definition DIGITS : nat := 6.
Definition STEP_SECONDS : Z := 30.
Definition DRIFT_STEPS : Z := 1.

(** What [hmac.compare_digest] of two [str] may do. *)
Inductive compare_error : Type := NonAscii.
Definition is_ascii (s : pystr) : bool := forallb (fun c => ord c <? 128) s.
Definition compare_digest (a b : pystr) : res compare_error bool :=
  if is_ascii a && is_ascii b then Ok (bool_decide (a = b)) else Raise NonAscii.

(** [str.zfill] on a string without a sign. *)
Definition zfill (n : nat) (s : pystr) : pystr := replicate (n - length s) zero_char ++ s.

(** [struct.unpack(">I", bs)] of four bytes. *)
Definition be32 (bs : list Z) : Z := foldl (fun v b => Z.lor (Z.shiftl v 8) b) 0 bs.
(** [struct.pack(">Q", counter)]. *)
Definition be64 (counter : Z) : list Z :=
  map (fun i => Z.land (Z.shiftr counter (8 * i)) 255) [7; 6; 5; 4; 3; 2; 1; 0].

Section Codes.
(** HMAC-SHA1 of a key and a message, and the key bytes of a base32 secret. *)
Variable hmac_sha1 : list Z -> list Z -> list Z.
Variable _key : pystr -> list Z.

(** [hotp]; a MAC is never empty, [mac[-1]] is its last byte. *)
Definition hotp (key : list Z) (counter : Z) : pystr :=
  let mac := hmac_sha1 key (be64 counter) in
  let offset := Z.land (List.last mac 0) 15 in
  let value := Z.land (be32 (take 4 (drop (Z.to_nat offset) mac))) 2147483647 in
  zfill DIGITS (str_of_int (value mod 10 ^ Z.of_nat DIGITS)).

(** [step_at] *)
Definition step_at (when : Z) : Z := when / (STEP_SECONDS * second).

(** [code_at] *)
Definition code_at (secret : pystr) (when : Z) : pystr := hotp (_key secret) (step_at when).

(** The normal form of a typed code. *)
Definition cleaned (code : pystr) : pystr := replace1 " "%char [] (strip code).

(** The loop of [verify] over the steps. *)
Fixpoint find_step (key : list Z) (code : pystr) (last_used : option Z) (steps : list Z)
    : res compare_error (option Z) :=
  match steps with
  | [] => Ok None
  | s :: rest =>
      if match last_used with Some l => s <=? l | None => false end then find_step key code last_used rest
      else
        let! same := compare_digest (hotp key s) code in
        if same then Ok (Some s) else find_step key code last_used rest
  end.

(** [verify] *)
Definition verify (secret code : pystr) (last_used_step : option Z) (when : Z) : res compare_error (option Z) :=
  let code := cleaned code in
  if negb (length code =? DIGITS)%nat || negb (forallb py_isdigit code) then Ok None
  else
    let now := step_at when in
    find_step (_key secret) code last_used_step [now - DRIFT_STEPS; now; now + DRIFT_STEPS].

Lemma zfill_length n s : (length s <= n)%nat -> length (zfill n s) = n.
Proof. intros. unfold zfill. rewrite length_app, length_replicate. lia. Qed.

Lemma str_of_int_nonneg_digits n : 0 <= n -> forallb is_digit (str_of_int n) = true.
Proof.
  intros Hn. unfold str_of_int. rewrite (proj2 (Z.ltb_ge _ _)) by done. apply dec_nonneg_spec, Hn.
Qed.

Lemma hotp_digits key c : forallb is_digit (hotp key c) = true.
Proof.
  unfold hotp, zfill. rewrite forallb_app. apply andb_true_intro. split.
  - induction (DIGITS - _)%nat; [done|]. simpl. done.
  - apply str_of_int_nonneg_digits. apply Z.mod_pos_bound. done.
Qed.

Lemma hotp_ascii key c : is_ascii (hotp key c) = true.
Proof.
  unfold is_ascii. pose proof (hotp_digits key c) as H. rewrite forallb_forall in *. intros x Hx.
  specialize (H x Hx). unfold is_digit, between in H. lia.
Qed.

(** The newest steps a code may belong to. *)
Definition candidates (last_used : option Z) (when : Z) : list Z :=
  List.filter (fun s => negb (match last_used with Some l => s <=? l | None => false end))
    [step_at when - DRIFT_STEPS; step_at when; step_at when + DRIFT_STEPS].

Lemma find_step_spec key code last steps :
  let cs := List.filter (fun s => negb (match last with Some l => s <=? l | None => false end)) steps in
  find_step key code last steps =
    match cs with
    | [] => Ok None
    | _ => if is_ascii code then Ok (List.find (fun s => bool_decide (hotp key s = code)) cs) else Raise NonAscii
    end.
Proof.
  induction steps as [|s steps IH]; [done|]. cbn [find_step List.filter].
  destruct (match last with Some l => s <=? l | None => false end) eqn:E; cbn [negb]; [exact IH|].
  unfold compare_digest. rewrite hotp_ascii. cbn [andb]. destruct (is_ascii code) eqn:Ea; cbn [res_bind]; [|done].
  cbn [List.find]. case_bool_decide; [done|]. rewrite IH. by destruct (List.filter _ steps).
Qed.

Lemma verify_spec secret code last when :
  verify secret code last when =
    let c := cleaned code in
    if negb (length c =? DIGITS)%nat || negb (forallb py_isdigit c) then Ok None
    else match candidates last when with
         | [] => Ok None
         | cs => if is_ascii c then Ok (List.find (fun s => bool_decide (hotp (_key secret) s = c)) cs)
                 else Raise NonAscii
         end.
Proof.
  unfold verify. destruct (_ || _); [done|].
  pose proof (find_step_spec (_key secret) (cleaned code) last
    [step_at when - DRIFT_STEPS; step_at when; step_at when + DRIFT_STEPS]) as H.
  cbv zeta in H. rewrite H. fold (candidates last when). by destruct (candidates last when).
Qed.

Lemma verify_step secret code last when s :
  verify secret code last when = Ok (Some s) ->
  Z.abs (s - step_at when) <= DRIFT_STEPS /\ (forall l, last = Some l -> l < s) /\
  hotp (_key secret) s = cleaned code /\ forallb is_digit (cleaned code) = true.
Proof.
  rewrite verify_spec. cbv zeta. destruct (_ || _) eqn:E; [done|]. bool_prop.
  destruct (candidates last when) as [|c0 cs] eqn:Ec; [done|].
  rewrite <- Ec. destruct (is_ascii (cleaned code)) eqn:Ea; [|done]. intros Hf. injection Hf as Hf. rewrite Ec in Hf.
  apply List.find_some in Hf as [Hin Hs].
  apply bool_decide_eq_true in Hs. rewrite <- Ec in Hin. unfold candidates in Hin.
  apply List.filter_In in Hin as [Hin Hl]. split_and!; [| |done|].
  - unfold DRIFT_STEPS in *. simpl in Hin. lia.
  - intros l ->. apply negb_true_iff in Hl. lia.
  - rewrite forallb_forall in *. intros x Hx. unfold is_ascii in Ea. rewrite forallb_forall in Ea.
    specialize (Ea x Hx). match goal with H : forall _, In _ _ -> py_isdigit _ = true |- _ => specialize (H x Hx); unfold py_isdigit in H end.
    destruct (is_digit x); [done|]. lia.
Qed.
End Codes.
End Totp.

(** ** Two-step sign-in *)
Module Mfa.
Inductive role : Type := Admin | Manager | User | Guest.
#[global] Instance role_eq_dec : EqDecision role.
Proof. solve_decision. Defined.
Definition ROLES : list role := [Admin; Manager; User; Guest].
Definition DEFAULT_ROLES : list role := [Admin; Manager].
Definition DEFAULT_GRACE : Z := 7.
Definition MAX_GRACE_DAYS : Z := 90.
Definition MFA_TOKEN_MINUTES : Z := 5.

Record policy : Type := Policy { required_roles : list role; grace_days : Z }.

Definition mem_role (r : role) (rs : list role) : bool := existsb (fun x => bool_decide (x = r)) rs.

(** [get_policy]: what the stored section names, missing keys by default. *)
Definition get_policy (stored_roles : option (list role)) (stored_grace : option Z) : policy :=
  let roles := match stored_roles with Some rs => rs | None => DEFAULT_ROLES end in
  let grace := match stored_grace with Some g => g | None => DEFAULT_GRACE end in
  {| required_roles := List.filter (fun r => mem_role r roles) ROLES;
     grace_days := Z.max 0 (Z.min MAX_GRACE_DAYS grace) |}.

(** [is_required] *)
Definition is_required (p : policy) (r : role) : bool := mem_role r (required_roles p).

(** [UserMfa]; the secrets as the application decrypts them. *)
Record row : Type := Row {
  enabled : bool;
  secret : option pystr;
  pending_secret : option pystr;
  last_used_step : option Z;
  recovery_codes : list pystr;
  version : Z;
  deadline : option Z;
  enabled_at : option Z
}.
(** [get_or_create_row] of a user who has none. *)
Definition new_row : row := Row false None None None [] 0 None None.

(** [version_of], [bump] *)
Definition version_of (r : option row) : Z := match r with Some r => version r | None => 0 end.
Definition bump (r : row) : row := r {{ version := version r + 1 }}.

(** [enrolment_due] *)
Definition enrolment_due (p : policy) (who : role) (r : option row) (now : Z) : bool :=
  if match r with Some r => enabled r | None => false end || negb (is_required p who) then false
  else if bool_decide (who = Admin) || (grace_days p =? 0) then true
  else match r with
       | Some {| deadline := Some d |} => d <=? now
       | _ => false
       end.

(** [start_grace]: the row after a sign-in. *)
Definition start_grace (p : policy) (who : role) (r : option row) (now : Z) : option row :=
  if negb (is_required p who) then r
  else
    let r' := match r with Some r => r | None => new_row end in
    Some (match enabled r', deadline r' with
          | false, None =>
              r' {{ deadline := Some (now + (if bool_decide (who = Admin) then 0 else grace_days p) * day) }}
          | _, _ => r'
          end).

Inductive factor : Type := ByTotp | ByRecovery.

Section Codes.
Variable hmac_sha1 : list Z -> list Z -> list Z.
Variable _key : pystr -> list Z.
(** [recovery_code_matches]: a salted PBKDF2 hash. *)
Variable recovery_code_matches : pystr -> pystr -> bool.

(** [list.remove] *)
Fixpoint remove_first (x : pystr) (l : list pystr) : list pystr :=
  match l with
  | [] => []
  | y :: l' => if bool_decide (y = x) then l' else y :: remove_first x l'
  end.

(** [check_code]: the row after, and how the code was accepted. *)
Definition check_code (r : row) (code0 : pystr) (when : Z) : res Totp.compare_error (row * option factor) :=
  let code := strip code0 in
  match enabled r, secret r with
  | true, Some ((_ :: _) as sec) =>
      let! step := Totp.verify hmac_sha1 _key sec code (last_used_step r) when in
      match step with
      | Some s => Ok (r {{ last_used_step := Some s }}, Some ByTotp)
      | None =>
          match List.find (recovery_code_matches code) (recovery_codes r) with
          | Some stored => Ok (r {{ recovery_codes := remove_first stored (recovery_codes r) }}, Some ByRecovery)
          | None => Ok (r, None)
          end
      end
  | _, _ => Ok (r, None)
  end.

(** The router's operations on a row (src/app/modules/auth/mfa_router.py):
    [start_setup] once its checks passed, [confirm_setup], the new codes and
    turning it off; [None] is a refusal that changes nothing. *)
Definition start_setup (new_secret : pystr) (r : row) : row := r {{ pending_secret := Some new_secret }}.

Definition confirm_setup (r : row) (code : pystr) (codes : list pystr) (when : Z) : res Totp.compare_error (option row) :=
  match pending_secret r with
  | Some ((_ :: _) as pending) =>
      let! step := Totp.verify hmac_sha1 _key pending code None when in
      match step with
      | None => Ok None
      | Some s => Ok (Some (bump (r {{ secret := Some pending; pending_secret := None; enabled := true;
                                       last_used_step := Some s; deadline := None; enabled_at := Some when;
                                       recovery_codes := codes }})))
      end
  | _ => Ok None
  end.

(** [_clear] *)
Definition _clear (r : row) : row :=
  bump (r {{ enabled := false; secret := None; pending_secret := None; last_used_step := None;
             enabled_at := None; recovery_codes := []; deadline := None }}).

(** Sign-ins of one user with two-step sign-in on, nothing else in between:
    the accepted codes in order. *)
Inductive accepts : row -> list (factor * pystr * option Z) -> row -> Prop :=
| accepts_nil r : accepts r [] r
| accepts_step r code when r1 how log r2 :
    check_code r code when = Ok (r1, Some how) -> accepts r1 log r2 ->
    accepts r ((how, strip code, last_used_step r1) :: log) r2
| accepts_refused r code when r1 log r2 :
    check_code r code when = Ok (r1, None) -> accepts r1 log r2 -> accepts r log r2.

(** ** Lemmas *)

Lemma remove_first_length x l : x ∈ l -> length (remove_first x l) = pred (length l).
Proof.
  induction l as [|y l IH]; [set_solver|]. simpl. case_bool_decide as Hy; [done|]. simpl. intros [->|Hin]%elem_of_cons; [done|].
  rewrite IH by done. destruct l; [set_solver|done].
Qed.

(** What an accepted code changes. *)
Lemma check_code_spec r code when r' how :
  check_code r code when = Ok (r', how) ->
  enabled r' = enabled r /\ secret r' = secret r /\ version r' = version r /\
  match how with
  | None => r' = r
  | Some ByTotp =>
      exists s, last_used_step r' = Some s /\ (forall l, last_used_step r = Some l -> l < s) /\
        Z.abs (s - Totp.step_at when) <= Totp.DRIFT_STEPS /\ recovery_codes r' = recovery_codes r
  | Some ByRecovery =>
      last_used_step r' = last_used_step r /\
      exists stored, stored ∈ recovery_codes r /\ recovery_code_matches (strip code) stored = true /\
        recovery_codes r' = remove_first stored (recovery_codes r)
  end.
Proof.
  unfold check_code. destruct (enabled r) eqn:Ee; [|by intros [= <- <-]].
  destruct (secret r) as [[|c sec]|] eqn:Es; try (by intros [= <- <-]).
  destruct (Totp.verify _ _ _ _ _ _) as [[s|]|] eqn:Ev; simpl; [| |done].
  - intros [= <- <-]. apply Totp.verify_step in Ev as (H1 & H2 & _). destruct r; simpl in *. eauto 10.
  - destruct (List.find _ _) as [st|] eqn:Ef; intros [= <- <-]; [|done].
    apply List.find_some in Ef as [Hin Hm]. apply list_elem_of_In in Hin. destruct r; simpl in *. eauto 10.
Qed.

(** Steps only move forward, codes only disappear. *)
Definition step_le (a b : option Z) : Prop :=
  match a, b with None, _ => True | Some x, Some y => x <= y | Some _, None => False end.

Lemma step_le_trans a b c : step_le a b -> step_le b c -> step_le a c.
Proof. destruct a, b, c; simpl; try done; lia. Qed.

(** The steps of the accepted app codes, in order. *)
Definition steps_of (log : list (factor * pystr * option Z)) : list Z :=
  omap (fun e => match e with (ByTotp, _, s) => s | _ => None end) log.

Inductive increasing : list Z -> Prop :=
| increasing_nil : increasing []
| increasing_cons x l : (forall y, y ∈ l -> x < y) -> increasing l -> increasing (x :: l).

Definition count_recovery (log : list (factor * pystr * option Z)) : nat :=
  length (List.filter (fun e => match e with (ByRecovery, _, _) => true | _ => false end) log).

Lemma accepts_spec r log r' :
  accepts r log r' ->
  step_le (last_used_step r) (last_used_step r') /\
  (count_recovery log + length (recovery_codes r') <= length (recovery_codes r))%nat /\
  (forall s, s ∈ steps_of log -> (forall l, last_used_step r = Some l -> l < s)) /\ increasing (steps_of log).
Proof.
  assert (forall o, step_le o o) as Hrefl by (intros []; simpl; lia).
  induction 1 as [r|r code when r1 how log r2 Hc _ IH|r code when r1 log r2 Hc _ IH].
  - split_and!; [apply Hrefl|done|set_solver|constructor].
  - apply check_code_spec in Hc as (_ & _ & _ & Hhow). destruct IH as (IH1 & IH2 & IH3 & IH4). destruct how.
    + destruct Hhow as (s & Es & Hs & _ & Erc). rewrite Erc in IH2. rewrite Es in *.
      assert (steps_of ((ByTotp, strip code, Some s) :: log) = s :: steps_of log) as -> by done.
      split_and!; [|done| |constructor; [|done]].
      * eapply step_le_trans; [|exact IH1]. destruct (last_used_step r) as [l|]; [|done].
        specialize (Hs l eq_refl). simpl. lia.
      * intros s' [->|Hin]%elem_of_cons l Hl; [auto|]. specialize (IH3 s' Hin s eq_refl). specialize (Hs l Hl). lia.
      * intros y Hy. by apply IH3.
    + destruct Hhow as (Es & st & Hin & _ & Erc). rewrite Es in *. split_and!; [done| |done|done].
      unfold count_recovery in *. simpl. rewrite Erc, remove_first_length in IH2 by done.
      assert (0 < length (recovery_codes r))%nat; [|lia]. destruct (recovery_codes r); [set_solver|simpl; lia].
  - apply check_code_spec in Hc as (_ & _ & _ & ->). exact IH.
Qed.
End Codes.
End Mfa.

(** ** Web sessions *)
Module Sessions.
Definition _SEEN_RESOLUTION : Z := 60 * second.

Record session : Type := Session { user_id : Z; created_at : Z; last_seen_at : Z; expires_at : Z }.
(** [RevokedToken]: kept until the token would have expired anyway. *)
Record revoked_token : Type := RevokedToken { r_user : Z; r_expires : Z }.
(** The two tables, by token id. *)
Record db : Type := Db { sessions : gmap pystr session; revoked : gmap pystr revoked_token }.

(** [open_session]; [exp] is the token's expiry.  Sessions past theirs are pruned. *)
Definition open_session (jti : pystr) (uid exp now : Z) (d : db) : db :=
  {| sessions := <[jti := Session uid now now exp]> (filter (fun kv => now <= expires_at (snd kv)) (sessions d));
     revoked := revoked d |}.

(** A token revoked, unless it is already. *)
Definition revoke (jti : pystr) (uid exp : Z) (d : db) : db :=
  match revoked d !! jti with
  | Some _ => d
  | None => {| sessions := sessions d; revoked := <[jti := RevokedToken uid exp]> (revoked d) |}
  end.

(** [touch]: the tables after, and whether the session goes on ([false] is the 401). *)
Definition touch (idle_minutes : Z) (jti : option pystr) (uid exp now : Z) (d : db) : db * bool :=
  match jti with
  | None => (d, true)
  | Some j =>
      match sessions d !! j with
      | None => ({| sessions := <[j := Session uid now now exp]> (sessions d); revoked := revoked d |}, true)
      | Some s =>
          if idle_minutes * minute <? now - last_seen_at s
          then (revoke j uid (expires_at s) d, false)
          else if _SEEN_RESOLUTION <=? now - last_seen_at s
          then ({| sessions := <[j := s {{ last_seen_at := now }}]> (sessions d); revoked := revoked d |}, true)
          else (d, true)
      end
  end.

(** Requests of one session at the given times, as long as they are answered. *)
Fixpoint uses (idle : Z) (j : pystr) (uid exp : Z) (times : list Z) (d : db) : option db :=
  match times with
  | [] => Some d
  | t :: ts => let '(d', ok) := touch idle (Some j) uid exp t d in if ok then uses idle j uid exp ts d' else None
  end.

(** The last use lies at most the resolution after what the table says. *)
Definition seen_within (j : pystr) (last : Z) (d : db) : Prop :=
  exists s, sessions d !! j = Some s /\ last_seen_at s <= last < last_seen_at s + _SEEN_RESOLUTION.

Lemma touch_seen idle j uid exp now d :
  (forall s, sessions d !! j = Some s -> last_seen_at s <= now) ->
  snd (touch idle (Some j) uid exp now d) = true -> seen_within j now (fst (touch idle (Some j) uid exp now d)).
Proof.
  intros Hle. unfold touch, seen_within. destruct (sessions d !! j) as [s|] eqn:Es.
  - specialize (Hle s eq_refl). destruct (_ <? _); [done|]. intros _.
    destruct (Z.leb_spec _SEEN_RESOLUTION (now - last_seen_at s)); simpl.
    + exists (s {{ last_seen_at := now }}). rewrite lookup_insert_eq. split; [done|]. destruct s; simpl in *.
      unfold _SEEN_RESOLUTION, second. lia.
    + exists s. rewrite Es. split; [done|lia].
  - intros _. simpl. exists (Session uid now now exp). rewrite lookup_insert_eq. split; [done|]. simpl.
    unfold _SEEN_RESOLUTION, second. lia.
Qed.

Lemma touch_decides idle j uid exp now last d :
  seen_within j last d ->
  (snd (touch idle (Some j) uid exp now d) = true -> now - last <= idle * minute) /\
  (now - last <= idle * minute - _SEEN_RESOLUTION -> snd (touch idle (Some j) uid exp now d) = true) /\
  (snd (touch idle (Some j) uid exp now d) = false -> is_Some (revoked (fst (touch idle (Some j) uid exp now d)) !! j)).
Proof.
  intros (s & Es & Hs). unfold touch. rewrite Es.
  destruct (Z.ltb_spec (idle * minute) (now - last_seen_at s)); [|case_match]; simpl; split_and!; try done; try lia.
  intros _. unfold revoke. destruct (revoked d !! j) eqn:Er; simpl; [by rewrite Er|by rewrite lookup_insert_eq].
Qed.
End Sessions.

(** ** API keys *)
Module ApiKeys.
Definition PREFIX : pystr := py "ngk_".
Definition KEY_ID_LENGTH : Z := 10.
Definition TOUCH_SECONDS : Z := 60.

(** [is_api_key], [token_of] *)
Definition is_api_key (token : pystr) : bool := negb (bool_decide (token = [])) && is_prefix PREFIX token.
Definition token_of (key_id secret : pystr) : pystr := PREFIX ++ key_id ++ "_"%char :: secret.

(** [parse] *)
Definition parse (token : pystr) : option (pystr * pystr) :=
  if negb (is_api_key token) then None
  else
    match partition1 "_"%char (drop (length PREFIX) token) with
    | (key_id, Some secret) =>
        if negb (Z.of_nat (length key_id) =? KEY_ID_LENGTH) || bool_decide (secret = []) ||
           (200 <? Z.of_nat (length secret)) then None
        else Some (key_id, secret)
    | (_, None) => None
    end.

Record key : Type := Key {
  secret_hash : pystr;
  revoked_at : option Z;
  expires_at : Z;
  user_id : Z;
  allowed_ips : list pystr;
  last_used_at : option Z;
  last_used_ip : option pystr
}.
Record account : Type := Account { is_active : bool; from_api_key : bool }.

Inductive refusal : Type := Invalid | KeyExpired | AddressNotAllowed.

Section Auth.
(** SHA-256 in hexadecimal, and membership of an address in a network
    ([None]: the address does not parse). *)
Variable hash_secret : pystr -> pystr.
Variable parse_ip : pystr -> option Z.
Variable in_network : Z -> pystr -> bool.

(** [ip_allowed] *)
Definition ip_allowed (ip : option pystr) (allowed : list pystr) : bool :=
  match allowed with
  | [] => true
  | _ => match parse_ip (default [] ip) with
         | None => false
         | Some addr => existsb (in_network addr) allowed
         end
  end.

(** [authenticate]: the key row after (last use noted), and the account. *)
Definition authenticate (keys : gmap pystr key) (users : gmap Z account)
    (token : pystr) (ip : option pystr) (now : Z) : res refusal (gmap pystr key * Z) :=
  match parse token with
  | None => Raise Invalid
  | Some (key_id, secret) =>
      let k := keys !! key_id in
      let expected := match k with Some k => secret_hash k | None => replicate 64 zero_char end in
      match bool_decide (expected = hash_secret secret), k with
      | true, Some k =>
          if negb (is_none (revoked_at k)) then Raise Invalid
          else if expires_at k <=? now then Raise KeyExpired
          else
            match users !! user_id k with
            | Some u =>
                if negb (is_active u) || negb (from_api_key u) then Raise Invalid
                else if negb (ip_allowed ip (allowed_ips k)) then Raise AddressNotAllowed
                else
                  let stale := match last_used_at k with
                               | None => true
                               | Some t => t <? now - TOUCH_SECONDS * second
                               end in
                  let keys' := if stale || negb (bool_decide (last_used_ip k = ip))
                               then <[key_id := k {{ last_used_at := Some now; last_used_ip := ip }}]> keys
                               else keys in
                  Ok (keys', user_id k)
            | None => Raise Invalid
            end
      | _, _ => Raise Invalid
      end
  end.
End Auth.
End ApiKeys.

(** ** Rate limits *)
Module RateLimits.
Definition WINDOW_MINUTES : Z := 15.
Definition MAX_FAILURES_PER_IP : Z := 5.
Definition MAX_FAILURES_PER_USERNAME : Z := 10.

Record login : Type := Login { l_success : bool; l_time : Z; l_ip : pystr; l_user : pystr }.
Inductive limited : Type := ByAddress | ByAccount | Concurrent | Hourly | Daily.

Definition count {A} (p : A -> bool) (l : list A) : Z := Z.of_nat (length (List.filter p l)).

(** [check_login_rate_limit] *)
Definition check_login_rate_limit (logins : list login) (ip user : pystr) (now : Z) : res limited unit :=
  let recent l := negb (l_success l) && (now - WINDOW_MINUTES * minute <=? l_time l) in
  check bool_decide (ip = []) ||
        (count (fun l => recent l && bool_decide (l_ip l = ip)) logins <? MAX_FAILURES_PER_IP) else ByAddress in
  check bool_decide (user = []) ||
        (count (fun l => recent l && bool_decide (l_user l = user)) logins <? MAX_FAILURES_PER_USERNAME) else ByAccount in
  Ok tt.

Definition MAX_RESET_REQUESTS_PER_IP : Z := 5.
Definition MAX_RESET_REQUESTS_PER_EMAIL : Z := 3.
Record reset : Type := Reset { r_time : Z; r_ip : pystr; r_email : option pystr }.

(** [check_password_reset_rate_limit]; [r_email] is the address of the token's
    user, when there is one. *)
Definition check_password_reset_rate_limit (resets : list reset) (ip email : pystr) (now : Z) : res limited unit :=
  let recent r := now - WINDOW_MINUTES * minute <=? r_time r in
  check bool_decide (ip = []) ||
        (count (fun r => recent r && bool_decide (r_ip r = ip)) resets <? MAX_RESET_REQUESTS_PER_IP) else ByAddress in
  check bool_decide (email = []) ||
        (count (fun r => recent r && bool_decide (r_email r = Some email)) resets <? MAX_RESET_REQUESTS_PER_EMAIL)
    else ByAccount in
  Ok tt.

(** A scan or audit session: whose, running or not, when it started. *)
Record job : Type := Job { j_user : Z; j_running : bool; j_started : option Z }.
Definition started_after (t : Z) (j : job) : bool := match j_started j with Some s => t <? s | None => false end.
Definition running_of (user : Z) (jobs : list job) : Z := count (fun j => (j_user j =? user) && j_running j) jobs.
Definition started_of (user t : Z) (jobs : list job) : Z := count (fun j => (j_user j =? user) && started_after t j) jobs.

Definition MAX_CONCURRENT_SCANS : Z := 10.
Definition MAX_SCANS_PER_HOUR : Z := 40.
(** [RateLimiter.check_scan_limit] *)
Definition check_scan_limit (jobs : list job) (user now : Z) : res limited bool :=
  check running_of user jobs <? MAX_CONCURRENT_SCANS else Concurrent in
  check started_of user (now - hour) jobs <? MAX_SCANS_PER_HOUR else Hourly in
  Ok true.

Record audit_limits : Type := AuditLimits {
  MAX_CONCURRENT_AUDITS : Z; MAX_AUDITS_PER_HOUR : Z; MAX_AUDITS_PER_DAY : Z }.
Definition default_limits : audit_limits := AuditLimits 5 20 100.
(** [AuditRateLimiter.configure] *)
Definition configure (concurrent hourly daily : option Z) (l : audit_limits) : audit_limits :=
  AuditLimits (default (MAX_CONCURRENT_AUDITS l) concurrent) (default (MAX_AUDITS_PER_HOUR l) hourly)
    (default (MAX_AUDITS_PER_DAY l) daily).
(** [AuditRateLimiter.check_audit_limit] *)
Definition check_audit_limit (l : audit_limits) (jobs : list job) (user now : Z) : res limited bool :=
  check running_of user jobs <? MAX_CONCURRENT_AUDITS l else Concurrent in
  check started_of user (now - hour) jobs <? MAX_AUDITS_PER_HOUR l else Hourly in
  check started_of user (now - day) jobs <? MAX_AUDITS_PER_DAY l else Daily in
  Ok true.

(** Starting a job: the check, then the row. *)
Definition start_audit (l : audit_limits) (jobs : list job) (user now : Z) : res limited (list job) :=
  let! _ := check_audit_limit l jobs user now in Ok (Job user true (Some now) :: jobs).
End RateLimits.

(** ** Properties *)

(** A typed code is accepted exactly for a step at most one away from now and newer than the last one used, whose
    HOTP value it is; nothing else is accepted.  Six superscript digits, which Python counts as
    digits, are not refused: the comparison raises. *)
Theorem totp_verify_cases hmac key secret code last when :
  (forall s, Totp.verify hmac key secret code last when = Ok (Some s) ->
     Z.abs (s - Totp.step_at when) <= Totp.DRIFT_STEPS /\ (forall l, last = Some l -> l < s) /\
     Totp.hotp hmac (key secret) s = Totp.cleaned code) /\
  (forall s, Z.abs (s - Totp.step_at when) <= Totp.DRIFT_STEPS -> (forall l, last = Some l -> l < s) ->
     Totp.hotp hmac (key secret) s = Totp.cleaned code -> length (Totp.cleaned code) = Totp.DIGITS ->
     exists s', Totp.verify hmac key secret code last when = Ok (Some s')) /\
  (last = None -> Totp.verify hmac key secret (replicate 6 (chr 178)) last when = Raise Totp.NonAscii).
Proof.
  split_and!.
  - intros s Hs. apply Totp.verify_step in Hs as (? & ? & ? & _). auto.
  - intros s Hd Hl Hh Hlen. rewrite Totp.verify_spec. cbv zeta. rewrite Hlen. cbn [negb Nat.eqb Totp.DIGITS orb].
    assert (forallb is_digit (Totp.cleaned code) = true) as Hdig by (rewrite <- Hh; apply Totp.hotp_digits).
    assert (forallb py_isdigit (Totp.cleaned code) = true) as ->.
    { rewrite forallb_forall in *. intros x Hx. unfold py_isdigit. by rewrite (Hdig x Hx). }
    assert (s ∈ Totp.candidates last when) as Hin.
    { unfold Totp.candidates. apply list_elem_of_In, List.filter_In. split.
      - unfold Totp.DRIFT_STEPS in *. simpl. lia.
      - destruct last as [l|]; [|done]. specialize (Hl l eq_refl). apply negb_true_iff, Z.leb_gt. lia. }
    cbn [negb]. destruct (Totp.candidates last when) as [|c cs] eqn:E; [set_solver|]. rewrite <- E in *.
    rewrite <- Hh, Totp.hotp_ascii. destruct (List.find _ _) as [s'|] eqn:Ef; [eauto|].
    apply list_elem_of_In in Hin. pose proof (List.find_none _ _ Ef s Hin) as Hn.
    cbv beta in Hn. by rewrite bool_decide_eq_true_2 in Hn.
  - intros ->. rewrite Totp.verify_spec. cbv zeta.
    assert (Totp.cleaned (replicate 6 (chr 178)) = replicate 6 (chr 178)) as -> by (vm_compute; reflexivity).
    assert (Totp.is_ascii (replicate 6 (chr 178)) = false) as -> by (vm_compute; reflexivity). done.
Qed.

(** No code works twice: over any sequence of sign-in attempts of a user the steps of the accepted app codes strictly
    increase, beyond the last one used before, and each acceptance of a recovery code uses one up. *)
Theorem codes_used_once hmac key matches r log r' :
  Mfa.accepts hmac key matches r log r' ->
  Mfa.increasing (Mfa.steps_of log) /\
  (forall s l, s ∈ Mfa.steps_of log -> Mfa.last_used_step r = Some l -> l < s) /\
  (Mfa.count_recovery log + length (Mfa.recovery_codes r') <= length (Mfa.recovery_codes r))%nat.
Proof.
  intros (_ & Hc & Hs & Hi)%Mfa.accepts_spec. split_and!; [done| |done]. intros s l Hin Hl. by apply (Hs s Hin l).
Qed.

Lemma codes_used_once_witness :
  (length (Mfa.recovery_codes (Mfa.Row true (Some (py "S")) None None [] 1 None None)) <= 1)%nat.
Proof.
  pose (r := Mfa.Row true (Some (py "S")) None None [py "h1"] 1 None None).
  assert (Mfa.accepts (fun _ _ => replicate 20 0) (fun _ => []) (fun c h => bool_decide (c = py "7KQ2-M9XD"))
            r [(Mfa.ByRecovery, py "7KQ2-M9XD", None)] (Mfa.Row true (Some (py "S")) None None [] 1 None None)) as H.
  { pose proof (Mfa.accepts_step (fun _ _ => replicate 20 0) (fun _ => []) (fun c h => bool_decide (c = py "7KQ2-M9XD"))
      r (py "7KQ2-M9XD") 0 (Mfa.Row true (Some (py "S")) None None [] 1 None None) Mfa.ByRecovery []
      (Mfa.Row true (Some (py "S")) None None [] 1 None None)) as Hs.
    assert (strip (py "7KQ2-M9XD") = py "7KQ2-M9XD") as Ec by (vm_compute; reflexivity). rewrite Ec in Hs.
    apply Hs; [vm_compute; reflexivity|apply Mfa.accepts_nil]. }
  apply codes_used_once in H. destruct H as (_ & _ & H). cbn in *. lia.
Defined.

(** The grace period to set up the second factor: the first sign-in of someone whose role requires it fixes one
    deadline, which no later sign-in moves; until it nothing is blocked and from it on nothing else
    is reachable until two-step sign-in is on.  System administrators have no grace at all. *)
Theorem enrolment_grace p who r now later :
  Mfa.is_required p who = true -> (forall x, r = Some x -> Mfa.enabled x = false /\ Mfa.deadline x = None) ->
  let r1 := Mfa.start_grace p who r now in
  Mfa.start_grace p who r1 later = r1 /\
  forall t, now <= t -> Mfa.enrolment_due p who r1 t = Mfa.mem_role who [Mfa.Admin] || (now + Mfa.grace_days p * day <=? t).
Proof.
  intros Hreq Hr r1. unfold r1, Mfa.start_grace, Mfa.enrolment_due. rewrite Hreq. simpl.
  assert (exists x, (match r with Some x => x | None => Mfa.new_row end) = x /\ Mfa.enabled x = false /\ Mfa.deadline x = None)
    as (x & -> & He & Hd).
  { destruct r as [x|]; [exists x; split; [done|by apply Hr]|by exists Mfa.new_row]. }
  rewrite He, Hd. destruct x as [en sec pend lus rc ver dl ea]. simpl in *. subst en dl. simpl.
  split; [done|]. intros t Ht. destruct (Mfa.role_eq_dec who Mfa.Admin) as [->|Ea]; [done|].
  rewrite bool_decide_eq_false_2 by done. simpl.
  assert (bool_decide (Mfa.Admin = who) = false) as -> by (by apply bool_decide_eq_false_2; intros <-). simpl.
  destruct (Z.eqb_spec (Mfa.grace_days p) 0) as [->|E]; [|done]. symmetry. apply Z.leb_le. unfold day. lia.
Qed.

Lemma enrolment_grace_witness :
  Mfa.enrolment_due (Mfa.get_policy None None) Mfa.Manager
    (Mfa.start_grace (Mfa.get_policy None None) Mfa.Manager None 0) (8 * day) = true.
Proof.
  destruct (enrolment_grace (Mfa.get_policy None None) Mfa.Manager None 0 day) as [_ H].
  - reflexivity.
  - discriminate.
  - rewrite H by (vm_compute; discriminate). vm_compute. reflexivity.
Defined.

(** The idle timeout, to the minute the use is recorded in: a session unused for longer than the limit is ended and its
    token revoked at the next request, and a session last used less than the limit minus one minute
    ago is never ended. *)
Theorem session_idle_bounds idle j uid exp now last d :
  Sessions.seen_within j last d ->
  let '(d', ok) := Sessions.touch idle (Some j) uid exp now d in
  (idle * minute < now - last -> ok = false /\ is_Some (Sessions.revoked d' !! j)) /\
  (now - last <= idle * minute - Sessions._SEEN_RESOLUTION -> ok = true) /\
  (ok = true -> last <= now -> Sessions.seen_within j now d').
Proof.
  intros Hs. pose proof (Sessions.touch_decides idle j uid exp now last d Hs) as (H1 & H2 & H3).
  pose proof (Sessions.touch_seen idle j uid exp now d) as H4.
  destruct (Sessions.touch idle (Some j) uid exp now d) as [d' ok]. simpl in *. split_and!.
  - intros Hi. destruct ok; [specialize (H1 eq_refl); lia|auto].
  - done.
  - intros Hok Hle. apply H4; [|done]. intros s Es. destruct Hs as (s' & Es' & ?). simplify_eq. lia.
Qed.

Lemma session_idle_bounds_witness :
  snd (Sessions.touch 30 (Some (py "j")) 1 0 (31 * minute)
         (fst (Sessions.touch 30 (Some (py "j")) 1 0 0 (Sessions.Db ∅ ∅)))) = false.
Proof.
  pose proof (session_idle_bounds 30 (py "j") 1 0 (31 * minute) 0
    (fst (Sessions.touch 30 (Some (py "j")) 1 0 0 (Sessions.Db ∅ ∅)))) as H.
  assert (Sessions.seen_within (py "j") 0 (fst (Sessions.touch 30 (Some (py "j")) 1 0 0 (Sessions.Db ∅ ∅)))) as Hs.
  { exists (Sessions.Session 1 0 0 0). split; [vm_compute; reflexivity|]. split; vm_compute; congruence. }
  specialize (H Hs). destruct (Sessions.touch 30 (Some (py "j")) 1 0 (31 * minute) _) as [d' ok].
  destruct H as [H _]. apply H. vm_compute. reflexivity.
Defined.

(** An API key request is answered as the key's account exactly when the token has the documented form, its id exists, the
    hash of its secret matches, it is neither revoked nor expired, its account is an active service
    account and the address is allowed. *)
Theorem api_key_accepted hash parse_ip in_net keys users token ip now u :
  (exists keys', ApiKeys.authenticate hash parse_ip in_net keys users token ip now = Ok (keys', u)) <->
  exists key_id secret k a,
    ApiKeys.parse token = Some (key_id, secret) /\ keys !! key_id = Some k /\
    ApiKeys.secret_hash k = hash secret /\ ApiKeys.revoked_at k = None /\ now < ApiKeys.expires_at k /\
    ApiKeys.user_id k = u /\ users !! u = Some a /\ ApiKeys.is_active a = true /\ ApiKeys.from_api_key a = true /\
    ApiKeys.ip_allowed parse_ip in_net ip (ApiKeys.allowed_ips k) = true.
Proof.
  unfold ApiKeys.authenticate. split.
  - intros [keys' Hk]. destruct (ApiKeys.parse token) as [[id sec]|]; [|done].
    destruct (keys !! id) as [k|] eqn:Ek; [|by case_bool_decide].
    case_bool_decide as Eh; [|done]. destruct (ApiKeys.revoked_at k) eqn:Er; [done|]. simpl in Hk.
    destruct (Z.leb_spec (ApiKeys.expires_at k) now); [done|].
    destruct (users !! ApiKeys.user_id k) as [a|] eqn:Ea; [|done].
    destruct (negb (ApiKeys.is_active a) || _) eqn:E1; [done|].
    destruct (negb (ApiKeys.ip_allowed _ _ _ _)) eqn:E2; [done|]. injection Hk as _ <-. bool_prop.
    exists id, sec, k, a. split_and!; done.
  - intros (id & sec & k & a & -> & -> & Eh & Er & He & Eu & Ea & Hact & Hk & Hip).
    rewrite bool_decide_eq_true_2 by done. rewrite Er. simpl. rewrite (proj2 (Z.leb_gt _ _)) by done.
    rewrite Eu, Ea, Hact, Hk, Hip. simpl. eauto.
Qed.
