(* ===== verification/Scheduling.v ===== *)
(** * Scheduling: recurrence, jobs and the scheduler
    (src/app/modules/scheduling/recurrence.py, service.py, scheduler.py,
    src/app/models/scheduling.py)

    A naive UTC datetime is an integer of microseconds since 1970-01-01, a
    Thursday; the calendar's last year is not modelled.  The jobs table maps
    ids to rows, and a process is the list of rows it has read and not yet
    tried to claim. *)
From S2P Require Import Prelude PyStr Json LicenseState AssetEntitlement.

(** ** When a job fires *)
Module Recurrence.
Inductive recurrence : Type := Once | Hourly | Daily | Weekly | Unknown (name : pystr).
#[global] Instance recurrence_eq_dec : EqDecision recurrence.
Proof. solve_decision. Defined.

Inductive time_error : Type := OutOfRange | UnknownRecurrence.

(** [datetime.replace] of the time of day, of the minute, and [weekday]. *)
Definition replace_time (h m now : Z) : res time_error Z :=
  check (0 <=? h) && (h <? 24) && (0 <=? m) && (m <? 60) else OutOfRange in
  Ok (now - now mod day + h * hour + m * minute).
Definition replace_minute (m now : Z) : res time_error Z :=
  check (0 <=? m) && (m <? 60) else OutOfRange in
  Ok (now - now mod hour + m * minute).
Definition weekday (t : Z) : Z := (t / day + 3) mod 7.

(** [compute_next_run_at] *)
Definition compute_next_run_at (r : recurrence) (h : option Z) (m : Z) (dow : option Z) (now : Z) : res time_error Z :=
  match r with
  | Hourly =>
      let! c := replace_minute m now in
      Ok (if c <=? now then c + hour else c)
  | Daily | Once =>
      let! c := replace_time (or_zero h) m now in
      Ok (if c <=? now then c + day else c)
  | Weekly =>
      let! c := replace_time (or_zero h) m now in
      let c := c + (or_zero dow - weekday c) mod 7 * day in
      Ok (if c <=? now then c + 7 * day else c)
  | Unknown _ => Raise UnknownRecurrence
  end.

(** What the fields of a job describe: the times it fires at. *)
Definition fires (r : recurrence) (h : option Z) (m : Z) (dow : option Z) (t : Z) : Prop :=
  match r with
  | Hourly => t mod hour = m * minute
  | Daily | Once => t mod day = or_zero h * hour + m * minute
  | Weekly => t mod day = or_zero h * hour + m * minute /\ (weekday t - or_zero dow) mod 7 = 0
  | Unknown _ => False
  end.

(** The fields make sense. *)
Definition well_timed (r : recurrence) (h : option Z) (m : Z) : bool :=
  (0 <=? m) && (m <? 60) &&
  match r with Unknown _ => false | Hourly => true | _ => (0 <=? or_zero h) && (or_zero h <? 24) end.

Lemma day_pos : 0 < day. Proof. done. Qed.
Lemma hour_pos : 0 < hour. Proof. done. Qed.

(** The least number after [now] of a residue class. *)
Lemma next_in_class p k now :
  0 < p -> 0 <= k < p ->
  let c := now - now mod p + k in
  let t := if c <=? now then c + p else c in
  t mod p = k /\ now < t /\ forall t', now < t' -> t' mod p = k -> t <= t'.
Proof.
  intros Hp Hk. cbv zeta. pose proof (Z.mod_pos_bound now p Hp) as Hn. pose proof (Z.div_mod now p ltac:(lia)) as Hd.
  set (q := now / p) in *. set (a := now mod p) in *.
  assert (forall j, (p * j + k) mod p = k) as Hm.
  { intros j. rewrite Z.add_comm, (Z.mul_comm p j), Z.mod_add by lia. apply Z.mod_small. lia. }
  assert (forall t', t' mod p = k -> exists j, t' = p * j + k) as Hinv.
  { intros t' Ht. exists (t' / p). pose proof (Z.div_mod t' p ltac:(lia)). lia. }
  destruct (Z.leb_spec (now - a + k) now).
  - split_and!; [|lia|].
    + replace (now - a + k + p) with (p * (q + 1) + k) by lia. apply Hm.
    + intros t' Ht (j & ->)%Hinv. assert (q + 1 <= j) by nia. nia.
  - split_and!; [|lia|].
    + replace (now - a + k) with (p * q + k) by lia. apply Hm.
    + intros t' Ht (j & ->)%Hinv. assert (q <= j) by nia. nia.
Qed.

Lemma compute_next_ok r h m dow now :
  well_timed r h m = true -> exists t, compute_next_run_at r h m dow now = Ok t.
Proof.
  unfold well_timed, compute_next_run_at, replace_minute, replace_time. intros Hw.
  destruct r; rewrite ?andb_true_iff in Hw; destruct Hw as [[H1 H2] H3]; rewrite ?andb_true_iff in H3; try done;
    try destruct H3 as [H3 H4]; rewrite ?H1, ?H2, ?H3, ?H4; simpl; eauto.
Qed.

Lemma replace_time_ok h m now c :
  replace_time h m now = Ok c -> c = now - now mod day + (h * hour + m * minute) /\ 0 <= h * hour + m * minute < day.
Proof.
  unfold replace_time. destruct (_ && _) eqn:E; [|done]. bool_prop. intros [= <-].
  unfold day, hour, minute, second. lia.
Qed.

Lemma replace_minute_ok m now c :
  replace_minute m now = Ok c -> c = now - now mod hour + m * minute /\ 0 <= m * minute < hour.
Proof.
  unfold replace_minute. destruct (_ && _) eqn:E; [|done]. bool_prop. intros [= <-].
  unfold hour, minute, second. lia.
Qed.

(** A time of the week as one residue class of the week's length; the weeks
    start where the epoch's did, on Thursdays. *)
Lemma weekly_class k dow t :
  0 <= k < day ->
  (t mod day = k /\ (weekday t - dow) mod 7 = 0) <-> t mod (7 * day) = (dow - 3) mod 7 * day + k.
Proof.
  intros Hk. pose proof day_pos as Hp. unfold weekday.
  rewrite (Z.mul_comm 7 day), Z.rem_mul_r by lia.
  pose proof (Z.mod_pos_bound t day Hp) as Ha. pose proof (Z.mod_pos_bound (t / day) 7 ltac:(lia)) as Hb.
  pose proof (Z.mod_pos_bound (dow - 3) 7 ltac:(lia)) as Hc.
  assert ((((t / day + 3) mod 7 - dow) mod 7 = 0) <-> (t / day) mod 7 = (dow - 3) mod 7) as ->.
  { Z.div_mod_to_equations. lia. }
  set (a := t mod day) in *. set (b := (t / day) mod 7) in *. set (c := (dow - 3) mod 7) in *.
  split; [intros [-> ->]; lia|]. intros E. assert (b = c) by nia. nia.
Qed.

(** One period after now there is no earlier member of the class. *)
Lemma class_least p k now t :
  0 < p -> t mod p = k -> now < t <= now + p -> forall t', now < t' -> t' mod p = k -> t <= t'.
Proof.
  intros Hp <- Ht t' Ht' E. pose proof (Z.div_mod t p ltac:(lia)). pose proof (Z.div_mod t' p ltac:(lia)).
  assert (t / p <= t' / p); nia.
Qed.

(** The weekly candidate: in the week's class, less than a day before now and
    less than a week after. *)
Lemma weekly_candidate k w now :
  0 <= k < day ->
  let c0 := now - now mod day + k in
  let c := c0 + (w - weekday c0) mod 7 * day in
  c mod (7 * day) = (w - 3) mod 7 * day + k /\ now - day < c < now + 7 * day.
Proof.
  intros Hk. cbv zeta. pose proof day_pos as Hp.
  assert (exists q, now - now mod day + k = q * day + k /\ now - now mod day = q * day) as (q & -> & Eq).
  { exists (now / day). pose proof (Z.div_mod now day ltac:(lia)). lia. }
  pose proof (Z.mod_pos_bound now day Hp) as Hn. unfold weekday.
  rewrite Z.div_add_l, (Z.div_small k day), Z.add_0_r by lia.
  pose proof (Z.mod_pos_bound (w - (q + 3) mod 7) 7 ltac:(lia)) as Hb.
  set (e := (w - (q + 3) mod 7) mod 7) in *. split; [|nia].
  replace (q * day + k + e * day) with ((q + e) * day + k) by ring.
  rewrite (Z.mul_comm 7 day), Z.rem_mul_r by lia.
  rewrite Z.div_add_l, (Z.div_small k day), Z.add_0_r by lia.
  rewrite (Z.add_comm ((q + e) * day) k), Z.mod_add, (Z.mod_small k day) by lia.
  assert ((q + e) mod 7 = (w - 3) mod 7) as -> by (unfold e; Z.div_mod_to_equations; lia). lia.
Qed.

(** The next run: the first time after now at which the job fires. *)
Lemma compute_next_least r h m dow now t :
  compute_next_run_at r h m dow now = Ok t ->
  fires r h m dow t /\ now < t /\ forall t', now < t' -> fires r h m dow t' -> t <= t'.
Proof.
  unfold compute_next_run_at, fires. destruct r as [| | | |]; [| | | |done].
  1, 3: destruct (replace_time _ _ _) as [c|] eqn:E; [|done]; apply replace_time_ok in E as [-> Hk]; intros [= <-];
    by apply next_in_class.
  - destruct (replace_minute _ _) as [c|] eqn:E; [|done]. apply replace_minute_ok in E as [-> Hk]. intros [= <-].
    by apply next_in_class.
  - destruct (replace_time _ _ _) as [c0|] eqn:E; [|done]. apply replace_time_ok in E as [-> Hk]. simpl.
    set (k := or_zero h * hour + m * minute) in *. set (w := or_zero dow).
    pose proof (weekly_candidate k w now Hk) as [Hc Hb]. cbv zeta in Hc, Hb.
    set (c := now - now mod day + k + _) in *. intros [= <-]. pose proof day_pos.
    assert (forall t', t' mod day = k /\ (weekday t' - w) mod 7 = 0 <-> t' mod (7 * day) = (w - 3) mod 7 * day + k)
      as Hcl by (intros; by apply weekly_class).
    destruct (Z.leb_spec c now).
    + assert ((c + 7 * day) mod (7 * day) = (w - 3) mod 7 * day + k) as Hc' 
        by (rewrite <- Hc; replace (c + 7 * day) with (c + 1 * (7 * day)) by ring; apply Z.mod_add; lia).
      split; [by apply Hcl|]. split; [lia|]. intros t' Ht Hf. apply Hcl in Hf.
      by apply (class_least (7 * day) ((w - 3) mod 7 * day + k) now); [lia| |lia| |].
    + split; [by apply Hcl|]. split; [lia|]. intros t' Ht Hf. apply Hcl in Hf.
      by apply (class_least (7 * day) ((w - 3) mod 7 * day + k) now); [lia| |lia| |].
Qed.
End Recurrence.

(** ** Jobs *)
Module Jobs.
Import Recurrence.

Inductive job_type : Type := Discovery | Audit | Backup.
#[global] Instance job_type_eq_dec : EqDecision job_type.
Proof. solve_decision. Defined.

(** The stored parameters, a JSON object once decrypted. *)
Abbreviation params := (gmap pystr json).

Record ScheduledJobCreate : Type := CreateBody {
  c_job_name : pystr; c_job_type : job_type;
  c_recurrence : recurrence; c_hour : option Z; c_minute : Z; c_day_of_week : option Z; c_enabled : bool;
  c_target : option pystr; c_scan_type : option pystr; c_ports : option pystr; c_protocol : option pystr;
  c_version_detection : option bool;
  c_technology : option pystr; c_asset_id : option Z; c_audit_params : option params;
  c_group_id : option Z; c_credential_profile_id : option Z; c_concurrency : option Z;
  c_audit_profile : option pystr
}.

Record ScheduledJobUpdate : Type := UpdateBody {
  u_job_name : option pystr; u_recurrence : option recurrence; u_hour : option Z; u_minute : option Z;
  u_day_of_week : option Z; u_enabled : option bool;
  u_target : option pystr; u_scan_type : option pystr; u_ports : option pystr; u_protocol : option pystr;
  u_version_detection : option bool;
  u_audit_params : option params; u_credential_profile_id : option Z; u_concurrency : option Z
}.

Inductive run_status : Type := Success | Failed.

Record ScheduledJob : Type := Job {
  job_name : pystr; type : job_type; technology : option pystr; asset_id : option Z;
  job_params : params; group_id : option Z; credential_profile_id : option Z; concurrency : option Z;
  recurs : recurrence; hour : option Z; minute : Z; day_of_week : option Z;
  enabled : bool; next_run_at : Z;
  last_run_at : option Z; last_run_status : option run_status; last_run_message : option pystr;
  created_by : option Z
}.

Inductive job_error : Type :=
| TargetRequired | BadTechnology | ProfileRequired | AssetRequired | MissingParams (names : list pystr)
| GroupRequired | DayRequired | BadScan | NoTechnology | BadTime (e : time_error).

Definition at_time {A} (r : res time_error A) : res job_error A :=
  match r with Ok a => Ok a | Raise e => Raise (BadTime e) end.

(** Python's [bool] of an optional id and [or] on an optional string. *)
Definition truthy_id (o : option Z) : bool := match o with Some n => negb (n =? 0) | None => false end.
Definition or_str (o : option pystr) (d : pystr) : pystr :=
  match o with Some ((_ :: _) as s) => s | _ => d end.
Definition is_some {A} (o : option A) : bool := negb (is_none o).
Definition jstr (o : option pystr) : json := match o with Some s => JStr s | None => JNull end.

Definition BASE_REQUIRED : list (pystr * list pystr) :=
  let ssh := [py "ssh_username"; py "ssh_password"] in
  [(py "cisco", ssh); (py "fortinet", ssh); (py "linux", ssh); (py "apache", ssh); (py "mongodb", ssh);
   (py "mssql", [py "mssql_username"; py "mssql_password"]);
   (py "windows", [py "windows_username"; py "windows_password"])].

Definition FAMILIES : list pystr := [py "cisco"; py "fortinet"; py "linux"; py "apache"; py "mongodb"].

(** [_discovery_params] *)
Definition _discovery_params (d : ScheduledJobCreate) : params :=
  list_to_map [
    (py "job_name", JStr (c_job_name d)); (py "target", jstr (c_target d));
    (py "scan_type", JStr (or_str (c_scan_type d) (py "well_known_ports")));
    (py "ports", jstr (c_ports d)); (py "protocol", JStr (or_str (c_protocol d) (py "TCP")));
    (py "version_detection", JBool (default false (c_version_detection d)))].

Section Service.
(** The benchmark modules' keys and credential fields, and the checks of
    [ScanRequest(... )] on a discovery job's parameters. *)
Variable benchmarks : list (pystr * list pystr).
Variable ScanRequest : params -> bool.

Definition SUPPORTED_TECHNOLOGIES : list pystr := map fst (BASE_REQUIRED ++ benchmarks).
Definition REQUIRED_PARAMS : gmap pystr (list pystr) := list_to_map (rev benchmarks ++ BASE_REQUIRED).

Definition mem (s : pystr) (l : list pystr) : bool := existsb (fun x => bool_decide (x = s)) l.
Definition missing (tech : pystr) (p : params) : list pystr :=
  List.filter (fun k => is_none (p !! k)) (default [] (REQUIRED_PARAMS !! tech)).

Arguments mem : simpl never.
Arguments missing : simpl never.

(** [_validate_create] *)
Definition _validate_create (d : ScheduledJobCreate) : res job_error unit :=
  let! _ :=
    match c_job_type d with
    | Discovery => check negb (bool_decide (or_str (c_target d) [] = [])) else TargetRequired in Ok tt
    | Audit =>
        let tech := or_str (c_technology d) [] in
        check negb (bool_decide (tech = [])) && mem tech SUPPORTED_TECHNOLOGIES else BadTechnology in
        if truthy_id (c_group_id d) then
          check truthy_id (c_credential_profile_id d) else ProfileRequired in Ok tt
        else
          check truthy_id (c_asset_id d) else AssetRequired in
          let gone := missing tech (default ∅ (c_audit_params d)) in
          check bool_decide (gone = []) else MissingParams gone in Ok tt
    | Backup =>
        check match c_technology d with Some t => mem t FAMILIES | None => false end else BadTechnology in
        check truthy_id (c_group_id d) && truthy_id (c_credential_profile_id d) else GroupRequired in Ok tt
    end in
  check negb (bool_decide (c_recurrence d = Weekly) && is_none (c_day_of_week d)) else DayRequired in
  Ok tt.

(** [SchedulingService.create_job]: the new row. *)
Definition create_job (d : ScheduledJobCreate) (user_id now : Z) : res job_error ScheduledJob :=
  let! _ := _validate_create d in
  let grouped := truthy_id (c_group_id d) in
  let! fields :=
    match c_job_type d with
    | Discovery =>
        let p := _discovery_params d in
        check ScanRequest p else BadScan in Ok (p, None, None)
    | Backup => Ok (∅, c_technology d, None)
    | Audit =>
        if grouped then
          Ok (match c_audit_profile d with Some ((_ :: _) as s) => {[ py "profile" := JStr s ]} | _ => ∅ end,
              c_technology d, None)
        else Ok (default ∅ (c_audit_params d), c_technology d, c_asset_id d)
    end in
  let '(p, tech, asset) := fields in
  let! next := at_time (compute_next_run_at (c_recurrence d) (c_hour d) (c_minute d) (c_day_of_week d) now) in
  Ok {| job_name := c_job_name d; type := c_job_type d; technology := tech; asset_id := asset;
        job_params := p;
        group_id := match c_job_type d with Discovery => None | _ => c_group_id d end;
        credential_profile_id := if grouped then c_credential_profile_id d else None;
        concurrency := if grouped
                       then Some (if truthy_id (c_concurrency d) then or_zero (c_concurrency d) else 10) else None;
        recurs := c_recurrence d; hour := c_hour d; minute := c_minute d; day_of_week := c_day_of_week d;
        enabled := c_enabled d; next_run_at := next;
        last_run_at := None; last_run_status := None; last_run_message := None; created_by := Some user_id |}.

Definition schedule_changed (d : ScheduledJobUpdate) : bool :=
  is_some (u_recurrence d) || is_some (u_hour d) || is_some (u_minute d) || is_some (u_day_of_week d).

Definition set_key (k : pystr) (o : option json) (p : params) : params :=
  match o with Some v => <[k := v]> p | None => p end.

(** The merged parameters of a discovery job. *)
Definition merged_scan (d : ScheduledJobUpdate) (name : pystr) (p : params) : params :=
  <[py "job_name" := JStr name]>
    (set_key (py "version_detection") (JBool <$> u_version_detection d)
      (set_key (py "protocol") (JStr <$> u_protocol d)
        (set_key (py "ports") (JStr <$> u_ports d)
          (set_key (py "scan_type") (JStr <$> u_scan_type d)
            (set_key (py "target") (JStr <$> u_target d) p))))).

(** The four blocks of [update_job]: the plain fields, the parameters of a
    discovery job, those of an audit, the next run. *)
Definition update_fields (d : ScheduledJobUpdate) (j : ScheduledJob) : ScheduledJob :=
  let j := j {{ job_name := default (job_name j) (u_job_name d) }} in
  let j := j {{ enabled := default (enabled j) (u_enabled d) }} in
  let j := j {{ recurs := default (recurs j) (u_recurrence d) }} in
  let j := j {{ hour := match u_hour d with Some h => Some h | None => hour j end }} in
  let j := j {{ minute := default (minute j) (u_minute d) }} in
  j {{ day_of_week := match u_day_of_week d with Some w => Some w | None => day_of_week j end }}.

Definition update_scan (d : ScheduledJobUpdate) (j : ScheduledJob) : res job_error ScheduledJob :=
  if bool_decide (type j = Discovery) &&
     (is_some (u_target d) || is_some (u_scan_type d) || is_some (u_ports d) || is_some (u_protocol d) ||
      is_some (u_version_detection d))
  then
    let current := merged_scan d (job_name j) (job_params j) in
    check ScanRequest current else BadScan in Ok (j {{ job_params := current }})
  else Ok j.

Definition update_audit (d : ScheduledJobUpdate) (j : ScheduledJob) : res job_error ScheduledJob :=
  if truthy_id (group_id j) then
    let j := j {{ credential_profile_id := match u_credential_profile_id d with
                                           | Some p => Some p | None => credential_profile_id j end }} in
    Ok (j {{ concurrency := match u_concurrency d with Some c => Some c | None => concurrency j end }})
  else
    match type j, u_audit_params d with
    | Audit, Some changes =>
        let current := changes ∪ job_params j in
        match technology j with
        | None => Raise NoTechnology
        | Some tech =>
            let gone := missing tech current in
            check bool_decide (gone = []) else MissingParams gone in Ok (j {{ job_params := current }})
        end
    | _, _ => Ok j
    end.

Definition reschedule (d : ScheduledJobUpdate) (now : Z) (j : ScheduledJob) : res job_error ScheduledJob :=
  if schedule_changed d then
    let! next := at_time (compute_next_run_at (recurs j) (hour j) (minute j) (day_of_week j) now) in
    Ok (j {{ next_run_at := next }})
  else Ok j.

(** [SchedulingService.update_job]: the row after; an error rolls back. *)
Definition update_job (d : ScheduledJobUpdate) (j : ScheduledJob) (now : Z) : res job_error ScheduledJob :=
  let j := update_fields d j in
  check negb (bool_decide (recurs j = Weekly) && is_none (day_of_week j)) else DayRequired in
  let! j := update_scan d j in
  let! j := update_audit d j in
  reschedule d now j.

(** [due_jobs] *)
Definition due (now : Z) (j : ScheduledJob) : bool := enabled j && (next_run_at j <=? now).
Definition due_jobs (jobs : gmap Z ScheduledJob) (now : Z) : list (Z * ScheduledJob) :=
  map_to_list (filter (fun kv => due now (snd kv) = true) jobs).

(** One turn of the loop of [claim_due_jobs]: the conditional UPDATE, and
    whether it changed the row. *)
Definition claim_one (now id : Z) (job : ScheduledJob) (jobs : gmap Z ScheduledJob)
    : res job_error (gmap Z ScheduledJob * bool) :=
  let! values :=
    if bool_decide (recurs job = Once) then Ok None
    else
      let! next := at_time (compute_next_run_at (recurs job) (hour job) (minute job) (day_of_week job) now) in
      Ok (Some next) in
  match jobs !! id with
  | Some row =>
      if enabled row && (next_run_at row =? next_run_at job) then
        Ok (<[id := match values with
                    | None => row {{ enabled := false }}
                    | Some next => row {{ next_run_at := next }}
                    end]> jobs, true)
      else Ok (jobs, false)
  | None => Ok (jobs, false)
  end.

Fixpoint claim_all (now : Z) (todo : list (Z * ScheduledJob)) (jobs : gmap Z ScheduledJob)
    : res job_error (gmap Z ScheduledJob * list Z) :=
  match todo with
  | [] => Ok (jobs, [])
  | (id, job) :: rest =>
      let! (jobs, ok) := claim_one now id job jobs in
      let! (jobs, claimed) := claim_all now rest jobs in
      Ok (jobs, if ok : bool then id :: claimed else claimed)
  end.

(** [SchedulingService.claim_due_jobs], undisturbed. *)
Definition claim_due_jobs (jobs : gmap Z ScheduledJob) (now : Z) : res job_error (gmap Z ScheduledJob * list Z) :=
  claim_all now (due_jobs jobs now) jobs.

(** What a job starts: the three branches of [run_job_now]. *)
Inductive launched : Type :=
| LaunchScan (request : params) (user : option Z)
| LaunchGroupRun (group : Z) (backup : bool) (tech : option pystr) (profile : option Z) (width : Z)
| LaunchAudit (tech : option pystr) (asset user : option Z) (kwargs : params).

Definition launch (j : ScheduledJob) : launched :=
  match type j with
  | Discovery => LaunchScan (job_params j) (created_by j)
  | t =>
      if truthy_id (group_id j) then
        LaunchGroupRun (or_zero (group_id j)) (bool_decide (t = Backup)) (technology j) (credential_profile_id j)
          (if truthy_id (concurrency j) then or_zero (concurrency j) else 10)
      else LaunchAudit (technology j) (asset_id j) (created_by j) (job_params j)
  end.

Record ScheduledJobRun : Type := Run {
  job_id : Z; status : run_status; message : option pystr; result_ref : option pystr; finished_at : Z
}.

(** [SchedulingService.run_job_now], given what the launched work returned
    (a reference) or raised (a message). *)
Definition run_job_now (work : launched -> res pystr pystr) (id : Z) (j : ScheduledJob) (now : Z)
    : res job_error (ScheduledJob * ScheduledJobRun) :=
  let outcome := work (launch j) in
  let st := match outcome with Ok _ => Success | Raise _ => Failed end in
  let msg := match outcome with Ok _ => None | Raise e => Some e end in
  let run := Run id st msg (match outcome with Ok r => Some r | Raise _ => None end) now in
  let j := j {{ last_run_status := Some st }} in
  let j := j {{ last_run_message := msg }} in
  let j := j {{ last_run_at := Some now }} in
  if bool_decide (recurs j = Once) then Ok (j {{ enabled := false }}, run)
  else
    let! next := at_time (compute_next_run_at (recurs j) (hour j) (minute j) (day_of_week j) now) in
    Ok (j {{ next_run_at := next }}, run).

(** The constraints of the request bodies (src/app/modules/scheduling/schemas.py). *)
Definition within (lo hi : Z) (o : option Z) : bool :=
  match o with Some n => (lo <=? n) && (n <=? hi) | None => true end.
Definition known (r : recurrence) : bool := match r with Unknown _ => false | _ => true end.
Definition create_body_ok (d : ScheduledJobCreate) : bool :=
  known (c_recurrence d) && within 0 23 (c_hour d) && within 0 59 (Some (c_minute d)) && within 0 6 (c_day_of_week d).
Definition update_body_ok (d : ScheduledJobUpdate) : bool :=
  match u_recurrence d with Some r => known r | None => true end &&
  within 0 23 (u_hour d) && within 0 59 (u_minute d) && within 0 6 (u_day_of_week d).

(** A row the scheduler can work with: its fields make a schedule, and its
    type has what it needs to start. *)
Definition timed (j : ScheduledJob) : bool :=
  known (recurs j) && within 0 23 (hour j) && within 0 59 (Some (minute j)) && within 0 6 (day_of_week j).
Definition startable (j : ScheduledJob) : bool :=
  match type j with
  | Discovery => ScanRequest (job_params j)
  | Audit =>
      match technology j with
      | Some t =>
          mem t SUPPORTED_TECHNOLOGIES &&
          (truthy_id (group_id j) || (truthy_id (asset_id j) && bool_decide (missing t (job_params j) = [])))
      | None => false
      end
  | Backup =>
      match technology j with Some t => mem t FAMILIES | None => false end && truthy_id (group_id j)
  end.
Definition row_ok (j : ScheduledJob) : Prop :=
  timed j = true /\ (recurs j = Weekly -> is_some (day_of_week j) = true) /\ startable j = true.

Lemma timed_well_timed j : timed j = true -> well_timed (recurs j) (hour j) (minute j) = true.
Proof.
  unfold timed, well_timed, within, known. intros Ht. destruct (recurs j), (hour j); simpl in *; bool_prop; try done; lia.
Qed.

Lemma next_of_timed j now :
  timed j = true ->
  exists t, compute_next_run_at (recurs j) (hour j) (minute j) (day_of_week j) now = Ok t /\ now < t.
Proof.
  intros Ht%timed_well_timed. destruct (compute_next_ok _ _ _ (day_of_week j) now Ht) as [t E].
  exists t. split; [done|]. by apply compute_next_least in E as (_ & ? & _).
Qed.

(** What a claim does to the row it takes. *)
Definition moved (now : Z) (j j' : ScheduledJob) : Prop :=
  if bool_decide (recurs j = Once) then j' = j {{ enabled := false }}
  else exists t, compute_next_run_at (recurs j) (hour j) (minute j) (day_of_week j) now = Ok t /\
         now < t /\ j' = j {{ next_run_at := t }}.

Lemma moved_not_due now j j' : moved now j j' -> due now j' = false.
Proof.
  unfold moved, due. case_bool_decide.
  - intros ->. by destruct j.
  - intros (t & _ & Ht & ->). destruct j; simpl. apply andb_false_intro2, Z.leb_gt. done.
Qed.

(** A conditional update of a row that is as it was read. *)
Lemma claim_one_hit now id j jobs :
  jobs !! id = Some j -> due now j = true -> timed j = true ->
  exists j', claim_one now id j jobs = Ok (<[id := j']> jobs, true) /\ moved now j j'.
Proof.
  intros Hj Hd Ht. unfold claim_one, moved. unfold due in Hd. apply andb_prop in Hd as [He _].
  case_bool_decide as Eo; simpl.
  - rewrite Hj, He, Z.eqb_refl. simpl. eauto.
  - destruct (next_of_timed j now Ht) as (t & -> & Ht'). simpl. rewrite Hj, He, Z.eqb_refl. simpl. eauto 6.
Qed.

(** What the conditional update does in general. *)
Lemma claim_one_spec now id job jobs jobs' ok :
  claim_one now id job jobs = Ok (jobs', ok) ->
  if ok then
    exists row row', jobs !! id = Some row /\ enabled row = true /\ next_run_at row = next_run_at job /\
      jobs' = <[id := row']> jobs /\
      ((row' = row {{ enabled := false }}) \/ exists t, now < t /\ row' = row {{ next_run_at := t }})
  else jobs' = jobs.
Proof.
  unfold claim_one. destruct (bool_decide _) eqn:Eo; simpl.
  2: destruct (compute_next_run_at _ _ _ _ _) as [t|] eqn:E; simpl; [|done];
    apply compute_next_least in E as (_ & Ht & _).
  all: destruct (jobs !! id) as [row|]; [|by intros [= <- <-]];
    destruct (enabled row) eqn:Een; simpl; [|by intros [= <- <-]];
    destruct (Z.eqb_spec (next_run_at row) (next_run_at job)); intros [= <- <-]; [|done]; eauto 12.
Qed.

Lemma claim_all_spec now todo : forall jobs,
  NoDup todo.*1 -> (forall id j, (id, j) ∈ todo -> jobs !! id = Some j /\ due now j = true /\ timed j = true) ->
  exists jobs', claim_all now todo jobs = Ok (jobs', todo.*1) /\
    (forall id, id ∉ todo.*1 -> jobs' !! id = jobs !! id) /\
    (forall id j, (id, j) ∈ todo -> exists j', jobs' !! id = Some j' /\ moved now j j').
Proof.
  induction todo as [|[id j] todo IH]; intros jobs Hnd Hin; simpl.
  - exists jobs. split_and!; [done|done|set_solver].
  - inversion Hnd as [|? ? Hnot Hnd' E]; subst. destruct (Hin id j) as (Hj & Hd & Ht); [set_solver|].
    destruct (claim_one_hit now id j jobs Hj Hd Ht) as (j' & -> & Hm). simpl.
    destruct (IH (<[id := j']> jobs) Hnd') as (jobs' & -> & Hout & Htodo).
    { intros i k Hik. rewrite lookup_insert_ne; [apply Hin; set_solver|]. intros ->. apply Hnot.
      apply list_elem_of_fmap. by exists (i, k). }
    simpl. exists jobs'. split_and!; [done| |].
    + intros i Hi. rewrite Hout by set_solver. apply lookup_insert_ne. set_solver.
    + intros i k [[= -> ->]|Hik]%elem_of_cons; [|by apply Htodo].
      exists j'. split; [|done]. rewrite Hout by done. apply lookup_insert_eq.
Qed.

Lemma due_jobs_spec jobs now id j : (id, j) ∈ due_jobs jobs now <-> jobs !! id = Some j /\ due now j = true.
Proof. unfold due_jobs. by rewrite elem_of_map_to_list, map_lookup_filter_Some. Qed.

Lemma due_jobs_nodup jobs now : NoDup (due_jobs jobs now).*1.
Proof. apply NoDup_fst_map_to_list. Qed.

(** ** Rows stay usable *)

Lemma create_row_ok d user now j : create_body_ok d = true -> create_job d user now = Ok j -> row_ok j /\ now < next_run_at j.
Proof.
  unfold create_job, create_body_ok. intros Hb Hc.
  destruct (_validate_create d) as [[]|] eqn:Ev; simpl in Hc; [|done].
  destruct (match c_job_type d with Discovery => _ | _ => _ end) as [[[p tech] asset]|] eqn:Ef; simpl in Hc; [|done].
  destruct (compute_next_run_at _ _ _ _ _) as [t|] eqn:Et; simpl in Hc; [|done].
  apply compute_next_least in Et as (_ & Hnow & _). injection Hc as <-. split; [|done].
  unfold row_ok, timed, startable; simpl. split; [exact Hb|]. unfold _validate_create in Ev.
  destruct (match c_job_type d with Discovery => _ | _ => _ end) as [[]|] eqn:Ek in Ev; simpl in Ev; [|done].
  destruct (negb (_ && _)) eqn:Ew in Ev; [|done]. split.
  { intros Hw. rewrite Hw in Ew. unfold is_some. by destruct (is_none _). }
  clear Ev Ew. destruct (c_job_type d).
  - destruct (ScanRequest _) eqn:Es; [|done]. injection Ef as <- _ _. done.
  - destruct (negb _ && mem _ _) eqn:Em; [|done]. apply andb_prop in Em as [Hne Em].
    destruct (c_technology d) as [[|a l]|]; try done. simpl in Em.
    destruct (truthy_id (c_group_id d)) eqn:Eg; [by injection Ef as <- <- <-; simpl; rewrite Em|].
    injection Ef as <- <- <-. simpl. rewrite Em. destruct (truthy_id (c_asset_id d)); [|done].
    change (or_str (Some (a :: l)) []) with (a :: l) in Ek. destruct (missing (a :: l) (default ∅ (c_audit_params d))); [done|]. by simpl in Ek.
  - destruct (match c_technology d with Some t => _ | None => _ end) eqn:Em; [|done].
    injection Ef as <- <- <-. simpl. rewrite Em. by destruct (truthy_id (c_group_id d)).
Qed.

Lemma update_fields_timed d j :
  update_body_ok d = true -> timed j = true -> timed (update_fields d j) = true.
Proof.
  unfold update_body_ok, timed, update_fields. intros Hb Ht. bool_prop.
  destruct j; simpl in *. rewrite !andb_true_iff. split_and!;
    [by destruct (u_recurrence d)|by destruct (u_hour d)|destruct (u_minute d); simpl in *; lia..|
     by destruct (u_day_of_week d)].
Qed.

(** What the two parameter blocks leave alone. *)
Definition same_schedule (j j' : ScheduledJob) : Prop :=
  recurs j' = recurs j /\ hour j' = hour j /\ minute j' = minute j /\ day_of_week j' = day_of_week j /\
  enabled j' = enabled j /\ next_run_at j' = next_run_at j.

Lemma update_scan_ok d j j' :
  update_scan d j = Ok j' -> startable j = true -> startable j' = true /\ same_schedule j j'.
Proof.
  unfold update_scan, startable, same_schedule. case_bool_decide as Et; simpl; [|by intros [= <-]].
  rewrite Et. destruct (_ || _); [|intros [= <-]; by rewrite Et]. destruct (ScanRequest (merged_scan _ _ _)) eqn:Es; [|done].
  intros [= <-]. destruct j; simpl in *. by rewrite Et.
Qed.

Lemma update_audit_ok d j j' :
  update_audit d j = Ok j' -> startable j = true -> startable j' = true /\ same_schedule j j'.
Proof.
  unfold update_audit, startable, same_schedule. destruct (truthy_id (group_id j)) eqn:Eg.
  - intros [= <-]. destruct j; simpl in *. rewrite Eg. done.
  - destruct (type j) eqn:Et; try by intros [= <-]; rewrite Et, ?Eg.
    destruct (u_audit_params d) as [ch|]; [|by intros [= <-]; rewrite Et, Eg].
    destruct (technology j) as [t|] eqn:Etech; [|done]. destruct (missing t (ch ∪ job_params j)) eqn:Em; [|done].
    intros [= <-]. destruct j; simpl in *; subst. rewrite Eg, Em. simpl. intros Hs. apply andb_prop in Hs as [-> Hs].
    by apply andb_prop in Hs as [-> _].
Qed.

Lemma update_row_ok d j now j' :
  update_body_ok d = true -> row_ok j -> update_job d j now = Ok j' ->
  row_ok j' /\ (if schedule_changed d then now < next_run_at j' else next_run_at j' = next_run_at j) /\
  enabled j' = default (enabled j) (u_enabled d).
Proof.
  intros Hb (Ht & _ & Hs). unfold update_job. set (j1 := update_fields d j).
  pose proof (update_fields_timed d j Hb Ht) as Ht1. fold j1 in Ht1.
  assert (startable j1 = true) as Hs1 by (unfold j1, update_fields; by destruct j).
  assert (enabled j1 = default (enabled j) (u_enabled d) /\ next_run_at j1 = next_run_at j) as [He1 Hn1]
    by (unfold j1, update_fields; by destruct j).
  destruct (negb (_ && _)) eqn:Ew; [|done].
  destruct (update_scan d j1) as [j2|] eqn:E2; simpl; [|done]. apply update_scan_ok in E2 as [Hs2 Hj2]; [|done].
  destruct (update_audit d j2) as [j3|] eqn:E3; simpl; [|done]. apply update_audit_ok in E3 as [Hs3 Hj3]; [|done].
  unfold same_schedule in *. destruct_and!.
  assert (timed j3 = true) as Ht3 by (unfold timed in *; congruence).
  assert (recurs j3 = Weekly -> is_some (day_of_week j3) = true) as Hw3.
  { intros Er. unfold is_some. replace (day_of_week j3) with (day_of_week j1) by congruence.
    rewrite bool_decide_eq_true_2 in Ew by congruence. by destruct (is_none _). }
  unfold reschedule. destruct (schedule_changed d).
  - destruct (next_of_timed j3 now Ht3) as (t & -> & Ht'). simpl. intros [= <-].
    unfold row_ok, timed, startable in *. destruct j3; simpl in *. split_and!; try done; congruence.
  - intros [= <-]. unfold row_ok. split_and!; try done; congruence.
Qed.

Lemma run_row_ok work id j now :
  row_ok j -> exists j' r, run_job_now work id j now = Ok (j', r) /\ row_ok j' /\
    (if bool_decide (recurs j = Once) then enabled j' = false else now < next_run_at j').
Proof.
  intros (Ht & Hw & Hs). destruct (next_of_timed j now Ht) as (t & E & Hlt).
  unfold run_job_now, row_ok, timed, startable in *.
  set (msg := match work (launch j) with Ok _ => None | Raise e => Some e end).
  destruct j; simpl in *. case_bool_decide; simpl; [eauto 10|]. rewrite E. simpl. eauto 10.
Qed.

(** ** The scheduler and its surroundings

    Server processes sweep in any interleaving: each reads the due jobs and
    then tries to claim them one conditional UPDATE at a time, while runs end,
    and jobs are created, edited and deleted.  [starts] records, newest first,
    each claim: the job, the time it was due at, and the sweep's time. *)
Record sys : Type := Sys {
  clock : Z;
  jobs : gmap Z ScheduledJob;
  next_id : Z;
  pending : gmap Z (Z * list (Z * ScheduledJob));
  starts : list (Z * Z * Z)
}.

Inductive step : sys -> sys -> Prop :=
| Tick s t : clock s <= t -> step s (s {{ clock := t }})
| Read s p : step s (s {{ pending := <[p := (clock s, due_jobs (jobs s) (clock s))]> (pending s) }})
| Claim s p now id job rest jobs' ok :
    pending s !! p = Some (now, (id, job) :: rest) ->
    claim_one now id job (jobs s) = Ok (jobs', ok) ->
    step s {| clock := clock s; jobs := jobs'; next_id := next_id s;
              pending := <[p := (now, rest)]> (pending s);
              starts := if ok then (id, next_run_at job, now) :: starts s else starts s |}
| Finish s work id j j' r :
    jobs s !! id = Some j -> run_job_now work id j (clock s) = Ok (j', r) ->
    step s (s {{ jobs := <[id := j']> (jobs s) }})
| Create s d user j :
    create_body_ok d = true -> create_job d user (clock s) = Ok j ->
    step s {| clock := clock s; jobs := <[next_id s := j]> (jobs s); next_id := next_id s + 1;
              pending := pending s; starts := starts s |}
| Edit s id j d j' :
    jobs s !! id = Some j -> update_body_ok d = true -> update_job d j (clock s) = Ok j' ->
    (enabled j = false -> enabled j' = true -> schedule_changed d = true) ->
    step s (s {{ jobs := <[id := j']> (jobs s) }})
| Delete s id : step s (s {{ jobs := delete id (jobs s) }}).

Definition empty_sys (now : Z) : sys :=
  {| clock := now; jobs := ∅; next_id := 0; pending := ∅; starts := [] |}.

Inductive reachable : sys -> Prop :=
| At_start now : reachable (empty_sys now)
| Then s s' : reachable s -> step s s' -> reachable s'.

(** Once a job was started at a sweep's time, it is not due at that time. *)
Definition past (s : sys) (e : Z * Z * Z) : Prop :=
  let '(id, n, t) := e in
  n <= t <= clock s /\ id < next_id s /\ forall j, jobs s !! id = Some j -> enabled j = true -> t < next_run_at j.

Fixpoint in_order (log : list (Z * Z * Z)) : Prop :=
  match log with
  | [] => True
  | (id, n, _) :: log => (forall n' t', (id, n', t') ∈ log -> n' <= t' < n) /\ in_order log
  end.

Record inv (s : sys) : Prop := Inv {
  inv_rows : forall id j, jobs s !! id = Some j -> id < next_id s /\ row_ok j;
  inv_pending : forall p now todo, pending s !! p = Some (now, todo) ->
    now <= clock s /\ forall id j, (id, j) ∈ todo -> id < next_id s /\ next_run_at j <= now;
  inv_past : forall e, e ∈ starts s -> past s e;
  inv_order : in_order (starts s)
}.

(** Replacing a row by a usable one that is off or due later than any start. *)
Lemma inv_update s id j j' :
  inv s -> jobs s !! id = Some j -> row_ok j' ->
  (enabled j' = true -> clock s < next_run_at j' \/ (enabled j = true /\ next_run_at j' = next_run_at j)) ->
  inv (s {{ jobs := <[id := j']> (jobs s) }}).
Proof.
  intros [Hr Hp Hs Ho] Hj Hok Hdue. destruct s as [ck js nid pend log]. simpl in *.
  constructor; simpl; [|done| |done].
  - intros i k Hi. destruct (decide (i = id)) as [->|Hne].
    + rewrite lookup_insert_eq in Hi. simplify_eq. split; [|done]. by apply (Hr id j).
    + rewrite lookup_insert_ne in Hi by done. by apply Hr.
  - intros [[i n] t] Hin. specialize (Hs _ Hin). unfold past in *. simpl in *. destruct Hs as (H1 & H2 & H3).
    split_and!; [lia..| ]. intros k Hk He. destruct (decide (i = id)) as [->|Hne].
    + rewrite lookup_insert_eq in Hk. simplify_eq. destruct (Hdue He) as [?|[Hej ->]]; [lia|].
      by apply (H3 j).
    + rewrite lookup_insert_ne in Hk by done. by apply H3.
Qed.

Lemma inv_clock s t : clock s <= t -> inv s -> inv (s {{ clock := t }}).
Proof.
  intros Ht [Hr Hp Hs Ho]. destruct s. simpl in *. constructor; simpl; [done| | |done].
  - intros p now todo E. destruct (Hp _ _ _ E). split; [lia|done].
  - intros [[i n] t'] Hin. specialize (Hs _ Hin). unfold past in *. simpl in *. destruct Hs as (? & ? & ?).
    split_and!; [lia..|done].
Qed.

Lemma inv_read s p : inv s -> inv (s {{ pending := <[p := (clock s, due_jobs (jobs s) (clock s))]> (pending s) }}).
Proof.
  intros [Hr Hp Hs Ho]. destruct s as [ck js nid pend log]. simpl in *. constructor; simpl; [done| |done|done].
  intros p' now todo E. destruct (decide (p' = p)) as [->|Hne]; [|rewrite lookup_insert_ne in E by done; by eapply Hp].
  rewrite lookup_insert_eq in E. injection E as <- <-. split; [lia|]. intros id j [Hj Hd]%due_jobs_spec.
  unfold due in Hd. bool_prop. split; [by apply (Hr id j)|done].
Qed.

Lemma inv_create s j : inv s -> row_ok j -> clock s < next_run_at j ->
  inv {| clock := clock s; jobs := <[next_id s := j]> (jobs s); next_id := next_id s + 1;
         pending := pending s; starts := starts s |}.
Proof.
  intros [Hr Hp Hs Ho] Hj Hn. destruct s as [ck js nid pend log]. simpl in *. constructor; simpl; [| | |done].
  - intros i k Hi. destruct (decide (i = nid)) as [->|Hne].
    + rewrite lookup_insert_eq in Hi. simplify_eq. split; [lia|done].
    + rewrite lookup_insert_ne in Hi by done. destruct (Hr i k Hi). split; [lia|done].
  - intros p now todo E. destruct (Hp p now todo E) as [? Ht]. split; [done|]. intros i k Hik.
    destruct (Ht i k Hik). lia.
  - intros [[i n] t] Hin. specialize (Hs _ Hin). unfold past in *. simpl in *. destruct Hs as (? & ? & Hj').
    split_and!; [lia..|]. intros k Hk. rewrite lookup_insert_ne in Hk by lia. by apply Hj'.
Qed.

Lemma inv_delete s id : inv s -> inv (s {{ jobs := delete id (jobs s) }}).
Proof.
  intros [Hr Hp Hs Ho]. destruct s as [ck js nid pend log]. simpl in *. constructor; simpl; [|done| |done].
  - intros i k [_ Hi]%lookup_delete_Some. by apply Hr.
  - intros [[i n] t] Hin. specialize (Hs _ Hin). unfold past in *. simpl in *. destruct Hs as (? & ? & Hj').
    split_and!; [lia..|]. intros k [_ Hk]%lookup_delete_Some. by apply Hj'.
Qed.

(** A claim: the started job's row is off or due later than the sweep. *)
Lemma inv_claim s p now id job rest jobs' ok :
  inv s -> pending s !! p = Some (now, (id, job) :: rest) -> claim_one now id job (jobs s) = Ok (jobs', ok) ->
  inv {| clock := clock s; jobs := jobs'; next_id := next_id s; pending := <[p := (now, rest)]> (pending s);
         starts := if ok then (id, next_run_at job, now) :: starts s else starts s |}.
Proof.
  intros [Hr Hp Hs Ho] E Hc. destruct (Hp _ _ _ E) as [Hnow Htodo].
  destruct (Htodo id job) as [Hid Hn]; [set_solver|].
  assert (forall p' now' todo, <[p := (now, rest)]> (pending s) !! p' = Some (now', todo) ->
    now' <= clock s /\ forall i j, (i, j) ∈ todo -> i < next_id s /\ next_run_at j <= now') as Hp'.
  { intros p' now' todo E'. destruct (decide (p' = p)) as [->|Hne].
    - rewrite lookup_insert_eq in E'. simplify_eq. split; [done|]. intros i k Hik. apply Htodo. set_solver.
    - rewrite lookup_insert_ne in E' by done. by eapply Hp. }
  apply claim_one_spec in Hc. destruct ok; [|subst jobs'; by constructor].
  destruct Hc as (row & row' & Hrow & Hen & Hnx & -> & Hrow').
  assert (forall n' t', (id, n', t') ∈ starts s -> n' <= t' < next_run_at job) as Hold.
  { intros n' t' Hin. destruct (Hs _ Hin) as (H1 & H2 & H3). specialize (H3 row Hrow Hen). lia. }
  assert (row_ok row /\ id < next_id s) as [Hok _] by (split; [by apply (Hr id row)|done]).
  assert (row_ok row') as Hok' by (destruct Hrow' as [->|(? & ? & ->)]; by destruct row).
  assert (enabled row' = true -> now < next_run_at row') as Hlater.
  { destruct Hrow' as [->|(t & Ht & ->)]; by destruct row. }
  constructor; simpl; [|exact Hp'| |split; done].
  - intros i k Hi. destruct (decide (i = id)) as [->|Hne].
    + rewrite lookup_insert_eq in Hi. by simplify_eq.
    + rewrite lookup_insert_ne in Hi by done. by apply Hr.
  - intros [[i n] t] Hin. assert (i = id -> enabled row' = true -> t < next_run_at row') as Hsame.
    { apply elem_of_cons in Hin as [[= -> -> ->]|Hin]; [done|]. intros -> He.
      specialize (Hold n t Hin). specialize (Hlater He). lia. }
    assert (n <= t <= clock s /\ i < next_id s) as [? ?].
    { apply elem_of_cons in Hin as [[= -> -> ->]|Hin]; [done|]. destruct (Hs _ Hin) as (? & ? & _). done. }
    unfold past. simpl. split_and!; [lia..|]. intros k Hk He. destruct (decide (i = id)) as [->|Hne].
    + rewrite lookup_insert_eq in Hk. simplify_eq. by apply Hsame.
    + rewrite lookup_insert_ne in Hk by done. apply elem_of_cons in Hin as [[= -> -> ->]|Hin]; [done|].
      destruct (Hs _ Hin) as (_ & _ & H3). by apply H3.
Qed.

Lemma inv_step s s' : inv s -> step s s' -> inv s'.
Proof.
  intros Hinv Hst.
  destruct Hst as [s t Ht|s p|s p now id job rest jobs' ok Hp Hc|s work id j j' r Hj Hrun|s d user j Hb Hc
    |s id j d j' Hj Hb Hu Hen|s id].
  - by apply inv_clock.
  - by apply inv_read.
  - by eapply inv_claim.
  - destruct (inv_rows s Hinv id j Hj) as [_ Hok]. destruct (run_row_ok work id j (clock s) Hok) as (j1 & r1 & E & Hok' & Hd).
    rewrite Hrun in E. injection E as <- <-. apply (inv_update s id j j'); [done..|]. intros He.
    destruct (bool_decide _); [congruence|by left].
  - apply create_row_ok in Hc as [? ?]; [|done]. by apply inv_create.
  - destruct (inv_rows s Hinv id j Hj) as [_ Hok]. destruct (update_row_ok d j (clock s) j' Hb Hok Hu) as (Hok' & Hn & He).
    apply (inv_update s id j j'); [done..|]. intros Hej. destruct (schedule_changed d) eqn:Ec; [by left|right].
    split; [|done]. destruct (enabled j); [done|]. specialize (Hen eq_refl Hej). done.
  - by apply inv_delete.
Qed.

Lemma inv_reachable s : reachable s -> inv s.
Proof.
  induction 1 as [now|s s' _ IH Hst]; [|by eapply inv_step].
  constructor; simpl; [done|done| |done]. intros e He. by apply elem_of_nil in He.
Qed.
End Service.
End Jobs.

(** ** Properties *)

(** The next run of a job is the first moment after now that its recurrence describes: the minute of every hour, the
    time of every day, or the time of one day of the week; and fields in range always have one. *)
Theorem next_run_earliest r h m dow now :
  Recurrence.well_timed r h m = true ->
  exists t, Recurrence.compute_next_run_at r h m dow now = Ok t /\ Recurrence.fires r h m dow t /\ now < t /\
    forall t', now < t' -> Recurrence.fires r h m dow t' -> t <= t'.
Proof.
  intros Hw. destruct (Recurrence.compute_next_ok r h m dow now Hw) as [t E]. exists t. split; [done|].
  by apply Recurrence.compute_next_least.
Qed.

Lemma next_run_earliest_witness :
  (* Saturday 2000-01-01 00:00, a job of Mondays at 02:30 *)
  Recurrence.compute_next_run_at Recurrence.Weekly (Some 2) 30 (Some 0) 946684800000000 = Ok 946866600000000 /\
  exists t, Recurrence.fires Recurrence.Weekly (Some 2) 30 (Some 0) t.
Proof.
  split; [vm_compute; reflexivity|].
  destruct (next_run_earliest Recurrence.Weekly (Some 2) 30 (Some 0) 946684800000000 eq_refl) as (t & _ & Hf & _).
  by exists t.
Defined.

(** C6: a job never starts twice for one scheduled time: whatever the interleaving of sweeps of several processes with runs,
    new jobs, edits and deletions, each start of a job is for a time later than the sweep that started
    it before (no one having switched a job back on without giving it a new time). *)
Theorem never_started_twice benchmarks ScanRequest s newer id n t older n' t' :
  Jobs.reachable benchmarks ScanRequest s -> Jobs.starts s = newer ++ (id, n, t) :: older ->
  (id, n', t') ∈ older -> n' <= t' /\ t' < n /\ n <= t.
Proof.
  intros Hr E Hin. apply Jobs.inv_reachable in Hr as [_ _ Hs Ho]. rewrite E in *.
  assert (Jobs.past s (id, n, t)) as (H1 & _) by (apply Hs; set_solver).
  clear E Hs. induction newer as [|[[i k] u] newer IH]; simpl in Ho; destruct Ho as [Ho Ho']; [|by apply IH].
  specialize (Ho n' t' Hin). lia.
Qed.

(** A daily job claimed by one process while another has read it too, and
    claimed again the day after. *)
Module TwoProcesses.
Definition body : Jobs.ScheduledJobCreate :=
  Jobs.CreateBody (py "nightly") Jobs.Discovery Recurrence.Daily (Some 2) 0 None true (Some (py "10.0.0.0/24"))
    None None None None None None None None None None None.
Definition any (_ : gmap pystr json) : bool := true.
Definition row (next : Z) : Jobs.ScheduledJob :=
  Jobs.Job (py "nightly") Jobs.Discovery None None (Jobs._discovery_params body) None None None
    Recurrence.Daily (Some 2) 0 None true next None None None (Some 7).

(** The system while the job is due next at [next]. *)
Definition state (now next : Z) (pending : list (Z * (Z * list (Z * Jobs.ScheduledJob)))) (log : list (Z * Z * Z)) : Jobs.sys :=
  {| Jobs.clock := now; Jobs.jobs := {[0 := row next]}; Jobs.next_id := 1;
     Jobs.pending := list_to_map pending; Jobs.starts := log |}.

Lemma step_to s s1 s2 :
  Jobs.reachable [] any s -> Jobs.step [] any s s1 -> s1 = s2 -> Jobs.reachable [] any s2.
Proof. intros Hr Hs <-. by eapply Jobs.Then. Qed.

Lemma claim_to now next pend log p t rest next' pend' :
  Jobs.reachable [] any (state now next pend log) ->
  (list_to_map pend : gmap Z _) !! p = Some (t, (0, row next) :: rest) ->
  Jobs.claim_one t 0 (row next) {[0 := row next]} = Ok ({[0 := row next']}, true) ->
  <[p := (t, rest)]> (list_to_map pend : gmap Z _) = list_to_map pend' ->
  Jobs.reachable [] any (state now next' pend' ((0, next, t) :: log)).
Proof.
  intros Hr Hp Hc Hpend. eapply step_to; [exact Hr|by eapply (Jobs.Claim [] any (state now next pend log))|].
  unfold state. simpl. by rewrite Hpend.
Qed.

(** Processes 1 and 2 both read the due job at 03:00 and 1 claims it; 2, with
    its old row, does not; the next day 2 reads and claims it. *)
Lemma two_days :
  exists s, Jobs.reachable [] any s /\ Jobs.starts s = [(0, 26 * hour, 27 * hour); (0, 2 * hour, 3 * hour)] /\
    Jobs.jobs s !! 0 = Some (row (50 * hour)).
Proof.
  set (r2 := row (2 * hour)). set (r26 := row (26 * hour)).
  set (log := [(0, 2 * hour, 3 * hour)]).
  assert (Jobs.reachable [] any (state 0 (2 * hour) [] [])) as H.
  { eapply step_to; [apply (Jobs.At_start [] any 0)|apply (Jobs.Create [] any _ body 7 r2); vm_compute; reflexivity|].
    vm_compute. reflexivity. }
  assert (Jobs.reachable [] any (state (3 * hour) (2 * hour) [] [])) as H1.
  { eapply step_to; [exact H|apply (Jobs.Tick [] any _ (3 * hour)); vm_compute; discriminate|done]. }
  assert (Jobs.reachable [] any (state (3 * hour) (2 * hour) [(1, (3 * hour, [(0, r2)]))] [])) as H2.
  { eapply step_to; [exact H1|apply (Jobs.Read [] any _ 1)|vm_compute; reflexivity]. }
  assert (Jobs.reachable [] any (state (3 * hour) (2 * hour) [(1, (3 * hour, [(0, r2)])); (2, (3 * hour, [(0, r2)]))] [])) as H3.
  { eapply step_to; [exact H2|apply (Jobs.Read [] any _ 2)|vm_compute; reflexivity]. }
  assert (Jobs.reachable [] any (state (3 * hour) (26 * hour) [(1, (3 * hour, [])); (2, (3 * hour, [(0, r2)]))] log)) as H4.
  { eapply (claim_to (3 * hour) (2 * hour) _ _ 1 (3 * hour)); [exact H3|vm_compute; reflexivity..]. }
  assert (Jobs.reachable [] any (state (3 * hour) (26 * hour) [(1, (3 * hour, [])); (2, (3 * hour, []))] log)) as H5.
  { eapply step_to; [exact H4| |].
    - apply (Jobs.Claim [] any _ 2 (3 * hour) 0 r2 [] {[0 := r26]} false); vm_compute; reflexivity.
    - vm_compute. reflexivity. }
  assert (Jobs.reachable [] any (state (27 * hour) (26 * hour) [(1, (3 * hour, [])); (2, (3 * hour, []))] log)) as H6.
  { eapply step_to; [exact H5|apply (Jobs.Tick [] any _ (27 * hour)); vm_compute; discriminate|done]. }
  assert (Jobs.reachable [] any (state (27 * hour) (26 * hour) [(1, (3 * hour, [])); (2, (27 * hour, [(0, r26)]))] log)) as H7.
  { eapply step_to; [exact H6|apply (Jobs.Read [] any _ 2)|vm_compute; reflexivity]. }
  eexists. split; [|split].
  - eapply (claim_to (27 * hour) (26 * hour) _ _ 2 (27 * hour) [] (50 * hour) [(1, (3 * hour, [])); (2, (27 * hour, []))]);
      [exact H7|vm_compute; reflexivity..].
  - reflexivity.
  - vm_compute. reflexivity.
Qed.
End TwoProcesses.

Lemma never_started_twice_witness :
  exists s, Jobs.starts s = [(0, 26 * hour, 27 * hour); (0, 2 * hour, 3 * hour)] /\ 3 * hour < 26 * hour.
Proof.
  destruct TwoProcesses.two_days as (s & Hr & E & _). exists s. split; [exact E|].
  destruct (never_started_twice [] TwoProcesses.any s [] 0 (26 * hour) (27 * hour) [(0, 2 * hour, 3 * hour)]
    (2 * hour) (3 * hour) Hr E) as (_ & Hlt & _); [by apply list_elem_of_singleton|exact Hlt].
Defined.

(** A sweep starts exactly the jobs that are due: with usable rows it raises nothing, claims every enabled job whose time
    has come and no other, leaves the rest alone, and afterwards nothing is due at its time. *)
Theorem claim_due_jobs_exact jobs now :
  (forall id j, jobs !! id = Some j -> Jobs.timed j = true) ->
  exists jobs' claimed, Jobs.claim_due_jobs jobs now = Ok (jobs', claimed) /\
    (forall id, id ∈ claimed <-> exists j, jobs !! id = Some j /\ Jobs.due now j = true) /\
    (forall id, id ∉ claimed -> jobs' !! id = jobs !! id) /\
    (forall id j, jobs' !! id = Some j -> Jobs.due now j = false).
Proof.
  intros Ht. unfold Jobs.claim_due_jobs. pose proof (Jobs.due_jobs_spec jobs now) as Hdue.
  destruct (Jobs.claim_all_spec now (Jobs.due_jobs jobs now) jobs) as (jobs' & E & Hout & Hin).
  { apply Jobs.due_jobs_nodup. }
  { intros id j [Hj Hd]%Hdue. eauto. }
  assert (forall id, id ∈ (Jobs.due_jobs jobs now).*1 <-> exists j, jobs !! id = Some j /\ Jobs.due now j = true) as Hids.
  { intros id. rewrite list_elem_of_fmap. split.
    - intros ([i j] & -> & Hij%Hdue). eauto.
    - intros (j & Hij). exists (id, j). split; [done|]. by apply Hdue. }
  exists jobs', (Jobs.due_jobs jobs now).*1. split_and!; [done|done|done|].
  intros id j Hj. destruct (decide (id ∈ (Jobs.due_jobs jobs now).*1)) as [Hi|Hi].
  - apply Hids in Hi as (j0 & Hj0). destruct (Hin id j0) as (j' & E' & Hm); [by apply Hdue|].
    rewrite Hj in E'. injection E' as <-. by eapply Jobs.moved_not_due.
  - rewrite Hout in Hj by done. destruct (Jobs.due now j) eqn:Ed; [|done]. exfalso. apply Hi, Hids. eauto.
Qed.

Lemma claim_due_jobs_exact_witness :
  exists jobs', Jobs.claim_due_jobs {[0 := TwoProcesses.row (2 * hour)]} (3 * hour) = Ok (jobs', [0]) /\
    forall id j, jobs' !! id = Some j -> Jobs.due (3 * hour) j = false.
Proof.
  destruct (claim_due_jobs_exact {[0 := TwoProcesses.row (2 * hour)]} (3 * hour)) as (jobs' & ids & E & _ & _ & Hd).
  - intros id j Hj. apply lookup_singleton_Some in Hj as [_ <-]. reflexivity.
  - exists jobs'. split; [|exact Hd]. rewrite E. f_equal. f_equal.
    vm_compute in E. by injection E as _ <-.
Defined.

(** What the service stores can run: in every reachable table each job has a schedule in range and what its type needs
    (a valid scan, a supported technology with its credentials, a group), and running it, whatever the
    work returns or raises, leaves such a row with the next run in the future or, for a one-off job,
    switched off. *)
Theorem stored_jobs_usable benchmarks ScanRequest s id j work :
  Jobs.reachable benchmarks ScanRequest s -> Jobs.jobs s !! id = Some j ->
  Jobs.timed j = true /\ Jobs.startable benchmarks ScanRequest j = true /\
  exists j' r, Jobs.run_job_now work id j (Jobs.clock s) = Ok (j', r) /\
    Jobs.status r = match work (Jobs.launch j) with Ok _ => Jobs.Success | Raise _ => Jobs.Failed end /\
    Jobs.startable benchmarks ScanRequest j' = true /\
    (if bool_decide (Jobs.recurs j = Recurrence.Once) then Jobs.enabled j' = false
     else Jobs.clock s < Jobs.next_run_at j').
Proof.
  intros Hr Hj. apply Jobs.inv_reachable in Hr. destruct (Jobs.inv_rows _ _ s Hr id j Hj) as [_ Hok].
  destruct (Jobs.run_row_ok benchmarks ScanRequest work id j (Jobs.clock s) Hok) as (j' & r & E & (_ & _ & Hs') & Hd).
  destruct Hok as (Ht & _ & Hs). split; [done|]. split; [done|]. exists j', r. split_and!; try done.
  unfold Jobs.run_job_now in E. destruct (bool_decide _); [by injection E as _ <-|].
  destruct (Jobs.at_time _); simpl in E; [by injection E as _ <-|done].
Qed.

Lemma stored_jobs_usable_witness :
  exists s j', Jobs.jobs s !! 0 = Some (TwoProcesses.row (50 * hour)) /\ Jobs.clock s < Jobs.next_run_at j'.
Proof.
  destruct TwoProcesses.two_days as (s & Hr & _ & E). exists s.
  destruct (stored_jobs_usable [] TwoProcesses.any s 0 _ (fun _ => Raise (py "timeout")) Hr E)
    as (_ & _ & j' & r & _ & _ & _ & Hd).
  exists j'. split; [exact E|]. rewrite bool_decide_eq_false_2 in Hd by discriminate. exact Hd.
Defined.
