(* ===== verification/ConfigTree.v ===== *)
(** * Configuration trees: parsing, comparing and restoring FortiOS
    (src/app/modules/backup/restore/config_tree.py)

    A [Node] keeps its children in an ordered dictionary, here a list of pairs
    with the dictionary's operations.  The mutable stack of the parser is the
    path from the root to the open scope; each element of the stack is the
    node at a prefix of it.  The separator of titles is outside the modelled
    characters: a title is the list of its parts. *)
From S2P Require Import Prelude PyStr.

(** ** Nodes *)
Inductive node : Type := Node { line : pystr; children : list (pystr * node) }.

(** [dict.get], assignment to a key, [dict.pop]. *)
Fixpoint get (k : pystr) (cs : list (pystr * node)) : option node :=
  match cs with
  | [] => None
  | (k', c) :: cs => if bool_decide (k' = k) then Some c else get k cs
  end.
Fixpoint put (k : pystr) (n : node) (cs : list (pystr * node)) : list (pystr * node) :=
  match cs with
  | [] => [(k, n)]
  | (k', c) :: cs => if bool_decide (k' = k) then (k', n) :: cs else (k', c) :: put k n cs
  end.
Fixpoint del (k : pystr) (cs : list (pystr * node)) : list (pystr * node) :=
  match cs with
  | [] => []
  | (k', c) :: cs => if bool_decide (k' = k) then cs else (k', c) :: del k cs
  end.

Definition with_children (f : list (pystr * node) -> list (pystr * node)) (n : node) : node :=
  Node (line n) (f (children n)).

(** [Node.child]: the child for a key, created the first time. *)
Definition child (k l : pystr) (n : node) : node :=
  match get k (children n) with Some _ => n | None => with_children (put k (Node l [])) n end.

(** [Node.flatten] *)
Fixpoint flatten (depth : nat) (n : node) : list (nat * pystr) :=
  flat_map (fun kc => (depth, line (snd kc)) :: flatten (S depth) (snd kc)) (children n).

(** Changing the node at a path, and reading it. *)
Fixpoint modify (p : list pystr) (f : node -> node) (n : node) : node :=
  match p with
  | [] => f n
  | k :: p =>
      match get k (children n) with
      | Some c => with_children (put k (modify p f c)) n
      | None => n
      end
  end.
Fixpoint node_at (p : list pystr) (n : node) : option node :=
  match p with
  | [] => Some n
  | k :: p => match get k (children n) with Some c => node_at p c | None => None end
  end.

(** ** The difference of two configurations *)
Inductive op : Type := Plus | Minus | Context.
Record DiffLine : Type := Line { d_op : op; d_text : pystr }.
Record DiffSection : Type := Section_ { title : list pystr; lines : list DiffLine }.
Record ConfigDiff : Type := Diff {
  sections : list DiffSection;
  skipped : list (list pystr * pystr)
}.

Definition is_change (l : DiffLine) : bool := match d_op l with Context => false | _ => true end.
(** [ConfigDiff.added], [ConfigDiff.removed] *)
Definition is_op (o : op) (l : DiffLine) : bool :=
  match o, d_op l with Plus, Plus | Minus, Minus | Context, Context => true | _, _ => false end.
Definition count_op (o : op) (d : ConfigDiff) : Z :=
  Z.of_nat (length (List.filter (is_op o) (flat_map lines (sections d)))).
Definition added (d : ConfigDiff) : Z := count_op Plus d.
Definition removed (d : ConfigDiff) : Z := count_op Minus d.
(** [ConfigDiff.is_empty] *)
Definition is_empty (d : ConfigDiff) : bool := negb (existsb (fun s => existsb is_change (lines s)) (sections d)).

(** The local state of [_forti_diff]: the commands, the section once [mark]
    opened it (its position), and the result being built. *)
Record progress : Type := Progress { cmds : list pystr; section : option nat; out : ConfigDiff }.

(** [mark] *)
Definition mark (path : list pystr) (o : op) (text : pystr) (st : progress) : progress :=
  let d := out st in
  match section st with
  | None =>
      {| cmds := cmds st; section := Some (length (sections d));
         out := Diff (sections d ++ [Section_ path [Line o text]]) (skipped d) |}
  | Some i =>
      {| cmds := cmds st; section := Some i;
         out := Diff (alter (fun s => Section_ (title s) (lines s ++ [Line o text])) i (sections d)) (skipped d) |}
  end.
Definition emit (cs : list pystr) (st : progress) : progress :=
  {| cmds := cmds st ++ cs; section := section st; out := out st |}.
Definition skip (path : list pystr) (key : pystr) (st : progress) : progress :=
  {| cmds := cmds st; section := section st;
     out := Diff (sections (out st)) (skipped (out st) ++ [(path, key)]) |}.
Definition indent (depth : nat) (text : pystr) : pystr := replicate (4 * depth) " "%char ++ text.
Definition mark_all (path : list pystr) (o : op) (ls : list (nat * pystr)) (st : progress) : progress :=
  foldl (fun st l => mark path o (indent (fst l) (snd l)) st) st ls.

(** ** FortiOS *)
Definition _FORTI_VOLATILE_SET_KEYS : list pystr := [py "cfg-save"; py "cfg-revert-timeout"].
Definition memb (s : pystr) (l : list pystr) : bool := existsb (fun x => bool_decide (x = s)) l.

(** [_FORTI_ORDERED_TABLE.search] *)
Definition ordered_table (s : pystr) : bool :=
  let s := lower s in
  is_infix (py "policy") s || is_infix (py "local-in") s || is_infix (py "shaping") s || is_infix (py "acl") s.

(** [_PROMPT_RE.match]: a word, perhaps " (...)", then " #" or " $", and
    nothing but white space or a "show " command. *)
Definition prompt_end (s : pystr) : bool :=
  match s with
  | c :: d :: s => bool_decide (c = " "%char) && (bool_decide (d = "#"%char) || bool_decide (d = "$"%char)) &&
                   let r := lstrip s in (bool_decide (r = []) || is_prefix (py "show ") r)
  | _ => false
  end.
Definition is_prompt (s : pystr) : bool :=
  let rest := drop_while not_space s in
  negb (bool_decide (take_while not_space s = [])) &&
  (prompt_end rest ||
   (is_prefix (py " (") rest &&
    match partition1 ")"%char (drop 2 rest) with (_, Some tail) => prompt_end tail | (_, None) => false end)).

(** The test of [_forti_lines] on a stripped line. *)
Definition forti_dropped (line : pystr) : bool :=
  bool_decide (line = []) || is_prefix (py "#") line || is_prompt line ||
  is_prefix (py "show full-configuration") (lower line).
Definition _forti_lines (text : pystr) : list pystr :=
  List.filter (fun l => negb (forti_dropped l)) (map strip (splitlines text)).

Definition verb (line : pystr) : pystr := match split_ws 1 line with w :: _ => w | [] => [] end.

(** What the code raises: an IndexError, and the ValueError of [list.remove]. *)
Inductive tree_error : Type := IndexError | NotInList.
(** [line.split(None, 1)[1]] *)
Definition argument (line : pystr) : res tree_error pystr :=
  match split_ws 1 line with _ :: a :: _ => Ok a | _ => Raise IndexError end.

(** [_forti_key] *)
Definition _forti_key (line : pystr) : pystr :=
  match split_ws 2 line with
  | v :: name :: _ => if bool_decide (v = py "set") || bool_decide (v = py "unset") then py "set " ++ name else line
  | _ => line
  end.

Definition is_scope_verb (v : pystr) : bool := bool_decide (v = py "config") || bool_decide (v = py "edit").
Definition is_closer (v : pystr) : bool := bool_decide (v = py "end") || bool_decide (v = py "next").
Definition is_set (line : pystr) : bool := bool_decide (verb line = py "set").
Definition is_edit (line : pystr) : bool := bool_decide (verb line = py "edit").

(** One line of [parse_fortios]; the state is the tree and the path of the
    innermost open scope. *)
Definition parse_line (line : pystr) (st : node * list pystr) : res tree_error (node * list pystr) :=
  let '(root, path) := st in
  let v := verb line in
  if is_scope_verb v then Ok (modify path (child line line) root, path ++ [line])
  else if is_closer v then Ok (root, removelast path)
  else if bool_decide (v = py "set") then
    let key := _forti_key line in
    let! name := argument key in
    if memb name _FORTI_VOLATILE_SET_KEYS then Ok st
    else Ok (modify path (with_children (put key (Node line []))) root, path)
  else Ok st.

Fixpoint parse_lines (ls : list pystr) (st : node * list pystr) : res tree_error (node * list pystr) :=
  match ls with
  | [] => Ok st
  | l :: ls => let! st := parse_line l st in parse_lines ls st
  end.

(** [parse_fortios] *)
Definition parse_fortios (text : pystr) : res tree_error node :=
  let! (root, _) := parse_lines (_forti_lines text) (Node [] [], []) in Ok root.

(** [_is_enc] *)
Definition _is_enc (line : pystr) : bool :=
  match split_ws 3 line with _ :: _ :: w :: _ => bool_decide (w = py "ENC") | _ => false end.

Definition closer (line : pystr) : pystr := if is_edit line then py "next" else py "end".

(** [_forti_body] *)
Fixpoint _forti_body (n : node) : list pystr :=
  flat_map (fun kc => let c := snd kc in
      if is_set (line c) then [line c] else line c :: _forti_body c ++ [closer (line c)])
    (children n).

(** [_forti_clear] *)
Fixpoint _forti_clear (n : node) : res tree_error (list pystr) :=
  (fix loop (cs : list (pystr * node)) : res tree_error (list pystr) :=
     match cs with
     | [] => Ok []
     | (key, c) :: cs =>
         let! here :=
           if is_set (line c) then let! name := argument key in Ok [py "unset " ++ name]
           else if is_edit (line c) then let! name := argument (line c) in Ok [py "delete " ++ name]
           else
             let! inner := _forti_clear c in
             Ok (match inner with [] => [] | _ => line c :: inner ++ [py "end"] end) in
         let! rest := loop cs in
         Ok (here ++ rest)
     end) (children n).

(** [list.remove], [list.insert]. *)
Fixpoint remove_name (x : pystr) (l : list pystr) : list pystr :=
  match l with
  | [] => []
  | y :: l => if bool_decide (y = x) then l else y :: remove_name x l
  end.
Definition list_remove (x : pystr) (l : list pystr) : res tree_error (list pystr) :=
  if memb x l then Ok (remove_name x l) else Raise NotInList.
Definition insert_at (i : nat) (x : pystr) (l : list pystr) : list pystr := take i l ++ x :: drop i l.

(** The loop of [_forti_moves], from position [i]. *)
Fixpoint moves_from (i : nat) (desired current : list pystr) : res tree_error (list pystr) :=
  match desired with
  | [] => Ok []
  | name :: desired =>
      match current !! i with
      | Some c =>
          if bool_decide (c = name) then moves_from (S i) desired current
          else
            let! others := list_remove name current in
            let! cmds := moves_from (S i) desired (insert_at i name others) in
            Ok ((py "move " ++ name ++ py " before " ++ c) :: cmds)
      | None => moves_from (S i) desired current
      end
  end.
Definition _forti_moves (desired current : list pystr) : res tree_error (list pystr) :=
  moves_from 0 desired (List.filter (fun c => memb c desired) current).

(** The names of a table's entries, in order. *)
Fixpoint edit_names (cs : list (pystr * node)) : res tree_error (list pystr) :=
  match cs with
  | [] => Ok []
  | (k, _) :: cs =>
      let! here := if is_prefix (py "edit ") k then let! name := argument k in Ok [name] else Ok [] in
      let! rest := edit_names cs in
      Ok (here ++ rest)
  end.

Definition is_ordered_scope (path : list pystr) : bool :=
  match list.last path with
  | Some l => is_prefix (py "config ") l && ordered_table l
  | None => false
  end.

Definition has (k : pystr) (cs : list (pystr * node)) : bool :=
  match get k cs with Some _ => true | None => false end.

(** The last block of [_forti_diff]: the order of an ordered table. *)
Definition diff_order (backup live : list (pystr * node)) (path : list pystr) (st : progress)
    : res tree_error progress :=
  if is_ordered_scope path then
    let! desired := edit_names backup in
    let! kept := edit_names (List.filter (fun kc => has (fst kc) backup) live) in
    let current := kept ++ List.filter (fun n => negb (has (py "edit " ++ n) live)) desired in
    let! moves := _forti_moves desired current in
    Ok (foldl (fun st m => mark path Plus m st) (emit moves st) moves)
  else Ok st.

(** One turn of the middle loop, and the loop: what only the live device has. *)
Definition extra_child (backup : list (pystr * node)) (path : list pystr) (key : pystr) (l : node) (st : progress)
    : res tree_error progress :=
  if has key backup then Ok st
  else if is_set (line l) then
    let! name := argument key in
    Ok (mark path Minus (line l) (emit [py "unset " ++ name] st))
  else if is_edit (line l) then
    let! name := argument (line l) in
    Ok (mark_all path Minus (flatten 1 l) (mark path Minus (line l) (emit [py "delete " ++ name] st)))
  else
    let! inner := _forti_clear l in
    Ok (match inner with
        | [] => st
        | _ => mark path Minus (line l) (emit (line l :: inner ++ [py "end"]) st)
        end).
Fixpoint diff_extra (backup live : list (pystr * node)) (path : list pystr) (st : progress)
    : res tree_error progress :=
  match live with
  | [] => Ok st
  | (key, l) :: live => let! st := extra_child backup path key l st in diff_extra backup live path st
  end.

(** [_forti_diff] *)
Fixpoint _forti_diff (backup live : node) (path : list pystr) (diff : ConfigDiff) {struct backup}
    : res tree_error (list pystr * ConfigDiff) :=
  let! st :=
    (fix loop (bs : list (pystr * node)) (st : progress) : res tree_error progress :=
       match bs with
       | [] => Ok st
       | (key, b) :: bs =>
           let! st :=
             match get key (children live) with
             | None =>
                 if is_set (line b) then Ok (mark path Plus (line b) (emit [line b] st))
                 else
                   let st := emit (line b :: _forti_body b ++ [closer (line b)]) st in
                   Ok (mark_all path Plus (flatten 1 b) (mark path Plus (line b) st))
             | Some l =>
                 if is_set (line b) then
                   if bool_decide (line l = line b) then Ok st
                   else if _is_enc (line b) && _is_enc (line l) then Ok (skip path key st)
                   else Ok (mark path Plus (line b) (mark path Minus (line l) (emit [line b] st)))
                 else
                   let! (inner, d) := _forti_diff b l (path ++ [line b]) (out st) in
                   let st := {| cmds := cmds st; section := section st; out := d |} in
                   Ok (match inner with
                       | [] => st
                       | _ => emit (line b :: inner ++ [closer (line b)]) st
                       end)
             end in
           loop bs st
       end) (children backup) {| cmds := []; section := None; out := diff |} in
  let! st := diff_extra (children backup) (children live) path st in
  let! st := diff_order (children backup) (children live) path st in
  Ok (cmds st, out st).

(** [diff_fortios]: the commands and the preview. *)
Definition diff_fortios (backup_text live_text : pystr) : res tree_error (list pystr * ConfigDiff) :=
  let! b := parse_fortios backup_text in
  let! l := parse_fortios live_text in
  _forti_diff b l [] (Diff [] []).

(** ** Lemmas on the dictionary and on paths *)

Definition keys (cs : list (pystr * node)) : list pystr := map fst cs.

Lemma get_put_eq k n cs : get k (put k n cs) = Some n.
Proof.
  induction cs as [|[k' c] cs IH]; simpl; [by rewrite bool_decide_eq_true_2|].
  case_bool_decide as E; simpl; [by rewrite bool_decide_eq_true_2|]. by rewrite bool_decide_eq_false_2.
Qed.

Lemma get_put_ne k k' n cs : k' <> k -> get k' (put k n cs) = get k' cs.
Proof.
  intros Hne. induction cs as [|[j c] cs IH]; simpl; [by rewrite bool_decide_eq_false_2 by congruence|].
  case_bool_decide as E; simpl.
  - subst j. by rewrite !bool_decide_eq_false_2 by congruence.
  - by rewrite IH.
Qed.

Lemma get_in k cs : get k cs <> None <-> k ∈ keys cs.
Proof.
  induction cs as [|[k' c] cs IH]; simpl; [set_solver|]. case_bool_decide as E; [set_solver|].
  rewrite IH, elem_of_cons. split; [auto|]. intros [->|?]; [done|done].
Qed.

Lemma get_none k cs : get k cs = None <-> k ∉ keys cs.
Proof. rewrite <- get_in. destruct (get k cs); naive_solver. Qed.

Lemma get_some_in k n cs : get k cs = Some n -> k ∈ keys cs.
Proof. intros E. apply get_in. congruence. Qed.

Lemma get_elem k n cs : NoDup (keys cs) -> (k, n) ∈ cs -> get k cs = Some n.
Proof.
  induction cs as [|[k' c] cs IH]; simpl; [set_solver|]. intros Hnd. inversion Hnd as [|? ? Hnot Hnd' E]; subst.
  intros [[= -> ->]|Hin]%elem_of_cons; [by rewrite bool_decide_eq_true_2|].
  rewrite bool_decide_eq_false_2; [by apply IH|]. intros ->. apply Hnot. apply list_elem_of_fmap. by exists (k, n).
Qed.

Lemma get_elem_of k n cs : get k cs = Some n -> (k, n) ∈ cs.
Proof.
  induction cs as [|[k' c] cs IH]; simpl; [done|]. case_bool_decide as E; [intros [= ->]; subst; set_solver|].
  intros H. set_solver.
Qed.

Lemma keys_put k n cs : keys (put k n cs) = if has k cs then keys cs else keys cs ++ [k].
Proof.
  unfold has, keys. induction cs as [|[k' c] cs IH]; simpl; [done|]. case_bool_decide as E; simpl; [done|].
  rewrite IH. by destruct (get k cs).
Qed.

Lemma put_put k n m cs : put k m (put k n cs) = put k m cs.
Proof.
  induction cs as [|[k' c] cs IH]; simpl; [by rewrite bool_decide_eq_true_2|].
  case_bool_decide as E; simpl; [by rewrite bool_decide_eq_true_2|]. by rewrite bool_decide_eq_false_2, IH.
Qed.

Lemma put_get k n cs : get k cs = Some n -> put k n cs = cs.
Proof.
  induction cs as [|[k' c] cs IH]; simpl; [done|]. case_bool_decide as E; [by intros [= ->]|]. intros Hg. by rewrite IH.
Qed.

Lemma put_snoc k n cs : get k cs = None -> put k n cs = cs ++ [(k, n)].
Proof. induction cs as [|[k' c] cs IH]; simpl; [done|]. case_bool_decide; [done|]. intros Hg. by rewrite IH. Qed.

Lemma get_del_eq k cs : NoDup (keys cs) -> get k (del k cs) = None.
Proof.
  induction cs as [|[k' c] cs IH]; simpl; [done|]. intros Hnd. inversion Hnd as [|? ? Hnot Hnd' E]; subst.
  case_bool_decide as E; simpl; [subst; by apply get_none|]. rewrite bool_decide_eq_false_2 by done. by apply IH.
Qed.

Lemma get_del_ne k k' cs : k' <> k -> get k' (del k cs) = get k' cs.
Proof.
  intros Hne. induction cs as [|[j c] cs IH]; simpl; [done|].
  case_bool_decide as E; [subst j; by rewrite bool_decide_eq_false_2 by congruence|]. simpl. by rewrite IH.
Qed.

Lemma keys_del_in k k' cs : k' ∈ keys (del k cs) -> k' ∈ keys cs.
Proof.
  induction cs as [|[j c] cs IH]; simpl; [done|]. case_bool_decide; simpl; [set_solver|].
  rewrite !elem_of_cons. intros [->|?]; auto.
Qed.

Lemma nodup_put k n cs : NoDup (keys cs) -> NoDup (keys (put k n cs)).
Proof.
  rewrite keys_put. unfold has. destruct (get k cs) eqn:E; [done|]. intros Hnd.
  apply list.NoDup_app. split_and!; [done| |apply list.NoDup_singleton].
  intros x Hx ->%list_elem_of_singleton. by apply get_none in E.
Qed.

Lemma nodup_del k cs : NoDup (keys cs) -> NoDup (keys (del k cs)).
Proof.
  induction cs as [|[j c] cs IH]; simpl; [done|]. intros Hnd. inversion Hnd as [|? ? Hnot Hnd' E]; subst.
  case_bool_decide; [done|]. simpl. constructor; [|by apply IH]. intros Hin. by apply Hnot, (keys_del_in k).
Qed.

Lemma node_eta n : Node (line n) (children n) = n.
Proof. by destruct n. Qed.

Lemma node_at_modify p f t n : node_at p t = Some n -> node_at p (modify p f t) = Some (f n).
Proof.
  revert t. induction p as [|k p IH]; intros t; simpl; [by intros [= ->]|].
  destruct (get k (children t)) as [c|] eqn:E; [|done]. intros H. unfold with_children. simpl.
  rewrite get_put_eq. by apply IH.
Qed.

Lemma modify_modify p f g t : modify p f (modify p g t) = modify p (fun n => f (g n)) t.
Proof.
  revert t. induction p as [|k p IH]; intros t; simpl; [done|].
  destruct (get k (children t)) as [c|] eqn:E; simpl; [|by rewrite E].
  rewrite get_put_eq. unfold with_children. simpl. by rewrite put_put, IH.
Qed.

Lemma modify_ext p f g t n : node_at p t = Some n -> f n = g n -> modify p f t = modify p g t.
Proof.
  revert t. induction p as [|k p IH]; intros t; simpl; [by intros [= ->]|].
  destruct (get k (children t)) as [c|] eqn:E; [|done]. intros Hn Hf. by rewrite (IH c Hn Hf).
Qed.

Lemma modify_id p t n : node_at p t = Some n -> modify p (fun _ => n) t = t.
Proof.
  revert t. induction p as [|k p IH]; intros t; simpl; [by intros [= ->]|].
  destruct (get k (children t)) as [c|] eqn:E; [|done]. intros Hn. rewrite (IH c Hn).
  unfold with_children. by rewrite (put_get _ _ _ E), node_eta.
Qed.

Lemma node_at_snoc p k t n : node_at p t = Some n -> node_at (p ++ [k]) t = get k (children n).
Proof.
  revert t. induction p as [|j p IH]; intros t; simpl; [by intros [= ->]; case_match|].
  destruct (get j (children t)) as [c|] eqn:E; [|done]. apply IH.
Qed.

Lemma modify_snoc p k f t n c :
  node_at p t = Some n -> get k (children n) = Some c ->
  modify (p ++ [k]) f t = modify p (with_children (put k (f c))) t.
Proof.
  revert t. induction p as [|j p IH]; intros t; simpl; [by intros [= ->] ->|].
  destruct (get j (children t)) as [d|] eqn:E; [|done]. intros Hn Hc. by rewrite (IH d Hn Hc).
Qed.

(** ** Canonical trees

    What FortiOS prints: one space after the word that opens a line, a setting
    with a name, a scope with one; each key of a level once. *)
Definition blank_or_end (s : pystr) : bool := match s with c :: _ => is_space c | [] => true end.
Definition set_child (k : pystr) (c : node) : Prop :=
  exists name tail, is_word name = true /\ blank_or_end tail = true /\
    line c = py "set " ++ name ++ tail /\ k = py "set " ++ name /\ children c = [].
Definition scope_line (l : pystr) : Prop :=
  exists x, solid x = true /\ (l = py "config " ++ x \/ l = py "edit " ++ x).
Definition scope_child (k : pystr) (c : node) : Prop := line c = k /\ scope_line k.

Fixpoint canonical (n : node) : Prop :=
  NoDup (keys (children n)) /\
  (fix all (cs : list (pystr * node)) : Prop :=
     match cs with
     | [] => True
     | (k, c) :: cs => (set_child k c \/ (scope_child k c /\ canonical c)) /\ all cs
     end) (children n).

Lemma canonical_iff n :
  canonical n <->
  NoDup (keys (children n)) /\
  forall k c, (k, c) ∈ children n -> set_child k c \/ (scope_child k c /\ canonical c).
Proof.
  destruct n as [l cs]. simpl. apply and_iff_compat_l. induction cs as [|[k c] cs IH]; simpl; [set_solver|].
  rewrite IH. setoid_rewrite elem_of_cons. split; [intros [H1 H2] k' c' [[= -> ->]|?]; auto|].
  intros H1. split; [by apply H1; left|]. intros k' c' Hin. apply H1. by right.
Qed.

Lemma canonical_get n k c : canonical n -> get k (children n) = Some c -> set_child k c \/ (scope_child k c /\ canonical c).
Proof. intros [_ Hc]%canonical_iff Hg. by apply Hc, get_elem_of. Qed.

(** Induction over a tree and its children. *)
Lemma node_induction (P : node -> Prop) :
  (forall l cs, (forall k c, (k, c) ∈ cs -> P c) -> P (Node l cs)) -> forall n, P n.
Proof.
  intros Hstep. fix IH 1. intros [l cs]. apply Hstep. clear l.
  induction cs as [|[k c] cs IHcs].
  - clear IH. intros k' c' Hin. by apply elem_of_nil in Hin.
  - pose proof (IH c) as Hc. clear IH. intros k' c' [[= -> ->]|Hin]%elem_of_cons; [exact Hc|by eapply IHcs].
Qed.

Lemma word_of w s : is_word w = true -> split_ws 1 (w ++ " "%char :: s) = w :: split_ws 0 (" "%char :: s).
Proof. intros Hw. by apply split_ws_word. Qed.

Lemma verb_of w s : is_word w = true -> verb (w ++ " "%char :: s) = w.
Proof. intros Hw. unfold verb. rewrite word_of by done. done. Qed.

Lemma argument_of w s : is_word w = true -> solid s = true -> argument (w ++ " "%char :: s) = Ok s.
Proof. intros Hw Hs. unfold argument. rewrite word_of, split_ws_rest by done. done. Qed.

Lemma set_line_spec k c :
  set_child k c ->
  verb (line c) = py "set" /\ _forti_key (line c) = k /\
  exists name, is_word name = true /\ k = py "set " ++ name /\ argument k = Ok name.
Proof.
  intros (name & tail & Hn & Ht & El & -> & _). rewrite El.
  change (py "set " ++ name ++ tail) with (py "set" ++ " "%char :: (name ++ tail)).
  change (py "set " ++ name) with (py "set" ++ " "%char :: name).
  split; [by apply verb_of|]. split.
  - unfold _forti_key. rewrite split_ws_word by done.
    assert (split_ws 1 (" "%char :: name ++ tail) = name :: split_ws 0 tail) as ->.
    { assert (lstrip (" "%char :: name ++ tail) = lstrip (name ++ tail)) as El'
        by (unfold lstrip; by rewrite dw_cons).
      cbn [split_ws]. rewrite El'. pose proof (split_ws_word 0 name tail Hn Ht) as E. cbn [split_ws] in E. exact E. }
    done.
  - exists name. split_and!; [done|done|]. apply argument_of; [done|].
    rewrite <- (app_nil_r name). by apply is_word_solid.
Qed.

Lemma config_verb x : verb (py "config " ++ x) = py "config".
Proof. exact (verb_of (py "config") x eq_refl). Qed.
Lemma edit_verb x : verb (py "edit " ++ x) = py "edit".
Proof. exact (verb_of (py "edit") x eq_refl). Qed.
Lemma edit_argument x : solid x = true -> argument (py "edit " ++ x) = Ok x.
Proof. exact (argument_of (py "edit") x eq_refl). Qed.

Lemma set_child_is_set k c : set_child k c -> is_set (line c) = true.
Proof. intros (E & _)%set_line_spec. unfold is_set. by rewrite E. Qed.

Lemma scope_child_not_set k c : scope_child k c -> is_set (line c) = false.
Proof. intros (-> & x & _ & [-> | ->]); unfold is_set; by rewrite ?config_verb, ?edit_verb. Qed.

Lemma set_key_not_scope k c : set_child k c -> ~ scope_line k.
Proof.
  intros (name & tail & _ & _ & _ & -> & _) (x & _ & [E|E]).
  - apply (f_equal (take 4)) in E. discriminate E.
  - apply (f_equal (take 4)) in E. discriminate E.
Qed.

(** Whether a child is a setting is read off its key. *)
Lemma same_kind k b l :
  (set_child k b \/ scope_child k b) -> (set_child k l \/ scope_child k l) -> is_set (line b) = is_set (line l).
Proof.
  intros [Hb|Hb] [Hl|Hl].
  - by rewrite (set_child_is_set k b Hb), (set_child_is_set k l Hl).
  - destruct Hl as [_ Hl]. by apply set_key_not_scope in Hb.
  - destruct Hb as [_ Hb]. by apply set_key_not_scope in Hl.
  - by rewrite (scope_child_not_set k b Hb), (scope_child_not_set k l Hl).
Qed.

(** ** Emptying a scope *)

(** One turn of the loop of [_forti_clear], and the loop. *)
Definition clear_child (key : pystr) (c : node) : res tree_error (list pystr) :=
  if is_set (line c) then let! name := argument key in Ok [py "unset " ++ name]
  else if is_edit (line c) then let! name := argument (line c) in Ok [py "delete " ++ name]
  else
    let! inner := _forti_clear c in
    Ok (match inner with [] => [] | _ => line c :: inner ++ [py "end"] end).
Fixpoint clear_all (cs : list (pystr * node)) : res tree_error (list pystr) :=
  match cs with
  | [] => Ok []
  | (key, c) :: cs =>
      let! here := clear_child key c in
      let! rest := clear_all cs in
      Ok (here ++ rest)
  end.
Lemma forti_clear_eq n : _forti_clear n = clear_all (children n).
Proof.
  destruct n as [l cs]. simpl. induction cs as [|[k c] cs IH]; [done|]. simpl. unfold clear_child at 1. by rewrite IH.
Qed.

(** Nothing but scopes without settings and entries, which is how FortiOS shows
    an empty scope. *)
Fixpoint bare (n : node) : Prop :=
  (fix all (cs : list (pystr * node)) : Prop :=
     match cs with
     | [] => True
     | (_, c) :: cs => (is_set (line c) = false /\ is_edit (line c) = false /\ bare c) /\ all cs
     end) (children n).
Definition bare_child (c : node) : Prop := is_set (line c) = false /\ is_edit (line c) = false /\ bare c.

Lemma bare_iff n : bare n <-> forall k c, (k, c) ∈ children n -> bare_child c.
Proof.
  destruct n as [l cs]. simpl. induction cs as [|[k c] cs IH]; [set_solver|]. rewrite IH. setoid_rewrite elem_of_cons.
  split; [intros [H1 H2] k' c' [[= -> ->]|?]; [done|by eapply H2]|].
  intros H1. split; [apply (H1 k c); by left|]. intros k' c' Hin. apply (H1 k' c'). by right.
Qed.

(** There is nothing to send exactly when the scope is bare. *)
Lemma clear_bare n : _forti_clear n = Ok [] <-> bare n.
Proof.
  induction n as [l cs IH] using node_induction. rewrite forti_clear_eq, bare_iff. simpl.
  induction cs as [|[k c] cs IHcs]; simpl; [set_solver|].
  setoid_rewrite elem_of_cons.
  assert (clear_child k c = Ok [] <-> bare_child c) as Hc.
  { unfold clear_child, bare_child. destruct (is_set (line c)); [destruct (argument k); naive_solver|].
    destruct (is_edit (line c)); [destruct (argument (line c)); naive_solver|].
    assert (_forti_clear c = Ok [] <-> bare c) as <- by (apply (IH k); set_solver).
    destruct (_forti_clear c) as [[|]|]; naive_solver. }
  assert (clear_all cs = Ok [] <-> forall k0 c0, (k0, c0) ∈ cs -> bare_child c0) as Hcs.
  { apply IHcs. intros k' c' Hin. apply (IH k'). set_solver. }
  split.
  - intros E. destruct (clear_child k c) as [here|] eqn:E1; simpl in E; [|done].
    destruct (clear_all cs) as [rest|] eqn:E2; simpl in E; [|done]. injection E as E.
    apply app_eq_nil in E as [-> ->]. intros k' c' [[= -> ->]|Hin]; [by apply Hc|by eapply Hcs].
  - intros Hall. assert (clear_child k c = Ok []) as -> by (apply Hc; eapply Hall; by left).
    assert (clear_all cs = Ok []) as -> by (apply Hcs; intros k' c' Hin; eapply Hall; by right). done.
Qed.

Lemma clear_child_nil key c : clear_child key c = Ok [] <-> bare_child c.
Proof.
  unfold clear_child, bare_child. rewrite <- clear_bare.
  destruct (is_set (line c)); [destruct (argument key); naive_solver|].
  destruct (is_edit (line c)); [destruct (argument (line c)); naive_solver|].
  destruct (_forti_clear c) as [[|]|]; naive_solver.
Qed.

(** The keys of a table's entries, in order. *)
Definition is_edit_key (k : pystr) : bool := is_prefix (py "edit ") k.
Definition edit_keys (cs : list (pystr * node)) : list pystr := List.filter is_edit_key (keys cs).

Lemma scope_kind k c :
  scope_child k c ->
  (is_edit (line c) = true /\ is_edit_key k = true /\ exists x, solid x = true /\ k = py "edit " ++ x) \/
  (is_edit (line c) = false /\ is_edit_key k = false).
Proof.
  intros (-> & x & Hx & [-> | ->]); unfold is_edit.
  - right. rewrite config_verb. done.
  - left. rewrite edit_verb. split_and!; [done|done|eauto].
Qed.

Lemma set_key_not_edit k c : set_child k c -> is_edit_key k = false.
Proof. intros (name & tail & _ & _ & _ & -> & _). done. Qed.

Lemma edit_keys_del k cs :
  NoDup (keys cs) -> edit_keys (del k cs) = List.filter (fun j => negb (bool_decide (j = k))) (edit_keys cs).
Proof.
  unfold edit_keys, keys. induction cs as [|[j c] cs IH]; simpl; [done|]. intros Hnd.
  inversion Hnd as [|? ? Hnot Hnd' E]; subst. case_bool_decide as Ej.
  - subst j. assert (forall l, k ∉ l -> List.filter (fun j => negb (bool_decide (j = k))) l = l) as Hf.
    { induction l as [|y l IHl]; [done|]. intros Hy. simpl. rewrite bool_decide_eq_false_2 by set_solver. simpl.
      rewrite IHl; [done|set_solver]. }
    assert (k ∉ List.filter is_edit_key (map fst cs)) as Hk.
    { rewrite list_elem_of_In, List.filter_In, <- list_elem_of_In. tauto. }
    destruct (is_edit_key k); simpl; [rewrite bool_decide_eq_true_2 by done; simpl|]; by rewrite Hf.
  - simpl. rewrite IH by done. destruct (is_edit_key j); simpl; [|done]. by rewrite bool_decide_eq_false_2.
Qed.

Lemma edit_keys_put k n cs :
  edit_keys (put k n cs) = edit_keys cs ++ (if has k cs then [] else if is_edit_key k then [k] else []).
Proof.
  unfold edit_keys. rewrite keys_put. destruct (has k cs); [by rewrite app_nil_r|]. rewrite filter_app. simpl.
  by destruct (is_edit_key k).
Qed.

(** ** Reordering a table *)

(** The pairs [_forti_moves] prints, and what a move does to a list. *)
Fixpoint move_pairs (i : nat) (desired current : list pystr) : list (pystr * pystr) :=
  match desired with
  | [] => []
  | name :: desired =>
      match current !! i with
      | Some c =>
          if bool_decide (c = name) then move_pairs (S i) desired current
          else (name, c) :: move_pairs (S i) desired (insert_at i name (remove_name name current))
      | None => move_pairs (S i) desired current
      end
  end.
Definition move_command (ab : pystr * pystr) : pystr := py "move " ++ fst ab ++ py " before " ++ snd ab.

Fixpoint put_before (b a : pystr) (l : list pystr) : list pystr :=
  match l with
  | [] => []
  | y :: l => if bool_decide (y = b) then a :: y :: l else y :: put_before b a l
  end.
Definition moved (l : list pystr) (ab : pystr * pystr) : list pystr :=
  put_before (snd ab) (fst ab) (remove_name (fst ab) l).

Lemma memb_in x l : memb x l = true <-> x ∈ l.
Proof.
  unfold memb. rewrite existsb_exists. setoid_rewrite <- list_elem_of_In. split.
  - by intros (y & Hy & ->%bool_decide_eq_true).
  - intros Hx. exists x. by rewrite bool_decide_eq_true_2.
Qed.
Lemma remove_name_other x y l : x ∈ l -> x = y \/ x ∈ remove_name y l.
Proof.
  induction l as [|z l IH]; simpl; [by intros ?%elem_of_nil|]. case_bool_decide as E.
  - intros [->|?]%elem_of_cons; auto.
  - rewrite !elem_of_cons. intros [->|?%IH]; tauto.
Qed.
Lemma elem_of_insert_at i x y l : y ∈ insert_at i x l <-> y = x \/ y ∈ l.
Proof.
  unfold insert_at. rewrite elem_of_app, elem_of_cons.
  assert (y ∈ l <-> y ∈ take i l \/ y ∈ drop i l) as -> by (by rewrite <- elem_of_app, take_drop). tauto.
Qed.

(** Names that are all present can be removed. *)
Lemma moves_from_pairs desired : forall i current,
  (forall n, n ∈ desired -> n ∈ current) ->
  moves_from i desired current = Ok (map move_command (move_pairs i desired current)).
Proof.
  induction desired as [|n d IH]; intros i cur Hin; simpl; [done|].
  assert (forall m, m ∈ d -> m ∈ cur) as Hd by (intros m Hm; apply Hin; by right).
  destruct (cur !! i) as [c|]; [|by apply IH]. case_bool_decide; [by apply IH|]. unfold list_remove.
  assert (memb n cur = true) as -> by (apply memb_in, Hin; by left). cbn [res_bind].
  rewrite IH; [done|]. intros m Hm. apply elem_of_insert_at. by apply remove_name_other, Hd.
Qed.

Lemma remove_name_app x l1 l2 : x ∉ l1 -> remove_name x (l1 ++ x :: l2) = l1 ++ l2.
Proof.
  induction l1 as [|y l1 IH]; simpl; intros Hx; [by rewrite bool_decide_eq_true_2|].
  rewrite bool_decide_eq_false_2 by set_solver. rewrite IH; [done|set_solver].
Qed.

Lemma put_before_app b a l1 l2 : b ∉ l1 -> put_before b a (l1 ++ b :: l2) = l1 ++ a :: b :: l2.
Proof.
  induction l1 as [|y l1 IH]; simpl; intros Hx; [by rewrite bool_decide_eq_true_2|].
  rewrite bool_decide_eq_false_2 by set_solver. rewrite IH; [done|set_solver].
Qed.

(** The moves put the list into the wanted order, each before a present name. *)
Fixpoint valid_moves (pairs : list (pystr * pystr)) (l : list pystr) : Prop :=
  match pairs with
  | [] => True
  | ab :: pairs => fst ab ∈ l /\ snd ab ∈ l /\ fst ab <> snd ab /\ valid_moves pairs (moved l ab)
  end.

Lemma move_pairs_sort desired : forall i pre rest,
  length pre = i -> NoDup (pre ++ rest) -> desired ≡ₚ rest ->
  foldl moved (pre ++ rest) (move_pairs i desired (pre ++ rest)) = pre ++ desired /\
  valid_moves (move_pairs i desired (pre ++ rest)) (pre ++ rest).
Proof.
  induction desired as [|n d IH]; intros i pre rest Hi Hnd Hp.
  { apply Permutation_nil in Hp as ->. done. }
  destruct rest as [|c r]; [by apply Permutation_nil_r in Hp|]. cbn [move_pairs].
  assert ((pre ++ c :: r) !! i = Some c) as -> by (subst i; by apply list_lookup_middle).
  destruct (decide (c = n)) as [->|Hne].
  - rewrite bool_decide_eq_true_2 by done. apply Permutation_cons_inv in Hp.
    assert (forall l, pre ++ n :: l = (pre ++ [n]) ++ l) as Ha by (intros l; by rewrite <- app_assoc).
    rewrite (Ha r) in Hnd |- *. rewrite (Ha d). apply IH; [rewrite length_app; simpl; lia|done|done].
  - rewrite bool_decide_eq_false_2 by done.
    assert (n ∈ r) as Hn.
    { assert (n ∈ c :: r) as [->|?]%elem_of_cons; [|done|done]. rewrite <- Hp. set_solver. }
    apply list_elem_of_split in Hn as (r1 & r2 & ->).
    assert (n ∉ pre ++ c :: r1) as Hn1.
    { replace (pre ++ c :: r1 ++ n :: r2) with ((pre ++ c :: r1) ++ n :: r2) in Hnd by by rewrite <- app_assoc.
      apply list.NoDup_app in Hnd as (_ & Hd & _). intros Hin. by apply (Hd n Hin), elem_of_cons; left. }
    assert (remove_name n (pre ++ c :: r1 ++ n :: r2) = pre ++ c :: r1 ++ r2) as Er.
    { replace (pre ++ c :: r1 ++ n :: r2) with ((pre ++ c :: r1) ++ n :: r2) by by rewrite <- app_assoc.
      rewrite remove_name_app by done. by rewrite <- app_assoc. }
    assert (c ∉ pre) as Hc.
    { apply list.NoDup_app in Hnd as (_ & Hd & _). intros Hin. by apply (Hd c Hin), elem_of_cons; left. }
    rewrite Er. unfold insert_at. subst i. rewrite take_app_length, drop_app_length. cbn [foldl valid_moves fst snd].
    assert (moved (pre ++ c :: r1 ++ n :: r2) (n, c) = pre ++ n :: c :: r1 ++ r2) as ->
      by (unfold moved; cbn [fst snd]; by rewrite Er, put_before_app).
    assert (pre ++ n :: c :: r1 ++ r2 = (pre ++ [n]) ++ c :: r1 ++ r2) as -> by by rewrite <- app_assoc.
    assert (pre ++ n :: d = (pre ++ [n]) ++ d) as -> by by rewrite <- app_assoc.
    destruct (IH (S (length pre)) (pre ++ [n]) (c :: r1 ++ r2)) as [E V].
    + rewrite length_app. simpl. lia.
    + rewrite <- app_assoc. simpl. assert (pre ++ n :: c :: r1 ++ r2 ≡ₚ pre ++ c :: r1 ++ n :: r2) as ->; [|done].
      apply Permutation_app_head, (Permutation_middle (c :: r1) r2 n).
    + apply (Permutation_cons_inv (a := n)). rewrite Hp. symmetry. apply (Permutation_middle (c :: r1) r2 n).
    + split; [done|]. split_and!; [set_solver|set_solver|congruence|done].
Qed.

(** Names and keys of a canonical table. *)
Definition edit_key (n : pystr) : pystr := py "edit " ++ n.
Definition named (cs : list (pystr * node)) : Prop :=
  forall k, k ∈ keys cs -> is_edit_key k = true -> exists x, solid x = true /\ k = edit_key x.

Lemma edit_key_inj a b : edit_key a = edit_key b -> a = b.
Proof. unfold edit_key. apply app_inv_head. Qed.

Lemma edit_key_is n : is_edit_key (edit_key n) = true.
Proof. reflexivity. Qed.

Lemma map_edit_key_inj l l' : map edit_key l = map edit_key l' -> l = l'.
Proof.
  revert l'. induction l as [|x l IH]; intros [|y l'] E; try done.
  pose proof (f_equal (List.hd []) E) as E1. pose proof (f_equal (@List.tl _) E) as E2. cbn in E1, E2.
  f_equal; [by apply edit_key_inj|by apply IH].
Qed.

Lemma edit_keys_in n cs : edit_key n ∈ edit_keys cs <-> edit_key n ∈ keys cs.
Proof.
  unfold edit_keys. rewrite list_elem_of_In, List.filter_In, <- list_elem_of_In. pose proof (edit_key_is n). tauto.
Qed.

Lemma canonical_named n : canonical n -> named (children n).
Proof.
  intros [_ Hc]%canonical_iff k Hk He. apply list_elem_of_fmap in Hk as ([k' c] & -> & Hin). simpl in *.
  destruct (Hc k' c Hin) as [Hs|[Hs _]]; [by rewrite (set_key_not_edit _ _ Hs) in He|].
  destruct (scope_kind _ _ Hs) as [(_ & _ & Hx)|[_ Hne]]; [done|by rewrite Hne in He].
Qed.

Lemma edit_names_named cs : named cs -> exists ns, edit_names cs = Ok ns /\ edit_keys cs = map edit_key ns.
Proof.
  induction cs as [|[k c] cs IH]; intros Hn; [by exists []|].
  destruct IH as (ns & E & Ek). { intros j Hj. apply Hn. simpl. set_solver. }
  unfold edit_keys. cbn [edit_names keys map fst List.filter]. change (is_prefix (py "edit ") k) with (is_edit_key k).
  destruct (is_edit_key k) eqn:Ei.
  - destruct (Hn k) as (x & Hx & ->); [simpl; set_solver|done|]. unfold edit_key. rewrite edit_argument by done. simpl.
    rewrite E. simpl. exists (x :: ns). split; [done|]. simpl. unfold edit_key in *. f_equal. exact Ek.
  - simpl. rewrite E. simpl. by exists ns.
Qed.

Lemma edit_keys_filter p cs :
  edit_keys (List.filter (fun kc => p (fst kc)) cs) = List.filter p (edit_keys cs).
Proof.
  unfold edit_keys, keys. induction cs as [|[k c] cs IH]; [done|]. simpl.
  destruct (p k) eqn:Ep; simpl; destruct (is_edit_key k); simpl; rewrite ?Ep, IH; done.
Qed.

Lemma filter_map_keys p ns : List.filter p (map edit_key ns) = map edit_key (List.filter (fun n => p (edit_key n)) ns).
Proof. induction ns as [|n ns IH]; [done|]. simpl. destruct (p (edit_key n)); simpl; by rewrite IH. Qed.

Lemma has_in k cs : has k cs = true <-> k ∈ keys cs.
Proof. unfold has. rewrite <- get_in. by destruct (get k cs). Qed.

Lemma elem_of_filter_bool {A} (p : A -> bool) x l : x ∈ List.filter p l <-> x ∈ l /\ p x = true.
Proof. by rewrite list_elem_of_In, List.filter_In, <- list_elem_of_In. Qed.

Lemma filter_all {A} (p : A -> bool) l : (forall x, x ∈ l -> p x = true) -> List.filter p l = l.
Proof.
  induction l as [|y l IH]; intros Hp; [done|]. simpl. rewrite Hp by set_solver. rewrite IH; [done|]. intros x Hx. apply Hp. set_solver.
Qed.

Lemma filter_none {A} (p : A -> bool) l : (forall x, x ∈ l -> p x = false) -> List.filter p l = [].
Proof.
  induction l as [|y l IH]; intros Hp; [done|]. simpl. rewrite Hp by set_solver. apply IH. intros x Hx. apply Hp. set_solver.
Qed.

Lemma filter_filter_bool {A} (p q : A -> bool) l :
  List.filter p (List.filter q l) = List.filter (fun x => q x && p x) l.
Proof. induction l as [|y l IH]; [done|]. simpl. destruct (q y); simpl; [destruct (p y); by rewrite IH|done]. Qed.

Lemma nodup_filter_bool {A} (p : A -> bool) l : NoDup l -> NoDup (List.filter p l).
Proof.
  induction 1 as [|x l Hx Hl IH]; simpl; [constructor|]. destruct (p x); [|done]. constructor; [|done].
  rewrite elem_of_filter_bool. tauto.
Qed.

(** The order a table is left in before the moves, by names. *)
Lemma current_names b l :
  canonical b -> canonical l ->
  exists desired kept,
    edit_names (children b) = Ok desired /\
    edit_names (List.filter (fun kc => has (fst kc) (children b)) (children l)) = Ok kept /\
    let current := kept ++ List.filter (fun n => negb (has (py "edit " ++ n) (children l))) desired in
    edit_keys (children b) = map edit_key desired /\
    map edit_key current = List.filter (fun k => has k (children b)) (edit_keys (children l)) ++
                           List.filter (fun k => negb (has k (children l))) (edit_keys (children b)) /\
    NoDup current /\ desired ≡ₚ current /\ List.filter (fun c => memb c desired) current = current.
Proof.
  intros Hb Hl. destruct (edit_names_named _ (canonical_named b Hb)) as (desired & Ed & Kd).
  destruct (edit_names_named (List.filter (fun kc => has (fst kc) (children b)) (children l))) as (kept & Ek & Kk).
  { intros k Hk He. apply list_elem_of_fmap in Hk as ([k' c] & -> & Hin%elem_of_filter_bool).
    apply (canonical_named l Hl); [|done]. apply list_elem_of_fmap. exists (k', c). tauto. }
  exists desired, kept. split; [done|]. split; [done|]. cbv zeta. split; [done|].
  rewrite (edit_keys_filter (fun k => has k (children b))) in Kk. set (new := List.filter _ desired).
  assert (map edit_key new = List.filter (fun k => negb (has k (children l))) (edit_keys (children b))) as Kn
    by by rewrite Kd, filter_map_keys.
  split; [by rewrite map_app, Kn, Kk|].
  assert (forall n, n ∈ desired <-> edit_key n ∈ keys (children b)) as Hdes.
  { intros n. assert (edit_key n ∈ edit_keys (children b) <-> edit_key n ∈ keys (children b)) as <-.
    { apply edit_keys_in. }
    rewrite Kd, list_elem_of_fmap. split; [intros Hn; by exists n|]. by intros (m & ->%edit_key_inj & Hm). }
  assert (forall n, n ∈ kept <-> edit_key n ∈ keys (children l) /\ has (edit_key n) (children b) = true) as Hkept.
  { intros n. assert (edit_key n ∈ map edit_key kept <-> edit_key n ∈ keys (children l) /\ has (edit_key n) (children b) = true) as <-.
    { by rewrite <- Kk, elem_of_filter_bool, edit_keys_in. }
    rewrite list_elem_of_fmap. split; [intros Hn; by exists n|]. by intros (m & ->%edit_key_inj & Hm). }
  assert (forall n, n ∈ new <-> n ∈ desired /\ has (edit_key n) (children l) = false) as Hnew.
  { intros n. unfold new. rewrite elem_of_filter_bool. by rewrite negb_true_iff. }
  assert (forall n, n ∈ kept ++ new <-> n ∈ desired) as Hall.
  { intros n. rewrite elem_of_app, Hkept, Hnew, Hdes. rewrite has_in.
    destruct (has (edit_key n) (children l)) eqn:E; [apply has_in in E; tauto|].
    split; [tauto|]. auto. }
  assert (forall ns cs, NoDup (keys cs) -> map edit_key ns = List.filter is_edit_key (keys cs) -> NoDup ns) as Hnd.
  { intros ns cs Hn E. apply (list.NoDup_fmap_1 edit_key). change (NoDup (map edit_key ns)). rewrite E. by apply nodup_filter_bool. }
  assert (NoDup (kept ++ new)) as Hcur.
  { apply list.NoDup_app. split_and!.
    - apply (list.NoDup_fmap_1 edit_key). change (NoDup (map edit_key kept)). rewrite <- Kk.
      apply nodup_filter_bool, nodup_filter_bool. by apply canonical_iff in Hl as [? _].
    - intros n Hn Hn'. apply Hkept in Hn as [Hn _]. apply Hnew in Hn' as [_ Hn']. apply has_in in Hn. congruence.
    - apply nodup_filter_bool. apply (Hnd desired (children b)); [by apply canonical_iff in Hb as [? _]|done]. }
  split_and!; [done| |].
  - apply list.NoDup_Permutation; [|done|intros n; by rewrite Hall].
    apply (Hnd desired (children b)); [by apply canonical_iff in Hb as [? _]|done].
  - apply filter_all. intros n Hn. apply memb_in. by apply Hall.
Qed.

Lemma move_pairs_same d : forall pre, move_pairs (length pre) d (pre ++ d) = [].
Proof.
  induction d as [|n d IH]; intros pre; [done|]. cbn [move_pairs]. rewrite list_lookup_middle by done.
  rewrite bool_decide_eq_true_2 by done.
  replace (pre ++ n :: d) with ((pre ++ [n]) ++ d) by by rewrite <- app_assoc.
  replace (S (length pre)) with (length (pre ++ [n])) by (rewrite length_app; simpl; lia). apply IH.
Qed.

(** ** When a device matches a backup *)

Definition same_value (b l : pystr) : Prop := l = b \/ (_is_enc b = true /\ _is_enc l = true).
Definition ordered_scope (l : pystr) : bool := is_prefix (py "config ") l && ordered_table l.

(** Every setting of the backup has its value (two encrypted values cannot be
    told apart), every scope of the backup is there and matches, the device has
    nothing else but bare scopes, and the entries of an ordered table come in
    the backup's order. *)
Fixpoint matches (b l : node) : Prop :=
  (fix all (bs : list (pystr * node)) : Prop :=
     match bs with
     | [] => True
     | (k, c) :: bs =>
         match get k (children l) with
         | None => False
         | Some c' => if is_set (line c) then same_value (line c) (line c') else matches c c'
         end /\ all bs
     end) (children b) /\
  (forall k c, (k, c) ∈ children l -> has k (children b) = false -> bare_child c) /\
  (ordered_scope (line b) = true -> edit_keys (children l) = edit_keys (children b)).

Definition good (c c' : node) : Prop :=
  if is_set (line c) then same_value (line c) (line c') else matches c c'.

Lemma matches_iff b l :
  matches b l <->
  (forall k c, (k, c) ∈ children b -> exists c', get k (children l) = Some c' /\ good c c') /\
  (forall k c, (k, c) ∈ children l -> has k (children b) = false -> bare_child c) /\
  (ordered_scope (line b) = true -> edit_keys (children l) = edit_keys (children b)).
Proof.
  destruct b as [ln bs]. cbn [matches children line]. apply and_iff_compat_r.
  induction bs as [|[k c] bs IH]; [set_solver|]. rewrite IH. setoid_rewrite elem_of_cons. split.
  - intros [H1 H2] k' c' [[= -> ->]|Hin]; [|by apply H2]. unfold good. destruct (get k (children l)); [eauto|done].
  - intros H1. split; [|intros k' c' Hin; by apply H1; right].
    destruct (H1 k c) as (c' & -> & Hg); [by left|done].
Qed.

Lemma matches_refl b : canonical b -> matches b b.
Proof.
  induction b as [ln bs IH] using node_induction. intros [Hnd Hc]%canonical_iff. apply matches_iff. simpl in *.
  split_and!; [|intros k c Hin Hh; unfold has in Hh; by rewrite (get_elem _ _ _ Hnd Hin) in Hh|done].
  intros k c Hin. exists c. split; [by apply get_elem|]. unfold good.
  destruct (Hc k c Hin) as [Hs|[Hs Hcan]].
  - rewrite (set_child_is_set _ _ Hs). by left.
  - rewrite (scope_child_not_set _ _ Hs). by eapply IH.
Qed.

(** The path under which a node is compared ends with its line. *)
Definition path_of (b : node) (path : list pystr) : Prop :=
  (path = [] /\ line b = []) \/ list.last path = Some (line b).

Lemma path_of_ordered b path : path_of b path -> is_ordered_scope path = ordered_scope (line b).
Proof. unfold is_ordered_scope, ordered_scope. by intros [[-> ->] | ->]. Qed.

(** One turn of the first loop of [_forti_diff], and the loop. *)
Definition common_child (live : list (pystr * node)) (path : list pystr) (key : pystr) (b : node) (st : progress)
    : res tree_error progress :=
  match get key live with
  | None =>
      if is_set (line b) then Ok (mark path Plus (line b) (emit [line b] st))
      else
        let st := emit (line b :: _forti_body b ++ [closer (line b)]) st in
        Ok (mark_all path Plus (flatten 1 b) (mark path Plus (line b) st))
  | Some l =>
      if is_set (line b) then
        if bool_decide (line l = line b) then Ok st
        else if _is_enc (line b) && _is_enc (line l) then Ok (skip path key st)
        else Ok (mark path Plus (line b) (mark path Minus (line l) (emit [line b] st)))
      else
        let! (inner, d) := _forti_diff b l (path ++ [line b]) (out st) in
        let st := {| cmds := cmds st; section := section st; out := d |} in
        Ok (match inner with
            | [] => st
            | _ => emit (line b :: inner ++ [closer (line b)]) st
            end)
  end.
Fixpoint diff_common (live : list (pystr * node)) (path : list pystr) (bs : list (pystr * node)) (st : progress)
    : res tree_error progress :=
  match bs with
  | [] => Ok st
  | (key, b) :: bs => let! st := common_child live path key b st in diff_common live path bs st
  end.

Lemma forti_diff_eq b l path d :
  _forti_diff b l path d =
    let! st := diff_common (children l) path (children b) {| cmds := []; section := None; out := d |} in
    let! st := diff_extra (children b) (children l) path st in
    let! st := diff_order (children b) (children l) path st in
    Ok (cmds st, out st).
Proof.
  destruct b as [ln bs]. cbn [_forti_diff children]. generalize {| cmds := []; section := None; out := d |}.
  intros st. f_equal. revert st. induction bs as [|[k c] bs IH]; intros st; [done|].
  cbn [diff_common]. unfold common_child at 1. destruct (get k (children l)) as [lc|];
    destruct (is_set (line c)); simpl; rewrite ?IH; try done.
  - destruct (bool_decide _); simpl; [apply IH|]. destruct (_ && _); simpl; apply IH.
  - destruct (_forti_diff _ _ _ _) as [[inner d']|]; simpl; [apply IH|done].
Qed.

(** Marking and skipping leave the commands alone. *)
Lemma cmds_mark path o t st : cmds (mark path o t st) = cmds st.
Proof. unfold mark. by destruct (section st). Qed.
Lemma cmds_mark_all path o ls st : cmds (mark_all path o ls st) = cmds st.
Proof.
  unfold mark_all. revert st. induction ls as [|l ls IH]; intros st; [done|]. simpl. by rewrite IH, cmds_mark.
Qed.
Lemma cmds_emit cs st : cmds (emit cs st) = cmds st ++ cs.
Proof. done. Qed.
Lemma cmds_skip path k st : cmds (skip path k st) = cmds st.
Proof. done. Qed.
#[export] Hint Rewrite cmds_mark cmds_mark_all cmds_emit cmds_skip : ngc.

(** A device that matches gives an empty difference. *)
Lemma common_child_good live path key c st :
  (exists l, get key live = Some l /\ good c l) ->
  (forall l path d, matches c l -> path_of c path -> exists d', _forti_diff c l path d = Ok ([], d')) ->
  exists st', common_child live path key c st = Ok st' /\ cmds st' = cmds st.
Proof.
  intros (l & Hg & Hgood) Hrec. unfold common_child. rewrite Hg. unfold good in Hgood.
  destruct (is_set (line c)).
  - case_bool_decide; [by exists st|]. destruct Hgood as [?|[-> ->]]; [done|]. eexists. split; [done|apply cmds_skip].
  - destruct (Hrec l (path ++ [line c]) (out st)) as (d' & ->); [done|right; by rewrite last_snoc|].
    eexists. split; [done|done].
Qed.

Lemma diff_common_good live path bs : forall st,
  (forall k c, (k, c) ∈ bs -> exists l, get k live = Some l /\ good c l) ->
  (forall k c, (k, c) ∈ bs -> forall l path d, matches c l -> path_of c path -> exists d', _forti_diff c l path d = Ok ([], d')) ->
  exists st', diff_common live path bs st = Ok st' /\ cmds st' = cmds st.
Proof.
  induction bs as [|[k c] bs IH]; intros st Hg Hrec; [by exists st|]. cbn [diff_common].
  destruct (common_child_good live path k c st) as (st1 & -> & E1); [apply Hg; by left|apply (Hrec k); by left|].
  destruct (IH st1) as (st2 & E & E2); [intros j d Hd; apply Hg; by right|intros j d Hd; apply (Hrec j); by right|].
  exists st2. split; [exact E|congruence].
Qed.

Lemma diff_extra_bare bs path ls : forall st,
  (forall k l, (k, l) ∈ ls -> has k bs = false -> bare_child l) -> diff_extra bs ls path st = Ok st.
Proof.
  induction ls as [|[k l] ls IH]; intros st Hb; [done|]. cbn [diff_extra].
  assert (extra_child bs path k l st = Ok st) as ->.
  { unfold extra_child. destruct (has k bs) eqn:Eh; [done|]. destruct (Hb k l) as (-> & -> & Hl); [by left|done|].
    apply clear_bare in Hl as ->. done. }
  apply IH. intros j d Hd. apply (Hb j). by right.
Qed.

Lemma diff_order_same b l path st :
  canonical b -> (is_ordered_scope path = true -> edit_keys (children l) = edit_keys (children b)) ->
  exists st', diff_order (children b) (children l) path st = Ok st' /\ cmds st' = cmds st.
Proof.
  intros Hb Ho. unfold diff_order. destruct (is_ordered_scope path); [|by exists st]. specialize (Ho eq_refl).
  destruct (edit_names_named _ (canonical_named b Hb)) as (desired & Ed & Kd). rewrite Ed.
  destruct (edit_names_named (List.filter (fun kc => has (fst kc) (children b)) (children l))) as (kept & Ek & Kk).
  { intros k Hk He. apply list_elem_of_fmap in Hk as ([k' c] & -> & [Hin _]%elem_of_filter_bool).
    apply (canonical_named b Hb); [|done]. assert (k' ∈ edit_keys (children b)) as Hb'.
    { rewrite <- Ho. apply elem_of_filter_bool. split; [|done]. apply list_elem_of_fmap. by exists (k', c). }
    by apply elem_of_filter_bool in Hb' as [? _]. }
  rewrite Ek. cbn [res_bind]. rewrite (edit_keys_filter (fun k => has k (children b))), Ho in Kk.
  rewrite filter_all in Kk by (intros k [Hk _]%elem_of_filter_bool; by apply has_in).
  rewrite Kd in Kk. apply map_edit_key_inj in Kk as <-.
  assert (List.filter (fun n => negb (has (py "edit " ++ n) (children l))) desired = []) as ->.
  { apply filter_none. intros n Hn. apply negb_false_iff, has_in. apply edit_keys_in. rewrite Ho, Kd.
    by apply list_elem_of_fmap_2. }
  rewrite app_nil_r. unfold _forti_moves. rewrite filter_all by (intros n Hn; by apply memb_in).
  rewrite moves_from_pairs by done. rewrite (move_pairs_same desired [] : move_pairs 0 desired desired = []). simpl.
  eexists. split; [done|]. by rewrite cmds_emit, app_nil_r.
Qed.

Lemma matched_diff_empty b : canonical b -> forall l path d,
  matches b l -> path_of b path -> exists d', _forti_diff b l path d = Ok ([], d').
Proof.
  induction b as [ln bs IH] using node_induction. intros Hb l path d Hm Hpath.
  pose proof Hb as Hb'. apply canonical_iff in Hb' as [Hbnd Hbc]. apply matches_iff in Hm as (Hg & Hbare & Ho).
  cbn [children line] in *. rewrite forti_diff_eq. cbn [children]. set (st0 := {| cmds := []; section := None; out := d |}).
  destruct (diff_common_good (children l) path bs st0 Hg) as (st1 & -> & E1).
  { intros k c Hin l' path' d' Hm' Hp'. destruct (Hbc k c Hin) as [Hs|[_ Hcan]]; [|by eapply IH].
    destruct Hs as (name & tail & _ & _ & _ & _ & Hnil). destruct c as [cl cc]. simpl in Hnil. subst cc.
    apply (IH k (Node cl []) Hin); [|done|done]. apply canonical_iff. split; [constructor|set_solver]. }
  cbn [res_bind]. rewrite (diff_extra_bare bs path (children l) st1).
  2: { exact Hbare. }
  cbn [res_bind]. destruct (diff_order_same (Node ln bs) l path st1 Hb) as (st2 & E & E2).
  { pose proof (path_of_ordered (Node ln bs) path Hpath) as Hord. cbn [line] in Hord. by rewrite Hord. }
  cbn [children] in E. rewrite E. cbn [res_bind]. exists (out st2). by rewrite E2, E1.
Qed.

(** ** The preview shows a change exactly when there are commands *)

Definition nonempty {A} (l : list A) : bool := match l with [] => false | _ => true end.
Definition section_open (st : progress) : Prop :=
  match section st with Some i => (i < length (sections (out st)))%nat | None => True end.

(** From [st] to [st'], some commands were added and, when there are any, a
    change was shown. *)
Definition shown (st st' : progress) (some : bool) : Prop :=
  section_open st ->
  section_open st' /\ (length (sections (out st)) <= length (sections (out st')))%nat /\
  is_empty (out st') = is_empty (out st) && negb some.
Definition traced (st st' : progress) : Prop :=
  exists here, cmds st' = cmds st ++ here /\ shown st st' (nonempty here).

Lemma shown_trans st1 st2 st3 x y : shown st1 st2 x -> shown st2 st3 y -> shown st1 st3 (x || y).
Proof.
  intros H1 H2 Ho. destruct (H1 Ho) as (Ho2 & Hl & E1). destruct (H2 Ho2) as (Ho3 & Hl2 & E2).
  split_and!; [done|lia|]. rewrite E2, E1. destruct (is_empty (out st1)), x, y; simpl; reflexivity.
Qed.

Lemma nonempty_app {A} (l l' : list A) : nonempty (l ++ l') = nonempty l || nonempty l'.
Proof. by destruct l. Qed.

Lemma traced_refl st : traced st st.
Proof. exists []. rewrite app_nil_r. split; [done|]. intros Ho. split_and!; [done|lia|by rewrite andb_true_r]. Qed.

Lemma traced_trans st1 st2 st3 : traced st1 st2 -> traced st2 st3 -> traced st1 st3.
Proof.
  intros (h1 & E1 & S1) (h2 & E2 & S2). exists (h1 ++ h2). rewrite E2, E1, app_assoc. split; [done|].
  rewrite nonempty_app. by eapply shown_trans.
Qed.

(** One marked line. *)
Lemma shown_mark path o t st : o <> Context -> shown st (mark path o t st) true.
Proof.
  intros Ho Hopen. unfold mark, section_open in *. destruct (section st) as [i|] eqn:Es; cbn [section out sections].
  - rewrite length_alter. split_and!; [done|lia|]. rewrite andb_false_r. unfold is_empty. apply negb_false_iff.
    destruct (lookup_lt_is_Some_2 _ _ Hopen) as [sec Hsec]. apply existsb_exists.
    exists (Section_ (title sec) (lines sec ++ [Line o t])). split.
    + apply list_elem_of_In, list_elem_of_lookup. exists i. cbn [sections]. by rewrite list_lookup_alter_eq, Hsec.
    + cbn [lines]. rewrite existsb_app. apply orb_true_intro. right. destruct o; done.
  - rewrite length_app. simpl. split_and!; [lia|lia|]. rewrite andb_false_r. unfold is_empty. cbn [sections].
    rewrite existsb_app. apply negb_false_iff, orb_true_intro. right. destruct o; done.
Qed.

Lemma shown_mark_all path o ls st : o <> Context -> exists x, shown st (mark_all path o ls st) x.
Proof.
  intros Ho. unfold mark_all. revert st. induction ls as [|l ls IH]; intros st; simpl.
  - exists false. intros Hopen. split_and!; [done|lia|by rewrite andb_true_r].
  - destruct (IH (mark path o (indent (fst l) (snd l)) st)) as [x Hx]. exists (true || x).
    eapply shown_trans; [by apply shown_mark|exact Hx].
Qed.

(** Commands with at least one marked line after them. *)
Lemma traced_emit_mark cs path o t st : nonempty cs = true -> o <> Context -> traced st (mark path o t (emit cs st)).
Proof. intros Hc Ho. exists cs. rewrite cmds_mark, Hc. split; [done|]. intros Hopen. by apply (shown_mark path o t (emit cs st)). Qed.

Lemma traced_more st st' st'' x :
  traced st st' -> cmds st' <> cmds st -> shown st' st'' x -> cmds st'' = cmds st' -> traced st st''.
Proof.
  intros (h & E & S) Hne Sx Ec. exists h. split; [congruence|]. assert (nonempty h = true) as Hh.
  { destruct h; [rewrite app_nil_r in E; done|done]. }
  rewrite Hh in *. replace true with (true || x) by done. by eapply shown_trans.
Qed.

Lemma app_longer {A} (l c : list A) : nonempty c = true -> l ++ c <> l.
Proof. destruct c; [done|]. intros _ E. apply (f_equal length) in E. rewrite length_app in E. simpl in E. lia. Qed.

Definition previews (b : node) : Prop :=
  forall l path d cs d', _forti_diff b l path d = Ok (cs, d') ->
    (length (sections d) <= length (sections d'))%nat /\ is_empty d' = is_empty d && negb (nonempty cs).

Lemma common_child_traced live path key c st st' :
  previews c -> common_child live path key c st = Ok st' -> traced st st'.
Proof.
  intros Hc. unfold common_child. destruct (get key live) as [l|]; destruct (is_set (line c)).
  - case_bool_decide; [intros [= <-]; apply traced_refl|]. destruct (_ && _); intros [= <-].
    + exists []. rewrite cmds_skip, app_nil_r. split; [done|]. intros Ho. split_and!; [done|done|by rewrite andb_true_r].
    + eapply traced_more; [apply (traced_emit_mark [line c] path Minus (line l)); done| |by apply shown_mark|by apply cmds_mark].
      rewrite cmds_mark, cmds_emit. by apply app_longer.
  - destruct (_forti_diff c l _ _) as [[inner d']|] eqn:E; simpl; [|done]. intros [= <-].
    apply Hc in E as [Hl He].
    assert (shown st {| cmds := cmds st; section := section st; out := d' |} (nonempty inner)) as Hs.
    { unfold shown, section_open. cbn [section out]. intros Ho. split_and!; [destruct (section st); [lia|done]|done|done]. }
    destruct inner as [|i inner]; [exists []; split; [by rewrite app_nil_r|exact Hs]|].
    exists (line c :: (i :: inner) ++ [closer (line c)]). split; [done|exact Hs].
  - intros [= <-]. by apply traced_emit_mark.
  - intros [= <-]. destruct (shown_mark_all path Plus (flatten 1 c)
      (mark path Plus (line c) (emit (line c :: _forti_body c ++ [closer (line c)]) st))) as [x Hx]; [done|].
    eapply traced_more; [apply (traced_emit_mark (line c :: _forti_body c ++ [closer (line c)]) path Plus (line c)); done| |exact Hx|by rewrite cmds_mark_all].
    rewrite cmds_mark, cmds_emit. by apply app_longer.
Qed.

Lemma extra_child_traced bs path key l st st' : extra_child bs path key l st = Ok st' -> traced st st'.
Proof.
  unfold extra_child. destruct (has key bs); [intros [= <-]; apply traced_refl|].
  destruct (is_set (line l)); [|destruct (is_edit (line l))].
  - destruct (argument key); simpl; [|done]. intros [= <-]. by apply traced_emit_mark.
  - destruct (argument (line l)) as [name|]; simpl; [|done]. intros [= <-].
    destruct (shown_mark_all path Minus (flatten 1 l) (mark path Minus (line l) (emit [py "delete " ++ name] st))) as [x Hx]; [done|].
    eapply traced_more; [apply (traced_emit_mark [py "delete " ++ name] path Minus (line l)); done| |exact Hx|by rewrite cmds_mark_all].
    rewrite cmds_mark, cmds_emit. by apply app_longer.
  - destruct (_forti_clear l) as [inner|]; simpl; [|done]. intros [= <-].
    destruct inner; [apply traced_refl|by apply traced_emit_mark].
Qed.

Lemma diff_order_traced b l path st st' : diff_order b l path st = Ok st' -> traced st st'.
Proof.
  unfold diff_order. destruct (is_ordered_scope path); [|intros [= <-]; apply traced_refl].
  destruct (edit_names b) as [l0|]; cbn [res_bind]; [|done].
  destruct (edit_names _) as [l1|]; cbn [res_bind]; [|done].
  destruct (_forti_moves l0 _) as [moves|]; cbn [res_bind]; [|done]. intros [= <-].
  destruct moves as [|m ms]; [exists []; split; [done|]|].
  { intros Ho. split_and!; [done|done|by rewrite andb_true_r]. }
  assert (forall ms st, exists x, shown st (foldl (fun st m => mark path Plus m st) st ms) x) as Hms.
  { clear. intros ms. induction ms as [|m ms IH]; intros st; simpl.
    - exists false. intros Ho. split_and!; [done|done|by rewrite andb_true_r].
    - destruct (IH (mark path Plus m st)) as [x Hx]. exists (true || x). eapply shown_trans; [|exact Hx]. by apply shown_mark. }
  cbn [foldl]. destruct (Hms ms (mark path Plus m (emit (m :: ms) st))) as [x Hx].
  eapply traced_more; [apply (traced_emit_mark (m :: ms) path Plus m); done| |exact Hx|].
  - rewrite cmds_mark, cmds_emit. by apply app_longer.
  - assert (forall ms st, cmds (foldl (fun st m => mark path Plus m st) st ms) = cmds st) as Hc.
    { clear. intros ms. induction ms as [|m ms IH]; intros st; [done|]. simpl. by rewrite IH, cmds_mark. }
    apply Hc.
Qed.

Lemma diff_previews b : previews b.
Proof.
  induction b as [ln bs IH] using node_induction. intros l path d cs d'. rewrite forti_diff_eq. cbn [children].
  set (st0 := {| cmds := []; section := None; out := d |}).
  assert (forall js st st', (forall k c, (k, c) ∈ js -> previews c) -> diff_common (children l) path js st = Ok st' -> traced st st') as Hcommon.
  { clear. intros js. induction js as [|[k c] js IH]; intros st st' Hp; cbn [diff_common]; [intros [= <-]; apply traced_refl|].
    destruct (common_child _ _ _ _ _) as [st1|] eqn:E1; simpl; [|done]. intros E2.
    eapply traced_trans; [eapply common_child_traced; [|exact E1]; apply (Hp k); by left|].
    eapply IH; [|exact E2]. intros k' c' Hin. apply (Hp k'). by right. }
  assert (forall ls st st', diff_extra bs ls path st = Ok st' -> traced st st') as Hextra.
  { clear. intros ls. induction ls as [|[k c] ls IH]; intros st st'; cbn [diff_extra]; [intros [= <-]; apply traced_refl|].
    destruct (extra_child _ _ _ _ _) as [st1|] eqn:E1; simpl; [|done]. intros E2.
    eapply traced_trans; [by eapply extra_child_traced|by eapply IH]. }
  destruct (diff_common _ _ _ _) as [st1|] eqn:E1; cbn [res_bind]; [|done].
  destruct (diff_extra _ _ _ _) as [st2|] eqn:E2; cbn [res_bind]; [|done].
  destruct (diff_order _ _ _ _) as [st3|] eqn:E3; cbn [res_bind]; [|done]. intros [= <- <-].
  assert (traced st0 st3) as (here & Ec & Hs).
  { eapply traced_trans; [by eapply Hcommon|]. eapply traced_trans; [by eapply Hextra|by eapply diff_order_traced]. }
  destruct (Hs I) as (_ & Hlen & He). rewrite Ec. done.
Qed.
