(* ===== verification/CiscoTree.v ===== *)
(** * Configuration trees: Cisco IOS
    (src/app/modules/backup/restore/config_tree.py, the second half)

    A running configuration is read into a tree by the indentation of its
    lines.  The parser's stack of (indent, node) pairs is a stack of (indent,
    path) pairs, as in [ConfigTree]. *)
From S2P Require Import Prelude PyStr ConfigTree.

(** ** Characters and patterns *)

(** [\w] on the modelled characters. *)
Definition is_wordchar (c : ascii) : bool :=
  is_alnum c || bool_decide (ord c ∈ [95; 170; 178; 179; 181; 185; 186; 188; 189; 190])
  || between 192 214 c || between 216 246 c || between 248 255 c.
Definition hash : ascii := "#"%char.

(** [_CISCO_PROMPT_RE.match] on a stripped line. *)
Definition name_char (c : ascii) : bool :=
  is_wordchar c || bool_decide (c = "."%char) || bool_decide (c = "-"%char).
Definition after_name (s : pystr) : bool :=
  match s with
  | c :: s => (bool_decide (c = hash) || bool_decide (c = ">"%char)) &&
              let r := lstrip s in (bool_decide (r = []) || is_prefix (py "show ") r)
  | [] => false
  end.
Definition is_cisco_prompt (s : pystr) : bool :=
  let rest := drop_while name_char s in
  negb (bool_decide (take_while name_char s = [])) &&
  (after_name rest ||
   (is_prefix (py "(") rest &&
    match partition1 ")"%char (drop 1 rest) with (_, Some tail) => after_name tail | (_, None) => false end)).

(** [_CISCO_UNRESTORABLE.match] *)
Definition certificate_chain : pystr := py "crypto pki certificate chain".
Definition unrestorable (s : pystr) : bool :=
  is_prefix certificate_chain s &&
  match drop (length certificate_chain) s with c :: _ => negb (is_wordchar c) | [] => true end.

Definition _CISCO_SKIP_PREFIXES : list pystr :=
  map py ["building configuration"; "current configuration"; "load for "; "time source is"; "ntp clock-period"]%string.
Definition _CISCO_SINGLE_VALUE_HEADS : list pystr :=
  map py ["hostname"; "description"; "ip address"; "ip default-gateway"; "ip domain-name";
          "ip domain name"; "clock timezone"; "enable secret"; "enable password";
          "snmp-server location"; "snmp-server contact"; "exec-timeout"; "ip ssh version";
          "ip ssh time-out"; "ip ssh authentication-retries"; "logging buffered";
          "login block-for"; "password"; "transport input"; "transport output";
          "access-class"; "switchport mode"; "switchport access vlan"; "speed"; "duplex"; "mtu"]%string.
Definition _CISCO_MULTI_VALUE_HEADS : list pystr :=
  map py ["logging host"; "ntp server"; "ntp peer"; "ip route"; "snmp-server host";
          "snmp-server community"; "ip name-server"; "access-list"; "permit"; "deny";
          "remark"; "ip dhcp excluded-address"; "boot system"; "neighbor"; "network";
          "ip helper-address"; "switchport trunk allowed vlan add"]%string.

Definition has_head (low head : pystr) : bool := bool_decide (low = head) || is_prefix (head ++ py " ") low.
Definition words (s : pystr) : list pystr := split_ws (length s) s.
Fixpoint join (sep : pystr) (ls : list pystr) : pystr :=
  match ls with [] => [] | [l] => l | l :: ls => l ++ sep ++ join sep ls end.

(** [_setting_id] *)
Definition _setting_id (line : pystr) : pystr :=
  let low := lower line in
  if existsb (has_head low) _CISCO_MULTI_VALUE_HEADS then []
  else
    match List.find (has_head low) _CISCO_SINGLE_VALUE_HEADS with
    | Some head => head
    | None =>
        let toks := words low in
        let toks := match toks with t :: rest => if bool_decide (t = py "no") then rest else toks | [] => [] end in
        if (3 <=? length toks)%nat then join (py " ") (take 2 toks)
        else match toks with t :: _ => t | [] => [] end
    end.

(** ** Reading *)
Definition spaces (n : nat) : pystr := replicate n " "%char.

(** [_cisco_block] *)
Fixpoint _cisco_block (depth : nat) (n : node) : list pystr :=
  (spaces depth ++ line n) ::
  match children n with
  | [] => []
  | cs => flat_map (fun kc => _cisco_block (S depth) (snd kc)) cs ++ [spaces depth ++ py "exit"]
  end.

Definition ctrl_c : pystr := py "^C".
(** [delim in s], [s.split(delim, 1)[0]] *)
Fixpoint before_delim (s : pystr) : option pystr :=
  if is_prefix ctrl_c s then Some []
  else match s with c :: s => (c ::.) <$> before_delim s | [] => None end.
Fixpoint banner_rest (lines : list pystr) : list pystr * list pystr :=
  match lines with
  | [] => ([], [])
  | nxt :: lines =>
      match before_delim nxt with
      | Some t => ([t], lines)
      | None => let '(texts, rest) := banner_rest lines in (nxt :: texts, rest)
      end
  end.
Definition is_newline (c : ascii) : bool := ord c =? 10.
Definition strip_newlines (s : pystr) : pystr := rev (drop_while is_newline (rev (drop_while is_newline s))).
Definition newline : pystr := [chr 10].

(** The text of a banner and the lines after it. *)
Definition banner_text (body : pystr) (lines : list pystr) : pystr * list pystr :=
  let rest := if is_prefix ctrl_c body then drop (length ctrl_c) body else body in
  let '(texts, lines) :=
    match before_delim rest with
    | Some t => ([t], lines)
    | None => let '(texts, lines) := banner_rest lines in (rest :: texts, lines)
    end in
  (strip_newlines (join newline texts), lines).

Definition text_key : pystr := py "__text__".
Definition cisco_dropped (stripped : pystr) : bool :=
  bool_decide (stripped = []) || is_prefix (py "!") stripped || is_cisco_prompt stripped
  || existsb (fun p => is_prefix p (lower stripped)) _CISCO_SKIP_PREFIXES
  || bool_decide (lower stripped = py "end") || is_prefix (py "show running-config") (lower stripped).
Definition leading_spaces (s : pystr) : Z := Z.of_nat (length (take_while (fun c => bool_decide (c = " "%char)) s)).
Definition stack : Type := list (Z * list pystr).
Definition bottom : stack := [(-1, [])].
Fixpoint unwind (indent : Z) (st : stack) : stack :=
  match st with
  | [] => []
  | (i, p) :: st' => if indent <=? i then unwind indent st' else st
  end.

(** The loop of [parse_cisco]; a line or a banner is consumed at each turn. *)
Fixpoint parse_cisco_lines (fuel : nat) (lines : list pystr) (root : node) (st : stack) : node :=
  match fuel, lines with
  | O, _ | _, [] => root
  | S fuel, l :: lines =>
      let raw := rstrip l in
      let stripped := strip raw in
      if cisco_dropped stripped then parse_cisco_lines fuel lines root st
      else if is_prefix (py "banner ") (lower stripped) then
        let parts := split_ws 2 stripped in
        let body := nth 2 parts [] in
        let '(text, lines) := banner_text body lines in
        let key := py "banner " ++ nth 1 parts [] in
        let b := Node key [(text_key, Node text [])] in
        parse_cisco_lines fuel lines (with_children (put key b) root) bottom
      else
        let indent := leading_spaces raw in
        let st := unwind indent st in
        let path := match st with (_, p) :: _ => p | [] => [] end in
        parse_cisco_lines fuel lines (modify path (child stripped stripped) root)
          ((indent, path ++ [stripped]) :: st)
  end.

(** [parse_cisco] *)
Definition parse_cisco (text : pystr) : node :=
  let ls := splitlines text in parse_cisco_lines (length ls) ls (Node [] []) bottom.

(** [_banner_commands] *)
Definition _banner_commands (key text : pystr) : list pystr :=
  let d := match List.find (fun c => negb (has_char c text)) ["^"%char; hash; "%"%char; "@"%char; "~"%char] with
           | Some c => c | None => "^"%char end in
  (key ++ py " " ++ [d]) :: split_on (chr 10) text ++ [[d]].

(** ** Comparing *)
Inductive key_error : Type := KeyError.

(** The local state of [_cisco_diff]: [base] holds the additions, the section
    and the result, as in [ConfigTree]. *)
Record cprogress : Type := CProgress {
  base : progress; nested : list pystr; removes : list pystr; added_settings : list pystr }.
Definition on_base (f : progress -> progress) (st : cprogress) : cprogress := st {{ base := f (base st) }}.
Definition mark_lines (path : list pystr) (o : op) (n : node) (st : progress) : progress :=
  foldl (fun st l => mark path o (spaces (fst l) ++ snd l) st) st (flatten 1 n).

(** [self.children["__text__"].line] *)
Definition text_of_banner (n : node) : res key_error pystr :=
  match get text_key (children n) with Some t => Ok (line t) | None => Raise KeyError end.

Definition same_lines (a b : node) : bool := bool_decide (flatten 0 a = flatten 0 b).

(** A banner of the backup. *)
Definition banner_child (path : list pystr) (key : pystr) (b : node) (l : option node) (st : cprogress) : res key_error cprogress :=
  let! b_text := text_of_banner b in
  let! l_text := match l with Some l => let! t := text_of_banner l in Ok (Some t) | None => Ok None end in
  if bool_decide (Some b_text = l_text) then Ok st
  else
    let st := on_base (emit (_banner_commands key b_text)) st in
    let st := match l_text with Some _ => on_base (mark path Minus (key ++ py " (current text)")) st | None => st end in
    Ok (on_base (mark path Plus (key ++ py " (backup text)")) st).

(** A line only the backup has. *)
Definition new_child (path : list pystr) (key : pystr) (b : node) (st : cprogress) : cprogress :=
  let st := on_base (fun p => mark_lines path Plus b (mark path Plus (line b) (emit (_cisco_block 0 b) p))) st in
  match _setting_id key with [] => st | s => st {{ added_settings := added_settings st ++ [s] }} end.

(** The last loop of [_cisco_diff]: a line only the device has. *)
Definition live_child (backup : list (pystr * node)) (path : list pystr) (key : pystr) (l : node) (st : cprogress) : cprogress :=
  if has key backup || unrestorable key then st
  else if is_prefix (py "banner ") key then
    on_base (mark path Minus key) (st {{ removes := removes st ++ [py "no " ++ key] }})
  else if is_prefix (py "no ") (lower key) then on_base (mark path Minus (line l)) st
  else
    let st := on_base (fun p => mark_lines path Minus l (mark path Minus (line l) p)) st in
    let s := _setting_id key in
    if negb (bool_decide (s = [])) && memb s (added_settings st) then st
    else st {{ removes := removes st ++ [py "no " ++ key] }}.
Definition live_children (backup live : list (pystr * node)) (path : list pystr) (st : cprogress) : cprogress :=
  foldl (fun st kl => live_child backup path (fst kl) (snd kl) st) st live.

Definition commands_of (st : cprogress) : list pystr := cmds (base st) ++ nested st ++ removes st.

(** [_cisco_diff] *)
Fixpoint _cisco_diff (backup live : node) (path : list pystr) (diff : ConfigDiff) {struct backup}
    : res key_error (list pystr * ConfigDiff) :=
  let! st :=
    (fix loop (bs : list (pystr * node)) (st : cprogress) : res key_error cprogress :=
       match bs with
       | [] => Ok st
       | (key, b) :: bs =>
           let! st :=
             if unrestorable key then
               Ok (match get key (children live) with
                   | Some l => if same_lines l b then st else on_base (skip path key) st
                   | None => on_base (skip path key) st
                   end)
             else if is_prefix (py "banner ") key then banner_child path key b (get key (children live)) st
             else
               match get key (children live) with
               | None => Ok (new_child path key b st)
               | Some l =>
                   match children b, children l with
                   | [], [] => Ok st
                   | _, _ =>
                       let! (inner, d) := _cisco_diff b l (path ++ [line b]) (out (base st)) in
                       let st := on_base (fun p => {| cmds := cmds p; section := section p; out := d |}) st in
                       Ok (match inner with
                           | [] => st
                           | _ => st {{ nested := nested st ++ line b :: inner ++ [py "exit"] }}
                           end)
                   end
               end in
           loop bs st
       end) (children backup)
      {| base := {| cmds := []; section := None; out := diff |}; nested := []; removes := []; added_settings := [] |} in
  let st := live_children (children backup) (children live) path st in
  Ok (commands_of st, out (base st)).

(** [diff_cisco]: the commands and the preview. *)
Definition diff_cisco (backup_text live_text : pystr) : res key_error (list pystr * ConfigDiff) :=
  _cisco_diff (parse_cisco backup_text) (parse_cisco live_text) [] (Diff [] []).

(** ** The loop over the backup's lines *)
(** One line of the backup; [inner] compares the block it opens. *)
Definition common_line (live : list (pystr * node)) (path : list pystr) (key : pystr) (b : node)
    (inner : node -> ConfigDiff -> res key_error (list pystr * ConfigDiff)) (st : cprogress) : res key_error cprogress :=
  if unrestorable key then
    Ok (match get key live with
        | Some l => if same_lines l b then st else on_base (skip path key) st
        | None => on_base (skip path key) st
        end)
  else if is_prefix (py "banner ") key then banner_child path key b (get key live) st
  else
    match get key live with
    | None => Ok (new_child path key b st)
    | Some l =>
        match children b, children l with
        | [], [] => Ok st
        | _, _ =>
            let! (inner, d) := inner l (out (base st)) in
            let st := on_base (fun p => {| cmds := cmds p; section := section p; out := d |}) st in
            Ok (match inner with [] => st | _ => st {{ nested := nested st ++ line b :: inner ++ [py "exit"] }} end)
        end
    end.
Fixpoint common_lines (live : list (pystr * node)) (path : list pystr) (bs : list (pystr * node)) (st : cprogress)
    : res key_error cprogress :=
  match bs with
  | [] => Ok st
  | (key, b) :: bs =>
      let! st := common_line live path key b (fun l => _cisco_diff b l (path ++ [line b])) st in
      common_lines live path bs st
  end.
Definition fresh (d : ConfigDiff) : cprogress :=
  {| base := {| cmds := []; section := None; out := d |}; nested := []; removes := []; added_settings := [] |}.

Lemma cisco_diff_eq b l path d :
  _cisco_diff b l path d =
    let! st := common_lines (children l) path (children b) (fresh d) in
    let st := live_children (children b) (children l) path st in
    Ok (commands_of st, out (base st)).
Proof.
  destruct b as [ln bs]. cbn [_cisco_diff children]. fold (fresh d). generalize (fresh d). intros st. f_equal.
  revert st. induction bs as [|[k c] bs IH]; intros st; [done|]. cbn [common_lines]. unfold common_line at 1.
  destruct (unrestorable k); [apply IH|].
  destruct (is_prefix (py "banner ") k); [destruct (banner_child _ _ _ _ _); simpl; [apply IH|done]|].
  destruct (get k (children l)) as [lc|]; [|apply IH].
  destruct (children c) as [|x cs], (children lc) as [|y ds]; [apply IH| | |];
    (destruct (_cisco_diff _ _ _ _) as [[inner d']|]; simpl; [apply IH|done]).
Qed.

(** ** Trees the parser builds *)
(** Keys are unique at each level, and a banner holds its text. *)
Inductive well_read : node -> Prop :=
| WellRead l cs :
    NoDup (keys cs) ->
    (forall k c, (k, c) ∈ cs -> is_prefix (py "banner ") k = true -> exists t, get text_key (children c) = Some t) ->
    (forall k c, (k, c) ∈ cs -> well_read c) ->
    well_read (Node l cs).

Lemma well_read_iff n :
  well_read n <-> NoDup (keys (children n))
    /\ (forall k c, (k, c) ∈ children n -> is_prefix (py "banner ") k = true -> exists t, get text_key (children c) = Some t)
    /\ (forall k c, (k, c) ∈ children n -> well_read c).
Proof.
  split.
  - intros [l cs H1 H2 H3]. done.
  - destruct n as [l cs]. intros (H1 & H2 & H3). by constructor.
Qed.

Lemma put_elem k n cs k' c : (k', c) ∈ put k n cs -> (k', c) = (k, n) \/ (k', c) ∈ cs /\ (NoDup (keys cs) -> k' <> k).
Proof.
  induction cs as [|[j m] cs IH]; simpl.
  - intros ->%list_elem_of_singleton. auto.
  - case_bool_decide as E; rewrite !elem_of_cons.
    + subst j. intros [[= -> ->]|H]; [auto|]. right. split; [auto|]. intros [Hn _]%list.NoDup_cons ->.
      apply Hn. apply list_elem_of_fmap. by exists (k, c).
    + intros [[= -> ->]|[H|[H Hne]]%IH]; [right; auto|auto|]. right. split; [auto|]. intros [_ Hn]%list.NoDup_cons. auto.
Qed.

Lemma well_read_put k n m : well_read m -> well_read n ->
  (is_prefix (py "banner ") k = true -> exists t, get text_key (children n) = Some t) ->
  well_read (with_children (put k n) m).
Proof.
  rewrite !(well_read_iff m). intros (H1 & H2 & H3) Hn Hb. destruct m as [l cs]. simpl in *. constructor.
  - by apply nodup_put.
  - intros k' c [[= -> ->]|[H _]]%put_elem; eauto.
  - intros k' c [[= -> ->]|[H _]]%put_elem; eauto.
Qed.

Lemma well_read_leaf l : well_read (Node l []).
Proof. constructor; [constructor|intros ? ? ?%elem_of_nil; done..]. Qed.

(** Adding a plain line below a path keeps a tree well read. *)
Lemma get_with_put k n cs k' t : get k' cs = Some t -> exists t', get k' (put k n cs) = Some t'.
Proof.
  intros E. destruct (decide (k' = k)) as [->|Hne]; [rewrite get_put_eq; eauto|]. rewrite get_put_ne by done. eauto.
Qed.

Lemma modify_keeps_text p s n t :
  get text_key (children n) = Some t -> exists t', get text_key (children (modify p (child s s) n)) = Some t'.
Proof.
  intros E. destruct p as [|k p]; simpl.
  - unfold child. destruct (get s (children n)); [eauto|]. by eapply get_with_put.
  - destruct (get k (children n)); [|eauto]. by eapply get_with_put.
Qed.

Lemma well_read_modify p s n : is_prefix (py "banner ") s = false -> well_read n -> well_read (modify p (child s s) n).
Proof.
  intros Hs. revert n. induction p as [|k p IH]; intros n Hn; simpl.
  - unfold child. destruct (get s (children n)); [done|]. apply well_read_put; [done|apply well_read_leaf|congruence].
  - destruct (get k (children n)) as [c|] eqn:E; [|done]. apply get_elem_of in E.
    pose proof Hn as (H1 & H2 & H3)%well_read_iff. apply well_read_put; [done|by eapply IH, H3|].
    intros Hb. destruct (H2 k c E Hb) as (t & Ht). by eapply modify_keeps_text.
Qed.

Lemma is_prefix_lower p s : is_prefix p s = true -> is_prefix (lower p) (lower s) = true.
Proof.
  revert s. induction p as [|c p IH]; intros [|d s]; simpl; try done.
  intros [E H]%andb_prop. apply bool_decide_eq_true in E as ->. rewrite bool_decide_eq_true_2 by done. by apply IH.
Qed.
Lemma not_banner s : is_prefix (py "banner ") (lower s) = false -> is_prefix (py "banner ") s = false.
Proof.
  intros H. apply not_true_is_false. intros E%is_prefix_lower.
  change (lower (py "banner ")) with (py "banner ") in E. congruence.
Qed.

Lemma parse_lines_well_read fuel ls root st : well_read root -> well_read (parse_cisco_lines fuel ls root st).
Proof.
  revert ls root st. induction fuel as [|fuel IH]; intros [|l ls] root st Hr; try done.
  cbn [parse_cisco_lines]. cbv zeta. destruct (cisco_dropped _); [by apply IH|].
  destruct (is_prefix (py "banner ") _) eqn:Eb.
  - destruct (banner_text _ ls) as [text rest]. apply IH. apply well_read_put; [done| |].
    + constructor; [apply list.NoDup_singleton| |]; intros k c [= -> ->]%list_elem_of_singleton; [done|apply well_read_leaf].
    + intros _. exists (Node text []). cbn [get children]. by rewrite bool_decide_eq_true_2.
  - apply IH. apply well_read_modify; [by apply not_banner|done].
Qed.

Lemma parse_well_read text : well_read (parse_cisco text).
Proof. apply parse_lines_well_read. apply well_read_leaf. Qed.

(** ** A configuration compared with itself *)
Lemma same_lines_refl n : same_lines n n = true.
Proof. by apply bool_decide_eq_true. Qed.

Lemma cprogress_same st : on_base (fun p => {| cmds := cmds p; section := section p; out := out (base st) |}) st = st.
Proof. destruct st as [[]]. done. Qed.

Lemma has_elem k c cs : (k, c) ∈ cs -> has k cs = true.
Proof.
  intros H. unfold has. destruct (get k cs) eqn:E; [done|]. apply get_none in E. destruct E.
  apply list_elem_of_fmap. by exists (k, c).
Qed.

Lemma live_children_known backup live path st :
  (forall k c, (k, c) ∈ live -> has k backup = true) -> live_children backup live path st = st.
Proof.
  unfold live_children. revert st. induction live as [|[k c] live IH]; intros st H; simpl; [done|].
  rewrite IH by (intros k' c' Hin; apply (H k' c'); by right). unfold live_child.
  by rewrite (H k c) by by left.
Qed.

(** A block the other side has too, the other side being [live]. *)
Lemma common_line_same live path key b st inner :
  get key live = Some b -> well_read b ->
  (is_prefix (py "banner ") key = true -> exists t, get text_key (children b) = Some t) ->
  (forall d, inner b d = Ok ([], d)) ->
  common_line live path key b inner st = Ok st.
Proof.
  intros Hg Hb Ht Hin. unfold common_line. rewrite Hg, same_lines_refl. destruct (unrestorable key); [done|].
  destruct (is_prefix (py "banner ") key).
  - destruct (Ht eq_refl) as (t & E). unfold banner_child, text_of_banner. rewrite E. simpl.
    by rewrite bool_decide_eq_true_2.
  - rewrite Hin. cbn [res_bind]. rewrite cprogress_same. by destruct (children b).
Qed.

Lemma common_lines_same live path bs st :
  (forall k b, (k, b) ∈ bs -> get k live = Some b /\ well_read b
     /\ (is_prefix (py "banner ") k = true -> exists t, get text_key (children b) = Some t)
     /\ forall path d, _cisco_diff b b path d = Ok ([], d)) ->
  common_lines live path bs st = Ok st.
Proof.
  revert st. induction bs as [|[k b] bs IH]; intros st H; simpl; [done|].
  destruct (H k b (list_elem_of_here _ _)) as (Hg & Hw & Ht & Hd).
  rewrite common_line_same; auto. cbn [res_bind]. apply IH. intros k' b' Hin. apply H. by right.
Qed.

Lemma cisco_diff_same n : well_read n -> forall path d, _cisco_diff n n path d = Ok ([], d).
Proof.
  induction n as [l cs IH] using node_induction. intros Hw path d. pose proof Hw as (H1 & H2 & H3)%well_read_iff.
  rewrite cisco_diff_eq. cbn [children] in *. rewrite common_lines_same.
  - cbn [res_bind]. rewrite live_children_known; [done|]. intros k c H. by eapply has_elem.
  - intros k b Hin. split_and!; [by apply get_elem|by eapply H3|by apply (H2 k b)|]. by eapply IH, H3.
Qed.

(** ** What the commands are *)
Definition is_banner (key : pystr) : bool := is_prefix (py "banner ") key.
Definition is_negated (key : pystr) : bool := is_prefix (py "no ") (lower key).
(** A line only the backup has, that is not a banner and can be written. *)
Definition only_in_backup (live : list (pystr * node)) (key : pystr) : bool :=
  negb (unrestorable key) && negb (is_banner key) && negb (has key live).
(** The commands that add it, and the setting it writes. *)
Definition addition (live : list (pystr * node)) (kb : pystr * node) : list pystr :=
  let '(key, b) := kb in
  if unrestorable key then []
  else if is_banner key then
    match text_of_banner b, get key live with
    | Ok t, Some l => match text_of_banner l with
                      | Ok t' => if bool_decide (t = t') then [] else _banner_commands key t
                      | Raise _ => [] end
    | Ok t, None => _banner_commands key t
    | Raise _, _ => []
    end
  else if has key live then [] else _cisco_block 0 b.
Definition setting_of (live : list (pystr * node)) (kb : pystr * node) : list pystr :=
  if only_in_backup live (fst kb) then match _setting_id (fst kb) with [] => [] | s => [s] end else [].

(** A line only the device has whose setting the backup writes is replaced. *)
Definition replaced (settings : list pystr) (key : pystr) : bool :=
  negb (bool_decide (_setting_id key = [])) && memb (_setting_id key) settings.
Definition negated (backup : list (pystr * node)) (settings : list pystr) (key : pystr) : bool :=
  negb (has key backup) && negb (unrestorable key)
  && (is_banner key || negb (is_negated key) && negb (replaced settings key)).
Definition no (key : pystr) : pystr := py "no " ++ key.

#[local] Arguments mark : simpl never.
#[local] Arguments mark_lines : simpl never.
#[local] Arguments is_prefix : simpl never.
#[local] Arguments unrestorable : simpl never.
#[local] Arguments _setting_id : simpl never.
#[local] Arguments _cisco_block : simpl never.

Lemma cmds_mark_lines path o n st : cmds (mark_lines path o n st) = cmds st.
Proof.
  unfold mark_lines. generalize (flatten 1 n). intros ls. revert st.
  induction ls as [|x ls IH]; intros st; simpl; [done|]. by rewrite IH, cmds_mark.
Qed.

Lemma common_line_shape live path key b inner st st' :
  common_line live path key b inner st = Ok st' ->
  cmds (base st') = cmds (base st) ++ addition live (key, b)
  /\ removes st' = removes st
  /\ added_settings st' = added_settings st ++ setting_of live (key, b).
Proof.
  unfold common_line, addition, setting_of, only_in_backup, is_banner, has. simpl fst.
  destruct (unrestorable key).
  { intros [= <-]. rewrite !app_nil_r. destruct (get key live) as [l|]; [destruct (same_lines l b)|]; done. }
  destruct (is_prefix (py "banner ") key).
  { rewrite !app_nil_r. unfold banner_child. destruct (text_of_banner b) as [t|]; [|done]. cbn [res_bind].
    destruct (get key live) as [l|]; cbn [res_bind].
    - destruct (text_of_banner l) as [t'|]; [|done]. cbn [res_bind]. destruct (decide (t = t')) as [->|Hne].
      + rewrite !bool_decide_eq_true_2 by done. intros [= <-]. by rewrite app_nil_r.
      + rewrite !bool_decide_eq_false_2 by congruence. intros [= <-]. simpl. by rewrite !cmds_mark.
    - rewrite bool_decide_eq_false_2 by done. intros [= <-]. simpl. by rewrite !cmds_mark. }
  destruct (get key live) as [l|]; simpl.
  - rewrite !app_nil_r. destruct (children b), (children l); [intros [= <-]; done| | |];
      (destruct (inner l _) as [[i d]|]; cbn [res_bind]; [|done]; intros [= <-]; by destruct i).
  - intros [= <-]. unfold new_child. destruct (_setting_id key); simpl; rewrite ?app_nil_r, cmds_mark_lines, cmds_mark; done.
Qed.

Lemma common_lines_shape live path bs st st' :
  common_lines live path bs st = Ok st' ->
  cmds (base st') = cmds (base st) ++ flat_map (addition live) bs
  /\ removes st' = removes st
  /\ added_settings st' = added_settings st ++ flat_map (setting_of live) bs.
Proof.
  revert st. induction bs as [|[k b] bs IH]; intros st; cbn [common_lines flat_map].
  - intros [= <-]. by rewrite !app_nil_r.
  - destruct (common_line _ _ _ _ _ _) as [st1|] eqn:E; cbn [res_bind]; [|done].
    intros (-> & -> & ->)%IH. apply common_line_shape in E as (-> & -> & ->). by rewrite <- !app_assoc.
Qed.

Lemma live_child_shape backup path key l st :
  let st' := live_child backup path key l st in
  cmds (base st') = cmds (base st) /\ nested st' = nested st /\ added_settings st' = added_settings st
  /\ removes st' = removes st ++ (if negated backup (added_settings st) key then [no key] else []).
Proof.
  unfold live_child, negated, replaced, is_banner, is_negated.
  destruct (has key backup); simpl; [by rewrite app_nil_r|]. destruct (unrestorable key); simpl; [by rewrite app_nil_r|].
  destruct (is_prefix (py "banner ") key); simpl; [by rewrite cmds_mark|].
  destruct (is_prefix (py "no ") (lower key)); simpl; [by rewrite cmds_mark, app_nil_r|].
  destruct (bool_decide (_setting_id key = [])); simpl; [by rewrite cmds_mark_lines, cmds_mark|].
  destruct (memb _ _); simpl; by rewrite ?app_nil_r, cmds_mark_lines, cmds_mark.
Qed.

Lemma live_children_shape backup live path st :
  let st' := live_children backup live path st in
  cmds (base st') = cmds (base st) /\ nested st' = nested st /\ added_settings st' = added_settings st
  /\ removes st' = removes st ++ map no (List.filter (negated backup (added_settings st)) (keys live)).
Proof.
  unfold live_children. revert st. induction live as [|[k c] live IH]; intros st; simpl; [by rewrite app_nil_r|].
  destruct (IH (live_child backup path k c st)) as (-> & -> & -> & ->).
  destruct (live_child_shape backup path k c st) as (-> & -> & -> & ->). split_and!; try done.
  destruct (negated _ _ k); simpl; [by rewrite <- app_assoc|by rewrite app_nil_r].
Qed.

Lemma get_app k cs ds c : get k cs = Some c -> get k (cs ++ ds) = Some c.
Proof. induction cs as [|[j m] cs IH]; simpl; [done|]. case_bool_decide; auto. Qed.

(** The device has everything the backup has, and one line more that begins
    with "no". *)
Lemma lone_negation_diff t k d :
  well_read t -> is_negated k = true -> is_banner k = false -> unrestorable k = false -> get k (children t) = None ->
  _cisco_diff t (with_children (fun cs => cs ++ [(k, Node k [])]) t) [] d
  = Ok ([], out (mark [] Minus k (base (fresh d)))).
Proof.
  intros Hw Hneg Hb Hu Hk. pose proof Hw as (H1 & H2 & H3)%well_read_iff. rewrite cisco_diff_eq. cbn [with_children children].
  rewrite common_lines_same.
  - cbn [res_bind]. unfold live_children. rewrite foldl_app.
    change (foldl _ (fresh d) (children t)) with (live_children (children t) (children t) [] (fresh d)).
    rewrite live_children_known by (intros k' c Hin; by eapply has_elem). cbn [foldl]. unfold live_child. cbn [fst snd].
    unfold has, is_negated, is_banner in *. by rewrite Hk, Hu, Hb, Hneg.
  - intros k' b Hin. split_and!; [by apply get_app, get_elem|by eapply H3|by apply (H2 k' b)|].
    apply cisco_diff_same. by eapply H3.
Qed.

(** ** Theorems *)

(** A device whose running configuration reads as the backup does needs
    nothing: no command, no line in the preview, nothing skipped, whatever the
    text, banners, certificates and repeated lines included. *)
Theorem cisco_same_empty text : diff_cisco text text = Ok ([], Diff [] []).
Proof. apply cisco_diff_same, parse_well_read. Qed.

(** The commands for a Cisco configuration, at every level, are three
    parts in this order: what only the backup has (blocks and banners), the
    changes inside blocks both have, and "no" for what only the device has.
    A line is negated exactly when it is only on the device, can be restored,
    does not itself begin with "no" and its setting is not one the first part
    writes: a value replaced in place is never negated. *)
Theorem cisco_commands b l path d cs d' :
  _cisco_diff b l path d = Ok (cs, d') ->
  let settings := flat_map (setting_of (children l)) (children b) in
  (exists inside, cs = flat_map (addition (children l)) (children b) ++ inside
                       ++ map no (List.filter (negated (children b) settings) (keys (children l))))
  /\ forall k kb c, kb ∈ keys (children b) -> only_in_backup (children l) kb = true ->
       _setting_id kb <> [] -> _setting_id k = _setting_id kb -> is_banner k = false ->
       negated (children b) settings k = false
       /\ ((kb, c) ∈ children b -> incl (_cisco_block 0 c) (flat_map (addition (children l)) (children b))).
Proof.
  rewrite cisco_diff_eq. destruct (common_lines _ _ _ _) as [st|] eqn:E; [|done]. cbn [res_bind]. intros [= <- <-].
  apply common_lines_shape in E as (Ec & Er & Es). cbn [fresh base cmds removes added_settings app] in Ec, Er, Es.
  set (settings := flat_map (setting_of (children l)) (children b)) in *. split.
  - destruct (live_children_shape (children b) (children l) path st) as (E1 & E2 & _ & E4).
    exists (nested st). unfold commands_of. by rewrite E1, E2, E4, Ec, Er, Es.
  - intros k kb c Hin Ho Hs Ek Hb. split.
    + unfold negated, replaced. rewrite Hb, Ek, bool_decide_eq_false_2 by done.
      assert (Hm : memb (_setting_id kb) settings = true); [|by rewrite Hm, !andb_false_r].
      apply existsb_exists. exists (_setting_id kb). split; [|by apply bool_decide_eq_true].
      apply in_flat_map. apply list_elem_of_fmap in Hin as ([k' c'] & -> & Hin). exists (k', c').
      split; [by apply list_elem_of_In|]. unfold setting_of. rewrite Ho. cbn [fst].
      cbn [fst] in Hs. revert Hs. clear. destruct (_setting_id k'); [done|by left].
    + intros Hc x Hx. apply in_flat_map. exists (kb, c). split; [by apply list_elem_of_In|].
      unfold addition, only_in_backup in *. bool_prop. destruct (unrestorable kb), (is_banner kb), (has kb (children l)); done.
Qed.

Lemma cisco_commands_witness :
  let b := parse_cisco (py "hostname r1" ++ newline ++ py "ip default-gateway 10.0.0.1" ++ newline) in
  let l := parse_cisco (py "hostname r2" ++ newline ++ py "ip default-gateway 10.0.0.1" ++ newline ++ py "ip http server") in
  _cisco_diff b l [] (Diff [] [])
    = Ok ([py "hostname r1"; py "no ip http server"], snd (default ([], Diff [] []) (match _cisco_diff b l [] (Diff [] []) with Ok r => Some r | _ => None end)))
  /\ negated (children b) (flat_map (setting_of (children l)) (children b)) (py "hostname r2") = false.
Proof.
  intros b l. split; [vm_compute; reflexivity|].
  destruct (_cisco_diff b l [] (Diff [] [])) as [[cs d']|] eqn:E; [|vm_compute in E; discriminate E].
  destruct (cisco_commands b l [] (Diff [] []) cs d' E) as [_ H].
  cbv zeta in H. refine (proj1 (H (py "hostname r2") (py "hostname r1") (Node [] []) _ _ _ _ _)).
  - vm_compute. left.
  - vm_compute. reflexivity.
  - vm_compute. discriminate.
  - vm_compute. reflexivity.
  - vm_compute. reflexivity.
Defined.

(** A "no" line that only the device has is shown as a difference, and no
    command is sent for it: restoring a configuration that relies on the
    default (the backup does not print the positive form) never gives a
    device that matches the backup. *)
Theorem lone_negation_stays t k :
  well_read t -> is_negated k = true -> is_banner k = false -> unrestorable k = false -> get k (children t) = None ->
  exists d, _cisco_diff t (with_children (fun cs => cs ++ [(k, Node k [])]) t) [] (Diff [] []) = Ok ([], d)
            /\ is_empty d = false.
Proof. intros Hw Hn Hb Hu Hk. rewrite lone_negation_diff by done. eexists. split; [reflexivity|done]. Qed.

Lemma lone_negation_stays_witness :
  parse_cisco (py "hostname r1" ++ newline ++ py "no cdp run")
    = with_children (fun cs => cs ++ [(py "no cdp run", Node (py "no cdp run") [])]) (parse_cisco (py "hostname r1"))
  /\ exists d, _cisco_diff (parse_cisco (py "hostname r1"))
       (with_children (fun cs => cs ++ [(py "no cdp run", Node (py "no cdp run") [])]) (parse_cisco (py "hostname r1")))
       [] (Diff [] []) = Ok ([], d) /\ is_empty d = false.
Proof.
  split; [vm_compute; reflexivity|].
  apply (lone_negation_stays (parse_cisco (py "hostname r1")) (py "no cdp run") (parse_well_read _)); vm_compute; reflexivity.
Defined.
