(* ===== verification/Difflib.v ===== *)
(** * Python's difflib, as far as the program uses it

    [difflib.unified_diff] and the [SequenceMatcher] under it (standard
    library), which the program compares file bundles and plain text with
    (src/app/modules/backup/changes.py, src/app/modules/backup/restore/file_bundle.py).
    A sequence is a list, a range of it a sublist with its offset. *)
From S2P Require Import Prelude PyStr CiscoTree.

Section Matcher.
Context {A : Type} `{EqDecision A}.

(** [SequenceMatcher(None, a, b)] keeps no index of the elements of [b] that
    are popular: in 200 elements or more, those above one in a hundred. *)
Definition occurrences (x : A) (l : list A) : nat := length (List.filter (fun y => bool_decide (y = x)) l).
Definition popular (b : list A) (x : A) : bool :=
  (200 <=? length b)%nat && (length b / 100 + 1 <? occurrences x b)%nat.

Section Longest.
(** Whether [x] is in the index of [b]. *)
Variable indexed : A -> bool.

Record best : Type := Best { best_i : nat; best_j : nat; best_size : nat }.

(** One row of [find_longest_match]: [before] is the length of the run that
    ends before [j], [prev] those that end at the following positions one row
    up. *)
Fixpoint scan_row (x : A) (i j before : nat) (prev : list nat) (b : list A) (m : best) : list nat * best :=
  match b with
  | [] => ([], m)
  | y :: b =>
      let k := if bool_decide (y = x) && indexed x then S before else 0%nat in
      let m := if (best_size m <? k)%nat then Best (i + 1 - k) (j + 1 - k) k else m in
      let '(p, prev) := match prev with p :: prev => (p, prev) | [] => (0%nat, []) end in
      let '(row, m) := scan_row x i (S j) p prev b m in
      (k :: row, m)
  end.
Fixpoint scan (i : nat) (prev : list nat) (a b : list A) (m : best) : best :=
  match a with
  | [] => m
  | x :: a => let '(row, m) := scan_row x i 0 0 prev b m in scan (S i) row a b m
  end.

(** How far two lists agree from their start. *)
Fixpoint common (a b : list A) : nat :=
  match a, b with
  | x :: a, y :: b => if bool_decide (x = y) then S (common a b) else 0%nat
  | _, _ => 0%nat
  end.
(** [find_longest_match]: the longest indexed run, then its extension backward
    and forward. *)
Definition find_longest_match (a b : list A) : best :=
  let m := scan 0 [] a b (Best 0 0 0) in
  let back := common (rev (take (best_i m) a)) (rev (take (best_j m) b)) in
  let forth := common (drop (best_i m + best_size m) a) (drop (best_j m + best_size m) b) in
  Best (best_i m - back) (best_j m - back) (back + best_size m + forth).
End Longest.

(** [get_matching_blocks]: the matches left and right of the longest, sorted;
    then adjacent blocks are joined and the end is added.  Every call works
    on a range of [a] shorter than the one before: [length a] calls are enough. *)
Fixpoint matches_in (fuel : nat) (indexed : A -> bool) (ia ib : nat) (a b : list A) : list best :=
  match fuel with
  | O => []
  | S fuel =>
      let m := find_longest_match indexed a b in
      let '(i, j, k) := (best_i m, best_j m, best_size m) in
      if (k =? 0)%nat then []
      else matches_in fuel indexed ia ib (take i a) (take j b) ++ [Best (ia + i) (ib + j) k]
           ++ matches_in fuel indexed (ia + i + k) (ib + j + k) (drop (i + k) a) (drop (j + k) b)
  end.
Fixpoint join_blocks (cur : best) (l : list best) : list best :=
  match l with
  | [] => if (best_size cur =? 0)%nat then [] else [cur]
  | m :: l =>
      if (best_i cur + best_size cur =? best_i m)%nat && (best_j cur + best_size cur =? best_j m)%nat
      then join_blocks (Best (best_i cur) (best_j cur) (best_size cur + best_size m)) l
      else (if (best_size cur =? 0)%nat then [] else [cur]) ++ join_blocks m l
  end.
Definition get_matching_blocks (a b : list A) : list best :=
  join_blocks (Best 0 0 0) (matches_in (length a) (fun x => negb (popular b x)) 0 0 a b)
  ++ [Best (length a) (length b) 0].

(** [get_opcodes] *)
Inductive tag : Type := Replace | Delete | Insert | Equal.
Record opcode : Type := Opcode { op_tag : tag; i1 : nat; i2 : nat; j1 : nat; j2 : nat }.
Definition is_equal (o : opcode) : bool := match op_tag o with Equal => true | _ => false end.
Fixpoint opcodes_from (i j : nat) (blocks : list best) : list opcode :=
  match blocks with
  | [] => []
  | m :: blocks =>
      let '(ai, bj) := (best_i m, best_j m) in
      (if (i <? ai)%nat && (j <? bj)%nat then [Opcode Replace i ai j bj]
       else if (i <? ai)%nat then [Opcode Delete i ai j bj]
       else if (j <? bj)%nat then [Opcode Insert i ai j bj] else [])
      ++ (if (best_size m =? 0)%nat then [] else [Opcode Equal ai (ai + best_size m) bj (bj + best_size m)])
      ++ opcodes_from (ai + best_size m) (bj + best_size m) blocks
  end.
Definition get_opcodes (a b : list A) : list opcode := opcodes_from 0 0 (get_matching_blocks a b).

(** [get_grouped_opcodes(n)] *)
Definition shrink_first (n : nat) (o : opcode) : opcode :=
  if is_equal o then Opcode Equal (max (i1 o) (i2 o - n)) (i2 o) (max (j1 o) (j2 o - n)) (j2 o) else o.
Definition shrink_last (n : nat) (o : opcode) : opcode :=
  if is_equal o then Opcode Equal (i1 o) (min (i2 o) (i1 o + n)) (j1 o) (min (j2 o) (j1 o + n)) else o.
Definition on_last (f : opcode -> opcode) (l : list opcode) : list opcode :=
  match rev l with [] => [] | o :: r => rev (f o :: r) end.
Definition trim (n : nat) (codes : list opcode) : list opcode :=
  let codes := match codes with [] => [Opcode Equal 0 1 0 1] | _ => codes end in
  on_last (shrink_last n) (match codes with o :: codes => shrink_first n o :: codes | [] => [] end).
Definition lone_equal (g : list opcode) : bool := match g with [o] => is_equal o | _ => false end.
Fixpoint group_from (n : nat) (group : list opcode) (codes : list opcode) : list (list opcode) :=
  match codes with
  | [] => match group with [] => [] | _ => if lone_equal group then [] else [group] end
  | o :: codes =>
      if is_equal o && (n + n <? i2 o - i1 o)%nat then
        (group ++ [shrink_last n o]) :: group_from n [shrink_first n o] codes
      else group_from n (group ++ [o]) codes
  end.
Definition get_grouped_opcodes (n : nat) (a b : list A) : list (list opcode) :=
  group_from n [] (trim n (get_opcodes a b)).

(** [l[i:j]] *)
Definition slice (i j : nat) (l : list A) : list A := take (j - i) (drop i l).
End Matcher.

(** [unified_diff(a, b, lineterm="", n=n)] without file names. *)
Definition nat_str (n : nat) : pystr := str_of_int (Z.of_nat n).
Definition _format_range_unified (start stop : nat) : pystr :=
  let length := (stop - start)%nat in
  if (length =? 1)%nat then nat_str (start + 1)
  else nat_str (if (length =? 0)%nat then start else start + 1) ++ py "," ++ nat_str length.
Definition hunk_head (g : list opcode) : pystr :=
  match g, rev g with
  | first :: _, last :: _ =>
      py "@@ -" ++ _format_range_unified (i1 first) (i2 last) ++ py " +" ++ _format_range_unified (j1 first) (j2 last) ++ py " @@"
  | _, _ => []
  end.
Definition op_lines (a b : list pystr) (o : opcode) : list pystr :=
  let old := map (cons "-"%char) (slice (i1 o) (i2 o) a) in
  let new := map (cons "+"%char) (slice (j1 o) (j2 o) b) in
  match op_tag o with
  | Equal => map (cons " "%char) (slice (i1 o) (i2 o) a)
  | Replace => old ++ new
  | Delete => old
  | Insert => new
  end.
Definition unified_diff (n : nat) (a b : list pystr) : list pystr :=
  match get_grouped_opcodes n a b with
  | [] => []
  | groups => [py "--- "; py "+++ "] ++ flat_map (fun g => hunk_head g :: flat_map (op_lines a b) g) groups
  end.

(** ** The blocks are common ranges *)
Section MatcherFacts.
Context {A : Type} `{EqDecision A}.
Implicit Types a b w : list A.

(** [w] stands in [a] and in [b] after [pa] and [pb]. *)
Definition block a b (i j k : nat) : Prop :=
  exists pa pb w ra rb, a = pa ++ w ++ ra /\ b = pb ++ w ++ rb /\ length pa = i /\ length pb = j /\ length w = k.
(** A common run of [k] elements that ends before [i] and [j]. *)
Definition run a b (i j k : nat) : Prop := (k <= i)%nat /\ (k <= j)%nat /\ block a b (i - k) (j - k) k.

Lemma run_0 a b i j : (i <= length a)%nat -> (j <= length b)%nat -> run a b i j 0.
Proof.
  intros Hi Hj. split; [lia|]. split; [lia|]. exists (take i a), (take j b), [], (drop i a), (drop j b).
  rewrite !Nat.sub_0_r. cbn. rewrite !take_drop, !length_take. split_and!; auto with lia.
Qed.

Lemma run_S a b i j k x : a !! i = Some x -> b !! j = Some x -> run a b i j k -> run a b (S i) (S j) (S k).
Proof.
  intros Ha Hb (Hi & Hj & pa & pb & w & ra & rb & -> & -> & E1 & E2 & E3). split; [lia|]. split; [lia|].
  rewrite app_assoc, lookup_app_r in Ha by (rewrite length_app; lia). rewrite app_assoc, lookup_app_r in Hb by (rewrite length_app; lia).
  rewrite length_app in Ha, Hb. replace (i - _)%nat with 0%nat in Ha by lia. replace (j - _)%nat with 0%nat in Hb by lia.
  destruct ra as [|y ra]; [done|]. destruct rb as [|z rb]; [done|]. simpl in Ha, Hb. injection Ha as ->. injection Hb as ->.
  exists pa, pb, (w ++ [x]), ra, rb. rewrite <- !app_assoc, length_app. cbn. split_and!; auto with lia.
Qed.

Definition sound a b (m : best) : Prop := block a b (best_i m) (best_j m) (best_size m).

Lemma scan_row_sound (indexed : A -> bool) a b x i :
  a !! i = Some x -> forall rest j before prev m,
  rest = drop j b -> run a b i j before ->
  (forall t k, prev !! t = Some k -> (j + 1 + t <= length b)%nat -> run a b i (j + 1 + t) k) -> sound a b m ->
  let '(row, m') := scan_row indexed x i j before prev rest m in
  sound a b m' /\ forall t k, row !! t = Some k -> (j + 1 + t <= length b)%nat -> run a b (S i) (j + 1 + t) k.
Proof.
  intros Hx. induction rest as [|y rest IH]; intros j before prev m Hrest Hb Hp Hm; cbn [scan_row]; [by split|].
  assert (Hy : b !! j = Some y) by (rewrite <- (Nat.add_0_r j), <- lookup_drop, <- Hrest; done).
  pose proof (lookup_lt_Some _ _ _ Hx) as Hi. pose proof (lookup_lt_Some _ _ _ Hy) as Hj.
  set (k := if bool_decide (y = x) && indexed x then S before else 0%nat).
  assert (Hk : run a b (S i) (S j) k).
  { unfold k. destruct (bool_decide (y = x)) eqn:E; cbn; [|apply run_0; lia]. apply bool_decide_eq_true in E as ->.
    destruct (indexed x); [by eapply run_S|apply run_0; lia]. }
  set (m1 := if (best_size m <? k)%nat then Best (i + 1 - k) (j + 1 - k) k else m).
  assert (Hm1 : sound a b m1).
  { unfold m1. destruct (_ <? _)%nat; [|done]. unfold sound. cbn. destruct Hk as (_ & _ & Hk).
    by replace (i + 1)%nat with (S i) by lia; replace (j + 1)%nat with (S j) by lia. }
  destruct (match prev with p :: prev => (p, prev) | [] => (0%nat, []) end) as [p prev'] eqn:Ep.
  assert (Hpp : run a b i (S j) p /\ forall t k, prev' !! t = Some k -> (S j + 1 + t <= length b)%nat -> run a b i (S j + 1 + t) k).
  { destruct prev as [|q qs]; injection Ep as <- <-.
    - split; [apply run_0; lia|]. intros t k0. by rewrite lookup_nil.
    - split; [replace (S j) with (j + 1 + 0)%nat by lia; by apply Hp; [|lia]|].
      intros t k0 Ht Hl. replace (S j + 1 + t)%nat with (j + 1 + S t)%nat by lia. apply Hp; [done|lia]. }
  destruct Hpp as [Hpp Hpq].
  assert (Hrest' : rest = drop (S j) b). { by rewrite <- Nat.add_1_r, <- drop_drop, <- Hrest. }
  specialize (IH (S j) p prev' m1 Hrest' Hpp Hpq Hm1).
  destruct (scan_row indexed x i (S j) p prev' rest m1) as [row m2]. destruct IH as [IH1 IH2]. split; [done|].
  intros [|t] k0; cbn; [intros [= <-] _; by replace (j + 1 + 0)%nat with (S j) by lia|].
  intros Ht Hl. replace (j + 1 + S t)%nat with (S j + 1 + t)%nat by lia. apply IH2; [done|lia].
Qed.

Lemma scan_sound (indexed : A -> bool) a b : forall rest i prev m,
  rest = drop i a -> (forall t k, prev !! t = Some k -> (1 + t <= length b)%nat -> run a b i (1 + t) k) ->
  sound a b m -> sound a b (scan indexed i prev rest b m).
Proof.
  induction rest as [|x rest IH]; intros i prev m Hrest Hp Hm; cbn [scan]; [done|].
  assert (Hx : a !! i = Some x) by (rewrite <- (Nat.add_0_r i), <- lookup_drop, <- Hrest; done).
  pose proof (lookup_lt_Some _ _ _ Hx) as Hi.
  pose proof (scan_row_sound indexed a b x i Hx b 0 0 prev m eq_refl (run_0 a b i 0 ltac:(lia) ltac:(lia)) Hp Hm) as Hr.
  destruct (scan_row indexed x i 0 0 prev b m) as [row m1]. destruct Hr as [Hm1 Hrow].
  apply IH; [by rewrite <- Nat.add_1_r, <- drop_drop, <- Hrest|exact Hrow|done].
Qed.

Lemma common_split a b : exists w ra rb, a = w ++ ra /\ b = w ++ rb /\ length w = common a b.
Proof.
  revert b. induction a as [|x a IH]; intros b; [by exists [], [], b|]. destruct b as [|y b]; [by exists [], (x :: a), []|].
  cbn. destruct (bool_decide (x = y)) eqn:E; [|by exists [], (x :: a), (y :: b)]. apply bool_decide_eq_true in E as ->.
  destruct (IH b) as (w & ra & rb & -> & -> & Hw). exists (y :: w), ra, rb. cbn. by rewrite Hw.
Qed.

Lemma longest_sound (indexed : A -> bool) a b : sound a b (find_longest_match indexed a b).
Proof.
  unfold find_longest_match. assert (Hm : sound a b (scan indexed 0 [] a b (Best 0 0 0))).
  { apply scan_sound; [done|intros t k; by rewrite lookup_nil|]. exists [], [], [], a, b. done. }
  destruct (scan indexed 0 [] a b (Best 0 0 0)) as [i j k]. destruct Hm as (pa & pb & w & ra & rb & -> & -> & <- & <- & <-).
  cbn [best_i best_j best_size]. unfold sound. cbn [best_i best_j best_size].
  rewrite !take_app_length. rewrite <- length_app, (app_assoc pa w ra), drop_app_length, <- (length_app pb w), (app_assoc pb w rb), drop_app_length.
  destruct (common_split (rev pa) (rev pb)) as (v & qa & qb & Ea & Eb & Hv).
  destruct (common_split ra rb) as (u & sa & sb & -> & -> & Hu). rewrite <- Hv, <- Hu.
  apply (f_equal (@rev A)) in Ea, Eb. rewrite rev_involutive, rev_app_distr in Ea, Eb. subst pa pb.
  exists (rev qa), (rev qb), (rev v ++ w ++ u), sa, sb. rewrite !length_app, !length_rev, <- !app_assoc.
  split_and!; auto with lia.
Qed.

(** ** The list of blocks *)
(** Blocks in order, for ranges that start at [ia] and [ib]. *)
Inductive aligned : nat -> nat -> list A -> list A -> list best -> Prop :=
| aligned_nil ia ib a b : aligned ia ib a b []
| aligned_cons ia ib pa pb w ra rb l :
    aligned (ia + length pa + length w) (ib + length pb + length w) ra rb l ->
    aligned ia ib (pa ++ w ++ ra) (pb ++ w ++ rb) (Best (ia + length pa) (ib + length pb) (length w) :: l).

Lemma aligned_weaken ia ib pa pb a b l :
  aligned (ia + length pa) (ib + length pb) a b l -> aligned ia ib (pa ++ a) (pb ++ b) l.
Proof.
  intros Hl. inversion Hl as [|? ? qa qb w ra rb l' Hl' E1 E2 E3 E4]; subst; [constructor|].
  rewrite !(app_assoc pa qa), !(app_assoc pb qb). rewrite <- !Nat.add_assoc, <- !length_app. constructor.
  rewrite !length_app, !Nat.add_assoc. exact Hl'.
Qed.

Lemma aligned_append ia ib pa pb ra rb l l' :
  aligned ia ib pa pb l -> aligned (ia + length pa) (ib + length pb) ra rb l' ->
  aligned ia ib (pa ++ ra) (pb ++ rb) (l ++ l').
Proof.
  induction 1 as [ia ib a b|ia ib qa qb w sa sb l Hl IH]; intros Hl'; [by apply aligned_weaken|].
  rewrite <- !app_assoc. cbn [app]. constructor. apply IH. rewrite !length_app in Hl'.
  by rewrite !Nat.add_assoc in Hl'.
Qed.

Lemma matches_aligned fuel indexed ia ib a b : aligned ia ib a b (matches_in fuel indexed ia ib a b).
Proof.
  revert ia ib a b. induction fuel as [|fuel IH]; intros ia ib a b; cbn [matches_in]; [constructor|].
  pose proof (longest_sound indexed a b) as Hm. destruct (find_longest_match indexed a b) as [i j k].
  destruct Hm as (pa & pb & w & ra & rb & E1 & E2 & Ei & Ej & Ek). cbn [best_i best_j best_size] in *.
  destruct (k =? 0)%nat; [constructor|]. subst a b i j k.
  rewrite !take_app_length, <- !length_app, !(app_assoc _ w), !drop_app_length, <- !app_assoc.
  apply aligned_append; [apply IH|]. cbn [app].
  replace (ia + length pa)%nat with (ia + length pa + length (@nil A))%nat at 2 by (cbn; lia).
  replace (ib + length pb)%nat with (ib + length pb + length (@nil A))%nat at 2 by (cbn; lia).
  apply (aligned_cons _ _ [] [] w ra rb). cbn [length]. rewrite !Nat.add_0_r. apply IH.
Qed.

Lemma join_aligned l : forall cur ia ib a b, aligned ia ib a b (cur :: l) -> aligned ia ib a b (join_blocks cur l).
Proof.
  induction l as [|m l IH]; intros cur ia ib a b Hc; cbn [join_blocks].
  - destruct (_ =? _)%nat; [constructor|exact Hc].
  - inversion Hc as [|? ? pa pb w ra rb l' Hl' E1 E2 E3 E4]; subst. cbn [best_i best_j best_size].
    inversion Hl' as [|? ? qa qb v sa sb l'' Hl'' E1 E2 E3 E4]; subst. cbn [best_i best_j best_size].
    destruct ((_ =? _)%nat && (_ =? _)%nat) eqn:Ea.
    + apply andb_prop in Ea as [E1%Nat.eqb_eq E2%Nat.eqb_eq].
      assert (qa = [] /\ qb = []) as [-> ->]; [split; apply length_zero_iff_nil; lia|]. apply IH. cbn [app length] in *.
      rewrite !(app_assoc w v), <- (length_app w v). constructor. rewrite length_app.
      rewrite !Nat.add_0_r in Hl''. by rewrite !Nat.add_assoc.
    + clear Ea. destruct (length w =? 0)%nat eqn:E0.
      * apply Nat.eqb_eq, length_zero_iff_nil in E0 as ->. cbn [app length] in *. rewrite !Nat.add_0_r in *.
        apply aligned_weaken. by apply IH.
      * cbn [app]. constructor. by apply IH.
Qed.

Lemma blocks_aligned a b : exists l, get_matching_blocks a b = l ++ [Best (length a) (length b) 0] /\ aligned 0 0 a b l.
Proof.
  eexists. split; [reflexivity|]. apply join_aligned. apply (aligned_cons 0 0 [] [] []). cbn. apply matches_aligned.
Qed.

(** ** The operations *)
Lemma slice_app (p q r : list A) : slice (length p) (length p + length q) (p ++ q ++ r) = q.
Proof. unfold slice. rewrite drop_app_length. replace (_ - _)%nat with (length q) by lia. apply take_app_length. Qed.

(** The two ranges of an operation. *)
Definition old_part a (o : opcode) : list A := slice (i1 o) (i2 o) a.
Definition new_part b (o : opcode) : list A := slice (j1 o) (j2 o) b.
Definition honest a b (o : opcode) : Prop := is_equal o = true -> old_part a o = new_part b o.

Definition patches a b (ra rb : list A) (ops : list opcode) : Prop :=
  flat_map (old_part a) ops = ra /\ flat_map (new_part b) ops = rb /\ Forall (honest a b) ops.

Lemma patches_app a b ra rb sa sb o o' :
  patches a b ra rb o -> patches a b sa sb o' -> patches a b (ra ++ sa) (rb ++ sb) (o ++ o').
Proof.
  intros (E1 & E2 & E3) (F1 & F2 & F3). split_and!; [rewrite flat_map_app; congruence..|by apply list.Forall_app].
Qed.

(** The step of [get_opcodes] up to the next block. *)
Lemma gap_patches Pa Pb pa pb ra rb :
  let i := length Pa in let j := length Pb in let ai := (i + length pa)%nat in let bj := (j + length pb)%nat in
  patches (Pa ++ pa ++ ra) (Pb ++ pb ++ rb) pa pb
    (if (i <? ai)%nat && (j <? bj)%nat then [Opcode Replace i ai j bj]
     else if (i <? ai)%nat then [Opcode Delete i ai j bj]
     else if (j <? bj)%nat then [Opcode Insert i ai j bj] else []).
Proof.
  cbv zeta. destruct (length Pa <? _)%nat eqn:E1, (length Pb <? _)%nat eqn:E2; cbn [andb]; unfold patches; cbn [flat_map];
    unfold old_part, new_part; cbn [i1 i2 j1 j2]; rewrite ?slice_app, ?app_nil_r.
  1-3: split_and!; [done..|repeat constructor; done].
  apply Nat.ltb_ge in E1, E2. assert (length pa = 0 /\ length pb = 0)%nat as [?%length_zero_iff_nil ?%length_zero_iff_nil] by lia.
  subst. done.
Qed.

Lemma opcodes_patches blocks : forall ia ib ra rb, aligned ia ib ra rb blocks -> forall Pa Pb, length Pa = ia -> length Pb = ib ->
  patches (Pa ++ ra) (Pb ++ rb) ra rb (opcodes_from ia ib (blocks ++ [Best (ia + length ra) (ib + length rb) 0])).
Proof.
  induction 1 as [ia ib a b|ia ib pa pb w ra rb l Hl IH]; intros Pa Pb Ha Hb.
  - cbn [app opcodes_from best_i best_j best_size]. cbn [Nat.eqb app]. rewrite app_nil_r.
    pose proof (gap_patches Pa Pb a b [] []) as Hg. rewrite !app_nil_r in Hg. subst ia ib. exact Hg.
  - cbn [app opcodes_from best_i best_j best_size]. subst ia ib.
    apply patches_app; [apply gap_patches|]. apply patches_app.
    + destruct (length w =? 0)%nat eqn:E0.
      * apply Nat.eqb_eq, length_zero_iff_nil in E0 as ->. by split_and!.
      * rewrite <- !length_app, !(app_assoc Pa), !(app_assoc Pb). unfold patches. cbn [flat_map]. unfold honest, old_part, new_part.
        cbn [i1 i2 j1 j2]. rewrite !app_nil_r, (length_app (Pa ++ pa)), (length_app (Pb ++ pb)), !slice_app.
        split_and!; [done..|]. constructor; [|done]. intros _. cbn [i1 i2 j1 j2]. by rewrite !slice_app.
    + specialize (IH (Pa ++ pa ++ w) (Pb ++ pb ++ w)). rewrite !length_app in IH.
      specialize (IH ltac:(lia) ltac:(lia)). rewrite <- !app_assoc in IH. rewrite !length_app, !Nat.add_assoc. exact IH.
Qed.

(** Taking the second list's range of every operation that changes
    something, and the first list's range of every one that does not, turns
    the first list into the second: the ranges of the operations cover both
    lists completely and in order, and where an operation says they are equal
    they are. *)
Theorem opcodes_patch a b :
  flat_map (old_part a) (get_opcodes a b) = a /\ flat_map (new_part b) (get_opcodes a b) = b
  /\ Forall (honest a b) (get_opcodes a b).
Proof.
  unfold get_opcodes. destruct (blocks_aligned a b) as (l & -> & Hl). apply (opcodes_patches l 0 0 a b Hl [] []); done.
Qed.
End MatcherFacts.

(** ** Grouping loses no change *)
Definition changes (l : list opcode) : list opcode := List.filter (fun o => negb (is_equal o)) l.

Lemma changes_app l l' : changes (l ++ l') = changes l ++ changes l'.
Proof. unfold changes. apply List.filter_app. Qed.
Lemma shrink_first_equal n o : is_equal (shrink_first n o) = is_equal o.
Proof. unfold shrink_first. destruct (is_equal o) eqn:E; [done|by rewrite E]. Qed.
Lemma shrink_last_equal n o : is_equal (shrink_last n o) = is_equal o.
Proof. unfold shrink_last. destruct (is_equal o) eqn:E; [done|by rewrite E]. Qed.
Lemma changes_equal o l : is_equal o = true -> changes (o :: l) = changes l.
Proof. unfold changes. cbn. by intros ->. Qed.

Lemma changes_first n o l : changes (shrink_first n o :: l) = changes (o :: l).
Proof.
  destruct (is_equal o) eqn:E; [by rewrite !changes_equal by (rewrite ?shrink_first_equal; done)|].
  unfold shrink_first. by rewrite E.
Qed.
Lemma changes_last n l : changes (on_last (shrink_last n) l) = changes l.
Proof.
  unfold on_last. destruct (rev l) as [|o r] eqn:E; [apply (f_equal (@rev _)) in E; by rewrite rev_involutive in E; subst|].
  apply (f_equal (@rev _)) in E. rewrite rev_involutive in E. subst l. cbn [rev]. rewrite !changes_app. f_equal.
  unfold changes. cbn. by rewrite shrink_last_equal; destruct (is_equal o) eqn:E; unfold shrink_last; rewrite ?E.
Qed.
Lemma changes_trim n l : changes (trim n l) = changes l.
Proof.
  unfold trim. rewrite changes_last. destruct l as [|o l]; [done|]. apply changes_first.
Qed.

Lemma changes_group n codes : forall g, changes (concat (group_from n g codes)) = changes (g ++ codes).
Proof.
  induction codes as [|o codes IH]; intros g; cbn [group_from].
  - rewrite app_nil_r. destruct g as [|x g]; [done|]. destruct (lone_equal (x :: g)) eqn:E; [|cbn; by rewrite app_nil_r].
    destruct g; [|done]. cbn in E. by rewrite changes_equal.
  - destruct (is_equal o && _) eqn:E.
    + apply andb_prop in E as [E _]. cbn [concat]. rewrite changes_app, IH, !changes_app.
      rewrite (changes_equal (shrink_last n o) []) by (rewrite shrink_last_equal; done).
      rewrite (changes_equal (shrink_first n o) []) by (rewrite shrink_first_equal; done).
      rewrite (changes_equal o codes) by done. cbn. by rewrite app_nil_r.
    + rewrite IH. by rewrite <- app_assoc.
Qed.

Lemma grouped_changes n (a b : list pystr) : changes (concat (get_grouped_opcodes n a b)) = changes (get_opcodes a b).
Proof. unfold get_grouped_opcodes. rewrite changes_group. apply changes_trim. Qed.

Lemma no_changes_same {A} `{EqDecision A} (a b : list A) : changes (get_opcodes a b) = [] -> a = b.
Proof.
  intros Hc. unfold get_opcodes in Hc. destruct (blocks_aligned a b) as (l & El & Hl). rewrite El in Hc.
  destruct (opcodes_patches l 0 0 a b Hl [] [] eq_refl eq_refl) as (E1 & E2 & E3). cbn [app Nat.add] in *.
  rewrite <- E1 at 1. rewrite <- E2 at 2. clear E1 E2 El Hl. induction E3 as [|o ops Ho _ IH]; [done|]. cbn [flat_map].
  destruct (is_equal o) eqn:Eo; [|by unfold changes in Hc; cbn in Hc; rewrite Eo in Hc].
  rewrite changes_equal in Hc by done. by rewrite (Ho Eo), (IH Hc).
Qed.

(** Two texts whose unified diff is empty are the same, whatever the
    context asked for: grouping and the shortcuts of the matcher never hide a
    difference. *)
Theorem unified_empty_same n a b : unified_diff n a b = [] -> a = b.
Proof.
  unfold unified_diff. intros Hd. destruct (get_grouped_opcodes n a b) eqn:Eg; [|done].
  apply no_changes_same. by rewrite <- (grouped_changes n), Eg.
Qed.

Lemma unified_empty_same_witness : words (py "a b b c") = words (py "a b b c").
Proof. apply (unified_empty_same 2). vm_compute. reflexivity. Defined.
