(* ===== verification/Restore.v ===== *)
(** * Restoring a FortiOS configuration
    (src/app/modules/backup/restore/config_tree.py, against a device)

    The difference of ConfigTree.v sent to a device whose command line behaves
    as FortiOS documents it: the class [FortiCli], in which new scopes have
    defaults and [unset] gives a setting its default.  The backup is a full
    configuration of that device, [complete].  [Toy] is such a device. *)
From S2P Require Import Prelude PyStr ConfigTree.

(** ** The device

    What the restore relies on: how the FortiOS command line changes a
    configuration, one command at a time, in the scope that is open. *)
Class Cli (D : Type) : Type := {
  exec : D -> pystr -> D;
  config : D -> node;                          (* what [show full-configuration] shows *)
  scope : D -> list pystr;                     (* the lines that opened the scopes *)
  fresh : list pystr -> list (pystr * node)    (* what a new scope there shows *)
}.

(** A name as the command line reads it: a word, or text in quotes. *)
Definition quote_mark : ascii := chr 34.
Definition token (t : pystr) : Prop :=
  (is_word t = true /\ is_prefix [quote_mark] t = false) \/
  exists s, t = quote_mark :: s ++ [quote_mark] /\ has_char quote_mark s = false.

(** Taking an entry out and putting it before another. *)
Fixpoint insert_before (k : pystr) (x : pystr * node) (cs : list (pystr * node)) : list (pystr * node) :=
  match cs with
  | [] => []
  | (k', c) :: cs => if bool_decide (k' = k) then x :: (k', c) :: cs else (k', c) :: insert_before k x cs
  end.
Definition move_before (a b : pystr) (cs : list (pystr * node)) : list (pystr * node) :=
  match get a cs with Some c => insert_before b (a, c) (del a cs) | None => cs end.

(** Opening a scope creates it, with its defaults, the first time. *)
Definition open_child (defaults : list (pystr * node)) (l : pystr) (n : node) : node :=
  match get l (children n) with Some _ => n | None => with_children (put l (Node l defaults)) n end.
(** [unset]: the setting gets its default back, or goes when it has none. *)
Definition reset (defaults : list (pystr * node)) (key : pystr) (cs : list (pystr * node)) : list (pystr * node) :=
  match get key defaults with Some c => put key c cs | None => del key cs end.

(** The documented behaviour, for a device that shows its full configuration.
    [fresh_*]: a new scope shows settings at their defaults and its own config
    scopes, new as well, and no entries.  [exec_open]: [config] and [edit] open
    a scope, and create one that is not there with its defaults.  [exec_next]
    saves an entry and goes back to its table; [exec_end] leaves a [config]
    scope, and in an entry saves it and leaves its table too.  [exec_unset]
    gives a setting its default.  [exec_set], [exec_delete] and [exec_move]
    change that setting, entry or place and nothing else: settings whose value
    hides or shows other settings are outside these laws. *)
Class FortiCli (D : Type) `{Cli D} : Prop := {
  fresh_keys p : NoDup (keys (fresh p));
  fresh_child p k c : (k, c) ∈ fresh p ->
    set_child k c \/ (scope_child k c /\ is_edit k = false /\ children c = fresh (p ++ [k]));
  exec_open s l n : node_at (scope s) (config s) = Some n -> scope_line l ->
    config (exec s l) = modify (scope s) (open_child (fresh (scope s ++ [l])) l) (config s) /\ scope (exec s l) = scope s ++ [l];
  exec_next s p k : scope s = p ++ [k] -> is_edit k = true ->
    config (exec s (py "next")) = config s /\ scope (exec s (py "next")) = p;
  exec_end s p k : scope s = p ++ [k] -> is_edit k = false ->
    config (exec s (py "end")) = config s /\ scope (exec s (py "end")) = p;
  exec_end_entry s p k e : scope s = p ++ [k; e] -> is_edit e = true ->
    config (exec s (py "end")) = config s /\ scope (exec s (py "end")) = p;
  exec_set s n k c : node_at (scope s) (config s) = Some n -> set_child k c ->
    config (exec s (line c)) = modify (scope s) (with_children (put k c)) (config s) /\
    scope (exec s (line c)) = scope s;
  exec_unset s n name : node_at (scope s) (config s) = Some n -> is_word name = true ->
    config (exec s (py "unset " ++ name)) = modify (scope s) (with_children (reset (fresh (scope s)) (py "set " ++ name))) (config s) /\
    scope (exec s (py "unset " ++ name)) = scope s;
  exec_delete s n name : node_at (scope s) (config s) = Some n -> solid name = true ->
    config (exec s (py "delete " ++ name)) = modify (scope s) (with_children (del (py "edit " ++ name))) (config s) /\
    scope (exec s (py "delete " ++ name)) = scope s;
  exec_move s n a b : node_at (scope s) (config s) = Some n -> token a -> token b ->
    has (py "edit " ++ a) (children n) = true -> has (py "edit " ++ b) (children n) = true -> a <> b ->
    config (exec s (py "move " ++ a ++ py " before " ++ b)) =
      modify (scope s) (with_children (move_before (py "edit " ++ a) (py "edit " ++ b))) (config s) /\
    scope (exec s (py "move " ++ a ++ py " before " ++ b)) = scope s
}.

Section Device.
Context {D : Type} `{FortiCli D}.

(** Sending commands one after the other. *)
Definition send (cs : list pystr) (s : D) : D := foldl exec s cs.

(** In the scope at [p], [cs] turns it from [l] into [l'] and comes back. *)
Definition runs (p : list pystr) (cs : list pystr) (l l' : node) : Prop :=
  forall s, scope s = p -> node_at p (config s) = Some l ->
    config (send cs s) = modify p (fun _ => l') (config s) /\ scope (send cs s) = p.

Lemma runs_nil p l : runs p [] l l.
Proof. intros s Hp Hs. simpl. by rewrite (modify_id _ _ _ Hs). Qed.

Lemma runs_app p c1 c2 l l1 l2 : runs p c1 l l1 -> runs p c2 l1 l2 -> runs p (c1 ++ c2) l l2.
Proof.
  intros H1 H2 s Hp Hs. destruct (H1 s Hp Hs) as [E1 S1]. unfold send in *. rewrite foldl_app.
  destruct (H2 (foldl exec s c1)) as [E2 S2]; [done| |].
  { rewrite E1. by rewrite (node_at_modify _ _ _ _ Hs). }
  unfold send in E2, S2. rewrite E2, S2, E1, modify_modify. done.
Qed.

(** One command that changes the children of the open scope. *)
Lemma runs_one p c f l :
  (forall s, scope s = p -> node_at (scope s) (config s) = Some l ->
     config (exec s c) = modify (scope s) (with_children f) (config s) /\ scope (exec s c) = scope s) ->
  runs p [c] l (with_children f l).
Proof.
  intros Hc s Hp Hs. destruct (Hc s Hp) as [E S]; [by rewrite Hp|]. simpl. rewrite E, S, Hp. split; [|done]. by eapply modify_ext.
Qed.

Lemma runs_set p k c l : set_child k c -> runs p [line c] l (with_children (put k c) l).
Proof. intros Hc. apply runs_one. intros s _ Hs. by eapply exec_set. Qed.
Lemma runs_unset p name l : is_word name = true -> get (py "set " ++ name) (fresh p) = None ->
  runs p [py "unset " ++ name] l (with_children (del (py "set " ++ name)) l).
Proof.
  intros Hc Hf. apply runs_one. intros s Hp Hs. destruct (exec_unset s l name Hs Hc) as [E S]. rewrite E, S.
  unfold reset. by rewrite Hp, Hf.
Qed.
Lemma runs_delete p name l : solid name = true -> runs p [py "delete " ++ name] l (with_children (del (py "edit " ++ name)) l).
Proof. intros Hc. apply runs_one. intros s _ Hs. by eapply exec_delete. Qed.

Lemma runs_move p a b l :
  token a -> token b -> has (py "edit " ++ a) (children l) = true -> has (py "edit " ++ b) (children l) = true -> a <> b ->
  runs p [py "move " ++ a ++ py " before " ++ b] l (with_children (move_before (py "edit " ++ a) (py "edit " ++ b)) l).
Proof. intros. apply runs_one. intros s _ Hs. by eapply exec_move. Qed.

(** Opening a scope, working in it, leaving it. *)
Lemma runs_scope p k body l c' :
  scope_line k ->
  runs (p ++ [k]) body (match get k (children l) with Some c => c | None => Node k (fresh (p ++ [k])) end) c' ->
  runs p (k :: body ++ [closer k]) l (with_children (put k c') l).
Proof.
  intros Hk Hb s Hp Hs. subst p. unfold send. simpl. rewrite foldl_app. simpl.
  destruct (exec_open s k l Hs Hk) as [E S].
  set (c := match get k (children l) with Some c => c | None => Node k (fresh (scope s ++ [k])) end) in *.
  set (l1 := open_child (fresh (scope s ++ [k])) k l). assert (get k (children l1) = Some c) as Hget.
  { unfold l1, open_child, c. destruct (get k (children l)) eqn:Eg; [done|]. unfold with_children. simpl. apply get_put_eq. }
  assert (node_at (scope s) (config (exec s k)) = Some l1) as Hl1 by (rewrite E; by apply node_at_modify).
  destruct (Hb (exec s k) S) as [E' S'].
  { rewrite (node_at_snoc _ _ _ _ Hl1). exact Hget. }
  assert (config (exec (send body (exec s k)) (closer k)) = config (send body (exec s k))
          /\ scope (exec (send body (exec s k)) (closer k)) = scope s) as [E2 S2].
  { unfold closer. destruct (is_edit k) eqn:Ek; [by eapply exec_next|by eapply exec_end]. }
  unfold send in *. rewrite E2, S2, E'. split; [|done].
  rewrite (modify_snoc _ _ _ _ _ _ Hl1 Hget), E, modify_modify. eapply modify_ext; [exact Hs|].
  unfold l1, open_child, with_children. destruct (get k (children l)) eqn:Eg; simpl; [done|]. by rewrite put_put.
Qed.

(** ** What a new scope shows *)
Lemma fresh_get p k c : get k (fresh p) = Some c -> (k, c) ∈ fresh p.
Proof. apply get_elem_of. Qed.
Lemma fresh_no_edit p k : k ∈ keys (fresh p) -> is_edit_key k = false.
Proof.
  intros ([k' c] & -> & Hin)%list_elem_of_fmap. cbn [fst]. destruct (fresh_child p k' c Hin) as [Hs|(Hs & He & _)].
  - by apply (set_key_not_edit k' c).
  - destruct (scope_kind _ _ Hs) as [(E & _)|[_ E]]; [|done]. destruct Hs as [<- _]. congruence.
Qed.
Lemma edit_keys_fresh p : edit_keys (fresh p) = [].
Proof. apply filter_none. intros k Hk. by apply (fresh_no_edit p). Qed.

(** A scope in which nothing has a default, nor in the config scopes in it. *)
Definition hollow (q : list pystr) : Prop :=
  forall rest k c, Forall (fun j => is_edit j = false) rest -> (k, c) ∈ fresh (q ++ rest) -> is_set (line c) = false.

Lemma hollow_inner q k : hollow q -> is_edit k = false -> hollow (q ++ [k]).
Proof. intros Hq Hk rest j c Hr. rewrite <- app_assoc. apply Hq. by constructor. Qed.
Lemma hollow_setting q key c : hollow q -> set_child key c -> get key (fresh q) = None.
Proof.
  intros Hq Hs. destruct (get key (fresh q)) as [c0|] eqn:E; [|done]. apply get_elem_of in E.
  pose proof (Hq [] key c0 (list.Forall_nil_2 _)) as Hn. rewrite app_nil_r in Hn. specialize (Hn E).
  destruct (fresh_child q key c0 E) as [Hc0|([_ Hc0] & _)]; [by rewrite (set_child_is_set _ _ Hc0) in Hn|].
  by apply (set_key_not_scope key c) in Hc0.
Qed.
Lemma fresh_bare n q : children n = fresh q -> hollow q -> bare n.
Proof.
  revert q. induction n as [l cs IH] using node_induction. intros q E Hq. cbn [children] in *. apply bare_iff. intros k c Hin.
  cbn [children] in Hin. pose proof Hin as Hf. rewrite E in Hf.
  assert (is_set (line c) = false) as Hns by (apply (Hq [] k); [constructor|by rewrite app_nil_r]).
  destruct (fresh_child q k c Hf) as [Hs|(Hs & He & Ec)]; [by rewrite (set_child_is_set _ _ Hs) in Hns|].
  split; [done|]. assert (is_edit (line c) = false) as Hle by by (destruct Hs as [-> _]). split; [done|].
  by apply (IH k c Hin (q ++ [k])), hollow_inner.
Qed.

(** [n], at [q], is a full configuration of this device: every setting that
    has a default is in it, and the config scopes it does not have have no
    defaults. *)
Definition complete (q : list pystr) (n : node) : Prop :=
  forall r m, node_at r n = Some m -> is_set (line m) = false ->
    (forall k c, (k, c) ∈ fresh (q ++ r) -> is_set (line c) = true -> has k (children m) = true) /\
    (forall k, scope_line k -> is_edit k = false -> has k (children m) = false -> hollow (q ++ r ++ [k])).

Lemma complete_child q n k c : complete q n -> get k (children n) = Some c -> complete (q ++ [k]) c.
Proof.
  intros Hn Hk r m Hr Hs. destruct (Hn (k :: r) m) as [H1 H2]; [cbn [node_at]; by rewrite Hk|done|].
  split; [by rewrite <- app_assoc|]. intros j Hj He Hh. rewrite <- app_assoc. by apply (H2 j).
Qed.
Lemma complete_here q n : complete q n -> is_set (line n) = false ->
  (forall k c, (k, c) ∈ fresh q -> is_set (line c) = true -> has k (children n) = true) /\
  (forall k, scope_line k -> is_edit k = false -> has k (children n) = false -> hollow (q ++ [k])).
Proof. intros Hn Hs. pose proof (Hn [] n eq_refl Hs) as Hc. by rewrite app_nil_r in Hc. Qed.
(** A setting the configuration does not have has no default. *)
Lemma complete_setting q n key c : complete q n -> is_set (line n) = false ->
  set_child key c -> has key (children n) = false -> get key (fresh q) = None.
Proof.
  intros Hn Hs Hc Hh. destruct (complete_here q n Hn Hs) as [H1 _]. destruct (get key (fresh q)) as [c0|] eqn:E; [|done].
  apply get_elem_of in E. specialize (H1 key c0 E). destruct (fresh_child q key c0 E) as [Hc0|([_ Hc0] & _)].
  - rewrite H1 in Hh; [done|by apply (set_child_is_set key)].
  - by apply (set_key_not_scope key c) in Hc0.
Qed.

(** What dropping one child leaves: everything else as it was, in its place. *)
Definition dropped (key : pystr) (cur cur' : node) : Prop :=
  line cur' = line cur /\ NoDup (keys (children cur')) /\
  (forall k, k <> key -> get k (children cur') = get k (children cur)) /\
  (forall c, get key (children cur') = Some c -> bare_child c) /\
  edit_keys (children cur') = List.filter (fun j => negb (bool_decide (j = key))) (edit_keys (children cur)).

Lemma dropped_del key cur :
  NoDup (keys (children cur)) -> dropped key cur (with_children (del key) cur).
Proof.
  intros Hnd. unfold dropped, with_children. simpl. split_and!; [done|by apply nodup_del| | |by apply edit_keys_del].
  - intros k Hk. by apply get_del_ne.
  - intros c. by rewrite get_del_eq.
Qed.

Lemma filter_other key (p : pystr -> bool) l :
  p key = false ->
  List.filter (fun j => negb (bool_decide (j = key))) (List.filter p l) = List.filter p l.
Proof.
  intros Hp. induction l as [|y l IH]; [done|]. simpl. destruct (p y) eqn:Ey; [|done]. simpl.
  rewrite bool_decide_eq_false_2 by congruence. simpl. by rewrite IH.
Qed.

Definition clears (q : list pystr) (c : node) : Prop :=
  exists inner c', _forti_clear c = Ok inner /\ runs q inner c c' /\ bare c' /\ line c' = line c.

Lemma clear_child_runs p key c cur :
  set_child key c /\ get key (fresh p) = None \/ (scope_child key c /\ (is_edit key = false -> clears (p ++ [key]) c)) ->
  get key (children cur) = Some c -> NoDup (keys (children cur)) ->
  exists here cur', clear_child key c = Ok here /\ runs p here cur cur' /\ dropped key cur cur'.
Proof.
  intros Hkind Hget Hnd. unfold clear_child. destruct Hkind as [[Hset Hfresh]|[Hscope Hclear]].
  - rewrite (set_child_is_set _ _ Hset). apply set_line_spec in Hset as (_ & _ & name & Hn & -> & ->). cbn [res_bind].
    eexists _, _. split_and!; [done|by apply runs_unset|by apply dropped_del].
  - rewrite (scope_child_not_set _ _ Hscope).
    destruct (scope_kind _ _ Hscope) as [(-> & _ & x & Hx & ->)|[Hne Hek]].
    + destruct Hscope as [-> _]. rewrite edit_argument by done. simpl.
      eexists _, _. split_and!; [done|by apply runs_delete|by apply dropped_del].
    + rewrite Hne. destruct Hclear as (inner & c' & Ec & Hruns & Hbare & Hline); [by destruct Hscope as [<- _]|]. rewrite Ec. simpl.
      assert (bare_child c') as Hbc by (unfold bare_child; rewrite Hline, Hne; split_and!; [by eapply scope_child_not_set|done|done]).
      assert (forall d, bare_child d -> dropped key cur (with_children (put key d) cur)) as Hdrop.
      { intros d Hd. unfold dropped, with_children. simpl.
        split_and!; [done|by apply nodup_put|intros k Hk; by apply get_put_ne|intros e; rewrite get_put_eq; by intros [= <-]|].
        rewrite edit_keys_put. unfold has. rewrite Hget, app_nil_r. unfold edit_keys. by rewrite filter_other. }
      destruct inner as [|i inner].
      * exists [], cur. split_and!; [done|apply runs_nil|]. specialize (Hdrop c).
        unfold with_children in Hdrop. rewrite (put_get _ _ _ Hget), node_eta in Hdrop. apply Hdrop.
        unfold bare_child. rewrite Hne, (scope_child_not_set _ _ Hscope). by apply clear_bare in Ec.
      * exists (line c :: (i :: inner) ++ [py "end"]), (with_children (put key c') cur).
        split_and!; [done| |by apply Hdrop].
        assert (py "end" = closer key) as -> by (destruct Hscope as [<- _]; unfold closer; by rewrite Hne).
        destruct Hscope as [-> Hk]. apply runs_scope; [done|]. by rewrite Hget.
Qed.

Lemma clear_all_runs p ls : forall cur,
  (forall key c, (key, c) ∈ ls -> get key (children cur) = Some c /\
     (set_child key c /\ get key (fresh p) = None \/ (scope_child key c /\ (is_edit key = false -> clears (p ++ [key]) c)))) ->
  NoDup (keys ls) -> NoDup (keys (children cur)) ->
  exists here cur', clear_all ls = Ok here /\ runs p here cur cur' /\ line cur' = line cur /\ NoDup (keys (children cur')) /\
    (forall k, k ∉ keys ls -> get k (children cur') = get k (children cur)) /\
    (forall k c, k ∈ keys ls -> get k (children cur') = Some c -> bare_child c).
Proof.
  induction ls as [|[key c] ls IH]; intros cur Hin Hnd Hndc; simpl.
  - exists [], cur. split_and!; [done|apply runs_nil|done|done|done|set_solver].
  - inversion Hnd as [|? ? Hnot Hnd' E]; subst. destruct (Hin key c) as [Hget Hkind]; [set_solver|].
    destruct (clear_child_runs p key c cur Hkind Hget Hndc) as (here & cur1 & -> & Hr1 & Hl1 & Hn1 & Ho1 & Hb1 & _). simpl.
    destruct (IH cur1) as (rest & cur2 & -> & Hr2 & Hl2 & Hn2 & Ho2 & Hb2); [|done|done|].
    { intros k d Hkd. destruct (Hin k d) as [Hg Hk]; [set_solver|]. split; [|done]. rewrite Ho1; [done|].
      intros ->. apply Hnot. apply list_elem_of_fmap. by exists (key, d). }
    simpl. eexists _, cur2. split_and!; [done|by eapply runs_app|congruence|done| |].
    + intros k Hk. rewrite Ho2, Ho1; [done|set_solver|set_solver].
    + intros k d Hk Hd. destruct (decide (k ∈ keys ls)) as [Hkl|Hkl]; [by eapply Hb2|].
      rewrite Ho2 in Hd by done. apply elem_of_cons in Hk as [->|?]; [by apply Hb1|done].
Qed.

(** Emptying a scope in which nothing has a default works. *)
Lemma clear_runs n : forall q, canonical n -> hollow q -> clears q n.
Proof.
  induction n as [l cs IH] using node_induction. intros q [Hnd Hc]%canonical_iff Hq. simpl in *.
  destruct (clear_all_runs q cs (Node l cs)) as (here & cur & E & Hr & Hl & Hn & Ho & Hb); [|done|done|].
  { intros key c Hin. split; [by apply get_elem|]. destruct (Hc key c Hin) as [Hs|[? Hcan]].
    - left. split; [done|by eapply hollow_setting].
    - right. split; [done|]. intros He. apply (IH key); [done|done|by apply hollow_inner]. }
  exists here, cur. rewrite forti_clear_eq. split_and!; [done|done| |done].
  apply bare_iff. intros k c Hin. apply get_elem in Hin; [|done].
  destruct (decide (k ∈ keys cs)) as [Hk|Hk]; [by eapply Hb|].
  rewrite Ho in Hin by done. simpl in Hin. apply get_some_in in Hin. done.
Qed.

(** Setting one child: everything else as it was, a new entry at the end. *)
Definition advanced (key : pystr) (c : node) (cur cur' : node) : Prop :=
  line cur' = line cur /\ NoDup (keys (children cur')) /\
  (forall k, k <> key -> get k (children cur') = get k (children cur)) /\
  (exists c', get key (children cur') = Some c' /\ good c c') /\
  edit_keys (children cur') =
    edit_keys (children cur) ++ (if has key (children cur) then [] else if is_edit_key key then [key] else []).

Lemma advanced_put key c c' cur :
  NoDup (keys (children cur)) -> good c c' -> advanced key c cur (with_children (put key c') cur).
Proof.
  intros Hnd Hg. unfold advanced, with_children. simpl. split_and!; [done|by apply nodup_put| | |apply edit_keys_put].
  - intros k Hk. by apply get_put_ne.
  - exists c'. by rewrite get_put_eq.
Qed.

Lemma advanced_same key c c' cur :
  NoDup (keys (children cur)) -> get key (children cur) = Some c' -> good c c' -> advanced key c cur cur.
Proof.
  intros Hnd Hget Hg. pose proof (advanced_put key c c' cur Hnd Hg) as Ha.
  unfold with_children in Ha. by rewrite put_get, node_eta in Ha.
Qed.

(** Building a new scope works: the commands make it match the node. *)
Definition builds (q : list pystr) (c : node) : Prop :=
  exists c', runs q (_forti_body c) (Node (line c) (fresh q)) c' /\ line c' = line c /\ matches c c'.

(** One child, which is not there yet or as it is in a new scope. *)
Definition child_lines (c : node) : list pystr :=
  if is_set (line c) then [line c] else line c :: _forti_body c ++ [closer (line c)].
Lemma put_child_runs p key c cur :
  set_child key c \/ (scope_child key c /\ builds (p ++ [key]) c) ->
  match get key (children cur) with Some c0 => get key (fresh p) = Some c0 | None => True end ->
  NoDup (keys (children cur)) ->
  exists cur', runs p (child_lines c) cur cur' /\ advanced key c cur cur'.
Proof.
  intros Hkind Hget Hnd. unfold child_lines. destruct Hkind as [Hset|[Hscope (c' & Hr & Hl & Hm)]].
  - rewrite (set_child_is_set _ _ Hset). eexists. split; [by apply runs_set|]. apply advanced_put; [done|].
    unfold good. rewrite (set_child_is_set _ _ Hset). by left.
  - rewrite (scope_child_not_set _ _ Hscope). exists (with_children (put key c') cur). split.
    + destruct Hscope as [E Hk]. rewrite E in *. apply runs_scope; [done|]. destruct (get key (children cur)) as [c0|]; [|done].
      apply get_elem_of in Hget. destruct (fresh_child p key c0 Hget) as [Hs|([E0 _] & _ & Ec)].
      * by apply (set_key_not_scope key c0) in Hk.
      * by rewrite <- (node_eta c0), E0, Ec.
    + apply advanced_put; [done|]. unfold good. by rewrite (scope_child_not_set _ _ Hscope).
Qed.

Lemma build_all_runs p bs : forall cur,
  NoDup (keys bs) -> NoDup (keys (children cur)) ->
  (forall k c, (k, c) ∈ bs -> set_child k c \/ (scope_child k c /\ builds (p ++ [k]) c)) ->
  (forall k, k ∈ keys bs -> get k (children cur) = get k (fresh p)) ->
  exists cur', runs p (flat_map (fun kc => child_lines (snd kc)) bs) cur cur' /\ line cur' = line cur /\
    NoDup (keys (children cur')) /\
    (forall k, k ∉ keys bs -> get k (children cur') = get k (children cur)) /\
    (forall k c, (k, c) ∈ bs -> exists c', get k (children cur') = Some c' /\ good c c') /\
    edit_keys (children cur') = edit_keys (children cur) ++ edit_keys bs.
Proof.
  induction bs as [|[key c] bs IH]; intros cur Hnd Hndc Hkind Hget; simpl.
  - exists cur. split_and!; [apply runs_nil|done|done|done|set_solver|by rewrite app_nil_r].
  - inversion Hnd as [|? ? Hnot Hnd' E]; subst.
    destruct (put_child_runs p key c cur) as (cur1 & Hr & Hl1 & Hn1 & Ho1 & Hg1 & He1); [by apply Hkind; left| |done|].
    { rewrite Hget by by left. by destruct (get key (fresh p)). }
    assert (forall k, k ∈ keys bs -> k <> key) as Hne by (intros k Hk ->; by apply Hnot).
    destruct (IH cur1) as (cur2 & Hr2 & Hl2 & Hn2 & Ho2 & Hg2 & He2);
      [done|done|by intros k d Hd; apply Hkind; right| |].
    { intros k Hk. rewrite Ho1 by by apply Hne. apply Hget. by right. }
    exists cur2. split_and!; [by eapply runs_app|congruence|done| | |].
    + intros k Hk. rewrite Ho2, Ho1; [done|set_solver|set_solver].
    + intros k d [[= -> ->]|Hin]%elem_of_cons; [by rewrite Ho2|by apply Hg2].
    + rewrite He2, He1, <- app_assoc. f_equal. unfold edit_keys at 2. cbn [keys map fst List.filter].
      destruct (is_edit_key key) eqn:Ek; [|by destruct (has key (children cur))].
      assert (has key (children cur) = false) as ->; [|done]. unfold has. rewrite Hget by by left.
      destruct (get key (fresh p)) eqn:Ef; [|done]. apply get_some_in, fresh_no_edit in Ef. congruence.
Qed.

Lemma body_lines n : _forti_body n = flat_map (fun kc => child_lines (snd kc)) (children n).
Proof. by destruct n. Qed.
Lemma body_runs n : forall q, canonical n -> is_set (line n) = false -> complete q n -> builds q n.
Proof.
  induction n as [l cs IH] using node_induction. intros q [Hnd Hc]%canonical_iff Hns Hq. cbn [children line] in *.
  destruct (build_all_runs q cs (Node l (fresh q)) Hnd (fresh_keys q)) as (cur & Hr & Hl & Hn & Ho & Hg & He); [|done|].
  { intros k c Hin. destruct (Hc k c Hin) as [?|[Hs Hcan]]; [by left|right]. split; [done|].
    apply (IH k c Hin); [done|by eapply scope_child_not_set|]. eapply complete_child; [exact Hq|]. by apply get_elem. }
  exists cur. rewrite body_lines. split_and!; [done|done|]. apply matches_iff. cbn [children line] in *. split_and!; [done| |].
  - intros k c Hin Hno. apply get_elem in Hin; [|done]. rewrite Ho in Hin.
    2: { intros Hk. apply has_in in Hk. congruence. }
    apply get_elem_of in Hin. destruct (complete_here q _ Hq Hns) as [H1 H2]. cbn [children] in H1, H2.
    destruct (is_set (line c)) eqn:Es; [by rewrite (H1 k c Hin Es) in Hno|].
    destruct (fresh_child q k c Hin) as [Hs|(Hs & Hek & Ec)]; [by rewrite (set_child_is_set _ _ Hs) in Es|].
    split; [done|]. destruct Hs as [El Hk]. split; [by rewrite El|]. eapply fresh_bare; [exact Ec|]. by apply H2.
  - intros _. by rewrite He, edit_keys_fresh.
Qed.

(** Reordering the entries of a table. *)
Lemma remove_edit_key x l : remove_name (edit_key x) (map edit_key l) = map edit_key (remove_name x l).
Proof.
  induction l as [|y l IH]; [done|]. cbn [remove_name map]. destruct (decide (y = x)) as [->|Hne].
  - by rewrite !bool_decide_eq_true_2.
  - rewrite !bool_decide_eq_false_2; [|done|by intros ?%edit_key_inj]. cbn [map]. by rewrite IH.
Qed.

Lemma put_before_edit_key b a l : put_before (edit_key b) (edit_key a) (map edit_key l) = map edit_key (put_before b a l).
Proof.
  induction l as [|y l IH]; [done|]. cbn [put_before map]. destruct (decide (y = b)) as [->|Hne].
  - by rewrite !bool_decide_eq_true_2.
  - rewrite !bool_decide_eq_false_2; [|done|by intros ?%edit_key_inj]. cbn [map]. by rewrite IH.
Qed.

Lemma keys_insert_before b x cs : keys (insert_before b x cs) = put_before b (fst x) (keys cs).
Proof. induction cs as [|[k c] cs IH]; [done|]. simpl. case_bool_decide; [done|]. simpl. by rewrite IH. Qed.

Lemma keys_del k cs : keys (del k cs) = remove_name k (keys cs).
Proof. induction cs as [|[j c] cs IH]; [done|]. simpl. case_bool_decide; [done|]. simpl. by rewrite IH. Qed.

Lemma filter_put_before p b a l :
  p b = true -> p a = true -> List.filter p (put_before b a l) = put_before b a (List.filter p l).
Proof.
  intros Hb Ha. induction l as [|y l IH]; [done|]. cbn [put_before]. case_bool_decide as E.
  - subst y. simpl. rewrite Ha, Hb. simpl. by rewrite bool_decide_eq_true_2.
  - simpl. destruct (p y); simpl; [|done]. by rewrite IH, bool_decide_eq_false_2.
Qed.

Lemma filter_remove_name p x l : p x = true -> List.filter p (remove_name x l) = remove_name x (List.filter p l).
Proof.
  intros Hx. induction l as [|y l IH]; [done|]. cbn [remove_name]. case_bool_decide as E.
  - subst y. simpl. rewrite Hx. simpl. by rewrite bool_decide_eq_true_2.
  - simpl. destruct (p y); simpl; [|done]. by rewrite IH, bool_decide_eq_false_2.
Qed.

Lemma get_insert_before b a c k cs :
  get a cs = None -> b ∈ keys cs -> get k (insert_before b (a, c) cs) = if bool_decide (a = k) then Some c else get k cs.
Proof.
  induction cs as [|[j d] cs IH]; [set_solver|]. cbn [get insert_before]. intros Ha Hb.
  destruct (decide (j = a)) as [->|Hja]; [by rewrite bool_decide_eq_true_2 in Ha|].
  rewrite bool_decide_eq_false_2 in Ha by done. destruct (decide (j = b)) as [->|Hjb].
  - rewrite bool_decide_eq_true_2 by done. cbn [get]. done.
  - rewrite bool_decide_eq_false_2 by done. cbn [get]. rewrite IH; [|done|set_solver].
    destruct (decide (j = k)) as [->|Hjk]; [rewrite (bool_decide_eq_false_2 (a = k)), bool_decide_eq_true_2 by congruence; done|].
    by rewrite (bool_decide_eq_false_2 (j = k)).
Qed.

Lemma move_before_spec a b cs :
  NoDup (keys cs) -> has (edit_key a) cs = true -> has (edit_key b) cs = true -> a <> b ->
  (forall k, get k (move_before (edit_key a) (edit_key b) cs) = get k cs) /\
  NoDup (keys (move_before (edit_key a) (edit_key b) cs)) /\
  edit_keys (move_before (edit_key a) (edit_key b) cs) =
    put_before (edit_key b) (edit_key a) (remove_name (edit_key a) (edit_keys cs)).
Proof.
  intros Hnd Ha Hb Hne. unfold move_before, has in *. destruct (get (edit_key a) cs) as [c|] eqn:Ea; [|done].
  assert (edit_key b <> edit_key a) as Hkk by by intros ?%edit_key_inj.
  assert (edit_key b ∈ keys (del (edit_key a) cs)) as Hbin.
  { apply get_in. rewrite get_del_ne by done. by destruct (get (edit_key b) cs). }
  pose proof (get_del_eq (edit_key a) cs Hnd) as Hgone. split_and!.
  - intros k. rewrite get_insert_before by done. case_bool_decide as E; [by subst|].
    apply get_del_ne. congruence.
  - rewrite keys_insert_before. cbn [fst].
    assert (forall l, edit_key b ∈ l -> put_before (edit_key b) (edit_key a) l ≡ₚ edit_key a :: l) as Hp.
    { induction l as [|y l IHl]; [set_solver|]. cbn [put_before]. case_bool_decide as Ey; [done|].
      intros Hin. rewrite IHl by set_solver. apply perm_swap. }
    rewrite Hp by done. apply list.NoDup_cons. split; [|by apply nodup_del]. by apply get_none.
  - unfold edit_keys. rewrite keys_insert_before, keys_del. cbn [fst].
    rewrite filter_put_before by done. by rewrite filter_remove_name by done.
Qed.

(** Only the order of the entries of a table differs. *)
Definition reordered (cur cur' : node) (names : list pystr) : Prop :=
  line cur' = line cur /\ NoDup (keys (children cur')) /\
  (forall k, get k (children cur') = get k (children cur)) /\ edit_keys (children cur') = map edit_key names.

Lemma moves_run p pairs : forall cur names,
  NoDup (keys (children cur)) -> edit_keys (children cur) = map edit_key names ->
  valid_moves pairs names -> Forall (fun n => token n) names ->
  exists cur', runs p (map move_command pairs) cur cur' /\ reordered cur cur' (foldl moved names pairs).
Proof.
  induction pairs as [|[a b] pairs IH]; intros cur names Hnd He Hv Ht; simpl.
  - exists cur. split; [apply runs_nil|]. done.
  - destruct Hv as (Ha & Hb & Hne & Hv). simpl in *.
    assert (forall n, n ∈ names -> has (edit_key n) (children cur) = true) as Hhas.
    { intros n Hn. assert (edit_key n ∈ edit_keys (children cur)) as Hk by (rewrite He; by apply list_elem_of_fmap_2).
      unfold edit_keys in Hk. apply list_elem_of_In, List.filter_In in Hk as [Hk _]. apply list_elem_of_In in Hk.
      unfold has. apply get_in in Hk. by destruct (get _ _). }
    rewrite list.Forall_forall in Ht.
    pose proof (runs_move p a b cur (Ht a Ha) (Ht b Hb) (Hhas a Ha) (Hhas b Hb) Hne) as Hr.
    destruct (move_before_spec a b (children cur) Hnd (Hhas a Ha) (Hhas b Hb) Hne) as (Hg & Hn & Hk).
    destruct (IH (with_children (move_before (edit_key a) (edit_key b)) cur) (moved names (a, b))) as (cur' & Hr' & Hl & Hn' & Hg' & Hk').
    + done.
    + simpl. rewrite Hk, He, remove_edit_key, put_before_edit_key. done.
    + done.
    + apply list.Forall_forall. intros n Hin. apply Ht. unfold moved in Hin. simpl in Hin.
      assert (forall l, n ∈ put_before b a l -> n = a \/ n ∈ l) as Hpb.
      { induction l as [|y l IHl]; [set_solver|]. cbn [put_before]. case_bool_decide; set_solver. }
      assert (forall l, n ∈ remove_name a l -> n ∈ l) as Hrm.
      { induction l as [|y l IHl]; [set_solver|]. cbn [remove_name]. case_bool_decide; set_solver. }
      apply Hpb in Hin as [->|Hin]; [done|by apply Hrm].
    + exists cur'. split; [apply (runs_app p [move_command (a, b)] _ cur _ cur' Hr Hr')|].
      unfold reordered. split_and!; [done|done| |done]. intros k. rewrite Hg'. apply Hg.
Qed.

(** ** The commands of a difference turn the device into the backup *)

(** The names of ordered tables are single tokens of the command line. *)
Fixpoint movable (n : node) : Prop :=
  (ordered_scope (line n) = true -> forall x, edit_key x ∈ keys (children n) -> token x) /\
  (fix all (cs : list (pystr * node)) : Prop :=
     match cs with [] => True | (_, c) :: cs => movable c /\ all cs end) (children n).

Lemma movable_iff n :
  movable n <->
  (ordered_scope (line n) = true -> forall x, edit_key x ∈ keys (children n) -> token x) /\
  forall k c, (k, c) ∈ children n -> movable c.
Proof.
  destruct n as [l cs]. cbn [movable children line]. apply and_iff_compat_l. induction cs as [|[k c] cs IH]; [set_solver|].
  rewrite IH. setoid_rewrite elem_of_cons. split; [intros [H1 H2] k' c' [[= -> ->]|?]; [done|by eapply H2]|].
  intros H1. split; [by apply (H1 k c); left|]. intros k' c' Hin. apply (H1 k' c'). by right.
Qed.

(** What is to be shown of a subtree. *)
Definition restores (b : node) : Prop :=
  forall l path d, canonical l -> path_of b path -> is_set (line b) = false -> complete path b ->
    exists cs d' l', _forti_diff b l path d = Ok (cs, d') /\ runs path cs l l' /\ line l' = line l /\
      matches b l' /\ (cs = [] <-> matches b l).

Lemma common_child_runs live path key c st cur :
  set_child key c \/ (scope_child key c /\ canonical c /\ restores c /\ complete (path ++ [key]) c) ->
  (forall l, get key live = Some l -> set_child key l \/ (scope_child key l /\ canonical l)) ->
  get key (children cur) = get key live -> NoDup (keys (children cur)) ->
  exists st' here cur', common_child live path key c st = Ok st' /\ cmds st' = cmds st ++ here /\
    runs path here cur cur' /\ advanced key c cur cur' /\
    (here = [] <-> exists l, get key live = Some l /\ good c l).
Proof.
  intros Hkind Hlive Hget Hnd. unfold common_child. rewrite <- Hget in *.
  destruct (get key (children cur)) as [l|] eqn:El.
  - specialize (Hlive l eq_refl).
    assert (is_set (line c) = is_set (line l)) as Hsame by (apply (same_kind key); tauto).
    destruct Hkind as [Hset|(Hscope & Hcan & Hrest & Hcomp)].
    + unfold good at 1. rewrite (set_child_is_set _ _ Hset).
      case_bool_decide as E; [|destruct (_is_enc (line c) && _is_enc (line l)) eqn:Eenc].
      * exists st, [], cur. split_and!; [done|by rewrite app_nil_r|apply runs_nil| |].
        -- eapply advanced_same; [done|done|]. unfold good. rewrite (set_child_is_set _ _ Hset). by left.
        -- split; [|done]. intros _. exists l. split; [done|by left].
      * apply andb_prop in Eenc. eexists _, [], cur. split_and!; [done|by rewrite cmds_skip, app_nil_r|apply runs_nil| |].
        -- eapply advanced_same; [done|done|]. unfold good. rewrite (set_child_is_set _ _ Hset). by right.
        -- split; [|done]. intros _. exists l. split; [done|by right].
      * eexists _, [line c], _. split_and!; [done|by autorewrite with ngc|by apply runs_set| |].
        -- apply advanced_put; [done|]. unfold good. rewrite (set_child_is_set _ _ Hset). by left.
        -- split; [done|]. intros (l0 & [= <-] & [?|Henc]); [done|]. destruct Henc as [H1 H2]. by rewrite H1, H2 in Eenc.
    + unfold good at 1. rewrite (scope_child_not_set _ _ Hscope) in *.
      destruct Hlive as [Hl|[Hl Hlcan]]; [by rewrite (set_child_is_set _ _ Hl) in Hsame|].
      destruct (Hrest l (path ++ [line c]) (out st)) as (inner & d' & l' & -> & Hr & Hline & Hm & Hnil);
        [done|right; by rewrite last_snoc|by eapply scope_child_not_set|by (destruct Hscope as [-> _])|].
      simpl. assert (forall x, matches c x -> good c x) as Hgood.
      { intros x Hx. unfold good. by rewrite (scope_child_not_set _ _ Hscope). }
      destruct inner as [|i inner].
      * eexists _, [], cur. split_and!; [done|by rewrite app_nil_r|apply runs_nil| |].
        -- eapply advanced_same; [done|done|]. by apply Hgood, Hnil.
        -- split; [|done]. intros _. exists l. split; [done|]. by apply Hnil.
      * destruct Hscope as [Hlc Hk]. rewrite Hlc.
        eexists _, (key :: (i :: inner) ++ [closer key]), (with_children (put key l') cur).
        split_and!; [done|done| |by apply advanced_put; [|apply Hgood]|].
        -- rewrite Hlc in Hr. apply runs_scope; [done|]. by rewrite El.
        -- split; [done|]. intros (l0 & [= <-] & Hx). by apply Hnil in Hx.
  - assert (exists st' : progress,
      (if is_set (line c) then Ok (mark path Plus (line c) (emit [line c] st))
       else Ok (mark_all path Plus (flatten 1 c) (mark path Plus (line c) (emit (line c :: _forti_body c ++ [closer (line c)]) st))))
      = Ok st' (E := tree_error) /\ cmds st' = cmds st ++ child_lines c)
      as (st' & E & Ec).
    { unfold child_lines. destruct (is_set (line c)); eexists; (split; [done|by autorewrite with ngc]). }
    destruct (put_child_runs path key c cur) as (cur' & Hr & Hadv); [|by rewrite El|done|].
    { destruct Hkind as [?|(Hs & Hcan & _ & Hcomp)]; [by left|right]. split; [done|]. apply body_runs; [done| |done].
      by eapply scope_child_not_set. }
    exists st', (child_lines c), cur'. split_and!; [done|exact Ec|done|done|].
    split; [unfold child_lines; by destruct (is_set (line c))|by intros (? & ? & _)].
Qed.

(** The first loop: every child of the backup is there and matches. *)
Lemma diff_common_runs live path bs : forall st cur,
  NoDup (keys bs) ->
  (forall k c, (k, c) ∈ bs -> set_child k c \/ (scope_child k c /\ canonical c /\ restores c /\ complete (path ++ [k]) c)) ->
  (forall k l, get k live = Some l -> set_child k l \/ (scope_child k l /\ canonical l)) ->
  (forall k, k ∈ keys bs -> get k (children cur) = get k live) -> NoDup (keys (children cur)) ->
  exists st' here cur', diff_common live path bs st = Ok st' /\ cmds st' = cmds st ++ here /\ runs path here cur cur' /\
    line cur' = line cur /\ NoDup (keys (children cur')) /\
    (forall k, k ∉ keys bs -> get k (children cur') = get k (children cur)) /\
    (forall k c, (k, c) ∈ bs -> exists c', get k (children cur') = Some c' /\ good c c') /\
    edit_keys (children cur') = edit_keys (children cur) ++ List.filter (fun k => negb (has k live)) (edit_keys bs) /\
    (here = [] <-> forall k c, (k, c) ∈ bs -> exists l, get k live = Some l /\ good c l).
Proof.
  induction bs as [|[key c] bs IH]; intros st cur Hnd Hkind Hlive Hget Hndc; simpl.
  - exists st, [], cur. split_and!; [done|by rewrite app_nil_r|apply runs_nil|done|done|done|set_solver|by rewrite app_nil_r|set_solver].
  - inversion Hnd as [|? ? Hnot Hnd' E]; subst.
    destruct (common_child_runs live path key c st cur) as (st1 & here & cur1 & -> & Ec & Hr & Hadv & Hnil);
      [by apply Hkind; left|by apply Hlive|by apply Hget; left|done|].
    destruct Hadv as (Hl1 & Hn1 & Ho1 & Hg1 & He1). simpl.
    assert (forall k, k ∈ keys bs -> k <> key) as Hne by (intros k Hk ->; by apply Hnot).
    destruct (IH st1 cur1) as (st2 & there & cur2 & -> & Ec2 & Hr2 & Hl2 & Hn2 & Ho2 & Hg2 & He2 & Hnil2);
      [done|by intros k d Hd; apply Hkind; right|done| |done|].
    { intros k Hk. rewrite Ho1 by by apply Hne. apply Hget. by right. }
    exists st2, (here ++ there), cur2.
    split_and!; [done|by rewrite Ec2, Ec, app_assoc|by eapply runs_app|congruence|done| | | |].
    + intros k Hk. rewrite Ho2, Ho1; [done|set_solver|set_solver].
    + intros k d [[= -> ->]|Hin]%elem_of_cons; [|by apply Hg2]. rewrite Ho2 by done. done.
    + rewrite He2, He1, <- app_assoc. f_equal. unfold edit_keys at 2. cbn [keys map fst List.filter].
      assert (has key (children cur) = has key live) as -> by (unfold has; rewrite Hget by (simpl; set_solver); done).
      destruct (is_edit_key key); destruct (has key live) eqn:Eh; simpl; rewrite ?Eh; done.
    + split.
      * intros [H1 H2]%app_eq_nil k d [[= -> ->]|Hin]%elem_of_cons; [by apply Hnil|by apply Hnil2].
      * intros Hall. rewrite (proj2 Hnil) by (apply Hall; by left).
        rewrite (proj2 Hnil2); [done|]. intros k d Hd. apply Hall. by right.
Qed.

(** The second loop: what only the device has is gone, or bare. *)
Definition extra_kind (path : list pystr) (key : pystr) (l : node) : Prop :=
  set_child key l /\ get key (fresh path) = None
  \/ (scope_child key l /\ canonical l /\ (is_edit key = false -> hollow (path ++ [key]))).
Lemma extra_child_runs bs path key l st cur :
  (get key bs = None -> get key (children cur) = Some l /\ extra_kind path key l) ->
  NoDup (keys (children cur)) ->
  exists st' here cur', extra_child bs path key l st = Ok st' /\ cmds st' = cmds st ++ here /\ runs path here cur cur' /\
    (if has key bs then cur' = cur /\ here = [] else dropped key cur cur' /\ clear_child key l = Ok here).
Proof.
  intros Hkind Hndc. unfold extra_child. destruct (has key bs) eqn:Eh.
  { exists st, [], cur. split_and!; [done|by rewrite app_nil_r|apply runs_nil|done|done]. }
  destruct Hkind as [Hget Hk]; [by unfold has in Eh; destruct (get key bs)|].
  destruct (clear_child_runs path key l cur) as (here & cur1 & Ehere & Hr & Hd); [|done|done|].
  { destruct Hk as [?|(? & Hcan & Hh)]; [by left|right]. split; [done|]. intros He. apply clear_runs; auto. }
  assert (exists st', extra_child bs path key l st = Ok st' /\ cmds st' = cmds st ++ here) as (st' & E & Ec).
  { unfold extra_child. rewrite Eh. unfold clear_child in Ehere.
    destruct (is_set (line l)); [|destruct (is_edit (line l))].
    - destruct (argument key); cbn in *; [|done]. injection Ehere as <-. eexists. split; [done|by autorewrite with ngc].
    - destruct (argument (line l)); cbn in *; [|done]. injection Ehere as <-. eexists. split; [done|by autorewrite with ngc].
    - destruct (_forti_clear l) as [inner|]; cbn in *; [|done]. injection Ehere as <-.
      destruct inner; eexists; (split; [done|]); autorewrite with ngc; by rewrite ?app_nil_r. }
  unfold extra_child in E. rewrite Eh in E. exists st', here, cur1. split_and!; done.
Qed.

Lemma diff_extra_runs bs path ls : forall st cur,
  NoDup (keys ls) ->
  (forall k l, (k, l) ∈ ls -> get k bs = None -> get k (children cur) = Some l /\ extra_kind path k l) ->
  NoDup (keys (children cur)) ->
  exists st' here cur', diff_extra bs ls path st = Ok st' /\ cmds st' = cmds st ++ here /\ runs path here cur cur' /\
    line cur' = line cur /\ NoDup (keys (children cur')) /\
    (forall k, k ∉ keys ls \/ has k bs = true -> get k (children cur') = get k (children cur)) /\
    (forall k c, k ∈ keys ls -> has k bs = false -> get k (children cur') = Some c -> bare_child c) /\
    edit_keys (children cur') = List.filter (fun k => has k bs || negb (memb k (keys ls))) (edit_keys (children cur)) /\
    (here = [] <-> forall k l, (k, l) ∈ ls -> has k bs = false -> bare_child l).
Proof.
  induction ls as [|[key l] ls IH]; intros st cur Hnd Hkind Hndc; cbn [diff_extra].
  - exists st, [], cur. split_and!; [done|by rewrite app_nil_r|apply runs_nil|done|done|done|set_solver| |set_solver].
    symmetry. apply filter_all. intros k _. by rewrite orb_true_r.
  - inversion Hnd as [|? ? Hnot Hnd' E]; subst.
    destruct (extra_child_runs bs path key l st cur) as (st1 & here & cur1 & -> & Ec & Hr & Hd);
      [by apply Hkind; left|done|]. cbn [res_bind].
    assert (line cur1 = line cur /\ NoDup (keys (children cur1)) /\
      (forall k, k <> key \/ has k bs = true -> get k (children cur1) = get k (children cur)) /\
      (has key bs = false -> forall c, get key (children cur1) = Some c -> bare_child c) /\
      edit_keys (children cur1) = List.filter (fun k => has k bs || negb (bool_decide (k = key))) (edit_keys (children cur)) /\
      (here = [] <-> (has key bs = false -> bare_child l))) as (Hl1 & Hn1 & Ho1 & Hb1 & He1 & Hz1).
    { destruct (has key bs) eqn:Eh.
      - destruct Hd as [-> ->]. split_and!; try done. symmetry. apply filter_all. intros k _.
        case_bool_decide; [subst; by rewrite Eh|by rewrite orb_true_r].
      - destruct Hd as [(D1 & D2 & D3 & D4 & D5) Ehere]. split_and!; [done|done| |by intros _| |].
        + intros k [Hk|Hk]; apply D3; [done|]. congruence.
        + rewrite D5. apply List.filter_ext. intros k. case_bool_decide; simpl; [subst; by rewrite Eh|by rewrite orb_true_r].
        + rewrite <- (clear_child_nil key l). rewrite Ehere. naive_solver. }
    destruct (IH st1 cur1) as (st2 & there & cur2 & -> & Ec2 & Hr2 & Hl2 & Hn2 & Ho2 & Hb2 & He2 & Hz2); [done| |done|].
    { intros k d Hin Hg. destruct (Hkind k d) as [Hc Hk]; [by right|done|]. split; [|done]. rewrite Ho1; [done|].
      left. intros ->. apply Hnot. apply list_elem_of_fmap. by exists (key, d). }
    exists st2, (here ++ there), cur2.
    split_and!; [done|by rewrite Ec2, Ec, app_assoc|by eapply runs_app|congruence|done| | | |].
    + intros k Hk. rewrite Ho2, Ho1; [done|destruct Hk; [left; set_solver|by right]|destruct Hk; [left; set_solver|by right]].
    + intros k c Hk Hh Hc. destruct (decide (k ∈ keys ls)) as [Hkl|Hkl]; [by eapply Hb2|].
      rewrite Ho2 in Hc by (by left). apply elem_of_cons in Hk as [->|?]; [by apply Hb1|done].
    + rewrite He2, He1, filter_filter_bool. apply List.filter_ext. intros k. cbn [keys map fst memb existsb].
      change (existsb (fun x => bool_decide (x = k)) (map fst ls)) with (memb k (keys ls)).
      assert (bool_decide (key = k) = bool_decide (k = key)) as -> by (by apply bool_decide_ext).
      destruct (has k bs), (bool_decide (k = key)), (memb k (keys ls)); done.
    + split.
      * intros [H1 H2]%app_eq_nil k d [[= -> ->]|Hin]%elem_of_cons; [by apply Hz1|by apply Hz2].
      * intros Hall. rewrite (proj2 Hz1), (proj2 Hz2); [done| |by apply Hall; left].
        intros k d Hd'. apply Hall. by right.
Qed.

Lemma cmds_mark_moves path o ms st : cmds (foldl (fun st m => mark path o m st) st ms) = cmds st.
Proof. revert st. induction ms as [|m ms IH]; intros st; [done|]. simpl. by rewrite IH, cmds_mark. Qed.

(** The last block: an ordered table gets the backup's order. *)
Lemma diff_order_runs b l path st cur :
  canonical b -> canonical l ->
  (is_ordered_scope path = true -> forall x, edit_key x ∈ keys (children b) -> token x) ->
  NoDup (keys (children cur)) ->
  edit_keys (children cur) = List.filter (fun k => has k (children b)) (edit_keys (children l)) ++
                             List.filter (fun k => negb (has k (children l))) (edit_keys (children b)) ->
  exists st' here cur', diff_order (children b) (children l) path st = Ok st' /\ cmds st' = cmds st ++ here /\
    runs path here cur cur' /\ line cur' = line cur /\ NoDup (keys (children cur')) /\
    (forall k, get k (children cur') = get k (children cur)) /\
    (is_ordered_scope path = true -> edit_keys (children cur') = edit_keys (children b)) /\
    (here = [] <-> (is_ordered_scope path = true -> edit_keys (children cur) = edit_keys (children b))).
Proof.
  intros Hb Hl Htok Hnd Hcur. unfold diff_order. destruct (is_ordered_scope path) eqn:Eo.
  2: { exists st, [], cur. split_and!; [done|by rewrite app_nil_r|apply runs_nil|done..]. }
  destruct (current_names b l Hb Hl) as (desired & kept & -> & -> & Hk). cbn [res_bind].
  set (current := kept ++ _) in *. cbv zeta in Hk. destruct Hk as (Kd & Kc & Hndc & Hperm & Hf).
  rewrite <- Kc in Hcur. unfold _forti_moves. rewrite Hf, moves_from_pairs by (intros n Hn; by rewrite <- Hperm). cbn [res_bind].
  destruct (move_pairs_sort desired 0 [] current eq_refl Hndc Hperm) as [Hsort Hvalid]. simpl in Hsort, Hvalid.
  destruct (moves_run path (move_pairs 0 desired current) cur current Hnd Hcur Hvalid) as (cur' & Hr & Hl' & Hn' & Hg' & Hk').
  { apply list.Forall_forall. intros n Hn. rewrite <- Hperm in Hn. apply Htok; [done|].
    apply edit_keys_in. rewrite Kd. by apply list_elem_of_fmap_2. }
  eexists _, _, cur'. split_and!; [done|by rewrite cmds_mark_moves, cmds_emit|exact Hr|done|done|done| |].
  - intros _. by rewrite Hk', Hsort, Kd.
  - rewrite Hcur, Kd. split.
    + intros E%map_eq_nil _. rewrite E in Hsort. simpl in Hsort. by rewrite Hsort.
    + intros E. specialize (E eq_refl). assert (current = desired) as ->.
      { by apply map_edit_key_inj. }
      by rewrite (move_pairs_same desired [] : move_pairs 0 desired desired = []).
Qed.

Lemma keys_children_get n k : k ∈ keys (children n) -> exists c, get k (children n) = Some c.
Proof. intros Hk%get_in. destruct (get k (children n)) as [c|]; [by exists c|done]. Qed.

(** The commands of [_forti_diff] bring the device to the backup, and there are
    none exactly when it was there. *)
Lemma diff_restores b : canonical b -> movable b -> restores b.
Proof.
  induction b as [ln bs IH] using node_induction. intros Hb Hmov l path d Hl Hpath Hns Hcomp.
  pose proof Hb as Hb'. pose proof Hl as Hl'. apply canonical_iff in Hb' as [Hbnd Hbc]. apply canonical_iff in Hl' as [Hlnd Hlc].
  apply movable_iff in Hmov as [Htok Hmov]. cbn [children line] in *.
  rewrite forti_diff_eq. cbn [children]. set (st0 := {| cmds := []; section := None; out := d |}).
  destruct (diff_common_runs (children l) path bs st0 l Hbnd) as
    (st1 & h1 & cur1 & -> & E1 & R1 & L1 & N1 & O1 & G1 & K1 & Z1).
  { intros k c Hin. destruct (Hbc k c Hin) as [?|[? Hcan]]; [by left|right]. split_and!; [done|done| |].
    - by apply (IH k c Hin Hcan), (Hmov k c).
    - eapply complete_child; [exact Hcomp|]. by apply get_elem. }
  { intros k c Hg. by apply Hlc, get_elem_of. }
  { done. } { done. }
  cbn [res_bind].
  destruct (diff_extra_runs bs path (children l) st1 cur1 Hlnd) as
    (st2 & h2 & cur2 & -> & E2 & R2 & L2 & N2 & O2 & B2 & K2 & Z2).
  { intros k c Hin Hnone. rewrite O1; [|by apply get_none]. split; [by apply get_elem|].
    assert (has k bs = false) as Hno by (unfold has; by rewrite Hnone).
    destruct (Hlc k c Hin) as [Hs|[Hs Hcan]]; [left|right].
    - split; [done|]. by eapply (complete_setting path (Node ln bs)).
    - split_and!; [done|done|]. intros He. destruct Hs as [_ Hk]. by apply (complete_here path (Node ln bs) Hcomp Hns). }
  { done. }
  cbn [res_bind].
  pose proof (path_of_ordered (Node ln bs) path Hpath) as Hord. cbn [line] in Hord.
  destruct (diff_order_runs (Node ln bs) l path st2 cur2 Hb Hl) as (st3 & h3 & cur3 & E & E3 & R3 & L3 & N3 & G3 & K3 & Z3).
  { rewrite Hord. exact Htok. }
  { done. }
  { rewrite K2, K1, List.filter_app. f_equal.
    - apply List.filter_ext_in. intros k Hk%list_elem_of_In. cbn [children].
      assert (memb k (keys (children l)) = true) as -> by (apply memb_in; by apply elem_of_filter_bool in Hk as [? _]).
      by rewrite orb_false_r.
    - apply filter_all. intros k Hk%elem_of_filter_bool. destruct Hk as [Hk _].
      apply elem_of_filter_bool in Hk as [Hk _]. apply has_in in Hk. cbn [children] in Hk. by rewrite Hk. }
  cbn [children] in E. rewrite E. cbn [res_bind].
  eexists _, _, cur3. split; [done|]. rewrite E3, E2, E1. cbn [cmds st0 app].
  assert (matches (Node ln bs) cur3) as Hm.
  { apply matches_iff. cbn [children line]. split_and!.
    - intros k c Hin. rewrite G3, O2; [by apply G1|]. right. apply has_in. apply list_elem_of_fmap. by exists (k, c).
    - intros k c Hg Hnone. apply get_elem in Hg; [|done]. rewrite G3 in Hg.
      destruct (decide (k ∈ keys (children l))) as [Hk|Hk]; [by eapply B2|].
      rewrite O2 in Hg by (by left). rewrite O1 in Hg; [by apply get_some_in in Hg|].
      intros Hkb. apply has_in in Hkb. congruence.
    - rewrite <- Hord. exact K3. }
  split_and!; [|congruence|exact Hm|].
  - rewrite <- app_assoc. eapply runs_app; [exact R1|]. by eapply runs_app.
  - rewrite matches_iff. cbn [children line]. rewrite !app_nil. rewrite Z1, Z2, Z3, Hord.
    assert ((forall k c, (k, c) ∈ bs -> exists c', get k (children l) = Some c' /\ good c c') ->
            (forall k c, (k, c) ∈ children l -> has k bs = false -> bare_child c) ->
            edit_keys (children cur2) = edit_keys (children l)) as Hsame.
    { intros Hgood Hbare. rewrite K2, K1, List.filter_app.
      assert (List.filter (fun k => negb (has k (children l))) (edit_keys bs) = []) as ->.
      { apply filter_none. intros k [Hk _]%elem_of_filter_bool. apply list_elem_of_fmap in Hk as ([k' c] & -> & Hin).
        destruct (Hgood k' c Hin) as (c' & Hc' & _). simpl. unfold has. by rewrite Hc'. }
      cbn [List.filter]. rewrite app_nil_r. apply filter_all. intros k [Hk He]%elem_of_filter_bool.
      destruct (has k bs) eqn:Eh; [done|]. exfalso. destruct (keys_children_get l k Hk) as [c Hc].
      destruct (Hbare k c (get_elem_of _ _ _ Hc) Eh) as (_ & Hne & _).
      destruct (Hlc k c (get_elem_of _ _ _ Hc)) as [Hs|[Hs _]]; [by rewrite (set_key_not_edit _ _ Hs) in He|].
      destruct (scope_kind _ _ Hs) as [(H1 & _)|[_ H1]]; congruence. }
    split; [intros ((Hgood & Hbare) & Ho)|intros (Hgood & Hbare & Ho)];
      specialize (Hsame Hgood Hbare); rewrite Hsame in *; split_and!; done.
Qed.
End Device.

(** ** A device: its configuration and its open scopes *)
Module Toy.
Definition device : Type := node * list pystr.
Section Toy.
(** What new scopes show. *)
Context (defaults : list pystr -> list (pystr * node)).

(** The two names of a [move]. *)
Definition before_name (s : pystr) : option pystr :=
  if is_prefix (py " before ") s then Some (drop 8 s) else None.
Definition move_names (s : pystr) : option (pystr * pystr) :=
  match s with
  | c :: s' =>
      if bool_decide (c = quote_mark) then
        match partition1 quote_mark s' with
        | (a, Some rest) => (fun b => (quote_mark :: a ++ [quote_mark], b)) <$> before_name rest
        | (_, None) => None
        end
      else (fun b => (take_while not_space s, b)) <$> before_name (drop_while not_space s)
  | [] => None
  end.

Definition edit (f : list (pystr * node) -> list (pystr * node)) (d : device) : device :=
  (modify (snd d) (with_children f) (fst d), snd d).

Definition in_entry (p : list pystr) : bool := match list.last p with Some l => is_edit l | None => false end.

Definition run (d : device) (l : pystr) : device :=
  let v := verb l in
  if is_scope_verb v then (modify (snd d) (open_child (defaults (snd d ++ [l])) l) (fst d), snd d ++ [l])
  else if bool_decide (v = py "next") then (fst d, if in_entry (snd d) then removelast (snd d) else snd d)
  else if bool_decide (v = py "end") then
    (fst d, if in_entry (snd d) then removelast (removelast (snd d)) else removelast (snd d))
  else if bool_decide (v = py "set") then edit (put (_forti_key l) (Node l [])) d
  else
    match argument l with
    | Raise _ => d
    | Ok a =>
        if bool_decide (v = py "unset") then edit (reset (defaults (snd d)) (py "set " ++ a)) d
        else if bool_decide (v = py "delete") then edit (del (py "edit " ++ a)) d
        else if bool_decide (v = py "move") then
          match move_names a with
          | Some (x, y) => edit (move_before (py "edit " ++ x) (py "edit " ++ y)) d
          | None => d
          end
        else d
    end.

#[local] Instance cli : Cli device := {| exec := run; config := fst; scope := snd; fresh := defaults |}.

Lemma move_names_of a b : token a -> move_names (a ++ py " before " ++ b) = Some (a, b).
Proof.
  intros [[Hw Hq]|(s & -> & Hs)].
  - unfold is_word in Hw. destruct a as [|c a]; [done|]. apply andb_prop in Hw as [_ Hw].
    unfold move_names. cbn [app]. simpl in Hq. rewrite andb_true_r in Hq. apply bool_decide_eq_false in Hq.
    rewrite bool_decide_eq_false_2 by congruence.
    destruct (span_word (c :: a) (py " before " ++ b) Hw eq_refl) as [E1 E2]. cbn [app] in E1, E2. rewrite E1, E2.
    reflexivity.
  - unfold move_names. cbn [app]. rewrite bool_decide_eq_true_2 by done.
    rewrite <- app_assoc. cbn [app]. rewrite partition1_app by done. reflexivity.
Qed.

Lemma token_solid a s : token a -> solid (a ++ s) = true.
Proof. intros [[Hw _]|(t & -> & _)]; [by apply is_word_solid|reflexivity]. Qed.

Lemma scope_line_verb l : scope_line l -> is_scope_verb (verb l) = true.
Proof. intros (x & _ & [-> | ->]); unfold is_scope_verb; by rewrite ?config_verb, ?edit_verb. Qed.

Lemma run_verb d v a :
  is_word v = true -> solid a = true -> is_scope_verb v = false -> is_closer v = false -> v <> py "set" ->
  run d (v ++ " "%char :: a) =
    if bool_decide (v = py "unset") then edit (reset (defaults (snd d)) (py "set " ++ a)) d
    else if bool_decide (v = py "delete") then edit (del (py "edit " ++ a)) d
    else if bool_decide (v = py "move") then
      match move_names a with Some (x, y) => edit (move_before (py "edit " ++ x) (py "edit " ++ y)) d | None => d end
    else d.
Proof.
  intros Hv Ha H1 H2 H3. unfold run. rewrite verb_of, argument_of, H1 by done.
  unfold is_closer in H2. apply orb_false_elim in H2 as [He Hn]. by rewrite He, Hn, bool_decide_eq_false_2.
Qed.

Context (defaults_keys : forall p, NoDup (keys (defaults p)))
  (defaults_child : forall p k c, (k, c) ∈ defaults p ->
     set_child k c \/ (scope_child k c /\ is_edit k = false /\ children c = defaults (p ++ [k]))).

#[local] Instance forti_cli : FortiCli device.
Proof.
  constructor; [exact defaults_keys|exact defaults_child|..].
  - intros [t p] l n _ Hl. cbn [config scope exec cli fst snd]. unfold run. by rewrite scope_line_verb.
  - intros [t q] p k Hq Hk. cbn [config scope exec cli fst snd] in *. subst q.
    change (run (t, p ++ [k]) (py "next")) with (t, if in_entry (p ++ [k]) then removelast (p ++ [k]) else p ++ [k]).
    unfold in_entry. by rewrite last_snoc, Hk, removelast_last.
  - intros [t q] p k Hq Hk. cbn [config scope exec cli fst snd] in *. subst q.
    change (run (t, p ++ [k]) (py "end")) with
      (t, if in_entry (p ++ [k]) then removelast (removelast (p ++ [k])) else removelast (p ++ [k])).
    unfold in_entry. by rewrite last_snoc, Hk, removelast_last.
  - intros [t q] p k e Hq Hk. cbn [config scope exec cli fst snd] in *. subst q.
    replace (p ++ [k; e]) with ((p ++ [k]) ++ [e]) by by rewrite <- app_assoc.
    change (run (t, (p ++ [k]) ++ [e]) (py "end")) with
      (t, if in_entry ((p ++ [k]) ++ [e]) then removelast (removelast ((p ++ [k]) ++ [e])) else removelast ((p ++ [k]) ++ [e])).
    unfold in_entry. by rewrite last_snoc, Hk, !removelast_last.
  - intros [t p] n k c _ Hc. cbn [config scope exec cli fst snd]. unfold run.
    pose proof (set_line_spec k c Hc) as (-> & -> & _).
    destruct Hc as (? & ? & _ & _ & _ & _ & Hnil). destruct c as [cl cc]. simpl in Hnil. by subst cc.
  - intros [t p] n name _ Hn. cbn [config scope exec cli fresh].
    assert (solid name = true) as Hs by (rewrite <- (app_nil_r name); by apply is_word_solid).
    change (py "unset " ++ name) with (py "unset" ++ " "%char :: name). by rewrite (run_verb (t, p) (py "unset") name).
  - intros [t p] n name _ Hs. cbn [config scope exec cli].
    change (py "delete " ++ name) with (py "delete" ++ " "%char :: name). by rewrite (run_verb (t, p) (py "delete") name).
  - intros [t p] n a b _ Ha Hb _ _ _. cbn [config scope exec cli].
    change (py "move " ++ a ++ py " before " ++ b) with (py "move" ++ " "%char :: (a ++ py " before " ++ b)).
    rewrite (run_verb (t, p) (py "move") (a ++ py " before " ++ b)); [|done|by apply token_solid|done|done|done].
    by rewrite move_names_of.
Qed.
End Toy.
End Toy.

(** ** What the parser makes of a text *)

(** A line as FortiOS writes it: one space after the word, a name after [set]. *)
Definition tidy (l : pystr) : Prop :=
  (is_scope_verb (verb l) = true -> scope_line l) /\
  (verb l = py "set" -> exists name tail, is_word name = true /\ blank_or_end tail = true /\ l = py "set " ++ name ++ tail).

Lemma tidy_set_child l :
  tidy l -> verb l = py "set" -> set_child (_forti_key l) (Node l []) /\ exists name, argument (_forti_key l) = Ok name.
Proof.
  intros [_ Hs] Hv. destruct (Hs Hv) as (name & tail & Hn & Ht & El).
  assert (set_child (py "set " ++ name) (Node l [])) as Hc by (exists name, tail; split_and!; done).
  pose proof (set_line_spec _ _ Hc) as (_ & E & m & _ & _ & Ea). simpl in E. rewrite E. split; [done|by exists m].
Qed.

Lemma canonical_put k c n : canonical n -> set_child k c \/ (scope_child k c /\ canonical c) -> canonical (with_children (put k c) n).
Proof.
  intros [Hnd Hc]%canonical_iff Hk. apply canonical_iff. simpl. split; [by apply nodup_put|].
  intros j d Hin. apply get_elem in Hin; [|by apply nodup_put]. destruct (decide (j = k)) as [->|Hne].
  - rewrite get_put_eq in Hin. by injection Hin as <-.
  - rewrite get_put_ne in Hin by done. by apply Hc, get_elem_of.
Qed.

Lemma canonical_modify p f : forall n,
  Forall (fun k => scope_line k) p -> canonical n -> (forall m, canonical m -> canonical (f m) /\ line (f m) = line m) ->
  canonical (modify p f n) /\ line (modify p f n) = line n.
Proof.
  induction p as [|k p IH]; intros n Hp Hn Hf; simpl; [by apply Hf|].
  destruct (get k (children n)) as [c|] eqn:Eg; [|done]. split; [|done].
  apply list.Forall_cons in Hp as [Hk Hp]. destruct (canonical_get n k c Hn Eg) as [Hs|[[Hl Hsl] Hc]].
  - by apply set_key_not_scope in Hs.
  - destruct (IH c Hp Hc Hf) as [Hc' Hl']. apply canonical_put; [done|right]. split; [|done]. split; [congruence|done].
Qed.

Lemma parse_line_canonical l t p :
  tidy l -> canonical t -> Forall (fun k => scope_line k) p ->
  exists t' p', parse_line l (t, p) = Ok (t', p') /\ (canonical t' /\ line t' = line t) /\ Forall (fun k => scope_line k) p'.
Proof.
  intros Hl Ht Hp. unfold parse_line. destruct (is_scope_verb (verb l)) eqn:Ev.
  { destruct Hl as [Hs _]. specialize (Hs Ev). eexists _, _. split; [done|]. split.
    - apply canonical_modify; [done|done|]. intros m Hm. unfold child. destruct (get l (children m)); [done|].
      split; [|done]. apply canonical_put; [done|right]. split; [done|]. apply canonical_iff. split; [constructor|set_solver].
    - apply list.Forall_app. split; [done|]. by apply list.Forall_singleton. }
  destruct (is_closer (verb l)).
  { eexists _, _. split; [done|]. split; [done|].
    destruct p as [|k p] using rev_ind; [done|]. rewrite removelast_last. by apply list.Forall_app in Hp as [? _]. }
  case_bool_decide as Es; [|by exists t, p].
  destruct (tidy_set_child l Hl Es) as [Hc [name ->]]. cbn [res_bind]. destruct (memb name _); [by exists t, p|].
  eexists _, _. split; [done|]. split; [|done]. apply canonical_modify; [done|done|]. intros m Hm. split; [|done].
  apply canonical_put; [done|by left].
Qed.

Lemma parse_lines_canonical ls : forall t p,
  (forall l, l ∈ ls -> tidy l) -> canonical t -> Forall (fun k => scope_line k) p ->
  exists t' p', parse_lines ls (t, p) = Ok (t', p') /\ canonical t' /\ line t' = line t.
Proof.
  induction ls as [|l ls IH]; intros t p Hls Ht Hp; [by exists t, p|]. cbn [parse_lines].
  destruct (parse_line_canonical l t p) as (t1 & p1 & -> & [Ht1 El1] & Hp1); [apply Hls; by left|done|done|].
  cbn [res_bind]. rewrite <- El1. apply IH; [|done|done]. intros l' Hl'. apply Hls. by right.
Qed.

(** No setting that the restore itself toggles. *)
Fixpoint steady (n : node) : Prop :=
  (fix all (cs : list (pystr * node)) : Prop :=
     match cs with
     | [] => True
     | (k, c) :: cs => (steady c /\ forall name, is_set (line c) = true -> argument k = Ok name ->
                                      memb name _FORTI_VOLATILE_SET_KEYS = false) /\ all cs
     end) (children n).

Lemma steady_iff n :
  steady n <-> forall k c, (k, c) ∈ children n ->
    steady c /\ forall name, is_set (line c) = true -> argument k = Ok name -> memb name _FORTI_VOLATILE_SET_KEYS = false.
Proof.
  destruct n as [l cs]. cbn [steady children]. induction cs as [|[k c] cs IH]; [set_solver|].
  rewrite IH. setoid_rewrite elem_of_cons. split; [intros [H1 H2] k' c' [[= -> ->]|?]; [done|by eapply H2]|].
  intros H1. split; [apply (H1 k c); by left|]. intros k' c' Hin. apply (H1 k' c'). by right.
Qed.

(** Reading lines in the scope at [p] turns it from [l] into [l']. *)
Definition reads (p : list pystr) (ls : list pystr) (l l' : node) : Prop :=
  forall t, node_at p t = Some l -> parse_lines ls (t, p) = Ok (modify p (fun _ => l') t, p).

Lemma parse_lines_app l1 l2 st : parse_lines (l1 ++ l2) st = let! st := parse_lines l1 st in parse_lines l2 st.
Proof. revert st. induction l1 as [|l l1 IH]; intros st; [done|]. simpl. destruct (parse_line l st); [apply IH|done]. Qed.
Lemma reads_app p l1 l2 n n1 n2 : reads p l1 n n1 -> reads p l2 n1 n2 -> reads p (l1 ++ l2) n n2.
Proof.
  intros H1 H2 t Ht. rewrite parse_lines_app, (H1 t Ht). cbn [res_bind].
  rewrite (H2 _ (node_at_modify _ _ _ _ Ht)). by rewrite modify_modify.
Qed.
Lemma reads_set p k c l :
  set_child k c -> (forall name, argument k = Ok name -> memb name _FORTI_VOLATILE_SET_KEYS = false) ->
  reads p [line c] l (with_children (put k c) l).
Proof.
  intros Hc Hv t Ht. pose proof (set_line_spec k c Hc) as (E & Ek & name & _ & _ & Ea).
  assert (Node (line c) [] = c) as Ec by (destruct Hc as (? & ? & _ & _ & _ & _ & Hnil); destruct c; simpl in *; by subst).
  cbn [parse_lines]. unfold parse_line. rewrite E, Ek, Ea. cbn [res_bind].
  change (is_scope_verb (py "set")) with false. change (is_closer (py "set")) with false.
  rewrite bool_decide_eq_true_2 by done. rewrite (Hv name Ea), Ec. cbn [res_bind]. do 2 f_equal. by eapply modify_ext.
Qed.
Lemma reads_scope p k body l c' :
  scope_line k -> get k (children l) = None -> reads (p ++ [k]) body (Node k []) c' ->
  reads p (k :: body ++ [closer k]) l (with_children (put k c') l).
Proof.
  intros Hk Hnone Hb t Ht. cbn [parse_lines]. unfold parse_line at 1. rewrite Toy.scope_line_verb by done. cbn [res_bind].
  set (l1 := with_children (put k (Node k [])) l).
  assert (modify p (child k k) t = modify p (fun _ => l1) t) as ->.
  { eapply modify_ext; [exact Ht|]. unfold child. by rewrite Hnone. }
  assert (get k (children l1) = Some (Node k [])) as Hget by apply get_put_eq.
  pose proof (node_at_modify p (fun _ => l1) t l Ht) as Hl1.
  rewrite parse_lines_app, Hb by (by rewrite (node_at_snoc _ _ _ _ Hl1)). cbn [res_bind parse_lines].
  assert (forall st, parse_line (closer k) st = Ok (fst st, removelast (snd st))) as -> by (intros [? ?]; unfold closer; by destruct (is_edit k)).
  cbn [res_bind fst snd]. rewrite removelast_last, (modify_snoc _ _ _ _ _ _ Hl1 Hget), modify_modify.
  do 2 f_equal. eapply modify_ext; [exact Ht|]. unfold l1, with_children. simpl. by rewrite put_put.
Qed.
(** What [_forti_body] prints is read back as it was. *)
Lemma body_reads n : forall p, canonical n -> steady n -> reads p (_forti_body n) (Node (line n) []) n.
Proof.
  induction n as [l cs IH] using node_induction. intros p [Hnd Hc]%canonical_iff Hs. rewrite steady_iff in Hs.
  rewrite body_lines. cbn [children line] in *.
  enough (forall ls acc, acc ++ ls = cs -> reads p (flat_map (fun kc => child_lines (snd kc)) ls) (Node l acc) (Node l cs)) as Hall
    by by apply (Hall cs []).
  induction ls as [|[key c] ls IHls]; intros acc E; simpl.
  - rewrite app_nil_r in E. subst. intros t Ht. cbn [parse_lines]. by rewrite (modify_id _ _ _ Ht).
  - assert ((key, c) ∈ cs) as Hin by (rewrite <- E; set_solver).
    assert (get key acc = None) as Hget.
    { apply get_none. rewrite <- E in Hnd. unfold keys in Hnd. rewrite map_app in Hnd.
      apply list.NoDup_app in Hnd as (_ & Hd & _). intros Hk. by apply (Hd key Hk), elem_of_cons; left. }
    destruct (Hs key c Hin) as [Hsc Hv].
    assert (reads p (child_lines c) (Node l acc) (with_children (put key c) (Node l acc))) as Hone.
    { unfold child_lines. destruct (Hc key c Hin) as [Hset|[Hscope Hcan]].
      - rewrite (set_child_is_set _ _ Hset). apply reads_set; [done|]. intros name. apply Hv. by apply (set_child_is_set key).
      - rewrite (scope_child_not_set _ _ Hscope). pose proof (IH key c Hin (p ++ [key]) Hcan Hsc) as Hr.
        destruct Hscope as [El Hk]. rewrite El in *. by apply reads_scope. }
    eapply reads_app; [exact Hone|]. unfold with_children. simpl. rewrite put_snoc by done. apply IHls. by rewrite <- app_assoc.
Qed.

(** A file of lines. *)
Definition newline : ascii := chr 10.
Definition text_of (ls : list pystr) : pystr := flat_map (fun l => l ++ [newline]) ls.
Definition writable (l : pystr) : Prop :=
  forallb (fun c => negb (is_line_break c)) l = true /\ strip l = l /\ forti_dropped l = false.

Lemma splitlines_text_of ls :
  (forall l, l ∈ ls -> forallb (fun c => negb (is_line_break c)) l = true) -> splitlines (text_of ls) = ls.
Proof.
  induction ls as [|l ls IH]; intros Hls; [done|]. cbn [text_of flat_map].
  specialize (IH (fun l' Hl' => Hls l' (list_elem_of_further _ _ _ Hl'))). fold (text_of ls) in *.
  assert (forallb (fun c => negb (is_line_break c)) l = true) as Hl by (apply Hls; by left). clear Hls.
  induction l as [|c l IHl].
  - cbn [app]. cbn [splitlines]. assert (is_line_break newline = true) as -> by reflexivity.
    destruct (text_of ls) as [|d t] eqn:E; [by rewrite <- IH|].
    assert ((ord newline =? 13) = false) as -> by reflexivity. cbn [andb]. by rewrite IH.
  - simpl in Hl. apply andb_prop in Hl as [Hc Hl]. apply negb_true_iff in Hc. specialize (IHl Hl).
    cbn [app splitlines]. rewrite Hc. by rewrite IHl.
Qed.

Lemma forti_lines_text_of ls : (forall l, l ∈ ls -> writable l) -> _forti_lines (text_of ls) = ls.
Proof.
  intros Hls. unfold _forti_lines. rewrite splitlines_text_of by (intros l Hl; by apply Hls).
  assert (map strip ls = ls) as ->.
  { clear -Hls. induction ls as [|l ls IH]; [done|]. simpl. rewrite IH by (intros l' Hl'; apply Hls; by right).
    f_equal. apply Hls. by left. }
  apply filter_all. intros l Hl. apply negb_true_iff. by apply Hls.
Qed.

Lemma parse_fortios_canonical text :
  (forall l, l ∈ _forti_lines text -> tidy l) ->
  exists t, parse_fortios text = Ok t /\ canonical t /\ line t = [].
Proof.
  intros Ht. unfold parse_fortios.
  destruct (parse_lines_canonical (_forti_lines text) (Node [] []) []) as (t & p & -> & Hc & Hl); [done| |done|].
  { apply canonical_iff. split; [constructor|set_solver]. }
  by exists t.
Qed.

(** ** Properties *)


(** A device with defaults: a timeout among the global settings, and logging
    in every policy.  The policy table is in another order on the device, with
    one entry too many, settings changed and one the backup does not have. *)
Module Policies.
Definition backup : pystr := text_of [py "config system global"; py "set hostname gw"; py "set admintimeout 5"; py "end";
  py "config firewall policy"; py "edit 2"; py "set action accept"; py "set logtraffic utm"; py "next";
  py "edit 1"; py "set action deny"; py "set logtraffic utm"; py "next"; py "end"].
Definition live : pystr := text_of [py "config system global"; py "set hostname old"; py "set admintimeout 30";
  py "set timezone 4"; py "end";
  py "config firewall policy"; py "edit 1"; py "set action deny"; py "set logtraffic utm"; py "next";
  py "edit 7"; py "set action accept"; py "set logtraffic all"; py "next"; py "end"].
Definition commands : list pystr := [py "config system global"; py "set hostname gw"; py "set admintimeout 5"; py "unset timezone"; py "end";
  py "config firewall policy"; py "edit 2"; py "set action accept"; py "set logtraffic utm"; py "next"; py "delete 7";
  py "move 2 before 1"; py "end"].

Definition defaults (q : list pystr) : list (pystr * node) :=
  match q with
  | [c] => if bool_decide (c = py "config system global")
           then [(py "set admintimeout", Node (py "set admintimeout 5") [])] else []
  | [c; e] => if bool_decide (c = py "config firewall policy") && is_edit e
              then [(py "set logtraffic", Node (py "set logtraffic utm") [])] else []
  | _ => []
  end.
Lemma defaults_keys p : NoDup (keys (defaults p)).
Proof.
  destruct p as [|c [|e [|? ?]]]; simpl; try apply base.NoDup_nil_2.
  - destruct (bool_decide _); [apply list.NoDup_singleton|apply base.NoDup_nil_2].
  - destruct (_ && _); [apply list.NoDup_singleton|apply base.NoDup_nil_2].
Qed.
Lemma defaults_set p k c : (k, c) ∈ defaults p -> set_child k c.
Proof.
  destruct p as [|d [|e [|? ?]]]; simpl; try by intros ?%elem_of_nil.
  - destruct (bool_decide _); [|by intros ?%elem_of_nil]. intros [= -> ->]%list_elem_of_singleton.
    exists (py "admintimeout"), (py " 5"). split_and!; reflexivity.
  - destruct (_ && _); [|by intros ?%elem_of_nil]. intros [= -> ->]%list_elem_of_singleton.
    exists (py "logtraffic"), (py " utm"). split_and!; reflexivity.
Qed.
#[export] Instance cli : Cli Toy.device := Toy.cli defaults.
#[export] Instance forti : FortiCli Toy.device :=
  Toy.forti_cli defaults defaults_keys (fun p k c Hin => or_introl (defaults_set p k c Hin)).

(** Entries aside, only the global settings have defaults. *)
Lemma defaults_hollow r k : is_edit k = false -> r ++ [k] <> [py "config system global"] -> hollow (D := Toy.device) (r ++ [k]).
Proof.
  intros He Hne rest j c Hr Hin. exfalso. cbn [fresh cli Toy.cli] in Hin.
  assert (r ++ [k] ++ rest <> [py "config system global"]) as Hne'.
  { intros E. destruct rest as [|x rest]; [by rewrite app_nil_r in E|]. apply (f_equal length) in E.
    rewrite !length_app in E. simpl in E. lia. }
  assert (forall e, list.last (r ++ [k] ++ rest) = Some e -> is_edit e = false) as Hlast.
  { intros e. rewrite app_assoc, last_app. destruct (list.last rest) as [x|] eqn:Ex.
    - intros [= ->]. apply last_Some in Ex as [rest' ->]. apply list.Forall_app in Hr as [_ Hr]. by inversion Hr.
    - rewrite last_snoc. by intros [= ->]. }
  rewrite <- app_assoc in Hin. destruct (r ++ [k] ++ rest) as [|d [|e [|? ?]]]; simpl in Hin; try by apply elem_of_nil in Hin.
  - rewrite bool_decide_eq_false_2 in Hin by congruence. by apply elem_of_nil in Hin.
  - rewrite (Hlast e eq_refl), andb_false_r in Hin. by apply elem_of_nil in Hin.
Qed.

(** Checking a line, or a text, by evaluation. *)
Definition tidy_check (l : pystr) : bool :=
  if is_scope_verb (verb l) then
    (is_prefix (py "config ") l && solid (drop 7 l)) || (is_prefix (py "edit ") l && solid (drop 5 l))
  else if bool_decide (verb l = py "set") then
    is_prefix (py "set ") l && is_word (take_while not_space (drop 4 l))
  else true.

Lemma is_prefix_drop p s : is_prefix p s = true -> s = p ++ drop (length p) s.
Proof.
  revert s. induction p as [|c p IH]; intros [|d s]; simpl; try done. intros [->%bool_decide_eq_true Hs]%andb_prop.
  f_equal. by apply IH.
Qed.

Lemma tidy_check_ok l : tidy_check l = true -> tidy l.
Proof.
  unfold tidy_check, tidy. intros Hc. split.
  - intros Hv. rewrite Hv in Hc. apply orb_prop in Hc as [Hc|Hc]; apply andb_prop in Hc as [Hp Hs];
      apply is_prefix_drop in Hp; eexists; (split; [exact Hs|]); [by left|by right].
  - intros Hv. rewrite Hv in Hc. change (is_scope_verb (py "set")) with false in Hc. rewrite bool_decide_eq_true_2 in Hc by done.
    apply andb_prop in Hc as [Hp Hw]. apply is_prefix_drop in Hp. change (length (py "set ")) with 4%nat in Hp.
    exists (take_while not_space (drop 4 l)), (drop_while not_space (drop 4 l)). split_and!; [done| |by rewrite span_app].
    pose proof (drop_while_head not_space (drop 4 l)) as Hh. unfold blank_or_end.
    destruct (drop_while not_space (drop 4 l)) as [|c r]; [done|]. unfold not_space in Hh. by destruct (is_space c).
Qed.

Lemma tidy_lines ls : forallb tidy_check ls = true -> forall l, l ∈ ls -> tidy l.
Proof. intros Hf l Hl%list_elem_of_In. apply tidy_check_ok. rewrite forallb_forall in Hf. by apply Hf. Qed.
End Policies.
#[local] Existing Instance Policies.cli.
#[local] Existing Instance Policies.forti.

Lemma complete_backup b : parse_fortios Policies.backup = Ok b -> complete (D := Toy.device) [] b.
Proof.
  intros Eb. vm_compute in Eb. injection Eb as <-. intros r m Hr Hns. cbn [app]. split.
  - intros k c Hin Hs. destruct r as [|d [|e [|? ?]]]; cbn [fresh Policies.cli Toy.cli Policies.defaults] in Hin;
      try (apply elem_of_nil in Hin; destruct Hin).
    + case_bool_decide as Ed; [|apply elem_of_nil in Hin; destruct Hin]. subst d. vm_compute in Hr. injection Hr as <-.
      apply list_elem_of_singleton in Hin. injection Hin as -> ->. reflexivity.
    + case_bool_decide as Ed; [|apply elem_of_nil in Hin; destruct Hin]. destruct (is_edit e); [|apply elem_of_nil in Hin; destruct Hin].
      apply list_elem_of_singleton in Hin. injection Hin as -> ->. subst d.
      change (node_at [py "config firewall policy"; e] _) with
        (match get e [(py "edit 2", Node (py "edit 2") [(py "set action", Node (py "set action accept") []);
                         (py "set logtraffic", Node (py "set logtraffic utm") [])]);
                      (py "edit 1", Node (py "edit 1") [(py "set action", Node (py "set action deny") []);
                         (py "set logtraffic", Node (py "set logtraffic utm") [])])] with Some c => Some c | None => None end) in Hr.
      simpl get in Hr. repeat case_bool_decide; try discriminate Hr; injection Hr as <-; reflexivity.
  - intros k _ He Hno. apply Policies.defaults_hollow; [exact He|]. intros E.
    destruct r as [|x r]; [|apply (f_equal length) in E; rewrite length_app in E; simpl in E; lia].
    injection E as ->. vm_compute in Hr. injection Hr as <-. vm_compute in Hno. discriminate Hno.
Qed.


(** A backup that lacks a setting the device has a default for, because it
    was taken from other firmware, cannot be reached: [unset] leaves the
    default, and comparing again asks for the same [unset]. *)
Example missing_default_stays :
  let backup := text_of [py "config system global"; py "set hostname gw"; py "end"] in
  let live := text_of [py "config system global"; py "set hostname gw"; py "set admintimeout 30"; py "end"] in
  let unset := [py "config system global"; py "unset admintimeout"; py "end"] in
  match parse_fortios backup, parse_fortios live with
  | Ok b, Ok l =>
      let again s := match _forti_diff b (config s) [] (Diff [] []) with Ok (cs, _) => cs | Raise _ => [] end in
      let s1 := send (D := Toy.device) unset (l, []) in
      again (l, []) = unset /\ again s1 = unset /\ send (D := Toy.device) unset s1 = s1
  | _, _ => False
  end.
Proof. vm_compute. done. Qed.

(** C40: every text FortiOS prints is read without error into a tree in which each level has each key once, a setting has a name
    and no children, and a scope is opened by its own line. *)
Theorem parse_fortios_total text :
  (forall ln, ln ∈ _forti_lines text -> tidy ln) ->
  exists t, parse_fortios text = Ok t /\ canonical t.
Proof. intros Ht. destruct (parse_fortios_canonical text Ht) as (t & E & Hc & _). by exists t. Qed.

Lemma parse_fortios_total_witness : exists t, parse_fortios Policies.live = Ok t /\ canonical t.
Proof. apply parse_fortios_total. apply Policies.tidy_lines. vm_compute. reflexivity. Defined.

(** Writing a configuration and reading it back gives the same configuration: the text of the commands that rebuild a
    tree parses to that tree. *)
Theorem body_round_trip t :
  canonical t -> line t = [] -> steady t -> (forall ln, ln ∈ _forti_body t -> writable ln) ->
  parse_fortios (text_of (_forti_body t)) = Ok t.
Proof.
  intros Hc Hl Hst Hw. unfold parse_fortios. rewrite forti_lines_text_of by done.
  pose proof (body_reads t [] Hc Hst) as Hr. rewrite Hl in Hr. by rewrite (Hr (Node [] []) eq_refl).
Qed.

Lemma body_round_trip_witness :
  exists t, parse_fortios Policies.backup = Ok t /\ parse_fortios (text_of (_forti_body t)) = Ok t.
Proof.
  destruct (parse_fortios Policies.backup) as [t|] eqn:Et; [|vm_compute in Et; discriminate Et].
  exists t. split; [reflexivity|]. destruct (parse_fortios_canonical Policies.backup) as (t' & Et' & Hc & _).
  { apply Policies.tidy_lines. vm_compute. reflexivity. }
  rewrite Et in Et'. injection Et' as <-. vm_compute in Et. injection Et as <-.
  apply body_round_trip; [exact Hc|reflexivity| |].
  - cbn. repeat split; intros name Hs Ha; try discriminate Hs; vm_compute in Ha; injection Ha as <-; reflexivity.
  - intros ln Hln. vm_compute in Hln.
    repeat (apply elem_of_cons in Hln as [->|Hln]; [split_and!; vm_compute; reflexivity|]).
    by apply elem_of_nil in Hln.
Defined.

(** The operator sees every change: the preview of a difference shows a changed line exactly when there are commands to
    send, so an empty preview means that nothing will be sent and nothing is sent unseen. *)
Theorem preview_shows_changes backup_text live_text cs d :
  diff_fortios backup_text live_text = Ok (cs, d) -> is_empty d = true <-> cs = [].
Proof.
  unfold diff_fortios. destruct (parse_fortios backup_text) as [b|]; [|done]. cbn [res_bind].
  destruct (parse_fortios live_text) as [l|]; [|done]. cbn [res_bind].
  intros E. apply diff_previews in E as [_ E]. rewrite E. simpl. destruct cs; simpl; split; done.
Qed.

Lemma preview_shows_changes_witness :
  exists d, diff_fortios Policies.backup Policies.backup = Ok ([], d) /\ is_empty d = true.
Proof.
  destruct (diff_fortios Policies.backup Policies.backup) as [[cs d]|] eqn:E; [|vm_compute in E; discriminate E].
  pose proof (preview_shows_changes _ _ _ _ E) as Hp. vm_compute in E. injection E as <- <-.
  eexists. split; [reflexivity|]. apply Hp. reflexivity.
Defined.
