(* ===== verification/FileBundle.v ===== *)
(** * File bundles (src/app/modules/backup/restore/file_bundle.py)

    The backup of a Linux, Apache or MongoDB server is a text that holds its
    configuration files; [parse_bundle] reads it, [plan_bundle] compares two
    of them and decides what a restore writes and removes, and the rest builds
    the shell commands.  The dictionaries are association lists in insertion
    order; file contents are texts of code points 0-255. *)
From S2P Require Import Prelude PyStr Orders Base64 ParamSecurity ConfigTree CiscoTree Difflib.

(** ** The files of a family *)
Inductive value_error : Type := ValueError (message : pystr).

(** LINUX_BACKUP_PATHS, APACHE_BACKUP_PATHS, MONGODB_BACKUP_PATHS of
    src/app/modules/{linux,apache,mongodb}/hardening/ssh_executor.py *)
Definition LINUX_BACKUP_PATHS : list pystr := map py [
  "/etc/ssh/sshd_config"; "/etc/ssh/sshd_config.d/*.conf";
  "/etc/sysctl.conf"; "/etc/sysctl.d/*.conf";
  "/etc/login.defs";
  "/etc/security/pwquality.conf"; "/etc/security/pwquality.conf.d/*.conf";
  "/etc/security/faillock.conf"; "/etc/security/limits.conf"; "/etc/security/limits.d/*.conf";
  "/etc/pam.d/common-password"; "/etc/pam.d/common-auth"; "/etc/pam.d/common-account";
  "/etc/pam.d/password-auth"; "/etc/pam.d/system-auth"; "/etc/pam.d/su"; "/etc/pam.d/sshd";
  "/etc/audit/auditd.conf"; "/etc/audit/rules.d/*.rules";
  "/etc/issue"; "/etc/issue.net"; "/etc/motd";
  "/etc/modprobe.d/*.conf";
  "/etc/default/grub";
  "/etc/crontab"; "/etc/cron.allow"; "/etc/cron.deny"; "/etc/at.allow"; "/etc/at.deny";
  "/etc/profile"; "/etc/bashrc"; "/etc/bash.bashrc"; "/etc/profile.d/*.sh"]%string.
Definition APACHE_BACKUP_PATHS : list pystr := map py [
  "/etc/apache2/apache2.conf"; "/etc/apache2/ports.conf"; "/etc/apache2/envvars";
  "/etc/apache2/conf-enabled/*.conf"; "/etc/apache2/conf-available/*.conf";
  "/etc/apache2/sites-enabled/*.conf"; "/etc/apache2/mods-enabled/*.conf";
  "/etc/apache2/mods-enabled/*.load";
  "/etc/httpd/conf/httpd.conf"; "/etc/httpd/conf.d/*.conf";
  "/etc/httpd/conf.modules.d/*.conf"]%string.
Definition MONGODB_BACKUP_PATHS : list pystr := map py ["/etc/mongod.conf"; "/etc/mongodb.conf"]%string.

Definition family_paths (fam : pystr) : res value_error (list pystr) :=
  if bool_decide (fam = py "linux") then Ok LINUX_BACKUP_PATHS
  else if bool_decide (fam = py "apache") then Ok APACHE_BACKUP_PATHS
  else if bool_decide (fam = py "mongodb") then Ok MONGODB_BACKUP_PATHS
  else Raise (ValueError (py "Not a file-bundle family: " ++ fam)).

(** FAMILY_SERVICES, as pattern and command: what to run before and to make a
    service read its files again. *)
Definition sshd_files : pystr := py "/etc/ssh/sshd_config*".
Definition services_validate (fam : pystr) : list (pystr * pystr) :=
  if bool_decide (fam = py "linux") then [(sshd_files, py "sshd -t")]
  else if bool_decide (fam = py "apache") then [(py "*", py "apachectl -t 2>&1 || apache2ctl -t 2>&1 || httpd -t 2>&1")]
  else [].
Definition services_reload (fam : pystr) : list (pystr * pystr) :=
  if bool_decide (fam = py "linux") then [(sshd_files, py "systemctl reload sshd 2>/dev/null || systemctl reload ssh")]
  else if bool_decide (fam = py "apache") then [(py "*", py "systemctl reload apache2 2>/dev/null || systemctl reload httpd")]
  else if bool_decide (fam = py "mongodb") then [(py "*", py "systemctl restart mongod && sleep 3 && systemctl is-active mongod")]
  else [].

(** ** Which paths may be written *)
(** [fnmatch.fnmatchcase] for patterns without brackets. *)
Definition star : ascii := "*"%char.
Fixpoint fnmatchcase (pattern : pystr) : pystr -> bool :=
  match pattern with
  | [] => fun s => match s with [] => true | _ => false end
  | c :: p =>
      let rest := fnmatchcase p in
      if bool_decide (c = star) then
        fix any (s : pystr) : bool := rest s || match s with _ :: s => any s | [] => false end
      else fun s => match s with d :: s => (bool_decide (c = "?"%char) || bool_decide (c = d)) && rest s | [] => false end
  end.

(** [posixpath.normpath] *)
Definition slash : ascii := "/"%char.
Definition norm_step (absolute : bool) (stack : list pystr) (comp : pystr) : list pystr :=
  if bool_decide (comp = []) || bool_decide (comp = py ".") then stack
  else if negb (bool_decide (comp = py ".."))
       || match stack with [] => negb absolute | top :: _ => bool_decide (top = py "..") end then comp :: stack
  else tl stack.
Definition initial_slashes (path : pystr) : nat :=
  if is_prefix (py "//") path && negb (is_prefix (py "///") path) then 2 else if is_prefix (py "/") path then 1 else 0.
Definition normpath (path : pystr) : pystr :=
  match path with
  | [] => py "."
  | _ =>
      let n := initial_slashes path in
      let stack := foldl (norm_step (0 <? n)%nat) [] (split_on slash path) in
      let path := replicate n slash ++ join [slash] (rev stack) in
      match path with [] => py "." | _ => path end
  end.

(** [path_allowed] *)
Definition path_allowed (path fam : pystr) : res value_error bool :=
  if negb (is_prefix [slash] path) || negb (bool_decide (normpath path = path)) || has_char (chr 10) path then Ok false
  else let! patterns := family_paths fam in Ok (existsb (fun p => fnmatchcase p path) patterns).

(** ** Reading a bundle *)
Definition files : Type := list (pystr * pystr).
Fixpoint file_at (path : pystr) (fs : files) : option pystr :=
  match fs with [] => None | (p, c) :: fs => if bool_decide (p = path) then Some c else file_at path fs end.
Fixpoint set_file (path content : pystr) (fs : files) : files :=
  match fs with
  | [] => [(path, content)]
  | (p, c) :: fs => if bool_decide (p = path) then (p, content) :: fs else (p, c) :: set_file path content fs
  end.

Definition begin_mark : pystr := py "##### BEGIN FILE: ".
Definition mark_end : pystr := py " #####".
(** [_BEGIN.match(line)]: the path. *)
Definition begin_path (l : pystr) : option pystr :=
  if is_prefix begin_mark l then
    let rest := drop (length begin_mark) l in
    let path := take (length rest - length mark_end) rest in
    if bool_decide (drop (length rest - length mark_end) rest = mark_end) && bool_decide (path <> []) then Some path else None
  else None.
(** [_END.format(path)] *)
Definition end_line (path : pystr) : pystr := py "##### END FILE: " ++ path ++ mark_end.

(** The content of a body: its lines, less one final newline. *)
Definition drop_newline (s : pystr) : pystr :=
  match rev s with c :: r => if bool_decide (c = chr 10) then rev r else s | [] => [] end.
Definition content_of (body : list pystr) : pystr := drop_newline (join newline body).

(** The loop of [parse_bundle]; [cur] is the file whose body is being read. *)
Fixpoint parse_from (lines : list pystr) (cur : option (pystr * list pystr)) (fs : files) : files :=
  match lines, cur with
  | [], None => fs
  | [], Some (path, body) => set_file path (content_of body) fs
  | l :: lines, None =>
      match begin_path l with
      | Some path => parse_from lines (Some (path, [])) fs
      | None => parse_from lines None fs
      end
  | l :: lines, Some (path, body) =>
      if bool_decide (l = end_line path) then parse_from lines None (set_file path (content_of body) fs)
      else parse_from lines (Some (path, body ++ [l])) fs
  end.
Definition parse_bundle (text : pystr) : files := parse_from (split_on (chr 10) text) None [].

(** ** Comparing two bundles *)
(** [sorted(set(a) | set(b))] *)
Fixpoint insert_key (k : pystr) (l : list pystr) : list pystr :=
  match l with
  | [] => [k]
  | x :: l' => match str_cmp k x with Lt => k :: l | Eq => l | Gt => x :: insert_key k l' end
  end.
Definition sorted_keys (ks : list pystr) : list pystr := foldr insert_key [] ks.

(** The marks made from a unified diff with two lines of context; the lines
    that look like its header are left out. *)
Definition diff_mark (l : pystr) : list DiffLine :=
  if is_prefix (py "---") l || is_prefix (py "+++") l then []
  else if is_prefix (py "@@") l then [Line Context l]
  else match l with
       | c :: t => [Line (if bool_decide (c = "+"%char) then Plus else if bool_decide (c = "-"%char) then Minus else Context) t]
       | [] => []
       end.
Definition _unified (a b : list pystr) : list DiffLine := flat_map diff_mark (unified_diff 2 a b).

Record BundlePlan : Type := Bundle {
  write : files; remove : list pystr; rejected : list pystr; bundle_sections : list DiffSection }.

(** The body of the loop of [plan_bundle] for one allowed path. *)
Definition all_lines (o : op) (content : pystr) : list DiffLine := map (Line o) (split_on (chr 10) content).
Definition plan_path (path : pystr) (b l : option pystr) (p : BundlePlan) : BundlePlan :=
  match b, l with
  | None, None => p
  | None, Some l =>
      Bundle (write p) (remove p ++ [path]) (rejected p)
        (bundle_sections p ++ [Section_ [path; py "added after the backup, will be removed"] (all_lines Minus l)])
  | Some b, None =>
      Bundle (set_file path b (write p)) (remove p) (rejected p)
        (bundle_sections p ++ [Section_ [path; py "missing now, will be recreated"] (all_lines Plus b)])
  | Some b, Some l =>
      if bool_decide (b = l) then p
      else Bundle (set_file path b (write p)) (remove p) (rejected p)
             (bundle_sections p ++ [Section_ [path] (_unified (split_on (chr 10) l) (split_on (chr 10) b))])
  end.
Fixpoint plan_paths (fam : pystr) (backup live : files) (paths : list pystr) (p : BundlePlan) : res value_error BundlePlan :=
  match paths with
  | [] => Ok p
  | path :: paths =>
      let! ok := path_allowed path fam in
      plan_paths fam backup live paths
        (if ok : bool then plan_path path (file_at path backup) (file_at path live) p
         else Bundle (write p) (remove p) (rejected p ++ [path]) (bundle_sections p))
  end.
Definition plan_bundle (backup_text live_text fam : pystr) : res value_error BundlePlan :=
  let backup := parse_bundle backup_text in let live := parse_bundle live_text in
  plan_paths fam backup live (sorted_keys (map fst backup ++ map fst live)) (Bundle [] [] [] []).

(** The plan's [diff]: its sections, and the rejected paths as skipped. *)
Definition bundle_diff_of (fam : pystr) (p : BundlePlan) : ConfigDiff :=
  Diff (bundle_sections p) (map (fun path => ([path], py "outside the restorable paths for " ++ fam)) (rejected p)).

(** ** The shell commands *)
Definition _touched (p : BundlePlan) : list pystr := sorted_keys (map fst (write p) ++ remove p).
Definition _matches_pattern (paths : list pystr) (pattern : pystr) : bool := existsb (fnmatchcase pattern) paths.
Definition service_commands (services : list (pystr * pystr)) (p : BundlePlan) : list pystr :=
  map snd (List.filter (fun s => _matches_pattern (_touched p) (fst s)) services).
Definition validate_commands (p : BundlePlan) (fam : pystr) : list pystr := service_commands (services_validate fam) p.
Definition reload_commands (p : BundlePlan) (fam : pystr) : list pystr := service_commands (services_reload fam) p.

Definition dquote : pystr := [chr 34].
Definition q : pystr -> pystr := quote_shell.
(** The shell's [$f] between double quotes. *)
Definition var_f : pystr := dquote ++ py "$f" ++ dquote.
Definition absent_file (workdir : pystr) : pystr := workdir ++ py "/absent".
Definition snapshot_tar (workdir : pystr) : pystr := workdir ++ py "/snapshot.tar".
Definition revert_sh (workdir : pystr) : pystr := workdir ++ py "/revert.sh".
Definition snapshot_command (p : BundlePlan) (workdir : pystr) : pystr :=
  let paths := join (py " ") (map q (_touched p)) in
  py "mkdir -p " ++ q workdir ++ py " && chmod 700 " ++ q workdir ++ py " && : > " ++ q (absent_file workdir) ++ py " && "
  ++ py "for f in " ++ paths ++ py "; do if [ -e " ++ var_f ++ py " ]; then tar -cpf - " ++ var_f ++ py " 2>/dev/null; "
  ++ py "else echo " ++ var_f ++ py " >> " ++ q (absent_file workdir) ++ py "; fi; done > " ++ q (snapshot_tar workdir).
Definition revert_script (p : BundlePlan) (fam workdir : pystr) : pystr :=
  let reload := match join (py " ; ") (reload_commands p fam) with [] => py "true" | r => r end in
  py "cd / && tar -xpif " ++ q (snapshot_tar workdir) ++ py " 2>/dev/null; "
  ++ py "while read -r f; do [ -n " ++ var_f ++ py " ] && rm -f " ++ var_f ++ py "; done < " ++ q (absent_file workdir) ++ py "; " ++ reload.

(** [str.encode()] of a character up to code point 255, and
    [base64.b64encode]. *)
Definition utf8 (c : ascii) : list byte :=
  if ord c <? 128 then [ord c] else [Z.lor 192 (Z.shiftr (ord c) 6); Z.lor 128 (Z.land (ord c) 63)].
Definition encode (s : pystr) : list byte := flat_map utf8 s.
Definition std64 (c : ascii) : ascii :=
  if bool_decide (c = "-"%char) then "+"%char else if bool_decide (c = "_"%char) then "/"%char else c.
Definition b64 (content : pystr) : pystr := map std64 (b64encode (encode content)) ++ padding (length (encode content)).
Definition write_command (path content : pystr) : pystr :=
  let tmp := path ++ py ".ngcorion-restore" in
  py "printf %s " ++ q (b64 content) ++ py " | base64 -d > " ++ q tmp ++ py " && "
  ++ py "if [ -e " ++ q path ++ py " ]; then cat " ++ q tmp ++ py " > " ++ q path ++ py " && rm -f " ++ q tmp ++ py "; "
  ++ py "else mv " ++ q tmp ++ py " " ++ q path ++ py " && chmod 644 " ++ q path ++ py "; fi".
Definition remove_command (path : pystr) : pystr := py "rm -f " ++ q path.
Definition arm_timer_command (workdir : pystr) (minutes : Z) (revert : pystr) : pystr :=
  let body := py "sleep " ++ str_of_int (minutes * 60) ++ py "; " ++ revert in
  py "printf %s " ++ q body ++ py " > " ++ q (revert_sh workdir) ++ py " && "
  ++ py "nohup sh " ++ q (revert_sh workdir) ++ py " >/dev/null 2>&1 & echo $!".
(** [int(pid)] raises a ValueError on digits that are not decimal; those are
    the superscripts of [str.isdigit]. *)
Definition disarm_command (pid : option pystr) (workdir : pystr) : res value_error pystr :=
  let rest := py "rm -rf " ++ q workdir in
  match pid with
  | Some ((_ :: _) as s) =>
      if forallb py_isdigit s then
        match py_int s with
        | Some n => Ok (py "kill " ++ str_of_int n ++ py " 2>/dev/null; pkill -P " ++ str_of_int n ++ py " 2>/dev/null; " ++ rest)
        | None => Raise (ValueError (py "invalid literal for int() with base 10: '" ++ s ++ py "'"))
        end
      else Ok rest
  | _ => Ok rest
  end.

(** ** The normal form of a bundle *)
(** [json.dumps] of a text: escaped, in ASCII only. *)
Definition hex_digit (n : Z) : ascii := if n <? 10 then chr (48 + n) else chr (87 + n).
Definition json_char (c : ascii) : pystr :=
  let o := ord c in
  if o =? 34 then [chr 92; chr 34] else if o =? 92 then [chr 92; chr 92]
  else if o =? 10 then py "\n" else if o =? 13 then py "\r" else if o =? 9 then py "\t"
  else if o =? 12 then py "\f" else if o =? 8 then py "\b"
  else if (32 <=? o) && (o <=? 126) then [c]
  else py "\u00" ++ [hex_digit (Z.shiftr o 4); hex_digit (Z.land o 15)].
Definition json_string (s : pystr) : pystr := chr 34 :: flat_map json_char s ++ [chr 34].
(** [json.dumps(files, sort_keys=True)] *)
Definition dumps_files (fs : files) : pystr :=
  py "{" ++ join (py ", ") (map (fun path => json_string path ++ py ": " ++ json_string (default [] (file_at path fs)))
                                (sorted_keys (map fst fs))) ++ py "}".

(** ** How a bundle is made *)
(** What the command of [build_file_bundle_command]
    (src/app/modules/shared/hardening_backup.py) prints for one file and for
    all: [echo], [cat], [echo], [echo], [echo]. *)
Definition emit_file (f : pystr * pystr) : pystr :=
  begin_mark ++ fst f ++ mark_end ++ newline ++ snd f ++ newline ++ end_line (fst f) ++ newline ++ newline.
Definition emit_files (fs : files) : pystr := flat_map emit_file fs.
Definition build_file_bundle_command (paths : list pystr) : pystr :=
  py "for f in " ++ join (py " ") paths ++ py "; do " ++ py "if [ -f " ++ var_f ++ py " ]; then "
  ++ py "echo " ++ dquote ++ begin_mark ++ py "$f" ++ mark_end ++ dquote ++ py "; " ++ py "cat " ++ var_f ++ py " 2>/dev/null; "
  ++ py "echo " ++ dquote ++ dquote ++ py "; echo " ++ dquote ++ end_line (py "$f") ++ dquote ++ py "; echo " ++ dquote ++ dquote ++ py "; "
  ++ py "fi; " ++ py "done".

(** ** Dictionaries and key lists *)
Lemma file_at_set path c fs p : file_at p (set_file path c fs) = if bool_decide (path = p) then Some c else file_at p fs.
Proof.
  induction fs as [|[q0 d] fs IH]; cbn; [done|]. destruct (bool_decide (q0 = path)) eqn:E; cbn.
  - apply bool_decide_eq_true in E as ->. by destruct (bool_decide (path = p)).
  - rewrite IH. destruct (bool_decide (q0 = p)) eqn:E'; [|done]. apply bool_decide_eq_true in E' as ->.
    destruct (bool_decide (path = p)) eqn:E''; [|done]. apply bool_decide_eq_true in E'' as ->. by rewrite bool_decide_eq_true_2 in E.
Qed.

Lemma file_at_elem path c fs : file_at path fs = Some c -> path ∈ map fst fs.
Proof.
  induction fs as [|[p d] fs IH]; cbn; [done|]. destruct (bool_decide (p = path)) eqn:E.
  - apply bool_decide_eq_true in E as ->. left.
  - intros ?%IH. by right.
Qed.

Lemma insert_key_elem k l x : x ∈ insert_key k l <-> x = k \/ x ∈ l.
Proof.
  induction l as [|y l IH]; cbn; [by rewrite list_elem_of_singleton, elem_of_nil; intuition|].
  destruct (str_cmp k y) eqn:E; [apply str_cmp_eq in E as ->| |]; rewrite ?elem_of_cons, ?IH; intuition.
Qed.
Lemma sorted_keys_elem ks x : x ∈ sorted_keys ks <-> x ∈ ks.
Proof.
  induction ks as [|k ks IH]; cbn; [done|]. by rewrite insert_key_elem, IH, elem_of_cons.
Qed.

(** ** What a plan does *)
(** The files after the plan: what [FileBundleDriver.plan] assesses and what
    [apply] leaves. *)
Definition remove_file (path : pystr) (fs : files) : files := List.filter (fun f => negb (bool_decide (fst f = path))) fs.
Definition files_after (p : BundlePlan) (live : files) : files :=
  foldl (fun fs path => remove_file path fs) (foldl (fun fs f => set_file (fst f) (snd f) fs) live (write p)) (remove p).

Lemma file_at_remove path fs p : file_at p (remove_file path fs) = if bool_decide (path = p) then None else file_at p fs.
Proof.
  unfold remove_file. induction fs as [|[q0 d] fs IH]; cbn; [by destruct (bool_decide _)|]. destruct (bool_decide (q0 = path)) eqn:E; cbn.
  - apply bool_decide_eq_true in E as ->. rewrite IH. by destruct (bool_decide (path = p)).
  - rewrite IH. destruct (bool_decide (q0 = p)) eqn:E'; [|done]. apply bool_decide_eq_true in E' as ->.
    destruct (bool_decide (path = p)) eqn:E''; [|done]. apply bool_decide_eq_true in E'' as ->. by rewrite bool_decide_eq_true_2 in E.
Qed.

Lemma removed_at paths fs p : file_at p (foldl (fun fs path => remove_file path fs) fs paths) = if bool_decide (p ∈ paths) then None else file_at p fs.
Proof.
  revert fs. induction paths as [|path paths IH]; intros fs; cbn [foldl]; [by rewrite bool_decide_eq_false_2 by apply not_elem_of_nil|].
  rewrite IH. cbv beta. rewrite file_at_remove. destruct (decide (p ∈ paths)).
  - by rewrite !bool_decide_eq_true_2 by (rewrite ?elem_of_cons; auto).
  - rewrite (bool_decide_eq_false_2 (p ∈ paths)) by done. destruct (decide (path = p)) as [->|Hne].
    + by rewrite !bool_decide_eq_true_2 by (rewrite ?elem_of_cons; auto).
    + by rewrite !bool_decide_eq_false_2 by (rewrite ?elem_of_cons; intuition).
Qed.

Lemma written_at ws fs p :
  NoDup (map fst ws) ->
  file_at p (foldl (fun fs f => set_file (fst f) (snd f) fs) fs ws)
  = match file_at p ws with Some c => Some c | None => file_at p fs end.
Proof.
  revert fs. induction ws as [|[path c] ws IH]; intros fs Hnd; cbn [foldl file_at]; [done|].
  cbn in Hnd. apply list.NoDup_cons in Hnd as [Hn Hnd]. rewrite IH by done. cbn [fst snd]. rewrite file_at_set.
  destruct (bool_decide (path = p)) eqn:E; [|done]. apply bool_decide_eq_true in E as ->.
  destruct (file_at p ws) eqn:Ep; [|done]. by apply file_at_elem in Ep.
Qed.

Lemma set_file_nodup path c fs : NoDup (map fst fs) -> NoDup (map fst (set_file path c fs)).
Proof.
  assert (Hk : forall fs x, x ∈ map fst (set_file path c fs) -> x = path \/ x ∈ map fst fs).
  { clear fs. induction fs as [|[q0 d] fs IH]; cbn; intros x; [rewrite list_elem_of_singleton; auto|].
    destruct (bool_decide (q0 = path)); cbn; rewrite !elem_of_cons; [intuition|]. intros [->|Hx]; [auto|].
    destruct (IH x Hx); auto. }
  induction fs as [|[q0 d] fs IH]; cbn; intros Hnd; [repeat constructor; apply not_elem_of_nil|].
  destruct (bool_decide (q0 = path)) eqn:E; cbn; [done|]. apply list.NoDup_cons in Hnd as [Hn Hnd].
  apply list.NoDup_cons. split; [|by apply IH]. intros Hin. apply Hk in Hin as [->|Hin]; [|done]. by rewrite bool_decide_eq_true_2 in E.
Qed.

(** What a plan holds for one path. *)
Definition is_true (r : res value_error bool) : bool := match r with Ok true => true | _ => false end.
Definition allowed (path fam : pystr) : bool := is_true (path_allowed path fam).
Definition planned_write (fam : pystr) (backup live : files) (path : pystr) : option pystr :=
  if allowed path fam then
    match file_at path backup with
    | Some b => if bool_decide (Some b = file_at path live) then None else Some b
    | None => None
    end
  else None.
Definition planned_remove (fam : pystr) (backup live : files) (path : pystr) : bool :=
  allowed path fam && bool_decide (file_at path backup = None) && negb (bool_decide (file_at path live = None)).

Lemma plan_path_spec path b l p x :
  file_at x (write (plan_path path b l p)) =
    (match b with
     | Some c => if bool_decide (Some c = l) then file_at x (write p)
                 else if bool_decide (path = x) then Some c else file_at x (write p)
     | None => file_at x (write p)
     end)
  /\ (x ∈ remove (plan_path path b l p) <-> x ∈ remove p \/ (x = path /\ b = None /\ l <> None))
  /\ (NoDup (map fst (write p)) -> NoDup (map fst (write (plan_path path b l p)))).
Proof.
  destruct b as [b|], l as [l|]; cbn [plan_path].
  - destruct (bool_decide (b = l)) eqn:E.
    + apply bool_decide_eq_true in E as ->. rewrite bool_decide_eq_true_2 by done. split_and!; [done|intuition discriminate|done].
    + rewrite bool_decide_eq_false_2 by (intros [= ->]; by rewrite bool_decide_eq_true_2 in E). cbn.
      split_and!; [apply file_at_set|intuition discriminate|apply set_file_nodup].
  - rewrite bool_decide_eq_false_2 by done. cbn. split_and!; [apply file_at_set|intuition discriminate|apply set_file_nodup].
  - cbn. split_and!; [done| |done]. rewrite elem_of_app, list_elem_of_singleton. intuition (auto; discriminate).
  - split_and!; [done|intuition|done].
Qed.

Lemma plan_paths_spec fam backup live paths : forall p p',
  plan_paths fam backup live paths p = Ok p' ->
  (NoDup (map fst (write p)) -> NoDup (map fst (write p')))
  /\ forall x,
     file_at x (write p') = (match (if bool_decide (x ∈ paths) then planned_write fam backup live x else None) with
                             | Some c => Some c | None => file_at x (write p) end)
     /\ (x ∈ remove p' <-> x ∈ remove p \/ (x ∈ paths /\ planned_remove fam backup live x = true)).
Proof.
  induction paths as [|path paths IH]; intros p p'; cbn [plan_paths].
  - intros [= <-]. split; [done|]. intros x. rewrite bool_decide_eq_false_2 by apply not_elem_of_nil. split; [done|].
    rewrite elem_of_nil. intuition.
  - destruct (path_allowed path fam) as [ok|e] eqn:Ea; [|done]. cbn [res_bind].
    assert (Hal : allowed path fam = ok) by (unfold allowed; rewrite Ea; by destruct ok).
    set (p1 := if ok then _ else _). intros Hp. destruct (IH _ _ Hp) as [Hnd Hx]. clear IH.
    assert (H1 : (NoDup (map fst (write p)) -> NoDup (map fst (write p1)))
      /\ forall x, file_at x (write p1) = (if bool_decide (path = x) then match planned_write fam backup live path with
                                            | Some c => Some c | None => file_at x (write p) end else file_at x (write p))
         /\ (x ∈ remove p1 <-> x ∈ remove p \/ (x = path /\ planned_remove fam backup live path = true))).
    { unfold p1, planned_write, planned_remove. rewrite Hal. destruct ok; cbn [andb].
      - split; [apply (plan_path_spec path _ _ p [])|]. intros x.
        destruct (plan_path_spec path (file_at path backup) (file_at path live) p x) as (E1 & E2 & _). rewrite E1, E2. split.
        + destruct (file_at path backup) as [c|]; [|by destruct (bool_decide _)].
          destruct (bool_decide (Some c = file_at path live)); [by destruct (bool_decide (path = x))|done].
        + apply or_iff_compat_l, and_iff_compat_l. rewrite andb_true_iff, negb_true_iff, bool_decide_eq_true, bool_decide_eq_false. done.
      - split; [done|]. intros x. cbn. split; [by destruct (bool_decide _)|]. intuition discriminate. }
    destruct H1 as [Hnd1 H1]. split; [auto|]. intros x. destruct (Hx x) as [E1 E2], (H1 x) as [F1 F2]. rewrite E1, E2, F1, F2. split.
    + destruct (decide (path = x)) as [->|Hne].
      * rewrite (bool_decide_eq_true_2 (x ∈ x :: paths)) by (by left). rewrite (bool_decide_eq_true_2 (x = x)) by done.
        destruct (bool_decide (x ∈ paths)); by destruct (planned_write fam backup live x).
      * rewrite (bool_decide_eq_false_2 (path = x)) by done. assert (x ∈ path :: paths <-> x ∈ paths) as Hi by (rewrite elem_of_cons; split; [by intros [->|?]|auto]).
        by rewrite (bool_decide_ext _ _ Hi).
    + rewrite elem_of_cons. split; [intros [[?|[-> ?]]|[? ?]]; auto|]. intros [?|[[->|?] ?]]; auto.
Qed.

(** C30: Carrying out a plan puts back exactly the backup where a restore may
    write and changes nothing elsewhere: after its writes and removals every
    path of the family's allowlist has the content the backup has for it, or
    is gone when the backup has none, and every other path is as it was,
    whatever a tampered backup contains. *)
Theorem plan_restores_backup backup_text live_text fam p :
  plan_bundle backup_text live_text fam = Ok p ->
  forall path,
  file_at path (files_after p (parse_bundle live_text))
  = if allowed path fam then file_at path (parse_bundle backup_text) else file_at path (parse_bundle live_text).
Proof.
  intros Hp path. unfold plan_bundle in Hp. set (backup := parse_bundle backup_text) in *. set (live := parse_bundle live_text) in *.
  apply plan_paths_spec in Hp as [Hnd Hx]. specialize (Hnd (NoDup_nil_2)). destruct (Hx path) as [Ew Er]. clear Hx.
  unfold files_after. rewrite removed_at, written_at by done. rewrite Ew. cbn [write remove] in *.
  assert (Hkeys : path ∈ sorted_keys (map fst backup ++ map fst live) \/ (file_at path backup = None /\ file_at path live = None)).
  { rewrite sorted_keys_elem, elem_of_app. destruct (file_at path backup) eqn:E1; [left; left; by eapply file_at_elem|].
    destruct (file_at path live) eqn:E2; [left; right; by eapply file_at_elem|]. by right. }
  assert (Hr : bool_decide (path ∈ remove p) = planned_remove fam backup live path).
  { destruct (planned_remove fam backup live path) eqn:E.
    - apply bool_decide_eq_true_2, Er. right. split; [|done]. destruct Hkeys as [?|[_ H2]]; [done|].
      unfold planned_remove in E. rewrite H2, (bool_decide_eq_true_2 (None = None)) in E by done. by rewrite andb_false_r in E.
    - apply bool_decide_eq_false_2. intros [Hin|[_ ?]]%Er; [by apply elem_of_nil in Hin|congruence]. }
  rewrite Hr. unfold planned_remove, planned_write.
  assert (Hk : bool_decide (path ∈ sorted_keys (map fst backup ++ map fst live)) = true \/ (file_at path backup = None /\ file_at path live = None))
    by (destruct Hkeys; [left; by apply bool_decide_eq_true_2|by right]).
  destruct (allowed path fam); cbn [andb]; [|by destruct (bool_decide (path ∈ _))].
  destruct Hk as [-> |[-> ->]]; [|by destruct (bool_decide (path ∈ _))].
  destruct (file_at path backup) as [b|] eqn:Eb; destruct (file_at path live) as [l|] eqn:El; cbn; try done.
  destruct (bool_decide (Some b = Some l)) eqn:E; [|done]. by apply bool_decide_eq_true in E.
Qed.

(** ** The allowlist *)
Definition plain_glob (c : ascii) : bool := negb (bool_decide (c = star)) && negb (bool_decide (c = "?"%char)).
Lemma fnmatch_prefix lit p s : forallb plain_glob lit = true -> fnmatchcase (lit ++ p) s = true -> is_prefix lit s = true.
Proof.
  revert s. induction lit as [|c lit IH]; intros s; [done|]. cbn [forallb app fnmatchcase]. intros [Hc Hl]%andb_prop.
  unfold plain_glob in Hc. apply andb_prop in Hc as [H1%negb_true_iff H2%negb_true_iff]. rewrite H1.
  destruct s as [|d s]; [done|]. rewrite H2. cbn. intros [Hd Hm]%andb_prop. rewrite Hd. by apply IH.
Qed.

Lemma family_paths_etc fam patterns :
  family_paths fam = Ok patterns -> forallb (is_prefix (py "/etc/")) patterns = true.
Proof.
  unfold family_paths. repeat case_match; intros [= <-]; vm_compute; reflexivity.
Qed.

Lemma is_prefix_split p s : is_prefix p s = true -> exists t, s = p ++ t.
Proof.
  revert s. induction p as [|c p IH]; intros s; [by exists s|]. destruct s as [|d s]; [done|]. cbn.
  intros [->%bool_decide_eq_true (t & ->)%IH]%andb_prop. by exists t.
Qed.

(** The stack of [normpath] for an absolute path holds plain names. *)
Definition plain_name (s : pystr) : Prop := s <> [] /\ s <> py "." /\ s <> py ".." /\ has_char slash s = false.
Lemma norm_steps comps stack :
  Forall plain_name stack -> Forall (fun c => has_char slash c = false) comps -> Forall plain_name (foldl (norm_step true) stack comps).
Proof.
  intros Hs Hc. revert stack Hs. induction Hc as [|c comps Hc _ IH]; intros stack Hs; [done|]. cbn [foldl]. apply IH.
  unfold norm_step. destruct (bool_decide (c = [])) eqn:E1; [done|]. destruct (bool_decide (c = py ".")) eqn:E2; [done|]. cbn [orb].
  apply bool_decide_eq_false in E1, E2. destruct (bool_decide (c = py "..")) eqn:E3; cbn [negb orb].
  - destruct stack as [|top stack]; [by cbn|]. inversion Hs as [|? ? (_ & _ & Ht & _) Hs']; subst.
    rewrite bool_decide_eq_false_2 by done. done.
  - apply bool_decide_eq_false in E3. by constructor.
Qed.

Lemma split_on_pieces c s : Forall (fun w => has_char c w = false) (split_on c s).
Proof.
  induction s as [|d s IH]; cbn; [by repeat constructor|]. destruct (bool_decide (d = c)) eqn:E; [by constructor|].
  destruct (split_on c s) as [|w ws]; [by repeat constructor; cbn; rewrite E|].
  inversion IH as [|? ? Hw Hws]; subst. constructor; [|done]. unfold has_char in *. cbn. by rewrite E.
Qed.

Lemma split_on_join c ls : ls <> [] -> Forall (fun w => has_char c w = false) ls -> split_on c (join [c] ls) = ls.
Proof.
  intros Hne Hl. induction Hl as [|w ls Hw Hls IH]; [done|]. destruct ls as [|w' ls]; [by apply split_on_none|].
  change (join [c] (w :: w' :: ls)) with (w ++ c :: join [c] (w' :: ls)). rewrite split_on_app by done. by rewrite IH.
Qed.

Lemma split_on_head c s : split_on c (c :: s) = [] :: split_on c s.
Proof. cbn. by rewrite bool_decide_eq_true_2 by done. Qed.

Lemma normal_no_dotdot path :
  is_prefix [slash] path = true -> normpath path = path -> py ".." ∉ split_on slash path.
Proof.
  intros Hp Hn. destruct path as [|c path]; [done|]. unfold normpath in Hn.
  assert (Hi : (0 <? initial_slashes (c :: path))%nat = true).
  { unfold initial_slashes. destruct (_ && _); [done|]. change (py "/") with [slash]. by rewrite Hp. }
  rewrite Hi in Hn. set (stack := foldl _ _ _) in Hn.
  assert (Hs : Forall plain_name (rev stack)).
  { apply List.Forall_rev, norm_steps; [done|apply split_on_pieces]. }
  set (n := initial_slashes (c :: path)) in *. clearbody n.
  destruct (replicate n slash ++ join [slash] (rev stack)) as [|d r] eqn:Er; [by rewrite <- Hn; vm_compute; intros ?%elem_of_cons; set_solver|].
  rewrite <- Hn, <- Er. clear -Hs. induction n as [|n IH]; cbn [replicate app].
  - destruct (rev stack) as [|w ws] eqn:E; [vm_compute; intros ?; set_solver|]. rewrite split_on_join; [|done|].
    + intros Hin. rewrite list.Forall_forall in Hs. by apply Hs in Hin as (_ & _ & ? & _).
    + eapply list.Forall_impl; [exact Hs|]. by intros w' (_ & _ & _ & ?).
  - rewrite split_on_head. intros [?|?]%elem_of_cons; done.
Qed.

(** A restore only ever writes below /etc: a path that is allowed for a
    family starts with "/etc/", has no ".." among its components, contains
    no line break and matches one of the family's patterns. *)
Theorem allowed_path_inside path fam :
  path_allowed path fam = Ok true ->
  is_prefix (py "/etc/") path = true /\ py ".." ∉ split_on slash path /\ has_char (chr 10) path = false
  /\ exists patterns p, family_paths fam = Ok patterns /\ p ∈ patterns /\ fnmatchcase p path = true.
Proof.
  unfold path_allowed. destruct (is_prefix [slash] path) eqn:E1; [|done]. destruct (bool_decide (normpath path = path)) eqn:E2; [|done].
  destruct (has_char (chr 10) path) eqn:E3; [done|]. cbn [negb orb]. apply bool_decide_eq_true in E2.
  destruct (family_paths fam) as [patterns|e] eqn:Ef; [|done]. cbn [res_bind]. intros [= Hm].
  apply existsb_exists in Hm as (p & Hin & Hp). pose proof (family_paths_etc _ _ Ef) as Hall. rewrite forallb_forall in Hall.
  specialize (Hall p Hin). apply is_prefix_split in Hall as (rest & ->). split_and!.
  - eapply fnmatch_prefix; [|exact Hp]. reflexivity.
  - by apply normal_no_dotdot.
  - done.
  - exists patterns, (py "/etc/" ++ rest). split_and!; [done|by apply list_elem_of_In|done].
Qed.

Lemma allowed_path_inside_witness : is_prefix (py "/etc/") (py "/etc/ssh/sshd_config.d/10-site.conf") = true.
Proof. apply (allowed_path_inside _ (py "linux")). vm_compute. reflexivity. Defined.

(** The patterns also match below the directories they name, where the shell
    that makes the backup does not look. *)
Lemma allowlist_crosses_directories : path_allowed (py "/etc/profile.d/site/extra.sh") (py "linux") = Ok true.
Proof. vm_compute. reflexivity. Qed.

(** ** Reading what was made *)
Lemma begin_path_line path : path <> [] -> begin_path (begin_mark ++ path ++ mark_end) = Some path.
Proof.
  intros Hne. unfold begin_path. assert (is_prefix begin_mark (begin_mark ++ path ++ mark_end) = true) as ->.
  { generalize (path ++ mark_end) as t. intros t. vm_compute. reflexivity. }
  rewrite drop_app_length, length_app. replace (length path + length mark_end - length mark_end)%nat with (length path) by lia.
  by rewrite drop_app_length, take_app_length, !bool_decide_eq_true_2.
Qed.

Lemma parse_body body path acc rest fs :
  end_line path ∉ body ->
  parse_from (body ++ end_line path :: rest) (Some (path, acc)) fs
  = parse_from rest None (set_file path (content_of (acc ++ body)) fs).
Proof.
  revert acc. induction body as [|l body IH]; intros acc Hn; cbn [app parse_from].
  - by rewrite bool_decide_eq_true_2, app_nil_r.
  - rewrite bool_decide_eq_false_2 by (intros ->; apply Hn; left). rewrite IH by (intros ?; apply Hn; by right).
    by rewrite <- app_assoc.
Qed.

Lemma join_split c s : join [c] (split_on c s) = s.
Proof.
  induction s as [|d s IH]; [done|]. cbn [split_on]. destruct (bool_decide (d = c)) eqn:E.
  - apply bool_decide_eq_true in E as ->. destruct (split_on c s) eqn:Es; [by apply split_on_nonempty in Es|].
    change (join [c] ([] :: l :: l0)) with (c :: join [c] (l :: l0)). by rewrite IH.
  - destruct (split_on c s) as [|w ws] eqn:Es; [by apply split_on_nonempty in Es|]. rewrite <- IH. by destruct ws.
Qed.

(** A text after a line: it is split at the break. *)
Lemma split_on_break c s t : split_on c (s ++ c :: t) = split_on c s ++ split_on c t.
Proof.
  induction s as [|d s IH]; cbn [app split_on]; [by rewrite bool_decide_eq_true_2 by done|].
  destruct (bool_decide (d = c)); [by rewrite IH|]. rewrite IH. destruct (split_on c s) eqn:E; [by apply split_on_nonempty in E|done].
Qed.

(** A file that can be told apart in a bundle. *)
Definition bundled (f : pystr * pystr) : Prop :=
  fst f <> [] /\ has_char (chr 10) (fst f) = false /\ end_line (fst f) ∉ split_on (chr 10) (snd f).

Lemma mark_no_newline path : has_char (chr 10) path = false ->
  has_char (chr 10) (begin_mark ++ path ++ mark_end) = false /\ has_char (chr 10) (end_line path) = false.
Proof.
  unfold has_char, end_line. intros Hp. rewrite !existsb_app, Hp. split; vm_compute; reflexivity.
Qed.

Lemma emit_lines f rest : bundled f ->
  split_on (chr 10) (emit_file f ++ rest)
  = (begin_mark ++ fst f ++ mark_end) :: split_on (chr 10) (snd f) ++ end_line (fst f) :: [] :: split_on (chr 10) rest.
Proof.
  intros (_ & Hp & _). destruct (mark_no_newline _ Hp) as [H1 H2].
  assert (emit_file f ++ rest = (begin_mark ++ fst f ++ mark_end)
    ++ chr 10 :: snd f ++ chr 10 :: end_line (fst f) ++ chr 10 :: [] ++ chr 10 :: rest) as ->.
  { unfold emit_file, newline. rewrite <- !app_assoc. cbn [app]. by rewrite <- ?app_assoc. }
  rewrite split_on_app by done. rewrite split_on_break, split_on_app by done. cbn [app]. by rewrite split_on_head.
Qed.

Lemma parse_emitted fs : forall acc, Forall bundled fs ->
  parse_from (split_on (chr 10) (emit_files fs)) None acc
  = foldl (fun acc f => set_file (fst f) (drop_newline (snd f)) acc) acc fs.
Proof.
  induction fs as [|f fs IH]; intros acc Hf; [done|]. inversion Hf as [|? ? Hb Hfs]; subst. pose proof Hb as (Hne & _ & Hend).
  cbn [emit_files flat_map foldl]. rewrite emit_lines by done. cbn [parse_from]. rewrite begin_path_line by done.
  rewrite parse_body by done. cbn [app parse_from]. unfold content_of, newline. rewrite join_split.
  change (begin_path []) with (@None pystr). by apply IH.
Qed.

Lemma skip_header ls rest fs :
  Forall (fun l => begin_path l = None) ls -> parse_from (ls ++ rest) None fs = parse_from rest None fs.
Proof. induction 1 as [|l ls Hl _ IH]; [done|]. cbn [app parse_from]. by rewrite Hl. Qed.

Lemma fresh_set path c fs : path ∉ map fst fs -> set_file path c fs = fs ++ [(path, c)].
Proof.
  induction fs as [|[p d] fs IH]; cbn; [done|]. rewrite not_elem_of_cons. intros [Hne Hn].
  rewrite bool_decide_eq_false_2 by done. by rewrite IH.
Qed.

Lemma set_all (g : pystr -> pystr) fs : forall acc, NoDup (map fst acc ++ map fst fs) ->
  foldl (fun acc f => set_file (fst f) (g (snd f)) acc) acc fs = acc ++ map (fun f => (fst f, g (snd f))) fs.
Proof.
  induction fs as [|[p c] fs IH]; intros acc Hnd; cbn; [by rewrite app_nil_r|].
  rewrite fresh_set.
  - rewrite IH; [by rewrite <- app_assoc|]. rewrite map_app. cbn. by rewrite <- app_assoc.
  - cbn in Hnd. apply list.NoDup_app in Hnd as (_ & Hd & _). intros Hin. apply (Hd p Hin). left.
Qed.

(** Reading a bundle back gives every file of the server, in order and
    under its path, but not its exact content: for the text the backup
    command prints, after any header, the content read is the file's with
    one final newline missing.  A file is restored without the newline it
    ended with. *)
Theorem bundle_read_back header fs :
  Forall (fun l => begin_path l = None) (split_on (chr 10) header) ->
  Forall bundled fs -> NoDup (map fst fs) ->
  parse_bundle (header ++ newline ++ emit_files fs) = map (fun f => (fst f, drop_newline (snd f))) fs.
Proof.
  intros Hh Hf Hnd. unfold parse_bundle, newline. cbn [app]. rewrite split_on_break, skip_header by done.
  rewrite parse_emitted by done. by apply (set_all drop_newline fs []).
Qed.

Lemma bundle_read_back_witness :
  parse_bundle (py "##### LINUX Configuration Backup #####" ++ newline
                ++ emit_files [(py "/etc/crontab", py "0 1 * * * root backup" ++ newline); (py "/etc/motd", py "hello")])
  = [(py "/etc/crontab", py "0 1 * * * root backup"); (py "/etc/motd", py "hello")].
Proof.
  rewrite (bundle_read_back (py "##### LINUX Configuration Backup #####")).
  - vm_compute. reflexivity.
  - repeat constructor.
  - repeat (constructor; [split_and!; [done|vm_compute; reflexivity|apply (bool_decide_unpack _); vm_compute; exact I]|]). constructor.
  - apply (bool_decide_unpack _). vm_compute. exact I.
Defined.

(** ** What the preview shows *)
Definition texts (o : op) (ls : list DiffLine) : list pystr := map d_text (List.filter (is_op o) ls).

Lemma texts_app o l l' : texts o (l ++ l') = texts o l ++ texts o l'.
Proof. unfold texts. by rewrite List.filter_app, map_app. Qed.
Lemma texts_flat {A} o (f : A -> list DiffLine) l : texts o (flat_map f l) = flat_map (fun x => texts o (f x)) l.
Proof. induction l as [|x l IH]; [done|]. cbn [flat_map]. by rewrite texts_app, IH. Qed.

(** A line that does not start with the two characters. *)
Definition unmarked (mark : string) (l : pystr) : Prop := is_prefix (py mark) l = false.

Lemma minus_mark l : unmarked "--" l -> diff_mark ("-"%char :: l) = [Line Minus l].
Proof.
  intros Hl. unfold diff_mark. change (is_prefix (py "---") ("-"%char :: l)) with (is_prefix (py "--") l). by rewrite Hl.
Qed.
Lemma plus_mark l : unmarked "++" l -> diff_mark ("+"%char :: l) = [Line Plus l].
Proof.
  intros Hl. unfold diff_mark. change (is_prefix (py "+++") ("+"%char :: l)) with (is_prefix (py "++") l). by rewrite Hl.
Qed.
Lemma context_mark l : diff_mark (" "%char :: l) = [Line Context l].
Proof. reflexivity. Qed.

Lemma marks_minus ls : Forall (unmarked "--") ls -> flat_map diff_mark (map (cons "-"%char) ls) = map (Line Minus) ls.
Proof. induction 1 as [|l ls Hl _ IH]; [done|]. cbn [map flat_map]. by rewrite minus_mark, IH. Qed.
Lemma marks_plus ls : Forall (unmarked "++") ls -> flat_map diff_mark (map (cons "+"%char) ls) = map (Line Plus) ls.
Proof. induction 1 as [|l ls Hl _ IH]; [done|]. cbn [map flat_map]. by rewrite plus_mark, IH. Qed.
Lemma marks_context ls : flat_map diff_mark (map (cons " "%char) ls) = map (Line Context) ls.
Proof. induction ls as [|l ls IH]; [done|]. cbn [map flat_map]. by rewrite context_mark, IH. Qed.

Lemma texts_same o ls : texts o (map (Line o) ls) = ls.
Proof. unfold texts. induction ls as [|l ls IH]; [done|]. cbn. destruct o; cbn; by rewrite IH. Qed.
Lemma texts_other o o' ls : o <> o' -> texts o (map (Line o') ls) = [].
Proof. intros Hne. unfold texts. induction ls as [|l ls IH]; [done|]. cbn. by destruct o, o'; cbn. Qed.

(** The kind of an operation says which of its ranges is empty. *)
Definition shaped (o : opcode) : Prop :=
  match op_tag o with Insert => (i2 o <= i1 o)%nat | Delete => (j2 o <= j1 o)%nat | _ => True end.
Lemma opcodes_shaped blocks : forall i j, Forall shaped (opcodes_from i j blocks).
Proof.
  induction blocks as [|m blocks IH]; intros i j; cbn [opcodes_from]; [constructor|].
  apply list.Forall_app. split; [|apply list.Forall_app; split; [|apply IH]].
  - destruct (i <? best_i m)%nat eqn:E1, (j <? best_j m)%nat eqn:E2; cbn [andb]; repeat constructor; unfold shaped; cbn;
      rewrite ?Nat.ltb_ge in *; lia.
  - destruct (_ =? 0)%nat; repeat constructor.
Qed.

Lemma slice_empty {A} i j (l : list A) : (j <= i)%nat -> slice i j l = [].
Proof. intros H. unfold slice. by replace (j - i)%nat with 0%nat by lia. Qed.
Lemma slice_forall {A} (P : A -> Prop) i j l : Forall P l -> Forall P (slice i j l).
Proof. intros Hl. unfold slice. by apply list.Forall_take, list.Forall_drop. Qed.

Lemma op_marks a b o : shaped o -> Forall (unmarked "--") a -> Forall (unmarked "++") b ->
  texts Minus (flat_map diff_mark (op_lines a b o)) = (if is_equal o then [] else old_part a o)
  /\ texts Plus (flat_map diff_mark (op_lines a b o)) = (if is_equal o then [] else new_part b o).
Proof.
  intros Hs Ha Hb. unfold op_lines, is_equal, old_part, new_part. unfold shaped in Hs.
  pose proof (slice_forall _ (i1 o) (i2 o) a Ha) as Ha'. pose proof (slice_forall _ (j1 o) (j2 o) b Hb) as Hb'.
  destruct (op_tag o); rewrite ?flat_map_app, ?texts_app, ?marks_minus, ?marks_plus, ?marks_context, ?texts_same by done;
    rewrite ?texts_other by done; rewrite ?app_nil_r; try done.
  - by rewrite (slice_empty (j1 o)).
  - by rewrite (slice_empty (i1 o)).
Qed.

Lemma changes_flat {A} (f : opcode -> list A) l :
  flat_map (fun o => if is_equal o then [] else f o) l = flat_map f (changes l).
Proof. induction l as [|o l IH]; [done|]. unfold changes in *. cbn. destruct (is_equal o); cbn; by rewrite IH. Qed.

Lemma head_marks o g : o <> Context -> texts o (diff_mark (hunk_head g)) = [].
Proof.
  intros Ho. unfold hunk_head. destruct g as [|x g]; [by destruct o|]. destruct (rev (x :: g)); [by destruct o|].
  destruct o; [reflexivity..|by destruct Ho].
Qed.

Lemma ops_marks g a b : Forall shaped g -> Forall (unmarked "--") a -> Forall (unmarked "++") b ->
  texts Minus (flat_map diff_mark (flat_map (op_lines a b) g)) = flat_map (old_part a) (changes g)
  /\ texts Plus (flat_map diff_mark (flat_map (op_lines a b) g)) = flat_map (new_part b) (changes g).
Proof.
  intros Hg Ha Hb. rewrite <- !changes_flat. induction Hg as [|o g Ho _ [IH1 IH2]]; [done|].
  cbn [flat_map]. rewrite !flat_map_app, !texts_app, IH1, IH2. by destruct (op_marks a b o Ho Ha Hb) as [-> ->].
Qed.

Lemma shrink_shaped n o : shaped o -> shaped (shrink_first n o) /\ shaped (shrink_last n o).
Proof. unfold shrink_first, shrink_last, is_equal. destruct (op_tag o) eqn:E; [done..|by intros _]. Qed.

Lemma trim_shaped n l : Forall shaped l -> Forall shaped (trim n l).
Proof.
  intros Hl. unfold trim. set (codes := match l with [] => _ | _ => _ end).
  assert (Hc : Forall shaped codes) by (unfold codes; destruct l; [by repeat constructor|done]).
  assert (Hf : Forall shaped (match codes with o :: codes => shrink_first n o :: codes | [] => [] end)).
  { destruct Hc as [|o cs Ho Hcs]; [done|]. constructor; [by apply shrink_shaped|done]. }
  revert Hf. generalize (match codes with o :: codes => shrink_first n o :: codes | [] => [] end) as cs. intros cs Hcs.
  unfold on_last. apply List.Forall_rev in Hcs. destruct (rev cs) as [|o r]; [done|]. inversion Hcs; subst.
  apply (List.Forall_rev (l := _ :: _)). constructor; [by apply shrink_shaped|done].
Qed.

Lemma group_shaped n codes : Forall shaped codes -> forall g, Forall shaped g -> Forall (Forall shaped) (group_from n g codes).
Proof.
  induction 1 as [|o codes Ho _ IH]; intros g Hg; cbn [group_from].
  - destruct g; [done|]. destruct (lone_equal _); [done|by constructor].
  - destruct (shrink_shaped n o Ho) as [H1 H2]. destruct (is_equal o && _).
    + constructor; [apply list.Forall_app; split; [done|by repeat constructor]|]. apply IH. by repeat constructor.
    + apply IH, list.Forall_app. split; [done|by repeat constructor].
Qed.

Lemma groups_marks groups a b : Forall (Forall shaped) groups -> Forall (unmarked "--") a -> Forall (unmarked "++") b ->
  let ls := flat_map diff_mark (flat_map (fun g => hunk_head g :: flat_map (op_lines a b) g) groups) in
  texts Minus ls = flat_map (old_part a) (changes (concat groups)) /\ texts Plus ls = flat_map (new_part b) (changes (concat groups)).
Proof.
  intros Hg Ha Hb. cbv zeta. induction Hg as [|g groups Hs _ [IH1 IH2]]; [done|].
  cbn [flat_map concat]. rewrite changes_app, !flat_map_app. cbn [flat_map]. rewrite !texts_app, !head_marks, IH1, IH2 by done.
  by destruct (ops_marks g a b Hs Ha Hb) as [-> ->].
Qed.

(** What the preview shows when no line begins like a header. *)
Lemma unified_marks a b : Forall (unmarked "--") a -> Forall (unmarked "++") b ->
  texts Minus (_unified a b) = flat_map (old_part a) (changes (get_opcodes a b))
  /\ texts Plus (_unified a b) = flat_map (new_part b) (changes (get_opcodes a b)).
Proof.
  intros Ha Hb. unfold _unified, unified_diff. rewrite <- (grouped_changes 2 a b).
  assert (Hs : Forall (Forall shaped) (get_grouped_opcodes 2 a b)).
  { unfold get_grouped_opcodes. apply group_shaped; [|done]. apply trim_shaped, opcodes_shaped. }
  destruct (get_grouped_opcodes 2 a b) as [|g groups] eqn:E; [done|]. rewrite flat_map_app, !texts_app.
  change (flat_map diff_mark [py "--- "; py "+++ "]) with (@nil DiffLine). by apply groups_marks.
Qed.

(** The preview of a changed file shows every change: with the lines
    marked "-" removed and those marked "+" put in their place the live file
    becomes the backup's, and no mark means no difference; but only when no
    removed line begins with "--" and no added line with "++": such a line is
    taken for the header of the diff and left out, so that a file that only
    gains the line "++ x" is shown, and counted, as unchanged. *)
Theorem unified_complete :
  (forall a b, Forall (unmarked "--") a -> Forall (unmarked "++") b ->
     let ops := get_opcodes a b in
     flat_map (old_part a) ops = a /\ flat_map (new_part b) ops = b /\ Forall (honest a b) ops
       /\ texts Minus (_unified a b) = flat_map (old_part a) (changes ops)
       /\ texts Plus (_unified a b) = flat_map (new_part b) (changes ops)
       /\ (existsb is_change (_unified a b) = false -> a = b))
  /\ existsb is_change (_unified [py "x"] [py "x"; py "++ x"]) = false.
Proof.
  split; [|vm_compute; reflexivity]. intros a b Ha Hb. cbv zeta.
  unfold get_opcodes at 1 2 3. destruct (blocks_aligned a b) as (l & El & Hl). rewrite El.
  destruct (opcodes_patches l 0 0 a b Hl [] [] eq_refl eq_refl) as (E1 & E2 & E3). cbn [app Nat.add] in *.
  destruct (unified_marks a b Ha Hb) as [M1 M2]. split_and!; try done. intros Hn.
  assert (Hnone : forall o, o <> Context -> texts o (_unified a b) = []).
  { intros o Ho. unfold texts. generalize dependent (_unified a b). intros ls _ _ Hn. induction ls as [|d ls IH]; [done|].
    cbn in Hn |- *. apply orb_false_elim in Hn as [Hd Hn]. unfold is_change in Hd. unfold is_op at 1. destruct (d_op d); [done..|].
    destruct o; [by apply IH..|done]. }
  rewrite Hnone in M1, M2 by done. clear Hnone Hn Ha Hb Hl. unfold get_opcodes in M1, M2. rewrite El in M1, M2. clear El.
  set (ops := opcodes_from 0 0 _) in *. clearbody ops. rewrite <- E1 at 1. rewrite <- E2 at 1. clear E1 E2.
  induction E3 as [|o ops Ho _ IH]; [done|]. cbn [flat_map]. destruct (is_equal o) eqn:Eo.
  - rewrite changes_equal in M1, M2 by done. by rewrite (Ho Eo), IH.
  - unfold changes in M1, M2. cbn in M1, M2. rewrite Eo in M1, M2. cbn in M1, M2.
    symmetry in M1, M2. apply app_eq_nil in M1 as [-> M1], M2 as [-> M2]. by rewrite IH.
Qed.

Lemma unified_complete_witness :
  texts Minus (_unified [py "a"; py "b"] [py "a"; py "c"]) = [py "b"].
Proof.
  destruct (proj1 unified_complete [py "a"; py "b"] [py "a"; py "c"]) as (_ & _ & _ & H & _); [repeat constructor..|].
  rewrite H. vm_compute. reflexivity.
Defined.

(** A tampered backup: one file to write, one outside the allowlist. *)
Definition tampered : pystr := emit_files [(py "/etc/motd", py "hello"); (py "/root/.ssh/authorized_keys", py "ssh-rsa AAAA")].
Definition server : pystr := emit_files [(py "/etc/motd", py "hi"); (py "/etc/sysctl.d/99-new.conf", py "x=1")].
Lemma plan_restores_backup_witness :
  match plan_bundle tampered server (py "linux") with
  | Ok p => file_at (py "/etc/motd") (files_after p (parse_bundle server)) = Some (py "hello")
            /\ file_at (py "/root/.ssh/authorized_keys") (files_after p (parse_bundle server)) = None
            /\ file_at (py "/etc/sysctl.d/99-new.conf") (files_after p (parse_bundle server)) = None
  | Raise _ => False
  end.
Proof.
  destruct (plan_bundle tampered server (py "linux")) as [p|e] eqn:E; [|vm_compute in E; discriminate].
  split_and!; rewrite (plan_restores_backup _ _ _ _ E); vm_compute; reflexivity.
Defined.
