(* ===== verification/Risk.v ===== *)
(** * Management-access risks of a restore (src/app/modules/backup/restore/risk.py)

    Which changes touch the access the restore itself uses, and whether the
    restored configuration provably shuts it out.  IPv4 addresses and networks
    are read as Python's ipaddress does; its IPv6 half is an argument. *)
From S2P Require Import Prelude PyStr ConfigTree CiscoTree FileBundle.

Inductive severity : Type := Warning | Lockout.
Record risk : Type := Risk { severity_of : severity; risk_message : pystr }.
Definition is_lockout (r : risk) : bool := match severity_of r with Lockout => true | Warning => false end.

(** ** Flagged lines *)
(** A section's title as text; the separator between the parts of a path is
    no part of any pattern, so that a plain one stands for it here. *)
Definition title_text (parts : list pystr) : pystr :=
  match parts with [] => py "(top level)" | _ => join (py " > ") parts end.
Definition _flagged_lines (d : ConfigDiff) (matches : pystr -> bool) : nat :=
  length (flat_map (fun s => List.filter (fun l => is_change l && (matches (title_text (title s)) || matches (strip (d_text l)))) (lines s))
                   (sections d)).

(** [_FORTI_MGMT.search], [_CISCO_MGMT.search] *)
Definition _FORTI_MGMT (s : pystr) : bool :=
  existsb (fun w => is_infix w (lower s)) (map py ["config system admin"; "trusthost"; "admin-sport"; "admin-port"; "admin-ssh-port";
    "allowaccess"; "config system interface"; "local-in-policy"; "admin-https"; "admin-ssh"]%string).
Definition _CISCO_MGMT (s : pystr) : bool :=
  existsb (fun w => is_prefix w (lower s)) (map py ["line vty"; "ip ssh"; "aaa "; "username "; "ip access-list"; "access-list";
    "access-class"; "transport input"; "interface "; "ip address"; "management"]%string).

(** ** IPv4 as the ipaddress module reads it *)
Definition ascii_digits (s : pystr) : bool := negb (bool_decide (s = [])) && forallb is_digit s.
Definition _parse_octet (s : pystr) : option Z :=
  if ascii_digits s && (length s <=? 3)%nat then
    if negb (bool_decide (s = py "0")) && is_prefix (py "0") s then None
    else let n := digits_val s in if n <=? 255 then Some n else None
  else None.
Definition _ip_int_from_string (s : pystr) : option Z :=
  match map _parse_octet (split_on "."%char s) with
  | [Some a; Some b; Some c; Some d] => Some (((a * 256 + b) * 256 + c) * 256 + d)
  | _ => None
  end.
Definition all_ones : Z := 2 ^ 32 - 1.
(** [_count_righthand_zero_bits(n, 32)] *)
Fixpoint trailing_zeros (fuel : nat) (n : Z) : Z :=
  match fuel with O => 0 | S fuel => if Z.even n then 1 + trailing_zeros fuel (Z.shiftr n 1) else 0 end.
Definition _prefix_from_ip_int (n : Z) : option Z :=
  let prefixlen := 32 - trailing_zeros 32 n in
  if Z.shiftr n (32 - prefixlen) =? Z.shiftl 1 prefixlen - 1 then Some prefixlen else None.
Definition _prefix_from_prefix_string (s : pystr) : option Z :=
  if ascii_digits s then let n := digits_val s in if n <=? 32 then Some n else None else None.
Definition _prefix_from_ip_string (s : pystr) : option Z :=
  match _ip_int_from_string s with
  | None => None
  | Some n => match _prefix_from_ip_int n with Some p => Some p | None => _prefix_from_ip_int (Z.lxor n all_ones) end
  end.
Definition _make_netmask (s : pystr) : option Z :=
  match _prefix_from_prefix_string s with Some p => Some p | None => _prefix_from_ip_string s end.
(** [ip_int_from_prefix] *)
Definition netmask_int (prefixlen : Z) : Z := Z.lxor all_ones (Z.shiftr all_ones prefixlen).

(** An address and a network, of either version. *)
Inductive address : Type := Addr4 (n : Z) | Addr6 (n : Z).
Inductive network : Type := Net4 (base prefixlen : Z) | Net6 (base prefixlen : Z) (text : pystr).
(** [IPv4Network(addr + "/" + mask, strict=False)] for parts without "/" *)
Definition ipv4_network (addr mask : pystr) : option network :=
  if has_char slash addr || has_char slash mask then None
  else match _ip_int_from_string addr, _make_netmask mask with
       | Some n, Some p => Some (Net4 (Z.land n (netmask_int p)) p)
       | _, _ => None
       end.
Definition prefixlen (n : network) : Z := match n with Net4 _ p | Net6 _ p _ => p end.
(** [ip in network] *)
Definition contains (n : network) (a : address) : bool :=
  match n, a with
  | Net4 base p, Addr4 ip => Z.land ip (netmask_int p) =? base
  | Net6 base p _, Addr6 ip => Z.shiftr ip (128 - p) =? Z.shiftr base (128 - p)
  | _, _ => false
  end.
Definition dotted (n : Z) : pystr :=
  join (py ".") (map (fun k => str_of_int (Z.land (Z.shiftr n k) 255)) [24; 16; 8; 0]).
Definition network_text (n : network) : pystr :=
  match n with Net4 base p => dotted base ++ py "/" ++ str_of_int p | Net6 _ _ t => t end.

(** ** FortiGate *)
(** [_find_scope] *)
Definition wraps_scopes (n : node) : bool :=
  existsb (fun w => is_prefix w (line n)) (map py ["config global"; "config vdom"; "edit "]%string).
Fixpoint _find_scope (key : pystr) (n : node) : option node :=
  match get key (children n) with
  | Some c => Some c
  | None =>
      (fix among (cs : list (pystr * node)) : option node :=
         match cs with
         | [] => None
         | (_, c) :: cs =>
             if wraps_scopes c then match _find_scope key c with Some f => Some f | None => among cs end else among cs
         end) (children n)
  end.

Definition quoted (s : pystr) : pystr := chr 34 :: s ++ [chr 34].
Definition plural (n : nat) (text : string) : pystr := str_of_int (Z.of_nat n) ++ py text.

Section FortiGate.
(** IPv6Network(text, strict=False) and IPv6Address(text). *)
Variables (ipv6_network : pystr -> option network) (ipv6_address : pystr -> option Z).
Definition ip_network (addr mask : pystr) : option network :=
  match ipv4_network addr mask with Some n => Some n | None => ipv6_network (addr ++ py "/" ++ mask) end.
Definition ip_address (s : pystr) : option address :=
  match (if has_char slash s then None else _ip_int_from_string s) with
  | Some n => Some (Addr4 n)
  | None => Addr6 <$> ipv6_address s
  end.

(** The networks of an account's trusted hosts. *)
Definition trusted_network (kn : pystr * node) : list network :=
  if is_prefix (py "set trusthost") (fst kn) then
    match words (line (snd kn)) with
    | _ :: _ :: addr :: mask :: _ => match ip_network addr mask with Some n => [n] | None => [] end
    | _ => []
    end
  else [].
Definition trusted_networks (entry : node) : list network := flat_map trusted_network (children entry).
Definition is_any (n : network) : bool := prefixlen n =? 0.

Definition account_risks (username : pystr) (source_ip : option pystr) (admins : node) : list risk :=
  let entry := match get (py "edit " ++ quoted username) (children admins) with
               | Some e => Some e | None => get (py "edit " ++ username) (children admins) end in
  match entry, source_ip with
  | None, _ => [Risk Lockout (py "The account " ++ quoted username ++ py " used for this connection does not exist in the backup; NGCorion will not be able to log back in.")]
  | Some e, Some ((_ :: _) as source) =>
      let nets := trusted_networks e in
      if negb (bool_decide (nets = [])) && negb (existsb is_any nets) then
        match ip_address source with
        | Some ip =>
            if existsb (fun n => contains n ip) nets then []
            else [Risk Lockout (py "The backup restricts " ++ quoted username ++ py " to " ++ join (py ", ") (map network_text nets)
                    ++ py ", but NGCorion connects from " ++ source ++ py ". After this restore NGCorion may lose SSH access.")]
        | None => []
        end
      else []
  | Some _, _ => []
  end.

(** The port a line moves SSH to. *)
Definition int_of (s : pystr) : res value_error Z :=
  match py_int s with Some n => Ok n | None => Raise (ValueError (py "invalid literal for int() with base 10: '" ++ s ++ py "'")) end.
Definition port_risks (ssh_port : Z) (globals : node) : res value_error (list risk) :=
  match get (py "set admin-ssh-port") (children globals) with
  | None => Ok []
  | Some n =>
      match words (line n) with
      | _ :: _ :: ((_ :: _) as port) :: _ =>
          if forallb py_isdigit port then
            let! v := int_of port in
            Ok (if v =? ssh_port then []
                else [Risk Lockout (py "The backup moves SSH to port " ++ port ++ py "; this connection uses " ++ str_of_int ssh_port ++ py ".")])
          else Ok []
      | _ => Ok []
      end
  end.

(** [fortios_risks] of a backup read as the tree [root]. *)
Definition fortios_risks (d : ConfigDiff) (root : node) (username : pystr) (source_ip : option pystr) (ssh_port : Z)
    : res value_error (list risk) :=
  let n := _flagged_lines d _FORTI_MGMT in
  let warning := match n with O => []
    | _ => [Risk Warning (plural n " changed line(s) affect management access (admin accounts, trusted hosts, admin ports or interface access).")] end in
  let account := match _find_scope (py "config system admin") root with Some a => account_risks username source_ip a | None => [] end in
  let! port := match _find_scope (py "config system global") root with Some g => port_risks ssh_port g | None => Ok [] end in
  Ok (warning ++ account ++ port).
End FortiGate.

(** ** Cisco IOS *)
(** A word boundary between a text that ends with [c] and [rest]. *)
Definition boundary (c : ascii) (rest : pystr) : bool :=
  negb (Bool.eqb (is_wordchar c) (match rest with d :: _ => is_wordchar d | [] => false end)).
(** [re.search("^username <name>\b", line)] *)
Definition username_line (username l : pystr) : bool :=
  let p := py "username " ++ username in
  is_prefix p l && boundary (List.last p " "%char) (drop (length p) l).
Definition cisco_risks (d : ConfigDiff) (backup_text username : pystr) : list risk :=
  let n := _flagged_lines d _CISCO_MGMT in
  let ls := split_on (chr 10) backup_text in
  (match n with O => []
   | _ => [Risk Warning (plural n " changed line(s) affect management access (VTY lines, SSH, AAA, local users, ACLs or interface addresses).")] end)
  ++ (if negb (bool_decide (username = [])) && negb (existsb (username_line username) ls) && existsb (is_prefix (py "username ")) ls
      then [Risk Lockout (py "The account " ++ quoted username ++ py " used for this connection does not exist in the backup; local login may fail after the restore.")]
      else []).

(** ** Linux *)
Definition sshd_keywords : list pystr := map py
  ["port"; "listenaddress"; "allowusers"; "allowgroups"; "denyusers"; "denygroups"; "permitrootlogin"; "passwordauthentication";
   "pubkeyauthentication"; "usepam"; "authenticationmethods"]%string.
(** [_SSHD_MGMT.match(line)] *)
Definition _SSHD_MGMT (l : pystr) : bool :=
  let l := lower (lstrip l) in
  existsb (fun k => is_prefix k l && boundary (List.last k " "%char) (drop (length k) l)) sshd_keywords.
(** [p.split("@")[0]] *)
Definition user_part (p : pystr) : pystr := fst (partition1 "@"%char p).
Definition sshd_line_risks (username : pystr) (ssh_port : Z) (l : pystr) : res value_error (list risk) :=
  if _SSHD_MGMT l then
    match words l with
    | [] => Ok []
    | k :: args =>
        let key := lower k in
        let! port :=
          if bool_decide (key = py "port") then
            match args with
            | ((_ :: _) as port) :: _ =>
                if forallb py_isdigit port then
                  let! v := int_of port in
                  Ok (if v =? ssh_port then []
                      else [Risk Lockout (py "The backup's sshd listens on port " ++ port ++ py "; this connection uses " ++ str_of_int ssh_port ++ py ".")])
                else Ok []
            | _ => Ok []
            end
          else Ok [] in
        let users := map user_part args in
        Ok (port
            ++ (if bool_decide (key = py "allowusers") && negb (bool_decide (username ∈ users))
                then [Risk Lockout (py "The backup's AllowUsers does not include " ++ quoted username ++ py ".")] else [])
            ++ (if bool_decide (key = py "denyusers") && bool_decide (username ∈ users)
                then [Risk Lockout (py "The backup's DenyUsers blocks " ++ quoted username ++ py ".")] else []))
    end
  else Ok [].
Fixpoint sshd_risks (username : pystr) (ssh_port : Z) (ls : list pystr) : res value_error (list risk) :=
  match ls with
  | [] => Ok []
  | l :: ls => let! a := sshd_line_risks username ssh_port l in let! b := sshd_risks username ssh_port ls in Ok (a ++ b)
  end.
Definition affects_login (s : DiffSection) : bool :=
  existsb (fun dir => existsb (is_infix dir) (title s)) (map py ["/etc/ssh/"; "/etc/pam.d/"; "/etc/security/"]%string).
Definition bundle_risks (d : ConfigDiff) (after : files) (fam username : pystr) (ssh_port : Z) : res value_error (list risk) :=
  if bool_decide (fam = py "linux") then
    let warning := match length (List.filter affects_login (sections d)) with O => []
      | n => [Risk Warning (plural n " changed file(s) affect SSH login (sshd configuration, PAM or account security policy).")] end in
    let! sshd := sshd_risks username ssh_port (splitlines (default [] (file_at (py "/etc/ssh/sshd_config") after))) in
    Ok (warning ++ sshd)
  else Ok [].

(** ** Addresses and masks *)
Lemma ones_32 : all_ones = Z.ones 32. Proof. reflexivity. Qed.
Lemma small_bits ip k : 0 <= ip < 2 ^ 32 -> 32 <= k -> Z.testbit ip k = false.
Proof.
  intros Hip Hk. destruct (Z.eq_dec ip 0) as [->|Hne]; [apply Z.bits_0|]. apply Z.bits_above_log2; [lia|].
  apply Z.log2_lt_pow2; [lia|]. eapply Z.lt_le_trans; [apply Hip|]. by apply Z.pow_le_mono_r.
Qed.
(** Which bits a mask keeps. *)
Lemma netmask_bit p k : 0 <= p <= 32 -> 0 <= k -> Z.testbit (netmask_int p) k = (32 - p <=? k) && (k <? 32).
Proof.
  intros Hp Hk. unfold netmask_int. rewrite ones_32, Z.lxor_spec, Z.shiftr_spec, !Z.testbit_ones_nonneg by lia.
  destruct (k <? 32) eqn:E1, (k + p <? 32) eqn:E2, (32 - p <=? k) eqn:E3; bool_prop; try lia; done.
Qed.
Lemma land_netmask ip p : 0 <= p <= 32 -> 0 <= ip < 2 ^ 32 -> Z.land ip (netmask_int p) = Z.shiftl (Z.shiftr ip (32 - p)) (32 - p).
Proof.
  intros Hp Hip. apply Z.bits_inj'. intros k Hk. rewrite Z.land_spec, netmask_bit by lia.
  destruct (32 - p <=? k) eqn:E.
  - rewrite Z.shiftl_spec_high, Z.shiftr_spec by (bool_prop; lia). replace (k - (32 - p) + (32 - p)) with k by lia.
    destruct (k <? 32) eqn:E'; [by rewrite andb_true_r|]. by rewrite small_bits by (bool_prop; lia).
  - rewrite Z.shiftl_spec_low by (bool_prop; lia). by rewrite andb_false_r.
Qed.

(** A network as [ipv4_network] makes it. *)
Definition proper (n : network) : Prop :=
  match n with Net4 base p => 0 <= p <= 32 /\ exists a, 0 <= a < 2 ^ 32 /\ base = Z.land a (netmask_int p) | Net6 _ _ _ => True end.

Lemma contains_prefix base p ip : proper (Net4 base p) -> 0 <= ip < 2 ^ 32 ->
  contains (Net4 base p) (Addr4 ip) = true <-> Z.shiftr ip (32 - p) = Z.shiftr base (32 - p).
Proof.
  intros (Hp & a & Ha & ->) Hip. cbn [contains]. rewrite Z.eqb_eq, !land_netmask by done.
  rewrite (Z.shiftr_shiftl_l _ (32 - p)), Z.sub_diag, Z.shiftl_0_r by lia. split; [|congruence]. intros E.
  apply (f_equal (fun z => Z.shiftr z (32 - p))) in E. by rewrite !Z.shiftr_shiftl_l, Z.sub_diag, !Z.shiftl_0_r in E by lia.
Qed.

Lemma octet_range s n : _parse_octet s = Some n -> 0 <= n <= 255.
Proof.
  unfold _parse_octet, ascii_digits. destruct (negb (bool_decide (s = [])) && forallb is_digit s) eqn:E; [|done].
  apply andb_prop in E as [_ E]. pose proof (digits_val_nonneg s E). repeat case_match; intros; simplify_eq; bool_prop; lia.
Qed.
Lemma ip_int_range s n : _ip_int_from_string s = Some n -> 0 <= n < 2 ^ 32.
Proof.
  unfold _ip_int_from_string. destruct (split_on _ s) as [|a [|b [|c [|d [|]]]]]; cbn; try (repeat case_match; done).
  destruct (_parse_octet a) as [x|] eqn:Ea; [|done]. destruct (_parse_octet b) as [y|] eqn:Eb; [|done].
  destruct (_parse_octet c) as [z|] eqn:Ec; [|done]. destruct (_parse_octet d) as [w|] eqn:Ed; [|done].
  apply octet_range in Ea, Eb, Ec, Ed. intros [= <-]. lia.
Qed.
Lemma trailing_range fuel n : 0 <= trailing_zeros fuel n <= Z.of_nat fuel.
Proof.
  revert n. induction fuel as [|fuel IH]; intros n; cbn [trailing_zeros]; [lia|]. destruct (Z.even n); [|lia].
  specialize (IH (Z.shiftr n 1)). lia.
Qed.
Lemma prefix_range n p : _prefix_from_ip_int n = Some p -> 0 <= p <= 32.
Proof.
  unfold _prefix_from_ip_int. pose proof (trailing_range 32 n) as Ht. revert Ht. generalize (trailing_zeros 32 n) as t. intros t Ht.
  change (Z.of_nat 32) with 32 in Ht. destruct (_ =? _); [|done]. intros [= <-]. lia.
Qed.
Lemma netmask_range s p : _make_netmask s = Some p -> 0 <= p <= 32.
Proof.
  unfold _make_netmask, _prefix_from_prefix_string, ascii_digits.
  destruct (negb (bool_decide (s = [])) && forallb is_digit s) eqn:E; [apply andb_prop in E as [_ E]; pose proof (digits_val_nonneg s E)|].
  1: destruct (digits_val s <=? 32) eqn:E2; [intros [= <-]; bool_prop; lia|].
  all: unfold _prefix_from_ip_string; destruct (_ip_int_from_string s) as [n|]; [|done].
  all: destruct (_prefix_from_ip_int n) eqn:E3; [intros [= <-]; by eapply prefix_range|apply prefix_range].
Qed.
Lemma ipv4_proper a m n : ipv4_network a m = Some n -> proper n /\ exists base p, n = Net4 base p.
Proof.
  unfold ipv4_network. destruct (_ || _); [done|]. destruct (_ip_int_from_string a) as [i|] eqn:Ei; [|done].
  destruct (_make_netmask m) as [p|] eqn:Ep; [|done]. intros [= <-]. split; [|by eexists _, _].
  split; [by apply netmask_range in Ep|]. exists i. split; [by apply ip_int_range in Ei|done].
Qed.

(** The mask of a prefix length is read back as that length, and nothing else
    is: the masks 255.255.255.0 and 24 are the same. *)
Lemma masks_read_back : forallb (fun p => bool_decide (_prefix_from_ip_int (netmask_int (Z.of_nat p)) = Some (Z.of_nat p))) (seq 0 33) = true.
Proof. vm_compute. reflexivity. Qed.

Section Lockout.
Variables (ipv6_network : pystr -> option network) (ipv6_address : pystr -> option Z).
Hypothesis ipv6_only : forall t n, ipv6_network t = Some n -> exists b p x, n = Net6 b p x.

Lemma trusted_proper entry n : n ∈ trusted_networks ipv6_network entry -> proper n.
Proof.
  unfold trusted_networks. intros Hin%list_elem_of_In. apply in_flat_map in Hin as (kn & _ & Hn). unfold trusted_network in Hn.
  destruct (is_prefix _ (fst kn)); [|done]. destruct (words _) as [|? [|? [|a [|m ?]]]]; try done.
  destruct (ip_network ipv6_network a m) as [n'|] eqn:En; [|done]. destruct Hn as [<-|[]]. unfold ip_network in En.
  destruct (ipv4_network a m) eqn:E4; [injection En as <-; by apply (ipv4_proper a m)|]. by destruct (ipv6_only _ _ En) as (b & p & x & ->).
Qed.

(** The lockout warning for a FortiGate's trusted hosts is exact: for an
    account of the backup and an IPv4 source address, no lockout is reported
    if and only if the account has no trusted host that can be read, or one
    of them trusts every address, or the source address has the same leading
    bits as one of them, as many as its mask says. *)
Theorem trusted_hosts_exact username source ip admins entry :
  get (py "edit " ++ quoted username) (children admins) = Some entry ->
  _ip_int_from_string source = Some ip -> has_char slash source = false -> source <> [] ->
  account_risks ipv6_network ipv6_address username (Some source) admins = []
  <-> (trusted_networks ipv6_network entry = []
       \/ exists n, n ∈ trusted_networks ipv6_network entry
          /\ (prefixlen n = 0 \/ exists base p, n = Net4 base p /\ Z.shiftr ip (32 - p) = Z.shiftr base (32 - p))).
Proof.
  intros Hg Hip Hs Hne. unfold account_risks. rewrite Hg. destruct source as [|c source]; [done|]. set (src := c :: source) in *.
  unfold ip_address. rewrite Hs, Hip. cbv zeta. set (nets := trusted_networks ipv6_network entry).
  pose proof (ip_int_range _ _ Hip) as Hr. destruct (bool_decide (nets = [])) eqn:E0; cbn [negb andb].
  { apply bool_decide_eq_true in E0. tauto. }
  apply bool_decide_eq_false in E0. destruct (existsb is_any nets) eqn:E1; cbn [negb].
  { split; [intros _; right|done]. apply existsb_exists in E1 as (n & Hn & Ha). exists n. split; [by apply list_elem_of_In|].
    left. unfold is_any in Ha. lia. }
  assert (Hany : forall n, n ∈ nets -> prefixlen n <> 0).
  { intros n Hn Hp. apply list_elem_of_In in Hn. assert (existsb is_any nets = true); [|congruence].
    apply existsb_exists. exists n. split; [done|]. unfold is_any. by apply Z.eqb_eq. }
  assert (Hc : forall n, n ∈ nets -> contains n (Addr4 ip) = true <-> exists base p, n = Net4 base p /\ Z.shiftr ip (32 - p) = Z.shiftr base (32 - p)).
  { intros n Hn. pose proof (trusted_proper entry n Hn) as Hp. destruct n as [base p|b p x]; cbn.
    - rewrite (contains_prefix base p ip Hp Hr). split; [by exists base, p|]. by intros (? & ? & [= <- <-] & ?).
    - split; [done|]. by intros (? & ? & ? & _). }
  destruct (existsb (fun n => contains n (Addr4 ip)) nets) eqn:E2.
  - split; [intros _; right|done]. apply existsb_exists in E2 as (n & Hn & Hx). apply list_elem_of_In in Hn.
    exists n. split; [done|]. right. by apply Hc.
  - split; [done|]. intros [?|(n & Hn & [Hp|Hp])]; [done|by destruct (Hany n Hn)|].
    apply Hc in Hp; [|done]. assert (existsb (fun n => contains n (Addr4 ip)) nets = true); [|congruence].
    apply existsb_exists. exists n. split; [by apply list_elem_of_In|done].
Qed.
End Lockout.

Definition no_ipv6_network (_ : pystr) : option network := None.
Definition no_ipv6 (_ : pystr) : option Z := None.
Definition an_account : node :=
  Node [] [(py "set trusthost1", Node (py "set trusthost1 10.20.0.77 255.255.0.0") [])].
Definition some_admins : node := Node [] [(py "edit " ++ quoted (py "ngc"), an_account)].
Lemma trusted_hosts_exact_witness :
  account_risks no_ipv6_network no_ipv6 (py "ngc") (Some (py "10.20.3.4")) some_admins = []
  /\ account_risks no_ipv6_network no_ipv6 (py "ngc") (Some (py "10.21.3.4")) some_admins <> [].
Proof.
  split; [|vm_compute; discriminate].
  apply (trusted_hosts_exact no_ipv6_network no_ipv6 (fun t n (H : None = Some n) => ltac:(discriminate)) (py "ngc")
    (py "10.20.3.4") (169083652 + 0) some_admins an_account); [reflexivity|vm_compute; reflexivity|reflexivity|discriminate|].
  right. exists (Net4 169082880 16). split; [apply list_elem_of_In; vm_compute; auto|]. right. exists 169082880, 16. split; reflexivity.
Defined.
