(* ===== verification/Backups.v ===== *)
(** * Configuration backups: what changed, and what retention may delete
    (src/app/modules/backup/changes.py, retention.py, src/app/models/backup.py)

    The device_backups table is the list of its rows in the order of their
    ids.  Names, addresses and the user of a row take no part in any decision
    and are left out.  Times are naive UTC microseconds. *)
From S2P Require Import Prelude PyStr CiscoTree ConfigTree Difflib FileBundle.

Inductive origin : Type := First | Unchanged | External | Ngcorion.
Inductive change_source : Type := FromHardening (id : Z) | FromRestore (id : Z).

Record DeviceBackup : Type := Backup {
  backup_id : Z; asset_id : Z; device_type : option pystr; config_content : pystr;
  hardening_action_id : option Z; created_at : Z;
  previous_backup_id : option Z; changed : option bool;
  added_lines : option Z; removed_lines : option Z;
  change_origin : option origin; change_ref : option change_source;
  confirmed_at : option Z }.

Record HardeningAction : Type := Action {
  action_id : Z; action_asset : Z; succeeded : bool; is_preview : bool;
  completed_at : option Z; executed_at : option Z; action_created_at : Z }.
Inductive restore_status : Type := Active | Succeeded | Reverted | RestoreFailed.
Record BackupRestore : Type := RestoreRow {
  restore_id : Z; restore_asset : Z; restore_status_of : restore_status;
  restored_from : option Z; pre_restore_backup_id : option Z;
  restore_finished_at : option Z; restore_created_at : Z }.

Record store : Type := Store {
  backups : list DeviceBackup; hardenings : list HardeningAction; restores : list BackupRestore;
  stored_days : option Z }.

Definition or_else (o : option Z) (d : Z) : Z := match o with Some n => n | None => d end.
Definition in_window (since until t : Z) : bool := (since <=? t) && (t <=? until).

(** The row with the greatest key among those a query selects. *)
Definition better {A} (key : A -> Z * Z) (best : option A) (x : A) : option A :=
  match best with
  | None => Some x
  | Some y =>
      if (fst (key y) <? fst (key x)) || ((fst (key y) =? fst (key x)) && (snd (key y) <? snd (key x)))
      then Some x else best
  end.
Definition greatest {A} (key : A -> Z * Z) (l : list A) : option A := foldl (better key) None l.

(** ** What changed (changes.py) *)
(** [counts] *)
Definition counts (d : ConfigDiff) : Z * Z := (added d, removed d).

(** [_bundle_diff]: file by file, whatever the path. *)
Definition file_section (old new : files) (path : pystr) : list DiffSection :=
  match file_at path old, file_at path new with
  | None, None => []
  | None, Some b => [Section_ [path; py "(new file)"] (all_lines Plus b)]
  | Some a, None => [Section_ [path; py "(removed)"] (all_lines Minus a)]
  | Some a, Some b => if bool_decide (a = b) then [] else [Section_ [path] (_unified (split_on (chr 10) a) (split_on (chr 10) b))]
  end.
Definition _bundle_diff (old_text new_text : pystr) : ConfigDiff :=
  let '(old, new) := (parse_bundle old_text, parse_bundle new_text) in
  Diff (flat_map (file_section old new) (sorted_keys (map fst old ++ map fst new))) [].

(** [_text_diff] *)
Definition _text_diff (old_text new_text : pystr) : ConfigDiff :=
  let lines := _unified (splitlines old_text) (splitlines new_text) in
  Diff (if existsb is_change lines then [Section_ [py "configuration"] lines] else []) [].

Definition diff_of {E} (r : res E (list pystr * ConfigDiff)) : option ConfigDiff :=
  match r with Ok (_, d) => Some d | Raise _ => None end.

(** [compare] *)
Definition compare (family : option pystr) (old_text new_text : pystr) : ConfigDiff :=
  let f := lower (default [] family) in
  let parsed :=
    if bool_decide (f = py "cisco") then diff_of (diff_cisco new_text old_text)
    else if bool_decide (f = py "fortinet") then diff_of (diff_fortios new_text old_text)
    else if bool_decide (f ∈ [py "linux"; py "apache"; py "mongodb"]) then Some (_bundle_diff old_text new_text)
    else None in
  match parsed with Some d => d | None => _text_diff old_text new_text end.

(** [origin_of_change] *)
Definition hardening_done (h : HardeningAction) : Z :=
  or_else (completed_at h) (or_else (executed_at h) (action_created_at h)).
Definition restore_done (r : BackupRestore) : Z := or_else (restore_finished_at r) (restore_created_at r).
Definition changed_device (r : BackupRestore) : bool :=
  match restore_status_of r with Succeeded | Reverted => true | _ => false end.

Definition origin_of_change (s : store) (asset since until : Z) : origin * option change_source :=
  let hs := List.filter (fun h => (action_asset h =? asset) && succeeded h && negb (is_preview h)
                              && in_window since until (hardening_done h)) (hardenings s) in
  match greatest (fun h => (action_id h, 0)) hs with
  | Some h => (Ngcorion, Some (FromHardening (action_id h)))
  | None =>
      let rs := List.filter (fun r => (restore_asset r =? asset) && changed_device r
                                  && in_window since until (restore_done r)) (restores s) in
      match greatest (fun r => (restore_id r, 0)) rs with
      | Some r => (Ngcorion, Some (FromRestore (restore_id r)))
      | None => (External, None)
      end
  end.

(** [latest] *)
Definition not_after (before : option Z) (b : DeviceBackup) : bool :=
  match before with Some t => created_at b <=? t | None => true end.
Definition latest (s : store) (asset : Z) (before : option Z) : option DeviceBackup :=
  greatest (fun b => (created_at b, backup_id b))
    (List.filter (fun b => (asset_id b =? asset) && not_after before b) (backups s)).

Definition or_type (a b : option pystr) : option pystr :=
  match a with Some (_ :: _) => a | _ => b end.

(** [note_change] *)
Definition note_change (s : store) (b : DeviceBackup) (previous : option DeviceBackup) : DeviceBackup :=
  match previous with
  | None => b {{ changed := None }} {{ change_origin := Some First }}
  | Some p =>
      let b := b {{ previous_backup_id := Some (backup_id p) }} in
      let d := compare (or_type (device_type b) (device_type p)) (config_content p) (config_content b) in
      let '(a, r) := counts d in
      if (a =? 0) && (r =? 0) then
        b {{ changed := Some false }} {{ added_lines := Some 0 }} {{ removed_lines := Some 0 }}
          {{ change_origin := Some Unchanged }}
      else
        let since := or_else (confirmed_at p) (created_at p) in
        let '(o, ref) := origin_of_change s (asset_id b) since (created_at b) in
        b {{ changed := Some true }} {{ added_lines := Some a }} {{ removed_lines := Some r }}
          {{ change_origin := Some o }} {{ change_ref := ref }}
  end.

Definition is_noted (b : DeviceBackup) : bool := match change_origin b with Some _ => true | None => false end.

(** [_note_change], the hook that completes a row as it is saved; [created]
    is the creation time the caller gave, if any. *)
Definition _note_change (s : store) (now : Z) (created : option Z) (b : DeviceBackup) : DeviceBackup :=
  let b := b {{ created_at := or_else created now }} in
  if is_noted b || (asset_id b =? 0) then b
  else note_change s b (latest s (asset_id b) created).

Definition save (s : store) (now : Z) (created : option Z) (b : DeviceBackup) : store :=
  s {{ backups := backups s ++ [_note_change s now created b] }}.

(** ** Retention (retention.py) *)
Definition MIN_DAYS : Z := 7.
Definition MAX_DAYS : Z := 3650.
Definition DEFAULT_DAYS : Z := 90.
Definition day_us : Z := 86400 * 1000000.

(** [get_settings], [save_settings] *)
Definition get_settings (s : store) : Z := default DEFAULT_DAYS (stored_days s).
Definition save_settings (s : store) (retention_days : Z) : store :=
  s {{ stored_days := Some (Z.max MIN_DAYS (Z.min retention_days MAX_DAYS)) }}.

(** The subqueries of [prune]: the last row of the asset, and the rows a
    restore used. *)
Definition is_last (l : list DeviceBackup) (b : DeviceBackup) : bool :=
  forallb (fun c => negb (asset_id c =? asset_id b) || (backup_id c <=? backup_id b)) l.
Definition names (o : option Z) (id : Z) : bool := match o with Some n => n =? id | None => false end.
Definition used (s : store) (id : Z) : bool :=
  existsb (fun r => names (restored_from r) id || names (pre_restore_backup_id r) id) (restores s).
Definition unconfirmed_since (before : Z) (b : DeviceBackup) : bool :=
  match confirmed_at b with None => true | Some t => t <? before end.
Definition is_false (o : option bool) : bool := match o with Some false => true | _ => false end.
Definition is_none {A} (o : option A) : bool := match o with None => true | Some _ => false end.

Definition expendable (s : store) (before : Z) (b : DeviceBackup) : bool :=
  (created_at b <? before) && is_false (changed b) && is_none (hardening_action_id b)
  && negb (is_last (backups s) b) && negb (used s (backup_id b)) && unconfirmed_since before b.

Definition prune_ids (s : store) (now : Z) : list Z :=
  map backup_id (List.filter (expendable s (now - get_settings s * day_us)) (backups s)).

Definition in_ids (ids : list Z) (id : Z) : bool := existsb (Z.eqb id) ids.
Definition forget (ids : list Z) (b : DeviceBackup) : DeviceBackup :=
  match previous_backup_id b with
  | Some p => if in_ids ids p then b {{ previous_backup_id := None }} else b
  | None => b
  end.

(** [prune] *)
Definition prune (s : store) (now : Z) : store * Z :=
  let ids := prune_ids s now in
  (s {{ backups := List.filter (fun b => negb (in_ids ids (backup_id b))) (map (forget ids) (backups s)) }},
   Z.of_nat (length ids)).

(** ** Reachable tables

    [ever] remembers every row saved and not deleted with its asset. *)
Record system : Type := System { table : store; ever : list DeviceBackup }.

(** A row that was just built: no change is noted on it yet. *)
Definition blank (b : DeviceBackup) : bool := is_none (change_origin b) && is_none (changed b).
Definition fresh_id (s : store) (b : DeviceBackup) : bool := forallb (fun c => backup_id c <? backup_id b) (backups s).
Definition drop_asset (a : Z) (l : list DeviceBackup) : list DeviceBackup :=
  List.filter (fun b => negb (asset_id b =? a)) l.
Definition confirm (id now : Z) (b : DeviceBackup) : DeviceBackup :=
  if backup_id b =? id then b {{ confirmed_at := Some now }} else b.

Inductive step : system -> system -> Prop :=
| step_save s e b now created :
    fresh_id s b = true -> blank b = true -> asset_id b <> 0 ->
    step (System s e)
      (System (save s now created b)
              (e ++ [_note_change s now created b]))
| step_save_noted s e b now :
    (* a group run notes the change itself before it adds the row *)
    fresh_id s b = true -> blank b = true -> asset_id b <> 0 ->
    let b' := note_change s (b {{ created_at := now }}) (latest s (asset_id b) None) in
    step (System s e)
      (System (save s now (Some now) b')
              (e ++ [_note_change s now (Some now) b']))
| step_confirm s e id now :
    step (System s e) (System (s {{ backups := map (confirm id now) (backups s) }}) e)
| step_prune s e now : step (System s e) (System (fst (prune s now)) e)
| step_settings s e days : step (System s e) (System (save_settings s days) e)
| step_actions s e hs rs :
    step (System s e) (System (s {{ hardenings := hs }} {{ restores := rs }}) e)
| step_delete_asset s e a :
    step (System s e) (System (s {{ backups := drop_asset a (backups s) }}) (drop_asset a e)).

Inductive reachable : system -> Prop :=
| reach_start d : reachable (System (Store [] [] [] d) [])
| reach_step s s' : reachable s -> step s s' -> reachable s'.

(** What no later change of a row touches. *)
Record same_row (c b : DeviceBackup) : Prop := SameRow {
  same_id : backup_id c = backup_id b; same_asset : asset_id c = asset_id b;
  same_type : device_type c = device_type b; same_content : config_content c = config_content b;
  same_changed : changed c = changed b }.

(** Two rows saved of one asset, the second noted as a duplicate of the
    first: it names it as its previous row, and the comparison of the two
    made with the second's device type (with the first's, where the second
    has none) counts no line added and none removed. *)
Record duplicates (saved : list DeviceBackup) (p b : DeviceBackup) : Prop := Duplicates {
  dup_saved : p ∈ saved /\ b ∈ saved; dup_asset : asset_id p = asset_id b;
  dup_noted : changed b = Some false; dup_link : previous_backup_id b = Some (backup_id p);
  dup_counts : counts (compare (or_type (device_type b) (device_type p)) (config_content p) (config_content b)) = (0, 0) }.

(** A row of the table that is not a duplicate is the row that was saved at
    the head of the duplicates [b] belongs to. *)
Definition covered (s : system) (b : DeviceBackup) : Prop :=
  exists c p, c ∈ backups (table s) /\ is_false (changed c) = false
              /\ p ∈ ever s /\ same_row c p /\ rtc (duplicates (ever s)) p b.
Record inv (s : system) : Prop := Inv {
  inv_covered : forall b, b ∈ ever s -> covered s b;
  inv_ever : forall b, b ∈ backups (table s) -> exists b', b' ∈ ever s /\ same_row b b' }.

(** [delete_backup] (src/app/modules/backup/router.py): the row goes, and the
    foreign keys that name it are set to null. *)
Definition clear_ref (id : Z) (o : option Z) : option Z := match o with Some n => if n =? id then None else o | None => None end.
Definition delete_backup (s : store) (id : Z) : option store :=
  if existsb (fun b => backup_id b =? id) (backups s) then
    Some (s {{ backups := List.filter (fun b => negb (backup_id b =? id)) (map (forget [id]) (backups s)) }}
            {{ restores := map (fun r => r {{ restored_from := clear_ref id (restored_from r) }}
                                           {{ pre_restore_backup_id := clear_ref id (pre_restore_backup_id r) }})
                               (restores s) }})
  else None.

(** ** Lemmas *)
Lemma greatest_in {A} (key : A -> Z * Z) l x : greatest key l = Some x -> x ∈ l.
Proof.
  unfold greatest. cut (forall best, foldl (better key) best l = Some x -> best = Some x \/ x ∈ l).
  { intros H [?|?]%H; done. }
  induction l as [|y l IH]; intros best; simpl; [auto|].
  rewrite elem_of_cons. intros [Hb|Hx]%IH; [|auto].
  destruct best as [z|]; simpl in Hb; [|right; left; congruence].
  case_match; [right; left; congruence|auto].
Qed.

Lemma latest_spec s asset before p :
  latest s asset before = Some p -> p ∈ backups s /\ asset_id p = asset.
Proof.
  intros (H & Hp)%greatest_in%elem_filter. bool_prop. done.
Qed.

Lemma in_ids_spec ids id : in_ids ids id = true <-> id ∈ ids.
Proof.
  unfold in_ids. rewrite existsb_exists, list_elem_of_In. split.
  - intros (x & Hx & ->%Z.eqb_eq). done.
  - intros H. exists id. by rewrite Z.eqb_refl.
Qed.

Lemma forget_id ids b : backup_id (forget ids b) = backup_id b.
Proof. unfold forget. repeat case_match; done. Qed.
Lemma forget_data ids b :
  asset_id (forget ids b) = asset_id b /\ changed (forget ids b) = changed b
  /\ config_content (forget ids b) = config_content b /\ created_at (forget ids b) = created_at b
  /\ confirmed_at (forget ids b) = confirmed_at b /\ hardening_action_id (forget ids b) = hardening_action_id b.
Proof. unfold forget. repeat case_match; done. Qed.

#[export] Instance same_row_equiv : Equivalence same_row.
Proof.
  split; [by intros ?| |]; [intros ? ? []; by split|]. intros ? ? ? [] []. split; congruence.
Qed.
Lemma forget_same ids b : same_row (forget ids b) b.
Proof. unfold forget. repeat case_match; done. Qed.
Lemma confirm_same id now b : same_row (confirm id now b) b.
Proof. unfold confirm. by case_match. Qed.

(** The ids of the table grow. *)
Definition ids_unique (s : store) : Prop := NoDup (map backup_id (backups s)).
Definition links_ok (s : store) : Prop :=
  forall b p, b ∈ backups s -> previous_backup_id b = Some p -> exists c, c ∈ backups s /\ backup_id c = p.

Lemma unique_row s b c : ids_unique s -> b ∈ backups s -> c ∈ backups s -> backup_id b = backup_id c -> b = c.
Proof.
  unfold ids_unique. induction (backups s) as [|x l IH]; simpl; [by intros _ ?%elem_of_nil|].
  intros [Hn Hd]%list.NoDup_cons. rewrite !elem_of_cons. intros [->|Hb] [->|Hc] E; auto.
  - destruct Hn. rewrite E. apply list_elem_of_fmap. eauto.
  - destruct Hn. rewrite <- E. apply list_elem_of_fmap. eauto.
Qed.

Lemma prune_ids_spec s now b :
  ids_unique s -> b ∈ backups s ->
  in_ids (prune_ids s now) (backup_id b) = expendable s (now - get_settings s * day_us) b.
Proof.
  intros Hu Hb. apply eq_true_iff_eq. rewrite in_ids_spec. unfold prune_ids. rewrite list_elem_of_fmap. split.
  - intros (c & E & [Hc He]%elem_filter). by rewrite (unique_row s b c).
  - intros He. exists b. by rewrite elem_filter.
Qed.

Lemma prune_rows s now c :
  ids_unique s ->
  c ∈ backups (fst (prune s now)) <->
  exists b, b ∈ backups s /\ expendable s (now - get_settings s * day_us) b = false
            /\ c = forget (prune_ids s now) b.
Proof.
  intros Hu. simpl. rewrite elem_filter, list_elem_of_fmap. split.
  - intros [(b & -> & Hb) H]. rewrite forget_id, prune_ids_spec in H by done. exists b.
    by apply negb_true_iff in H.
  - intros (b & Hb & He & ->). rewrite forget_id, prune_ids_spec, He by done. eauto.
Qed.

#[local] Notation note := note_change.
#[local] Notation hook := _note_change.

Lemma note_keeps s b previous :
  backup_id (note s b previous) = backup_id b /\ asset_id (note s b previous) = asset_id b
  /\ config_content (note s b previous) = config_content b /\ device_type (note s b previous) = device_type b.
Proof. unfold note_change. destruct previous; [|done]. repeat case_match; done. Qed.

Lemma note_noted s b previous : is_noted (note s b previous) = true.
Proof. unfold note_change. destruct previous; [|done]. repeat case_match; done. Qed.

Lemma note_unchanged s b previous :
  is_false (changed (note s b previous)) = true ->
  exists p, previous = Some p /\ changed (note s b previous) = Some false
    /\ previous_backup_id (note s b previous) = Some (backup_id p)
    /\ counts (compare (or_type (device_type b) (device_type p)) (config_content p) (config_content b)) = (0, 0).
Proof.
  unfold note_change. destruct previous as [p|]; [|done]. destruct (counts _) as [a r] eqn:Ec.
  destruct ((a =? 0) && (r =? 0)) eqn:E; [|by repeat case_match]. intros _. bool_prop. subst.
  by exists p.
Qed.

Lemma hook_fresh s now created b :
  blank b = true -> asset_id b <> 0 ->
  hook s now created b = note s (b {{ created_at := or_else created now }}) (latest s (asset_id b) created).
Proof.
  unfold blank, _note_change, is_noted. intros H Ha. bool_prop.
  destruct b as [? a ? ? ? ? ? ? ? ? [] ? ?]; simpl in *; [done|].
  by rewrite (proj2 (Z.eqb_neq _ _) Ha).
Qed.

Lemma hook_noted s now b : is_noted b = true -> created_at b = now -> hook s now (Some now) b = b.
Proof. unfold _note_change, is_noted. destruct b; simpl. intros H ->. by rewrite H. Qed.

(** Rows of one asset stay covered while the saved rows of the asset and its
    rows that are no duplicates stay. *)
Lemma duplicates_mono e e' p b :
  (forall c, c ∈ e -> asset_id c = asset_id b -> c ∈ e') ->
  rtc (duplicates e) p b -> asset_id p = asset_id b /\ rtc (duplicates e') p b.
Proof.
  intros He. induction 1 as [b|p q b [Hs Ha Hn Hl Hc] _ IH]; [by split; [|apply rtc_refl]|].
  destruct (IH He) as [E Hr]. split; [congruence|]. eapply rtc_l; [|exact Hr].
  split; [|done..]. split; apply He; try apply Hs; congruence.
Qed.

Lemma covered_mono s s' b :
  (forall c, c ∈ ever s -> asset_id c = asset_id b -> c ∈ ever s') ->
  (forall c, c ∈ backups (table s) -> asset_id c = asset_id b -> is_false (changed c) = false ->
             exists c', c' ∈ backups (table s') /\ same_row c' c) ->
  covered s b -> covered s' b.
Proof.
  intros He H (c & p & Hc & Hch & Hp & Hs & Hr). destruct (duplicates_mono _ _ _ _ He Hr) as [Ea Hr'].
  assert (Eb : asset_id c = asset_id b) by (rewrite (same_asset _ _ Hs); exact Ea).
  destruct (H c Hc Eb Hch) as (c' & Hc' & Hs').
  exists c', p. split_and!; [done|by rewrite (same_changed _ _ Hs')|by apply He|by rewrite Hs'|done].
Qed.

(** A saved row is covered: by itself, or by what covers the row it equals. *)
Lemma inv_save s e b b' p :
  inv (System s e) ->
  b' = note s b p -> (forall q, p = Some q -> q ∈ backups s /\ asset_id q = asset_id b) ->
  inv (System (s {{ backups := backups s ++ [b'] }}) (e ++ [b'])).
Proof.
  intros Hinv Hb Hp.
  assert (Hold : forall d, covered (System s e) d -> covered (System (s {{ backups := backups s ++ [b'] }}) (e ++ [b'])) d).
  { intros d. apply covered_mono; simpl; intros c Hc; [intros _; apply elem_of_app; by left|].
    intros _ _. exists c. split; [apply elem_of_app; by left|done]. }
  destruct Hinv as [Hcov Hever].
  split; simpl; intros c; rewrite elem_of_app, list_elem_of_singleton; intros [Hc| ->].
  - by apply Hold, Hcov.
  - destruct (is_false (changed b')) eqn:Ef.
    + rewrite Hb in Ef. apply note_unchanged in Ef as (q & -> & Hch & Hl & Hu). destruct (Hp q eq_refl) as [Hq Haq].
      destruct (Hever q Hq) as (q' & Hq' & Hs). destruct (Hold _ (Hcov q' Hq')) as (c & r & Hc & Hf & Hr & Hsr & Hrtc).
      exists c, r. split_and!; [done..|]. eapply rtc_r; [exact Hrtc|].
      destruct (note_keeps s b (Some q)) as (Ei & Ea & Ec & Et). rewrite <- Hb in *. destruct Hs as [? ? Et' ? ?]. split; simpl.
      * split; apply elem_of_app; [by left|right; by apply list_elem_of_singleton].
      * congruence.
      * done.
      * congruence.
      * rewrite Et, Ec, <- Et'. congruence.
    + exists b', b'. simpl. split_and!; [apply elem_of_app; right; by apply list_elem_of_singleton|done| |done|apply rtc_refl].
      apply elem_of_app. right. by apply list_elem_of_singleton.
  - destruct (Hever c Hc) as (c' & ? & ?). exists c'. rewrite elem_of_app. auto.
  - exists b'. rewrite elem_of_app, list_elem_of_singleton. split; [by right|done].
Qed.
Lemma note_created s b previous : created_at (note s b previous) = created_at b.
Proof. unfold note_change. destruct previous; [|done]. repeat case_match; done. Qed.

Lemma fresh_same s b b' : backup_id b = backup_id b' -> fresh_id s b = fresh_id s b'.
Proof. unfold fresh_id. by intros ->. Qed.

Lemma unique_save s b' : ids_unique s -> fresh_id s b' = true -> ids_unique (s {{ backups := backups s ++ [b'] }}).
Proof.
  unfold ids_unique, fresh_id. simpl. rewrite map_app. intros Hu Hf. apply list.NoDup_app. split_and!; [done| |].
  - simpl. intros id (c & -> & Hc)%list_elem_of_fmap. rewrite list_elem_of_singleton. intros E.
    apply list_elem_of_In in Hc. rewrite forallb_forall in Hf. apply Hf in Hc. bool_prop. lia.
  - simpl. apply list.NoDup_singleton.
Qed.

Lemma unique_filter s p f :
  (forall b, backup_id (f b) = backup_id b) -> ids_unique s ->
  ids_unique (s {{ backups := List.filter p (map f (backups s)) }}).
Proof.
  unfold ids_unique. intros Hf. simpl. induction (backups s) as [|b l IH]; simpl; [done|].
  intros [Hn Hd]%list.NoDup_cons. destruct (p (f b)); simpl; [|auto].
  apply list.NoDup_cons. split; [|auto]. rewrite Hf. contradict Hn.
  apply list_elem_of_fmap in Hn as (c & E & [Hc _]%elem_filter). apply list_elem_of_fmap in Hc as (d & -> & Hd').
  apply list_elem_of_fmap. exists d. by rewrite Hf in E.
Qed.

Lemma unique_step s s' : ids_unique (table s) -> step s s' -> ids_unique (table s').
Proof.
  intros Hu Hst. destruct Hst; simpl in *; try done.
  - apply unique_save; [done|]. rewrite (fresh_same _ _ b); [done|]. rewrite hook_fresh by done.
    by rewrite (proj1 (note_keeps _ _ _)).
  - unfold save. rewrite hook_noted by (apply note_noted || by unfold b'; rewrite note_created).
    apply unique_save; [done|]. rewrite (fresh_same _ _ b); [done|]. unfold b'. by rewrite (proj1 (note_keeps _ _ _)).
  - unfold ids_unique in *. simpl. rewrite map_map.
    erewrite map_ext; [done|]. intros c. unfold confirm. by case_match.
  - apply unique_filter; [apply forget_id|done].
  - unfold drop_asset. rewrite <- (map_id (backups s)). by apply unique_filter.
Qed.

Lemma prune_kept s now c :
  ids_unique s -> c ∈ backups (fst (prune s now)) -> exists b, b ∈ backups s /\ same_row c b.
Proof.
  intros Hu (b & Hb & _ & ->)%prune_rows; [|done]. exists b. split; [done|apply forget_same].
Qed.

(** A change of the table that keeps the saved rows keeps the invariant when
    what it leaves are old rows and it leaves every row that is no duplicate. *)
Lemma inv_table s s' e :
  (forall c, c ∈ backups s -> is_false (changed c) = false -> exists c', c' ∈ backups s' /\ same_row c' c) ->
  (forall c, c ∈ backups s' -> exists b, b ∈ backups s /\ same_row c b) ->
  inv (System s e) -> inv (System s' e).
Proof.
  intros Hkeep Hold [Hcov Hever]. split; simpl in *.
  - intros b Hb. eapply covered_mono, Hcov, Hb; simpl; auto.
  - intros c (b & Hb & Hs)%Hold. destruct (Hever b Hb) as (b' & ? & ?). exists b'. by rewrite Hs.
Qed.

Lemma table_inv_step s s' : ids_unique (table s) -> inv s -> step s s' -> inv s'.
Proof.
  intros Hu Hinv Hst. destruct Hst as [s e b now created Hf Hb Ha|s e b now Hf Hb Ha b'|s e id now|s e now|s e d|s e hs rs|s e a].
  - unfold save. rewrite hook_fresh by done.
    eapply (inv_save s e (b {{ created_at := _ }})); [done|done|]. intros q Hq. by apply latest_spec in Hq.
  - unfold save. rewrite hook_noted by (apply note_noted || by unfold b'; rewrite note_created). subst b'.
    eapply (inv_save s e (b {{ created_at := _ }})); [done|done|]. intros q Hq. by apply latest_spec in Hq.
  - eapply inv_table, Hinv; simpl.
    + intros c Hc _. exists (confirm id now c). split; [apply list_elem_of_fmap; eauto|apply confirm_same].
    + intros b (c & -> & Hc)%list_elem_of_fmap. exists c. split; [done|apply confirm_same].
  - cbn [table] in Hu. eapply inv_table, Hinv; [|intros c; by apply prune_kept].
    intros c Hc Hch. exists (forget (prune_ids s now) c). split; [|apply forget_same].
    apply prune_rows; [done|]. exists c. split_and!; [done| |done]. unfold expendable. by rewrite Hch, andb_false_r.
  - by apply (inv_table s); [intros c; exists c|intros c; exists c|].
  - by apply (inv_table s); [intros c; exists c|intros c; exists c|].
  - destruct Hinv as [Hcov Hever]. split; simpl in *.
    + intros b [Hb Hn]%elem_filter. eapply covered_mono, Hcov, Hb; simpl.
      * intros c Hc Hac. apply elem_filter. by rewrite Hac.
      * intros c Hc Hac _. exists c. split; [|done]. apply elem_filter. by rewrite Hac.
    + intros b [Hb Hn]%elem_filter. destruct (Hever b Hb) as (b' & ? & Hs). exists b'.
      split; [|done]. apply elem_filter. by rewrite <- (same_asset _ _ Hs).
Qed.

Lemma reachable_inv s : reachable s -> ids_unique (table s) /\ inv s.
Proof.
  induction 1 as [d|s s' _ [Hu Hi] Hst].
  - split; [by apply list.NoDup_nil|]. split; by intros b ?%elem_of_nil.
  - split; [by eapply unique_step|by eapply table_inv_step].
Qed.

Lemma last_exists l b : b ∈ l -> exists m, m ∈ l /\ asset_id m = asset_id b /\ is_last l m = true.
Proof.
  cut (forall n (c : DeviceBackup), c ∈ l -> asset_id c = asset_id b ->
        Nat.le (length (List.filter (fun d => (asset_id d =? asset_id b) && (backup_id c <? backup_id d)) l)) n ->
        exists m, m ∈ l /\ asset_id m = asset_id b /\ is_last l m = true).
  { intros H Hb. by eapply (H _ b Hb eq_refl). }
  induction n as [|n IH]; intros c Hc Ha Hn.
  - exists c. split_and!; [done|done|]. apply forallb_forall. intros d Hd.
    destruct (List.filter _ l) as [|x t] eqn:E in Hn; [|simpl in Hn; lia].
    assert (Hx : d ∉ @nil DeviceBackup) by apply not_elem_of_nil.
    rewrite <- E, elem_filter in Hx. apply list_elem_of_In in Hd. rewrite Ha.
    destruct (asset_id d =? asset_id b) eqn:E1; [|done]. simpl. apply Z.leb_le. apply Z.nlt_ge. intros Hlt.
    apply Hx. split; [done|]. apply andb_true_iff. split; [done|by apply Z.ltb_lt].
  - destruct (List.filter (fun d => (asset_id d =? asset_id b) && (backup_id c <? backup_id d)) l) as [|x t] eqn:E.
    + apply (IH c Hc Ha). rewrite E. simpl. lia.
    + assert (Hx : x ∈ x :: t) by by left. rewrite <- E, elem_filter in Hx. destruct Hx as [Hx Hp]. bool_prop.
      apply (IH x Hx); [done|]. rewrite <- E in Hn. apply Nat.lt_succ_r. eapply Nat.lt_le_trans; [|exact Hn].
      apply filter_shrinks with x; [done| | |].
      * intros d. intros. bool_prop. rewrite (proj2 (Z.eqb_eq _ _)) by done. simpl. apply Z.ltb_lt. lia.
      * apply andb_true_iff. split; [by apply Z.eqb_eq|by apply Z.ltb_lt].
      * apply andb_false_iff. right. apply Z.ltb_ge. lia.
Qed.

Lemma is_last_spec l b : is_last l b = true <-> forall c, c ∈ l -> asset_id c = asset_id b -> backup_id c <= backup_id b.
Proof.
  unfold is_last. rewrite forallb_forall. setoid_rewrite <- list_elem_of_In. split; intros H c Hc.
  - intros E. apply H in Hc. rewrite E, Z.eqb_refl in Hc. by apply Z.leb_le.
  - destruct (asset_id c =? asset_id b) eqn:E; [|done]. apply Z.leb_le, H; [done|by apply Z.eqb_eq].
Qed.

(** Forgetting pruned ids and dropping rows leaves the same last rows. *)
Lemma is_last_pruned s now b :
  ids_unique s -> b ∈ backups s ->
  is_last (backups (fst (prune s now))) (forget (prune_ids s now) b) = is_last (backups s) b.
Proof.
  intros Hu Hb. apply eq_true_iff_eq. rewrite !is_last_spec, forget_id, (proj1 (forget_data _ _)). split; intros H c Hc.
  - intros Ea. destruct (last_exists (backups s) b Hb) as (m & Hm & Ham & Hlast).
    assert (He : expendable s (now - get_settings s * day_us) m = false).
    { unfold expendable. by rewrite Hlast, !andb_false_r. }
    assert (Hk : forget (prune_ids s now) m ∈ backups (fst (prune s now))) by (apply prune_rows; eauto).
    apply H in Hk; [|by rewrite (proj1 (forget_data _ _))]. rewrite forget_id in Hk.
    rewrite is_last_spec in Hlast. specialize (Hlast c Hc). rewrite Ham in Hlast. specialize (Hlast Ea). lia.
  - apply prune_rows in Hc as (d & Hd & _ & ->); [|done]. rewrite (proj1 (forget_data _ _)), forget_id. by apply H.
Qed.

Lemma expendable_pruned s now before b :
  ids_unique s -> b ∈ backups s ->
  expendable (fst (prune s now)) before (forget (prune_ids s now) b) = expendable s before b.
Proof.
  intros Hu Hb. unfold expendable. rewrite is_last_pruned by done. rewrite forget_id.
  destruct (forget_data (prune_ids s now) b) as (_ & -> & _ & -> & Ec & ->). unfold unconfirmed_since. rewrite Ec. done.
Qed.

Lemma forget_previous ids b p : previous_backup_id (forget ids b) = Some p -> previous_backup_id b = Some p /\ in_ids ids p = false.
Proof. unfold forget. repeat case_match; simpl; intros; simplify_eq; done. Qed.

Module Example.
Definition row (id : Z) (text : string) : DeviceBackup :=
  Backup id 1 None (py text) None 0 None None None None None None None.
Definition saved (s : system) (b : DeviceBackup) (t : Z) : system :=
  System (save (table s) t None b)
         (ever s ++ [_note_change (table s) t None b]).
Definition start : system := System (Store [] [] [] None) [].
(** The same configuration twice, then another one. *)
Definition three : system :=
  saved (saved (saved start (row 1 "hostname a") 0) (row 2 "hostname a") day_us) (row 3 "hostname b") (2 * day_us).

Lemma saved_reachable s b t :
  reachable s -> fresh_id (table s) b = true -> blank b = true -> asset_id b <> 0 ->
  reachable (saved s b t).
Proof. intros Hs Hf Hb Ha. destruct s. eapply reach_step; [exact Hs|]. by constructor. Qed.

Lemma three_reachable : reachable three.
Proof. repeat (apply saved_reachable; [|vm_compute; reflexivity|vm_compute; reflexivity|discriminate]). apply reach_start. Qed.
End Example.

(** C29: No configuration version is lost to retention: whatever sequence of
    saved backups, confirmations, hardenings, restores, retention runs and
    settings, for every backup ever saved of an asset that still exists the
    table holds a row [c] of that asset that is no duplicate, saved as [p],
    and from [p] the links the rows were saved with lead to the backup: each
    row on the way was noted unchanged, names the one before it as its
    previous row, and the comparison of the two with the row's own device type
    (the previous row's, where it has none) counts no line added and none
    removed.  A row that starts such a chain is never deleted by [prune]. *)
Theorem versions_kept s b :
  reachable s -> b ∈ ever s ->
  exists c p, c ∈ backups (table s) /\ is_false (changed c) = false
    /\ p ∈ ever s /\ same_row c p /\ asset_id c = asset_id b
    /\ rtc (duplicates (ever s)) p b.
Proof.
  intros [_ [H _]]%reachable_inv Hb. destruct (H b Hb) as (c & p & ? & ? & ? & Hs & Hr). exists c, p.
  split_and!; [done..| |done]. rewrite (same_asset _ _ Hs). by apply (duplicates_mono _ (ever s)) in Hr as [? _].
Qed.

Lemma versions_kept_witness :
  exists b c, b ∈ ever Example.three /\ backup_id b = 2 /\ c ∈ backups (table Example.three)
    /\ asset_id c = 1 /\ is_false (changed c) = false.
Proof.
  set (b := nth 1 (ever Example.three) (Example.row 0 "")).
  assert (Hb : b ∈ ever Example.three) by (apply list_elem_of_In; vm_compute; tauto).
  destruct (versions_kept _ b Example.three_reachable Hb) as (c & p & Hc & Hf & _ & _ & Ha & _).
  exists b, c. split; [exact Hb|]. split; [vm_compute; reflexivity|]. split; [exact Hc|].
  split; [rewrite Ha; vm_compute; reflexivity|exact Hf].
Defined.

(** Nothing weaker holds the row and its head together: two texts a Linux
    comparison cannot tell apart are two versions of a Fortinet device. *)
Example family_matters :
  let s := Example.saved (Example.saved Example.start
             ((Example.row 1 "config system global") {{ device_type := Some (py "fortinet") }}) 0)
             ((Example.row 2 "config system dns") {{ device_type := Some (py "fortinet") }}) day_us in
  map changed (ever s) = [None; Some true]
  /\ counts (compare (Some (py "linux")) (py "config system global") (py "config system dns")) = (0, 0).
Proof. vm_compute. done. Qed.

(** [prune] deletes exactly the rows it describes and nothing else: the
    rest keep their order and their data, except that a link to a deleted row
    is cleared, so no link dangles; the count it returns is the number of
    rows deleted; the last row of an asset, a first or changed version, a row
    of a hardening and a row a restore used are never deleted; and running it
    again at the same time deletes nothing. *)
Theorem prune_exact s now :
  ids_unique s -> links_ok s ->
  let before := now - get_settings s * day_us in
  let s' := fst (prune s now) in
  backups s' = map (forget (prune_ids s now)) (List.filter (fun b => negb (expendable s before b)) (backups s))
  /\ snd (prune s now) = Z.of_nat (length (backups s)) - Z.of_nat (length (backups s'))
  /\ links_ok s'
  /\ (forall b, b ∈ backups s ->
        is_last (backups s) b = true \/ is_false (changed b) = false \/ hardening_action_id b <> None
        \/ used s (backup_id b) = true \/ before <= created_at b ->
        forget (prune_ids s now) b ∈ backups s')
  /\ snd (prune s' now) = 0.
Proof.
  intros Hu Hl before s'.
  assert (E : backups s' = map (forget (prune_ids s now)) (List.filter (fun b => negb (expendable s before b)) (backups s))).
  { unfold s', prune. simpl.
    assert (H : forall l, (forall b, b ∈ l -> b ∈ backups s) ->
      List.filter (fun b => negb (in_ids (prune_ids s now) (backup_id b))) (map (forget (prune_ids s now)) l)
      = map (forget (prune_ids s now)) (List.filter (fun b => negb (expendable s before b)) l)).
    { induction l as [|b l IH]; intros Hin; simpl; [done|].
      rewrite forget_id, prune_ids_spec by (done || apply Hin; by left). fold before.
      rewrite IH by (intros; apply Hin; by right). by destruct (expendable s before b). }
    by apply H. }
  split_and!; [done| | | |].
  - rewrite E, length_map. unfold prune. simpl. unfold prune_ids. rewrite length_map. fold before.
    clear. induction (backups s) as [|b l IH]; simpl; [done|]. destruct (expendable s before b); simpl; lia.
  - intros b p Hb Hp. unfold s' in Hb. apply prune_rows in Hb as (b0 & Hb0 & _ & ->); [|done].
    apply forget_previous in Hp as [Hp Hn]. destruct (Hl _ _ Hb0 Hp) as (c & Hc & <-).
    exists (forget (prune_ids s now) c). split; [|apply forget_id]. apply prune_rows; [done|]. exists c.
    rewrite prune_ids_spec in Hn by done. done.
  - intros b Hb Hk. apply prune_rows; [done|]. exists b. split_and!; [done| |done]. apply not_true_is_false.
    unfold expendable, is_none. intros He. bool_prop. destruct (hardening_action_id b); [done|].
    destruct Hk as [?|[?|[?|[?|?]]]]; try congruence. subst before. lia.
  - change (Z.of_nat (length (prune_ids s' now)) = 0). unfold prune_ids at 1.
    replace (List.filter _ (backups s')) with (@nil DeviceBackup); [done|]. symmetry.
    apply elem_of_nil_inv. intros c [Hc He]%elem_filter. unfold s' in Hc.
    apply prune_rows in Hc as (b & Hb & Hn & ->); [|done]. unfold s' in He.
    rewrite expendable_pruned in He by done. change (get_settings (fst (prune s now))) with (get_settings s) in He.
    fold before in Hn. fold before in He. congruence.
Qed.

Lemma prune_exact_witness : snd (prune (fst (prune (table Example.three) (100 * day_us))) (100 * day_us)) = 0
  /\ snd (prune (table Example.three) (100 * day_us)) = 1.
Proof.
  split; [|vm_compute; reflexivity]. apply (prune_exact (table Example.three) (100 * day_us)).
  - apply (bool_decide_unpack _). vm_compute. exact I.
  - intros b p Hb. apply list_elem_of_In in Hb. vm_compute in Hb. destruct Hb as [<-|[<-|[<-|[]]]]; vm_compute; intros [= <-].
    + exists (nth 0 (backups (table Example.three)) (Example.row 0 "")). split; [apply list_elem_of_In; vm_compute; tauto|vm_compute; reflexivity].
    + exists (nth 1 (backups (table Example.three)) (Example.row 0 "")). split; [apply list_elem_of_In; vm_compute; tauto|vm_compute; reflexivity].
Defined.

(** The protection of "the first backup of an asset" is of the row noted
    as the first, not of the oldest one left: after a user deletes it, its
    duplicate is the only copy of that configuration and the next retention
    run deletes it. *)
Theorem deleted_first_unprotects :
  exists s s1 d, reachable s
    /\ delete_backup (table s) 1 = Some s1
    /\ d ∈ backups s1 /\ (forall c, c ∈ backups s1 -> asset_id c = asset_id d -> backup_id d <= backup_id c)
    /\ forall c, c ∈ backups (fst (prune s1 (100 * day_us))) -> config_content c <> config_content d.
Proof.
  exists Example.three. eexists. exists (forget [1] (nth 1 (ever Example.three) (Example.row 0 ""))).
  split; [apply Example.three_reachable|]. split; [vm_compute; reflexivity|].
  split; [apply list_elem_of_In; vm_compute; tauto|]. split.
  - intros c Hc _. apply list_elem_of_In in Hc. vm_compute in Hc. destruct Hc as [<-|[<-|[]]]; vm_compute; congruence.
  - intros c Hc. apply list_elem_of_In in Hc. vm_compute in Hc. destruct Hc as [<-|[]]. vm_compute. congruence.
Qed.
