(* ===== verification/RestoreJob.v ===== *)
(** * The restore job (src/app/modules/backup/restore/service.py, drivers.py)

    [run_restore] drives a device through the contract of the drivers, the
    class [Driver].  The code is a sequence of calls any of which may raise:
    it is translated to a monad over the device, the job's row and the
    database, whose results are a value, an exception or, for the one
    unbounded loop, the fuel's end.  Times are microseconds. *)
From S2P Require Import Prelude PyStr CiscoTree ConfigTree FileBundle Risk.

(** ** What the code works with *)
(** An exception: what a device refused, or anything else. *)
Inductive exc : Type := RestoreApplyError (message : pystr) | Raised (type_name message : pystr).
Definition exc_text (e : exc) : pystr := match e with RestoreApplyError m | Raised _ m => m end.
Definition exc_name (e : exc) : pystr := match e with RestoreApplyError _ => py "RestoreApplyError" | Raised t _ => t end.

(** [RestorePlan] *)
Record RestorePlan : Type := Plan {
  plan_diff : ConfigDiff; commands : list pystr; bundle : option BundlePlan; risks : list risk }.
(** [RestorePlan.is_empty] *)
Definition plan_is_empty (p : RestorePlan) : bool :=
  is_empty (plan_diff p) &&
  match bundle p with
  | None => true
  | Some b => match write b, remove b with [], [] => true | _, _ => false end
  end.

(** The contract of a driver (the docstring of drivers.py), over the state of
    the driver object, the device and the clock; every operation may raise. *)
Class Driver (D : Type) : Type := {
  d_open : D -> res exc unit * D;
  d_close : D -> res exc unit * D;
  d_read_live : D -> res exc pystr * D;
  d_snapshot : D -> res exc pystr * D;
  d_auto_revert_available : D -> res exc (bool * pystr) * D;
  d_plan : pystr -> pystr -> D -> res exc RestorePlan * D;
  d_apply : RestorePlan -> option Z -> D -> res exc unit * D;
  d_confirm : D -> res exc unit * D;
  d_revert_now : D -> res exc unit * D;
  monotonic : D -> Z;
  sleep : Z -> D -> D }.

(** ** The job's row *)
Inductive job_status : Type :=
| JQueued | JConnecting | JBackingUp | JApplying | JVerifying | JSaving | JReverting
| JSucceeded | JReverted | JFailed.
#[global] Instance job_status_eq_dec : EqDecision job_status.
Proof. solve_decision. Defined.
(** RESTORE_ACTIVE_STATUSES, RESTORE_FINAL_STATUSES *)
Definition is_final (s : job_status) : bool := match s with JSucceeded | JReverted | JFailed => true | _ => false end.

Inductive event_status : Type := EDone | EFailed | EInfo.
Record event : Type := Event { step_name : pystr; event_status_of : event_status; event_message : pystr }.

Record JobRow : Type := Job {
  job_id : Z; family : pystr; backup_text : pystr; revert_minutes : Z; requested_by : option Z;
  status : job_status; auto_revert_armed : bool; pre_restore_backup_id : option Z;
  diff_summary : option (Z * Z * Z * list risk); events : list event; error : option pystr;
  job_started : bool; job_finished : bool; runner : pystr }.

(** The writes of the row's fields, named so that proofs do not unfold them. *)
Definition put_status (s : job_status) (r : JobRow) : JobRow := r {{ status := s }}.
Definition put_event (e : event) (r : JobRow) : JobRow := r {{ events := events r ++ [e] }}.
Definition put_final (s : job_status) (e : option pystr) (r : JobRow) : JobRow :=
  r {{ status := s }} {{ error := e }} {{ job_finished := true }}.
Definition put_undo (id : Z) (r : JobRow) : JobRow := r {{ pre_restore_backup_id := Some id }}.
Definition put_armed (b : bool) (r : JobRow) : JobRow := r {{ auto_revert_armed := b }}.
Definition put_summary (p : RestorePlan) (r : JobRow) : JobRow :=
  r {{ diff_summary := Some (added (plan_diff p), removed (plan_diff p),
                             Z.of_nat (length (sections (plan_diff p))), risks p) }}.
Definition put_started (r : JobRow) : JobRow := r {{ job_started := true }}.

(** What was done to the device, and the undo points stored, in order (kept
    to state the theorems). *)
Inductive call : Type :=
| COpen (ok : bool) | CClose | CRead (live : pystr) | CStored (text : pystr) | CApply (minutes : option Z) (ok : bool)
| CConfirm (ok : bool) | CRevert (ok : bool).

Record world (D : Type) : Type := World {
  dev : D; row : JobRow; undo : list (Z * pystr); audit : list bool; calls : list call }.
Arguments World {D}. Arguments dev {D}. Arguments row {D}. Arguments undo {D}. Arguments audit {D}. Arguments calls {D}.

(** ** The monad *)
Inductive result (A : Type) : Type := Ret (a : A) | Exc (e : exc) | Stuck.
Arguments Ret {A}. Arguments Exc {A}. Arguments Stuck {A}.

Section Monad.
Context {D : Type}.
Definition M (A : Type) : Type := world D -> result A * world D.
Definition ret {A} (a : A) : M A := fun w => (Ret a, w).
Definition bind {A B} (m : M A) (k : A -> M B) : M B :=
  fun w => match m w with (Ret a, w) => k a w | (Exc e, w) => (Exc e, w) | (Stuck, w) => (Stuck, w) end.
Definition raise {A} (e : exc) : M A := fun w => (Exc e, w).
(** [try: m except Exception as e: h e] *)
Definition try_ {A} (m : M A) (h : exc -> M A) : M A :=
  fun w => match m w with (Exc e, w) => h e w | r => r end.
Definition of_res {A} (r : res exc A) : M A := match r with Ok a => ret a | Raise e => raise e end.
Definition on_row (f : JobRow -> JobRow) : M unit :=
  fun w => (Ret tt, World (dev w) (f (row w)) (undo w) (audit w) (calls w)).
Definition get_row : M JobRow := fun w => (Ret (row w), w).
Definition store_undo (text : pystr) : M Z :=
  fun w => let id := Z.of_nat (S (length (undo w))) in
           (Ret id, World (dev w) (row w) (undo w ++ [(id, text)]) (audit w) (calls w ++ [CStored text])).
Definition log_action (ok : bool) : M unit :=
  fun w => (Ret tt, World (dev w) (row w) (undo w) (audit w ++ [ok]) (calls w)).
(** A call of the driver, and what it leaves in the record of calls. *)
Definition driver_call {A} (f : D -> res exc A * D) (c : res exc A -> list call) : M A :=
  fun w => let '(r, d) := f (dev w) in
           (match r with Ok a => Ret a | Raise e => Exc e end,
            World d (row w) (undo w) (audit w) (calls w ++ c r)).
Definition with_dev (f : D -> D) : M unit :=
  fun w => (Ret tt, World (f (dev w)) (row w) (undo w) (audit w) (calls w)).
Definition get_dev {A} (f : D -> A) : M A := fun w => (Ret (f (dev w)), w).
End Monad.
Arguments M D A : clear implicits.

Declare Scope job_scope.
Delimit Scope job_scope with job.
Notation "'do!' x := m 'in' k" := (bind m (fun x => k))
  (at level 10, x pattern, m at level 100, k at level 200) : job_scope.
Notation "'run!' m 'in' k" := (bind m (fun _ => k))
  (at level 10, m at level 100, k at level 200) : job_scope.
#[local] Open Scope job_scope.

Definition RECONNECT_ATTEMPTS : nat := 6.
Definition second : Z := 1000000.
Definition RECONNECT_DELAY : Z := 10 * second.
Definition REVERT_GRACE : Z := 120 * second.
Definition REVERT_POLL : Z := 30 * second.

(** ** The steps of the job *)
Section Job.
Context {D : Type} `{Driver D}.
Variable redact : pystr -> pystr.
(** sha256 of a text. *)
Variable sha256 : pystr -> pystr.
(** The credentials' address. *)
Variables (host : pystr) (port : Z).

(** [fingerprint] *)
Definition flat_text (n : node) : pystr :=
  join newline (map (fun dl => str_of_int (Z.of_nat (fst dl)) ++ py "|" ++ snd dl) (flatten 0 n)).
Definition tree_exc {A} (r : res tree_error A) : res exc A :=
  match r with
  | Ok a => Ok a
  | Raise IndexError => Raise (Raised (py "IndexError") (py "list index out of range"))
  | Raise NotInList => Raise (Raised (py "ValueError") (py "list.remove(x): x not in list"))
  end.
Definition key_exc {A} (r : res key_error A) : res exc A :=
  match r with Ok a => Ok a | Raise _ => Raise (Raised (py "KeyError") (py "'__text__'")) end.
Definition value_exc {A} (r : res value_error A) : res exc A :=
  match r with Ok a => Ok a | Raise (ValueError m) => Raise (Raised (py "ValueError") m) end.
Definition fingerprint (fam text : pystr) : res exc pystr :=
  let! body :=
    if bool_decide (fam = py "cisco") then Ok (flat_text (parse_cisco text))
    else if bool_decide (fam = py "fortinet") then let! t := tree_exc (parse_fortios text) in Ok (flat_text t)
    else Ok (dumps_files (parse_bundle text)) in
  Ok (sha256 body).

(** [configs_match]: whether they match, and how many lines differ. *)
Definition configs_match (fam backup live : pystr) : res exc (bool * Z) :=
  if bool_decide (fam = py "cisco") then
    let! (_, d) := key_exc (diff_cisco backup live) in Ok (is_empty d, added d + removed d)
  else if bool_decide (fam = py "fortinet") then
    let! (_, d) := tree_exc (diff_fortios backup live) in Ok (is_empty d, added d + removed d)
  else
    let! p := value_exc (plan_bundle backup live fam) in
    let d := bundle_diff_of fam p in
    Ok (bool_decide (sections d = []), Z.of_nat (length (flat_map lines (sections d)))).

(** [make_driver]: which families have a driver. *)
Definition SUPPORTED_FAMILIES : list pystr := map py ["cisco"; "fortinet"; "linux"; "apache"; "mongodb"]%string.
Definition supported (fam : pystr) : bool := existsb (fun f => bool_decide (f = fam)) SUPPORTED_FAMILIES.

(** [_Job.status], [_Job.event], [_Job.finish] *)
Definition set_status (s : job_status) : M D unit := on_row (put_status s).
Definition add_event (step : string) (s : event_status) (message : pystr) : M D unit :=
  on_row (put_event (Event (py step) s (redact message))).
Definition finish (s : job_status) (e : option pystr) : M D unit :=
  on_row (put_final s (redact <$> e)).

Definition open_ : M D unit := driver_call d_open (fun r => [COpen (is_ok r)]).
Definition close_ : M D unit := driver_call d_close (fun _ => [CClose]).
Definition read_live : M D pystr :=
  driver_call d_read_live (fun r => match r with Ok t => [CRead t] | Raise _ => [] end).
Definition snapshot : M D pystr := driver_call d_snapshot (fun _ => []).
Definition apply_ (p : RestorePlan) (minutes : option Z) : M D unit :=
  driver_call (d_apply p minutes) (fun r => [CApply minutes (is_ok r)]).
Definition confirm : M D unit := driver_call d_confirm (fun r => [CConfirm (is_ok r)]).
Definition revert_now : M D unit := driver_call d_revert_now (fun r => [CRevert (is_ok r)]).

(** [_reconnect]: up to [n] attempts. *)
Fixpoint reconnect_from (n : nat) : M D bool :=
  match n with
  | O => ret false
  | S n =>
      do! ok := try_ (run! open_ in ret true) (fun _ => ret false) in
      if ok then ret true
      else run! match n with O => ret tt | _ => with_dev (sleep RECONNECT_DELAY) end in reconnect_from n
  end.
Definition _reconnect : M D bool := reconnect_from RECONNECT_ATTEMPTS.

(** [_await_self_revert]: the wait, the attempts, the comparison. *)
Fixpoint wait_until (fuel : nat) (applied_at deadline : Z) : M D unit :=
  do! now := get_dev monotonic in
  if now - applied_at <? deadline then
    match fuel with
    | O => fun w => (Stuck, w)
    | S fuel => run! with_dev (sleep REVERT_POLL) in wait_until fuel applied_at deadline
    end
  else ret tt.
Fixpoint reopen_from (n : nat) : M D bool :=
  match n with
  | O => ret false
  | S n =>
      do! ok := try_ (run! open_ in ret true) (fun _ => run! with_dev (sleep REVERT_POLL) in ret false) in
      if ok then ret true else reopen_from n
  end.
Definition _await_self_revert (fuel : nat) (fam pre_text : pystr) (armed : bool) (minutes applied_at : Z) : M D unit :=
  if negb armed then
    run! add_event "verify" EFailed (py "NGCorion could not reconnect after applying the changes.") in
    finish JFailed (Some (py "Access was lost after the restore and no auto-revert was available. Restore the 'before restore' backup from the device console."))
  else
    run! set_status JReverting in
    run! add_event "verify" EFailed (py "Could not reconnect - waiting for the device to revert on its own (" ++ str_of_int minutes ++ py " min timer)") in
    run! wait_until fuel applied_at (minutes * 60 * second + REVERT_GRACE) in
    do! back := reopen_from (RECONNECT_ATTEMPTS * 2) in
    if negb back then
      finish JFailed (Some (py "The device is still unreachable after its auto-revert window. Check it from the console."))
    else
      do! text := read_live in
      do! (ok, _) := of_res (configs_match fam pre_text text) in
      if ok then
        run! add_event "revert" EDone (py "Access confirmed again - the device reverted to its previous configuration") in
        finish JReverted (Some (py "Access was lost after applying; the device reverted automatically."))
      else finish JFailed (Some (py "The device is reachable again but matches neither the backup nor its previous configuration.")).

Definition armed_minutes (r : JobRow) : option Z := if auto_revert_armed r then Some (revert_minutes r) else None.

(** Step 5: keep the changes. *)
Definition keep : M D unit :=
  do! r := get_row in
  run! set_status JSaving in
  run! confirm in
  run! add_event "save" EDone (py "Saved on the device" ++ (if auto_revert_armed r then py " - auto-revert cancelled" else [])) in
  finish JSucceeded None.

(** Step 4: reconnect and verify. *)
Definition verify (fuel : nat) (pre_id : Z) (pre_text : pystr) (applied_at : Z) : M D unit :=
  do! r := get_row in
  run! set_status JVerifying in
  run! close_ in
  do! back := _reconnect in
  if negb back then _await_self_revert fuel (family r) pre_text (auto_revert_armed r) (revert_minutes r) applied_at
  else
    run! add_event "verify" EDone (py "Reconnected over SSH - access survived the restore") in
    do! after := read_live in
    do! (ok, remaining) := of_res (configs_match (family r) (backup_text r) after) in
    if negb ok then
      run! add_event "verify" EFailed (str_of_int remaining ++ py " line(s) still differ from the backup") in
      if auto_revert_armed r then
        run! set_status JReverting in
        run! revert_now in
        run! add_event "revert" EDone (py "Changes reverted - the device is back on its previous configuration.") in
        finish JReverted (Some (py "Verification found " ++ str_of_int remaining ++ py " differing line(s); the restore was reverted."))
      else
        finish JFailed (Some (py "Verification found " ++ str_of_int remaining ++ py " differing line(s). Backup #"
                              ++ str_of_int pre_id ++ py " holds the previous configuration."))
    else
      run! add_event "verify" EDone (py "Live configuration matches the backup (0 differences)") in keep.

(** Step 3, when the device refused a command: undo. *)
Definition apply_refused (pre_id : Z) (e : pystr) : M D unit :=
  do! r := get_row in
  run! add_event "apply" EFailed e in
  if auto_revert_armed r then
    run! set_status JReverting in
    run! try_ (run! revert_now in add_event "revert" EDone (py "Unsaved changes reverted immediately."))
              (fun _ => add_event "revert" EInfo (py "Immediate revert failed; the device reverts on its own within "
                                                  ++ str_of_int (revert_minutes r) ++ py " minutes.")) in
    finish JReverted (Some e)
  else finish JFailed (Some (e ++ py " Earlier changes in this run may be applied; backup #" ++ str_of_int pre_id
                             ++ py " holds the previous configuration.")).

(** Steps 2 and 3: the undo point, then the changes. *)
Definition undo_and_apply (fuel : nat) (p : RestorePlan) : M D unit :=
  run! set_status JBackingUp in
  do! pre_text := snapshot in
  do! pre_id := store_undo pre_text in
  run! on_row (put_undo pre_id) in
  run! add_event "backup" EDone (py "Current configuration saved as backup #" ++ str_of_int pre_id ++ py " (before restore)") in
  run! set_status JApplying in
  do! r := get_row in
  do! outcome := try_ (run! apply_ p (armed_minutes r) in ret None)
                      (fun e => match e with RestoreApplyError m => ret (Some m) | Raised _ _ => raise e end) in
  match outcome with
  | Some m => apply_refused pre_id m
  | None =>
      run! add_event "apply" EDone (str_of_int (added (plan_diff p) + removed (plan_diff p)) ++ py " changed line(s) applied"
                                    ++ (if auto_revert_armed r then py " in revert mode - not saved yet" else [])) in
      do! applied_at := get_dev monotonic in
      verify fuel pre_id pre_text applied_at
  end.

(** The end of step 1: whether the device can undo on its own. *)
Definition arm (fuel : nat) (allow_without : bool) (p : RestorePlan) : M D unit :=
  do! (available, reason) := driver_call d_auto_revert_available (fun _ => []) in
  run! on_row (put_armed available) in
  if negb available && negb allow_without then
    run! add_event "connect" EFailed reason in
    finish JFailed (Some (py "Auto-revert is not available on this device and running without it was not confirmed. Nothing was changed."))
  else undo_and_apply fuel p.

(** Step 1: connect, read again, and decide whether the run may start. *)
Definition may_start (fuel : nat) (expected : pystr) (acknowledged allow_without : bool) : M D unit :=
  do! r := get_row in
  run! set_status JConnecting in
  run! (if supported (family r) then ret tt else raise (Raised (py "ValueError") (py "Restore is not supported for device type '" ++ family r ++ py "'"))) in
  run! open_ in
  run! add_event "connect" EDone (py "Connected over SSH to " ++ host ++ py ":" ++ str_of_int port) in
  do! live := read_live in
  do! fp := of_res (fingerprint (family r) live) in
  if negb (bool_decide (fp = expected)) then
    run! add_event "connect" EFailed (py "The device's configuration changed after the changes were reviewed.") in
    finish JFailed (Some (py "The device's configuration changed after you reviewed it. Nothing was changed - review the changes again."))
  else
    do! p := driver_call (d_plan (backup_text r) live) (fun _ => []) in
    if plan_is_empty p then
      run! add_event "verify" EDone (py "The device already matches the backup; nothing to change.") in
      finish JSucceeded None
    else
      let lockouts := List.filter is_lockout (risks p) in
      run! on_row (put_summary p) in
      match lockouts, acknowledged with
      | l :: _, false =>
          run! add_event "connect" EFailed (risk_message l) in
          finish JFailed (Some (py "This restore may lock NGCorion out and that was not acknowledged. Nothing was changed."))
      | _, _ =>
          arm fuel allow_without p
      end.

(** The [finally] of [run_restore]: the session is closed, the audit log written. *)
Definition conclude (fam : pystr) : M D unit :=
  run! (if supported fam then try_ close_ (fun _ => ret tt) else ret tt) in
  do! r := get_row in
  log_action (bool_decide (status r = JSucceeded)).

(** [run_restore]: the steps, the last resort, and what always happens. *)
Definition exc_message (e : exc) : pystr := exc_name e ++ py ": " ++ exc_text e.
Definition run_restore (fuel : nat) (expected : pystr) (acknowledged allow_without : bool) : M D unit :=
  do! r := get_row in
  run! on_row put_started in
  run! try_ (may_start fuel expected acknowledged allow_without)
            (fun e => run! add_event "error" EFailed (exc_message e) in finish JFailed (Some (exc_message e))) in
  conclude (family r).

(** ** What a run does to the device *)
(** A call that writes nothing and keeps nothing. *)
Definition quiet (c : call) : bool := match c with CApply _ _ | CConfirm _ => false | _ => true end.

(** What follows the changes: nothing kept, or kept after a new session read a
    configuration that matches the backup. *)
Inductive ending (fam backup : pystr) : list call -> result unit -> job_status -> Prop :=
| ending_quiet cs r s :
    forallb quiet cs = true -> (r = Ret tt -> s = JFailed \/ s = JReverted) -> ending fam backup cs r s
| ending_kept cs after n ok r s :
    forallb quiet cs = true -> configs_match fam backup after = Ok (true, n) ->
    (if ok : bool then r = Ret tt /\ s = JSucceeded else exists e, r = Exc e) ->
    ending fam backup (cs ++ [COpen true; CRead after; CConfirm ok]) r s.

Definition world_of {A} (x : result A * world D) : world D := snd x.

Lemma ending_prepend fam backup cs cs' r s :
  forallb quiet cs = true -> ending fam backup cs' r s -> ending fam backup (cs ++ cs') r s.
Proof.
  intros Hq [cs0 r0 s0 Hq0 Hr|cs0 after n ok r0 s0 Hq0 Hm Hr].
  - apply ending_quiet; [by rewrite forallb_app, Hq, Hq0|done].
  - rewrite app_assoc. eapply ending_kept; [by rewrite forallb_app, Hq, Hq0|exact Hm|exact Hr].
Qed.

(** A step leaves the database and the job as they are, apart from the status
    and the events, and only makes quiet calls. *)
Record calm {A} (w : world D) (x : result A * world D) (cs : list call) : Prop := Calm {
  calm_calls : calls (snd x) = calls w ++ cs;
  calm_quiet : forallb quiet cs = true;
  calm_undo : undo (snd x) = undo w;
  calm_audit : audit (snd x) = audit w;
  calm_row : row (snd x) = row w }.

(** The world after an operation of the driver. *)
Definition moved (w : world D) (d : D) (cs : list call) : world D :=
  World d (row w) (undo w) (audit w) (calls w ++ cs).

Lemma reconnect_step n w :
  reconnect_from (S n) w =
  match d_open (dev w) with
  | (Ok _, d) => (Ret true, moved w d [COpen true])
  | (Raise _, d) => reconnect_from n (moved w (match n with O => d | _ => sleep RECONNECT_DELAY d end) [COpen false])
  end.
Proof.
  cbn [reconnect_from]. unfold bind, try_, open_, driver_call, moved.
  destruct (d_open (dev w)) as [[[]|e] d]; [done|]. destruct n; [done|]. done.
Qed.

Lemma reopen_step n w :
  reopen_from (S n) w =
  match d_open (dev w) with
  | (Ok _, d) => (Ret true, moved w d [COpen true])
  | (Raise _, d) => reopen_from n (moved w (sleep REVERT_POLL d) [COpen false])
  end.
Proof.
  cbn [reopen_from]. unfold bind, try_, open_, driver_call, moved. by destruct (d_open (dev w)) as [[[]|e] d].
Qed.

Lemma moved_calm {A} (r : result A) w d cs : forallb quiet cs = true -> calm w (r, moved w d cs) cs.
Proof. by split. Qed.

Lemma calm_trans {A} w d cs (x : result A * world D) cs' :
  forallb quiet cs = true -> calm (moved w d cs) x cs' -> calm w x (cs ++ cs').
Proof.
  intros Hq [Hc Hq' Hu Ha Hr]. split; try done; [by rewrite Hc; simpl; rewrite <- app_assoc|by rewrite forallb_app, Hq, Hq'].
Qed.

Lemma reconnect_calm n w :
  exists cs b, calm w (reconnect_from n w) cs /\ fst (reconnect_from n w) = Ret b
    /\ (b = true -> exists cs0, cs = cs0 ++ [COpen true]).
Proof.
  revert w. induction n as [|n IH]; intros w.
  - exists [], false. split; [|done]. split; cbn; by rewrite ?app_nil_r.
  - rewrite reconnect_step. destruct (d_open (dev w)) as [[[]|e] d].
    + exists [COpen true], true. split; [by apply moved_calm|]. split; [done|]. intros _. by exists [].
    + match goal with |- context [moved w ?d0 _] => destruct (IH (moved w d0 [COpen false])) as (cs & b & Hc & Hb & Hl) end.
      exists ([COpen false] ++ cs), b. split; [by eapply calm_trans; [|exact Hc]|]. split; [done|].
      intros (cs0 & ->)%Hl. by exists (COpen false :: cs0).
Qed.

Lemma reopen_calm n w :
  exists cs b, calm w (reopen_from n w) cs /\ fst (reopen_from n w) = Ret b.
Proof.
  revert w. induction n as [|n IH]; intros w.
  - exists [], false. split; [|done]. split; cbn; by rewrite ?app_nil_r.
  - rewrite reopen_step. destruct (d_open (dev w)) as [[[]|e] d].
    + exists [COpen true], true. split; [by apply moved_calm|done].
    + destruct (IH (moved w (sleep REVERT_POLL d) [COpen false])) as (cs & b & Hc & Hb).
      exists ([COpen false] ++ cs), b. split; [|done]. by eapply calm_trans; [|exact Hc].
Qed.

Lemma wait_calm fuel t0 deadline w :
  calm w (wait_until fuel t0 deadline w) [] /\ (fst (wait_until fuel t0 deadline w) = Ret tt \/ fst (wait_until fuel t0 deadline w) = Stuck).
Proof.
  revert w. induction fuel as [|fuel IH]; intros w; cbn [wait_until]; unfold bind, get_dev; cbn [fst snd].
  - destruct (_ <? _); (split; [split; cbn; by rewrite ?app_nil_r|auto]).
  - destruct (_ <? _); [|split; [split; cbn; by rewrite ?app_nil_r|auto]].
    unfold with_dev. destruct (IH (World (sleep REVERT_POLL (dev w)) (row w) (undo w) (audit w) (calls w))) as [[H1 H2 H3 H4 H5] H6].
    split; [|exact H6]. by split.
Qed.

(** Steps that may also change the row's status and events. *)
Record logged {A} (w : world D) (x : result A * world D) (cs : list call) : Prop := Logged {
  logged_calls : calls (snd x) = calls w ++ cs;
  logged_undo : undo (snd x) = undo w;
  logged_audit : audit (snd x) = audit w }.

Definition lost (s : job_status) : Prop := s = JFailed \/ s = JReverted.

Lemma await_logged fuel fam pre_text armed minutes t0 w :
  let x := _await_self_revert fuel fam pre_text armed minutes t0 w in
  exists cs, logged w x cs /\ forallb quiet cs = true /\ (fst x = Ret tt -> lost (status (row (snd x)))).
Proof.
  cbv zeta. unfold _await_self_revert. destruct armed; cbn [negb].
  2: { exists []. split; [split; cbn; by rewrite ?app_nil_r|]. split; [done|]. intros _. left. done. }
  unfold bind. cbn [set_status add_event on_row fst snd].
  match goal with |- context [wait_until fuel t0 ?d ?w0] => destruct (wait_calm fuel t0 d w0) as [[W1 W2 W3 W4 W5] W6];
    destruct (wait_until fuel t0 d w0) as [rw w1] end.
  cbn [fst snd calls undo audit row] in *. rewrite app_nil_r in W1. destruct W6 as [-> | ->].
  2: { exists []. split; [split; cbn; by rewrite ?app_nil_r|]. split; [done|]. intros; done. }
  destruct (reopen_calm (RECONNECT_ATTEMPTS * 2) w1) as (cs & b & [R1 R2 R3 R4 R5] & Rb).
  destruct (reopen_from (RECONNECT_ATTEMPTS * 2) w1) as [rr w2]. cbn [fst snd] in *. subst rr.
  destruct b; cbn [negb].
  2: { exists cs. split; [split; cbn; congruence|]. split; [done|]. intros _. by left. }
  unfold read_live, driver_call. destruct (d_read_live (dev w2)) as [[live|e] d].
  2: { exists cs. split; [split; cbn; rewrite ?app_nil_r; congruence|]. done. }
  exists (cs ++ [CRead live]). rewrite forallb_app, R2.
  unfold of_res. destruct (configs_match fam pre_text live) as [[ok n]|e]; cbn [ret raise fst snd].
  2: { split; [split; cbn; rewrite ?app_assoc; congruence|done]. }
  destruct ok; (split; [split; cbn; rewrite ?app_assoc; congruence|]; split; [done|]); intros _; unfold lost; cbn; auto.
Qed.

Lemma verify_ending fuel id pre_text t0 w :
  let x := verify fuel id pre_text t0 w in
  exists cs, logged w x cs /\ ending (family (row w)) (backup_text (row w)) cs (fst x) (status (row (snd x))).
Proof.
  cbv zeta. unfold verify. unfold bind. cbn [get_row set_status on_row fst snd].
  unfold close_, driver_call. cbn [dev]. destruct (d_close (dev w)) as [[[]|e] d].
  2: { exists [CClose]. split; [by split|]. by apply ending_quiet. }
  match goal with |- context [_reconnect ?w0] => destruct (reconnect_calm RECONNECT_ATTEMPTS w0) as (cs & b & [R1 R2 R3 R4 R5] & Rb & Rl);
    change (reconnect_from RECONNECT_ATTEMPTS w0) with (_reconnect w0) in *; destruct (_reconnect w0) as [rr w1] end.
  cbn [fst snd calls undo audit row] in *. subst rr. destruct b; cbn [negb].
  2: { match goal with |- context [_await_self_revert fuel ?f ?p ?a ?m t0 w1] =>
         destruct (await_logged fuel f p a m t0 w1) as (cs' & [L1 L2 L3] & Lq & Ls) end.
       exists (CClose :: cs ++ cs'). split.
       - split; [|congruence..]. rewrite L1, R1, <- !app_assoc. done.
       - apply ending_quiet; [by rewrite <- (app_nil_l cs'), app_comm_cons, forallb_app; cbn; rewrite R2|].
         intros E. by apply Ls. }
  destruct (Rl eq_refl) as (cs0 & ->). rewrite forallb_app in R2. apply andb_prop in R2 as [R2 _].
  cbn [add_event on_row]. unfold read_live, driver_call. cbn [dev row undo audit calls].
  destruct (d_read_live (dev w1)) as [[after|e] d1].
  2: { exists (CClose :: cs0 ++ [COpen true]). split; [split; cbn; rewrite ?app_nil_r; [rewrite R1, <- app_assoc; done|congruence..]|].
       apply ending_quiet; [|done]. cbn. by rewrite forallb_app, R2. }
  cbn [row undo audit calls]. unfold of_res.
  assert (Hrow : family (row w1) = family (row w) /\ backup_text (row w1) = backup_text (row w)) by (rewrite R5; done).
  destruct (configs_match (family (row w)) (backup_text (row w)) after) as [[ok n]|e] eqn:Em; cbn [ret raise fst snd].
  2: { exists (CClose :: cs0 ++ [COpen true; CRead after]). split; [split; cbn; [rewrite R1, <- !app_assoc; done|congruence..]|].
       apply ending_quiet; [|done]. cbn. by rewrite forallb_app, R2. }
  destruct ok; cbn [negb].
  - unfold keep, confirm, driver_call, bind. cbn [get_row set_status add_event on_row fst snd dev row undo audit calls finish].
    destruct (d_confirm d1) as [[[]|e] d2]; cbn [fst snd is_ok].
    + exists ((CClose :: cs0) ++ [COpen true; CRead after; CConfirm true]).
      split; [split; cbn; [rewrite R1, <- !app_assoc; done|congruence..]|]. eapply ending_kept; [done|exact Em|done].
    + exists ((CClose :: cs0) ++ [COpen true; CRead after; CConfirm false]).
      split; [split; cbn; [rewrite R1, <- !app_assoc; done|congruence..]|]. eapply ending_kept; [done|exact Em|by exists e].
  - cbn [add_event on_row row]. destruct (auto_revert_armed (row w)).
    + cbn [set_status on_row]. unfold revert_now, driver_call. cbn [dev row undo audit calls].
      destruct (d_revert_now d1) as [[[]|e] d2]; cbn [fst snd is_ok].
      * exists (CClose :: cs0 ++ [COpen true; CRead after; CRevert true]).
        split; [split; cbn; [rewrite R1, <- !app_assoc; done|congruence..]|].
        apply ending_quiet; [cbn; by rewrite forallb_app, R2|]. intros _. by right.
      * exists (CClose :: cs0 ++ [COpen true; CRead after; CRevert false]).
        split; [split; cbn; [rewrite R1, <- !app_assoc; done|congruence..]|].
        apply ending_quiet; [cbn; by rewrite forallb_app, R2|done].
    + exists (CClose :: cs0 ++ [COpen true; CRead after]).
      split; [split; cbn; [rewrite R1, <- !app_assoc; done|congruence..]|].
      apply ending_quiet; [cbn; by rewrite forallb_app, R2|]. intros _. by left.
Qed.

Lemma refused_logged id m w :
  let x := apply_refused id m w in
  exists cs, logged w x cs /\ forallb quiet cs = true /\ fst x = Ret tt /\ lost (status (row (snd x))).
Proof.
  cbv zeta. unfold apply_refused, bind. cbn [get_row add_event on_row fst snd row].
  destruct (auto_revert_armed (row w)).
  - unfold try_, revert_now, driver_call. cbn [set_status on_row dev row undo audit calls].
    destruct (d_revert_now (dev w)) as [[[]|e] d]; cbn [add_event on_row fst snd row undo audit calls finish is_ok].
    + exists [CRevert true]. split; [by split|]. split; [done|]. split; [done|by right].
    + exists [CRevert false]. split; [by split|]. split; [done|]. split; [done|by right].
  - exists []. split; [split; cbn; by rewrite ?app_nil_r|]. split; [done|]. split; [done|by left].
Qed.

(** From the undo point on. *)
Definition applied_history (fam backup : pystr) (text : Z * pystr) (minutes : option Z) (cs : list call) (r : result unit) (s : job_status) : Prop :=
  exists ok rest, cs = CStored (snd text) :: CApply minutes ok :: rest
    /\ if ok : bool then ending fam backup rest r s else forallb quiet rest = true /\ (r = Ret tt -> lost s).

Lemma undo_and_apply_history fuel p w :
  let x := undo_and_apply fuel p w in
  audit (snd x) = audit w /\ exists cs, calls (snd x) = calls w ++ cs
  /\ (cs = [] /\ undo (snd x) = undo w /\ fst x <> Ret tt
      \/ exists text, undo (snd x) = undo w ++ [text]
           /\ applied_history (family (row w)) (backup_text (row w)) text (armed_minutes (row w)) cs (fst x) (status (row (snd x)))).
Proof.
  cbv zeta. unfold undo_and_apply, bind. cbn [set_status on_row].
  unfold snapshot, driver_call. cbn [dev row undo audit calls].
  destruct (d_snapshot (dev w)) as [[pre|e] d]; cbn [fst snd row undo audit calls].
  2: { split; [done|]. exists []. split; [done|]. by left. }
  cbn [store_undo on_row add_event get_row row undo audit calls dev].
  unfold try_, apply_, driver_call, bind. cbn [dev row undo audit calls].
  match goal with |- context [d_apply p ?m d] => change m with (armed_minutes (row w)) end.
  destruct (d_apply p (armed_minutes (row w)) d) as [[[]|e] d1]; cbn [fst snd row undo audit calls is_ok].
  - cbn [ret add_event on_row get_dev row undo audit calls dev fst snd].
    match goal with |- context [verify fuel ?i pre ?t ?w0] => destruct (verify_ending fuel i pre t w0) as (cs & [L1 L2 L3] & He);
      destruct (verify fuel i pre t w0) as [rv wv] end.
    cbn [fst snd row undo audit calls] in *. rewrite L1, L2, L3. split; [done|]. exists (CStored pre :: CApply (armed_minutes (row w)) true :: cs).
    rewrite app_nil_r, <- !app_assoc. split; [done|]. right. eexists. split; [done|]. exists true, cs. split; [done|exact He].
  - destruct e as [m|t m]; cbn [ret raise fst snd row undo audit calls].
    + match goal with |- context [apply_refused ?i m ?w0] => destruct (refused_logged i m w0) as (cs & [L1 L2 L3] & Hq & Hr & Hl);
        destruct (apply_refused i m w0) as [rv wv] end.
      cbn [fst snd row undo audit calls] in *. rewrite L1, L2, L3. split; [done|]. exists (CStored pre :: CApply (armed_minutes (row w)) false :: cs).
      rewrite app_nil_r, <- !app_assoc. split; [done|]. right. eexists. split; [done|]. exists false, cs. done.
    + split; [done|]. exists [CStored pre; CApply (armed_minutes (row w)) false]. rewrite app_nil_r, <- app_assoc. split; [done|]. right.
      eexists. split; [done|]. by exists false, [].
Qed.

(** A run up to the point where [try] catches what it raised. *)
Inductive history (w : world D) (expected : pystr) (acknowledged allow_without : bool) :
    list call -> list (Z * pystr) -> result unit -> job_status -> Prop :=
| history_stopped cs r s :
    forallb quiet cs = true -> (r = Ret tt -> s = JFailed) ->
    history w expected acknowledged allow_without cs [] r s
| history_same live p d :
    supported (family (row w)) = true ->
    fingerprint (family (row w)) live = Ok expected ->
    fst (d_plan (backup_text (row w)) live d) = Ok p -> plan_is_empty p = true ->
    history w expected acknowledged allow_without [COpen true; CRead live] [] (Ret tt) JSucceeded
| history_applied live p d text available cs r s :
    supported (family (row w)) = true ->
    fingerprint (family (row w)) live = Ok expected ->
    fst (d_plan (backup_text (row w)) live d) = Ok p -> plan_is_empty p = false ->
    (acknowledged = true \/ forallb (fun k => negb (is_lockout k)) (risks p) = true) ->
    (available = true \/ allow_without = true) ->
    applied_history (family (row w)) (backup_text (row w)) text (if available : bool then Some (revert_minutes (row w)) else None) cs r s ->
    history w expected acknowledged allow_without (COpen true :: CRead live :: cs) [text] r s.

Lemma no_lockouts l : List.filter is_lockout l = [] -> forallb (fun k => negb (is_lockout k)) l = true.
Proof. intros E. apply forallb_forall. intros k Hk%list_elem_of_In. rewrite filter_is_nil in E. by rewrite E. Qed.

Lemma arm_history fuel allow_without p w :
  let x := arm fuel allow_without p w in
  audit (snd x) = audit w /\ exists cs, calls (snd x) = calls w ++ cs
  /\ (cs = [] /\ undo (snd x) = undo w /\ (fst x = Ret tt -> status (row (snd x)) = JFailed)
      \/ exists text (available : bool), undo (snd x) = undo w ++ [text] /\ (available = true \/ allow_without = true)
           /\ applied_history (family (row w)) (backup_text (row w)) text
                (if available then Some (revert_minutes (row w)) else None) cs (fst x) (status (row (snd x)))).
Proof.
  cbv zeta. unfold arm, bind, driver_call.
  destruct (d_auto_revert_available (dev w)) as [[[available reason]|e] d]; cbn [fst snd row undo audit calls].
  2: { split; [done|]. exists []. split; [done|]. by left. }
  cbn [on_row row undo audit calls dev]. destruct (negb available && negb allow_without) eqn:En.
  { cbn. split; [done|]. exists []. by split; [rewrite app_nil_r|left]. }
  assert (Hgo : available = true \/ allow_without = true) by (destruct available, allow_without; auto).
  match goal with |- context [undo_and_apply fuel p ?w0] => destruct (undo_and_apply_history fuel p w0) as (Ha & cs & Hc & Hu);
    destruct (undo_and_apply fuel p w0) as [r w1] end.
  cbn [fst snd row undo audit calls] in *. split; [done|]. exists cs. split; [by rewrite Hc, app_nil_r|].
  destruct Hu as [(-> & Hu & Hr)|(text & Hu & Hh)]; [left; done|right]. exists text, available. split_and!; [done|done|].
  destruct available; exact Hh.
Qed.

Lemma may_start_history fuel expected acknowledged allow_without w :
  let x := may_start fuel expected acknowledged allow_without w in
  audit (snd x) = audit w /\ exists cs texts, calls (snd x) = calls w ++ cs /\ undo (snd x) = undo w ++ texts
    /\ history w expected acknowledged allow_without cs texts (fst x) (status (row (snd x))).
Proof.
  cbv zeta. unfold may_start, bind. cbn [get_row set_status on_row].
  assert (Hstop : forall (w' : world D) cs r, calls w' = calls w ++ cs -> undo w' = undo w -> audit w' = audit w ->
    forallb quiet cs = true -> (r = Ret tt -> status (row w') = JFailed) ->
    audit w' = audit w /\ exists cs texts, calls w' = calls w ++ cs /\ undo w' = undo w ++ texts
      /\ history w expected acknowledged allow_without cs texts r (status (row w'))).
  { intros w' cs r H1 H2 H3 H4 H5. split; [done|]. exists cs, []. rewrite app_nil_r. split_and!; [done|done|by apply history_stopped]. }
  destruct (supported (family (row w))) eqn:Esup; cbn [ret raise fst snd].
  2: { apply (Hstop _ []); cbn; by rewrite ?app_nil_r. }
  unfold open_, driver_call. cbn [dev row undo audit calls].
  destruct (d_open (dev w)) as [[[]|e] d]; cbn [fst snd is_ok].
  2: { by apply (Hstop _ [COpen false]). }
  cbn [add_event on_row]. unfold read_live, driver_call. cbn [dev row undo audit calls].
  destruct (d_read_live d) as [[live|e] d1]; cbn [fst snd].
  2: { apply (Hstop _ [COpen true]); cbn; by rewrite ?app_nil_r. }
  unfold of_res. destruct (fingerprint (family (row w)) live) as [fp|e] eqn:Ef; cbn [ret raise fst snd].
  2: { apply (Hstop _ [COpen true; CRead live]); cbn; by rewrite <- ?app_assoc. }
  destruct (bool_decide (fp = expected)) eqn:Eb; cbn [negb].
  2: { apply (Hstop _ [COpen true; CRead live]); cbn; by rewrite <- ?app_assoc. }
  apply bool_decide_eq_true in Eb as ->. cbn [dev row undo audit calls].
  destruct (d_plan (backup_text (row w)) live d1) as [[p|e] d2] eqn:Ep; cbn [fst snd].
  2: { apply (Hstop _ [COpen true; CRead live]); cbn; by rewrite ?app_nil_r, <- ?app_assoc. }
  destruct (plan_is_empty p) eqn:Ee.
  { cbn. split; [done|]. exists [COpen true; CRead live], []. rewrite ?app_nil_r, <- ?app_assoc. split_and!; [done|done|].
    eapply history_same; [done|done| |done]. by rewrite Ep. }
  cbn [on_row dev row undo audit calls].
  assert (Hgo : acknowledged = true \/ forallb (fun k => negb (is_lockout k)) (risks p) = true ->
    forall w1, calls w1 = calls w ++ [COpen true; CRead live] -> undo w1 = undo w -> audit w1 = audit w ->
      family (row w1) = family (row w) -> backup_text (row w1) = backup_text (row w) -> revert_minutes (row w1) = revert_minutes (row w) ->
    let x := arm fuel allow_without p w1 in
    audit (snd x) = audit w /\ exists cs texts, calls (snd x) = calls w ++ cs /\ undo (snd x) = undo w ++ texts
      /\ history w expected acknowledged allow_without cs texts (fst x) (status (row (snd x)))).
  { intros Hk w1 E1 E2 E3 E4 E5 E6 x. destruct (arm_history fuel allow_without p w1) as (Ha & cs & Hc & Hu). fold x in Ha, Hc, Hu.
    split; [congruence|]. exists ([COpen true; CRead live] ++ cs). rewrite Hc, E1, E2 in *.
    destruct Hu as [(-> & Hu & Hr)|(text & available & Hu & Hav & Hh)].
    - exists []. rewrite !app_nil_r. split_and!; [done|done|by apply history_stopped].
    - exists [text]. rewrite <- app_assoc. split_and!; [done|done|]. rewrite E4, E5, E6 in Hh.
      eapply history_applied; try done. by rewrite Ep. }
  destruct (List.filter is_lockout (risks p)) as [|l ls] eqn:El; [|destruct acknowledged].
  - apply Hgo; cbn; try done; [right; by apply no_lockouts|by rewrite ?app_nil_r, <- ?app_assoc].
  - apply Hgo; cbn; try done; [by left|by rewrite ?app_nil_r, <- ?app_assoc].
  - apply (Hstop _ [COpen true; CRead live]); cbn; by rewrite ?app_nil_r, <- ?app_assoc.
Qed.

(** The whole run, after the last resort and the closing. *)
Definition caught (r : result unit) (s : job_status) : job_status := match r with Exc _ => JFailed | _ => s end.
Definition closing (w : world D) : list call := if supported (family (row w)) then [CClose] else [].

Lemma conclude_spec fam w :
  exists d, conclude fam w
  = (Ret tt, World d (row w) (undo w) (audit w ++ [bool_decide (status (row w) = JSucceeded)])
               (calls w ++ if supported fam then [CClose] else [])).
Proof.
  unfold conclude, bind. destruct (supported fam).
  - unfold try_, close_, driver_call. destruct (d_close (dev w)) as [[[]|e] d]; by exists d.
  - exists (dev w). by rewrite app_nil_r.
Qed.

Lemma run_history fuel expected acknowledged allow_without w :
  let x := run_restore fuel expected acknowledged allow_without w in
  exists r s cs texts, history w expected acknowledged allow_without cs texts r s
    /\ ((r = Stuck /\ fst x = Stuck /\ calls (snd x) = calls w ++ cs /\ undo (snd x) = undo w ++ texts)
        \/ r <> Stuck /\ fst x = Ret tt /\ calls (snd x) = calls w ++ cs ++ closing w
           /\ undo (snd x) = undo w ++ texts /\ status (row (snd x)) = caught r s
           /\ audit (snd x) = audit w ++ [bool_decide (caught r s = JSucceeded)]).
Proof.
  cbv zeta. set (w0 := World (dev w) (put_started (row w)) (undo w) (audit w) (calls w)).
  assert (Ex : run_restore fuel expected acknowledged allow_without w =
    match may_start fuel expected acknowledged allow_without w0 with
    | (Ret _, w1) => conclude (family (row w)) w1
    | (Exc e, w1) => conclude (family (row w)) (snd ((run! add_event "error" EFailed (exc_message e) in finish JFailed (Some (exc_message e))) w1))
    | (Stuck, w1) => (Stuck, w1)
    end).
  { unfold run_restore, bind, try_. cbn [get_row on_row]. fold w0. by destruct (may_start _ _ _ _ w0) as [[]]. }
  rewrite Ex. destruct (may_start_history fuel expected acknowledged allow_without w0) as (Ha & cs & texts & Hc & Hu & Hh).
  destruct (may_start fuel expected acknowledged allow_without w0) as [r w1]. unfold w0 in *. clear Ex.
  cbn [fst snd row undo audit calls] in *. exists r, (status (row w1)), cs, texts.
  split. { destruct Hh as [cs r s Hq Hs|live p d Hsup Hf Hp He|live p d text av cs r s H1 H2 H3 H4 H5 H6 H7];
    [by apply history_stopped|by eapply history_same|by eapply history_applied]. }
  assert (Hend : forall w2 s, status (row w2) = s -> calls w2 = calls w1 -> undo w2 = undo w1 -> audit w2 = audit w1 ->
    let x := conclude (family (row w)) w2 in
    fst x = Ret tt /\ calls (snd x) = calls w ++ cs ++ closing w /\ undo (snd x) = undo w ++ texts
    /\ status (row (snd x)) = s /\ audit (snd x) = audit w ++ [bool_decide (s = JSucceeded)]).
  { intros w2 s Es Ec Eu Ea. destruct (conclude_spec (family (row w)) w2) as (d & ->). cbn.
    rewrite Es, Ec, Eu, Ea, Hc, Hu, Ha. unfold closing. by rewrite app_assoc. }
  destruct r as [[]|e|]; cbn [caught].
  - right. split; [done|]. by apply Hend.
  - right. split; [done|]. by apply (Hend _ JFailed).
  - left. by cbn; rewrite Hc, Hu.
Qed.

(** The calls of a run that started with nothing done. *)
Definition fresh (w : world D) : Prop := calls w = [] /\ undo w = [].

Lemma quiet_not_apply cs minutes ok : forallb quiet cs = true -> CApply minutes ok ∉ cs.
Proof. intros Hq Hin. rewrite forallb_forall in Hq. apply list_elem_of_In, Hq in Hin. done. Qed.
Lemma quiet_not_confirm cs ok : forallb quiet cs = true -> CConfirm ok ∉ cs.
Proof. intros Hq Hin. rewrite forallb_forall in Hq. apply list_elem_of_In, Hq in Hin. done. Qed.
Lemma closing_quiet w : forallb quiet (closing w) = true.
Proof. unfold closing. by destruct (supported _). Qed.

Lemma ending_no_apply fam backup cs r s minutes ok : ending fam backup cs r s -> CApply minutes ok ∉ cs.
Proof.
  intros [cs0 r0 s0 Hq _|cs0 after n b r0 s0 Hq _ _]; [by apply quiet_not_apply|].
  rewrite elem_of_app. intros [Hin|Hin]; [by eapply quiet_not_apply|].
  by repeat (apply elem_of_cons in Hin as [Hin|Hin]; [done|]); apply elem_of_nil in Hin.
Qed.

Lemma applied_rest fam backup text minutes cs r s m ok :
  applied_history fam backup text minutes cs r s -> CApply m ok ∈ cs ->
  m = minutes /\ exists rest, cs = CStored (snd text) :: CApply m ok :: rest /\ forall m' ok', CApply m' ok' ∉ rest.
Proof.
  intros (b & rest & -> & Hr) Hin.
  assert (Hno : forall m' ok', CApply m' ok' ∉ rest).
  { intros m' ok'. destruct b; [by eapply ending_no_apply|by apply quiet_not_apply, Hr]. }
  apply elem_of_cons in Hin as [Hin|[[= -> ->]|Hin]%elem_of_cons]; [done| |by destruct (Hno m ok)].
  split; [done|]. by exists rest.
Qed.

(** C4: Nothing is written to a device that changed since the preview, whose
    restore could lock the server out without consent, or that cannot undo on
    its own without consent: if a run applies anything, it had connected and
    read a configuration with the expected fingerprint, its plan for it was
    not empty, the lockouts were acknowledged or there were none, the
    auto-revert was armed with the job's minutes or its absence accepted, the
    configuration before the change was stored just before, and nothing else
    is applied afterwards. *)
Theorem restore_writes_guarded fuel expected acknowledged allow_without w minutes ok :
  fresh w ->
  let x := run_restore fuel expected acknowledged allow_without w in
  CApply minutes ok ∈ calls (snd x) ->
  exists live p d id pre rest,
    calls (snd x) = COpen true :: CRead live :: CStored pre :: CApply minutes ok :: rest
    /\ (forall m o, CApply m o ∉ rest)
    /\ fingerprint (family (row w)) live = Ok expected
    /\ fst (d_plan (backup_text (row w)) live d) = Ok p /\ plan_is_empty p = false
    /\ (acknowledged = true \/ forallb (fun k => negb (is_lockout k)) (risks p) = true)
    /\ (minutes = Some (revert_minutes (row w)) \/ minutes = None /\ allow_without = true)
    /\ undo (snd x) = [(id, pre)].
Proof.
  intros [Hc Hu] x Hin. destruct (run_history fuel expected acknowledged allow_without w) as (r & s & cs & texts & Hh & Hx).
  fold x in Hx. rewrite Hc, Hu in Hx.
  assert (Hcalls : exists tl, calls (snd x) = cs ++ tl /\ forallb quiet tl = true /\ undo (snd x) = texts).
  { destruct Hx as [(_ & _ & -> & ->)|(_ & _ & -> & -> & _)].
    - exists []. by rewrite app_nil_r.
    - exists (closing w). split; [done|]. split; [apply closing_quiet|done]. }
  destruct Hcalls as (tl & Et & Hq & ->). rewrite Et in Hin |- *.
  apply elem_of_app in Hin as [Hin|Hin]; [|by apply quiet_not_apply in Hin].
  destruct Hh as [cs r s Hqs _|live p d Hs Hf Hp He|live p d text av cs r s Hs Hf Hp He Hk Ha Hl].
  - by apply quiet_not_apply in Hin.
  - by apply (quiet_not_apply [COpen true; CRead live]) in Hin.
  - apply elem_of_cons in Hin as [Hin|[Hin|Hin]%elem_of_cons]; [done..|].
    destruct (applied_rest _ _ _ _ _ _ _ _ _ Hl Hin) as (-> & rest & -> & Hno).
    exists live, p, d, (fst text), (snd text), (rest ++ tl). split_and!; try done.
    + intros m o. rewrite elem_of_app. intros [H1|H1]; [by eapply Hno|by apply quiet_not_apply in H1].
    + destruct av; [by left|right]. by destruct Ha.
    + by destruct text.
Qed.

(** The device is not asked to keep its configuration, whether the request
    completes or raises. *)
Definition not_asked (cs : list call) : Prop := forall ok, CConfirm ok ∉ cs.

Lemma quiet_not_asked cs : forallb quiet cs = true -> not_asked cs.
Proof. intros Hq ok. by apply quiet_not_confirm. Qed.
Lemma not_asked_app cs cs' : not_asked cs -> not_asked cs' -> not_asked (cs ++ cs').
Proof. intros H1 H2 ok. rewrite elem_of_app. intros [Hin|Hin]; [by eapply H1|by eapply H2]. Qed.
Lemma not_asked_cons c cs : (forall ok, c <> CConfirm ok) -> not_asked cs -> not_asked (c :: cs).
Proof. intros Hc Hno ok [E|Hin]%elem_of_cons; [by destruct (Hc ok)|by eapply Hno]. Qed.

(** What precedes the one request to keep the configuration. *)
Definition asked_after_match (fam backup : pystr) (cs : list call) (ok : bool) : Prop :=
  exists cs' after n, cs = cs' ++ [COpen true; CRead after; CConfirm ok] /\ not_asked cs'
    /\ configs_match fam backup after = Ok (true, n).

Lemma ending_confirm fam backup cs r s :
  ending fam backup cs r s ->
  not_asked cs /\ (r = Ret tt -> lost s)
  \/ exists ok, asked_after_match fam backup cs ok
       /\ (if ok : bool then r = Ret tt /\ s = JSucceeded else exists e, r = Exc e).
Proof.
  intros [cs0 r0 s0 Hq Hl|cs0 after n b r0 s0 Hq Hm Hb].
  - left. split; [by apply quiet_not_asked|]. exact Hl.
  - right. exists b. split; [|done]. exists cs0, after, n. split_and!; [done|by apply quiet_not_asked|done].
Qed.

Lemma history_final w expected acknowledged allow_without cs texts r s :
  history w expected acknowledged allow_without cs texts r s -> r = Ret tt -> is_final s = true.
Proof.
  intros Hh Er. destruct Hh as [cs r s Hq Hl|live p d|live p d text av cs r s _ _ _ _ _ _ (ok & rest & -> & Hr)]; [by rewrite Hl|done|].
  destruct ok; [|by destruct Hr as [_ Hl]; destruct (Hl Er) as [-> | ->]].
  destruct Hr as [rest r s _ Hl|rest after n b r s _ _ Hb]; [by destruct (Hl Er) as [-> | ->]|].
  destruct b; [by destruct Hb as [_ ->]|]. destruct Hb as (e & ->). done.
Qed.

Lemma run_final fuel expected acknowledged allow_without w :
  let x := run_restore fuel expected acknowledged allow_without w in
  fst x <> Stuck -> fst x = Ret tt /\ is_final (status (row (snd x))) = true.
Proof.
  intros x Hns. destruct (run_history fuel expected acknowledged allow_without w) as (r & s & cs & texts & Hh & Hx).
  fold x in Hx. destruct Hx as [(_ & ? & _)|(Hr & Hret & _ & _ & Hs & _)]; [done|]. split; [done|]. rewrite Hs.
  destruct r as [[]|e|]; [by eapply history_final|done|done].
Qed.

(** C5: A restore succeeds only when the device was already on the backup, and
    then nothing was applied, or when the changes were applied, a new session
    was opened after them, the configuration it read matches the backup with
    no difference, and only then the device was told to keep it.  A run that
    ends otherwise either never asked the device to keep anything, or asked it
    once, last and after such a match, and the request raised: the job has
    then failed, whatever the device made of the request.  Every run ends in
    a final status and writes one line of the audit log that says which. *)
Theorem restore_outcome fuel expected acknowledged allow_without w :
  fresh w ->
  let x := run_restore fuel expected acknowledged allow_without w in
  fst x <> Stuck ->
  fst x = Ret tt /\ is_final (status (row (snd x))) = true
  /\ audit (snd x) = audit w ++ [bool_decide (status (row (snd x)) = JSucceeded)]
  /\ (if decide (status (row (snd x)) = JSucceeded) then
        (exists live p d, calls (snd x) = [COpen true; CRead live; CClose]
           /\ fst (d_plan (backup_text (row w)) live d) = Ok p /\ plan_is_empty p = true)
        \/ (exists cs minutes after n, calls (snd x) = cs ++ [COpen true; CRead after; CConfirm true; CClose]
           /\ CApply minutes true ∈ cs /\ not_asked cs
           /\ configs_match (family (row w)) (backup_text (row w)) after = Ok (true, n))
      else
        not_asked (calls (snd x))
        \/ (status (row (snd x)) = JFailed
           /\ exists cs minutes after n, calls (snd x) = cs ++ [COpen true; CRead after; CConfirm false; CClose]
           /\ CApply minutes true ∈ cs /\ not_asked cs
           /\ configs_match (family (row w)) (backup_text (row w)) after = Ok (true, n))).
Proof.
  intros [Hc Hu] x Hns. destruct (run_history fuel expected acknowledged allow_without w) as (r & s & cs & texts & Hh & Hx).
  fold x in Hx. clearbody x. rewrite Hc, Hu in Hx. destruct Hx as [(_ & ? & _)|(Hr & Hret & Hcalls & _ & Hs & Ha)]; [done|].
  rewrite Hs, Hret, Ha. split; [done|]. cbn [app] in Hcalls. split; [|split; [done|]].
  { destruct r as [[]|e|]; [by eapply history_final|done|done]. }
  assert (Hother : not_asked cs -> (r = Ret tt -> lost s) -> not_asked (calls (snd x)) /\ caught r s <> JSucceeded).
  { intros Hno Hl. rewrite Hcalls. split; [by apply not_asked_app, quiet_not_asked, closing_quiet|].
    destruct r as [[]|e|]; [by destruct (Hl eq_refl) as [-> | ->]|done..]. }
  destruct Hh as [cs r s Hqs Hl|live p d Hsup Hf Hp He|live p d text av cs r s Hsup Hf Hp He Hk Hav Hl].
  - destruct Hother as [? ?]; [by apply quiet_not_asked|intros E; left; by apply Hl|]. destruct (decide _); [done|by left].
  - cbn. left. exists live, p, d. split; [|done]. rewrite Hcalls. unfold closing. by rewrite Hsup.
  - destruct Hl as (ok & rest & -> & Hrest). set (m := if av then _ else _) in *.
    assert (Hhead : forall tl, not_asked tl -> not_asked (COpen true :: CRead live :: CStored (snd text) :: CApply m ok :: tl))
      by (intros; by repeat apply not_asked_cons).
    destruct ok; [apply ending_confirm in Hrest as [[Hno Hl]|(ok & (cs' & after & n & -> & Hno & Hm) & Hb)]|].
    + destruct Hother as [? ?]; [by apply Hhead|done|]. destruct (decide _); [done|by left].
    + assert (Hasked : exists cs m' after n, calls (snd x) = cs ++ [COpen true; CRead after; CConfirm ok; CClose]
          /\ CApply m' true ∈ cs /\ not_asked cs
          /\ configs_match (family (row w)) (backup_text (row w)) after = Ok (true, n)).
      { exists (COpen true :: CRead live :: CStored (snd text) :: CApply m true :: cs'), m, after, n.
        split_and!; [|by repeat constructor|by apply Hhead|done].
        rewrite Hcalls. unfold closing. rewrite Hsup. cbn. by rewrite <- app_assoc. }
      destruct ok; [destruct Hb as [-> ->]; cbn; by right|]. destruct Hb as [e ->]. cbn. by right.
    + destruct Hrest as [Hq Hl]. destruct Hother as [? ?]; [by apply Hhead, quiet_not_asked|done|]. destruct (decide _); [done|by left].
Qed.

(** ** The wait ends *)
(** What the clock promises: it never goes back, and a sleep lasts. *)
Class ClockLaws : Prop := {
  sleep_lasts : forall n d, 0 <= n -> monotonic d + n <= monotonic (sleep n d);
  open_forward : forall d, monotonic d <= monotonic (snd (d_open d));
  close_forward : forall d, monotonic d <= monotonic (snd (d_close d)) }.
Context `{ClockLaws}.

Definition deadline_of (minutes : Z) : Z := minutes * 60 * second + REVERT_GRACE.
(** Sleeps that cover the auto-revert window. *)
Definition enough_fuel (minutes : Z) (fuel : nat) : Prop := deadline_of minutes <= Z.of_nat fuel * REVERT_POLL.

Lemma wait_ends fuel t0 deadline w :
  deadline - Z.of_nat fuel * REVERT_POLL <= monotonic (dev w) - t0 ->
  fst (wait_until fuel t0 deadline w) = Ret tt.
Proof.
  revert w. induction fuel as [|fuel IH]; intros w Hf; cbn [wait_until]; unfold bind, get_dev; cbn [fst snd].
  - destruct (_ <? _) eqn:E; [|done]. bool_prop. lia.
  - destruct (_ <? _) eqn:E; [|done]. unfold with_dev. apply IH. cbn [dev].
    pose proof (sleep_lasts REVERT_POLL (dev w) ltac:(done)). unfold REVERT_POLL, second in *. lia.
Qed.

Lemma reconnect_forward n w : monotonic (dev w) <= monotonic (dev (snd (reconnect_from n w))).
Proof.
  revert w. induction n as [|n IH]; intros w; [done|]. rewrite reconnect_step. pose proof (open_forward (dev w)) as Ho.
  destruct (d_open (dev w)) as [[[]|e] d]; [exact Ho|]. cbn [snd] in Ho.
  etransitivity; [|apply IH]. cbn [moved dev]. destruct n; [done|].
  pose proof (sleep_lasts RECONNECT_DELAY d ltac:(done)). unfold RECONNECT_DELAY, second in *. lia.
Qed.

Lemma await_unstuck fuel fam pre_text armed minutes t0 w :
  enough_fuel minutes fuel -> t0 <= monotonic (dev w) ->
  fst (_await_self_revert fuel fam pre_text armed minutes t0 w) <> Stuck.
Proof.
  intros Hf Ht. unfold _await_self_revert. destruct armed; [|done]. cbn [negb]. unfold bind. cbn [set_status add_event on_row].
  match goal with |- context [wait_until fuel t0 ?d ?w0] => pose proof (wait_ends fuel t0 d w0) as Hw;
    destruct (wait_until fuel t0 d w0) as [rw w1] end.
  cbn [fst snd dev] in *. rewrite Hw by (unfold enough_fuel, deadline_of in Hf; lia).
  destruct (reopen_calm (RECONNECT_ATTEMPTS * 2) w1) as (cs & b & _ & Rb).
  destruct (reopen_from (RECONNECT_ATTEMPTS * 2) w1) as [rr w2]. cbn [fst] in Rb. subst rr.
  destruct b; [|done]. cbn [negb]. unfold read_live, driver_call. destruct (d_read_live (dev w2)) as [[live|e] d]; [|done].
  unfold of_res. destruct (configs_match fam pre_text live) as [[[] n]|e]; done.
Qed.

Lemma verify_unstuck fuel id pre_text t0 w :
  enough_fuel (revert_minutes (row w)) fuel -> t0 <= monotonic (dev w) -> fst (verify fuel id pre_text t0 w) <> Stuck.
Proof.
  intros Hf Ht. unfold verify, bind. cbn [get_row set_status on_row]. unfold close_, driver_call. cbn [dev].
  pose proof (close_forward (dev w)) as Hc. destruct (d_close (dev w)) as [[[]|e] d]; [|done]. cbn [snd] in Hc.
  match goal with |- context [_reconnect ?w0] => destruct (reconnect_calm RECONNECT_ATTEMPTS w0) as (cs & b & _ & Rb & _);
    pose proof (reconnect_forward RECONNECT_ATTEMPTS w0) as Hr;
    change (reconnect_from RECONNECT_ATTEMPTS w0) with (_reconnect w0) in *; destruct (_reconnect w0) as [rr w1] end.
  cbn [fst snd dev] in *. subst rr. destruct b; cbn [negb]; [|apply await_unstuck; [done|lia]].
  cbn [add_event on_row]. unfold read_live, driver_call. cbn [dev].
  destruct (d_read_live (dev w1)) as [[after|e] d1]; [|done]. unfold of_res.
  destruct (configs_match _ _ after) as [[[] n]|e]; [| |done]; cbn [negb ret].
  - unfold keep, confirm, driver_call, bind. cbn [add_event get_row set_status on_row dev]. by destruct (d_confirm d1) as [[[]|e] d2].
  - cbn [add_event on_row]. destruct (auto_revert_armed (row w)); [|done]. cbn [set_status on_row]. unfold revert_now, driver_call. cbn [dev].
    by destruct (d_revert_now d1) as [[[]|e] d2].
Qed.

Lemma undo_unstuck fuel p w : enough_fuel (revert_minutes (row w)) fuel -> fst (undo_and_apply fuel p w) <> Stuck.
Proof.
  intros Hf. unfold undo_and_apply, bind. cbn [set_status on_row]. unfold snapshot, driver_call. cbn [dev].
  destruct (d_snapshot (dev w)) as [[pre|e] d]; [|done]. cbn [store_undo on_row add_event get_row row dev].
  unfold try_, apply_, driver_call, bind. cbn [dev row].
  match goal with |- context [d_apply p ?m d] => destruct (d_apply p m d) as [[[]|[m0|t m0]] d1] end; [| |done].
  - cbn [ret add_event on_row get_dev row dev]. apply verify_unstuck; done.
  - cbn [ret]. match goal with |- context [apply_refused ?i m0 ?w0] => destruct (refused_logged i m0 w0) as (cs & _ & _ & Hr & _) end.
    by rewrite Hr.
Qed.

Lemma may_start_unstuck fuel expected acknowledged allow_without w :
  enough_fuel (revert_minutes (row w)) fuel -> fst (may_start fuel expected acknowledged allow_without w) <> Stuck.
Proof.
  intros Hf. unfold may_start, bind. cbn [get_row set_status on_row].
  destruct (supported (family (row w))); [|done]. unfold open_, driver_call. cbn [ret dev].
  destruct (d_open (dev w)) as [[[]|e] d]; [|done]. cbn [add_event on_row]. unfold read_live, driver_call. cbn [dev].
  destruct (d_read_live d) as [[live|e] d1]; [|done]. unfold of_res.
  destruct (fingerprint _ live) as [fp|e]; [|done]. cbn [ret]. destruct (bool_decide _); [|done]. cbn [negb dev].
  destruct (d_plan _ live d1) as [[p|e] d2]; [|done]. destruct (plan_is_empty p); [done|]. cbn [on_row].
  assert (Harm : forall w1, revert_minutes (row w1) = revert_minutes (row w) -> fst (arm fuel allow_without p w1) <> Stuck).
  { intros w1 E. unfold arm, bind, driver_call. destruct (d_auto_revert_available (dev w1)) as [[[av why]|e] d3]; [|done].
    cbn [on_row row]. destruct (_ && _); [done|]. apply undo_unstuck. by cbn; rewrite <- E in Hf. }
  destruct (List.filter is_lockout (risks p)) as [|l ls]; [by apply Harm|]. destruct acknowledged; [by apply Harm|done].
Qed.

(** C8: A restore job ends: with a clock that does not go back and sleeps that
    last as long as asked, the wait for a device that lost its access is over
    after the auto-revert window and its grace, and the job ends in a final
    status whatever the device does, even when every call fails. *)
Theorem restore_ends fuel expected acknowledged allow_without w :
  enough_fuel (revert_minutes (row w)) fuel ->
  let x := run_restore fuel expected acknowledged allow_without w in
  fst x = Ret tt /\ is_final (status (row (snd x))) = true.
Proof.
  intros Hf x. assert (Hx : fst x <> Stuck).
  { unfold x, run_restore, bind, try_. cbn [get_row on_row].
    pose proof (may_start_unstuck fuel expected acknowledged allow_without
                  (World (dev w) (put_started (row w)) (undo w) (audit w) (calls w)) Hf) as Hm.
    destruct (may_start _ _ _ _ _) as [[[]|e|] w1]; cbn [fst snd add_event finish on_row] in *; [|..|done].
    - destruct (conclude_spec (family (row w)) w1) as (d & E). by rewrite E.
    - match goal with |- context [conclude ?f ?w2] => destruct (conclude_spec f w2) as (d & E) end. by rewrite E. }
  by apply run_final.
Qed.
End Job.

(** [fail_interrupted_restores]; [alive] is [runner_is_alive]. *)
Definition interrupted (alive : pystr -> bool) (r : JobRow) : bool := negb (is_final (status r)) && negb (alive (runner r)).
Definition fail_interrupted (alive : pystr -> bool) (r : JobRow) : JobRow :=
  if interrupted alive r then
    put_final JFailed (Some (py "Interrupted by a server restart."))
      (put_event (Event (py "error") EFailed (py "Interrupted by a server restart. An armed auto-revert returns the device to its previous configuration on its own.")) r)
  else r.
Definition fail_interrupted_restores (alive : pystr -> bool) (jobs : list JobRow) : list JobRow * Z :=
  (map (fail_interrupted alive) jobs, Z.of_nat (length (List.filter (interrupted alive) jobs))).
