(* ===== verification/Drivers.v ===== *)
(** * The restore drivers (src/app/modules/backup/restore/drivers.py)

    [CiscoDriver], [FortiGateDriver] and [FileBundleDriver] are instances of
    the contract [Driver] of RestoreJob, over the SSH clients they use, given
    here as the classes [IosClient], [FortiClient] and [HostClient]. *)
From S2P Require Import Prelude PyStr ParamSecurity ConfigTree CiscoTree FileBundle Risk RestoreJob.

(** ** Code that may raise over the state of a driver *)
Section Step.
Context {S : Type}.
Definition step (A : Type) : Type := S -> res exc A * S.
Definition done_ {A} (a : A) : step A := fun s => (Ok a, s).
Definition throw {A} (e : exc) : step A := fun s => (Raise e, s).
Definition andthen {A B} (m : step A) (k : A -> step B) : step B :=
  fun s => match m s with (Ok a, s) => k a s | (Raise e, s) => (Raise e, s) end.
(** [try: m except Exception as e: h e] *)
Definition catch {A} (m : step A) (h : exc -> step A) : step A :=
  fun s => match m s with (Raise e, s) => h e s | r => r end.
Definition modify_ (f : S -> S) : step unit := fun s => (Ok tt, f s).
Definition read_ {A} (f : S -> A) : step A := fun s => (Ok (f s), s).
(** [for c in cs: f c] *)
Fixpoint each {A} (f : A -> step unit) (l : list A) : step unit :=
  match l with [] => done_ tt | x :: l => andthen (f x) (fun _ => each f l) end.
End Step.
Arguments step S A : clear implicits.

Declare Scope driver_scope.
Notation "'bind!' x := m 'in' k" := (andthen m (fun x => k))
  (at level 10, x pattern, m at level 100, k at level 200) : driver_scope.
Notation "'then!' m 'in' k" := (andthen m (fun _ => k))
  (at level 10, m at level 100, k at level 200) : driver_scope.
#[local] Open Scope driver_scope.

(** ** Searching the text a device answers *)
(** Whether a regular expression of alternatives without groups, each a
    literal, occurs in [s] whatever the case. *)
Definition any_in (words : list pystr) (s : pystr) : bool := existsb (fun w => is_infix w s) words.

(** [re.search(re.escape(p) + r"(\w+)", s)]: the group. *)
Fixpoint word_after (p s : pystr) : option pystr :=
  match (if is_prefix p s then take_while is_wordchar (drop (length p) s) else []), s with
  | ((_ :: _) as w), _ => Some w
  | [], _ :: s' => word_after p s'
  | [], [] => None
  end.

(** Slices: [s[:n]]. *)
Definition head_of (n : nat) (s : pystr) : pystr := take n s.

Definition no_attribute (name : string) : exc :=
  Raised (py "AttributeError") (py "'NoneType' object has no attribute '" ++ py name ++ py "'").

(** ** FortiGate *)
(** What the driver uses of [FortiGateSSHClient] and its netmiko connection;
    the client ignores errors when it disconnects. *)
Class FortiClient (S : Type) : Type := {
  fc_connect : step S unit;
  fc_disconnect : S -> S;
  fc_is_vdom_enabled : step S bool;
  fc_raw_send : pystr -> step S pystr;
  fc_send_timing : pystr -> step S pystr;
  fc_source_ip : step S (option pystr);
  fc_utcnow : S -> pystr;
  fc_monotonic : S -> Z;
  fc_sleep : Z -> S -> S }.

Record FortiGateDriver (S : Type) : Type := FortiGate {
  fg_client : S; fg_executor : bool; fg_armed : bool; fg_original_cfg_save : pystr; fg_vdom_mode : bool }.
Arguments FortiGate {S}. Arguments fg_client {S}. Arguments fg_executor {S}. Arguments fg_armed {S}.
Arguments fg_original_cfg_save {S}. Arguments fg_vdom_mode {S}.

(** [_FORTI_BAD] *)
Definition _FORTI_BAD : list pystr :=
  map py ["command fail"; "parse error"; "unknown action"; "permission denied"; "return code -"]%string.
Definition forti_bad (s : pystr) : bool := any_in _FORTI_BAD (lower s).

Section FortiGateDriver.
Context {S : Type} `{FortiClient S}.
Notation FG := (FortiGateDriver S).
Variables (ipv6_network : pystr -> option network) (ipv6_address : pystr -> option Z).
(** The credentials' address, user and port. *)
Variables (host username : pystr) (port : Z).

(** The state [__init__] makes. *)
Definition forti_init (s : S) : FG := FortiGate s false false (py "automatic") false.

Definition with_client (s : S) (d : FG) : FG :=
  FortiGate s (fg_executor d) (fg_armed d) (fg_original_cfg_save d) (fg_vdom_mode d).
Definition on_client {A} (m : step S A) : step FG A :=
  fun d => let '(r, s) := m (fg_client d) in (r, with_client s d).
(** [self.executor.…]: an AttributeError when there is none. *)
Definition with_executor {A} (name : string) (m : step FG A) : step FG A :=
  fun d => if fg_executor d then m d else (Raise (no_attribute name), d).

(** [FortiGateDriver.open] *)
Definition forti_open : step FG unit :=
  then! on_client fc_connect in
  then! modify_ (fun d => FortiGate (fg_client d) true (fg_armed d) (fg_original_cfg_save d) (fg_vdom_mode d)) in
  bind! vdom := catch (on_client fc_is_vdom_enabled) (fun _ => done_ false) in
  modify_ (fun d => FortiGate (fg_client d) (fg_executor d) (fg_armed d) (fg_original_cfg_save d) vdom).

(** [FortiGateDriver.close] *)
Definition forti_close : step FG unit :=
  modify_ (fun d => if fg_executor d then
    FortiGate (fc_disconnect (fg_client d)) false (fg_armed d) (fg_original_cfg_save d) (fg_vdom_mode d) else d).

(** [FortiGateDriver.read_live] *)
Definition show_full : pystr := py "show full-configuration".
Definition forti_read_live : step FG pystr :=
  with_executor "ssh_client" (
    bind! text := on_client (fc_raw_send show_full) in
    then! modify_ (fun d => match word_after (py "set cfg-save ") text with
                            | Some mode => FortiGate (fg_client d) (fg_executor d) (fg_armed d) mode (fg_vdom_mode d)
                            | None => d
                            end) in
    done_ text).

(** [FortiGateHardeningExecutor.backup_config], the driver's [snapshot] *)
Definition lines_of (ls : list pystr) : pystr := join newline ls ++ newline.
Definition forti_header (now : pystr) : pystr :=
  lines_of [py "#"; py "# FortiGate Configuration Backup"; py "# Backup taken at: " ++ now; py "# Device: " ++ host; py "#"].
Definition forti_snapshot : step FG pystr :=
  with_executor "backup_config" (
    catch (bind! config := on_client (fc_raw_send show_full) in
           bind! now := read_ (fun d => fc_utcnow (fg_client d)) in
           done_ (forti_header now ++ config))
          (fun e => throw (Raised (py "FortiGateHardeningExecutionError") (py "Failed to backup config: " ++ exc_text e)))).

Definition forti_plan (backup_text live_text : pystr) : step FG RestorePlan := fun d =>
  match tree_exc (diff_fortios backup_text live_text) with
  | Raise e => (Raise e, d)
  | Ok (cmds, diff) =>
      (bind! ip := with_executor "ssh_client" (on_client fc_source_ip) in
       match tree_exc (parse_fortios backup_text) with
       | Ok root =>
           match value_exc (fortios_risks ipv6_network ipv6_address diff root username ip port) with
           | Ok rs => done_ (Plan diff cmds None rs)
           | Raise e => throw e
           end
       | Raise e => throw e
       end) d
  end.

(** [_global] *)
Definition _global (vdom : bool) (lines : list pystr) : list pystr :=
  if vdom then [py "config global"] ++ lines ++ [py "end"] else lines.

(** [_send] *)
Definition rejected (cmd out : pystr) : exc :=
  let bad := match List.find forti_bad (splitlines out) with Some l => l | None => head_of 200 (strip out) end in
  RestoreApplyError (py "The device rejected '" ++ strip cmd ++ py "': " ++ strip bad).
Definition _send (cmd : pystr) : step FG pystr :=
  with_executor "ssh_client" (
    bind! out := on_client (fc_raw_send cmd) in
    if forti_bad out then throw (rejected cmd out) else done_ out).
Definition send_all (cmds : list pystr) : step FG unit := each (fun c => then! _send c in done_ tt) cmds.

(** [FortiGateDriver.apply] *)
Definition arm_commands (minutes : Z) : list pystr :=
  [py "config system global"; py "set cfg-revert-timeout " ++ str_of_int (minutes * 60); py "set cfg-save revert"; py "end"].
Definition truthy_minutes (m : option Z) : option Z := match m with Some n => if n =? 0 then None else Some n | None => None end.
Definition forti_apply (p : RestorePlan) (revert_minutes : option Z) : step FG unit :=
  then! match truthy_minutes revert_minutes with
        | Some m =>
            bind! vdom := read_ fg_vdom_mode in
            then! send_all (_global vdom (arm_commands m)) in
            modify_ (fun d => FortiGate (fg_client d) (fg_executor d) true (fg_original_cfg_save d) (fg_vdom_mode d))
        | None => done_ tt
        end in
  send_all (commands p).

(** [FortiGateDriver.confirm] *)
Definition cfg_save : pystr := py "execute cfg save".
Definition mode_commands (mode : pystr) : list pystr := [py "config system global"; py "set cfg-save " ++ mode; py "end"].
Definition forti_confirm : step FG unit :=
  bind! armed := read_ fg_armed in
  then! (if armed : bool then send_all [cfg_save] else done_ tt) in
  bind! vdom := read_ fg_vdom_mode in
  bind! mode := read_ fg_original_cfg_save in
  then! send_all (_global vdom (mode_commands mode)) in
  if bool_decide (mode = py "automatic") then done_ tt else send_all [cfg_save].

(** [FortiGateDriver.revert_now] *)
Definition forti_revert_now : step FG unit :=
  bind! armed := read_ fg_armed in
  if armed : bool then
    with_executor "ssh_client" (
      bind! out := on_client (fc_send_timing (py "execute cfg reload")) in
      if is_infix (py "(y/n)") (lower out) then then! on_client (fc_send_timing (py "y")) in done_ tt else done_ tt)
  else done_ tt.

#[export] Instance forti_driver : Driver FG := {
  d_open := forti_open; d_close := forti_close; d_read_live := forti_read_live; d_snapshot := forti_snapshot;
  d_auto_revert_available := done_ (true, py "cfg-save revert");
  d_plan := forti_plan; d_apply := forti_apply; d_confirm := forti_confirm; d_revert_now := forti_revert_now;
  monotonic := fun d => fc_monotonic (fg_client d);
  sleep := fun n d => with_client (fc_sleep n (fg_client d)) d }.
End FortiGateDriver.

(** *** The save mode a restore leaves behind *)
(** A device that accepts every command, and what it was sent. *)
Class Accepting (S : Type) `{FortiClient S} : Type := {
  sent : S -> list pystr;
  accepted : forall c s, exists out s', fc_raw_send c s = (Ok out, s') /\ forti_bad out = false /\ sent s' = sent s ++ [c] }.

Section SaveMode.
Context {S : Type} `{Accepting S}.
Notation FG := (FortiGateDriver S).

(** Same driver, more commands sent. *)
Definition after (d d' : FG) (cmds : list pystr) : Prop :=
  exists s', d' = with_client s' d /\ sent s' = sent (fg_client d) ++ cmds.

Lemma send_accepted c d : fg_executor d = true -> exists out d', _send c d = (Ok out, d') /\ after d d' [c].
Proof.
  intros He. unfold _send, with_executor. rewrite He. unfold andthen, on_client.
  destruct (accepted c (fg_client d)) as (out & s' & -> & Hb & Hs). cbn [fst snd]. rewrite Hb. unfold done_.
  eexists _, _. split; [done|]. by exists s'.
Qed.

Lemma send_all_accepted cmds d : fg_executor d = true -> exists d', send_all cmds d = (Ok tt, d') /\ after d d' cmds.
Proof.
  revert d. induction cmds as [|c cmds IH]; intros d He.
  - exists d. split; [done|]. exists (fg_client d). split; [by destruct d|by rewrite app_nil_r].
  - destruct (send_accepted c d He) as (out & d1 & E & s1 & -> & E1).
    destruct (IH (with_client s1 d) He) as (d2 & E' & s2 & -> & E2). exists (with_client s2 (with_client s1 d)). split.
    + unfold send_all in *. cbn [each]. unfold andthen. rewrite E. exact E'.
    + exists s2. split; [done|]. rewrite E2. cbn. by rewrite E1, <- app_assoc.
Qed.

Lemma after_trans d d1 d2 a b : after d d1 a -> after d1 d2 b -> after d d2 (a ++ b).
Proof. intros (s1 & -> & E1) (s2 & -> & E2). exists s2. split; [done|]. rewrite E2. cbn. by rewrite E1, app_assoc. Qed.

Lemma confirm_accepted d :
  fg_executor d = true -> exists d', forti_confirm d = (Ok tt, d') /\
  after d d' ((if fg_armed d then [cfg_save] else []) ++ _global (fg_vdom_mode d) (mode_commands (fg_original_cfg_save d))
              ++ (if bool_decide (fg_original_cfg_save d = py "automatic") then [] else [cfg_save])).
Proof.
  intros He. unfold forti_confirm, andthen, read_.
  assert (H1 : exists d1, (if fg_armed d then send_all [cfg_save] else done_ tt) d = (Ok tt, d1)
                 /\ after d d1 (if fg_armed d then [cfg_save] else [])).
  { destruct (fg_armed d); [by apply send_all_accepted|]. exists d. split; [done|]. exists (fg_client d).
    split; [by destruct d|by rewrite app_nil_r]. }
  destruct H1 as (d1 & -> & s1 & -> & E1). cbn [fg_vdom_mode fg_original_cfg_save with_client].
  destruct (send_all_accepted (_global (fg_vdom_mode d) (mode_commands (fg_original_cfg_save d))) (with_client s1 d) He) as (d2 & -> & A2).
  destruct (bool_decide _).
  - exists d2. split; [done|]. rewrite app_nil_r. eapply after_trans; [by exists s1|exact A2].
  - pose proof A2 as (s2 & -> & E2). destruct (send_all_accepted [cfg_save] (with_client s2 (with_client s1 d)) He) as (d3 & E3 & A3).
    exists d3. split; [exact E3|]. eapply after_trans; [by exists s1|]. by eapply after_trans.
Qed.

(** Keeping a restore on a FortiGate writes back the save mode of the last
    configuration read, not the one the device had before the restore: after
    the configuration is read to verify the restore, and while the
    auto-revert is armed that text shows the mode the restore itself set,
    [confirm] saves, sets that same mode again and saves once more. *)
Theorem confirm_writes_last_mode d mode :
  fg_executor d = true -> fg_armed d = true ->
  (forall text s', fc_raw_send show_full (fg_client d) = (Ok text, s') -> word_after (py "set cfg-save ") text = Some mode) ->
  exists text d1 d2,
    forti_read_live d = (Ok text, d1) /\ forti_confirm d1 = (Ok tt, d2)
    /\ sent (fg_client d2) = sent (fg_client d) ++ [show_full; cfg_save] ++ _global (fg_vdom_mode d) (mode_commands mode)
         ++ (if bool_decide (mode = py "automatic") then [] else [cfg_save]).
Proof.
  intros He Ha Hm. destruct (accepted show_full (fg_client d)) as (text & s1 & E & _ & Es).
  pose proof (Hm text s1 E) as Hw.
  set (d1 := FortiGate s1 true true mode (fg_vdom_mode d)).
  assert (Hread : forti_read_live d = (Ok text, d1)).
  { unfold forti_read_live, with_executor. rewrite He. unfold andthen, on_client. rewrite E. cbn -[word_after].
    rewrite Hw. unfold d1. by rewrite He, Ha. }
  destruct (confirm_accepted d1 eq_refl) as (d2 & Hc & s2 & -> & E2). exists text, d1, (with_client s2 d1).
  split; [done|]. split; [done|]. cbn [fg_client with_client]. rewrite E2. cbn [d1 fg_client fg_armed fg_original_cfg_save fg_vdom_mode].
  by rewrite Es, <- !app_assoc.
Qed.
End SaveMode.

(** ** Cisco IOS *)
(** What the driver uses of [CiscoSSHClient] ([ios_connect] to
    [ios_ensure_enable_mode]; it ignores errors when it disconnects) and of its
    netmiko connection. *)
Class IosClient (S : Type) : Type := {
  ios_connect : step S unit;
  ios_disconnect : S -> S;
  ios_send_command : pystr -> Z -> step S pystr;
  ios_in_enable_mode : S -> bool;
  ios_ensure_enable_mode : step S bool;
  conn_config_mode : option pystr -> step S unit;
  conn_check_config_mode : step S bool;
  conn_send_config_set : list pystr -> step S pystr;
  conn_exit_config_mode : step S unit;
  conn_send_command : pystr -> step S unit;
  conn_send_command_timing : pystr -> step S unit;
  conn_save_config : step S unit;
  ios_utcnow : S -> pystr;
  ios_monotonic : S -> Z;
  ios_sleep : Z -> S -> S }.

Record CiscoDriver (S : Type) : Type := Cisco { ios_client : S; ios_executor : bool; ios_armed : bool }.
Arguments Cisco {S}. Arguments ios_client {S}. Arguments ios_executor {S}. Arguments ios_armed {S}.

(** [CiscoHardeningExecutor._check_for_errors] *)
Definition ios_error_patterns : list pystr := map py
  ["Invalid input detected"; "Incomplete command"; "Ambiguous command"; "% Error"; "% Bad"; "% Unknown command";
   "% Cannot"; "% Failed"; "% Please define"]%string.
Definition _check_for_errors (output : pystr) : list pystr :=
  map strip (List.filter (any_in ios_error_patterns) (split_on (chr 10) output)).

Section CiscoDriver.
Context {S : Type} `{IosClient S}.
Notation IOS := (CiscoDriver S).
Variables (host username : pystr).

Definition ios_init (s : S) : IOS := Cisco s false false.
Definition on_ios {A} (m : step S A) : step IOS A :=
  fun d => let '(r, s) := m (ios_client d) in (r, Cisco s (ios_executor d) (ios_armed d)).
Definition with_ios {A} (name : string) (m : step IOS A) : step IOS A :=
  fun d => if ios_executor d then m d else (Raise (no_attribute name), d).

(** [CiscoDriver.open], [CiscoDriver.close] *)
Definition ios_open : step IOS unit :=
  then! on_ios ios_connect in modify_ (fun d => Cisco (ios_client d) true (ios_armed d)).
Definition ios_close : step IOS unit :=
  modify_ (fun d => if ios_executor d then Cisco (ios_disconnect (ios_client d)) false (ios_armed d) else d).

(** [CiscoDriver.read_live] *)
Definition show_running : pystr := py "show running-config".
Definition ios_read_live : step IOS pystr := with_ios "ssh_client" (on_ios (ios_send_command show_running 120)).

(** [CiscoHardeningExecutor.backup_config] *)
Definition ios_header (now : pystr) : pystr :=
  lines_of [py "!"; py "! Backup taken at: " ++ now; py "! By: Hardening Module"; py "! Device: " ++ host; py "!"].
Definition executor_error (what : string) (e : exc) : exc :=
  Raised (py "HardeningExecutionError") (py what ++ py ": " ++ exc_text e).
Definition ios_snapshot : step IOS pystr :=
  with_ios "backup_config" (
    catch (bind! config := on_ios (ios_send_command show_running 30) in
           bind! now := read_ (fun d => ios_utcnow (ios_client d)) in
           done_ (ios_header now ++ config))
          (fun e => throw (executor_error "Failed to backup config" e))).

(** [CiscoDriver.auto_revert_available] *)
Definition archive_off (out : pystr) : bool :=
  any_in (map py ["not enabled"; "invalid input"; "%incomplete"; "% incomplete"]%string) (lower out)
  || negb (is_infix (py "archive") (lower out)).
Definition ios_auto_revert_available : step IOS (bool * pystr) :=
  with_ios "ssh_client" (
    bind! out := on_ios (ios_send_command (py "show archive") 30) in
    done_ (if archive_off out
           then (false, py "The device's archive feature is not configured, so IOS cannot roll back on its own (configure 'archive' + 'path' to enable it).")
           else (true, py "configure terminal revert timer"))).

Definition ios_plan (backup_text live_text : pystr) : step IOS RestorePlan := fun d =>
  match key_exc (diff_cisco backup_text live_text) with
  | Raise e => (Raise e, d)
  | Ok (cmds, diff) => (Ok (Plan diff cmds None (cisco_risks diff backup_text username)), d)
  end.

(** [_ensure_enable] *)
Definition _ensure_enable : step IOS unit :=
  with_ios "ssh_client" (
    bind! there := read_ (fun d => ios_in_enable_mode (ios_client d)) in
    if there : bool then done_ tt else
      bind! ok := on_ios ios_ensure_enable_mode in
      if ok : bool then done_ tt
      else throw (RestoreApplyError (py "Cannot enter privileged mode: provide the enable secret."))).

(** [CiscoDriver.apply] *)
Definition revert_timer (minutes : Z) : pystr := py "configure terminal revert timer " ++ str_of_int minutes.
Definition ios_apply (p : RestorePlan) (revert_minutes : option Z) : step IOS unit :=
  then! _ensure_enable in
  then! match truthy_minutes revert_minutes with
        | Some m =>
            then! on_ios (conn_config_mode (Some (revert_timer m))) in
            bind! inside := on_ios conn_check_config_mode in
            if inside : bool then modify_ (fun d => Cisco (ios_client d) (ios_executor d) true)
            else throw (RestoreApplyError (py "The device refused 'configure terminal revert timer'."))
        | None => on_ios (conn_config_mode None)
        end in
  bind! output := on_ios (conn_send_config_set (commands p)) in
  then! on_ios conn_exit_config_mode in
  match _check_for_errors output with
  | e :: _ => throw (RestoreApplyError (py "The device rejected a command: " ++ e))
  | [] => done_ tt
  end.

(** [CiscoDriver.confirm], with [CiscoHardeningExecutor.save_config] *)
Definition ios_confirm : step IOS unit :=
  bind! armed := read_ ios_armed in
  then! (if armed : bool then with_ios "ssh_client" (on_ios (conn_send_command (py "configure confirm"))) else done_ tt) in
  with_ios "save_config" (
    catch (on_ios conn_save_config) (fun e => throw (executor_error "Failed to save config" e))).

(** [CiscoDriver.revert_now] *)
Definition ios_revert_now : step IOS unit :=
  bind! armed := read_ ios_armed in
  if armed : bool then with_ios "ssh_client" (on_ios (conn_send_command_timing (py "configure revert now"))) else done_ tt.

#[export] Instance cisco_driver : Driver IOS := {
  d_open := ios_open; d_close := ios_close; d_read_live := ios_read_live; d_snapshot := ios_snapshot;
  d_auto_revert_available := ios_auto_revert_available;
  d_plan := ios_plan; d_apply := ios_apply; d_confirm := ios_confirm; d_revert_now := ios_revert_now;
  monotonic := fun d => ios_monotonic (ios_client d);
  sleep := fun n d => Cisco (ios_sleep n (ios_client d)) (ios_executor d) (ios_armed d) }.
End CiscoDriver.

(** A count that only a push of configuration commands moves. *)
Class Pushes (S : Type) `{IosClient S} : Type := {
  pushed : S -> nat;
  push_once : forall cmds s, pushed (snd (conn_send_config_set cmds s)) = Datatypes.S (pushed s);
  enable_pushes_nothing : forall s, pushed (snd (ios_ensure_enable_mode s)) = pushed s;
  mode_pushes_nothing : forall m s, pushed (snd (conn_config_mode m s)) = pushed s;
  check_pushes_nothing : forall s, pushed (snd (conn_check_config_mode s)) = pushed s;
  exit_pushes_nothing : forall s, pushed (snd (conn_exit_config_mode s)) = pushed s }.

(** On Cisco IOS nothing is pushed outside the device's revert timer when
    one is asked for: [apply] pushes the commands at most once, and if it
    pushed them the session is in configuration mode under the timer and
    marked as armed; and when it returns normally they were pushed and no
    line of the device's answer is an error. *)
Theorem ios_apply_armed_first {S} `{Pushes S} (p : RestorePlan) (minutes : Z) (d : CiscoDriver S) :
  minutes <> 0 ->
  let x := ios_apply p (Some minutes) d in
  (pushed (ios_client (snd x)) = pushed (ios_client d)
   \/ pushed (ios_client (snd x)) = Datatypes.S (pushed (ios_client d)) /\ ios_armed (snd x) = true)
  /\ (fst x = Ok tt -> pushed (ios_client (snd x)) = Datatypes.S (pushed (ios_client d))
        /\ exists output s, fst (conn_send_config_set (commands p) s) = Ok output /\ _check_for_errors output = []).
Proof.
  intros Hm. cbv zeta.
  set (good := fun y : res exc unit * CiscoDriver S =>
    (pushed (ios_client (snd y)) = pushed (ios_client d)
     \/ pushed (ios_client (snd y)) = Datatypes.S (pushed (ios_client d)) /\ ios_armed (snd y) = true)
    /\ (fst y = Ok tt -> pushed (ios_client (snd y)) = Datatypes.S (pushed (ios_client d))
          /\ exists output s, fst (conn_send_config_set (commands p) s) = Ok output /\ _check_for_errors output = [])).
  change (good (ios_apply p (Some minutes) d)).
  assert (Hstop : forall e s, pushed (ios_client s) = pushed (ios_client d) -> good (Raise e, s)) by (intros e s Hp; split; [by left|done]).
  unfold ios_apply, andthen at 1.
  assert (He : pushed (ios_client (snd (_ensure_enable d))) = pushed (ios_client d)).
  { unfold _ensure_enable, with_ios. destruct (ios_executor d); [|done]. unfold andthen, read_. destruct (ios_in_enable_mode _); [done|].
    unfold on_ios. pose proof (enable_pushes_nothing (ios_client d)) as Hp. destruct (ios_ensure_enable_mode _) as [[[]|e] s]; exact Hp. }
  destruct (_ensure_enable d) as [[[]|e] d0]; [|by apply Hstop]. cbn [snd] in He.
  unfold truthy_minutes. destruct (minutes =? 0) eqn:E0; [lia|]. unfold andthen at 1 2, on_ios at 1.
  pose proof (mode_pushes_nothing (Some (revert_timer minutes)) (ios_client d0)) as H1.
  destruct (conn_config_mode _ (ios_client d0)) as [[[]|e] s1]; cbn [snd] in H1; [|apply Hstop; cbn; congruence].
  unfold andthen at 1, on_ios at 1. cbn [ios_client].
  pose proof (check_pushes_nothing s1) as H2. destruct (conn_check_config_mode s1) as [[inside|e] s2]; cbn [snd] in H2;
    [|apply Hstop; cbn; congruence].
  destruct inside; cbn [modify_ throw]; [|apply Hstop; cbn; congruence].
  unfold andthen at 1, on_ios at 1. cbn [ios_client ios_executor].
  pose proof (push_once (commands p) s2) as H3. destruct (conn_send_config_set (commands p) s2) as [[output|e] s3] eqn:Eo; cbn [snd] in H3.
  2: { split; [right; cbn; split; [congruence|done]|done]. }
  unfold andthen at 1, on_ios at 1. cbn [ios_client ios_executor ios_armed].
  pose proof (exit_pushes_nothing s3) as H4. destruct (conn_exit_config_mode s3) as [[[]|e] s4]; cbn [snd] in H4.
  2: { split; [right; cbn; split; [congruence|done]|done]. }
  destruct (_check_for_errors output) eqn:Ec; (split; [right; cbn; split; [congruence|done]|]); [|done].
  intros _. cbn. split; [congruence|]. exists output, s2. by rewrite Eo.
Qed.

(** ** Linux, Apache and MongoDB servers *)
(** What the driver uses of [HardeningSSHRunner]; it ignores errors when it
    disconnects.  [host_run] is [send_command_with_status(command,
    use_sudo=True, timeout=…)]: the output and the exit status. *)
Class HostClient (S : Type) : Type := {
  host_connect : step S unit;
  host_disconnect : S -> S;
  host_run : pystr -> Z -> step S (pystr * Z);
  host_utcnow : S -> pystr;
  host_monotonic : S -> Z;
  host_sleep : Z -> S -> S }.

(** [runner] says whether the driver has one; the rest as in the code. *)
Record FileBundleDriver (S : Type) : Type := HostDriver {
  host_client : S; runner : bool; timer_pid : option pystr; planned : option BundlePlan }.
Arguments HostDriver {S}. Arguments host_client {S}. Arguments runner {S}. Arguments timer_pid {S}. Arguments planned {S}.

Section FileBundleDriver.
Context {S : Type} `{HostClient S}.
Notation HD := (FileBundleDriver S).
(** The family, the credentials and the job. *)
Variables (fam host username : pystr) (port job : Z).
Definition workdir : pystr := py "/var/tmp/ngcorion-restore-" ++ str_of_int job.

Definition host_init (s : S) : HD := HostDriver s false None None.
Definition on_host {A} (m : step S A) : step HD A :=
  fun d => let '(r, s) := m (host_client d) in (r, HostDriver s (runner d) (timer_pid d) (planned d)).

(** [FileBundleDriver.open]: the runner is kept even if it does not connect. *)
Definition host_open : step HD unit :=
  then! modify_ (fun d => HostDriver (host_client d) true (timer_pid d) (planned d)) in on_host host_connect.
Definition host_close : step HD unit :=
  modify_ (fun d => if runner d then HostDriver (host_disconnect (host_client d)) false (timer_pid d) (planned d) else d).

(** [_sudo], [_must] *)
Definition _sudo (command : pystr) (timeout : Z) : step HD (pystr * Z) :=
  fun d => if runner d then on_host (host_run (py "sh -c " ++ quote_shell command) timeout) d
           else (Raise (no_attribute "send_command_with_status"), d).
Definition last_of (n : nat) (s : pystr) : pystr := drop (length s - n) s.
Definition failure_text (out : pystr) (status : Z) : pystr :=
  match last_of 300 (strip out) with [] => py "exit " ++ str_of_int status | t => t end.
Definition _must (command what : pystr) (timeout : Z) : step HD pystr :=
  bind! (out, status) := _sudo command timeout in
  if status =? 0 then done_ out else throw (RestoreApplyError (what ++ py " failed: " ++ failure_text out status)).
Definition do_must (command what : pystr) (timeout : Z) : step HD unit := then! _must command what timeout in done_ tt.

Definition lift_value {A} (r : res value_error A) : step HD A := match value_exc r with Ok a => done_ a | Raise e => throw e end.
Definition host_read_live : step HD pystr :=
  bind! paths := lift_value (family_paths fam) in
  _must (build_file_bundle_command paths) (py "Reading configuration files") 120.

(** [bundle_header] (src/app/modules/shared/hardening_backup.py) *)
Definition upper1 (c : ascii) : ascii := if is_lower c then chr (ord c - 32) else c.
Definition bundle_header (now : pystr) : pystr :=
  lines_of [py "##### " ++ map upper1 fam ++ py " Configuration Backup #####"; py "# Backup taken at: " ++ now ++ py "Z";
            py "# Device: " ++ (match host with [] => py "unknown" | h => h end); py "# By: Hardening Module"; py "#"].
Definition host_snapshot : step HD pystr :=
  bind! now := read_ (fun d => host_utcnow (host_client d)) in
  bind! text := host_read_live in
  done_ (bundle_header now ++ text).

Definition host_plan (backup_text live_text : pystr) : step HD RestorePlan :=
  bind! b := lift_value (plan_bundle backup_text live_text fam) in
  let d := bundle_diff_of fam b in
  bind! rs := lift_value (bundle_risks d (files_after b (parse_bundle live_text)) fam username port) in
  done_ (Plan d [] (Some b) rs).

(** The process id printed last. *)
Definition pid_of (out : pystr) : option pystr :=
  match rev (splitlines (strip out)) with [] => None | l :: _ => Some (strip l) end.
(** The run of a validation: its answer decides. *)
Definition validate_one (cmd : pystr) : step HD unit :=
  bind! (out, status) := _sudo cmd 120 in
  if status =? 0 then done_ tt
  else throw (RestoreApplyError (py "The restored configuration did not validate: " ++ last_of 300 (strip out))).
(** [FileBundleDriver.apply] *)
Definition host_apply (p : RestorePlan) (revert_minutes : option Z) : step HD unit :=
  match bundle p with
  | None => throw (no_attribute "write")
  | Some b =>
      then! modify_ (fun d => HostDriver (host_client d) (runner d) (timer_pid d) (Some b)) in
      then! do_must (snapshot_command b workdir) (py "Saving the current files") 120 in
      then! match truthy_minutes revert_minutes with
            | Some m =>
                bind! out := _must (arm_timer_command workdir m (revert_script b fam workdir)) (py "Arming the auto-revert timer") 120 in
                modify_ (fun d => HostDriver (host_client d) (runner d) (pid_of out) (planned d))
            | None => done_ tt
            end in
      then! each (fun f => do_must (write_command (fst f) (snd f)) (py "Writing " ++ fst f) 120) (write b) in
      then! each (fun path => do_must (remove_command path) (py "Removing " ++ path) 120) (remove b) in
      then! each validate_one (validate_commands b fam) in
      each (fun cmd => do_must cmd (py "Reloading the service") 180) (reload_commands b fam)
  end.

(** [FileBundleDriver.confirm], [FileBundleDriver.revert_now] *)
Definition run_disarm : step HD unit :=
  bind! pid := read_ timer_pid in
  bind! cmd := lift_value (disarm_command pid workdir) in
  then! _sudo cmd 120 in done_ tt.
Definition host_confirm : step HD unit := run_disarm.
Definition host_revert_now : step HD unit :=
  bind! p := read_ planned in
  match p with
  | None => done_ tt
  | Some b => then! _sudo (revert_script b fam workdir) 180 in run_disarm
  end.

#[export] Instance host_driver : Driver HD := {
  d_open := host_open; d_close := host_close; d_read_live := host_read_live; d_snapshot := host_snapshot;
  d_auto_revert_available := done_ (true, py "revert timer on the host");
  d_plan := host_plan; d_apply := host_apply; d_confirm := host_confirm; d_revert_now := host_revert_now;
  monotonic := fun d => host_monotonic (host_client d);
  sleep := fun n d => HostDriver (host_sleep n (host_client d)) (runner d) (timer_pid d) (planned d) }.
End FileBundleDriver.

(** *** The order of what a host is asked to do *)
(** A record of the commands run on the host. *)
Class HostLog (S : Type) `{HostClient S} : Type := {
  ran : S -> list pystr;
  run_logged : forall c t s, ran (snd (host_run c t s)) = ran s ++ [c] }.

Section HostOrder.
Context {S : Type} `{HostLog S}.
Notation HD := (FileBundleDriver S).
Variables (fam : pystr) (job : Z).

(** The commands of [cs] are run in order, each only if those before it
    succeeded, and all of them when the step returns. *)
Definition follows {A} (m : step HD A) (cs : list pystr) : Prop :=
  forall d, runner d = true -> runner (snd (m d)) = true /\ exists k,
    ran (host_client (snd (m d))) = ran (host_client d) ++ take k cs
    /\ match fst (m d) with Ok _ => (length cs <= k)%nat | Raise _ => True end.

Lemma follows_andthen {A B} (m : step HD A) (k : A -> step HD B) cs cs' :
  follows m cs -> (forall a, follows (k a) cs') -> follows (andthen m k) (cs ++ cs').
Proof.
  intros Hm Hk d Hd. destruct (Hm d Hd) as [Hr (n & En & Hn)]. unfold andthen. destruct (m d) as [[a|e] d1]; cbn [fst snd] in *.
  - destruct (Hk a d1 Hr) as [Hr' (n' & En' & Hn')]. split; [done|]. exists (length cs + n')%nat.
    rewrite En', En, (take_ge cs n) by done. rewrite take_app_add, <- app_assoc. split; [done|].
    destruct (fst (k a d1)); [rewrite length_app; lia|done].
  - split; [done|]. exists (min n (length cs)). split; [|done]. rewrite En, take_app_le by lia. f_equal.
    destruct (decide (n <= length cs)%nat); [by rewrite Nat.min_l|]. rewrite Nat.min_r, firstn_all by lia. by apply take_ge; lia.
Qed.
Lemma follows_done {A} (a : A) : follows (done_ a) [].
Proof. intros d Hd. split; [done|]. exists 0%nat. cbn. by rewrite app_nil_r. Qed.
Lemma follows_throw {A} (e : exc) cs : follows (throw (A := A) e) cs.
Proof. intros d Hd. split; [done|]. exists 0%nat. cbn. by rewrite app_nil_r. Qed.
Lemma follows_modify (f : HD -> HD) :
  (forall d, host_client (f d) = host_client d /\ runner (f d) = runner d) -> follows (modify_ f) [].
Proof. intros Hf d Hd. destruct (Hf d) as [E1 E2]. cbn. rewrite E1, E2. split; [done|]. exists 0%nat. by rewrite app_nil_r. Qed.
Lemma follows_each {A} (f : A -> step HD unit) (g : A -> pystr) l :
  (forall x, follows (f x) [g x]) -> follows (each f l) (map g l).
Proof.
  intros Hf. induction l as [|x l IH]; [apply follows_done|]. cbn [each map]. apply (follows_andthen (f x) _ [g x]); [apply Hf|done].
Qed.

Definition sh (command : pystr) : pystr := py "sh -c " ++ quote_shell command.
Lemma follows_sudo command t : follows (_sudo command t) [sh command].
Proof.
  intros d Hd. unfold _sudo. rewrite Hd. unfold on_host. pose proof (run_logged (sh command) t (host_client d)) as Hl.
  unfold sh in *. destruct (host_run _ t (host_client d)) as [r s]. cbn [fst snd] in *. split; [done|]. exists 1%nat. cbn. split; [done|].
  destruct r; [lia|done].
Qed.
Lemma follows_must command what t : follows (_must command what t) [sh command].
Proof.
  apply (follows_andthen _ _ [sh command] []); [apply follows_sudo|]. intros [out status]. destruct (status =? 0); [apply follows_done|apply follows_throw].
Qed.
Lemma follows_do_must command what t : follows (do_must command what t) [sh command].
Proof. apply (follows_andthen _ _ [sh command] []); [apply follows_must|]. intros _. apply follows_done. Qed.

(** The commands a restore runs on the host. *)
Definition arming (b : BundlePlan) (minutes : option Z) : list pystr :=
  match truthy_minutes minutes with
  | Some m => [arm_timer_command (workdir job) m (revert_script b fam (workdir job))]
  | None => []
  end.
Definition apply_commands (b : BundlePlan) (minutes : option Z) : list pystr :=
  snapshot_command b (workdir job) :: arming b minutes
  ++ map (fun f => write_command (fst f) (snd f)) (write b) ++ map remove_command (remove b)
  ++ validate_commands b fam ++ reload_commands b fam.

(** On a server nothing is written before it can be undone: [apply] asks
    the host for the snapshot of every file it will touch, then for the
    auto-revert timer when one is asked for, then for the writes, the
    removals, the validation and the reload, each only if everything before
    it succeeded, and for all of them when it returns normally. *)
Theorem host_apply_order p b minutes d :
  bundle p = Some b -> runner d = true ->
  let x := host_apply fam job p minutes d in
  exists k, ran (host_client (snd x)) = ran (host_client d) ++ take k (map sh (apply_commands b minutes))
    /\ (fst x = Ok tt -> ran (host_client (snd x)) = ran (host_client d) ++ map sh (apply_commands b minutes)).
Proof.
  intros Hb Hd x. assert (Hf : follows (host_apply fam job p minutes) (map sh (apply_commands b minutes))).
  { unfold host_apply, apply_commands. rewrite Hb. cbn [map]. rewrite !map_app, !map_map.
    apply (follows_andthen _ _ []); [by apply follows_modify|]. intros _.
    apply (follows_andthen _ _ [_]); [apply follows_do_must|]. intros _.
    apply follows_andthen.
    { unfold arming. destruct (truthy_minutes minutes) as [m|]; [|apply follows_done].
      apply (follows_andthen _ _ [_] []); [apply follows_must|]. intros out. by apply follows_modify. }
    intros _. apply follows_andthen; [apply follows_each; intros f; apply follows_do_must|]. intros _.
    apply follows_andthen; [apply follows_each; intros f; apply follows_do_must|]. intros _.
    apply follows_andthen; [|intros _; apply follows_each; intros f; apply follows_do_must].
    apply follows_each. intros cmd. apply (follows_andthen _ _ [_] []); [apply follows_sudo|].
    intros [out status]. destruct (status =? 0); [apply follows_done|apply follows_throw]. }
  destruct (Hf d Hd) as [_ (k & E & Hk)]. exists k. split; [exact E|]. intros Hx. unfold x in *. rewrite Hx in Hk.
  rewrite E. by rewrite take_ge.
Qed.
End HostOrder.

(** ** A FortiGate to try the job on *)
Record bench : Type := Bench { bench_mode : pystr; bench_host : pystr; bench_log : list pystr; bench_clock : Z }.
Definition bench_text (host mode : pystr) : pystr :=
  lines_of [py "config system global"; py "    set hostname " ++ host; py "    set cfg-save " ++ mode; py "end"].
Definition bench_send (c : pystr) (b : bench) : res exc pystr * bench :=
  let b' := b {{ bench_log := bench_log b ++ [c] }} in
  if bool_decide (c = show_full) then (Ok (bench_text (bench_host b) (bench_mode b)), b')
  else if is_prefix (py "set cfg-save ") c then (Ok [], b' {{ bench_mode := drop 13 c }})
  else if is_prefix (py "set hostname ") c then (Ok [], b' {{ bench_host := drop 13 c }})
  else (Ok [], b').
#[export] Instance bench_client : FortiClient bench := {
  fc_connect := done_ tt; fc_disconnect := fun b => b; fc_is_vdom_enabled := done_ false;
  fc_raw_send := bench_send; fc_send_timing := bench_send; fc_source_ip := done_ None;
  fc_utcnow := fun _ => py "2026-01-01T00:00:00"; fc_monotonic := bench_clock;
  fc_sleep := fun n b => b {{ bench_clock := bench_clock b + Z.max 0 n }} }.

Definition bench_job : JobRow :=
  Job 7 (py "fortinet") (bench_text (py "a") (py "automatic")) 10 (Some 1) JQueued false None None [] None false false (py "w1").
Definition bench_world (host : string) : world (FortiGateDriver bench) :=
  World (forti_init (Bench (py "automatic") (py host) [] 0)) bench_job [] [] [].
Definition bench_driver : Driver (FortiGateDriver bench) := forti_driver no_ipv6_network no_ipv6 (py "10.0.0.1") (py "ngc") 22.
Definition bench_print (host : string) : pystr :=
  match parse_fortios (bench_text (py host) (py "automatic")) with Ok n => flat_text n | Raise _ => [] end.
Definition bench_run (host : string) (fuel : nat) : result unit * world (FortiGateDriver bench) :=
  run_restore (H := bench_driver) (fun t => t) (fun t => t)
    (py "10.0.0.1") 22 fuel (bench_print host) false false (bench_world host).

Lemma bench_clock_laws : ClockLaws (H := bench_driver).
Proof.
  split.
  - intros n d Hn. cbn. lia.
  - intros d. cbn. done.
  - intros d. cbn. unfold forti_close, modify_. cbn. by destruct (fg_executor d).
Qed.

(** The whole job on this device: it succeeds, and the device that saved its
    changes by itself no longer does. *)
Lemma bench_left_in_revert :
  let x := bench_run "b" 24 in
  fst x = Ret tt /\ status (row (snd x)) = JSucceeded
  /\ bench_host (fg_client (dev (snd x))) = py "a" /\ bench_mode (fg_client (dev (snd x))) = py "revert".
Proof. vm_compute. done. Qed.

Lemma restore_writes_guarded_witness :
  exists live p d id pre rest,
    calls (snd (bench_run "b" 24)) = COpen true :: CRead live :: CStored pre :: CApply (Some 10) true :: rest
    /\ fst (d_plan (Driver := bench_driver) (bench_text (py "a") (py "automatic")) live d) = Ok p
    /\ undo (snd (bench_run "b" 24)) = [(id, pre)].
Proof.
  destruct (restore_writes_guarded (H := bench_driver) (fun t => t) (fun t => t)
    (py "10.0.0.1") 22 24 (bench_print "b") false false (bench_world "b") (Some 10) true)
    as (live & p & d & id & pre & rest & H1 & _ & _ & H2 & _ & _ & _ & H3).
  - done.
  - vm_compute. do 3 constructor 2. constructor 1.
  - exists live, p, d, id, pre, rest. exact (conj H1 (conj H2 H3)).
Defined.

Lemma restore_outcome_witness :
  fst (bench_run "b" 24) = Ret tt /\ exists cs minutes after n,
    calls (snd (bench_run "b" 24)) = cs ++ [COpen true; CRead after; CConfirm true; CClose]
    /\ CApply minutes true ∈ cs /\ not_asked cs
    /\ configs_match (py "fortinet") (bench_text (py "a") (py "automatic")) after = Ok (true, n).
Proof.
  destruct (restore_outcome (H := bench_driver) (fun t => t) (fun t => t)
    (py "10.0.0.1") 22 24 (bench_print "b") false false (bench_world "b")) as (H1 & _ & _ & H2).
  - done.
  - vm_compute. done.
  - split; [exact H1|]. destruct (decide _) as [_|Hs]; [|exfalso; apply Hs; vm_compute; reflexivity].
    destruct H2 as [(live & p & d & H2 & _)|H2]; [|exact H2]. exfalso. revert H2. vm_compute. done.
Defined.

Lemma restore_ends_witness :
  fst (bench_run "b" 24) = Ret tt /\ is_final (status (row (snd (bench_run "b" 24)))) = true.
Proof.
  apply (@restore_ends _ bench_driver (fun t => t) (fun t => t)
    (py "10.0.0.1") 22 bench_clock_laws 24 (bench_print "b") false false (bench_world "b")). vm_compute. done.
Defined.

(** A device that only records what it is sent. *)
Definition recorder : Type := list pystr.
#[export] Instance recorder_client : FortiClient recorder := {
  fc_connect := done_ tt; fc_disconnect := fun b => b; fc_is_vdom_enabled := done_ false;
  fc_raw_send := fun c b => (Ok (if bool_decide (c = show_full) then bench_text (py "a") (py "revert") else []), b ++ [c]);
  fc_send_timing := fun c b => (Ok [], b ++ [c]); fc_source_ip := done_ None;
  fc_utcnow := fun _ => []; fc_monotonic := fun _ => 0; fc_sleep := fun _ b => b }.
#[export] Instance recorder_accepting : Accepting recorder.
Proof.
  refine {| sent := fun b : recorder => b |}. intros c s. eexists _, _. split; [reflexivity|]. split; [|done].
  by destruct (bool_decide (c = show_full)).
Defined.

Lemma confirm_writes_last_mode_witness :
  exists text d1 d2,
    forti_read_live (FortiGate ([] : recorder) true true (py "automatic") false) = (Ok text, d1)
    /\ forti_confirm d1 = (Ok tt, d2)
    /\ sent (fg_client d2) = [show_full; cfg_save; py "config system global"; py "set cfg-save revert"; py "end"; cfg_save].
Proof.
  destruct (confirm_writes_last_mode (FortiGate ([] : recorder) true true (py "automatic") false) (py "revert"))
    as (text & d1 & d2 & H1 & H2 & H3); [done|done| |].
  - intros text s'. cbn -[bench_text word_after]. rewrite bool_decide_eq_true_2 by done. intros [= <- <-]. vm_compute. done.
  - exists text, d1, d2. exact (conj H1 (conj H2 H3)).
Defined.

(** A router that accepts everything and counts the pushes. *)
#[export] Instance router_client : IosClient nat := {
  ios_connect := done_ tt; ios_disconnect := fun s => s; ios_send_command := fun _ _ => done_ (py "hostname r1");
  ios_in_enable_mode := fun _ => true; ios_ensure_enable_mode := done_ true;
  conn_config_mode := fun _ => done_ tt; conn_check_config_mode := done_ true;
  conn_send_config_set := fun _ s => (Ok (py "r1(config)#"), Datatypes.S s);
  conn_exit_config_mode := done_ tt; conn_send_command := fun _ => done_ tt;
  conn_send_command_timing := fun _ => done_ tt; conn_save_config := done_ tt;
  ios_utcnow := fun _ => []; ios_monotonic := fun _ => 0; ios_sleep := fun _ s => s }.
#[export] Instance router_pushes : Pushes nat.
Proof. by refine {| pushed := fun s : nat => s |}. Defined.

Lemma ios_apply_armed_first_witness :
  let p := Plan (Diff [] []) [py "hostname r2"] None [] in
  exists x, ios_apply p (Some 10) (Cisco 0%nat true false) = x /\ fst x = Ok tt /\ pushed (ios_client (snd x)) = 1%nat.
Proof.
  intros p. destruct (ios_apply_armed_first p 10 (Cisco 0%nat true false)) as [_ H]; [done|].
  eexists. split; [reflexivity|]. split; [reflexivity|]. apply H. reflexivity.
Defined.

(** A host where everything succeeds. *)
Definition quiet_host : Type := list pystr.
#[export] Instance quiet_host_client : HostClient quiet_host := {
  host_connect := done_ tt; host_disconnect := fun s => s; host_run := fun c _ s => (Ok (py "4242", 0), s ++ [c]);
  host_utcnow := fun _ => []; host_monotonic := fun _ => 0; host_sleep := fun _ s => s }.
#[export] Instance quiet_host_log : HostLog quiet_host.
Proof. by refine {| ran := fun s : quiet_host => s |}. Defined.

Lemma host_apply_order_witness :
  let b := Bundle [(py "/etc/motd", py "hello")] [] [] [] in
  let x := host_apply (py "linux") 7 (Plan (Diff [] []) [] (Some b) []) (Some 10) (HostDriver ([] : quiet_host) true None None) in
  fst x = Ok tt /\ length (ran (host_client (snd x))) = 3%nat.
Proof.
  intros b x. assert (Hx : fst x = Ok tt) by (vm_compute; reflexivity). split; [exact Hx|].
  destruct (host_apply_order (py "linux") 7 (Plan (Diff [] []) [] (Some b) []) b (Some 10) (HostDriver ([] : quiet_host) true None None))
    as (k & _ & H); [reflexivity|reflexivity|]. unfold x in *. rewrite (H Hx). vm_compute. reflexivity.
Defined.
