(* ===== verification/GroupRuns.v ===== *)
(** * Group runs: one audit or backup of every asset of a group
    (src/app/modules/asset_groups/runs.py, src/app/models/asset_groups.py)

    The tables group_runs and group_run_items are lists in the order of their
    ids.  A database transaction is one step: the worker thread of an item
    has one that decides what to do ([run_item_begin]) and one that stores the
    outcome ([run_item_end]); the device is contacted in between, while other
    steps happen.  The worker starts ([start_worker]) and sweeps again and
    again ([loop_turn]) without waiting for the threads it has started. *)
From S2P Require Import Prelude PyStr Json Scheduling Backups.

(** ** Data *)
Inductive run_status : Type := RunQueued | RunRunning | RunStopping | RunStopped | RunDone.
Inductive item_status : Type := Queued | Running | Done | Failed | Skipped | Cancelled.
Inductive reason : Type := Auth | Unreachable | License | NoAddress | Error | Interrupted.
Inductive run_kind : Type := AuditRun | BackupRun.
Inductive outcome : Type := FirstCopy | ChangedCopy | UnchangedCopy.
#[global] Instance item_status_eq_dec : EqDecision item_status.
Proof. solve_decision. Defined.
#[global] Instance run_status_eq_dec : EqDecision run_status.
Proof. solve_decision. Defined.

Record GroupRun : Type := Run {
  run_id : Z; group_name : pystr; run_kind_of : run_kind; technology : pystr; audit_profile : option pystr;
  credential_profile_id : option Z; concurrency : Z; run_status_of : run_status;
  started_by : option Z; scheduled_job_id : option Z; by_syslog : bool;
  run_started_at : option Z; run_finished_at : option Z }.

Record GroupRunItem : Type := Item {
  item_id : Z; item_run : Z; item_asset : option Z; item_name : pystr; ip_address : option pystr;
  status : item_status; item_reason : option reason; detail : option pystr;
  session_id : option Z; compliance : option pyfloat; backup_ref : option Z; item_outcome : option outcome;
  attempts : Z; started_at : option Z; finished_at : option Z; claimed : bool }.

Record database : Type := Database {
  runs : list GroupRun; items : list GroupRunItem; next_run : Z; next_item : Z; device_backups : store }.

Inductive RunError : Type :=
| NotBackedUp | NotAudited | WrongProfileKind | NoAssets | TooMany | StillActive.

Definition MAX_CONCURRENCY : Z := 50.
Definition MAX_ASSETS : Z := 5000.
Definition DEFAULT_CONCURRENCY : Z := 10.

(** [run.status in ACTIVE] *)
Definition is_active (r : GroupRun) : bool :=
  match run_status_of r with RunQueued | RunRunning | RunStopping => true | _ => false end.
Definition is_terminal (s : item_status) : bool :=
  match s with Done | Failed | Skipped | Cancelled => true | _ => false end.

(** [UPDATE ... WHERE]: the rows that match are changed. *)
Definition update_where {A} (p : A -> bool) (f : A -> A) (l : list A) : list A :=
  map (fun x => if p x then f x else x) l.
Definition of_run (rid : Z) (st : item_status) (i : GroupRunItem) : bool :=
  (item_run i =? rid) && bool_decide (status i = st).
Definition has_id (id : Z) (i : GroupRunItem) : bool := item_id i =? id.
Definition run_has_id (id : Z) (r : GroupRun) : bool := run_id r =? id.
Definition get_item (d : database) (id : Z) : option GroupRunItem := List.find (has_id id) (items d).
Definition get_run (d : database) (id : Z) : option GroupRun := List.find (run_has_id id) (runs d).

(** ** Reasons *)
Definition _AUTH : list pystr :=
  map py ["authentication"; "auth failed"; "login failed"; "login rejected"; "permission denied";
          "access denied"; "sudo was refused"; "unauthorized"; "401"; "invalid credentials";
          "logon failure"; "permissionerror"]%string.
Definition _UNREACHABLE : list pystr :=
  map py ["timed out"; "timeout"; "unreachable"; "connection refused"; "no route"; "connectionerror";
          "could not connect"; "connection failed"; "name or service not known"; "network";
          "connection reset"; "eof"; "unable to connect"]%string.

(** [classify] *)
Definition classify (text : option pystr) : reason :=
  let t := lower (default [] text) in
  if existsb (fun m => is_infix m t) _AUTH then Auth
  else if existsb (fun m => is_infix m t) _UNREACHABLE then Unreachable
  else Error.

(** An exception: its class name, its text, and whether it is a [PermissionError]. *)
Record exn : Type := Exn { type_name : pystr; message : pystr; is_permission_error : bool }.

(** [_clean] *)
Definition secret_words : list pystr := map py ["password"; "secret"; "token"]%string.
Definition _clean (e : exn) : pystr :=
  if existsb (fun k => is_infix k (lower (message e))) secret_words
  then type_name e ++ py ": Authentication or connection error"
  else take 500 (type_name e ++ py ": " ++ message e).

(** ** Starting a run *)
Inductive profile_kind : Type := Ssh | Winrm | Mssql | SophosApi.
#[global] Instance profile_kind_eq_dec : EqDecision profile_kind.
Proof. solve_decision. Defined.

(** [profiles.TECH_KIND], [profiles.kind_for] *)
Definition ssh_technologies : list pystr :=
  map py ["cisco"; "fortinet"; "linux"; "apache"; "mongodb"; "docker"; "kubernetes"; "mysql"; "esxi"; "nginx"]%string.
Definition winrm_technologies : list pystr :=
  map py ["windows"; "active_directory"; "dns_server"; "dhcp_server"; "iis"]%string.
Definition TECH_KIND : list (pystr * profile_kind) :=
  map (fun t => (t, Ssh)) ssh_technologies ++ map (fun t => (t, Winrm)) winrm_technologies
  ++ [(py "mssql", Mssql); (py "sophos", SophosApi)].
Definition kind_for (tech : pystr) : option profile_kind :=
  snd <$> List.find (fun kv => bool_decide (fst kv = tech)) TECH_KIND.

Record CredentialProfile : Type := Profile { profile_id : Z; kind : profile_kind }.
Record Asset : Type := AssetRow { asset_key : Z; asset_name : option pystr; asset_ip : option pystr }.

Definition blank_text (o : option pystr) : bool := bool_decide (strip (default [] o) = []).

Section Start.
(** The benchmark modules' audit technologies (see [Scheduling.Jobs]). *)
Variable benchmarks : list (pystr * list pystr).

Definition check_kind (k : run_kind) (tech : pystr) (p : CredentialProfile) : res RunError unit :=
  match k with
  | BackupRun =>
      check Jobs.mem tech Jobs.FAMILIES else NotBackedUp in
      check bool_decide (kind p = Ssh) else WrongProfileKind in Ok tt
  | AuditRun =>
      match kind_for tech with
      | Some k =>
          check Jobs.mem tech (Jobs.SUPPORTED_TECHNOLOGIES benchmarks) else NotAudited in
          check bool_decide (k = kind p) else WrongProfileKind in Ok tt
      | None => Raise NotAudited
      end
  end.

Definition clamp_concurrency (o : option Z) : Z :=
  let n := match o with Some 0 | None => DEFAULT_CONCURRENCY | Some n => n end in
  Z.max 1 (Z.min n MAX_CONCURRENCY).

Definition new_item (now rid id : Z) (a : Asset) : GroupRunItem :=
  let i := Item id rid (Some (asset_key a))
             (match asset_name a with Some ((_ :: _) as n) => n | _ => py "#" ++ str_of_int (asset_key a) end)
             (asset_ip a) Queued None None None None None None 0 None None false in
  if blank_text (asset_ip a)
  then i {{ status := Skipped }} {{ item_reason := Some NoAddress }} {{ finished_at := Some now }}
  else i.

Fixpoint new_items (now rid id : Z) (assets : list Asset) : list GroupRunItem :=
  match assets with
  | [] => []
  | a :: assets => new_item now rid id a :: new_items now rid (id + 1) assets
  end.

(** [start_run]; [members] are the ids [groups.member_ids] gives, [inventory]
    the assets in the order of their ids. *)
Definition start_run (d : database) (now : Z) (inventory : list Asset) (members : list Z) (name tech : pystr)
    (p : CredentialProfile) (level : option pystr) (conc : option Z) (user : option Z) (job : option Z)
    (k : run_kind) (asset_ids : option (list Z)) (syslog : bool) : res RunError (database * GroupRun) :=
  let! _ := check_kind k tech p in
  let ids := match asset_ids with
             | Some wanted => List.filter (in_ids wanted) members
             | None => members end in
  check negb (bool_decide (ids = [])) else NoAssets in
  check Z.of_nat (length ids) <=? MAX_ASSETS else TooMany in
  let r := Run (next_run d) name k tech level (Some (profile_id p)) (clamp_concurrency conc) RunQueued
             user job syslog None None in
  let its := new_items now (run_id r) (next_item d)
               (List.filter (fun a => in_ids ids (asset_key a)) inventory) in
  Ok (d {{ runs := runs d ++ [r] }} {{ items := items d ++ its }}
        {{ next_run := next_run d + 1 }} {{ next_item := next_item d + Z.of_nat (length its) }}, r).
End Start.

(** ** Counting, stopping, retrying *)
Definition count (d : list GroupRunItem) (rid : Z) (st : item_status) : Z :=
  Z.of_nat (length (List.filter (of_run rid st) d)).
(** [counts] of one run, and the totals of [summary]. *)
Definition STATUSES : list item_status := [Queued; Running; Done; Failed; Skipped; Cancelled].
Definition zsum (l : list Z) : Z := foldr Z.add 0 l.
Definition total (d : database) (rid : Z) : Z := zsum (map (count (items d) rid) STATUSES).
Definition finished (d : database) (rid : Z) : Z := zsum (map (count (items d) rid) [Done; Failed; Skipped; Cancelled]).

(** [stop] *)
Definition stop1 (r : GroupRun) : GroupRun :=
  match run_status_of r with RunQueued | RunRunning => r {{ run_status_of := RunStopping }} | _ => r end.
Definition stop (d : database) (rid : Z) : database := d {{ runs := update_where (run_has_id rid) stop1 (runs d) }}.

(** [retry_failed] *)
Definition requeue (i : GroupRunItem) : GroupRunItem :=
  i {{ status := Queued }} {{ item_reason := None }} {{ detail := None }} {{ started_at := None }}
    {{ finished_at := None }} {{ claimed := false }}.
Definition rerun (r : GroupRun) : GroupRun := r {{ run_status_of := RunRunning }} {{ run_finished_at := None }}.
Definition retry_failed (d : database) (r : GroupRun) : res RunError (database * Z) :=
  check negb (is_active r) else StillActive in
  let n := count (items d) (run_id r) Failed in
  let d := d {{ items := update_where (of_run (run_id r) Failed) requeue (items d) }} in
  Ok (if n =? 0 then d else d {{ runs := update_where (run_has_id (run_id r)) rerun (runs d) }}, n).

(** [recover_interrupted] *)
Definition is_running (i : GroupRunItem) : bool := bool_decide (status i = Running).
Definition interrupt (now : Z) (i : GroupRunItem) : GroupRunItem :=
  i {{ status := Failed }} {{ item_reason := Some Interrupted }} {{ finished_at := Some now }}
    {{ detail := Some (py "NGCorion restarted while this asset was being processed") }}.
Definition recover_interrupted (d : database) (now : Z) : database :=
  d {{ items := update_where is_running (interrupt now) (items d) }}.

(** ** The queue: [sweep] *)
Definition run_item_started (now : Z) (i : GroupRunItem) : GroupRunItem :=
  i {{ status := Running }} {{ claimed := true }} {{ started_at := Some now }} {{ attempts := attempts i + 1 }}.
Definition cancel (now : Z) (i : GroupRunItem) : GroupRunItem :=
  i {{ status := Cancelled }} {{ finished_at := Some now }}.
Definition end_run (now : Z) (st : run_status) (r : GroupRun) : GroupRun :=
  r {{ run_status_of := st }} {{ run_finished_at := Some now }}.

(** The ids one run may start; [locked] are the rows another transaction holds. *)
Definition claimable (locked : Z -> bool) (rid : Z) (free : Z) (its : list GroupRunItem) : list Z :=
  map item_id (take (Z.to_nat free) (List.filter (fun i => of_run rid Queued i && negb (locked (item_id i))) its)).

(** The body of the loop for one active run: the run, the items, the ids claimed. *)
Definition sweep_run (locked : Z -> bool) (now : Z) (r : GroupRun) (its : list GroupRunItem)
    : GroupRun * list GroupRunItem * list Z :=
  let running := count its (run_id r) Running in
  let queued := count its (run_id r) Queued in
  match run_status_of r with
  | RunStopping =>
      let its := update_where (of_run (run_id r) Queued) (cancel now) its in
      (if running =? 0 then end_run now RunStopped r else r, its, [])
  | _ =>
      let r := match run_status_of r with
               | RunQueued => r {{ run_status_of := RunRunning }} {{ run_started_at := Some now }}
               | _ => r end in
      if (queued =? 0) && (running =? 0) then (end_run now RunDone r, its, [])
      else
        let free := concurrency r - running in
        if (free <=? 0) || (queued =? 0) then (r, its, [])
        else
          let ids := claimable locked (run_id r) free its in
          (r, update_where (fun i => in_ids ids (item_id i)) (run_item_started now) its, ids)
  end.

Fixpoint sweep_runs (locked : Z -> bool) (now : Z) (rs : list GroupRun) (its : list GroupRunItem)
    : list GroupRun * list GroupRunItem * list Z :=
  match rs with
  | [] => ([], its, [])
  | r :: rs =>
      let '(r', its, ids) := if is_active r then sweep_run locked now r its else (r, its, []) in
      let '(rs', its, more) := sweep_runs locked now rs its in
      (r' :: rs', its, ids ++ more)
  end.

(** [_finished]: a backup run that ends runs retention. *)
Definition ended_backup (r r' : GroupRun) : bool :=
  is_active r && negb (is_active r') && match run_kind_of r with BackupRun => true | AuditRun => false end.
Definition _finished (now : Z) (rs rs' : list GroupRun) (s : store) : store :=
  foldl (fun s rr => if ended_backup (fst rr) (snd rr) then fst (prune s now) else s) s (combine rs rs').

Definition sweep (locked : Z -> bool) (now : Z) (d : database) : database * list Z :=
  let '(rs, its, ids) := sweep_runs locked now (runs d) (items d) in
  (d {{ runs := rs }} {{ items := its }} {{ device_backups := _finished now (runs d) rs (device_backups d) }}, ids).

(** ** One asset: [run_item] *)
(** What the audit services store of an audit. *)
Record AuditSession : Type := Session {
  audit_id : Z; audited_asset : Z; audit_started_at : Z; audit_failed : bool;
  connection_error : option pystr; compliance_pct : option pyfloat }.

(** The parts of the database a thread reads besides its item and its run:
    the credential profiles, and what the license check raises for an asset. *)
Record surroundings : Type := Surroundings {
  profile_row : Z -> option CredentialProfile; license_refusal : Z -> option pystr }.

(** [_finish] *)
Definition finish_item (now : Z) (st : item_status) (why : option reason) (what : option pystr)
    (s : option AuditSession) (i : GroupRunItem) : GroupRunItem :=
  let i := i {{ status := st }} {{ item_reason := why }} {{ detail := what }} {{ finished_at := Some now }} in
  match s with
  | Some s => i {{ session_id := Some (audit_id s) }} {{ compliance := compliance_pct s }}
  | None => i
  end.
Definition _finish (d : database) (now id : Z) (st : item_status) (why : option reason) (what : option pystr)
    (s : option AuditSession) : database :=
  d {{ items := update_where (has_id id) (finish_item now st why what s) (items d) }}.

(** The last resort: an item still running becomes an internal error. *)
Definition internal_error (d : database) (now id : Z) : database :=
  match get_item d id with
  | Some i =>
      if bool_decide (status i = Running)
      then _finish d now id Failed (Some Error) (Some (py "Internal error")) None else d
  | None => d
  end.

(** The work left once the checks passed: the run and the asset. *)
Inductive task : Type := AuditTask (r : GroupRun) (asset : Z) | BackupTask (r : GroupRun) (asset : Z).

Definition run_item_begin (w : surroundings) (now id : Z) (d : database) : database * option task :=
  match get_item d id with
  | None => (d, None)
  | Some i =>
      match get_run d (item_run i) with
      | None => (internal_error d now id, None)
      | Some r =>
          if bool_decide (run_status_of r = RunStopping)
          then (_finish d now id Cancelled None None None, None)
          else
            match (match credential_profile_id r with Some p => if p =? 0 then None else profile_row w p | None => None end) with
            | None => (_finish d now id Failed (Some Error) (Some (py "The credential profile was deleted")) None, None)
            | Some p =>
                match item_asset i with
                | None => (_finish d now id Failed (Some Error) (Some (py "The asset was deleted")) None, None)
                | Some a =>
                    match run_kind_of r with
                    | BackupRun => (d, Some (BackupTask r a))
                    | AuditRun =>
                        match license_refusal w a with
                        | Some text => (_finish d now id Skipped (Some License) (Some (take 500 text)) None, None)
                        | None => (d, Some (AuditTask r a))
                        end
                    end
                end
            end
      end
  end.

(** What contacting the device gave. *)
Inductive answer : Type :=
| AuditReturned (s : AuditSession)
| AuditRaised (e : exn) (sessions : list AuditSession)
| BackupReturned (text : pystr) (new_id : Z)
| BackupRaised (e : exn)
| Crashed.

(** The session an audit that raised had already stored. *)
Definition session_since (sessions : list AuditSession) (i : GroupRunItem) : option AuditSession :=
  match started_at i, item_asset i with
  | Some t, Some a =>
      greatest (fun s => (audit_id s, 0))
        (List.filter (fun s => (audited_asset s =? a) && (t <=? audit_started_at s)) sessions)
  | _, _ => None
  end.
Definition error_of (s : option AuditSession) (e : exn) : pystr :=
  match s with
  | Some s => match connection_error s with Some ((_ :: _) as m) => m | _ => _clean e end
  | None => _clean e
  end.

(** [_backup_item] after [take_backup] returned a text *)
Definition _backup_item (d : database) (now id : Z) (r : GroupRun) (asset : Z) (text : pystr) (new_id : Z) : database :=
  if blank_text (Some text)
  then _finish d now id Failed (Some Error) (Some (py "The device returned an empty configuration")) None
  else
    let s := device_backups d in
    let previous := latest s asset None in
    let b := note_change s
               (Backup new_id asset (Some (technology r)) text None now None None None None None None None) previous in
    let '(s, ref, o) :=
      match change_origin b, previous with
      | Some Unchanged, Some p =>
          (s {{ backups := map (confirm (backup_id p) now) (backups s) }}, backup_id p, UnchangedCopy)
      | _, Some _ => (save s now (Some now) b, new_id, ChangedCopy)
      | _, None => (save s now (Some now) b, new_id, FirstCopy)
      end in
    let d := d {{ device_backups := s }}
               {{ items := update_where (has_id id) (fun i => i {{ backup_ref := Some ref }} {{ item_outcome := Some o }}) (items d) }} in
    _finish d now id Done None None None.

Definition run_item_end (now id : Z) (t : task) (a : answer) (d : database) : database :=
  match a, t with
  | AuditReturned s, AuditTask _ _ =>
      if audit_failed s
      then _finish d now id Failed (Some (classify (connection_error s))) (connection_error s) (Some s)
      else _finish d now id Done None None (Some s)
  | AuditRaised e sessions, AuditTask _ _ =>
      match get_item d id with
      | None => d
      | Some i =>
          let s := session_since sessions i in
          let m := error_of s e in
          _finish d now id Failed (Some (if is_permission_error e then Auth else classify (Some m))) (Some m) s
      end
  | BackupReturned text new_id, BackupTask r asset => _backup_item d now id r asset text new_id
  | BackupRaised e, BackupTask _ _ =>
      let m := _clean e in
      _finish d now id Failed
        (Some (if is_permission_error e then Auth else classify (Some (type_name e ++ py " " ++ m)))) (Some m) None
  | _, _ => internal_error d now id
  end.

(** [run_item], from one end to the other. *)
Definition run_item (w : surroundings) (now id : Z) (a : answer) (d : database) : database :=
  match run_item_begin w now id d with
  | (d, None) => d
  | (d, Some t) => run_item_end now id t a d
  end.

(** ** The system

    [submitted] are the ids handed to the thread pool, [working] the threads
    that contact a device.  A restart cancels the submitted ones, but a
    thread of the old process may still end. *)
Record system : Type := System { db : database; submitted : list Z; working : list (Z * task) }.

(** [GroupRunWorker._loop]: the recovery it starts with, and one turn of the
    loop, a sweep whose ids are handed to the pool. *)
Definition start_worker (now : Z) (s : system) : system := System (recover_interrupted (db s) now) [] (working s).
Definition loop_turn (locked : Z -> bool) (now : Z) (s : system) : system :=
  let '(d, ids) := sweep locked now (db s) in System d (submitted s ++ ids) (working s).

(** A thread of the pool goes on: one that was submitted begins, or one that
    contacted its device stores the outcome. *)
Inductive thread_step : system -> system -> Prop :=
| thread_begins d sub1 sub2 wk w now id :
    thread_step (System d (sub1 ++ id :: sub2) wk)
      (let '(d', t) := run_item_begin w now id d in
       System d' (sub1 ++ sub2) (match t with Some t => (id, t) :: wk | None => wk end))
| thread_ends d sub wk1 wk2 now id t a :
    thread_step (System d sub (wk1 ++ (id, t) :: wk2))
      (System (run_item_end now id t a d) sub (wk1 ++ wk2)).
Definition in_flight (s : system) : nat := length (submitted s) + length (working s).

Section Steps.
Variable benchmarks : list (pystr * list pystr).

Inductive step : system -> system -> Prop :=
| step_start d sub wk now inventory members name tech p level conc user job k ids syslog d' r :
    NoDup (map asset_key inventory) ->
    start_run benchmarks d now inventory members name tech p level conc user job k ids syslog = Ok (d', r) ->
    step (System d sub wk) (System d' sub wk)
| step_stop d sub wk rid : step (System d sub wk) (System (stop d rid) sub wk)
| step_retry d sub wk rid r d' n :
    get_run d rid = Some r -> retry_failed d r = Ok (d', n) ->
    step (System d sub wk) (System d' sub wk)
| step_sweep d sub wk locked now d' ids :
    sweep locked now d = (d', ids) -> step (System d sub wk) (System d' (sub ++ ids) wk)
| step_begin d sub1 sub2 wk w now id :
    step (System d (sub1 ++ id :: sub2) wk)
      (let '(d', t) := run_item_begin w now id d in
       System d' (sub1 ++ sub2) (match t with Some t => (id, t) :: wk | None => wk end))
| step_end d sub wk1 wk2 now id t a :
    step (System d sub (wk1 ++ (id, t) :: wk2))
      (System (run_item_end now id t a d) sub (wk1 ++ wk2))
| step_restart d sub wk now : step (System d sub wk) (System (recover_interrupted d now) [] wk)
| step_asset_deleted d sub wk a :
    step (System d sub wk)
      (System (d {{ items := update_where (fun i => bool_decide (item_asset i = Some a))
                               (fun i => i {{ item_asset := None }}) (items d) }}
                 {{ device_backups := (device_backups d) {{ backups := drop_asset a (backups (device_backups d)) }} }}) sub wk)
| step_profile_deleted d sub wk p :
    forallb (fun r => negb (is_active r && bool_decide (credential_profile_id r = Some p))) (runs d) = true ->
    step (System d sub wk)
      (System (d {{ runs := update_where (fun r => bool_decide (credential_profile_id r = Some p))
                              (fun r => r {{ credential_profile_id := None }}) (runs d) }}) sub wk).

(** What happens while nothing new is asked for: turns of the loop, threads,
    runs stopped, assets and profiles deleted, in any order. *)
Inductive work : system -> system -> Prop :=
| work_turn s locked now : work s (loop_turn locked now s)
| work_thread s s' : thread_step s s' -> work s s'
| work_stop d sub wk rid : work (System d sub wk) (System (stop d rid) sub wk)
| work_asset d sub wk a :
    work (System d sub wk)
      (System (d {{ items := update_where (fun i => bool_decide (item_asset i = Some a))
                               (fun i => i {{ item_asset := None }}) (items d) }}
                 {{ device_backups := (device_backups d) {{ backups := drop_asset a (backups (device_backups d)) }} }}) sub wk)
| work_profile d sub wk p :
    forallb (fun r => negb (is_active r && bool_decide (credential_profile_id r = Some p))) (runs d) = true ->
    work (System d sub wk)
      (System (d {{ runs := update_where (fun r => bool_decide (credential_profile_id r = Some p))
                              (fun r => r {{ credential_profile_id := None }}) (runs d) }}) sub wk).

(** A stretch of work with a sweep that finds no row locked and, if threads
    are submitted or busy after it, a step of at least one thread later. *)
Inductive round : system -> system -> Prop :=
| round_quiet s0 s1 now s3 :
    rtc work s0 s1 -> in_flight (loop_turn (fun _ => false) now s1) = 0%nat ->
    rtc work (loop_turn (fun _ => false) now s1) s3 -> round s0 s3
| round_busy s0 s1 now s2 s2' s3 :
    rtc work s0 s1 -> rtc work (loop_turn (fun _ => false) now s1) s2 -> thread_step s2 s2' -> rtc work s2' s3 ->
    round s0 s3.

Definition empty : database := Database [] [] 1 1 (Store [] [] [] None).
Inductive reachable : system -> Prop :=
| reach_start : reachable (System empty [] [])
| reach_step s s' : reachable s -> step s s' -> reachable s'.
End Steps.

(** ** The invariant *)
Definition failing (s : item_status) : bool := match s with Failed | Skipped => true | _ => false end.
(** An item: finished exactly when its status is final, a reason exactly when
    it failed or was skipped, and a start time while it runs. *)
Definition row_ok (i : GroupRunItem) : bool :=
  Bool.eqb (is_terminal (status i)) (negb (is_none (finished_at i)))
  && Bool.eqb (failing (status i)) (negb (is_none (item_reason i)))
  && implb (is_running i) (claimed i && negb (is_none (started_at i))).
Definition run_ok (r : GroupRun) : bool :=
  (1 <=? concurrency r) && (concurrency r <=? MAX_CONCURRENCY) && Bool.eqb (is_active r) (is_none (run_finished_at r)).

Record inv (d : database) : Prop := Inv {
  inv_rows : forall i, i ∈ items d -> row_ok i = true;
  inv_home : forall i, i ∈ items d -> exists r, r ∈ runs d /\ run_id r = item_run i;
  inv_runs : forall r, r ∈ runs d -> run_ok r = true;
  inv_ids : NoDup (map item_id (items d));
  inv_next : forall i, i ∈ items d -> item_id i < next_item d;
  inv_run_ids : NoDup (map run_id (runs d));
  inv_next_run : forall r, r ∈ runs d -> run_id r < next_run d;
  inv_cap : forall r, r ∈ runs d -> count (items d) (run_id r) Running <= concurrency r;
  inv_ended : forall r, r ∈ runs d -> is_active r = false ->
              count (items d) (run_id r) Queued = 0 /\ count (items d) (run_id r) Running = 0 }.

Lemma of_run_spec rid st i : of_run rid st i = true <-> item_run i = rid /\ status i = st.
Proof. unfold of_run. rewrite andb_true_iff, Z.eqb_eq, bool_decide_eq_true. done. Qed.

Lemma count_nonneg l rid st : 0 <= count l rid st.
Proof. unfold count. lia. Qed.
Lemma count_app l l' rid st : count (l ++ l') rid st = count l rid st + count l' rid st.
Proof. unfold count. rewrite filter_app, length_app. lia. Qed.
Lemma count_zero l rid st : count l rid st = 0 <-> forall i, i ∈ l -> item_run i = rid -> status i <> st.
Proof.
  transitivity (List.filter (of_run rid st) l = []).
  { rewrite <- length_zero_iff_nil. unfold count. lia. }
  rewrite filter_is_nil. split; intros H i Hi.
  - intros Hr Hs. specialize (H i Hi). by rewrite (proj2 (of_run_spec rid st i)) in H.
  - apply not_true_is_false. intros [Hr Hs]%of_run_spec. by apply (H i Hi).
Qed.

Lemma count_map_le g l rid st :
  (forall i, i ∈ l -> item_run (g i) = rid -> status (g i) = st -> item_run i = rid /\ status i = st) ->
  count (map g l) rid st <= count l rid st.
Proof.
  intros H. unfold count. rewrite filter_map_comm, length_map. apply inj_le. apply filter_le.
  intros i Hi [Hr Hs]%of_run_spec. apply of_run_spec. by apply H.
Qed.
Lemma count_map_eq g l rid st :
  (forall i, i ∈ l -> item_run (g i) = rid /\ status (g i) = st <-> item_run i = rid /\ status i = st) ->
  count (map g l) rid st = count l rid st.
Proof.
  intros H. unfold count. rewrite filter_map_comm, length_map. do 2 f_equal. apply filter_ext_elem.
  intros i Hi. apply eq_true_iff_eq. rewrite !of_run_spec. by apply H.
Qed.

(** A change of the items that ends some of them and starts none. *)
Record settles (g : GroupRunItem -> GroupRunItem) : Prop := Settles {
  settles_id : forall i, item_id (g i) = item_id i;
  settles_run : forall i, item_run (g i) = item_run i;
  settles_status : forall i, status (g i) = status i \/ is_terminal (status (g i)) = true;
  settles_row : forall i, row_ok i = true -> row_ok (g i) = true }.

Lemma settles_count g l rid st :
  settles g -> is_terminal st = false -> count (map g l) rid st <= count l rid st.
Proof.
  intros [_ Hr Hs _] Ht. apply count_map_le. intros i _. rewrite Hr. destruct (Hs i) as [->|Hterm]; [done|].
  intros _ E. by rewrite E, Ht in Hterm.
Qed.

Lemma inv_settle d g : inv d -> settles g -> inv (d {{ items := map g (items d) }}).
Proof.
  intros [H1 H2 H3 H4 H5 H6 H7 H8 H9] Hg. pose proof Hg as [Gi Gr Gs Gk]. split; simpl; try done.
  - intros i (j & -> & Hj)%list_elem_of_fmap. auto.
  - intros i (j & -> & Hj)%list_elem_of_fmap. rewrite Gr. auto.
  - rewrite map_map. by rewrite (map_ext _ item_id).
  - intros i (j & -> & Hj)%list_elem_of_fmap. rewrite Gi. auto.
  - intros r Hr. pose proof (settles_count g (items d) (run_id r) Running Hg eq_refl). specialize (H8 r Hr). lia.
  - intros r Hr Ha. destruct (H9 r Hr Ha) as [Hq Hrn].
    pose proof (settles_count g (items d) (run_id r) Running Hg eq_refl).
    pose proof (settles_count g (items d) (run_id r) Queued Hg eq_refl).
    pose proof (count_nonneg (map g (items d)) (run_id r) Running).
    pose proof (count_nonneg (map g (items d)) (run_id r) Queued). lia.
Qed.

Lemma settles_where (p : GroupRunItem -> bool) g : settles g -> settles (fun i => if p i then g i else i).
Proof. intros [? ? ? ?]. split; intros i; destruct (p i); auto. Qed.

Lemma settles_finish now st why what s :
  is_terminal st = true -> failing st = negb (is_none why) -> settles (finish_item now st why what s).
Proof.
  intros Ht Hf. split; intros i; unfold finish_item; destruct s; simpl; auto; intros _; unfold row_ok, is_running; simpl.
  all: rewrite Ht, Hf; rewrite bool_decide_eq_false_2 by (by intros ->); by rewrite !Bool.eqb_reflx.
Qed.

Lemma settles_interrupt now : settles (interrupt now).
Proof. split; intros i; simpl; auto. Qed.
Lemma settles_cancel_queued rid now : settles (fun i => if of_run rid Queued i then cancel now i else i).
Proof.
  split; intros i; destruct (of_run rid Queued i) eqn:E; simpl; auto. apply of_run_spec in E as [_ E].
  destruct i; simpl in *; subst. unfold row_ok. simpl. by destruct finished_at0, item_reason0.
Qed.

Lemma settles_plain g :
  (forall i, item_id (g i) = item_id i /\ item_run (g i) = item_run i /\ status (g i) = status i
             /\ finished_at (g i) = finished_at i /\ item_reason (g i) = item_reason i
             /\ claimed (g i) = claimed i /\ started_at (g i) = started_at i) -> settles g.
Proof.
  intros H. split; intros i; destruct (H i) as (? & ? & E & Ef & Er & Ec & Es); auto.
  unfold row_ok, is_running. by rewrite E, Ef, Er, Ec, Es.
Qed.

Lemma inv_finish d now id st why what s :
  inv d -> is_terminal st = true -> failing st = negb (is_none why) -> inv (_finish d now id st why what s).
Proof. intros Hd Ht Hf. apply (inv_settle d _ Hd). by apply settles_where, settles_finish. Qed.

Lemma inv_internal d now id : inv d -> inv (internal_error d now id).
Proof. intros Hd. unfold internal_error. repeat case_match; [by apply inv_finish|done|done]. Qed.

Lemma inv_begin w now id d : inv d -> inv (fst (run_item_begin w now id d)).
Proof.
  intros Hd. unfold run_item_begin.
  repeat (case_match; simpl; try done; try by apply inv_finish); try by apply inv_internal.
Qed.

(** The tables outside the runs and the items take no part in the invariant. *)
Lemma inv_backups d s : inv d -> inv (d {{ device_backups := s }}).
Proof. intros []. by split. Qed.

(** A stored backup leaves the items as [Done] with its reference. *)
Lemma backup_item_shape d now id r asset text new_id :
  blank_text (Some text) = false ->
  exists s ref o, _backup_item d now id r asset text new_id
    = _finish (d {{ device_backups := s }}
                 {{ items := update_where (has_id id) (fun i => i {{ backup_ref := Some ref }} {{ item_outcome := Some o }}) (items d) }})
        now id Done None None None.
Proof. intros Hb. unfold _backup_item. rewrite Hb. cbv zeta. repeat case_match; simplify_eq; eauto. Qed.

Lemma inv_end now id t a d : inv d -> inv (run_item_end now id t a d).
Proof.
  intros Hd. unfold run_item_end. destruct a, t; try by apply inv_internal.
  - case_match; by apply inv_finish.
  - case_match; [|done]. case_match; by apply inv_finish.
  - destruct (blank_text (Some text)) eqn:Hb; [unfold _backup_item; rewrite Hb; by apply inv_finish|].
    destruct (backup_item_shape d now id r asset text new_id Hb) as (s & ref & o & ->). apply inv_finish; [|done|done].
    pose proof (inv_settle (d {{ device_backups := s }})
             (fun i => if has_id id i then i {{ backup_ref := Some ref }} {{ item_outcome := Some o }} else i)
             (inv_backups _ s Hd)) as H. destruct d. simpl in *. apply H. by apply settles_where, settles_plain.
  - case_match; by apply inv_finish.
Qed.

(** A change of the runs that keeps what the invariant says of each. *)
Lemma inv_map_runs d h :
  inv d -> (forall r, run_id (h r) = run_id r /\ concurrency (h r) = concurrency r
                      /\ is_active (h r) = is_active r /\ (run_ok r = true -> run_ok (h r) = true)) ->
  inv (d {{ runs := map h (runs d) }}).
Proof.
  intros [H1 H2 H3 H4 H5 H6 H7 H8 H9] Hh. split; simpl; try done.
  - intros i Hi. destruct (H2 i Hi) as (r & Hr & E). exists (h r). rewrite (proj1 (Hh r)). split; [|done].
    apply list_elem_of_fmap. eauto.
  - intros r (q & -> & Hq)%list_elem_of_fmap. apply Hh. auto.
  - rewrite map_map. rewrite (map_ext _ run_id); [done|]. intros r. apply Hh.
  - intros r (q & -> & Hq)%list_elem_of_fmap. rewrite (proj1 (Hh q)). auto.
  - intros r (q & -> & Hq)%list_elem_of_fmap. destruct (Hh q) as (-> & -> & _). auto.
  - intros r (q & -> & Hq)%list_elem_of_fmap. destruct (Hh q) as (-> & _ & -> & _). auto.
Qed.

Lemma inv_stop d rid : inv d -> inv (stop d rid).
Proof.
  intros Hd. apply (inv_map_runs d (fun r => if run_has_id rid r then stop1 r else r) Hd). intros r. destruct (run_has_id rid r); [|done].
  destruct r as [? ? ? ? ? ? ? [] ? ? ? ? ?]; done.
Qed.

Lemma inv_recover d now : inv d -> inv (recover_interrupted d now).
Proof. intros Hd. apply (inv_settle d _ Hd). apply settles_where, settles_interrupt. Qed.

Lemma get_run_spec d rid r : get_run d rid = Some r -> r ∈ runs d /\ run_id r = rid.
Proof. unfold get_run. intros [H E]%find_some. split; [by apply list_elem_of_In|by apply Z.eqb_eq]. Qed.
Lemma get_item_spec d id i : get_item d id = Some i -> i ∈ items d /\ item_id i = id.
Proof. unfold get_item. intros [H E]%find_some. split; [by apply list_elem_of_In|by apply Z.eqb_eq]. Qed.

Lemma run_by_id d r r' : inv d -> r ∈ runs d -> r' ∈ runs d -> run_id r = run_id r' -> r = r'.
Proof.
  intros Hd. pose proof (inv_run_ids d Hd) as Hn. revert Hn. generalize (runs d).
  induction l as [|x l IH]; simpl; [by intros _ ?%elem_of_nil|].
  intros [Hx Hn]%list.NoDup_cons. rewrite !elem_of_cons. intros [->|H1] [->|H2] E; auto.
  - destruct Hx. rewrite E. apply list_elem_of_fmap. eauto.
  - destruct Hx. rewrite <- E. apply list_elem_of_fmap. eauto.
Qed.

Lemma inv_retry d r d' n : inv d -> r ∈ runs d -> retry_failed d r = Ok (d', n) -> inv d'.
Proof.
  intros Hd Hr. unfold retry_failed. destruct (is_active r) eqn:Ha; simpl; [done|].
  set (g := fun i => if of_run (run_id r) Failed i then requeue i else i).
  assert (Hrow : forall i, row_ok i = true -> row_ok (g i) = true).
  { intros i. unfold g. by case_match. }
  assert (Hrun : forall i, item_run (g i) = item_run i) by (intros i; unfold g; by case_match).
  assert (Hid : forall i, item_id (g i) = item_id i) by (intros i; unfold g; by case_match).
  assert (Hrunning : forall rid, count (map g (items d)) rid Running = count (items d) rid Running).
  { intros rid. apply count_map_eq. intros i _. rewrite Hrun. unfold g. destruct (of_run _ _ _) eqn:E; [|done].
    apply of_run_spec in E as [_ E]. simpl. rewrite E. split; intros [_ ?]; done. }
  assert (Hqueued : forall rid, rid <> run_id r -> count (map g (items d)) rid Queued = count (items d) rid Queued).
  { intros rid Hne. apply count_map_eq. intros i _. rewrite Hrun. unfold g. destruct (of_run _ _ _) eqn:E; [|done].
    apply of_run_spec in E as [E _]. split; intros [? _]; congruence. }
  pose proof Hd as [H1 H2 H3 H4 H5 H6 H7 H8 H9].
  destruct (count (items d) (run_id r) Failed =? 0) eqn:E0; intros [= <- <-].
  - assert (Heq : update_where (of_run (run_id r) Failed) requeue (items d) = items d).
    { rewrite <- (List.map_id (items d)) at 2. apply map_ext_in. intros i Hi. fold (g i).
      unfold g. destruct (of_run _ _ _) eqn:E; [|done]. apply of_run_spec in E as [E1 E2]. apply Z.eqb_eq in E0.
      rewrite count_zero in E0. destruct (E0 i); [by apply list_elem_of_In|done|done]. }
    rewrite Heq. by split.
  - unfold update_where. fold g. destruct d as [rs its nr ni bs]. simpl in *. split; simpl.
    + intros i (j & -> & Hj)%list_elem_of_fmap. auto.
    + intros i (j & -> & Hj)%list_elem_of_fmap. destruct (H2 j Hj) as (q & Hq & E). rewrite Hrun.
      exists (if run_has_id (run_id r) q then rerun q else q). split; [apply list_elem_of_fmap; by exists q|by destruct (run_has_id _ _)].
    + intros q (p & -> & Hp)%list_elem_of_fmap. specialize (H3 p Hp). destruct (run_has_id _ _); [|done].
      unfold run_ok, is_active in *. simpl. bool_prop. by rewrite !andb_true_iff, !Z.leb_le.
    + rewrite map_map, (map_ext _ item_id); done.
    + intros i (j & -> & Hj)%list_elem_of_fmap. rewrite Hid. auto.
    + rewrite map_map. erewrite map_ext; [exact H6|]. intros q. by destruct (run_has_id _ _).
    + intros q (p & -> & Hp)%list_elem_of_fmap. destruct (run_has_id _ _); exact (H7 p Hp).
    + intros q (p & -> & Hp)%list_elem_of_fmap. rewrite Hrunning. destruct (run_has_id _ _); exact (H8 p Hp).
    + intros q (p & -> & Hp)%list_elem_of_fmap Hq. rewrite Hrunning.
      destruct (run_has_id (run_id r) p) eqn:Ep; [done|]. apply Z.eqb_neq in Ep. rewrite Hqueued by done. auto.
Qed.

Lemma new_item_spec now rid id a :
  item_run (new_item now rid id a) = rid /\ item_id (new_item now rid id a) = id
  /\ item_asset (new_item now rid id a) = Some (asset_key a) /\ row_ok (new_item now rid id a) = true
  /\ status (new_item now rid id a) = (if blank_text (asset_ip a) then Skipped else Queued).
Proof. unfold new_item. destruct (blank_text (asset_ip a)); done. Qed.

Lemma new_items_spec now rid id assets i :
  i ∈ new_items now rid id assets ->
  item_run i = rid /\ id <= item_id i < id + Z.of_nat (length assets) /\ row_ok i = true /\ status i <> Running.
Proof.
  revert id. induction assets as [|a l IH]; intros id; simpl; [by intros ?%elem_of_nil|].
  rewrite elem_of_cons. intros [->|(? & ? & ? & ?)%IH]; [|split_and!; (done || lia)].
  destruct (new_item_spec now rid id a) as (-> & -> & _ & -> & ->). split_and!; try done; try lia. by case_match.
Qed.

Lemma new_items_ids now rid id assets : map item_id (new_items now rid id assets) = seqZ id (Z.of_nat (length assets)).
Proof.
  revert id. induction assets as [|a l IH]; intros id; simpl; [done|].
  rewrite seqZ_cons by lia. rewrite (proj1 (proj2 (new_item_spec now rid id a))), IH. do 2 f_equal; lia.
Qed.
Lemma new_items_length now rid id assets : length (new_items now rid id assets) = length assets.
Proof. revert id. induction assets; intros id; simpl; auto. Qed.

Lemma clamp_bounds o : 1 <= clamp_concurrency o <= MAX_CONCURRENCY.
Proof. unfold clamp_concurrency, MAX_CONCURRENCY. lia. Qed.

Section StartLemmas.
Variable benchmarks : list (pystr * list pystr).

Lemma start_run_shape d now inventory members name tech p level conc user job k ids syslog d' r :
  start_run benchmarks d now inventory members name tech p level conc user job k ids syslog = Ok (d', r) ->
  let chosen := match ids with Some wanted => List.filter (in_ids wanted) members | None => members end in
  let its := new_items now (next_run d) (next_item d) (List.filter (fun a => in_ids chosen (asset_key a)) inventory) in
  r = Run (next_run d) name k tech level (Some (profile_id p)) (clamp_concurrency conc) RunQueued user job syslog None None
  /\ d' = Database (runs d ++ [r]) (items d ++ its) (next_run d + 1) (next_item d + Z.of_nat (length its)) (device_backups d)
  /\ chosen <> [] /\ Z.of_nat (length chosen) <= MAX_ASSETS /\ check_kind benchmarks k tech p = Ok tt.
Proof.
  unfold start_run. destruct (check_kind benchmarks k tech p) as [[]|]; simpl; [|done].
  destruct (bool_decide _) eqn:E; simpl; [done|]. destruct (_ <=? _) eqn:E2; simpl; [|done]. intros [= <- <-].
  bool_prop. destruct d. done.
Qed.

Lemma inv_start d now inventory members name tech p level conc user job k ids syslog d' r :
  inv d -> start_run benchmarks d now inventory members name tech p level conc user job k ids syslog = Ok (d', r) -> inv d'.
Proof.
  intros [H1 H2 H3 H4 H5 H6 H7 H8 H9] (Hr & -> & _ & _ & _)%start_run_shape.
  set (assets := List.filter _ inventory). set (its := new_items _ _ _ assets).
  assert (Hnew : forall i, i ∈ its -> item_run i = next_run d /\ next_item d <= item_id i < next_item d + Z.of_nat (length its)
                 /\ row_ok i = true /\ status i <> Running).
  { intros i Hi. replace (length its) with (length assets) by (symmetry; apply new_items_length). by apply (new_items_spec now). }
  assert (Hold : forall q st, q ∈ runs d -> count its (run_id q) st = 0).
  { intros q st Hq. apply count_zero. intros i Hi E. specialize (H7 q Hq). destruct (Hnew i Hi) as (E2 & _). lia. }
  assert (Hrid : run_id r = next_run d) by by rewrite Hr.
  split; cbn [items runs next_item next_run].
  - intros i [Hi|Hi]%elem_of_app; [auto|]. by apply Hnew.
  - intros i [Hi|Hi]%elem_of_app.
    + destruct (H2 i Hi) as (q & Hq & E). exists q. rewrite elem_of_app. auto.
    + exists r. rewrite elem_of_app, list_elem_of_singleton. split; [by right|]. rewrite Hrid. symmetry. by apply Hnew.
  - intros q [Hq|Hq%list_elem_of_singleton]%elem_of_app; [auto|]. subst q. rewrite Hr. unfold run_ok. simpl.
    destruct (clamp_bounds conc). by rewrite !(proj2 (Z.leb_le _ _)).
  - rewrite map_app. apply list.NoDup_app. split_and!; [done| |].
    + intros id (i & -> & Hi)%list_elem_of_fmap. intros (j & E & Hj)%list_elem_of_fmap.
      specialize (H5 i Hi). destruct (Hnew j Hj) as (_ & ? & _). lia.
    + unfold its. rewrite new_items_ids. apply NoDup_seqZ.
  - intros i [Hi|Hi]%elem_of_app; [specialize (H5 i Hi); lia|]. by apply Hnew.
  - rewrite map_app. apply list.NoDup_app. split_and!; [done| |apply list.NoDup_singleton].
    intros id (q & -> & Hq)%list_elem_of_fmap E%list_elem_of_singleton. specialize (H7 q Hq). lia.
  - intros q [Hq|Hq%list_elem_of_singleton]%elem_of_app; [specialize (H7 q Hq); lia|]. subst q. lia.
  - intros q. rewrite count_app. intros [Hq|Hq%list_elem_of_singleton]%elem_of_app.
    + rewrite Hold by done. specialize (H8 q Hq). lia.
    + subst q. rewrite Hrid.
      rewrite (proj2 (count_zero (items d) _ _)), (proj2 (count_zero its _ _)).
      * rewrite Hr. simpl. destruct (clamp_bounds conc). lia.
      * intros i Hi _. by apply Hnew.
      * intros i Hi E. destruct (H2 i Hi) as (q & Hq & E2). specialize (H7 q Hq). lia.
  - intros q. rewrite !count_app. intros [Hq|Hq%list_elem_of_singleton]%elem_of_app Ha.
    + rewrite !Hold by done. specialize (H9 q Hq Ha). lia.
    + subst q. by rewrite Hr in Ha.
Qed.
End StartLemmas.

(** ** The sweep as one simultaneous change

    What [sweep] does to a run, to its items and which it claims, each read
    from the tables as they were before the sweep. *)
Definition stopping (r : GroupRun) : bool := bool_decide (run_status_of r = RunStopping).
Definition claims (locked : Z -> bool) (its : list GroupRunItem) (r : GroupRun) : list Z :=
  if is_active r && negb (stopping r)
  then claimable locked (run_id r) (concurrency r - count its (run_id r) Running) its else [].
Definition begun (now : Z) (r : GroupRun) : GroupRun :=
  match run_status_of r with
  | RunQueued => r {{ run_status_of := RunRunning }} {{ run_started_at := Some now }}
  | _ => r end.
Definition run_after (now : Z) (its : list GroupRunItem) (r : GroupRun) : GroupRun :=
  if negb (is_active r) then r
  else if stopping r then (if count its (run_id r) Running =? 0 then end_run now RunStopped r else r)
  else if (count its (run_id r) Queued =? 0) && (count its (run_id r) Running =? 0)
  then end_run now RunDone (begun now r) else begun now r.
Definition own_after (locked : Z -> bool) (now : Z) (its : list GroupRunItem) (r : GroupRun) (i : GroupRunItem) : GroupRunItem :=
  if stopping r then (if of_run (run_id r) Queued i then cancel now i else i)
  else if in_ids (claims locked its r) (item_id i) then run_item_started now i else i.
Definition item_after (locked : Z -> bool) (now : Z) (rs : list GroupRun) (its : list GroupRunItem) (i : GroupRunItem) : GroupRunItem :=
  match List.find (run_has_id (item_run i)) rs with Some r => own_after locked now its r i | None => i end.

Definition unique (its : list GroupRunItem) : Prop := NoDup (map item_id its).

Lemma item_by_id its i j : unique its -> i ∈ its -> j ∈ its -> item_id i = item_id j -> i = j.
Proof.
  unfold unique. induction its as [|x l IH]; simpl; [by intros _ ?%elem_of_nil|].
  intros [Hx Hn]%list.NoDup_cons. rewrite !elem_of_cons. intros [->|H1] [->|H2] E; auto.
  - destruct Hx. rewrite E. apply list_elem_of_fmap. eauto.
  - destruct Hx. rewrite <- E. apply list_elem_of_fmap. eauto.
Qed.

Lemma claims_spec locked its r id :
  id ∈ claims locked its r ->
  stopping r = false /\ is_active r = true
  /\ exists i, i ∈ its /\ item_id i = id /\ item_run i = run_id r /\ status i = Queued /\ locked id = false.
Proof.
  unfold claims. destruct (is_active r) eqn:Ea; simpl; [|by intros ?%elem_of_nil].
  destruct (stopping r); simpl; [by intros ?%elem_of_nil|]. unfold claimable.
  intros (i & -> & Hi)%list_elem_of_fmap. split_and!; [done|done|].
  assert (Hf : i ∈ List.filter (fun i => of_run (run_id r) Queued i && negb (locked (item_id i))) its).
  { rewrite <- (take_drop (Z.to_nat (concurrency r - count its (run_id r) Running))). apply elem_of_app. by left. }
  apply elem_filter in Hf as [Hi2 [[Hr Hs]%of_run_spec Hl]%andb_true_iff]. exists i. by rewrite negb_true_iff in Hl.
Qed.

Lemma claimed_own locked its r i :
  unique its -> i ∈ its -> in_ids (claims locked its r) (item_id i) = true -> item_run i = run_id r /\ status i = Queued.
Proof.
  intros Hu Hi (_ & _ & j & Hj & E & Hr & Hs & _)%in_ids_spec%claims_spec.
  by rewrite (item_by_id its i j).
Qed.

Lemma claimable_none locked rid free its :
  free <= 0 \/ count its rid Queued = 0 -> claimable locked rid free its = [].
Proof.
  unfold claimable. intros [H|H].
  - by replace (Z.to_nat free) with 0%nat by lia.
  - rewrite (proj2 (filter_is_nil _ _)); [by destruct (Z.to_nat free)|]. intros i Hi.
    rewrite count_zero in H. destruct (of_run rid Queued i) eqn:E; [|done]. apply of_run_spec in E as [Hr Hs]. by destruct (H i Hi).
Qed.

(** One turn of the loop, in these terms. *)
Lemma sweep_run_form locked now r its :
  unique its -> is_active r = true ->
  sweep_run locked now r its = (run_after now its r, map (own_after locked now its r) its, claims locked its r).
Proof.
  intros Hu Ha. unfold sweep_run, run_after, own_after, claims, stopping, begun. rewrite Ha.
  destruct (run_status_of r) eqn:Es; simpl; try done; try (by unfold is_active in Ha; rewrite Es in Ha).
  all: assert (Hnone : claimable locked (run_id r) (concurrency r - count its (run_id r) Running) its = [] ->
        map (fun i => if in_ids (claimable locked (run_id r) (concurrency r - count its (run_id r) Running) its) (item_id i)
                      then run_item_started now i else i) its = its) by (intros ->; simpl; apply List.map_id).
  all: destruct ((count its (run_id r) Queued =? 0) && (count its (run_id r) Running =? 0)) eqn:E1.
  all: try (bool_prop; rewrite Hnone by (apply claimable_none; auto); by rewrite claimable_none by auto).
  all: match goal with |- context [(?a <=? 0) || ?b] => destruct ((a <=? 0) || b) eqn:E2 end; [|done].
  all: rewrite Hnone by (apply claimable_none; apply orb_true_iff in E2 as [E2|E2]; bool_prop; auto).
  all: by rewrite claimable_none by (apply orb_true_iff in E2 as [E2|E2]; bool_prop; auto).
Qed.

Lemma own_after_kept locked now its r i :
  item_id (own_after locked now its r i) = item_id i /\ item_run (own_after locked now its r i) = item_run i.
Proof. unfold own_after. repeat case_match; done. Qed.

(** A run's turn does not touch the other runs' items. *)
Lemma own_after_other locked now its r i :
  unique its -> i ∈ its -> item_run i <> run_id r -> own_after locked now its r i = i.
Proof.
  intros Hu Hi Hne. unfold own_after. destruct (stopping r).
  - destruct (of_run _ _ _) eqn:E; [|done]. by apply of_run_spec in E as [? _].
  - destruct (in_ids _ _) eqn:E; [|done]. by apply claimed_own in E as [? _].
Qed.

Lemma filter_map_fixed {A} (p : A -> bool) (g : A -> A) l :
  (forall x, x ∈ l -> p (g x) = p x) -> (forall x, x ∈ l -> p x = true -> g x = x) ->
  List.filter p (map g l) = List.filter p l.
Proof.
  induction l as [|x l IH]; intros H1 H2; simpl; [done|].
  rewrite H1 by by left. rewrite IH by (intros; (apply H1 || apply H2); try done; by right).
  destruct (p x) eqn:E; [|done]. by rewrite H2 by (done || by left).
Qed.

Section Independent.
Variables (locked : Z -> bool) (now : Z) (its : list GroupRunItem) (r : GroupRun).
Hypothesis Hu : unique its.
#[local] Notation its1 := (map (own_after locked now its r) its).

Lemma turn_unique : unique its1.
Proof.
  unfold unique. rewrite map_map. erewrite map_ext; [exact Hu|]. intros i. apply own_after_kept.
Qed.

Lemma turn_selects (q : Z -> bool) rid st : rid <> run_id r ->
  List.filter (fun i => of_run rid st i && q (item_id i)) its1 = List.filter (fun i => of_run rid st i && q (item_id i)) its.
Proof.
  intros Hne. apply filter_map_fixed.
  - intros i Hi. destruct (own_after_kept locked now its r i) as [Ei Er]. rewrite Ei.
    destruct (decide (item_run i = run_id r)) as [E|E]; [|by rewrite own_after_other].
    unfold of_run. rewrite Er. rewrite (proj2 (Z.eqb_neq (item_run i) rid)) by congruence. done.
  - intros i Hi [[E _]%of_run_spec _]%andb_true_iff. apply own_after_other; [done|done|congruence].
Qed.

Lemma turn_count rid st : rid <> run_id r -> count its1 rid st = count its rid st.
Proof.
  intros Hne. unfold count. pose proof (turn_selects (fun _ => true) rid st Hne) as H.
  assert (H0 : forall l, List.filter (of_run rid st) l = List.filter (fun i => of_run rid st i && true) l)
    by (intros l; apply filter_ext_elem; intros; by rewrite andb_true_r).
  rewrite !H0. by f_equal; f_equal.
Qed.

Lemma turn_claims r' : run_id r' <> run_id r -> claims locked its1 r' = claims locked its r'.
Proof.
  intros Hne. unfold claims. rewrite turn_count by done. destruct (_ && _); [|done]. unfold claimable.
  by rewrite (turn_selects (fun id => negb (locked id))).
Qed.

Lemma turn_run_after r' : run_id r' <> run_id r -> run_after now its1 r' = run_after now its r'.
Proof. intros Hne. unfold run_after. by rewrite !turn_count. Qed.

Lemma turn_own r' i : run_id r' <> run_id r -> own_after locked now its1 r' i = own_after locked now its r' i.
Proof. intros Hne. unfold own_after. by rewrite turn_claims. Qed.
End Independent.

Lemma find_run_none rs rid : rid ∉ map run_id rs -> List.find (run_has_id rid) rs = None.
Proof.
  intros Hn. destruct (List.find _ rs) as [r|] eqn:E; [|done]. apply find_some in E as [Hr E].
  destruct Hn. apply list_elem_of_fmap. exists r. split; [by apply Z.eqb_eq in E|by apply list_elem_of_In].
Qed.

Lemma inactive_own locked now its r i : is_active r = false -> own_after locked now its r i = i.
Proof.
  intros Ha. unfold own_after, claims, stopping. rewrite Ha. unfold is_active in Ha. by destruct (run_status_of r).
Qed.

(** The loop is the simultaneous change. *)
Lemma sweep_runs_form locked now rs its :
  unique its -> NoDup (map run_id rs) ->
  sweep_runs locked now rs its
  = (map (run_after now its) rs, map (item_after locked now rs its) its, flat_map (claims locked its) rs).
Proof.
  revert its. induction rs as [|r rs IH]; intros its Hu Hn; simpl.
  - f_equal. f_equal. symmetry. erewrite map_ext; [apply List.map_id|]. done.
  - simpl in Hn. apply list.NoDup_cons in Hn as [Hnot Hn].
    assert (E : (if is_active r then sweep_run locked now r its else (r, its, []))
                = (run_after now its r, map (own_after locked now its r) its, claims locked its r)).
    { destruct (is_active r) eqn:Ha; [by apply sweep_run_form|]. unfold run_after, claims. rewrite Ha. simpl. do 2 f_equal.
      symmetry. erewrite map_ext; [apply List.map_id|]. intros i. by apply inactive_own. }
    rewrite E, IH by (done || by apply turn_unique). clear E.
    assert (Hne : forall q, q ∈ rs -> run_id q <> run_id r).
    { intros q Hq Eq. apply Hnot. rewrite <- Eq. apply list_elem_of_fmap. eauto. }
    f_equal; [f_equal|].
    + f_equal. apply map_ext_in. intros q Hq%list_elem_of_In. apply turn_run_after; [done|by apply Hne].
    + rewrite map_map. apply map_ext_in. intros i Hi%list_elem_of_In. unfold item_after at 2. simpl.
      unfold item_after. rewrite (proj2 (own_after_kept locked now its r i)). unfold run_has_id at 2.
      destruct (run_id r =? item_run i) eqn:Er; bool_prop.
      * rewrite find_run_none; [done|]. by rewrite <- Er.
      * rewrite own_after_other by (done || congruence). destruct (List.find _ rs) as [q|] eqn:Ef; [|done].
        apply find_some in Ef as [Hq%list_elem_of_In _]. by apply turn_own, Hne.
    + f_equal. rewrite !flat_map_concat_map. f_equal. apply map_ext_in. intros q Hq%list_elem_of_In.
      apply turn_claims; [done|by apply Hne].
Qed.

Lemma item_after_kept locked now rs its i :
  item_id (item_after locked now rs its i) = item_id i /\ item_run (item_after locked now rs its i) = item_run i.
Proof. unfold item_after. case_match; [apply own_after_kept|done]. Qed.

Lemma run_after_kept now its r :
  run_id (run_after now its r) = run_id r /\ concurrency (run_after now its r) = concurrency r.
Proof. unfold run_after, begun. repeat case_match; done. Qed.

Lemma find_run rs r : NoDup (map run_id rs) -> r ∈ rs -> List.find (run_has_id (run_id r)) rs = Some r.
Proof.
  induction rs as [|q rs IH]; simpl; [by intros _ ?%elem_of_nil|]. intros [Hq Hn]%list.NoDup_cons.
  unfold run_has_id at 1. intros [<-|Hr]%elem_of_cons; [by rewrite Z.eqb_refl|].
  rewrite (proj2 (Z.eqb_neq _ _)); [auto|]. intros E. apply Hq. rewrite E. apply list_elem_of_fmap. eauto.
Qed.

Section SweepFacts.
Variables (locked : Z -> bool) (now : Z) (d : database).
Hypothesis Hd : inv d.
#[local] Notation its := (items d).
#[local] Notation rs := (runs d).

Lemma item_after_own r i : r ∈ rs -> item_run i = run_id r -> item_after locked now rs its i = own_after locked now its r i.
Proof. intros Hr E. unfold item_after. rewrite E, find_run; [done|apply Hd|done]. Qed.

Lemma sweep_count r st : r ∈ rs ->
  count (map (item_after locked now rs its) its) (run_id r) st = count (map (own_after locked now its r) its) (run_id r) st.
Proof.
  intros Hr. unfold count. rewrite !filter_map_comm, !length_map. do 2 f_equal. apply filter_ext_elem. intros i Hi.
  unfold of_run. rewrite (proj2 (item_after_kept locked now rs its i)), (proj2 (own_after_kept locked now its r i)).
  destruct (item_run i =? run_id r) eqn:E; [|done]. bool_prop. by rewrite (item_after_own r i).
Qed.

Lemma stopping_count r : stopping r = true ->
  count (map (own_after locked now its r) its) (run_id r) Running = count its (run_id r) Running
  /\ count (map (own_after locked now its r) its) (run_id r) Queued = 0.
Proof.
  intros Hs. unfold own_after. rewrite Hs. split.
  - apply count_map_eq. intros i _. destruct (of_run _ _ _) eqn:E; [|done]. apply of_run_spec in E as [? E].
    simpl. rewrite E. split; intros [_ ?]; done.
  - apply count_zero. intros i (j & -> & Hj)%list_elem_of_fmap. destruct (of_run _ _ _) eqn:E; [done|].
    intros Er Eq. by rewrite (proj2 (of_run_spec (run_id r) Queued j)) in E.
Qed.

Lemma claims_length r : Z.of_nat (length (claims locked its r)) <= Z.max 0 (concurrency r - count its (run_id r) Running).
Proof.
  unfold claims. destruct (_ && _); simpl; [|lia]. unfold claimable. rewrite length_map, length_take. lia.
Qed.

Lemma ids_count (ids : list Z) l : unique l ->
  (length (List.filter (fun i => in_ids ids (item_id i)) l) <= length ids)%nat.
Proof.
  intros Hu. rewrite <- (length_map item_id). apply NoDup_incl_length.
  - apply NoDup_ListNoDup. revert Hu. unfold unique.
    induction l as [|x l IH]; simpl; [by intros; apply list.NoDup_nil|]. intros [Hx Hn]%list.NoDup_cons.
    destruct (in_ids ids (item_id x)); simpl; [|auto]. apply list.NoDup_cons.
    split; [|by apply IH]. contradict Hx.
    apply list_elem_of_fmap in Hx as (y & E & [Hy _]%elem_filter). apply list_elem_of_fmap. eauto.
  - intros id (i & <- & [Hi Hid]%filter_In)%in_map_iff. by apply list_elem_of_In, in_ids_spec.
Qed.

Lemma running_count r : stopping r = false ->
  count (map (own_after locked now its r) its) (run_id r) Running
  <= count its (run_id r) Running + Z.of_nat (length (claims locked its r)).
Proof.
  intros Hs. unfold own_after. rewrite Hs. unfold count. rewrite filter_map_comm, length_map.
  rewrite <- Nat2Z.inj_add. apply inj_le.
  transitivity (length (List.filter (of_run (run_id r) Running) its)
                + length (List.filter (fun i => in_ids (claims locked its r) (item_id i)) its))%nat.
  - generalize (claims locked its r) as ids. intros ids. induction its as [|x l IH]; simpl; [done|].
    destruct (in_ids ids (item_id x)); simpl; [destruct (of_run _ _ (run_item_started now x))|];
      destruct (of_run (run_id r) Running x); simpl; lia.
  - apply Nat.add_le_mono_l. apply ids_count. apply Hd.
Qed.
End SweepFacts.

Lemma sweep_form locked now d :
  inv d ->
  sweep locked now d
  = (d {{ runs := map (run_after now (items d)) (runs d) }}
       {{ items := map (item_after locked now (runs d) (items d)) (items d) }}
       {{ device_backups := GroupRuns._finished now (runs d) (map (run_after now (items d)) (runs d)) (device_backups d) }},
     flat_map (claims locked (items d)) (runs d)).
Proof. intros Hd. unfold sweep. by rewrite sweep_runs_form by apply Hd. Qed.

Lemma row_ok_started now i : status i = Queued -> row_ok i = true -> row_ok (run_item_started now i) = true.
Proof. destruct i; simpl. intros ->. unfold row_ok. simpl. by destruct finished_at0, item_reason0. Qed.

Lemma row_ok_after locked now d i : inv d -> i ∈ items d -> row_ok (item_after locked now (runs d) (items d) i) = true.
Proof.
  intros Hd Hi. pose proof (inv_rows d Hd i Hi) as Hrow. unfold item_after. case_match; [|done]. unfold own_after.
  destruct (stopping g); [by apply (settles_row _ (settles_cancel_queued (run_id g) now))|].
  destruct (in_ids _ _) eqn:E; [|done]. apply row_ok_started; [|done].
  eapply (claimed_own locked (items d) g i); [apply Hd|done|done].
Qed.

Lemma run_ok_after now its r : run_ok r = true -> run_ok (run_after now its r) = true.
Proof.
  unfold run_ok. destruct (run_after_kept now its r) as [_ ->]. intros H. bool_prop.
  apply andb_true_iff. split; [by apply andb_true_iff; rewrite !Z.leb_le|].
  unfold run_after, begun, stopping, is_active in *. destruct r as [? ? ? ? ? ? ? st ? ? ? ? fin]; simpl in *.
  destruct st; simpl in *; repeat case_match; simpl in *; try done; by destruct fin.
Qed.

Lemma inv_sweep locked now d : inv d -> inv (fst (sweep locked now d)).
Proof.
  intros Hd. rewrite sweep_form by done. pose proof Hd as [H1 H2 H3 H4 H5 H6 H7 H8 H9]. simpl.
  assert (Hrun : forall r, r ∈ runs d -> count (map (item_after locked now (runs d) (items d)) (items d)) (run_id r) Running <= concurrency r).
  { intros r Hr. rewrite (sweep_count locked now d Hd) by done. specialize (H8 r Hr). destruct (stopping r) eqn:Es.
    - destruct (stopping_count locked now d r Es). lia.
    - pose proof (running_count locked now d Hd r Es). pose proof (claims_length locked d r).
      pose proof (count_nonneg (items d) (run_id r) Running). lia. }
  split; cbn [items runs next_item next_run].
  - intros i (j & -> & Hj)%list_elem_of_fmap. by apply row_ok_after.
  - intros i (j & -> & Hj)%list_elem_of_fmap. destruct (H2 j Hj) as (r & Hr & E). exists (run_after now (items d) r).
    rewrite (proj1 (run_after_kept now (items d) r)), (proj2 (item_after_kept locked now (runs d) (items d) j)).
    split; [|done]. apply list_elem_of_fmap. by exists r.
  - intros r (q & -> & Hq)%list_elem_of_fmap. by apply run_ok_after, H3.
  - rewrite map_map. erewrite map_ext; [exact H4|]. intros i. apply item_after_kept.
  - intros i (j & -> & Hj)%list_elem_of_fmap. rewrite (proj1 (item_after_kept locked now (runs d) (items d) j)). exact (H5 j Hj).
  - rewrite map_map. erewrite map_ext; [exact H6|]. intros r. apply run_after_kept.
  - intros r (q & -> & Hq)%list_elem_of_fmap. rewrite (proj1 (run_after_kept now (items d) q)). exact (H7 q Hq).
  - intros r (q & -> & Hq)%list_elem_of_fmap. destruct (run_after_kept now (items d) q) as [-> ->]. by apply Hrun.
  - intros r (q & -> & Hq)%list_elem_of_fmap Ha. rewrite (proj1 (run_after_kept now (items d) q)).
    rewrite !(sweep_count locked now d Hd) by done. unfold run_after in Ha.
    destruct (is_active q) eqn:Eq; simpl in Ha.
    + destruct (stopping q) eqn:Es.
      * destruct (stopping_count locked now d q Es) as [-> ->]. split; [done|].
        destruct (count (items d) (run_id q) Running =? 0) eqn:E; [by bool_prop|by rewrite Eq in Ha].
      * destruct (_ && _) eqn:E; [|exfalso; revert Ha Eq; unfold begun, is_active; destruct q as [? ? ? ? ? ? ? [] ? ? ? ? ?]; done].
        bool_prop. pose proof (running_count locked now d Hd q Es) as Hc.
        assert (Hcl : claims locked (items d) q = []).
        { unfold claims. destruct (_ && _); [|done]. apply claimable_none. auto. }
        rewrite Hcl in Hc. simpl in Hc.
        pose proof (count_nonneg (map (own_after locked now (items d) q) (items d)) (run_id q) Running). split; [|lia].
        unfold own_after. rewrite Es, Hcl. simpl. by rewrite List.map_id.
    + assert (E : map (own_after locked now (items d) q) (items d) = items d).
      { erewrite map_ext; [apply List.map_id|]. intros i. by apply inactive_own. }
      rewrite E. auto.
Qed.

Section Reach.
Variable benchmarks : list (pystr * list pystr).

Lemma runs_inv_step s s' : inv (db s) -> step benchmarks s s' -> inv (db s').
Proof.
  intros Hd Hst. destruct Hst as [d sub wk now inv0 mem name tech p lv conc user job k ids sl d' r _ E|d sub wk rid
    |d sub wk rid r d' n Hr E|d sub wk locked now d' ids E|d sub1 sub2 wk w now id|d sub wk1 wk2 now id t a
    |d sub wk now|d sub wk a|d sub wk p Hp]; cbn [db] in *.
  - by eapply inv_start.
  - by apply inv_stop.
  - apply get_run_spec in Hr as [Hr _]. by eapply inv_retry.
  - change d' with (fst (d', ids)). rewrite <- E. by apply inv_sweep.
  - pose proof (inv_begin w now id d Hd) as H. by destruct (run_item_begin w now id d).
  - by apply inv_end.
  - by apply inv_recover.
  - assert (Hs : settles (fun i => if bool_decide (item_asset i = Some a) then i {{ item_asset := None }} else i))
      by by apply settles_where, settles_plain.
    pose proof (inv_settle d _ Hd Hs) as H. destruct d. by apply (inv_backups (Database _ _ _ _ _)).
  - apply (inv_map_runs d (fun r => if bool_decide (credential_profile_id r = Some p) then r {{ credential_profile_id := None }} else r) Hd).
    intros r. by case_match.
Qed.

Lemma runs_inv_reachable s : reachable benchmarks s -> inv (db s).
Proof.
  induction 1 as [|s s' _ IH Hst]; [|by eapply runs_inv_step].
  split; simpl; try (by intros ? ?%elem_of_nil); apply list.NoDup_nil; done.
Qed.
End Reach.

(** ** A run ends *)

(** What a thread does to the tables: it ends the items [ids] names that run,
    and no other item starts or is queued. *)
Record ends (ids : list Z) (d d' : database) : Prop := Ends {
  ends_runs : runs d' = runs d;
  ends_items : exists g, items d' = map g (items d) /\ forall i, i ∈ items d ->
    item_id (g i) = item_id i /\ item_run (g i) = item_run i
    /\ (status (g i) = status i \/ is_terminal (status (g i)) = true)
    /\ (item_id i ∈ ids -> status i = Running -> is_terminal (status (g i)) = true) }.

Lemma ends_nil d : ends [] d d.
Proof.
  split; [done|]. exists id. rewrite List.map_id. split; [done|]. intros i _. split_and!; auto. by intros ?%elem_of_nil.
Qed.

Lemma ends_trans ids1 ids2 d1 d2 d3 : ends ids1 d1 d2 -> ends ids2 d2 d3 -> ends (ids1 ++ ids2) d1 d3.
Proof.
  intros [R1 (g1 & E1 & H1)] [R2 (g2 & E2 & H2)]. split; [congruence|].
  exists (fun i => g2 (g1 i)). rewrite E2, E1, map_map. split; [done|]. intros i Hi.
  destruct (H1 i Hi) as (I1 & J1 & S1 & T1).
  destruct (H2 (g1 i)) as (I2 & J2 & S2 & T2); [rewrite E1; apply list_elem_of_fmap; eauto|].
  split_and!; [congruence|congruence| |].
  - destruct S2 as [->|]; [destruct S1 as [->|]|]; auto.
  - intros [Hin|Hin]%elem_of_app Hs.
    + specialize (T1 Hin Hs). destruct S2 as [->|]; done.
    + destruct S1 as [E|E]; [|destruct S2 as [->|]; done]. apply T2; congruence.
Qed.

Lemma ends_finish d now id st why what s :
  is_terminal st = true -> ends [id] d (_finish d now id st why what s).
Proof.
  intros Ht. split; [done|]. eexists. split; [reflexivity|]. intros i _. simpl. unfold has_id.
  assert (Hst : status (finish_item now st why what s i) = st) by (unfold finish_item; by destruct s).
  destruct (item_id i =? id) eqn:E; bool_prop.
  - rewrite Hst. split_and!; auto; unfold finish_item; by destruct s.
  - split_and!; auto. by intros ?%list_elem_of_singleton.
Qed.

Lemma get_unique d i : inv d -> i ∈ items d -> get_item d (item_id i) = Some i.
Proof.
  intros Hd Hi. destruct (get_item d (item_id i)) as [j|] eqn:E.
  - apply get_item_spec in E as [Hj E]. f_equal. by apply (item_by_id (items d)); [apply Hd| | |].
  - unfold get_item in E. apply find_none with (x := i) in E; [|by apply list_elem_of_In].
    unfold has_id in E. by rewrite Z.eqb_refl in E.
Qed.

Lemma ends_same id d : inv d -> (forall i, get_item d id = Some i -> status i <> Running) -> ends [id] d d.
Proof.
  intros Hd H. split; [done|]. exists (fun i => i). rewrite List.map_id. split; [done|]. intros i Hi. split_and!; auto.
  intros E%list_elem_of_singleton Hs. destruct (H i); [|done]. rewrite <- E. by apply get_unique.
Qed.

Lemma ends_internal d now id : inv d -> ends [id] d (internal_error d now id).
Proof.
  intros Hd. unfold internal_error. destruct (get_item d id) as [i|] eqn:E.
  - case_bool_decide; [by apply ends_finish|]. apply ends_same; [done|]. intros j. congruence.
  - apply ends_same; [done|]. intros j. congruence.
Qed.

Lemma ends_end now id t a d : inv d -> ends [id] d (run_item_end now id t a d).
Proof.
  intros Hd. unfold run_item_end. destruct a, t; try by apply ends_internal.
  - case_match; by apply ends_finish.
  - destruct (get_item d id) as [i|] eqn:E; [by apply ends_finish|]. apply ends_same; [done|]. intros j. congruence.
  - destruct (blank_text (Some text)) eqn:Hb; [unfold _backup_item; rewrite Hb; by apply ends_finish|].
    destruct (backup_item_shape d now id r asset text new_id Hb) as (s & ref & o & ->).
    change [id] with ([] ++ [id]). eapply ends_trans; [|by apply ends_finish].
    split; [by destruct d|]. eexists. split; [destruct d; reflexivity|]. intros i _. simpl.
    destruct (has_id id i); split_and!; auto; by intros ?%elem_of_nil.
  - by apply ends_finish.
Qed.

(** A thread that begins either ends its item or leaves the tables alone. *)
Lemma ends_begin w now id d : inv d ->
  let '(d', t) := run_item_begin w now id d in
  match t with Some _ => d' = d | None => ends [id] d d' end.
Proof.
  intros Hd. unfold run_item_begin.
  destruct (get_item d id) as [i|] eqn:E; [|apply ends_same; [done|]; intros j; congruence].
  destruct (get_run d (item_run i)) as [r|]; [|by apply ends_internal].
  destruct (bool_decide _); [by apply ends_finish|].
  destruct (match credential_profile_id r with Some p => if p =? 0 then None else profile_row w p | None => None end);
    [|by apply ends_finish].
  destruct (item_asset i); [|by apply ends_finish].
  destruct (run_kind_of r); [destruct (license_refusal w _); [by apply ends_finish|]|]; done.
Qed.

Definition idle (d : database) : Prop := forall i, i ∈ items d -> status i <> Running.
Definition is_queued (i : GroupRunItem) : bool := bool_decide (status i = Queued).
Definition queued (d : database) : nat := length (List.filter is_queued (items d)).
Definition ended (d : database) : Prop := forall r, r ∈ runs d -> is_active r = false.

(** After a sweep, what runs ran before or was claimed. *)
Lemma swept_running locked now d i : i ∈ items d ->
  status (item_after locked now (runs d) (items d) i) = Running ->
  status i = Running \/ item_id i ∈ flat_map (claims locked (items d)) (runs d).
Proof.
  intros Hi. unfold item_after. destruct (List.find _ _) as [r|] eqn:E; [|by left].
  apply find_some in E as [Hr _]. unfold own_after. destruct (stopping r).
  - destruct (of_run _ _ _); [done|by left].
  - destruct (in_ids _ _) eqn:E; [|by left]. intros _. right. apply in_ids_spec in E.
    apply list_elem_of_In, in_flat_map. exists r. split; [done|by apply list_elem_of_In].
Qed.

(** A sweep queues nothing. *)
Lemma after_queued locked now rs its i : status (item_after locked now rs its i) = Queued -> item_after locked now rs its i = i.
Proof. unfold item_after, own_after. repeat case_match; done. Qed.

(** Of an active run with queued items at least one leaves the queue. *)
Lemma queue_moves now d i : inv d -> idle d -> i ∈ items d -> status i = Queued ->
  exists j, j ∈ items d /\ status j = Queued /\ status (item_after (fun _ => false) now (runs d) (items d) j) <> Queued.
Proof.
  intros Hd Hid Hi Hs. destruct (inv_home d Hd i Hi) as (r & Hr & E). symmetry in E.
  destruct (stopping r) eqn:Est.
  - exists i. split_and!; [done|done|]. rewrite (item_after_own (fun _ => false) now d Hd r i Hr E).
    unfold own_after. rewrite Est, (proj2 (of_run_spec _ _ _)); done.
  - assert (Hact : is_active r = true).
    { apply not_false_is_true. intros Ha. destruct (inv_ended d Hd r Hr Ha) as [Hq _]. rewrite count_zero in Hq. by destruct (Hq i). }
    assert (H0 : count (items d) (run_id r) Running = 0) by (apply count_zero; intros; by apply Hid).
    pose proof (inv_runs d Hd r Hr) as Hok. unfold run_ok in Hok. bool_prop.
    destruct (List.filter (fun j => of_run (run_id r) Queued j && negb false) (items d)) as [|j l] eqn:Ef.
    + exfalso. rewrite filter_is_nil in Ef. specialize (Ef i Hi). by rewrite (proj2 (of_run_spec _ _ _)) in Ef.
    + assert (Hj : j ∈ j :: l) by by left. rewrite <- Ef, elem_filter in Hj.
      destruct Hj as [Hj [[Ejr Ejs]%of_run_spec _]%andb_true_iff].
      exists j. split_and!; [done|done|]. rewrite (item_after_own (fun _ => false) now d Hd r j Hr Ejr).
      unfold own_after. rewrite Est, (proj2 (in_ids_spec _ _)); [done|].
      unfold claims. rewrite Hact, Est, H0. simpl. unfold claimable. rewrite Ef.
      destruct (Z.to_nat (concurrency r - 0)) eqn:En; [lia|]. simpl. by left.
Qed.

Lemma run_after_inactive now its r : is_active r = false -> run_after now its r = r.
Proof. unfold run_after. by intros ->. Qed.

Lemma unique_sub p l : unique l -> unique (List.filter p l).
Proof.
  unfold unique. induction l as [|x l IH]; simpl; [done|]. intros [Hx Hn]%list.NoDup_cons.
  destruct (p x); simpl; [|auto]. apply list.NoDup_cons. split; [|auto]. contradict Hx.
  apply list_elem_of_fmap in Hx as (y & E & [Hy _]%elem_filter). apply list_elem_of_fmap. eauto.
Qed.

Lemma claims_nodup locked its r : unique its -> NoDup (claims locked its r).
Proof.
  intros Hu. unfold claims, claimable. case_match; [|apply list.NoDup_nil; done].
  set (l := List.filter _ _). assert (Hl : NoDup (map item_id l)) by by apply unique_sub.
  rewrite <- (take_drop (Z.to_nat (concurrency r - count its (run_id r) Running)) l), map_app in Hl.
  by apply list.NoDup_app in Hl as (? & _).
Qed.

Lemma all_claims_nodup locked d : inv d -> NoDup (flat_map (claims locked (items d)) (runs d)).
Proof.
  intros Hd. pose proof (inv_run_ids d Hd) as Hn. revert Hn. induction (runs d) as [|r rs IH]; simpl; [by intros; apply list.NoDup_nil|].
  intros [Hr Hn]%list.NoDup_cons. apply list.NoDup_app. split_and!; [apply claims_nodup, Hd| |auto].
  intros id (_ & _ & i & Hi & Ei & Er & _)%claims_spec (q & Hq & Hid)%list_elem_of_In%in_flat_map.
  apply list_elem_of_In in Hid. apply claims_spec in Hid as (_ & _ & j & Hj & Ej & Eq & _).
  rewrite (item_by_id (items d) i j) in Er; [|apply Hd|done|done|congruence].
  apply Hr. rewrite <- Er, Eq. apply list_elem_of_fmap. exists q. by rewrite list_elem_of_In.
Qed.

(** *** Work ends *)
(** What is left: a queued item may still be claimed, begun and ended. *)
Definition left_over (s : system) : nat := 3 * queued (db s) + 2 * length (submitted s) + length (working s).
(** Every running item is in the hands of a thread. *)
Definition attended (s : system) : Prop :=
  forall i, i ∈ items (db s) -> status i = Running -> item_id i ∈ submitted s ++ map fst (working s).
Record working_state (s : system) : Prop := WorkingState { ws_inv : inv (db s); ws_attended : attended s }.

Lemma queued_map g d d' :
  items d' = map g (items d) -> (forall i, i ∈ items d -> status (g i) = Queued -> status i = Queued) -> (queued d' <= queued d)%nat.
Proof.
  intros E H. unfold queued. rewrite E, filter_map_comm, length_map. apply filter_le. intros i Hi.
  unfold is_queued. rewrite !bool_decide_eq_true. by apply H.
Qed.
(** A change that starts no item. *)
Lemma attended_map g d d' sub wk :
  items d' = map g (items d) ->
  (forall i, i ∈ items d -> item_id (g i) = item_id i /\ (status (g i) = status i \/ is_terminal (status (g i)) = true)) ->
  attended (System d sub wk) -> attended (System d' sub wk) /\ (queued d' <= queued d)%nat.
Proof.
  intros E H Ha. split.
  - intros i. cbn [db]. rewrite E. intros (j & -> & Hj)%list_elem_of_fmap Hr. destruct (H j Hj) as [-> [Hs|Hs]]; [|by rewrite Hr in Hs].
    apply Ha; [done|congruence].
  - apply (queued_map g); [done|]. intros i Hi Hq. destruct (H i Hi) as [_ [Hs|Hs]]; [congruence|by rewrite Hq in Hs].
Qed.
(** A thread lets go of the item it ended. *)
Lemma attended_ends id d d' sub sub' wk wk' :
  ends [id] d d' -> attended (System d sub wk) ->
  (forall x, x ∈ sub ++ map fst wk -> x = id \/ x ∈ sub' ++ map fst wk') ->
  attended (System d' sub' wk') /\ (queued d' <= queued d)%nat.
Proof.
  intros [_ (g & E & H)] Ha Hsub. split.
  - intros i. cbn [db]. rewrite E. intros (j & -> & Hj)%list_elem_of_fmap Hr. destruct (H j Hj) as (Ei & _ & Hs & Ht).
    destruct Hs as [Hs|Hs]; [|by rewrite Hr in Hs]. assert (Hrj : status j = Running) by congruence.
    rewrite Ei. destruct (Hsub _ (Ha j Hj Hrj)) as [Eid|?]; [|done].
    assert (Hterm : is_terminal (status (g j)) = true) by (apply Ht; [by apply list_elem_of_singleton|done]). by rewrite Hr in Hterm.
  - apply (queued_map g); [done|]. intros i Hi Hq. destruct (H i Hi) as (_ & _ & [Hs|Hs] & _); [congruence|by rewrite Hq in Hs].
Qed.

Lemma thread_left s s' : working_state s -> thread_step s s' -> working_state s' /\ (left_over s' < left_over s)%nat.
Proof.
  intros [Hi Ha] Hst. destruct Hst as [d sub1 sub2 wk w now id|d sub wk1 wk2 now id t a]; cbn [db] in *.
  - pose proof (ends_begin w now id d Hi) as He. pose proof (inv_begin w now id d Hi) as Hi'.
    destruct (run_item_begin w now id d) as [d' [t|]].
    + subst d'. split; [split; [done|]|unfold left_over; cbn [db submitted working length]; rewrite !length_app; cbn [length]; lia].
      intros i Hin Hr. specialize (Ha i Hin Hr). cbn [submitted working map fst] in *.
      rewrite !elem_of_app, !elem_of_cons in *. tauto.
    + destruct (attended_ends id d d' _ (sub1 ++ sub2) wk wk He Ha) as [Ha' Hq].
      { intros x. rewrite !elem_of_app, elem_of_cons. tauto. }
      split; [by split|]. unfold left_over. cbn [db submitted working]. rewrite !length_app. cbn [length]. lia.
  - destruct (attended_ends id d _ sub sub (wk1 ++ (id, t) :: wk2) (wk1 ++ wk2) (ends_end now id t a d Hi) Ha) as [Ha' Hq].
    { intros x. rewrite !map_app. cbn [map fst]. rewrite !elem_of_app, elem_of_cons. tauto. }
    split; [split; [by apply inv_end|done]|]. unfold left_over. cbn [db submitted working]. rewrite !length_app. cbn [length]. lia.
Qed.

Lemma turn_eq locked now s : inv (db s) ->
  let d' := db (loop_turn locked now s) in
  runs d' = map (run_after now (items (db s))) (runs (db s))
  /\ items d' = map (item_after locked now (runs (db s)) (items (db s))) (items (db s))
  /\ submitted (loop_turn locked now s) = submitted s ++ flat_map (claims locked (items (db s))) (runs (db s))
  /\ working (loop_turn locked now s) = working s.
Proof. intros Hi. unfold loop_turn. rewrite sweep_form by done. destruct s as [[] ? ?]; done. Qed.

(** A claimed item leaves the queue. *)
Lemma claims_leave_queue locked now d : inv d ->
  (length (List.filter is_queued (map (item_after locked now (runs d) (items d)) (items d)))
   + length (flat_map (claims locked (items d)) (runs d)) <= queued d)%nat.
Proof.
  intros Hd. set (after := item_after locked now (runs d) (items d)).
  rewrite filter_map_comm, length_map. unfold queued.
  rewrite <- (length_map item_id (List.filter _ (items d))), <- (length_map item_id (List.filter is_queued _)), <- length_app.
  apply NoDup_incl_length.
  - apply NoDup_ListNoDup, list.NoDup_app. split_and!; [by apply unique_sub, Hd| |by apply all_claims_nodup].
    intros id (i & -> & [Hi Hq]%elem_filter)%list_elem_of_fmap (r & Hr & Hc)%list_elem_of_In%in_flat_map.
    apply list_elem_of_In in Hr, Hc. unfold is_queued in Hq. apply bool_decide_eq_true in Hq.
    pose proof (claims_spec _ _ _ _ Hc) as (Hst & _ & j & Hj & Ej & Er & _).
    rewrite (item_by_id (items d) j i) in Er by (done || apply Hd).
    unfold after in Hq. rewrite (item_after_own locked now d Hd r i Hr Er) in Hq. unfold own_after in Hq.
    by rewrite Hst, (proj2 (in_ids_spec _ _) Hc) in Hq.
  - intros id. rewrite <- !list_elem_of_In, elem_of_app. intros [(i & -> & [Hi Hq]%elem_filter)%list_elem_of_fmap|Hin].
    + apply list_elem_of_fmap. exists i. split; [done|]. apply elem_filter. split; [done|].
      unfold is_queued in *. apply bool_decide_eq_true in Hq. apply bool_decide_eq_true. unfold after in Hq.
      by rewrite (after_queued _ _ _ _ _ Hq) in Hq.
    + apply list_elem_of_In, in_flat_map in Hin as (r & _ & Hc%list_elem_of_In).
      apply claims_spec in Hc as (_ & _ & i & Hi & <- & _ & Hs & _).
      apply list_elem_of_fmap. exists i. split; [done|]. apply elem_filter. split; [done|]. by apply bool_decide_eq_true.
Qed.

Lemma turn_left locked now s : working_state s ->
  working_state (loop_turn locked now s)
  /\ (3 * queued (db (loop_turn locked now s)) + 3 * length (flat_map (claims locked (items (db s))) (runs (db s))) <= 3 * queued (db s))%nat
  /\ (left_over (loop_turn locked now s) <= left_over s)%nat.
Proof.
  intros [Hi Ha]. destruct (turn_eq locked now s Hi) as (Er & Ei & Es & Ew).
  pose proof (claims_leave_queue locked now _ Hi) as Hq. rewrite <- Ei in Hq. fold (queued (db (loop_turn locked now s))) in Hq.
  split; [split|split; [lia|]].
  - pose proof (inv_sweep locked now _ Hi) as H. unfold loop_turn. by destruct (sweep locked now (db s)).
  - intros i. rewrite Ei, Es, Ew. intros (j & -> & Hj)%list_elem_of_fmap Hr. rewrite (proj1 (item_after_kept _ _ _ _ _)).
    apply swept_running in Hr as [Hr|Hr]; [|rewrite !elem_of_app; auto|done]. specialize (Ha j Hj Hr). revert Ha. rewrite !elem_of_app. tauto.
  - unfold left_over. rewrite Es, Ew, length_app. lia.
Qed.

Lemma work_left s s' : working_state s -> work s s' -> working_state s' /\ (left_over s' <= left_over s)%nat.
Proof.
  intros Hs Hst. destruct Hst as [s locked now|s s' Hth|d sub wk rid|d sub wk a|d sub wk p Hp].
  - destruct (turn_left locked now s Hs) as (? & _ & ?). done.
  - destruct (thread_left s s' Hs Hth). split; [done|lia].
  - destruct Hs as [Hi Ha]. split; [split; [by apply inv_stop|by destruct d]|]. unfold left_over, queued, stop. by destruct d.
  - destruct Hs as [Hi Ha].
    assert (Hs : settles (fun i => if bool_decide (item_asset i = Some a) then i {{ item_asset := None }} else i))
      by by apply settles_where, settles_plain.
    assert (Hi' : inv (d {{ items := map (fun i => if bool_decide (item_asset i = Some a) then i {{ item_asset := None }} else i) (items d) }}
        {{ device_backups := (device_backups d) {{ backups := drop_asset a (backups (device_backups d)) }} }})).
    { pose proof (inv_settle d _ Hi Hs) as H. destruct d. by apply (inv_backups (Database _ _ _ _ _)). }
    destruct (attended_map (fun i => if bool_decide (item_asset i = Some a) then i {{ item_asset := None }} else i) d _ sub wk
       (ltac:(destruct d; reflexivity) : items (d {{ items := _ }} {{ device_backups := (device_backups d) {{ backups := drop_asset a (backups (device_backups d)) }} }}) = _))
      as [Ha' Hq]; [intros i _; case_match; auto|exact Ha|].
    split; [by split|]. unfold left_over. cbn [db submitted working]. unfold update_where. lia.
  - destruct Hs as [Hi Ha]. split; [split|unfold left_over, queued; by destruct d].
    + apply (inv_map_runs d (fun r => if bool_decide (credential_profile_id r = Some p) then r {{ credential_profile_id := None }} else r) Hi).
      intros r. by case_match.
    + by destruct d.
Qed.
Lemma works_left s s' : working_state s -> rtc work s s' -> working_state s' /\ (left_over s' <= left_over s)%nat.
Proof.
  intros Hs Hst. induction Hst as [s|s1 s2 s3 H12 _ IH]; [done|]. destruct (work_left s1 s2 Hs H12) as [Hs2 ?].
  destruct (IH Hs2). split; [done|lia].
Qed.

(** Runs that ended stay so, and none is lost or invented. *)
Lemma work_runs s s' : working_state s -> work s s' ->
  map run_id (runs (db s')) = map run_id (runs (db s)) /\ (ended (db s) -> ended (db s')).
Proof.
  intros [Hi _] Hst.
  assert (Hmap : forall h, runs (db s') = map h (runs (db s)) ->
    (forall r, run_id (h r) = run_id r /\ (is_active r = false -> is_active (h r) = false)) ->
    map run_id (runs (db s')) = map run_id (runs (db s)) /\ (ended (db s) -> ended (db s'))).
  { intros h E H. rewrite E, map_map. split; [apply map_ext; intros r; apply H|].
    intros He r. rewrite E. intros (q & -> & Hq)%list_elem_of_fmap. by apply H, He. }
  destruct Hst as [s locked now|s s' Hth|d sub wk rid|d sub wk a|d sub wk p Hp].
  - apply (Hmap (run_after now (items (db s)))); [apply (turn_eq locked now s Hi)|].
    intros r. split; [apply run_after_kept|]. intros H. by rewrite run_after_inactive.
  - apply (Hmap id); [|done]. rewrite List.map_id. destruct Hth as [d sub1 sub2 wk w now i|d sub wk1 wk2 now i t a]; cbn [db] in *.
    + pose proof (ends_begin w now i d Hi) as He. destruct (run_item_begin w now i d) as [d' [t|]]; cbn [db]; [by subst|apply He].
    + apply (ends_end now i t a d Hi).
  - apply (Hmap (fun r => if run_has_id rid r then stop1 r else r)); [done|]. intros r.
    destruct (run_has_id rid r); [|done]. unfold stop1, is_active. destruct (run_status_of r) eqn:E; split; try done; by rewrite E.
  - apply (Hmap id); [|done]. rewrite List.map_id. by destruct d.
  - apply (Hmap (fun r => if bool_decide (credential_profile_id r = Some p) then r {{ credential_profile_id := None }} else r)); [done|].
    intros r. by case_match.
Qed.
Lemma works_runs s s' : working_state s -> rtc work s s' ->
  map run_id (runs (db s')) = map run_id (runs (db s)) /\ (ended (db s) -> ended (db s')).
Proof.
  intros Hs Hst. induction Hst as [s|s1 s2 s3 H12 _ IH]; [done|]. destruct (work_left s1 s2 Hs H12) as [Hs2 _].
  destruct (work_runs s1 s2 Hs H12) as [E1 H1]. destruct (IH Hs2) as [E2 H2]. split; [congruence|auto].
Qed.

(** A sweep with nothing in flight after it moves the queue, or every run
    has ended. *)
Lemma quiet_turn now s : working_state s -> in_flight (loop_turn (fun _ => false) now s) = 0%nat ->
  (left_over (loop_turn (fun _ => false) now s) < left_over s)%nat \/ ended (db (loop_turn (fun _ => false) now s)).
Proof.
  intros Hs Hf. destruct Hs as [Hi Ha]. destruct (turn_eq (fun _ => false) now s Hi) as (Er & Ei & Es & Ew).
  unfold in_flight in Hf. rewrite Es, Ew, length_app in Hf.
  assert (Hsub : submitted s = []) by (apply length_zero_iff_nil; lia).
  assert (Hwk : working s = []) by (apply length_zero_iff_nil; lia).
  assert (Hid : idle (db s)). { intros i Hin Hr. specialize (Ha i Hin Hr). rewrite Hsub, Hwk in Ha. by apply elem_of_nil in Ha. }
  destruct (List.filter is_queued (items (db s))) as [|i l] eqn:Ef.
  - right. intros r. rewrite Er. intros (q & -> & Hr)%list_elem_of_fmap.
    destruct (is_active q) eqn:Hact; [|by rewrite run_after_inactive]. rewrite filter_is_nil in Ef.
    assert (Hqz : count (items (db s)) (run_id q) Queued = 0).
    { apply count_zero. intros i Hin _ Hs. specialize (Ef i Hin). unfold is_queued in Ef. by rewrite bool_decide_eq_false in Ef. }
    assert (Hrz : count (items (db s)) (run_id q) Running = 0) by (apply count_zero; intros; by apply Hid).
    unfold run_after. rewrite Hact, Hqz, Hrz. simpl. by destruct (stopping q).
  - left. assert (Hin : i ∈ i :: l) by by left. rewrite <- Ef, elem_filter in Hin. destruct Hin as [Hin Hq%bool_decide_eq_true].
    destruct (queue_moves now (db s) i Hi Hid Hin Hq) as (j & Hj & Hjq & Hja).
    assert (Hlt : (queued (db (loop_turn (fun _ => false) now s)) < queued (db s))%nat).
    { unfold queued. rewrite Ei, filter_map_comm, length_map. apply filter_shrinks_in with j; [done| | |].
      - intros k Hk. unfold is_queued. rewrite !bool_decide_eq_true. intros Hkq. by rewrite (after_queued _ _ _ _ _ Hkq) in Hkq.
      - unfold is_queued. by apply bool_decide_eq_true.
      - unfold is_queued. by apply bool_decide_eq_false. }
    unfold left_over. rewrite Es, Ew, length_app. lia.
Qed.

Lemma round_left s s' : working_state s -> round s s' ->
  working_state s' /\ map run_id (runs (db s')) = map run_id (runs (db s)) /\ (ended (db s) -> ended (db s'))
  /\ ((left_over s' < left_over s)%nat \/ ended (db s')).
Proof.
  intros Hs Hr. destruct Hr as [s0 s1 now s3 H01 Hf H23|s0 s1 now s2 s2' s3 H01 H12 Hth H23].
  - destruct (works_left _ _ Hs H01) as [Hs1 L1]. destruct (works_runs _ _ Hs H01) as [R1 N1].
    destruct (turn_left (fun _ => false) now _ Hs1) as (Hs2 & _ & L2).
    destruct (work_runs _ _ Hs1 (work_turn s1 (fun _ => false) now)) as [R2 N2].
    destruct (works_left _ _ Hs2 H23) as [Hs3 L3]. destruct (works_runs _ _ Hs2 H23) as [R3 N3].
    split_and!; [done|congruence|by intros H; apply N3, N2, N1|].
    destruct (quiet_turn now s1 Hs1 Hf) as [Hl|He]; [left; lia|right; by apply N3].
  - destruct (works_left _ _ Hs H01) as [Hs1 L1]. destruct (works_runs _ _ Hs H01) as [R1 N1].
    destruct (turn_left (fun _ => false) now _ Hs1) as (Ht & _ & Lt).
    destruct (work_runs _ _ Hs1 (work_turn s1 (fun _ => false) now)) as [Rt Nt].
    destruct (works_left _ _ Ht H12) as [Hs2 L2]. destruct (works_runs _ _ Ht H12) as [R2 N2].
    destruct (thread_left _ _ Hs2 Hth) as [Hs2' L2']. destruct (work_runs _ _ Hs2 (work_thread _ _ Hth)) as [R2' N2'].
    destruct (works_left _ _ Hs2' H23) as [Hs3 L3]. destruct (works_runs _ _ Hs2' H23) as [R3 N3].
    split_and!; [done|congruence|by intros H; apply N3, N2', N2, Nt, N1|left; lia].
Qed.
Lemma rounds_end n s s' : working_state s -> nsteps round n s s' -> (left_over s < n)%nat \/ ended (db s) ->
  working_state s' /\ map run_id (runs (db s')) = map run_id (runs (db s)) /\ ended (db s').
Proof.
  intros Hs Hn. induction Hn as [s|n s1 s2 s3 H12 _ IH]; intros Hl.
  - destruct Hl; [lia|done].
  - destruct (round_left s1 s2 Hs H12) as (Hs2 & R & Hkeep & Hless). destruct (IH Hs2) as (? & ? & ?).
    + destruct Hl as [Hl|Hl]; [|auto]. destruct Hless; [left; lia|by right].
    + split_and!; [done|congruence|done].
Qed.

(** No state is stuck: a round can always be made. *)
Lemma thread_can_step s : in_flight s <> 0%nat -> exists s', thread_step s s'.
Proof.
  unfold in_flight. destruct s as [d [|id sub] [|[id' t] wk]]; simpl; intros Hf; try done; eexists.
  - apply (thread_ends d [] [] wk 0 id' t Crashed).
  - apply (thread_begins d [] sub [] (Surroundings (fun _ => None) (fun _ => None)) 0 id).
  - apply (thread_begins d [] sub _ (Surroundings (fun _ => None) (fun _ => None)) 0 id).
Qed.
Lemma round_possible s : exists s', round s s'.
Proof.
  destruct (decide (in_flight (loop_turn (fun _ => false) 0 s) = 0%nat)) as [Hf|Hf].
  - exists (loop_turn (fun _ => false) 0 s). by eapply round_quiet.
  - destruct (thread_can_step _ Hf) as [s' Hs']. exists s'. by eapply round_busy.
Qed.

Lemma start_worker_state now s : inv (db s) -> working_state (start_worker now s) /\ queued (db (start_worker now s)) = queued (db s).
Proof.
  intros Hi. split; [split; [by apply inv_recover|]|].
  - intros i (j & -> & Hj)%list_elem_of_fmap. unfold is_running. case_bool_decide; done.
  - unfold queued, start_worker, recover_interrupted, update_where. cbn [db]. destruct (db s) as [rs its ? ? ?]. simpl.
    rewrite filter_map_comm, length_map. f_equal. apply filter_ext_elem. intros i _. unfold is_running, is_queued.
    destruct (bool_decide (status i = Running)) eqn:E; [|done]. apply bool_decide_eq_true in E. by rewrite E.
Qed.

Section Properties.
Variable benchmarks : list (pystr * list pystr).
#[local] Notation reachable := (reachable benchmarks).

(** C7: Every run ends.  Let the worker start in any state the program can
    reach, threads of an old process still going on, and let nothing new be
    asked for.  Sweeps and threads interleave in any order: a sweep may find
    rows locked or not come, a device may answer anything, the license check
    and the credential profiles too, runs may be stopped and assets deleted.
    Count a round whenever a sweep that finds no row locked was made and then,
    if threads were submitted or busy, one of them went on.  After one round
    more than three for each queued item and one for each old thread, every
    run is "done" or "stopped" and every item final; runs are neither lost nor
    invented; and a round can be made from every state. *)
Theorem worker_finishes s now n s' :
  reachable s -> nsteps round n (start_worker now s) s' -> (3 * queued (db s) + length (working s) < n)%nat ->
  (forall r, r ∈ runs (db s') -> is_active r = false)
  /\ (forall i, i ∈ items (db s') -> is_terminal (status i) = true)
  /\ map run_id (runs (db s')) = map run_id (runs (db s))
  /\ exists s'', round s' s''.
Proof.
  intros Hs%runs_inv_reachable Hn Hlt. destruct (start_worker_state now s Hs) as [Hw Hq].
  destruct (rounds_end n _ _ Hw Hn) as ([Hi Ha] & R & He).
  { left. unfold left_over. rewrite Hq. cbn [submitted working start_worker length]. lia. }
  split_and!; [exact He| |rewrite R; by destruct s as [[] ? ?]|apply round_possible].
  intros i Hin. destruct (inv_home _ Hi i Hin) as (r & Hr & Er). destruct (inv_ended _ Hi r Hr (He r Hr)) as [H1 H2].
  rewrite count_zero in H1, H2. specialize (H1 i Hin (eq_sym Er)). specialize (H2 i Hin (eq_sym Er)). by destruct (status i).
Qed.

(** C28: In every reachable state each run's concurrency is between 1 and 50
    and no more of its items run than that; a finished or stopped run has
    nothing queued or running and a finish time; an item has a finish time
    exactly when its status is final and a reason exactly when it failed or
    was skipped. *)
Theorem runs_bounded s r :
  reachable s -> r ∈ runs (db s) ->
  1 <= concurrency r <= MAX_CONCURRENCY
  /\ count (items (db s)) (run_id r) Running <= concurrency r
  /\ (is_active r = false <-> run_finished_at r <> None)
  /\ (is_active r = false -> count (items (db s)) (run_id r) Queued = 0 /\ count (items (db s)) (run_id r) Running = 0)
  /\ forall i, i ∈ items (db s) ->
       (is_terminal (status i) = true <-> finished_at i <> None)
       /\ (status i = Failed \/ status i = Skipped <-> item_reason i <> None).
Proof.
  intros Hs%runs_inv_reachable Hr. pose proof (inv_runs _ Hs r Hr) as Hok. unfold run_ok in Hok. bool_prop.
  split; [done|]. split; [exact (inv_cap _ Hs r Hr)|]. split; [|split; [exact (inv_ended _ Hs r Hr)|]].
  - destruct (is_active r), (run_finished_at r); simpl in *; naive_solver.
  - intros i Hi. pose proof (inv_rows _ Hs i Hi) as Hrow. unfold row_ok in Hrow. bool_prop.
    destruct (finished_at i), (item_reason i), (status i); simpl in *; naive_solver.
Qed.

(** The sweep's loop over the runs is one simultaneous change: every run,
    item and claim is decided by the tables as they were before.  An item is
    claimed at most once, only from the queue of an active run that is not
    stopping and only if no other transaction holds it, in the order of the
    ids and within what the run's concurrency leaves free; it is then running
    with one attempt more. *)
Theorem sweep_simultaneous s locked now d' ids :
  reachable s -> sweep locked now (db s) = (d', ids) ->
  runs d' = map (run_after now (items (db s))) (runs (db s))
  /\ items d' = map (item_after locked now (runs (db s)) (items (db s))) (items (db s))
  /\ ids = flat_map (claims locked (items (db s))) (runs (db s))
  /\ NoDup ids
  /\ forall id, id ∈ ids -> exists i, i ∈ items (db s) /\ item_id i = id /\ status i = Queued /\ locked id = false
                             /\ get_item d' id = Some (run_item_started now i).
Proof.
  intros Hs%runs_inv_reachable E. pose proof (inv_sweep locked now _ Hs) as Hs'. rewrite E in Hs'. simpl in Hs'.
  rewrite sweep_form in E by done. injection E as <- <-. split_and!; [by destruct (db s)..|done|by apply all_claims_nodup|].
  intros id (r & Hr & Hid)%list_elem_of_In%in_flat_map. apply list_elem_of_In in Hr, Hid.
  pose proof (claims_spec _ _ _ _ Hid) as (Hst & _ & i & Hi & Ei & Er & Eq & Hl). exists i. split_and!; try done.
  assert (Ha : item_after locked now (runs (db s)) (items (db s)) i = run_item_started now i).
  { rewrite (item_after_own locked now _ Hs r) by done. unfold own_after. rewrite Hst.
    by rewrite Ei, (proj2 (in_ids_spec _ _) Hid). }
  rewrite <- Ei, <- Ha, <- (proj1 (item_after_kept locked now (runs (db s)) (items (db s)) i)).
  apply get_unique; [done|]. destruct (db s). simpl. apply list_elem_of_fmap. eauto.
Qed.

(** Stopping a run takes effect at the next sweep: nothing of the run is
    claimed, what was queued is cancelled, what runs goes on, and the run is
    "stopped" as soon as nothing of it runs. *)
Theorem stop_cancels_queue s r locked now d' ids :
  reachable s -> r ∈ runs (db s) -> is_active r = true ->
  sweep locked now (stop (db s) (run_id r)) = (d', ids) ->
  (forall i, i ∈ items (db s) -> item_id i ∈ ids -> item_run i <> run_id r)
  /\ count (items d') (run_id r) Queued = 0
  /\ count (items d') (run_id r) Running = count (items (db s)) (run_id r) Running
  /\ (forall i, i ∈ items (db s) -> item_run i = run_id r -> status i = Queued -> get_item d' (item_id i) = Some (cancel now i))
  /\ exists r', get_run d' (run_id r) = Some r'
       /\ run_status_of r' = if count (items (db s)) (run_id r) Running =? 0 then RunStopped else RunStopping.
Proof.
  intros Hs%runs_inv_reachable Hr Ha E. pose proof (inv_stop _ (run_id r) Hs) as Hd. set (d := stop (db s) (run_id r)) in *.
  pose proof (inv_sweep locked now _ Hd) as Hd'. rewrite E in Hd'. simpl in Hd'. rewrite sweep_form in E by done.
  assert (Ei : items d = items (db s)) by (unfold d, stop; by destruct (db s)).
  set (q := stop1 r). assert (Hq : q ∈ runs d).
  { unfold d, stop. destruct (db s). simpl. apply list_elem_of_fmap. exists r. unfold run_has_id. by rewrite Z.eqb_refl. }
  assert (Eq : run_id q = run_id r) by (unfold q, stop1; by destruct (run_status_of r)).
  assert (Hst : stopping q = true).
  { unfold q, stop1, stopping, is_active in *. destruct (run_status_of r) eqn:Er; try done; simpl; by rewrite Er. }
  assert (Hqa : is_active q = true) by (unfold stopping in Hst; unfold is_active; bool_prop; by rewrite Hst).
  injection E as E' Eids.
  assert (Eits : items d' = map (item_after locked now (runs d) (items d)) (items d)) by (subst d'; unfold d, stop; by destruct (db s)).
  assert (Ers : runs d' = map (run_after now (items d)) (runs d)) by (subst d'; unfold d, stop; by destruct (db s)).
  rewrite <- Ei, Eits, <- Eq, !(sweep_count locked now d Hd) by done.
  destruct (stopping_count locked now d q Hst) as [Hrun Hque]. split_and!; [|done|done| |].
  - intros i Hi Hin Er. rewrite <- Eids in Hin. apply list_elem_of_In, in_flat_map in Hin as (p & Hp & Hin).
    apply list_elem_of_In in Hp, Hin. pose proof (claims_spec _ _ _ _ Hin) as (Hps & _ & j & Hj & Ej & Ejr & _).
    rewrite (item_by_id (items d) i j) in Er; [|apply Hd|done|done|done].
    rewrite (run_by_id d p q) in Hps; [congruence|done|done|done|congruence].
  - intros i Hi Er Es.
    assert (Hc : item_after locked now (runs d) (items d) i = cancel now i).
    { rewrite (item_after_own locked now d Hd q) by done. unfold own_after. by rewrite Hst, (proj2 (of_run_spec _ _ _)). }
    rewrite <- (proj1 (item_after_kept locked now (runs d) (items d) i)), <- Hc. apply get_unique; [done|].
    rewrite Eits. apply list_elem_of_fmap. eauto.
  - exists (run_after now (items d) q). unfold get_run. rewrite <- (proj1 (run_after_kept now (items d) q)). split.
    + apply find_run; [apply Hd'|]. rewrite Ers. apply list_elem_of_fmap. eauto.
    + rewrite (proj1 (run_after_kept now (items d) q)). unfold run_after. rewrite Hqa, Hst. simpl. unfold stopping in Hst. bool_prop.
      by destruct (_ =? 0).
Qed.

(** Starting a run: it fails, changing nothing, exactly when the
    technology and the credential profile do not fit, no asset is chosen or
    more than 5000 are; otherwise the tables gain one queued run and, in the
    order of the inventory, one item for each chosen asset, skipped at once
    if and only if the asset has no address; the other items are untouched. *)
Theorem start_run_exact s now inventory members name tech p level conc user job k ids syslog :
  reachable s ->
  let chosen := match ids with Some wanted => List.filter (in_ids wanted) members | None => members end in
  match start_run benchmarks (db s) now inventory members name tech p level conc user job k ids syslog with
  | Raise e =>
      check_kind benchmarks k tech p = Raise e
      \/ e = NoAssets /\ chosen = [] \/ e = TooMany /\ MAX_ASSETS < Z.of_nat (length chosen)
  | Ok (d', r) =>
      check_kind benchmarks k tech p = Ok tt /\ runs d' = runs (db s) ++ [r] /\ run_status_of r = RunQueued
      /\ List.filter (fun i => negb (item_run i =? run_id r)) (items d') = items (db s)
      /\ map item_asset (List.filter (fun i => item_run i =? run_id r) (items d'))
         = map (fun a => Some (asset_key a)) (List.filter (fun a => in_ids chosen (asset_key a)) inventory)
      /\ map status (List.filter (fun i => item_run i =? run_id r) (items d'))
         = map (fun a => if blank_text (asset_ip a) then Skipped else Queued)
               (List.filter (fun a => in_ids chosen (asset_key a)) inventory)
  end.
Proof.
  intros Hs%runs_inv_reachable chosen.
  destruct (start_run _ _ _ _ _ _ _ _ _ _ _ _ _ _ _) as [[d' r]|e] eqn:E.
  - apply start_run_shape in E as (Er & -> & _ & _ & Hk). fold chosen in Er |- *.
    assert (Hid : run_id r = next_run (db s)) by by rewrite Er.
    assert (Hold : forall i, i ∈ items (db s) -> (item_run i =? run_id r) = false).
    { intros i Hi. apply Z.eqb_neq. destruct (inv_home _ Hs i Hi) as (q & Hq & <-).
      pose proof (inv_next_run _ Hs q Hq). lia. }
    set (assets := List.filter _ inventory). set (its := new_items _ _ _ assets).
    assert (Hnew : forall i, i ∈ its -> (item_run i =? run_id r) = true).
    { intros i Hi. apply Z.eqb_eq. rewrite Hid. by eapply new_items_spec. }
    cbn [runs items]. rewrite !filter_app.
    rewrite (filter_ext_elem _ (fun _ => true) (items (db s))) by (intros i Hi; by rewrite Hold).
    rewrite (proj2 (filter_is_nil (fun i => negb (item_run i =? run_id r)) its)) by (intros i Hi; by rewrite Hnew).
    rewrite (proj2 (filter_is_nil (fun i => item_run i =? run_id r) (items (db s)))) by done.
    rewrite (filter_ext_elem (fun i => item_run i =? run_id r) (fun _ => true) its) by done.
    rewrite !forallb_filter_id by (by apply forallb_forall). rewrite app_nil_r, !app_nil_l. split_and!; try done; [by rewrite Er| |].
    + unfold its. clear Hnew Hold its. clearbody assets. generalize (next_item (db s)). induction assets as [|a l IH]; intros id; simpl; [done|].
      rewrite IH. by rewrite (proj1 (proj2 (proj2 (new_item_spec now (next_run (db s)) id a)))).
    + unfold its. clear Hnew Hold its. clearbody assets. generalize (next_item (db s)). induction assets as [|a l IH]; intros id; simpl; [done|].
      rewrite IH. by rewrite (proj2 (proj2 (proj2 (proj2 (new_item_spec now (next_run (db s)) id a))))).
  - revert E. unfold start_run. fold chosen. destruct (check_kind _ _ _ _) as [[]|e'] eqn:Ek; simpl; [|intros [= ->]; auto].
    destruct (bool_decide _) eqn:Eb; simpl; [intros [= <-]; bool_prop; auto|].
    destruct (_ <=? _) eqn:El; simpl; [done|]. intros [= <-]. bool_prop. auto.
Qed.
End Properties.

(** ** An example: a group of three assets, one without an address *)
Module Example.
Definition inventory : list Asset :=
  [AssetRow 11 (Some (py "core-1")) (Some (py "10.0.0.1")); AssetRow 12 None None;
   AssetRow 13 (Some (py "core-2")) (Some (py "10.0.0.3"))].
Definition profile : CredentialProfile := Profile 5 Ssh.
Definition started : res RunError (database * GroupRun) :=
  start_run [] empty 100 inventory [11; 12; 13] (py "core") (py "cisco") profile None (Some 1) (Some 2) None AuditRun None false.
Definition tables : database := match started with Ok (d, _) => d | Raise _ => empty end.
Definition first_run : GroupRun := match started with Ok (_, r) => r | Raise _ => Run 0 [] AuditRun [] None None 1 RunDone None None false None None end.
Definition here : surroundings := Surroundings (fun p => if p =? 5 then Some profile else None) (fun _ => None).
Definition answers (id : Z) : answer :=
  if id =? 1 then AuditReturned (Session 7 11 101 false None None)
  else AuditRaised (Exn (py "SSHException") (py "Authentication failed.") false) [].

Lemma inventory_keys : NoDup (map asset_key inventory).
Proof. apply (bool_decide_unpack _). vm_compute. exact I. Qed.
Lemma tables_reachable :
  reachable [] (System tables [] []).
Proof.
  assert (E : started = Ok (tables, first_run)) by (vm_compute; reflexivity). unfold started in E.
  eapply reach_step; [apply reach_start|]. eapply step_start; [exact inventory_keys|exact E].
Qed.
End Example.

(** The two devices one after the other: a sweep hands out one id, its thread
    begins, another sweep finds nothing free, the thread ends, and so on; then
    quiet turns. *)
Module Rounds.
Import Example.
Definition begin1 (s : system) : system :=
  match submitted s with
  | id :: sub => let '(d', t) := run_item_begin here 200 id (db s) in
                 System d' sub (match t with Some t => (id, t) :: working s | None => working s end)
  | [] => s
  end.
Definition end1 (s : system) : system :=
  match working s with (id, t) :: wk => System (run_item_end 200 id t (answers id) (db s)) (submitted s) wk | [] => s end.
Definition go (s : system) : system :=
  let s := loop_turn (fun _ => false) 200 s in
  match submitted s, working s with _ :: _, _ => begin1 s | [], _ :: _ => end1 s | [], [] => s end.

Lemma begin1_step s : submitted s <> [] -> thread_step s (begin1 s).
Proof. destruct s as [d [|id sub] wk]; simpl; intros Hne; [done|]. apply (thread_begins d [] sub wk). Qed.
Lemma end1_step s : working s <> [] -> thread_step s (end1 s).
Proof. destruct s as [d sub [|[id t] wk]]; simpl; intros Hne; [done|]. apply (thread_ends d sub [] wk). Qed.
Lemma go_round s : round s (go s).
Proof.
  unfold go. set (s1 := loop_turn (fun _ => false) 200 s). destruct (submitted s1) as [|id sub] eqn:Es; [destruct (working s1) as [|x wk] eqn:Ew|].
  - apply (round_quiet s s 200); [apply rtc_refl| |apply rtc_refl]. fold s1. unfold in_flight. by rewrite Es, Ew.
  - apply (round_busy s s 200 s1 (end1 s1)); [apply rtc_refl..| |apply rtc_refl]. apply end1_step. by rewrite Ew.
  - apply (round_busy s s 200 s1 (begin1 s1)); [apply rtc_refl..| |apply rtc_refl]. apply begin1_step. by rewrite Es.
Qed.
Lemma go_rounds n s : nsteps round n s (Nat.iter n go s).
Proof.
  induction n as [|n IH]; [constructor|]. simpl. eapply nsteps_r; [exact IH|apply go_round].
Qed.
Definition last_state : system := Nat.iter 7 go (start_worker 200 (System tables [] [])).
End Rounds.

Lemma worker_finishes_witness :
  map run_status_of (runs (db Rounds.last_state)) = [RunDone]
  /\ forall i, i ∈ items (db Rounds.last_state) -> is_terminal (status i) = true.
Proof.
  split; [vm_compute; reflexivity|].
  apply (worker_finishes [] (System Example.tables [] []) 200 7 Rounds.last_state Example.tables_reachable).
  - apply Rounds.go_rounds.
  - vm_compute. lia.
Defined.

Lemma runs_bounded_witness : 1 <= concurrency Example.first_run <= MAX_CONCURRENCY
  /\ count (items Example.tables) 1 Running <= concurrency Example.first_run.
Proof.
  destruct (runs_bounded [] (System Example.tables [] []) Example.first_run
    Example.tables_reachable) as (H1 & H2 & _).
  - apply list_elem_of_In. vm_compute. auto.
  - split; [exact H1|exact H2].
Defined.

Lemma sweep_simultaneous_witness : NoDup (snd (sweep (fun _ => false) 200 Example.tables))
  /\ snd (sweep (fun _ => false) 200 Example.tables) = [1].
Proof.
  split; [|vm_compute; reflexivity].
  apply (sweep_simultaneous [] (System Example.tables [] []) (fun _ => false) 200
    (fst (sweep (fun _ => false) 200 Example.tables)) _
    Example.tables_reachable).
  apply surjective_pairing.
Defined.

Lemma stop_cancels_queue_witness :
  count (items (fst (sweep (fun _ => false) 200 (stop Example.tables 1)))) 1 Queued = 0
  /\ map run_status_of (runs (fst (sweep (fun _ => false) 200 (stop Example.tables 1)))) = [RunStopped].
Proof.
  split; [|vm_compute; reflexivity].
  apply (stop_cancels_queue [] (System Example.tables [] []) Example.first_run (fun _ => false) 200 _
    (snd (sweep (fun _ => false) 200 (stop Example.tables 1)))
    Example.tables_reachable).
  - apply list_elem_of_In. vm_compute. auto.
  - vm_compute. reflexivity.
  - apply surjective_pairing.
Defined.

Lemma start_run_exact_witness :
  match start_run [] empty 100 Example.inventory [11; 12; 13] (py "core") (py "cisco") Example.profile None (Some 1)
          (Some 2) None AuditRun (Some [12; 13]) false with
  | Ok (d', r) => map status (List.filter (fun i => item_run i =? run_id r) (items d')) = [Skipped; Queued]
  | Raise _ => False end.
Proof.
  pose proof (start_run_exact [] (System empty [] []) 100 Example.inventory [11; 12; 13] (py "core") (py "cisco")
    Example.profile None (Some 1) (Some 2) None AuditRun (Some [12; 13]) false
    (reach_start [])) as H.
  cbv zeta in H. cbn [db] in H. revert H.
  destruct (start_run _ _ _ _ _ _ _ _ _ _ _ _ _ _ _) as [[d' r]|e] eqn:E; [|vm_compute in E; discriminate].
  intros (_ & _ & _ & _ & _ & H). rewrite H. vm_compute. reflexivity.
Defined.
