(* ===== verification/Remediation.v ===== *)
(** * Remediation tracking and risk acceptance
    (src/app/modules/remediation/service.py, router.py, src/app/models/remediation.py)

    One item per problem that a module reports on an asset.  [sync] brings the
    items in line with the reports and applies the risk acceptances; the other
    operations change an item or an acceptance by hand.  Tables are maps: the
    items by their unique key column, the acceptances by id; the queries that
    read a whole table have no ORDER BY.  Times are naive UTC microseconds.
    A request that raises leaves the database as it was (get_db closes the
    session without a commit).  Not modelled: the facts that only the page
    displays ([detail], except the two the sync reads), the percentages of
    [summary], the audit log, the length checks on the request bodies; the
    reports of the end-of-support and certificate modules are given.  One
    request happens at one time. *)
From stdpp Require Import sorting.
From S2P Require Import Prelude PyStr.

Definition days (n : Z) : Z := n * 86400 * 1000000.
Definition hours (n : Z) : Z := n * 3600 * 1000000.

Definition CVE := py "cve".
Definition AUDIT := py "audit".
Definition ARCH := py "arch".
Definition EOL := py "eol".
Definition TLS := py "tls".
Definition CRITICAL := py "critical".
Definition HIGH := py "high".
Definition MEDIUM := py "medium".
Definition LOW := py "low".
Definition SEVERITIES : list pystr := [CRITICAL; HIGH; MEDIUM; LOW].

Definition present {A} (o : option A) : bool := match o with Some _ => true | None => false end.

(** ** Settings *)
Inductive Band : Type := KevBand | CriticalBand | HighBand | MediumBand | LowBand.
Definition DEFAULT_SLA (b : Band) : Z :=
  match b with KevBand => 7 | CriticalBand => 15 | HighBand => 30 | MediumBand => 90 | LowBand => 180 end.
Definition DEFAULT_ACCEPT_MAX (b : Band) : Z :=
  match b with KevBand => 30 | CriticalBand => 30 | HighBand => 90 | MediumBand => 180 | LowBand => 365 end.
Record Settings : Type := MkSettings { sla : Band -> Z; accept_max : Band -> Z }.
(** The stored section: the keys it has. *)
Record Stored : Type := MkStored { stored_sla : Band -> option Z; stored_accept : Band -> option Z }.
Definition get_settings (row : option Stored) : Settings :=
  match row with
  | None => MkSettings DEFAULT_SLA DEFAULT_ACCEPT_MAX
  | Some s => MkSettings (fun b => default (DEFAULT_SLA b) (stored_sla s b))
                         (fun b => default (DEFAULT_ACCEPT_MAX b) (stored_accept s b))
  end.
(** [Days]: what the settings request accepts. *)
Definition valid_days (d : Band -> Z) : bool :=
  forallb (fun b => (1 <=? d b) && (d b <=? 3650)) [KevBand; CriticalBand; HighBand; MediumBand; LowBand].
Definition save_settings (s : Settings) : Stored := MkStored (fun b => Some (sla s b)) (fun b => Some (accept_max s b)).

Definition _band (severity : pystr) (kev : bool) : Band :=
  if kev then KevBand
  else if bool_decide (severity = CRITICAL) then CriticalBand
  else if bool_decide (severity = HIGH) then HighBand
  else if bool_decide (severity = LOW) then LowBand
  else MediumBand.
Definition sla_due (first_seen : Z) (severity : pystr) (kev : bool) (st : Settings) : Z :=
  first_seen + days (sla st (_band severity kev)).
Definition accept_max_days (severity : pystr) (kev : bool) (st : Settings) : Z :=
  accept_max st (_band severity kev).

(** ** What the modules report *)
Record Asset : Type := MkAsset { asset_id : Z; asset_name : pystr; ip_address : pystr; asset_owner : option Z }.
Record Found : Type := MkFound {
  f_key : pystr; f_source : pystr; f_ref : pystr; f_asset : Asset; f_title : pystr; f_severity : pystr;
  f_kev : bool; hardened : bool; source_accepted : bool;
  result_id : option Z; source_status : option pystr }.

Definition _severity (value : option pystr) : pystr :=
  let v := lower (strip (default [] value)) in
  if bool_decide (v ∈ SEVERITIES) then v
  else if bool_decide (v = py "very_high") then CRITICAL
  else if bool_decide (v ∈ [py "info"; py "informational"; py "none"]) then LOW
  else MEDIUM.

Definition colon : pystr := py ":".
Definition make_key (source : pystr) (asset : Z) (rest : pystr) : pystr :=
  source ++ colon ++ str_of_int asset ++ colon ++ rest.
Definition empty_str (o : option pystr) : bool := match o with None | Some [] => true | _ => false end.
Definition or_str (o : option pystr) (d : pystr) : pystr := if empty_str o then d else default [] o.
Definition asset_by_id (assets : list Asset) (id : Z) : option Asset :=
  List.find (fun a => asset_id a =? id) assets.

(** A finding of the CVE module; the CVSS score in tenths. *)
Record CveFinding : Type := MkCve {
  cve_asset : Z; cve_id : pystr; cve_severity : option pystr; cvss : option Z;
  description : option pystr; cve_kev : bool }.
Definition severity_of_cvss (c : Z) : pystr :=
  if 90 <=? c then CRITICAL else if 70 <=? c then HIGH else if 40 <=? c then MEDIUM else LOW.
Definition cve_severity_of (f : CveFinding) : pystr :=
  match empty_str (cve_severity f), cvss f with
  | true, Some c => severity_of_cvss c
  | _, _ => _severity (cve_severity f)
  end.
Definition cve_found_one (assets : list Asset) (f : CveFinding) : list Found :=
  match asset_by_id assets (cve_asset f) with
  | None => []
  | Some a => [MkFound (make_key CVE (asset_id a) (cve_id f)) CVE (cve_id f) a
                 (take 500 (or_str (description f) (cve_id f))) (cve_severity_of f) (cve_kev f) false false None None]
  end.
Definition _cve_found (assets : list Asset) (loaded : option (list CveFinding)) : option (list Found) :=
  fs ← loaded; Some (flat_map (cve_found_one assets) fs).

(** Audits. *)
Record AuditSession : Type := MkSession { session_id : Z; session_asset : option Z; session_completed : bool; started_at : Z }.
Record AuditResult : Type := MkResult {
  res_id : Z; res_session : Z; failed : bool; check_number : option pystr; check_id : option Z;
  check_title : option pystr; res_severity : option pystr; vdom : option pystr; policy : option pystr }.
Record HardeningAction : Type := MkAction { act_result : Z; act_session : Z; act_success : bool; act_preview : bool }.

Definition later_session (s t : AuditSession) : Prop :=
  started_at t < started_at s \/ (started_at s = started_at t /\ session_id t <= session_id s).
#[export] Instance later_session_dec : RelDecision later_session.
Proof. intros s t. unfold later_session. apply _. Defined.
Definition add_latest (m : gmap Z AuditSession) (s : AuditSession) : gmap Z AuditSession :=
  match session_asset s with
  | Some a => match m !! a with Some _ => m | None => <[a := s]> m end
  | None => m
  end.
Definition _latest_completed_sessions (ss : list AuditSession) : gmap Z AuditSession :=
  foldl add_latest ∅
    (merge_sort later_session (List.filter (fun s => session_completed s && present (session_asset s)) ss)).

Definition vdom_suffix (v : option pystr) : pystr :=
  let v := strip (default [] v) in
  if negb (bool_decide (v = [])) && negb (bool_decide (lower v = py "global")) then colon ++ v else [].
(** [audit_ref] *)
Definition audit_ref (number v : option pystr) : pystr := default [] number ++ vdom_suffix v.

Definition or_id (o : option Z) (d : Z) : Z := match o with Some n => if n =? 0 then d else n | None => d end.
Definition check_of (r : AuditResult) : pystr :=
  or_str (check_number r) (str_of_int (or_id (check_id r) (res_id r))).
Definition audit_key (a : Asset) (r : AuditResult) : pystr :=
  make_key AUDIT (asset_id a) (check_of r ++ vdom_suffix (vdom r)).
Definition audit_one (assets : list Asset) (sessions : gmap Z AuditSession) (done_ : list Z) (r : AuditResult)
    : list Found * list pystr :=
  match List.find (fun s => session_id s =? res_session r) (map snd (map_to_list sessions)) with
  | None => ([], [])
  | Some s =>
      match session_asset s ≫= asset_by_id assets with
      | None => ([], [])
      | Some a =>
          if negb (empty_str (policy r)) then ([], [audit_key a r])
          else ([MkFound (audit_key a r) AUDIT (check_of r) a (take 500 (or_str (check_title r) (check_of r)))
                   (_severity (res_severity r)) false (bool_decide (res_id r ∈ done_)) false (Some (res_id r)) None], [])
      end
  end.
Definition _audit_found (assets : list Asset) (ss : list AuditSession) (rs : list AuditResult) (acts : list HardeningAction)
    : list Found * list Z * list pystr :=
  let sessions := _latest_completed_sessions ss in
  let ids := map (fun kv => session_id (snd kv)) (map_to_list sessions) in
  let done_ := map act_result (List.filter (fun h => act_success h && negb (act_preview h) && bool_decide (act_session h ∈ ids)) acts) in
  let outs := map (audit_one assets sessions done_) (List.filter failed rs) in
  (flat_map fst outs, map fst (map_to_list sessions), flat_map snd outs).

(** Architecture findings, end of support, certificates. *)
Record ArchFinding : Type := MkArch { arch_asset : option Z; rule_code : pystr; arch_title : pystr; arch_severity : pystr; arch_status : pystr }.
Definition arch_found_one (assets : list Asset) (f : ArchFinding) : list Found :=
  match arch_asset f ≫= asset_by_id assets with
  | None => []
  | Some a => [MkFound (make_key ARCH (asset_id a) (rule_code f)) ARCH (rule_code f) a (arch_title f)
                 (_severity (Some (arch_severity f))) false false
                 (bool_decide (arch_status f ∈ [py "accepted"; py "ignored"])) None (Some (arch_status f))]
  end.
Definition _arch_found (assets : list Asset) (fs : list ArchFinding) : list Found := flat_map (arch_found_one assets) fs.

Record EolComponent : Type := MkEol { eol_asset : Z; eol_key : pystr; eol_title : pystr; eol_status : pystr }.
(** [eol.SEVERITY] *)
Definition eol_severity (s : pystr) : option pystr :=
  if bool_decide (s = py "unsupported") then Some HIGH else if bool_decide (s = py "extended") then Some MEDIUM else None.
Definition eol_found_one (assets : list Asset) (c : EolComponent) : list Found :=
  match asset_by_id assets (eol_asset c), eol_severity (eol_status c) with
  | Some a, Some sev =>
      let title := eol_title c ++ (if bool_decide (eol_status c = py "unsupported") then py " is past the end of support"
                                  else py " gets security fixes only with paid extended support") in
      [MkFound (make_key EOL (asset_id a) (eol_key c)) EOL (eol_key c) a title sev false false false None None]
  | _, _ => []
  end.
Definition _eol_found (assets : list Asset) (cs : list EolComponent) : list Found := flat_map (eol_found_one assets) cs.

(** A problem of a TLS service; no title: only an alert. *)
Record TlsProblem : Type := MkTls { tls_asset : Asset; service_id : Z; code : pystr; tls_title : option pystr; tls_severity : pystr }.
Definition tls_found_one (p : TlsProblem) : list Found :=
  match tls_title p with
  | None => []
  | Some t => [MkFound (make_key TLS (asset_id (tls_asset p)) (str_of_int (service_id p) ++ colon ++ code p)) TLS (code p)
                 (tls_asset p) t (tls_severity p) false false false None None]
  end.
Definition _tls_found (ps : list TlsProblem) : list Found := flat_map tls_found_one ps.

Record Reports : Type := MkReports {
  cves : option (list CveFinding);
  audit_sessions : list AuditSession; audit_results : list AuditResult; hardening_actions : list HardeningAction;
  arch_findings : list ArchFinding; _arch_rule_codes : list pystr;
  eol_components : list EolComponent; tls_problems : list TlsProblem }.

(** ** Items, history, acceptances *)
Inductive Status : Type := ITEM_OPEN | ITEM_IN_PROGRESS | ITEM_PENDING | ITEM_RESOLVED | ITEM_ACCEPTED.
Inductive Reason : Type := fixed | asset_deleted | no_data | by_policy | rule_retired.
Inductive AcceptStatus : Type := ACCEPT_PENDING | ACCEPT_APPROVED | ACCEPT_REJECTED | ACCEPT_EXPIRED | ACCEPT_REVOKED.
Inductive Scope_ : Type := SCOPE_ITEM | SCOPE_REF.
#[export] Instance Status_dec : EqDecision Status.
Proof. solve_decision. Defined.
#[export] Instance AcceptStatus_dec : EqDecision AcceptStatus.
Proof. solve_decision. Defined.
#[export] Instance Scope_dec : EqDecision Scope_.
Proof. solve_decision. Defined.

Record RemediationItem : Type := MkItem {
  item_id : Z; item_key : pystr; item_source : pystr; item_ref : pystr; item_asset : option Z;
  item_asset_name : pystr; item_ip : pystr; item_title : pystr; severity : pystr; kev : bool;
  status : Status; owner_id : option Z; due_at : option Z; due_custom : bool; acceptance_id : option Z;
  first_seen_at : Z; last_seen_at : Z; resolved_at : option Z; closed_reason : option Reason; reopened : Z }.

(** What an event says. *)
Inductive EventKind : Type :=
| created (due : Z)
| assigned (owner : option Z) (automatic : bool)
| reopened_
| accepted (acceptance expires : Z)
| accepted_in_source (source_status : option pystr)
| acceptance_ended (acceptance : option Z)
| hardened_ (result : option Z)
| resolved (why : Reason)
| due_changed (due : option Z) (custom : bool)
| status_ (old new : Status)
| note (text : pystr)
| acceptance_requested (acceptance : Z) (scope : Scope_) (expires : Z)
| acceptance_decided (acceptance : Z) (approved : bool).
Record RemediationEvent : Type := MkEvent { event_item : Z; event_kind : EventKind; event_user : option Z; event_at : Z }.

Record RiskAcceptance : Type := MkAcceptance {
  scope : Scope_; acc_source : pystr; acc_ref : pystr; acc_item : option Z; acc_asset : option Z;
  acc_severity : pystr; acc_kev : bool; justification : pystr; compensating_control : option pystr;
  expires_at : Z; acc_status : AcceptStatus; requested_by : option Z; requested_at : Z;
  decided_by : option Z; decided_at : option Z; decision_note : option pystr;
  ended_by : option Z; ended_at : option Z }.

Inductive UserRole : Type := ADMIN | MANAGER | USER | GUEST.
#[export] Instance UserRole_dec : EqDecision UserRole.
Proof. solve_decision. Defined.
Record User : Type := MkUser { user_id : Z; user_email : option pystr; user_active : bool; user_role : UserRole }.

(** The tables; [recalculated] lists the assets handed to the risk score. *)
Record Db : Type := MkDb {
  items : gmap pystr RemediationItem; acceptances : gmap Z RiskAcceptance; events : list RemediationEvent;
  assets : list Asset; users : list User; owner_emails : list (Z * pystr); settings : option Stored;
  next_item : Z; next_acceptance : Z; recalculated : list Z }.

(** ** Synchronisation *)
(** The counters of one run ([stats]), in the order they were raised. *)
Inductive Counter : Type := n_created | n_reopened | n_accepted | n_unaccepted | n_resolved | n_expired.
(** What the run does to one item. *)
Record Change : Type := MkChange { after : RemediationItem; history : list EventKind; counted : list Counter; touches : bool }.
Definition same (i : RemediationItem) : Change := MkChange i [] [] false.
Definition then_ (c : Change) (f : RemediationItem -> Change) : Change :=
  let c' := f (after c) in
  MkChange (after c') (history c ++ history c') (counted c ++ counted c') (touches c || touches c').

(** [_owner_map] *)
Definition user_emails (us : list User) : gmap pystr Z :=
  foldl (fun m u => match user_email u with
                    | Some e => if user_active u then <[lower e := user_id u]> m else m
                    | None => m end) ∅ us.
Definition owner_of (d : Db) (a : Asset) : option Z :=
  o ← asset_owner a;
  kv ← List.find (fun kv => fst kv =? o) (owner_emails d);
  uid ← user_emails (users d) !! lower (strip (snd kv));
  if uid =? 0 then None else Some uid.

(** [_expire_acceptances], [_active_acceptances] *)
Definition overdue_acceptance (now : Z) (a : RiskAcceptance) : bool :=
  bool_decide (acc_status a = ACCEPT_APPROVED) && (expires_at a <=? now).
Definition expire (now : Z) (a : RiskAcceptance) : RiskAcceptance :=
  if overdue_acceptance now a then a {{ acc_status := ACCEPT_EXPIRED; ended_at := Some now }} else a.
Definition _expire_acceptances (now : Z) (d : Db) : gmap Z RiskAcceptance * list Z :=
  (expire now <$> acceptances d,
   map fst (List.filter (fun kv => overdue_acceptance now (snd kv)) (map_to_list (acceptances d)))).
Definition in_force (now : Z) (a : RiskAcceptance) : bool :=
  bool_decide (acc_status a = ACCEPT_APPROVED) && (now <? expires_at a).
Definition cover : Type := Z * RiskAcceptance.
Record Active : Type := MkActive { by_item : gmap Z cover; by_ref : gmap (pystr * pystr) cover }.
Definition add_active (now : Z) (m : Active) (c : cover) : Active :=
  let a := snd c in
  if in_force now a then
    match scope a, acc_item a with
    | SCOPE_ITEM, Some i => if i =? 0 then m else MkActive (<[i := c]> (by_item m)) (by_ref m)
    | SCOPE_ITEM, None => m
    | SCOPE_REF, _ => MkActive (by_item m) (<[(acc_source a, acc_ref a) := c]> (by_ref m))
    end
  else m.
Definition _active_acceptances (now : Z) (accs : gmap Z RiskAcceptance) : Active :=
  foldl (add_active now) (MkActive ∅ ∅) (map_to_list accs).
Definition covering (m : Active) (i : RemediationItem) : option cover :=
  match by_item m !! item_id i with
  | Some c => Some c
  | None => by_ref m !! (item_source i, item_ref i)
  end.

(** A problem seen for the first time. *)
Definition new_item (now : Z) (st : Settings) (id : Z) (owner : option Z) (f : Found) : RemediationItem :=
  MkItem id (f_key f) (f_source f) (f_ref f) (Some (asset_id (f_asset f))) (asset_name (f_asset f))
    (ip_address (f_asset f)) (f_title f) (f_severity f) (f_kev f) ITEM_OPEN owner
    (Some (sla_due now (f_severity f) (f_kev f) st)) false None now now None None 0.
Definition create (now : Z) (st : Settings) (id : Z) (owner : option Z) (f : Found) : Change :=
  MkChange (new_item now st id owner f)
    (created (sla_due now (f_severity f) (f_kev f) st) ::
     match owner with Some o => if o =? 0 then [] else [assigned (Some o) true] | None => [] end)
    [n_created] false.

(** A problem seen again. *)
Definition reopen (now : Z) (st : Settings) (f : Found) (i : RemediationItem) : Change :=
  if bool_decide (status i = ITEM_RESOLVED) then
    MkChange (i {{ status := ITEM_OPEN; resolved_at := None; closed_reason := None; reopened := reopened i + 1;
                   due_at := if due_custom i then due_at i else Some (sla_due now (f_severity f) (f_kev f) st) }})
      [reopened_] [n_reopened] false
  else same i.
Definition reband (st : Settings) (f : Found) (i : RemediationItem) : RemediationItem :=
  if negb (bool_decide ((severity i, kev i) = (f_severity f, f_kev f))) && negb (due_custom i)
  then i {{ due_at := Some (sla_due (first_seen_at i) (f_severity f) (f_kev f) st) }} else i.
Definition refresh (now : Z) (f : Found) (i : RemediationItem) : RemediationItem :=
  i {{ item_title := f_title f; severity := f_severity f; kev := f_kev f;
       item_asset_name := asset_name (f_asset f); item_ip := ip_address (f_asset f); last_seen_at := now }}.
Definition renew (now : Z) (st : Settings) (f : Found) (i : RemediationItem) : Change :=
  then_ (reopen now st f i) (fun i => same (refresh now f (reband st f i))).

Definition put_status (s : Status) (acc : option Z) (i : RemediationItem) : RemediationItem :=
  i {{ status := s; acceptance_id := acc }}.
Definition is_accepted (i : RemediationItem) : bool := bool_decide (status i = ITEM_ACCEPTED).

(** The status under the acceptances, the source's own decision and the hardening. *)
Definition settle (now : Z) (st : Settings) (f : Found) (acc : option cover) (i : RemediationItem) : Change :=
  match acc with
  | Some (id, a) =>
      if negb (is_accepted i) || negb (bool_decide (acceptance_id i = Some id))
      then MkChange (put_status ITEM_ACCEPTED (Some id) i) [accepted id (expires_at a)] [n_accepted] true
      else same i
  | None =>
      if source_accepted f then
        if negb (is_accepted i) || present (acceptance_id i)
        then MkChange (put_status ITEM_ACCEPTED None i) [accepted_in_source (source_status f)] [] false
        else same i
      else if is_accepted i then
        let j := put_status ITEM_OPEN None i in
        MkChange (if due_custom i then j
                  else j {{ due_at := Some (Z.max (sla_due (first_seen_at i) (severity i) (kev i) st) now) }})
          [acceptance_ended (acceptance_id i)] [n_unaccepted] true
      else if hardened f && bool_decide (status i ∈ [ITEM_OPEN; ITEM_IN_PROGRESS])
      then MkChange (i {{ status := ITEM_PENDING }}) [hardened_ (result_id f)] [] false
      else same i
  end.

(** The state of a run: the tables, the counters and the assets whose accepted set changed. *)
Record Run : Type := MkRun { run_db : Db; stats : list Counter; touched : list Z }.
Definition events_of (now : Z) (i : RemediationItem) (l : list EventKind) : list RemediationEvent :=
  map (fun k => MkEvent (item_id i) k None now) l.
Definition record (now : Z) (c : Change) (r : Run) : Run :=
  let d := run_db r in
  MkRun (d {{ items := <[item_key (after c) := after c]> (items d);
              events := events d ++ events_of now (after c) (history c) }})
    (stats r ++ counted c)
    (touched r ++ if touches c then match item_asset (after c) with Some a => [a] | None => [] end else []).
Definition bump (d : Db) : Db := d {{ next_item := next_item d + 1 }}.
Definition sync_one (now : Z) (st : Settings) (act : Active) (f : Found) (r : Run) : Run :=
  let d := run_db r in
  match items d !! f_key f with
  | None =>
      let c := create now st (next_item d) (owner_of d (f_asset f)) f in
      record now (then_ c (fun i => settle now st f (covering act i) i)) (MkRun (bump d) (stats r) (touched r))
  | Some i =>
      record now (then_ (renew now st f i) (fun i => settle now st f (covering act i) i)) r
  end.
Fixpoint sync_found (now : Z) (st : Settings) (act : Active) (fs : list Found) (seen : list pystr) (r : Run)
    : Run * list pystr :=
  match fs with
  | [] => (r, seen)
  | f :: fs =>
      if bool_decide (f_key f ∈ seen) then sync_found now st act fs seen r
      else sync_found now st act fs (f_key f :: seen) (sync_one now st act f r)
  end.

(** The items no report names any more. *)
Record Scan : Type := MkScan {
  all_found : list Found; checked_cve : bool; audited_assets : list Z; policy_keys : list pystr; rule_codes : list pystr }.
Definition scan (d : Db) (rep : Reports) : Scan :=
  let cve := _cve_found (assets d) (cves rep) in
  let '(audit, audited, pol) := _audit_found (assets d) (audit_sessions rep) (audit_results rep) (hardening_actions rep) in
  MkScan (default [] cve ++ audit ++ _arch_found (assets d) (arch_findings rep) ++
          _eol_found (assets d) (eol_components rep) ++ _tls_found (tls_problems rep))
    (present cve) audited pol (_arch_rule_codes rep).
Definition checked (s : Scan) (source : pystr) : bool :=
  (checked_cve s && bool_decide (source = CVE)) || bool_decide (source ∈ [AUDIT; ARCH; EOL; TLS]).
Definition asset_known (d : Db) (a : option Z) : bool :=
  match a with Some a => bool_decide (a ∈ map asset_id (assets d)) | None => false end.
(** Why an item closes, if it does. *)
Definition close_reason (d : Db) (s : Scan) (seen : list pystr) (i : RemediationItem) : option Reason :=
  if bool_decide (item_key i ∈ seen) || bool_decide (status i = ITEM_RESOLVED) then None
  else if negb (asset_known d (item_asset i)) then Some asset_deleted
  else if negb (checked s (item_source i)) then None
  else if bool_decide (item_source i = AUDIT) && negb (bool_decide (default 0 (item_asset i) ∈ audited_assets s)) then Some no_data
  else if bool_decide (item_key i ∈ policy_keys s) then Some by_policy
  else if bool_decide (item_source i = ARCH) && negb (bool_decide (item_ref i ∈ rule_codes s)) then Some rule_retired
  else Some fixed.
Definition resolve (now : Z) (why : Reason) (i : RemediationItem) : Change :=
  MkChange ((put_status ITEM_RESOLVED None i) {{ resolved_at := Some now; closed_reason := Some why }})
    [resolved why] [n_resolved] (is_accepted i).
Definition close_one (now : Z) (d : Db) (s : Scan) (seen : list pystr) (r : Run) (i : RemediationItem) : Run :=
  match close_reason d s seen i with Some why => record now (resolve now why i) r | None => r end.

(** [sync]; the deduplicated [touched] assets go to the risk score. *)
Definition put_acceptances (accs : gmap Z RiskAcceptance) (d : Db) : Db := d {{ acceptances := accs }}.
Definition sync_run (now : Z) (rep : Reports) (d : Db) : Run :=
  let s := scan d rep in
  let st := get_settings (settings d) in
  let '(accs, expired) := _expire_acceptances now d in
  let act := _active_acceptances now accs in
  let '(r, seen) := sync_found now st act (all_found s) [] (MkRun (put_acceptances accs d) [] []) in
  let r := foldl (close_one now d s seen) r (map snd (map_to_list (items (run_db r)))) in
  MkRun (run_db r) (stats r ++ map (fun _ => n_expired) expired) (touched r).
Definition _recalculate_risk (ids : list Z) (d : Db) : Db :=
  d {{ recalculated := recalculated d ++ remove_dups (List.filter (fun a => negb (a =? 0)) ids) }}.
Definition sync (now : Z) (rep : Reports) (d : Db) : Db * list Counter :=
  let r := sync_run now rep d in (_recalculate_risk (touched r) (run_db r), stats r).

(** ** Changes by hand *)
(** [RemediationError]: the message and the HTTP status. *)
Record RemediationError : Type := Refused { message : pystr; status_code : Z }.
Definition refused (m : string) : RemediationError := Refused (py m) 400.
Definition forbidden (m : string) : RemediationError := Refused (py m) 403.
Definition add_events (l : list RemediationEvent) (d : Db) : Db := d {{ events := events d ++ l }}.
Definition put_item (i : RemediationItem) (d : Db) : Db := d {{ items := <[item_key i := i]> (items d) }}.
Definition event (i : RemediationItem) (u now : Z) (k : EventKind) : RemediationEvent := MkEvent (item_id i) k (Some u) now.

(** [update_item]; an argument that was not sent is [None]. *)
Record Update : Type := MkUpdate {
  new_owner : option (option Z); new_due : option (option Z); new_status : option Status; new_note : option pystr }.
Definition known_user (d : Db) (u : Z) : bool := existsb (fun v => user_id v =? u) (users d).
Definition assign (d : Db) (u : Update) (i : RemediationItem) : res RemediationError Change :=
  match new_owner u with
  | None => Ok (same i)
  | Some o =>
      check match o with Some id => known_user d id | None => true end else refused "That user does not exist" in
      Ok (if bool_decide (o = owner_id i) then same i
          else MkChange (i {{ owner_id := o }}) [assigned o false] [] false)
  end.
Definition schedule (d : Db) (u : Update) (i : RemediationItem) : Change :=
  match new_due u with
  | None => same i
  | Some due =>
      let j := match due with
               | None => i {{ due_custom := false;
                              due_at := Some (sla_due (first_seen_at i) (severity i) (kev i) (get_settings (settings d))) }}
               | Some t => i {{ due_custom := true; due_at := Some t }}
               end in
      MkChange j [due_changed (due_at j) (due_custom j)] [] false
  end.
Definition move (u : Update) (i : RemediationItem) : res RemediationError Change :=
  match new_status u with
  | None => Ok (same i)
  | Some s =>
      if bool_decide (s = status i) then Ok (same i) else
      check negb (bool_decide (status i ∈ [ITEM_RESOLVED; ITEM_ACCEPTED])) else
        refused "This finding is closed; its status follows its source or its risk acceptance" in
      check bool_decide (s ∈ [ITEM_OPEN; ITEM_IN_PROGRESS; ITEM_PENDING]) else
        refused "A finding is resolved by the next audit or CVE check, not by hand" in
      Ok (MkChange (i {{ status := s }}) [status_ (status i) s] [] false)
  end.
Definition comment (u : Update) (i : RemediationItem) : Change :=
  if empty_str (new_note u) then same i else MkChange i [note (take 2000 (strip (default [] (new_note u))))] [] false.
Definition update_item (now : Z) (user : User) (u : Update) (i : RemediationItem) (d : Db) : res RemediationError Db :=
  let! c := assign d u i in
  let c := then_ c (schedule d u) in
  let! m := move u (after c) in
  let c := then_ (then_ c (fun _ => m)) (comment u) in
  Ok (add_events (map (event (after c) (user_id user) now) (history c)) (put_item (after c) d)).

(** [router.update_item]: a day is the end of that day. *)
Definition end_of_day (date : Z) : Z := days date + hours 23 + 59 * 60 * 1000000.
Definition NOT_FOUND : RemediationError := Refused (py "Finding not found") 404.
Definition item_by_id (d : Db) (id : Z) : option RemediationItem :=
  snd <$> List.find (fun kv => item_id (snd kv) =? id) (map_to_list (items d)).
Definition patch_item (now : Z) (user : User) (u : Update) (id : Z) (d : Db) : res RemediationError Db :=
  match item_by_id d id with
  | None => Raise NOT_FOUND
  | Some i => update_item now user (u {{ new_due := option_map (option_map end_of_day) (new_due u) }}) i d
  end.

(** ** Risk acceptance *)
Definition same_scope (i : RemediationItem) (sc : Scope_) (a : RiskAcceptance) : bool :=
  bool_decide (scope a = sc) &&
  match sc with
  | SCOPE_ITEM => bool_decide (acc_item a = Some (item_id i))
  | SCOPE_REF => bool_decide (acc_source a = item_source i) && bool_decide (acc_ref a = item_ref i)
  end.
Definition _covering_pending (d : Db) (i : RemediationItem) (sc : Scope_) : bool :=
  existsb (fun kv => bool_decide (acc_status (snd kv) ∈ [ACCEPT_PENDING; ACCEPT_APPROVED]) && same_scope i sc (snd kv))
    (map_to_list (acceptances d)).
Definition trimmed (o : option pystr) (n : nat) : option pystr :=
  let s := take n (strip (default [] o)) in if bool_decide (s = []) then None else Some s.
Definition request_acceptance (now : Z) (user : User) (sc : Scope_) (just : pystr) (control : option pystr)
    (expires : Z) (i : RemediationItem) (d : Db) : res RemediationError Db :=
  check negb (bool_decide (status i = ITEM_RESOLVED)) else refused "This finding is already resolved" in
  check negb (bool_decide (strip just = [])) else refused "A justification is required" in
  let max_days := accept_max_days (severity i) (kev i) (get_settings (settings d)) in
  check negb (expires <=? now) else refused "The end date must be in the future" in
  check negb (now + days max_days + hours 12 <? expires) else
    Refused (py "This finding can be accepted for at most " ++ str_of_int max_days ++ py " days") 400 in
  check negb (_covering_pending d i sc) else Refused (py "A risk acceptance for this is already pending or active") 409 in
  let id := next_acceptance d in
  let a := MkAcceptance sc (item_source i) (item_ref i)
             (match sc with SCOPE_ITEM => Some (item_id i) | SCOPE_REF => None end)
             (match sc with SCOPE_ITEM => item_asset i | SCOPE_REF => None end)
             (severity i) (kev i) (take 4000 (strip just)) (trimmed control 4000) expires
             ACCEPT_PENDING (Some (user_id user)) now None None None None None in
  Ok (add_events [event i (user_id user) now (acceptance_requested id sc expires)]
        (d {{ acceptances := <[id := a]> (acceptances d); next_acceptance := id + 1 }})).
(** [router.request_acceptance] *)
Definition post_acceptance (now : Z) (user : User) (sc : Scope_) (just : pystr) (control : option pystr)
    (expires_on : Z) (id : Z) (d : Db) : res RemediationError Db :=
  match item_by_id d id with
  | None => Raise NOT_FOUND
  | Some i => request_acceptance now user sc just control (end_of_day expires_on) i d
  end.

Definition decider (u : User) : bool := bool_decide (user_role u ∈ [ADMIN; MANAGER]).
Definition can_decide (u : User) (a : RiskAcceptance) : option pystr :=
  if negb (decider u) then Some (py "Only administrators and managers can decide on a risk acceptance")
  else if bool_decide (requested_by a = Some (user_id u)) then Some (py "You cannot decide on your own request")
  else if (acc_kev a || bool_decide (acc_severity a = CRITICAL)) && negb (bool_decide (user_role u = ADMIN))
  then Some (py "Only an administrator can accept a critical or known-exploited finding")
  else None.
Definition _items_of (d : Db) (a : RiskAcceptance) : list RemediationItem :=
  match scope a with
  | SCOPE_ITEM =>
      match acc_item a with
      | Some i => if i =? 0 then [] else match item_by_id d i with Some it => [it] | None => [] end
      | None => []
      end
  | SCOPE_REF => List.filter (fun i => bool_decide (item_source i = acc_source a) && bool_decide (item_ref i = acc_ref a))
                   (map snd (map_to_list (items d)))
  end.
Definition put_acceptance (id : Z) (a : RiskAcceptance) (d : Db) : Db := d {{ acceptances := <[id := a]> (acceptances d) }}.
Definition decision (now : Z) (u : User) (approve : bool) (text : option pystr) (a : RiskAcceptance) : RiskAcceptance :=
  a {{ acc_status := if approve then ACCEPT_APPROVED else ACCEPT_REJECTED; decided_by := Some (user_id u);
       decided_at := Some now; decision_note := trimmed text 2000 }}.
Definition decide_acceptance (now : Z) (rep : Reports) (id : Z) (a : RiskAcceptance) (u : User) (approve : bool)
    (text : option pystr) (d : Db) : res RemediationError Db :=
  check bool_decide (acc_status a = ACCEPT_PENDING) else refused "This request has already been decided" in
  match can_decide u a with
  | Some why => Raise (Refused why 403)
  | None =>
      check negb (approve && (expires_at a <=? now)) else
        refused "The requested end date has already passed; ask for a new request" in
      let d1 := add_events (map (fun i => event i (user_id u) now (acceptance_decided id approve)) (_items_of d a))
                  (put_acceptance id (decision now u approve text a) d) in
      Ok (if approve then fst (sync now rep d1) else d1)
  end.
Definition can_withdraw (u : User) (a : RiskAcceptance) : bool :=
  if bool_decide (requested_by a = Some (user_id u)) then bool_decide (acc_status a ∈ [ACCEPT_PENDING; ACCEPT_APPROVED])
  else bool_decide (acc_status a = ACCEPT_APPROVED) && decider u.
Definition revoke (now : Z) (u : User) (a : RiskAcceptance) : RiskAcceptance :=
  a {{ acc_status := ACCEPT_REVOKED; ended_by := Some (user_id u); ended_at := Some now }}.
Definition end_acceptance (now : Z) (rep : Reports) (id : Z) (a : RiskAcceptance) (u : User) (d : Db)
    : res RemediationError Db :=
  check bool_decide (acc_status a ∈ [ACCEPT_APPROVED; ACCEPT_PENDING]) else
    refused "Only a pending or active risk acceptance can be withdrawn" in
  check can_withdraw u a else
    (if bool_decide (acc_status a = ACCEPT_PENDING)
     then forbidden "Only the requester can cancel a pending request; reject it instead"
     else forbidden "Only the requester, an administrator or a manager can withdraw this") in
  let d1 := put_acceptance id (revoke now u a) d in
  Ok (if bool_decide (acc_status a = ACCEPT_APPROVED) then fst (sync now rep d1) else d1).
(** [router._get_acceptance] and the three handlers on it. *)
Definition _get_acceptance (d : Db) (id : Z) : res RemediationError RiskAcceptance :=
  match acceptances d !! id with Some a => Ok a | None => Raise (Refused (py "Risk acceptance not found") 404) end.
Definition approve_or_reject (now : Z) (rep : Reports) (id : Z) (u : User) (approve : bool) (text : option pystr) (d : Db) :=
  let! a := _get_acceptance d id in decide_acceptance now rep id a u approve text d.
Definition withdraw (now : Z) (rep : Reports) (id : Z) (u : User) (d : Db) : res RemediationError Db :=
  let! a := _get_acceptance d id in end_acceptance now rep id a u d.

(** [accepted_refs] *)
Definition accepted_refs (d : Db) (asset : Z) (source : pystr) : list pystr :=
  map (fun i => drop (length (make_key source asset [])) (item_key i))
    (List.filter (fun i => bool_decide (item_asset i = Some asset) && bool_decide (item_source i = source) &&
                           is_accepted i && present (acceptance_id i)) (map snd (map_to_list (items d)))).

(** [summary]: the counts of the page. *)
Definition is_active (i : RemediationItem) : bool := bool_decide (status i ∈ [ITEM_OPEN; ITEM_IN_PROGRESS; ITEM_PENDING]).
Definition due_before (t : Z) (i : RemediationItem) : bool := match due_at i with Some x => x <? t | None => false end.
Record Summary : Type := MkSummary { n_open : nat; n_overdue : nat; n_due_soon : nat; n_accepted_now : nat; n_fixed_90d : nat; n_on_time : nat }.
Definition count_items (p : RemediationItem -> bool) (d : Db) : nat := length (List.filter p (map snd (map_to_list (items d)))).
Definition fixed_since (t : Z) (i : RemediationItem) : bool :=
  bool_decide (status i = ITEM_RESOLVED) && match closed_reason i with Some fixed => true | _ => false end &&
  match resolved_at i with Some x => t <=? x | None => false end.
Definition on_time (i : RemediationItem) : bool :=
  match due_at i, resolved_at i with Some x, Some t => t <=? x | _, _ => true end.
Definition summary (now : Z) (d : Db) : Summary :=
  let since := now - days 90 in
  MkSummary (count_items is_active d)
    (count_items (fun i => is_active i && due_before now i) d)
    (count_items (fun i => is_active i && present (due_at i) && negb (due_before now i) && due_before (now + days 7) i) d)
    (count_items is_accepted d)
    (count_items (fixed_since since) d)
    (count_items (fun i => fixed_since since i && on_time i) d).

(** ** What the constraints of the tables do when a row is deleted *)
Definition unlink_asset (a : Z) (removed : list Z) (i : RemediationItem) : RemediationItem :=
  i {{ item_asset := if bool_decide (item_asset i = Some a) then None else item_asset i;
       acceptance_id := match acceptance_id i with
                        | Some n => if bool_decide (n ∈ removed) then None else Some n
                        | None => None end }}.
Definition delete_asset (a : Z) (d : Db) : Db :=
  let removed := map fst (List.filter (fun kv => bool_decide (acc_asset (snd kv) = Some a)) (map_to_list (acceptances d))) in
  d {{ assets := List.filter (fun x => negb (asset_id x =? a)) (assets d);
       items := unlink_asset a removed <$> items d;
       acceptances := filter (fun kv => acc_asset (snd kv) <> Some a) (acceptances d) }}.
Definition unless (u : Z) (o : option Z) : option Z := if bool_decide (o = Some u) then None else o.
Definition unlink_user (u : Z) (a : RiskAcceptance) : RiskAcceptance :=
  a {{ requested_by := unless u (requested_by a); decided_by := unless u (decided_by a); ended_by := unless u (ended_by a) }}.
Definition delete_user (u : Z) (d : Db) : Db :=
  d {{ users := List.filter (fun v => negb (user_id v =? u)) (users d);
       items := (fun i => i {{ owner_id := unless u (owner_id i) }}) <$> items d;
       acceptances := unlink_user u <$> acceptances d }}.

(** The steps of the system. *)
Inductive step (d : Db) : Db -> Prop :=
| step_sync now rep : step d (fst (sync now rep d))
| step_patch now user u id d' : patch_item now user u id d = Ok d' -> step d d'
| step_request now user sc just control date id d' :
    post_acceptance now user sc just control date id d = Ok d' -> step d d'
| step_decide now rep id u b text d' : approve_or_reject now rep id u b text d = Ok d' -> step d d'
| step_withdraw now rep id u d' : withdraw now rep id u d = Ok d' -> step d d'
| step_settings s : valid_days (sla s) = true -> valid_days (accept_max s) = true ->
    step d (d {{ settings := Some (save_settings s) }})
| step_delete_asset a : step d (delete_asset a d)
| step_delete_user u : step d (delete_user u d)
| step_people us owners : step d (d {{ users := us; owner_emails := owners }})
| step_new_asset a : step d (d {{ assets := assets d ++ [a] }}).
Definition empty_db : Db := MkDb ∅ ∅ [] [] [] [] None 1 1 [].
Inductive reachable : Db -> Prop :=
| reach_empty : reachable empty_db
| reach_step d d' : reachable d -> step d d' -> reachable d'.

(** ** One run, item by item *)
Definition keyed (m : gmap pystr RemediationItem) : Prop := forall k i, m !! k = Some i -> item_key i = k.
(** The tables a run never writes. *)
Definition same_people (d d' : Db) : Prop :=
  assets d' = assets d /\ users d' = users d /\ owner_emails d' = owner_emails d /\ settings d' = settings d /\
  acceptances d' = acceptances d /\ next_acceptance d' = next_acceptance d.
#[export] Instance same_people_pre : PreOrder same_people.
Proof. split; [done|]. unfold same_people. intros ??? (?&?&?&?&?&?) (?&?&?&?&?&?). split_and!; congruence. Qed.

Definition update_for (now : Z) (st : Settings) (act : Active) (owner : option Z) (f : Found) (id : Z) (old : option RemediationItem) : Change :=
  then_ (match old with None => create now st id owner f | Some i => renew now st f i end)
    (fun i => settle now st f (covering act i) i).

(** What never changes of an item. *)
Definition same_item (i j : RemediationItem) : Prop :=
  item_key j = item_key i /\ item_id j = item_id i /\ item_source j = item_source i /\ item_ref j = item_ref i.
#[export] Instance same_item_pre : PreOrder same_item.
Proof. split; [done|]. unfold same_item. intros ??? (?&?&?&?) (?&?&?&?). split_and!; congruence. Qed.

Lemma settle_same now st f acc i : same_item i (after (settle now st f acc i)).
Proof. destruct i, acc as [[]|]; unfold settle; repeat (case_match; simpl); done. Qed.
Lemma renew_same now st f i : same_item i (after (renew now st f i)).
Proof.
  unfold renew, then_. simpl. transitivity (after (reopen now st f i)).
  - unfold reopen. destruct i. case_bool_decide; by split_and!.
  - generalize (after (reopen now st f i)). intros j. unfold refresh, reband. destruct j.
    destruct (_ && _); by split_and!.
Qed.
Lemma update_same now st act own f id i : same_item i (after (update_for now st act own f id (Some i))).
Proof. unfold update_for, then_. simpl. etransitivity; [apply renew_same|apply settle_same]. Qed.
Lemma update_new now st act own f id :
  same_item (new_item now st id own f) (after (update_for now st act own f id None)).
Proof. unfold update_for, then_. simpl. apply settle_same. Qed.
Lemma update_key now st act own f id old :
  (forall i, old = Some i -> item_key i = f_key f) -> item_key (after (update_for now st act own f id old)) = f_key f.
Proof.
  destruct old as [i|]; intros H.
  - destruct (update_same now st act own f id i) as (-> & _). by apply H.
  - by destruct (update_new now st act own f id) as (-> & _).
Qed.

Lemma sync_one_eq now st act f r :
  sync_one now st act f r =
  let d := run_db r in
  record now (update_for now st act (owner_of d (f_asset f)) f (next_item d) (items d !! f_key f))
    (match items d !! f_key f with None => MkRun (bump d) (stats r) (touched r) | Some _ => r end).
Proof. unfold sync_one. by destruct (items (run_db r) !! f_key f). Qed.

Lemma record_items now c r : items (run_db (record now c r)) = <[item_key (after c) := after c]> (items (run_db r)).
Proof. by destruct r as [[]]. Qed.
Lemma record_people now c r : same_people (run_db r) (run_db (record now c r)).
Proof. by destruct r as [[]]. Qed.
Lemma record_next now c r : next_item (run_db (record now c r)) = next_item (run_db r).
Proof. by destruct r as [[]]. Qed.
Lemma bump_people d : same_people d (bump d).
Proof. by destruct d. Qed.
Lemma owner_of_eq d d' a : users d' = users d -> owner_emails d' = owner_emails d -> owner_of d' a = owner_of d a.
Proof. unfold owner_of. by intros -> ->. Qed.
Lemma owner_of_people d d' a : same_people d d' -> owner_of d' a = owner_of d a.
Proof. intros (_ & Hu & He & _). by apply owner_of_eq. Qed.

(** The reports without the later ones of the same key. *)
Fixpoint firsts (seen : list pystr) (fs : list Found) : list Found :=
  match fs with
  | [] => []
  | f :: fs => if bool_decide (f_key f ∈ seen) then firsts seen fs else f :: firsts (f_key f :: seen) fs
  end.
Lemma firsts_NoDup seen fs : NoDup (map f_key (firsts seen fs)) /\ Forall (fun f => f_key f ∉ seen) (firsts seen fs).
Proof.
  revert seen. induction fs as [|f fs IH]; intros seen; simpl; [by split; constructor|].
  case_bool_decide as Hf; [apply IH|]. destruct (IH (f_key f :: seen)) as [Hn Ha]. simpl. split.
  - constructor; [|done]. intros (g & Eg & Hg)%list_elem_of_fmap.
    rewrite list.Forall_forall in Ha. specialize (Ha _ Hg). set_solver.
  - constructor; [done|]. eapply list.Forall_impl; [exact Ha|]. set_solver.
Qed.
Lemma firsts_key seen fs k : k ∈ map f_key (firsts seen fs) <-> k ∈ map f_key fs /\ k ∉ seen.
Proof.
  revert seen. induction fs as [|f fs IH]; intros seen; simpl; [set_solver|].
  case_bool_decide as Hf; simpl; rewrite ?elem_of_cons, IH, ?elem_of_cons; [set_solver|].
  destruct (decide (k = f_key f)) as [->|]; set_solver.
Qed.
Lemma firsts_sub seen fs f : f ∈ firsts seen fs -> f ∈ fs.
Proof.
  revert seen. induction fs as [|g fs IH]; intros seen; simpl; [done|].
  case_bool_decide; rewrite ?elem_of_cons; intros Hf; [eauto|destruct Hf as [->|Hf]; eauto].
Qed.
Lemma sync_found_firsts now st act fs seen r :
  sync_found now st act fs seen r =
  (foldl (fun r f => sync_one now st act f r) r (firsts seen fs), rev (map f_key (firsts seen fs)) ++ seen).
Proof.
  revert seen r. induction fs as [|f fs IH]; intros seen r; simpl; [done|].
  case_bool_decide; [apply IH|]. rewrite IH. simpl. by rewrite <- app_assoc.
Qed.

Definition report_of (k : pystr) (fs : list Found) : option Found := List.find (fun f => bool_decide (f_key f = k)) fs.
Lemma report_of_Some k fs f : report_of k fs = Some f -> f_key f = k /\ f ∈ fs.
Proof. intros [H1 H2]%find_some. by rewrite list_elem_of_In, bool_decide_eq_true in *. Qed.
Lemma report_of_own fs f : NoDup (map f_key fs) -> f ∈ fs -> report_of (f_key f) fs = Some f.
Proof.
  unfold report_of. induction fs as [|g fs IH]; intros Hn Hf; [by apply elem_of_nil in Hf|]. inversion Hn as [|? ? Hg Hn']; subst.
  apply elem_of_cons in Hf as [->|Hf]; simpl; [by rewrite bool_decide_eq_true_2|].
  rewrite bool_decide_eq_false_2; [by apply IH|]. intros E. apply Hg. rewrite E. by apply list_elem_of_fmap_2.
Qed.
Lemma report_of_None k fs : report_of k fs = None <-> k ∉ map f_key fs.
Proof.
  unfold report_of. induction fs as [|f fs IH]; simpl; [set_solver|].
  case_bool_decide; [set_solver|]. rewrite IH. set_solver.
Qed.

(** Ids are positive, given out once and never reused. *)
Definition ids_ok (d : Db) : Prop :=
  (forall k i, items d !! k = Some i -> 0 < item_id i < next_item d) /\
  (forall k k' i i', items d !! k = Some i -> items d !! k' = Some i' -> item_id i = item_id i' -> k = k').
Lemma ids_insert d d' k j :
  items d' = <[k := j]> (items d) ->
  match items d !! k with
  | Some i => item_id j = item_id i /\ next_item d' = next_item d
  | None => item_id j = next_item d /\ next_item d' = next_item d + 1
  end -> 0 < next_item d -> ids_ok d -> ids_ok d'.
Proof.
  intros Hi Hj H0 [Hr Hu]. assert (Hle : next_item d <= next_item d') by (destruct (items d !! k); lia).
  split; rewrite Hi.
  - intros k1 i1. rewrite lookup_insert_Some. intros [[<- <-]|[_ Hl]]; [|specialize (Hr _ _ Hl); lia].
    destruct (items d !! k) as [i|] eqn:Ei; [specialize (Hr _ _ Ei)|]; lia.
  - assert (Hk : forall k1 i1, items d !! k1 = Some i1 -> item_id j = item_id i1 -> k = k1).
    { intros k1 i1 Hl He. destruct (items d !! k) as [i|] eqn:Ei; [apply (Hu k k1 i i1); try done; lia|].
      specialize (Hr _ _ Hl). lia. }
    intros k1 k2 i1 i2. rewrite !lookup_insert_Some.
    intros [[<- <-]|[_ H1]] [[<- <-]|[_ H2]] He; eauto. symmetry. eauto.
Qed.

(** The reports handled one after the other: each item is updated by its own report. *)
Lemma fold_sync now st act fs r :
  NoDup (map f_key fs) -> keyed (items (run_db r)) ->
  let r' := foldl (fun r f => sync_one now st act f r) r fs in
  same_people (run_db r) (run_db r') /\ next_item (run_db r) <= next_item (run_db r') /\ keyed (items (run_db r')) /\
  (0 < next_item (run_db r) -> ids_ok (run_db r) -> ids_ok (run_db r')) /\
  forall k,
    match report_of k fs with
    | None => items (run_db r') !! k = items (run_db r) !! k
    | Some f => exists id,
        items (run_db r') !! k =
          Some (after (update_for now st act (owner_of (run_db r) (f_asset f)) f id (items (run_db r) !! k))) /\
        next_item (run_db r) <= id <= next_item (run_db r')
    end.
Proof.
  revert r. induction fs as [|f fs IH]; intros r Hn Hk; simpl; [exact (conj (reflexivity _) (conj (Z.le_refl _) (conj Hk (conj (fun _ H => H) (fun k => eq_refl)))))|].
  inversion Hn as [|? ? Hf Hn']; subst.
  set (r1 := sync_one now st act f r).
  assert (Hr1 : same_people (run_db r) (run_db r1) /\
    next_item (run_db r1) = next_item (run_db r) + (if items (run_db r) !! f_key f then 0 else 1) /\
    items (run_db r1) = <[f_key f := after (update_for now st act (owner_of (run_db r) (f_asset f)) f (next_item (run_db r)) (items (run_db r) !! f_key f))]> (items (run_db r))).
  { unfold r1. rewrite sync_one_eq. cbv zeta. rewrite record_items, record_next, update_key by (intros i; apply Hk).
    destruct (items (run_db r) !! f_key f).
    - refine (conj _ (conj _ _)); [apply record_people|lia|done].
    - refine (conj _ (conj _ _)); [etransitivity; [|apply record_people]; apply bump_people|by destruct (run_db r)..]. }
  destruct Hr1 as (Hp & Hx & Hi).
  assert (Hle : next_item (run_db r) <= next_item (run_db r1)) by (destruct (items _ !! _); lia).
  assert (Hids : 0 < next_item (run_db r) -> ids_ok (run_db r) -> ids_ok (run_db r1)).
  { intros H0. apply (ids_insert _ _ _ _ Hi); [|done]. destruct (items (run_db r) !! f_key f) as [i|].
    - destruct (update_same now st act (owner_of (run_db r) (f_asset f)) f (next_item (run_db r)) i) as (_ & -> & _).
      split; [done|lia].
    - by destruct (update_new now st act (owner_of (run_db r) (f_asset f)) f (next_item (run_db r))) as (_ & -> & _). }
  assert (Hk1 : keyed (items (run_db r1))).
  { rewrite Hi. intros k i. rewrite lookup_insert_Some. intros [[<- <-]|[_ Hl]]; [|by apply Hk].
    apply update_key. intros i. apply Hk. }
  destruct (IH r1 Hn' Hk1) as (Hp' & Hle' & Hk' & Hids' & Hl). clearbody r1.
  refine (conj _ (conj _ (conj Hk' (conj _ _)))); [by etransitivity|lia|intros; apply Hids'; [lia|auto]|].
  intros k. specialize (Hl k).
  destruct (decide (f_key f = k)) as [<-|Hne].
  - simpl. rewrite bool_decide_eq_true_2 by done.
    apply report_of_None in Hf. unfold report_of in *. rewrite Hf in Hl.
    exists (next_item (run_db r)). rewrite Hl, Hi, lookup_insert_eq. split; [done|lia].
  - simpl. rewrite bool_decide_eq_false_2 by done. fold (report_of k fs) in *.
    destruct (report_of k fs) as [g|].
    + destruct Hl as (id & Hl & Hid). exists id. rewrite Hl, Hi, lookup_insert_ne by done.
      rewrite (owner_of_people _ _ _ Hp). split; [done|lia].
    + by rewrite Hl, Hi, lookup_insert_ne.
Qed.

(** The items the reports no longer name: closed once each. *)
Definition closed (now : Z) (d : Db) (s : Scan) (seen : list pystr) (i : RemediationItem) : RemediationItem :=
  match close_reason d s seen i with Some why => after (resolve now why i) | None => i end.
Lemma resolve_same now why i : same_item i (after (resolve now why i)).
Proof. by destruct i. Qed.
Lemma closed_same now d s seen i : same_item i (closed now d s seen i).
Proof. unfold closed. case_match; [apply resolve_same|done]. Qed.

Lemma closed_seen now d s seen i : item_key i ∈ seen -> closed now d s seen i = i.
Proof. intros Hi. unfold closed, close_reason. by rewrite bool_decide_eq_true_2. Qed.

Lemma fold_close now d s seen l r :
  NoDup (map item_key l) ->
  let r' := foldl (close_one now d s seen) r l in
  same_people (run_db r) (run_db r') /\ next_item (run_db r') = next_item (run_db r) /\
  forall k, items (run_db r') !! k =
    match List.find (fun i => bool_decide (item_key i = k)) l with
    | Some i => match close_reason d s seen i with
                | Some why => Some (after (resolve now why i))
                | None => items (run_db r) !! k end
    | None => items (run_db r) !! k
    end.
Proof.
  revert r. induction l as [|i l IH]; intros r Hn; simpl; [done|].
  inversion Hn as [|? ? Hi Hn']; subst.
  set (r1 := close_one now d s seen r i).
  assert (Hr1 : same_people (run_db r) (run_db r1) /\ next_item (run_db r1) = next_item (run_db r) /\
    items (run_db r1) = match close_reason d s seen i with
                        | Some why => <[item_key i := after (resolve now why i)]> (items (run_db r))
                        | None => items (run_db r) end).
  { unfold r1, close_one. destruct (close_reason d s seen i) as [why|]; [|done].
    rewrite record_items, record_next. refine (conj _ (conj eq_refl _)); [apply record_people|].
    by destruct (resolve_same now why i) as (-> & _). }
  destruct Hr1 as (Hp & Hx & Hl1). destruct (IH r1 Hn') as (Hp' & Hx' & Hl'). clearbody r1.
  refine (conj _ (conj _ _)); [by etransitivity|congruence|]. intros k. rewrite Hl', Hl1.
  destruct (decide (item_key i = k)) as [<-|Hne].
  - rewrite bool_decide_eq_true_2 by done.
    assert (List.find (fun j => bool_decide (item_key j = item_key i)) l = None) as ->.
    { destruct (List.find _ l) as [j|] eqn:Ej; [|done]. apply find_some in Ej as [Hj Ej].
      apply bool_decide_eq_true in Ej. destruct Hi. rewrite <- Ej. apply list_elem_of_fmap_2. by apply list_elem_of_In. }
    destruct (close_reason d s seen i); [by rewrite lookup_insert_eq|done].
  - rewrite bool_decide_eq_false_2 by done.
    assert (forall X : RemediationItem, (<[item_key i := X]> (items (run_db r))) !! k = items (run_db r) !! k) as Hk
      by (intros; by apply lookup_insert_ne).
    destruct (List.find _ l) as [j|]; [destruct (close_reason d s seen j); [done|]|];
      destruct (close_reason d s seen i); rewrite ?Hk; done.
Qed.

Lemma keyed_NoDup m : keyed m -> NoDup (map item_key (map snd (map_to_list m))).
Proof.
  intros Hk. rewrite map_map.
  rewrite (map_ext_in _ fst); [apply NoDup_fst_map_to_list|].
  intros [k i] Hin. apply list_elem_of_In, elem_of_map_to_list in Hin. simpl. by apply Hk.
Qed.
Lemma keyed_find m k : keyed m ->
  List.find (fun i => bool_decide (item_key i = k)) (map snd (map_to_list m)) = m !! k.
Proof.
  intros Hk. destruct (List.find _ _) as [i|] eqn:Ef.
  - apply find_some in Ef as [Hin Ei]. apply bool_decide_eq_true in Ei as <-.
    apply in_map_iff in Hin as ([k' i'] & <- & Hin). apply list_elem_of_In, elem_of_map_to_list in Hin.
    simpl. by rewrite (Hk _ _ Hin).
  - destruct (m !! k) as [i|] eqn:Em; [|done].
    assert (List.In i (map snd (map_to_list m))) as Hin.
    { apply in_map_iff. exists (k, i). split; [done|]. by apply list_elem_of_In, elem_of_map_to_list. }
    eapply find_none in Ef; [|exact Hin]. apply bool_decide_eq_false in Ef. by destruct Ef; apply Hk.
Qed.
Lemma close_all now d s seen r :
  keyed (items (run_db r)) ->
  let r' := foldl (close_one now d s seen) r (map snd (map_to_list (items (run_db r)))) in
  same_people (run_db r) (run_db r') /\ next_item (run_db r') = next_item (run_db r) /\
  items (run_db r') = closed now d s seen <$> items (run_db r).
Proof.
  intros Hk. destruct (fold_close now d s seen _ r (keyed_NoDup _ Hk)) as (Hp & Hx & Hl).
  refine (conj Hp (conj Hx _)). apply map_eq. intros k. rewrite Hl, (keyed_find _ _ Hk), lookup_fmap.
  unfold closed. destruct (items (run_db r) !! k) as [i|] eqn:Ei; simpl; [|done]. by destruct (close_reason d s seen i).
Qed.

(** ** What one synchronisation leaves *)
Definition sync_active (now : Z) (d : Db) : Active := _active_acceptances now (fst (_expire_acceptances now d)).
Definition reported (d : Db) (rep : Reports) : list Found := firsts [] (all_found (scan d rep)).
(** The item under a key after the run, from the item before. *)
Definition after_sync (now : Z) (rep : Reports) (d : Db) (id : Z) (k : pystr) (old : option RemediationItem) : option RemediationItem :=
  match report_of k (reported d rep) with
  | Some f => Some (after (update_for now (get_settings (settings d)) (sync_active now d) (owner_of d (f_asset f)) f id old))
  | None => closed now d (scan d rep) (rev (map f_key (reported d rep))) <$> old
  end.
Lemma reported_key d rep k : k ∈ map f_key (reported d rep) <-> k ∈ map f_key (all_found (scan d rep)).
Proof. unfold reported. rewrite firsts_key. set_solver. Qed.

Definition start (now : Z) (d : Db) : Run := MkRun (put_acceptances (fst (_expire_acceptances now d)) d) [] [].
Definition sync_rest (now : Z) (rep : Reports) (d : Db) (r : Run) : Run :=
  foldl (close_one now d (scan d rep) (rev (map f_key (reported d rep)))) r (map snd (map_to_list (items (run_db r)))).
Lemma sync_eq now rep d :
  sync now rep d =
  let r := sync_rest now rep d (foldl (fun r f => sync_one now (get_settings (settings d)) (sync_active now d) f r)
                                  (start now d) (reported d rep)) in
  (_recalculate_risk (touched r) (run_db r),
   stats r ++ map (fun _ => n_expired) (snd (_expire_acceptances now d))).
Proof.
  unfold sync, sync_run, sync_active, start, sync_rest.
  destruct (_expire_acceptances now d) as [accs expired]. cbn [fst snd]. cbv beta iota zeta.
  by rewrite sync_found_firsts, app_nil_r.
Qed.

Lemma sync_items now rep d :
  keyed (items d) ->
  let d' := fst (sync now rep d) in
  (assets d' = assets d /\ users d' = users d /\ owner_emails d' = owner_emails d /\ settings d' = settings d /\
   next_acceptance d' = next_acceptance d) /\
  acceptances d' = expire now <$> acceptances d /\ keyed (items d') /\ next_item d <= next_item d' /\
  (0 < next_item d -> ids_ok d -> ids_ok d') /\
  forall k, exists id, next_item d <= id <= next_item d' /\ items d' !! k = after_sync now rep d id k (items d !! k).
Proof.
  intros Hk. rewrite sync_eq. cbv zeta. cbn [fst]. set (r0 := start now d).
  assert (H0 : items (run_db r0) = items d /\ next_item (run_db r0) = next_item d /\
    assets (run_db r0) = assets d /\ users (run_db r0) = users d /\ owner_emails (run_db r0) = owner_emails d /\
    settings (run_db r0) = settings d /\ acceptances (run_db r0) = expire now <$> acceptances d /\
    next_acceptance (run_db r0) = next_acceptance d) by by destruct d.
  destruct H0 as (Hi0 & Hn0 & Ha0 & Hu0 & He0 & Hs0 & Hc0 & Hx0). clearbody r0.
  destruct (fold_sync now (get_settings (settings d)) (sync_active now d) (reported d rep) r0) as (Hp & Hle & Hk1 & Hids & Hl);
    [apply firsts_NoDup|by rewrite Hi0|].
  unfold sync_rest. set (r1 := foldl _ r0 (reported d rep)) in *. clearbody r1.
  destruct (close_all now d (scan d rep) (rev (map f_key (reported d rep))) r1 Hk1) as (Hp2 & Hn2 & Hi2).
  set (r2 := foldl (close_one now d _ _) r1 _) in *. clearbody r2.
  assert (Hz : forall l, let d2 := _recalculate_risk l (run_db r2) in
    same_people (run_db r2) d2 /\ next_item d2 = next_item (run_db r2) /\ items d2 = items (run_db r2)) by by destruct (run_db r2).
  specialize (Hz (touched r2)). set (d2 := _recalculate_risk _ _) in *. clearbody d2.
  destruct Hz as (Hp3 & Hn3 & Hi3).
  assert (same_people (run_db r0) d2) as (Ea & Eu & Eo & Es & Ec & Ex).
  { transitivity (run_db r2); [|done]. transitivity (run_db r1); done. }
  refine (conj _ (conj _ (conj _ (conj _ (conj _ _))))); [split_and!; congruence|congruence| |lia| |].
  - rewrite Hi3, Hi2. intros k i. rewrite lookup_fmap. destruct (items (run_db r1) !! k) as [j|] eqn:Ej; [|done].
    intros [= <-]. destruct (closed_same now d (scan d rep) (rev (map f_key (reported d rep))) j) as (-> & _). by apply Hk1.
  - unfold ids_ok in *. rewrite Hi0, Hn0 in Hids. rewrite Hi3, Hi2, Hn3, Hn2. intros H0 H1. specialize (Hids H0 H1) as [Hr Hu].
    split; [intros k i|intros k k' i i']; rewrite !lookup_fmap_Some.
    + intros (j & <- & Hj). destruct (closed_same now d (scan d rep) (rev (map f_key (reported d rep))) j) as (_ & -> & _). eauto.
    + intros (j & <- & Hj) (j' & <- & Hj').
      destruct (closed_same now d (scan d rep) (rev (map f_key (reported d rep))) j) as (_ & -> & _).
      destruct (closed_same now d (scan d rep) (rev (map f_key (reported d rep))) j') as (_ & -> & _). eauto.
  - intros k. rewrite Hi3, Hi2, lookup_fmap. specialize (Hl k). unfold after_sync.
    destruct (report_of k (reported d rep)) as [f|] eqn:Ef.
    + destruct Hl as (id & Hl & Hid). exists id. split; [lia|]. rewrite Hl.
      rewrite Hi0, (owner_of_eq d (run_db r0) _ Hu0 He0). apply (f_equal Some), closed_seen.
      rewrite update_key by (intros i; rewrite (proj1 (report_of_Some _ _ _ Ef)); apply Hk).
      apply report_of_Some in Ef as [Ef Hin]. rewrite list_elem_of_In, <- in_rev, <- list_elem_of_In.
      by apply list_elem_of_fmap_2.
    + exists (next_item d). split; [lia|]. by rewrite Hl, Hi0.
Qed.

(** ** Acceptances in force *)
Definition covers (a : RiskAcceptance) (i : RemediationItem) : Prop :=
  match scope a with
  | SCOPE_ITEM => acc_item a = Some (item_id i)
  | SCOPE_REF => acc_source a = item_source i /\ acc_ref a = item_ref i
  end.
Lemma covers_same a i j : same_item i j -> covers a i -> covers a j.
Proof. unfold covers. intros (_ & -> & -> & ->). done. Qed.

Lemma in_force_expire now a : in_force now (expire now a) = in_force now a.
Proof.
  unfold expire, in_force, overdue_acceptance. destruct a as [? ? ? ? ? ? ? ? ? e s]; simpl.
  destruct s; simpl; try done. destruct (Z.leb_spec e now); simpl; [|done]. symmetry. apply Z.ltb_ge. lia.
Qed.
Lemma expire_in_force now a : in_force now a = true -> expire now a = a.
Proof.
  unfold expire, in_force, overdue_acceptance. intros H. apply andb_prop in H as [H1 H2]. rewrite H1. simpl.
  destruct (Z.leb_spec (expires_at a) now); [|done]. apply Z.ltb_lt in H2. lia.
Qed.

Definition active_ok (now : Z) (l : list cover) (m : Active) : Prop :=
  (forall i c, by_item m !! i = Some c -> c ∈ l /\ in_force now (snd c) = true /\ scope (snd c) = SCOPE_ITEM /\ acc_item (snd c) = Some i) /\
  (forall s r c, by_ref m !! (s, r) = Some c ->
     c ∈ l /\ in_force now (snd c) = true /\ scope (snd c) = SCOPE_REF /\ acc_source (snd c) = s /\ acc_ref (snd c) = r) /\
  (forall c, c ∈ l -> in_force now (snd c) = true ->
     match scope (snd c), acc_item (snd c) with
     | SCOPE_ITEM, Some i => i <> 0 -> is_Some (by_item m !! i)
     | SCOPE_ITEM, None => True
     | SCOPE_REF, _ => is_Some (by_ref m !! (acc_source (snd c), acc_ref (snd c)))
     end).
Lemma add_active_ok now l m c : active_ok now l m -> active_ok now (l ++ [c]) (add_active now m c).
Proof.
  intros (H1 & H2 & H3). unfold add_active.
  assert (Hl : forall x, x ∈ l -> x ∈ l ++ [c]) by set_solver.
  assert (Hc : forall x, x ∈ l ++ [c] -> x ∈ l \/ x = c) by set_solver.
  assert (Hold : forall m', (forall i, is_Some (by_item m !! i) -> is_Some (by_item m' !! i)) ->
      (forall p, is_Some (by_ref m !! p) -> is_Some (by_ref m' !! p)) ->
      forall x, x ∈ l -> in_force now (snd x) = true ->
     match scope (snd x), acc_item (snd x) with
     | SCOPE_ITEM, Some i => i <> 0 -> is_Some (by_item m' !! i)
     | SCOPE_ITEM, None => True
     | SCOPE_REF, _ => is_Some (by_ref m' !! (acc_source (snd x), acc_ref (snd x)))
     end).
  { intros m' Ha Hb x Hx Hf. specialize (H3 x Hx Hf). destruct (scope (snd x)), (acc_item (snd x)); eauto. }
  assert (Hins : forall K `{Countable K} (t : gmap K cover) (k k' : K) v, is_Some (t !! k') -> is_Some (<[k := v]> t !! k')).
  { intros K ? ? t k k' v [x Hx]. destruct (decide (k = k')) as [->|]; [rewrite lookup_insert_eq|rewrite lookup_insert_ne by done]; eauto. }
  destruct (in_force now (snd c)) eqn:Ef.
  2:{ refine (conj _ (conj _ _)); [intros i x Hx; destruct (H1 i x Hx); auto|intros s r x Hx; destruct (H2 s r x Hx); auto|].
      intros x Hx Hf. destruct (Hc x Hx) as [Hx'| ->]; [by apply (Hold m)|congruence]. }
  destruct (scope (snd c)) eqn:Es.
  - destruct (acc_item (snd c)) as [i|] eqn:Ei.
    + destruct (Z.eqb_spec i 0) as [->|Hi].
      * refine (conj _ (conj _ _)); [intros j x Hx; destruct (H1 j x Hx); auto|intros s r x Hx; destruct (H2 s r x Hx); auto|].
        intros x Hx Hf. destruct (Hc x Hx) as [Hx'| ->]; [by apply (Hold m)|]. rewrite Es, Ei. done.
      * refine (conj _ (conj _ _)); cbn [by_item by_ref].
        -- intros j x. rewrite lookup_insert_Some. intros [[<- <-]|[_ Hx]]; [split_and!; [set_solver|done..]|].
           destruct (H1 j x Hx); auto.
        -- intros s r x Hx. destruct (H2 s r x Hx); auto.
        -- intros x Hx Hf. destruct (Hc x Hx) as [Hx'| ->]; [apply (Hold (MkActive _ _)); cbn [by_item by_ref]; first [done|by intros; apply Hins]|].
           rewrite Es, Ei, lookup_insert_eq. eauto.
    + refine (conj _ (conj _ _)); [intros j x Hx; destruct (H1 j x Hx); auto|intros s r x Hx; destruct (H2 s r x Hx); auto|].
      intros x Hx Hf. destruct (Hc x Hx) as [Hx'| ->]; [by apply (Hold m)|]. by rewrite Es, Ei.
  - refine (conj _ (conj _ _)); cbn [by_item by_ref].
    + intros j x Hx. destruct (H1 j x Hx); auto.
    + intros s r x. rewrite lookup_insert_Some. intros [[[= <- <-] <-]|[_ Hx]]; [split_and!; [set_solver|done..]|].
      destruct (H2 s r x Hx); auto.
    + intros x Hx Hf. destruct (Hc x Hx) as [Hx'| ->]; [apply (Hold (MkActive _ _)); cbn [by_item by_ref]; first [done|by intros; apply Hins]|].
      rewrite Es, lookup_insert_eq. eauto.
Qed.
Lemma active_all now l : active_ok now l (foldl (add_active now) (MkActive ∅ ∅) l).
Proof.
  induction l as [|c l IH] using rev_ind; [|rewrite foldl_app; by apply add_active_ok].
  refine (conj _ (conj _ _)); simpl; [intros i c Hc|intros s r c Hc|intros c Hc].
  - by rewrite lookup_empty in Hc.
  - by rewrite lookup_empty in Hc.
  - by apply elem_of_nil in Hc.
Qed.

(** The run looks at exactly the acceptances in force. *)
Lemma covering_some now d i id a :
  covering (sync_active now d) i = Some (id, a) ->
  acceptances d !! id = Some a /\ in_force now a = true /\ covers a i.
Proof.
  unfold sync_active, _active_acceptances, _expire_acceptances. cbn [fst].
  destruct (active_all now (map_to_list (expire now <$> acceptances d))) as (H1 & H2 & _).
  set (m := foldl _ _ _) in *. clearbody m. unfold covering.
  assert (Hin : (id, a) ∈ map_to_list (expire now <$> acceptances d) -> in_force now a = true -> acceptances d !! id = Some a).
  { intros Hin Hf. apply elem_of_map_to_list in Hin. rewrite lookup_fmap in Hin.
    destruct (acceptances d !! id) as [b|]; simpl in Hin; [|done]. injection Hin as <-.
    rewrite in_force_expire in Hf. by rewrite (expire_in_force _ _ Hf). }
  unfold covers. destruct (by_item m !! item_id i) as [c|] eqn:Ei.
  - intros [= ->]. destruct (H1 _ _ Ei) as (Hx & Hf & Hs & Ha). simpl in *. rewrite Hs. auto.
  - intros Er. destruct (H2 _ _ _ Er) as (Hx & Hf & Hs & Ha & Hb). simpl in *. rewrite Hs. auto.
Qed.
Lemma covering_none now d i :
  covering (sync_active now d) i = None -> item_id i <> 0 ->
  forall id a, acceptances d !! id = Some a -> in_force now a = true -> covers a i -> False.
Proof.
  unfold sync_active, _active_acceptances, _expire_acceptances. cbn [fst].
  destruct (active_all now (map_to_list (expire now <$> acceptances d))) as (_ & _ & H3).
  set (m := foldl _ _ _) in *. clearbody m. unfold covering, covers. intros Hn Hi id a Ha Hf Hc.
  specialize (H3 (id, a)). simpl in H3. destruct (by_item m !! item_id i) eqn:Ei; [done|].
  assert ((id, a) ∈ map_to_list (expire now <$> acceptances d)) as Hin.
  { apply elem_of_map_to_list. rewrite lookup_fmap, Ha. simpl. by rewrite (expire_in_force _ _ Hf). }
  specialize (H3 Hin Hf). destruct (scope a).
  - rewrite Hc, Ei in H3. by destruct (H3 Hi).
  - destruct Hc as [E1 E2]. rewrite E1, E2, Hn in H3. by destruct H3.
Qed.

(** ** The invariant *)
Definition SOURCES : list pystr := [CVE; AUDIT; ARCH; EOL; TLS].
Record item_ok (i : RemediationItem) : Prop := {
  ok_source : item_source i ∈ SOURCES;
  ok_resolved : status i = ITEM_RESOLVED <-> present (resolved_at i) = true;
  ok_reason : status i = ITEM_RESOLVED <-> present (closed_reason i) = true;
  ok_accepted : present (acceptance_id i) = true -> status i = ITEM_ACCEPTED;
  ok_due : present (due_at i) = true;
  ok_reopened : 0 <= reopened i }.
Record acceptance_ok (a : RiskAcceptance) : Prop := {
  ok_expiry : requested_at a < expires_at a <= requested_at a + days 3650 + hours 12;
  ok_four_eyes : forall u, decided_by a = Some u -> requested_by a <> Some u;
  ok_decided : acc_status a ∈ [ACCEPT_APPROVED; ACCEPT_REJECTED; ACCEPT_EXPIRED] -> present (decided_at a) = true;
  ok_pending : acc_status a = ACCEPT_PENDING -> decided_by a = None }.
Definition limits_ok (st : Settings) : Prop :=
  forall b, 1 <= sla st b <= 3650 /\ 1 <= accept_max st b <= 3650.
Record wf (d : Db) : Prop := {
  wf_keyed : keyed (items d);
  wf_items : forall k i, items d !! k = Some i -> item_ok i;
  wf_ids : ids_ok d;
  wf_acceptances : forall n a, acceptances d !! n = Some a -> acceptance_ok a /\ n < next_acceptance d;
  wf_links : forall k i n, items d !! k = Some i -> acceptance_id i = Some n ->
    exists a, acceptances d !! n = Some a /\ covers a i /\ present (decided_at a) = true;
  wf_limits : limits_ok (get_settings (settings d));
  wf_next : 0 < next_item d }.

(** ** Each change keeps an item well formed *)
Lemma covering_same act i j : same_item i j -> covering act j = covering act i.
Proof. unfold covering. by intros (_ & -> & -> & ->). Qed.

Lemma new_ok now st id own f : f_source f ∈ SOURCES -> item_ok (new_item now st id own f).
Proof. intros Hs. constructor; simpl; done || lia. Qed.
Lemma reopen_ok now st f i :
  item_ok i -> item_ok (after (reopen now st f i)) /\ status (after (reopen now st f i)) <> ITEM_RESOLVED /\
    acceptance_id (after (reopen now st f i)) = acceptance_id i.
Proof.
  intros [H1 H2 H3 H4 H5 H6]. unfold reopen. destruct i; simpl in *. case_bool_decide as Hs; simpl; split_and!; try done.
  subst. assert (acceptance_id0 = None) as -> by (destruct acceptance_id0; [by specialize (H4 eq_refl)|done]).
  constructor; simpl; try done; [|lia]. by destruct due_custom0.
Qed.
Lemma reband_ok st f i :
  item_ok i -> item_ok (reband st f i) /\ status (reband st f i) = status i /\ acceptance_id (reband st f i) = acceptance_id i.
Proof.
  intros [H1 H2 H3 H4 H5 H6]. unfold reband. destruct i; simpl in *. destruct (_ && _); simpl; split_and!; try done;
  by constructor.
Qed.
Lemma refresh_ok now f i :
  item_ok i -> item_ok (refresh now f i) /\ status (refresh now f i) = status i /\ acceptance_id (refresh now f i) = acceptance_id i.
Proof. intros [H1 H2 H3 H4 H5 H6]. unfold refresh. destruct i; simpl in *. split_and!; try done; by constructor. Qed.
Lemma renew_ok now st f i :
  item_ok i -> item_ok (after (renew now st f i)) /\ status (after (renew now st f i)) <> ITEM_RESOLVED.
Proof.
  intros H. unfold renew, then_, same. cbn [after].
  destruct (reopen_ok now st f i H) as (H1 & Hs & _).
  destruct (reband_ok st f _ H1) as (H2 & Hs2 & _). destruct (refresh_ok now f _ H2) as (H3 & Hs3 & _).
  split; [done|]. by rewrite Hs3, Hs2.
Qed.

Lemma settle_frame now st f acc i :
  let j := after (settle now st f acc i) in
  resolved_at j = resolved_at i /\ closed_reason j = closed_reason i /\ reopened j = reopened i /\
  (present (due_at i) = true -> present (due_at j) = true).
Proof. destruct i, acc as [[]|]; unfold settle; repeat (case_match; simpl); split_and!; done. Qed.
Lemma settle_status now st f acc i :
  status i <> ITEM_RESOLVED -> (present (acceptance_id i) = true -> status i = ITEM_ACCEPTED) ->
  let j := after (settle now st f acc i) in
  acceptance_id j = option_map fst acc /\ status j <> ITEM_RESOLVED /\
  (status j = ITEM_ACCEPTED <-> present acc = true \/ source_accepted f = true).
Proof.
  intros Hs Ha. unfold settle, is_accepted, put_status. destruct acc as [[n a]|]; [|destruct (source_accepted f)].
  - destruct i; simpl in *. destruct (negb _ || negb _) eqn:E; simpl; [naive_solver|].
    apply orb_false_elim in E as [E1 E2]. bool_prop. naive_solver.
  - destruct i; simpl in *. destruct (negb _ || _) eqn:E; simpl; [naive_solver|].
    apply orb_false_elim in E as [E1 E2]. bool_prop. destruct acceptance_id0; naive_solver.
  - destruct i; simpl in *. case_bool_decide; [destruct due_custom0; simpl; naive_solver|].
    destruct acceptance_id0; [by specialize (Ha eq_refl)|]. destruct (hardened f && _); simpl; naive_solver.
Qed.
Lemma settle_ok now st f acc i :
  item_ok i -> status i <> ITEM_RESOLVED ->
  let j := after (settle now st f acc i) in
  item_ok j /\ status j <> ITEM_RESOLVED /\ acceptance_id j = option_map fst acc /\
  (status j = ITEM_ACCEPTED <-> present acc = true \/ source_accepted f = true).
Proof.
  intros [H1 H2 H3 H4 H5 H6] Hs.
  destruct (settle_frame now st f acc i) as (F1 & F2 & F3 & F4).
  destruct (settle_status now st f acc i Hs H4) as (S1 & S2 & S3).
  destruct (settle_same now st f acc i) as (_ & _ & F5 & _).
  set (j := after _) in *. clearbody j. refine (conj _ (conj S2 (conj S1 S3))).
  constructor; rewrite ?F1, ?F2, ?F3, ?F5; try tauto.
  rewrite S1, S3. destruct acc; simpl; auto.
Qed.

Lemma update_ok now st act own f id old :
  f_source f ∈ SOURCES -> (forall i, old = Some i -> item_ok i) ->
  let j := after (update_for now st act own f id old) in
  item_ok j /\ status j <> ITEM_RESOLVED /\ acceptance_id j = option_map fst (covering act j) /\
  (status j = ITEM_ACCEPTED <-> present (covering act j) = true \/ source_accepted f = true).
Proof.
  intros Hs Ho. unfold update_for, then_. cbn [after].
  set (i := after (match old with None => _ | Some _ => _ end)).
  assert (Hi : item_ok i /\ status i <> ITEM_RESOLVED).
  { unfold i. destruct old as [i0|]; [by apply renew_ok, Ho|]. split; [by apply new_ok|done]. }
  clearbody i. destruct Hi as [Hi Hr].
  rewrite (covering_same act _ _ (settle_same now st f (covering act i) i)). by apply settle_ok.
Qed.
Lemma resolve_ok now why i : item_ok i -> item_ok (after (resolve now why i)).
Proof. intros [H1 H2 H3 H4 H5 H6]. destruct i. by constructor. Qed.
Lemma closed_ok now d s seen i : item_ok i -> item_ok (closed now d s seen i).
Proof. intros H. unfold closed. case_match; [by apply resolve_ok|done]. Qed.

(** Every report has one of the five sources. *)
Lemma found_source d rep f : f ∈ all_found (scan d rep) -> f_source f ∈ SOURCES.
Proof.
  assert (Hfm : forall A (g : A -> list Found) (s : pystr) l, s ∈ SOURCES -> (forall x y, y ∈ g x -> f_source y = s) ->
    f ∈ flat_map g l -> f_source f ∈ SOURCES).
  { intros A g s l Hs Hg Hf. rewrite list_elem_of_In, in_flat_map in Hf. destruct Hf as (x & _ & Hx).
    apply list_elem_of_In in Hx. by rewrite (Hg x f Hx). }
  unfold scan, _audit_found. cbn [all_found]. rewrite !elem_of_app. intros Hf. destruct_or! Hf.
  - unfold _cve_found in Hf. destruct (cves rep) as [l|]; simpl in Hf; [|by apply elem_of_nil in Hf].
    eapply (Hfm _ _ CVE); [|..|exact Hf]; [set_solver|]. intros x y. unfold cve_found_one. case_match; set_solver.
  - rewrite list_elem_of_In, in_flat_map in Hf. destruct Hf as (x & (r & <- & _)%in_map_iff & Hx).
    apply list_elem_of_In in Hx. revert Hx. unfold audit_one. repeat case_match; simpl; set_solver.
  - eapply (Hfm _ _ ARCH); [|..|exact Hf]; [set_solver|]. intros x y. unfold arch_found_one. case_match; set_solver.
  - eapply (Hfm _ _ EOL); [|..|exact Hf]; [set_solver|]. intros x y. unfold eol_found_one. repeat case_match; set_solver.
  - eapply (Hfm _ _ TLS); [|..|exact Hf]; [set_solver|]. intros x y. unfold tls_found_one. case_match; set_solver.
Qed.

(** ** The invariant holds after every step *)
Lemma expire_fields now a :
  let b := expire now a in
  scope b = scope a /\ acc_item b = acc_item a /\ acc_source b = acc_source a /\ acc_ref b = acc_ref a /\
  requested_at b = requested_at a /\ expires_at b = expires_at a /\ decided_by b = decided_by a /\
  requested_by b = requested_by a /\ decided_at b = decided_at a /\
  (acc_status b = acc_status a \/ (acc_status b = ACCEPT_EXPIRED /\ acc_status a = ACCEPT_APPROVED)).
Proof.
  unfold expire, overdue_acceptance. destruct (bool_decide _ && _) eqn:E; [|split_and!; auto].
  apply andb_prop in E as [E _]. bool_prop. destruct a; simpl in *. split_and!; auto.
Qed.
Lemma expire_ok now a : acceptance_ok a -> acceptance_ok (expire now a).
Proof.
  destruct (expire_fields now a) as (_ & _ & _ & _ & E1 & E2 & E3 & E4 & E5 & E6). intros [H1 H2 H3 H4].
  constructor; rewrite ?E1, ?E2, ?E3, ?E4, ?E5; auto.
  - intros Hs. apply H3. destruct E6 as [E|[_ ->]]; [by rewrite <- E|set_solver].
  - intros Hs. apply H4. destruct E6 as [E|[E E']]; congruence.
Qed.
Lemma expire_covers now a i : covers a i -> covers (expire now a) i.
Proof. unfold covers. by destruct (expire_fields now a) as (-> & -> & -> & -> & _). Qed.

(** The item under a key after a run, for a well-formed state. *)
Lemma after_sync_item now rep d id k i :
  wf d -> after_sync now rep d id k (items d !! k) = Some i ->
  item_ok i /\
  match report_of k (reported d rep) with
  | Some f =>
      f_key f = k /\ status i <> ITEM_RESOLVED /\
      acceptance_id i = option_map fst (covering (sync_active now d) i) /\
      (status i = ITEM_ACCEPTED <-> present (covering (sync_active now d) i) = true \/ source_accepted f = true)
  | None => exists j, items d !! k = Some j /\ i = closed now d (scan d rep) (rev (map f_key (reported d rep))) j
  end.
Proof.
  intros Hwf. unfold after_sync. destruct (report_of k (reported d rep)) as [f|] eqn:Ef.
  - intros [= <-]. apply report_of_Some in Ef as [Ek Hin].
    destruct (update_ok now (get_settings (settings d)) (sync_active now d) (owner_of d (f_asset f)) f id (items d !! k))
      as (H1 & H2 & H3 & H4).
    + apply (found_source d rep). by eapply firsts_sub.
    + intros j Hj. by eapply wf_items.
    + auto.
  - destruct (items d !! k) as [j|] eqn:Ej; simpl; [|done]. intros [= <-].
    split; [apply closed_ok; by eapply wf_items|eauto].
Qed.

Lemma sync_wf now rep d : wf d -> wf (fst (sync now rep d)).
Proof.
  intros Hwf. pose proof Hwf as [Hk Hi Hids Ha Hl Hlim H0].
  destruct (sync_items now rep d Hk) as ((Ea & Eu & Eo & Es & Ex) & Ec & Hk' & Hn & Hids' & Hit).
  set (d' := fst (sync now rep d)) in *. clearbody d'.
  assert (Hacc : forall n b, acceptances d' !! n = Some b -> exists a, acceptances d !! n = Some a /\ b = expire now a).
  { intros n b. rewrite Ec, lookup_fmap_Some. intros (a & <- & ?). eauto. }
  constructor; [done| |by apply Hids'| | |by rewrite Es|lia].
  - intros k i Hki. destruct (Hit k) as (id & _ & Hi'). rewrite Hi' in Hki.
    by apply (after_sync_item _ _ _ _ _ _ Hwf) in Hki as [? _].
  - intros n b Hb. destruct (Hacc n b Hb) as (a & Hna & ->). destruct (Ha n a Hna). rewrite Ex.
    split; [by apply expire_ok|done].
  - intros k i n Hki Hn'. destruct (Hit k) as (id & _ & Hi'). rewrite Hi' in Hki.
    apply (after_sync_item _ _ _ _ _ _ Hwf) in Hki as [_ Hm].
    destruct (report_of k (reported d rep)) as [f|].
    + destruct Hm as (_ & _ & Hcov & _). rewrite Hcov in Hn'.
      destruct (covering _ i) as [[m a]|] eqn:Ecov; [|done]. simpl in Hn'. injection Hn' as ->.
      apply covering_some in Ecov as (Hna & Hf & Hc). exists a. rewrite Ec, lookup_fmap, Hna. simpl.
      rewrite (expire_in_force _ _ Hf). split_and!; [done..|].
      destruct (Ha n a Hna) as [[_ _ Hd _] _]. apply Hd. unfold in_force in Hf. bool_prop. rewrite H. set_solver.
    + destruct Hm as (j & Hj & ->). unfold closed in *. destruct (close_reason _ _ _ j); [by destruct j|].
      destruct (Hl k j n Hj Hn') as (a & Hna & Hc & Hd). exists (expire now a).
      rewrite Ec, lookup_fmap, Hna. split_and!; [done|by apply expire_covers|].
      by destruct (expire_fields now a) as (_ & _ & _ & _ & _ & _ & _ & _ & -> & _).
Qed.

Lemma item_by_id_Some d id i : wf d -> item_by_id d id = Some i -> items d !! item_key i = Some i /\ item_id i = id.
Proof.
  intros Hwf. unfold item_by_id. intros ([k j] & Hf & ->)%fmap_Some. apply find_some in Hf as [Hin Hid].
  apply list_elem_of_In, elem_of_map_to_list in Hin. simpl in *. rewrite (wf_keyed _ Hwf _ _ Hin). by bool_prop.
Qed.
(** An item is rewritten in place. *)
Lemma wf_put d d' i j :
  wf d -> items d !! item_key i = Some i -> same_item i j -> item_ok j -> acceptance_id j = acceptance_id i ->
  items d' = <[item_key j := j]> (items d) -> next_item d' = next_item d -> acceptances d' = acceptances d ->
  next_acceptance d' = next_acceptance d -> settings d' = settings d -> wf d'.
Proof.
  intros [Hk Hi Hids Ha Hl Hlim H0] Hii Hs Hj Hacc Ei En Ec Ex Es. destruct Hs as (Ek & Eid & Hs').
  constructor; rewrite ?En, ?Ec, ?Ex, ?Es; try done.
  - rewrite Ei. intros k i1. rewrite lookup_insert_Some. intros [[<- <-]|[_ ?]]; auto.
  - rewrite Ei. intros k i1. rewrite lookup_insert_Some. intros [[<- <-]|[_ ?]]; eauto.
  - eapply (ids_insert d d' _ _ Ei); [|done..]. rewrite Ek, Hii. done.
  - rewrite Ei. intros k i1 n. rewrite lookup_insert_Some. intros [[<- <-]|[_ ?]] Hn; [|eauto].
    rewrite Hacc in Hn. destruct (Hl _ _ _ Hii Hn) as (a & Hna & Hc & Hd). exists a. split_and!; [done| |done].
    eapply covers_same; [|exact Hc]. by split.
Qed.
(** An acceptance is rewritten in place. *)
Lemma wf_put_acceptance d d' n a b :
  wf d -> acceptances d !! n = Some a -> acceptance_ok b ->
  (scope b, acc_item b, acc_source b, acc_ref b) = (scope a, acc_item a, acc_source a, acc_ref a) ->
  (present (decided_at a) = true -> present (decided_at b) = true) ->
  items d' = items d -> next_item d' = next_item d -> acceptances d' = <[n := b]> (acceptances d) ->
  next_acceptance d' = next_acceptance d -> settings d' = settings d -> wf d'.
Proof.
  intros [Hk Hi Hids Ha Hl Hlim H0] Hna Hb Hs Hd Ei En Ec Ex Es. injection Hs as E1 E2 E3 E4.
  constructor; rewrite ?En, ?Ei, ?Ex, ?Es; try done.
  - unfold ids_ok in *. by rewrite En, Ei.
  - intros m c. rewrite Ec, lookup_insert_Some. intros [[<- <-]|[_ ?]]; [|eauto]. split; [done|]. by eapply Ha.
  - intros k i m Hki Hm. destruct (Hl k i m Hki Hm) as (c & Hc & Hcov & Hdec). rewrite Ec.
    destruct (decide (n = m)) as [<-|Hne]; [|exists c; by rewrite lookup_insert_ne].
    rewrite Hna in Hc. injection Hc as <-. exists b. rewrite lookup_insert_eq. split_and!; [done| |auto].
    unfold covers. by rewrite E1, E2, E3, E4.
Qed.

(** What the hand can do to an item. *)
Definition by_hand (i j : RemediationItem) : Prop :=
  same_item i j /\ acceptance_id j = acceptance_id i /\ resolved_at j = resolved_at i /\
  closed_reason j = closed_reason i /\ reopened j = reopened i /\
  (present (due_at i) = true -> present (due_at j) = true) /\
  (status j = status i \/ (is_active i = true /\ is_active j = true)).
#[export] Instance by_hand_pre : PreOrder by_hand.
Proof.
  split; [intros i; unfold by_hand; split_and!; auto; done|]. unfold by_hand.
  intros i j k (A1 & A2 & A3 & A4 & A5 & A6 & A7) (B1 & B2 & B3 & B4 & B5 & B6 & B7).
  refine (conj _ (conj _ (conj _ (conj _ (conj _ (conj _ _)))))); [by etransitivity|congruence..|auto|].
  unfold is_active in *. destruct A7 as [A|[A A']], B7 as [B|[B B']]; rewrite ?A, ?B in *; auto.
Qed.
Lemma active_spec i : is_active i = true -> status i <> ITEM_RESOLVED /\ status i <> ITEM_ACCEPTED.
Proof. unfold is_active. intros H. apply bool_decide_eq_true in H. destruct (status i); set_solver. Qed.
Lemma by_hand_ok i j : by_hand i j -> item_ok i -> item_ok j.
Proof.
  intros ((_ & _ & Es & _) & Ea & Er & Ec & En & Ed & Hst) [H1 H2 H3 H4 H5 H6].
  constructor; rewrite ?Es, ?Ea, ?Er, ?Ec, ?En; auto; destruct Hst as [->|[Hi Hj]]; try done;
    unfold is_active in *; bool_prop; destruct (status i), (status j); set_solver.
Qed.
Lemma assign_hand d u i c : assign d u i = Ok c -> by_hand i (after c).
Proof.
  unfold assign. destruct (new_owner u) as [o|]; [|by intros [= <-]].
  destruct (match o with Some _ => _ | None => _ end); [|done]. case_bool_decide; intros [= <-]; [done|].
  destruct i. unfold by_hand, same_item. simpl. tauto.
Qed.
Lemma schedule_hand d u i : by_hand i (after (schedule d u i)).
Proof. unfold schedule. destruct (new_due u) as [[t|]|]; [| |done]; destruct i; unfold by_hand, same_item; simpl; tauto. Qed.
Lemma move_hand u i c : move u i = Ok c -> by_hand i (after c).
Proof.
  unfold move. destruct (new_status u) as [s|]; [|by intros [= <-]].
  case_bool_decide; [by intros [= <-]|]. case_bool_decide as H1; [done|]. simpl. case_bool_decide as H2; [|done].
  intros [= <-]. unfold by_hand, is_active, same_item. destruct i as [? ? ? ? ? ? ? ? ? ? st]; simpl in *. split_and!; auto.
  right. split; [|by apply bool_decide_eq_true]. apply bool_decide_eq_true. destruct st; set_solver.
Qed.
Lemma update_item_hand now user u i d d' :
  update_item now user u i d = Ok d' -> exists j l, by_hand i j /\ d' = add_events l (put_item j d).
Proof.
  unfold update_item. destruct (assign d u i) as [c|] eqn:Ec; [|done]. cbn [res_bind].
  destruct (move u (after (then_ c (schedule d u)))) as [m|] eqn:Em; [|done]. cbn [res_bind]. intros [= <-].
  eexists _, _. split; [|reflexivity]. unfold then_ in *. cbn [after] in *.
  apply assign_hand in Ec. apply move_hand in Em. pose proof (schedule_hand d u (after c)) as Hs.
  assert (by_hand i (after m)) as Hm by (etransitivity; [exact Ec|]; etransitivity; [exact Hs|done]).
  unfold comment. by destruct (empty_str _).
Qed.

Lemma patch_wf now user u id d d' : wf d -> patch_item now user u id d = Ok d' -> wf d'.
Proof.
  intros Hwf. unfold patch_item. destruct (item_by_id d id) as [i|] eqn:Ei; [|done].
  apply item_by_id_Some in Ei as [Hi _]; [|done]. intros (j & l & Hj & ->)%update_item_hand.
  apply (wf_put d _ i j Hwf Hi); [apply Hj|eapply by_hand_ok; [done|by eapply wf_items]|apply Hj|by destruct d..].
Qed.
Lemma request_facts now user sc just control expires i d d' :
  request_acceptance now user sc just control expires i d = Ok d' ->
  now < expires <= now + days (accept_max_days (severity i) (kev i) (get_settings (settings d))) + hours 12 /\
  status i <> ITEM_RESOLVED /\ strip just <> [] /\ _covering_pending d i sc = false /\
  exists a l, d' = add_events l (d {{ acceptances := <[next_acceptance d := a]> (acceptances d);
                                      next_acceptance := next_acceptance d + 1 }}) /\
    acc_status a = ACCEPT_PENDING /\ requested_by a = Some (user_id user) /\ requested_at a = now /\ expires_at a = expires /\
    decided_by a = None /\ same_scope i sc a = true /\ acc_severity a = severity i /\ acc_kev a = kev i.
Proof.
  unfold request_acceptance.
  case_bool_decide as H1; [done|]. cbn [negb]. case_bool_decide as H2; [done|]. cbn [negb].
  destruct (expires <=? now) eqn:H3; [done|]. destruct (_ <? expires) eqn:H4; [done|]. cbn [negb].
  destruct (_covering_pending d i sc) eqn:H5; [done|]. cbn [negb]. intros [= <-]. bool_prop.
  split_and!; try done; [lia..|]. eexists _, _. split; [reflexivity|]. cbn. split_and!; try done.
  unfold same_scope. cbn. destruct sc; by rewrite !bool_decide_eq_true_2.
Qed.
Lemma request_wf now user sc just control date id d d' :
  wf d -> post_acceptance now user sc just control date id d = Ok d' -> wf d'.
Proof.
  intros [Hk Hi Hids Ha Hl Hlim H0]. unfold post_acceptance. destruct (item_by_id d id) as [i|]; [|done].
  intros (Hb & _ & _ & _ & a & l & -> & Hs & Hr & Hra & He & Hd & _)%request_facts.
  destruct (Hlim (_band (severity i) (kev i))) as [_ Hm]. unfold accept_max_days, days in *.
  set (d' := add_events l _).
  assert (items d' = items d /\ next_item d' = next_item d /\ settings d' = settings d /\
    next_acceptance d' = next_acceptance d + 1 /\ acceptances d' = <[next_acceptance d := a]> (acceptances d))
    as (E1 & E2 & E3 & E4 & E5) by by destruct d.
  clearbody d'. constructor; unfold ids_ok in *; rewrite ?E1, ?E2, ?E3, ?E4; try done.
  - intros n b. rewrite E5, lookup_insert_Some. intros [[<- <-]|[_ Hn]]; [|destruct (Ha n b Hn); split; [done|lia]].
    split; [|lia]. constructor; rewrite ?Hra, ?He, ?Hd, ?Hs; try done; [unfold days, hours in *; lia|set_solver].
  - intros k j n Hkj Hn. destruct (Hl k j n Hkj Hn) as (b & Hb' & ?). exists b. rewrite E5, lookup_insert_ne; [done|].
    destruct (Ha n b Hb'). lia.
Qed.

Lemma can_decide_None u a :
  can_decide u a = None <->
  decider u = true /\ requested_by a <> Some (user_id u) /\
  (acc_kev a = true \/ acc_severity a = CRITICAL -> user_role u = ADMIN).
Proof.
  unfold can_decide. destruct (decider u); simpl; [|naive_solver]. case_bool_decide; [naive_solver|].
  destruct (acc_kev a); simpl; repeat case_bool_decide; simpl; naive_solver.
Qed.
Lemma decided_put now id a u b text l d :
  wf d -> acceptances d !! id = Some a -> can_decide u a = None ->
  wf (add_events l (put_acceptance id (decision now u b text a) d)).
Proof.
  intros Hwf Ha (_ & Hne & _)%can_decide_None. destruct (wf_acceptances _ Hwf _ _ Ha) as [[H1 H2 H3 H4] _].
  eapply (wf_put_acceptance d _ id a (decision now u b text a)); try done; try by destruct d.
  unfold decision. destruct a; simpl in *. constructor; simpl; [done|naive_solver|done|by destruct b].
Qed.
Lemma decide_wf now rep id u b text d d' :
  wf d -> approve_or_reject now rep id u b text d = Ok d' -> wf d'.
Proof.
  intros Hwf. unfold approve_or_reject, _get_acceptance. destruct (acceptances d !! id) as [a|] eqn:Ea; [|done].
  cbn [res_bind]. unfold decide_acceptance. case_bool_decide; [|done].
  destruct (can_decide u a) eqn:Ec; [done|]. destruct (negb _); [|done]. intros [= <-].
  destruct b; [apply sync_wf|]; by apply decided_put.
Qed.
Lemma withdraw_wf now rep id u d d' : wf d -> withdraw now rep id u d = Ok d' -> wf d'.
Proof.
  intros Hwf. unfold withdraw, _get_acceptance. destruct (acceptances d !! id) as [a|] eqn:Ea; [|done].
  cbn [res_bind]. unfold end_acceptance. case_bool_decide; [|done].
  destruct (can_withdraw u a); [|by case_bool_decide].
  assert (wf (put_acceptance id (revoke now u a) d)) as Hp.
  { destruct (wf_acceptances _ Hwf _ _ Ea) as [[H1 H2 H3 H4] _].
    eapply (wf_put_acceptance d _ id a (revoke now u a)); try done; try (by destruct d); try (by destruct a).
    unfold revoke. destruct a; simpl in *. constructor; simpl; try done. set_solver. }
  intros [= <-]. case_bool_decide; [by apply sync_wf|done].
Qed.

Lemma unlink_asset_same a l i : same_item i (unlink_asset a l i).
Proof. by destruct i. Qed.
Lemma delete_asset_wf a d : wf d -> wf (delete_asset a d).
Proof.
  intros [Hk Hi [Hr Hu] Ha Hl Hlim H0]. unfold delete_asset. set (gone := map fst _).
  assert (Hg : forall n b, acceptances d !! n = Some b -> n ∉ gone -> acc_asset b <> Some a).
  { intros n b Hb Hn He. apply Hn. unfold gone. apply list_elem_of_In, in_map_iff. exists (n, b). split; [done|].
    apply filter_In. split; [by apply list_elem_of_In, elem_of_map_to_list|]. by apply bool_decide_eq_true. }
  clearbody gone. constructor; cbn; try done.
  - intros k i. rewrite lookup_fmap_Some. intros (j & <- & Hj). by apply (Hk k j).
  - intros k i. rewrite lookup_fmap_Some. intros (j & <- & Hj). destruct (Hi k j Hj) as [H1 H2 H3 H4 H5 H6]. destruct j.
    constructor; cbn in *; try done. destruct acceptance_id0; [|done]. by destruct (bool_decide _); auto.
  - split; cbn; [intros k i|intros k k' i i']; rewrite !lookup_fmap_Some; [intros (j & <- & Hj)|intros (j & <- & Hj) (j' & <- & Hj')];
      destruct (unlink_asset_same a gone j) as (_ & -> & _); [eauto|].
    destruct (unlink_asset_same a gone j') as (_ & -> & _). eauto.
  - intros n b. rewrite map_lookup_filter_Some. intros [Hb _]. eauto.
  - intros k i n. rewrite lookup_fmap_Some. intros (j & <- & Hj) Hn.
    assert (acceptance_id j = Some n /\ n ∉ gone) as [Hn' Hng].
    { destruct j as [? ? ? ? ? ? ? ? ? ? ? ? ? ? acc]; cbn in *. destruct acc; [|done]. case_bool_decide; [done|]. by simplify_eq. }
    destruct (Hl k j n Hj Hn') as (b & Hb & Hc & Hd). exists b. split_and!; [|by destruct j|done].
    apply map_lookup_filter_Some. split; [done|]. by eapply Hg.
Qed.
Lemma unless_Some u o v : unless u o = Some v -> o = Some v.
Proof. unfold unless. by case_bool_decide. Qed.
Lemma delete_user_wf u d : wf d -> wf (delete_user u d).
Proof.
  intros [Hk Hi [Hr Hu] Ha Hl Hlim H0]. unfold delete_user. constructor; cbn; try done.
  - intros k i. rewrite lookup_fmap_Some. intros (j & <- & Hj). by apply (Hk k j).
  - intros k i. rewrite lookup_fmap_Some. intros (j & <- & Hj). destruct (Hi k j Hj) as [H1 H2 H3 H4 H5 H6]. destruct j. by constructor.
  - split; cbn; [intros k i|intros k k' i i']; rewrite !lookup_fmap_Some; [intros (j & <- & Hj)|intros (j & <- & Hj) (j' & <- & Hj')]; cbn; eauto.
  - intros n b. rewrite lookup_fmap_Some. intros (c & <- & Hc). destruct (Ha n c Hc) as [[H1 H2 H3 H4] Hn]. split; [|done].
    unfold unlink_user. destruct c; cbn in *. constructor; cbn; try done.
    + intros v Hv%unless_Some Hw%unless_Some. by eapply H2.
    + intros Hs. by rewrite H4.
  - intros k i n. rewrite lookup_fmap_Some. intros (j & <- & Hj) Hn. destruct (Hl k j n Hj Hn) as (b & Hb & Hc & Hd).
    exists (unlink_user u b). rewrite lookup_fmap, Hb. split_and!; [done| |]; by destruct b.
Qed.

Lemma valid_days_spec f : valid_days f = true -> forall b, 1 <= f b <= 3650.
Proof. unfold valid_days. simpl. intros H b. bool_prop. destruct b; lia. Qed.
Lemma step_wf d d' : wf d -> step d d' -> wf d'.
Proof.
  intros Hwf [now rep|now user u id ? H|now user sc just control date id ? H|now rep id u b text ? H|now rep id u ? H|s Hs Ha|a|u|us owners|a].
  - by apply sync_wf.
  - by eapply patch_wf.
  - by eapply request_wf.
  - by eapply decide_wf.
  - by eapply withdraw_wf.
  - destruct Hwf as [Hk Hi Hids Hacc Hl Hlim H0]. constructor; cbn; try done.
    intros b. split; [by apply valid_days_spec|by apply (valid_days_spec (accept_max s))].
  - by apply delete_asset_wf.
  - by apply delete_user_wf.
  - by destruct Hwf; constructor.
  - by destruct Hwf; constructor.
Qed.
Lemma empty_wf : wf empty_db.
Proof.
  constructor; try done.
  - intros []; vm_compute; by repeat split.
Qed.
Lemma reachable_wf d : reachable d -> wf d.
Proof. induction 1; [apply empty_wf|by eapply step_wf]. Qed.

(** ** What the synchronisation guarantees *)
Definition keys_of (fs : list Found) : list pystr := map f_key fs.
Lemma report_of_reported d rep k :
  (exists f, report_of k (reported d rep) = Some f) <-> k ∈ keys_of (all_found (scan d rep)).
Proof.
  unfold keys_of. rewrite <- reported_key. split.
  - intros (f & Hf). apply report_of_Some in Hf as [<- Hf]. by apply list_elem_of_fmap_2.
  - intros Hk. destruct (report_of k (reported d rep)) as [f|] eqn:Ef; [eauto|]. by apply report_of_None in Ef.
Qed.
Lemma checked_scan d rep s : s ∈ SOURCES -> checked (scan d rep) s = false <-> s = CVE /\ cves rep = None.
Proof.
  intros Hs. unfold checked. assert (checked_cve (scan d rep) = present (cves rep)) as ->.
  { unfold scan, _audit_found. cbn. by destruct (cves rep). }
  unfold SOURCES in Hs. rewrite !elem_of_cons in Hs. destruct (cves rep); simpl;
    destruct Hs as [->|[->|[->|[->|[->|Hs]]]]]; try (by apply elem_of_nil in Hs); vm_compute; naive_solver.
Qed.
(** When an unreported item stays open. *)
Lemma closed_open now d rep seen i :
  item_ok i -> item_key i ∉ seen ->
  status (closed now d (scan d rep) seen i) <> ITEM_RESOLVED <->
  status i <> ITEM_RESOLVED /\ item_source i = CVE /\ cves rep = None /\ asset_known d (item_asset i) = true /\
  closed now d (scan d rep) seen i = i.
Proof.
  intros Hok Hk. unfold closed, close_reason. rewrite (bool_decide_eq_false_2 _ Hk). cbn [orb].
  pose proof (checked_scan d rep (item_source i) (ok_source _ Hok)) as Hc.
  assert (Hres : forall why, status (after (resolve now why i)) = ITEM_RESOLVED) by by destruct i.
  case_bool_decide as Hs; [naive_solver|].
  destruct (asset_known d (item_asset i)); cbn [negb]; [|rewrite Hres; naive_solver].
  destruct (checked (scan d rep) (item_source i)); cbn [negb]; [|naive_solver].
  match goal with |- context [match ?x with Some why => after (resolve now why i) | None => i end] =>
    assert (exists why, x = Some why) as [why ->] by (repeat (destruct (bool_decide _); cbn [andb negb]); eauto) end.
  rewrite Hres. naive_solver.
Qed.

(** C25: A synchronisation leaves unresolved exactly what the modules report: every
    reported problem has an unresolved item, and an item that no report names
    stays unresolved only when it is a CVE finding of an existing asset and
    the CVE database is not loaded; it is then left entirely as it was. *)
Theorem open_iff_reported now rep d k :
  reachable d ->
  let d' := fst (sync now rep d) in
  (k ∈ keys_of (all_found (scan d rep)) -> exists i, items d' !! k = Some i /\ status i <> ITEM_RESOLVED) /\
  (k ∉ keys_of (all_found (scan d rep)) -> forall i, items d' !! k = Some i ->
     status i <> ITEM_RESOLVED <->
     items d !! k = Some i /\ status i <> ITEM_RESOLVED /\ item_source i = CVE /\ cves rep = None /\
       asset_known d (item_asset i) = true).
Proof.
  intros Hwf%reachable_wf. cbv zeta. destruct (sync_items now rep d (wf_keyed _ Hwf)) as (_ & _ & _ & _ & _ & Hit).
  destruct (Hit k) as (id & _ & ->). rewrite <- report_of_reported. split.
  - intros (f & Hf). destruct (after_sync now rep d id k (items d !! k)) as [i|] eqn:Ei.
    + apply (after_sync_item _ _ _ _ _ _ Hwf) in Ei as [_ Hm]. rewrite Hf in Hm. exists i. tauto.
    + unfold after_sync in Ei. by rewrite Hf in Ei.
  - intros Hn i Hi. pose proof Hi as Hi'. apply (after_sync_item _ _ _ _ _ _ Hwf) in Hi' as [_ Hm].
    destruct (report_of k (reported d rep)) as [f|] eqn:Ef; [destruct Hn; eauto|].
    destruct Hm as (j & Hj & ->). rewrite Hj. etransitivity; [apply closed_open|].
    + by eapply wf_items.
    + rewrite list_elem_of_In, <- in_rev, <- list_elem_of_In, (wf_keyed _ Hwf _ _ Hj). by apply report_of_None.
    + set (c := closed _ _ _ _ j). clearbody c. split; [intros (? & ? & ? & ? & ->)|intros ([= <-] & ? & ? & ? & ?)]; by split_and!.
Qed.

(** C26: After a synchronisation a reported problem counts as accepted exactly when its
    source accepts it or an approved acceptance that has not expired covers
    it, and an item points only to such an acceptance. *)
Theorem accepted_iff_covered now rep d k f i :
  reachable d -> report_of k (reported d rep) = Some f ->
  items (fst (sync now rep d)) !! k = Some i ->
  (status i = ITEM_ACCEPTED <->
     source_accepted f = true \/
     exists n a, acceptances d !! n = Some a /\ acc_status a = ACCEPT_APPROVED /\ now < expires_at a /\ covers a i) /\
  (forall n, acceptance_id i = Some n ->
     exists a, acceptances (fst (sync now rep d)) !! n = Some a /\ acc_status a = ACCEPT_APPROVED /\
       now < expires_at a /\ covers a i).
Proof.
  intros Hwf%reachable_wf Hf Hi. pose proof Hi as Hi0.
  destruct (sync_items now rep d (wf_keyed _ Hwf)) as (_ & Ec & _ & Hn & Hids & Hit).
  assert (item_id i <> 0) as Hid.
  { destruct (Hids (wf_next _ Hwf) (wf_ids _ Hwf)) as [Hr _]. specialize (Hr k i Hi). lia. }
  destruct (Hit k) as (id & _ & E). rewrite E in Hi.
  apply (after_sync_item _ _ _ _ _ _ Hwf) in Hi as [_ Hm]. rewrite Hf in Hm. destruct Hm as (_ & _ & Hacc & Hst).
  assert (Hfo : forall a, in_force now a = true <-> acc_status a = ACCEPT_APPROVED /\ now < expires_at a).
  { intros a. unfold in_force. rewrite andb_true_iff, bool_decide_eq_true, Z.ltb_lt. done. }
  split.
  - rewrite Hst. destruct (covering (sync_active now d) i) as [[n a]|] eqn:Ecov; simpl.
    + split; [|auto]. intros _. right. apply covering_some in Ecov as (Hna & Hfa & Hc). exists n, a.
      apply Hfo in Hfa. tauto.
    + split; [naive_solver|]. intros [?|(n & a & Hna & H1 & H2 & Hc)]; [auto|].
      destruct (covering_none now d i Ecov Hid n a Hna); [by apply Hfo|done].
  - intros n Hn'. rewrite Hacc in Hn'. destruct (covering (sync_active now d) i) as [[m a]|] eqn:Ecov; [|done].
    injection Hn' as ->. apply covering_some in Ecov as (Hna & Hfa & Hc). exists a.
    rewrite Ec, lookup_fmap, Hna. simpl. rewrite (expire_in_force _ _ Hfa). apply Hfo in Hfa. tauto.
Qed.

(** C27: In every reachable state an item that points to a risk acceptance is accepted,
    and that acceptance covers it, was decided, was decided by someone other
    than its requester, and lasts at most ten years and half a day. *)
Theorem accepted_needs_two_people d k i n :
  reachable d -> items d !! k = Some i -> acceptance_id i = Some n ->
  status i = ITEM_ACCEPTED /\
  exists a, acceptances d !! n = Some a /\ covers a i /\ present (decided_at a) = true /\
    (forall u, decided_by a = Some u -> requested_by a <> Some u) /\
    requested_at a < expires_at a <= requested_at a + days 3650 + hours 12.
Proof.
  intros Hwf%reachable_wf Hi Hn. split.
  - apply (ok_accepted i); [by eapply wf_items|by rewrite Hn].
  - destruct (wf_links _ Hwf _ _ _ Hi Hn) as (a & Ha & Hc & Hd). exists a.
    destruct (wf_acceptances _ Hwf _ _ Ha) as [[H1 H2 H3 H4] _]. done.
Qed.

(** A decision goes through exactly when the request exists and is pending, the
    user is an administrator or a manager, did not make the request, is an
    administrator for a critical or known-exploited finding, and, to approve,
    the requested end lies in the future. *)
Theorem decide_exactly now rep id u b text d :
  is_ok (approve_or_reject now rep id u b text d) = true <->
  exists a, acceptances d !! id = Some a /\ acc_status a = ACCEPT_PENDING /\
    (user_role u = ADMIN \/ user_role u = MANAGER) /\ requested_by a <> Some (user_id u) /\
    (acc_kev a = true \/ acc_severity a = CRITICAL -> user_role u = ADMIN) /\
    (b = true -> now < expires_at a).
Proof.
  assert (Hdec : decider u = true <-> user_role u = ADMIN \/ user_role u = MANAGER).
  { unfold decider. rewrite bool_decide_eq_true. set_solver. }
  unfold approve_or_reject, _get_acceptance. destruct (acceptances d !! id) as [a|]; [|split; [done|naive_solver]].
  cbn [res_bind]. unfold decide_acceptance. case_bool_decide as Hs; [|split; [done|naive_solver]].
  destruct (can_decide u a) eqn:Ec.
  - split; [done|]. intros (a' & [= <-] & _ & H1 & H2 & H3 & _).
    assert (can_decide u a = None) by (apply can_decide_None; tauto). congruence.
  - apply can_decide_None in Ec as (H1 & H2 & H3).
    destruct b, (Z.leb_spec (expires_at a) now); simpl; split; try done.
    + intros (a' & [= <-] & _ & _ & _ & _ & Hb). specialize (Hb eq_refl). lia.
    + intros _. exists a. split_and!; try done; [by apply Hdec].
    + intros _. exists a. split_and!; try done; [by apply Hdec].
    + intros _. exists a. split_and!; try done; [by apply Hdec].
Qed.

(** A request is recorded only with an end after now and within the limit of the
    finding's class, which never exceeds ten years, half a day allowed; and
    only when nothing pending or approved covers the same scope already. *)
Theorem request_bounded now user sc just control date id d d' :
  reachable d -> post_acceptance now user sc just control date id d = Ok d' ->
  exists i a, item_by_id d id = Some i /\ acceptances d' !! next_acceptance d = Some a /\
    acc_status a = ACCEPT_PENDING /\ requested_by a = Some (user_id user) /\ covers a i /\
    now < expires_at a <= now + days (accept_max_days (severity i) (kev i) (get_settings (settings d))) + hours 12 /\
    accept_max_days (severity i) (kev i) (get_settings (settings d)) <= 3650 /\
    (forall n b, acceptances d !! n = Some b -> (acc_status b = ACCEPT_PENDING \/ acc_status b = ACCEPT_APPROVED) ->
       same_scope i sc b = false).
Proof.
  intros Hwf%reachable_wf. unfold post_acceptance. destruct (item_by_id d id) as [i|] eqn:Ei; [|done].
  intros (Hb & _ & _ & Hcp & a & l & -> & Hs & Hr & Hra & He & Hd & Hsc & _)%request_facts. exists i, a.
  split; [done|]. split; [apply lookup_insert_eq|]. rewrite He. split_and!; try done; try lia.
  - unfold covers, same_scope in *. apply andb_prop in Hsc as [->%bool_decide_eq_true Hsc].
    destruct sc; [by bool_prop|]. apply andb_prop in Hsc as [H1 H2]. by bool_prop.
  - by destruct (wf_limits _ Hwf (_band (severity i) (kev i))) as [_ []].
  - intros n b Hb' Hst. destruct (same_scope i sc b) eqn:Es; [|done].
    assert (_covering_pending d i sc = true); [|congruence].
    unfold _covering_pending. apply existsb_exists. exists (n, b).
    split; [by apply list_elem_of_In, elem_of_map_to_list|]. simpl. rewrite Es, bool_decide_eq_true_2; [done|set_solver].
Qed.

(** Changing an item by hand never resolves, accepts or reopens one: each item
    keeps its state if it is resolved or accepted, never becomes so, and keeps
    its acceptance, its end and its reason. *)
Theorem hand_never_closes now user u id d d' k i' :
  reachable d -> patch_item now user u id d = Ok d' -> items d' !! k = Some i' ->
  exists i, items d !! k = Some i /\ same_item i i' /\ acceptance_id i' = acceptance_id i /\
    resolved_at i' = resolved_at i /\ closed_reason i' = closed_reason i /\
    (status i' = ITEM_RESOLVED <-> status i = ITEM_RESOLVED) /\ (status i' = ITEM_ACCEPTED <-> status i = ITEM_ACCEPTED).
Proof.
  intros Hwf%reachable_wf. unfold patch_item. destruct (item_by_id d id) as [i|] eqn:Ei; [|done].
  apply item_by_id_Some in Ei as [Hi _]; [|done]. intros (j & l & Hj & ->)%update_item_hand.
  cbn. rewrite lookup_insert_Some. intros [[<- <-]|[_ Hk]].
  - destruct Hj as ((Ek & E') & H1 & H2 & H3 & _ & _ & Hst). exists i. rewrite Ek.
    refine (conj Hi (conj (conj Ek E') (conj H1 (conj H2 (conj H3 _))))).
    destruct Hst as [->|[Ha%active_spec Hb%active_spec]]; tauto.
  - exists i'. split; [done|]. split; [reflexivity|]. by split_and!.
Qed.

(** ** A run that finds nothing new changes nothing *)
Definition fresh (now : Z) (f : Found) (i : RemediationItem) : Prop :=
  (item_title i, severity i, kev i, item_asset_name i, item_ip i, last_seen_at i) =
  (f_title f, f_severity f, f_kev f, asset_name (f_asset f), ip_address (f_asset f), now).
Lemma renew_fresh now st f i : fresh now f (after (renew now st f i)).
Proof. unfold fresh, renew, then_, same. cbn [after]. by destruct (reband st f _). Qed.
Lemma settle_fresh now st f acc i : fresh now f i -> fresh now f (after (settle now st f acc i)).
Proof. unfold fresh. destruct i, acc as [[]|]; unfold settle; repeat (case_match; simpl); done. Qed.
Lemma renew_same_again now st f i : fresh now f i -> status i <> ITEM_RESOLVED -> renew now st f i = same i.
Proof.
  intros Hf Hs. unfold renew, reopen. rewrite (bool_decide_eq_false_2 _ Hs). unfold then_, same. cbn [after history counted touches].
  assert (refresh now f (reband st f i) = i) as ->; [|done].
  assert (reband st f i = i) as ->.
  { unfold reband. rewrite bool_decide_eq_true_2; [done|]. unfold fresh in Hf. congruence. }
  unfold refresh, fresh in *. destruct i; simpl in *. by simplify_eq.
Qed.

(** An item the last run settled. *)
Definition settled (f : Found) (acc : option cover) (i : RemediationItem) : Prop :=
  acceptance_id i = option_map fst acc /\ status i <> ITEM_RESOLVED /\
  (status i = ITEM_ACCEPTED <-> present acc = true \/ source_accepted f = true).
Lemma settle_settled now st f acc i :
  settled f acc i ->
  settle now st f acc i = same i \/
  (status (after (settle now st f acc i)) = ITEM_PENDING /\ acc = None /\ source_accepted f = false).
Proof.
  intros (Ha & _ & Hs). unfold settle, is_accepted. destruct acc as [[n a]|]; simpl in *.
  - left. rewrite Ha, !bool_decide_eq_true_2; [done..|]. apply Hs. auto.
  - destruct (source_accepted f).
    + left. rewrite Ha, bool_decide_eq_true_2; [done|]. apply Hs. auto.
    + rewrite bool_decide_eq_false_2 by naive_solver. destruct (hardened f && _); [|by left]. right. by destruct i.
Qed.
Lemma settle_pending now st f i :
  status i = ITEM_PENDING -> source_accepted f = false -> settle now st f None i = same i.
Proof.
  intros Hs Hf. unfold settle, is_accepted. rewrite Hf, Hs, !bool_decide_eq_false_2; [|set_solver|done].
  by rewrite andb_false_r.
Qed.

Definition stable (now : Z) (st : Settings) (act : Active) (f : Found) (i : RemediationItem) : Prop :=
  forall own id, update_for now st act own f id (Some i) = same i.
Lemma then_same i f : then_ (same i) f = f i.
Proof. unfold then_, same. simpl. by destruct (f i). Qed.
Lemma update_again now st act own f id i :
  fresh now f i -> status i <> ITEM_RESOLVED ->
  update_for now st act own f id (Some i) = settle now st f (covering act i) i.
Proof. intros Hf Hs. unfold update_for. by rewrite renew_same_again, then_same. Qed.
Lemma update_twice now st act own own2 f id id' old :
  f_source f ∈ SOURCES -> (forall i, old = Some i -> item_ok i) ->
  let i1 := after (update_for now st act own f id old) in
  stable now st act f (after (update_for now st act own2 f id' (Some i1))).
Proof.
  intros Hsrc Ho. cbv zeta. set (i1 := after (update_for now st act own f id old)).
  destruct (update_ok now st act own f id old Hsrc Ho) as (Hok & Hr & Ha & Hs).
  assert (Hf1 : fresh now f i1).
  { unfold i1, update_for, then_. cbn [after]. apply settle_fresh. destruct old; [apply renew_fresh|done]. }
  fold i1 in Hok, Hr, Ha, Hs. clearbody i1.
  rewrite update_again by done.
  assert (Hf2 := settle_fresh now st f (covering act i1) i1 Hf1).
  destruct (settle_ok now st f (covering act i1) i1 Hok Hr) as (_ & Hr2 & _).
  pose proof (covering_same act _ _ (settle_same now st f (covering act i1) i1)) as Hc.
  assert (Hset : settled f (covering act i1) i1) by exact (conj Ha (conj Hr Hs)).
  intros own' id''. rewrite update_again by done. rewrite Hc.
  destruct (settle_settled now st f (covering act i1) i1 Hset) as [E|(Hp & En & Hn)].
  - rewrite E. exact E.
  - rewrite En in *. by apply settle_pending.
Qed.

Lemma record_same now i r : items (run_db r) !! item_key i = Some i -> record now (same i) r = r.
Proof.
  intros Hi. unfold record, same. cbn [after history counted touches]. destruct r as [[] s t]. simpl in *.
  by rewrite insert_id, !app_nil_r by done.
Qed.
Lemma not_overdue now a : overdue_acceptance now (expire now a) = false.
Proof. unfold expire. destruct (overdue_acceptance now a) eqn:E; [by destruct a|exact E]. Qed.
Lemma expire_twice now a : expire now (expire now a) = expire now a.
Proof. unfold expire at 1. by rewrite not_overdue. Qed.
Lemma expire_map_twice now (m : gmap Z RiskAcceptance) : expire now <$> (expire now <$> m) = expire now <$> m.
Proof. rewrite <- map_fmap_compose. apply map_fmap_ext. intros n a _. apply expire_twice. Qed.
Lemma none_overdue now (d : Db) :
  expire now <$> acceptances d = acceptances d -> snd (_expire_acceptances now d) = [].
Proof.
  intros He. unfold _expire_acceptances. cbn [snd]. rewrite (proj2 (filter_is_nil _ _)); [done|].
  intros [n a] Hin%elem_of_map_to_list. simpl. rewrite <- He, lookup_fmap_Some in Hin. destruct Hin as (b & <- & _). apply not_overdue.
Qed.
Lemma foldl_same {A B} (g : A -> B -> A) x l : (forall y, y ∈ l -> g x y = x) -> foldl g x l = x.
Proof.
  induction l as [|y l IH]; intros H; simpl; [done|]. rewrite (H y) by apply list_elem_of_here.
  apply IH. intros z Hz. apply H. by right.
Qed.

Lemma closed_again now d s seen i : close_reason d s seen (closed now d s seen i) = None.
Proof.
  unfold closed. destruct (close_reason d s seen i) eqn:E; [|done]. unfold close_reason. destruct i. simpl.
  by rewrite orb_true_r.
Qed.
Lemma close_reason_assets d d' s seen i : assets d' = assets d -> close_reason d' s seen i = close_reason d s seen i.
Proof. intros E. unfold close_reason, asset_known. by rewrite E. Qed.

(** A state on which a run does nothing. *)
Lemma sync_idle now rep d :
  expire now <$> acceptances d = acceptances d ->
  (forall f, f ∈ reported d rep -> exists i, items d !! f_key f = Some i /\ item_key i = f_key f /\
     stable now (get_settings (settings d)) (sync_active now d) f i) ->
  (forall k i, items d !! k = Some i -> close_reason d (scan d rep) (rev (map f_key (reported d rep))) i = None) ->
  sync now rep d = (d, []).
Proof.
  intros He Hf Hc. rewrite sync_eq. cbv zeta. rewrite (none_overdue _ _ He).
  assert (start now d = MkRun d [] []) as ->.
  { unfold start, _expire_acceptances. cbn [fst]. rewrite He. by destruct d. }
  rewrite foldl_same.
  - unfold sync_rest. rewrite foldl_same; [by destruct d; unfold _recalculate_risk; simpl; rewrite app_nil_r|].
    intros i Hi. apply list_elem_of_In, in_map_iff in Hi as ([k j] & <- & Hin).
    apply list_elem_of_In, elem_of_map_to_list in Hin. unfold close_one. simpl. by rewrite (Hc _ _ Hin).
  - intros f Hin. destruct (Hf f Hin) as (i & Hi & Hk & Hst). rewrite sync_one_eq. cbn [run_db]. rewrite Hi, Hst.
    apply record_same. cbn [run_db]. by rewrite Hk.
Qed.

(** Synchronising three times in a row with the same reports: the third run changes
    nothing at all, no item, no history entry, no counter, no risk score. *)
Theorem sync_settles now rep d :
  reachable d ->
  let d2 := fst (sync now rep (fst (sync now rep d))) in
  sync now rep d2 = (d2, []).
Proof.
  intros Hwf%reachable_wf. cbv zeta. pose proof (sync_wf now rep d Hwf) as Hwf1.
  destruct (sync_items now rep d (wf_keyed _ Hwf)) as ((Ea & Eu & Eo & Es & _) & Ec & Hk1 & _ & _ & Hit1).
  set (d1 := fst (sync now rep d)) in *. clearbody d1.
  destruct (sync_items now rep d1 Hk1) as ((Ea2 & Eu2 & Eo2 & Es2 & _) & Ec2 & Hk2 & _ & _ & Hit2).
  set (d2 := fst (sync now rep d1)) in *. clearbody d2.
  assert (Hscan : forall d d', assets d' = assets d -> scan d' rep = scan d rep) by (intros ? ? E; unfold scan; by rewrite E).
  assert (Hrep : forall d d', assets d' = assets d -> reported d' rep = reported d rep)
    by (intros ? ? E; unfold reported; by rewrite (Hscan _ _ E)).
  rewrite Ec, expire_map_twice in Ec2.
  assert (sync_active now d1 = sync_active now d /\ sync_active now d2 = sync_active now d) as [Ha1 Ha2].
  { unfold sync_active, _expire_acceptances. cbn [fst]. by rewrite Ec2, Ec, !expire_map_twice. }
  apply sync_idle.
  - by rewrite Ec2, expire_map_twice.
  - intros f Hin. rewrite (Hrep _ _ Ea2), (Hrep _ _ Ea) in Hin. rewrite Ha2, Es2, Es.
    assert (Hrf : report_of (f_key f) (reported d rep) = Some f) by (apply report_of_own; [apply firsts_NoDup|done]).
    destruct (Hit1 (f_key f)) as (id1 & _ & H1). destruct (Hit2 (f_key f)) as (id2 & _ & H2).
    unfold after_sync in *. rewrite (Hrep _ _ Ea), Hrf in H2. rewrite Hrf in H1. rewrite H1, Ha1, Es in H2.
    eexists. split; [exact H2|]. split; [by apply (Hk2 _ _ H2)|].
    apply update_twice; [apply (found_source d rep); by eapply firsts_sub|]. intros i Hi. exact (wf_items _ Hwf _ _ Hi).
  - intros k i Hi. rewrite (Hscan _ _ Ea2), (Hrep _ _ Ea2), (close_reason_assets d1 d2) by done.
    destruct (Hit2 k) as (id2 & _ & H2). rewrite Hi in H2. symmetry in H2. pose proof H2 as H2'.
    apply (after_sync_item _ _ _ _ _ _ Hwf1) in H2 as [_ Hm].
    destruct (report_of k (reported d1 rep)) as [f|] eqn:Ef.
    + destruct Hm as (Ek & _). unfold close_reason. rewrite bool_decide_eq_true_2; [done|].
      rewrite list_elem_of_In, <- in_rev, <- list_elem_of_In, (Hk2 _ _ Hi), <- Ek.
      apply report_of_Some in Ef as [_ Ef]. by apply list_elem_of_fmap_2.
    + destruct Hm as (j & _ & ->). apply closed_again.
Qed.

(** ** Refusals *)
Definition owner_known (d : Db) (u : Update) : bool :=
  match new_owner u with Some (Some o) => known_user d o | _ => true end.
Lemma assign_status d u i c : assign d u i = Ok c -> status (after c) = status i.
Proof.
  unfold assign. destruct (new_owner u) as [o|]; [|by intros [= <-]].
  destruct (match o with Some _ => _ | None => _ end); [|done]. case_bool_decide; intros [= <-]; [done|]. by destruct i.
Qed.
Lemma schedule_status d u i : status (after (schedule d u i)) = status i.
Proof. unfold schedule. destruct (new_due u) as [[t|]|]; [| |done]; by destruct i. Qed.
Lemma assign_raise d u i :
  if owner_known d u then is_ok (assign d u i) = true else assign d u i = Raise (refused "That user does not exist").
Proof.
  unfold owner_known, assign. destruct (new_owner u) as [[o|]|]; try done.
  by destruct (known_user d o).
Qed.
Definition CLOSED_ := refused "This finding is closed; its status follows its source or its risk acceptance".
Definition BY_SYNC := refused "A finding is resolved by the next audit or CVE check, not by hand".
Lemma move_raise u i e :
  move u i = Raise e <->
  exists s, new_status u = Some s /\ s <> status i /\
    ((is_active i = false /\ e = CLOSED_) \/ (is_active i = true /\ s ∈ [ITEM_RESOLVED; ITEM_ACCEPTED] /\ e = BY_SYNC)).
Proof.
  unfold move. destruct (new_status u) as [s|]; [|split; [done|naive_solver]].
  case_bool_decide as Hs; [split; [done|naive_solver]|].
  assert (bool_decide (status i ∈ [ITEM_RESOLVED; ITEM_ACCEPTED]) = negb (is_active i)) as ->
    by (unfold is_active; by destruct (status i)).
  assert (bool_decide (s ∈ [ITEM_OPEN; ITEM_IN_PROGRESS; ITEM_PENDING]) = negb (bool_decide (s ∈ [ITEM_RESOLVED; ITEM_ACCEPTED]))) as ->
    by by destruct s.
  destruct (is_active i); cbn [negb]; [case_bool_decide as Hc; cbn [negb]|]; split.
  - intros [= <-]. exists s. auto 10.
  - by intros (s' & [= <-] & _ & [[? _]|(_ & _ & ->)]).
  - done.
  - by intros (s' & [= <-] & _ & [[? _]|(_ & ? & _)]).
  - intros [= <-]. exists s. auto 10.
  - by intros (s' & [= <-] & _ & [[_ ->]|[? _]]).
Qed.

(** Changing an item is refused in exactly four cases: there is no such item (404);
    the owner named does not exist; the item is resolved or accepted and
    another status is asked for; an open item is asked to be resolved or
    accepted by hand. *)
Theorem patch_refusals now user u id d e :
  patch_item now user u id d = Raise e <->
  (item_by_id d id = None /\ e = NOT_FOUND) \/
  exists i, item_by_id d id = Some i /\
    ((owner_known d u = false /\ e = refused "That user does not exist") \/
     (owner_known d u = true /\ exists s, new_status u = Some s /\ s <> status i /\
        ((is_active i = false /\ e = CLOSED_) \/ (is_active i = true /\ s ∈ [ITEM_RESOLVED; ITEM_ACCEPTED] /\ e = BY_SYNC)))).
Proof.
  unfold patch_item. destruct (item_by_id d id) as [i|]; [|split; [intros [= <-]; auto|naive_solver]].
  set (u' := u {{ new_due := _ }}).
  assert (Hu : owner_known d u' = owner_known d u /\ new_status u' = new_status u) by by destruct u.
  destruct Hu as [Hu1 Hu2]. clearbody u'. unfold update_item.
  pose proof (assign_raise d u' i) as Ha. rewrite Hu1 in Ha. destruct (owner_known d u).
  2:{ rewrite Ha. cbn [res_bind]. split; [intros [= <-]; right; exists i; auto|]. intros [[? _]|(j & _ & [[_ ->]|[? _]])]; done. }
  destruct (assign d u' i) as [c|] eqn:Ec; [|done]. cbn [res_bind]. apply assign_status in Ec.
  set (j := after (then_ c (schedule d u'))).
  assert (Hj : status j = status i) by (unfold j, then_; cbn [after]; by rewrite schedule_status).
  assert (Hact : is_active j = is_active i) by (unfold is_active; by rewrite Hj).
  assert (Hm : move u' j = Raise e <-> exists s, new_status u = Some s /\ s <> status i /\
    ((is_active i = false /\ e = CLOSED_) \/ (is_active i = true /\ s ∈ [ITEM_RESOLVED; ITEM_ACCEPTED] /\ e = BY_SYNC)))
    by (rewrite move_raise, Hu2, Hj, Hact; done).
  clearbody j. destruct (move u' j) as [m|e'] eqn:Em; cbn [res_bind].
  - split; [done|]. intros [[? _]|(i' & [= <-] & [[? _]|[_ H]])]; [done..|]. by apply Hm in H.
  - split.
    + intros [= ->]. right. exists i. split; [done|]. right. split; [done|]. by apply Hm.
    + intros [[? _]|(i' & [= <-] & [[? _]|[_ H]])]; [done..|]. by apply Hm in H as [= ->].
Qed.

(** ** Witnesses *)
Module Demo.
Definition web := MkAsset 1 (py "web-1") (py "10.0.0.5") None.
Definition alice := MkUser 10 None true ADMIN.
Definition bob := MkUser 11 None true MANAGER.
Definition carol := MkUser 12 None true USER.
Definition finding (sev : string) := MkCve 1 (py "CVE-2024-1") (Some (py sev)) None None false.
Definition rep := MkReports (Some [finding "high"]) [] [] [] [] [] [] [].
Definition t := days 100.
Definition d0 := (empty_db {{ users := [alice; bob; carol]; owner_emails := [] }}).
Definition d1 := d0 {{ assets := [web] }}.
Definition d2 := fst (sync t rep d1).
Definition ok_or (r : res RemediationError Db) := match r with Ok d => d | Raise _ => empty_db end.
Definition d3 := ok_or (post_acceptance t carol SCOPE_ITEM (py "patched in March") None 150 1 d2).
Definition d4 := ok_or (approve_or_reject t rep 1 bob true None d3).
Definition key := make_key CVE 1 (py "CVE-2024-1").

Lemma d2_reachable : reachable d2.
Proof.
  apply (reach_step d1); [|constructor]. apply (reach_step d0); [|exact (step_new_asset d0 web)].
  apply (reach_step empty_db); [constructor|]. exact (step_people empty_db [alice; bob; carol] []).
Qed.
Lemma ok_or_eq r : is_ok r = true -> r = Ok (ok_or r).
Proof. by destruct r. Qed.
Lemma d3_reachable : reachable d3.
Proof.
  apply (reach_step d2); [apply d2_reachable|].
  apply (step_request d2 t carol SCOPE_ITEM (py "patched in March") None 150 1). apply ok_or_eq. by vm_compute.
Qed.
Lemma d4_reachable : reachable d4.
Proof.
  apply (reach_step d3); [apply d3_reachable|]. apply (step_decide d3 t rep 1 bob true None). apply ok_or_eq. by vm_compute.
Qed.
(** The accepted finding. *)
Definition accepted_item := default (new_item 0 (get_settings None) 0 None (MkFound [] [] [] web [] [] false false false None None)) (items d4 !! key).
Lemma accepted_at : items d4 !! key = Some accepted_item /\ acceptance_id accepted_item = Some 1.
Proof. split; by vm_compute. Qed.
End Demo.

Lemma open_iff_reported_witness :
  exists i, items (fst (sync Demo.t (MkReports None [] [] [] [] [] [] []) Demo.d4)) !! Demo.key = Some i /\ status i <> ITEM_RESOLVED.
Proof.
  destruct (open_iff_reported Demo.t (MkReports None [] [] [] [] [] [] []) Demo.d4 Demo.key Demo.d4_reachable) as [_ H].
  exists Demo.accepted_item.
  assert (items (fst (sync Demo.t (MkReports None [] [] [] [] [] [] []) Demo.d4)) !! Demo.key = Some Demo.accepted_item) as E
    by by vm_compute.
  split; [exact E|]. apply H; [|exact E|].
  - vm_compute. intros Hn. inversion Hn.
  - split_and!; by vm_compute.
Defined.
Lemma accepted_iff_covered_witness :
  status Demo.accepted_item = ITEM_ACCEPTED /\
  exists a, acceptances (fst (sync Demo.t Demo.rep Demo.d4)) !! 1 = Some a /\ acc_status a = ACCEPT_APPROVED /\
       Demo.t < expires_at a /\ covers a Demo.accepted_item.
Proof.
  destruct (report_of Demo.key (reported Demo.d4 Demo.rep)) as [f|] eqn:Ef; [|exfalso; vm_compute in Ef; discriminate].
  destruct (accepted_iff_covered Demo.t Demo.rep Demo.d4 Demo.key f Demo.accepted_item Demo.d4_reachable Ef ltac:(by vm_compute)) as [_ H].
  split; [by vm_compute|]. apply H. by vm_compute.
Defined.
Lemma accepted_needs_two_people_witness :
  status Demo.accepted_item = ITEM_ACCEPTED /\ exists a, acceptances Demo.d4 !! 1 = Some a /\ present (decided_at a) = true.
Proof.
  destruct (accepted_needs_two_people Demo.d4 Demo.key Demo.accepted_item 1 Demo.d4_reachable (proj1 Demo.accepted_at) (proj2 Demo.accepted_at))
    as (H & a & Ha & _ & Hd & _). split; [exact H|]. exists a. split; assumption.
Defined.
Lemma request_bounded_witness : exists a, acceptances Demo.d3 !! 1 = Some a /\ acc_status a = ACCEPT_PENDING.
Proof.
  destruct (request_bounded Demo.t Demo.carol SCOPE_ITEM (py "patched in March") None 150 1 Demo.d2 Demo.d3 Demo.d2_reachable
    ltac:(apply Demo.ok_or_eq; by vm_compute)) as (i & a & _ & Ha & Hp & _). exists a. split; [|assumption]. exact Ha.
Defined.
Lemma hand_never_closes_witness :
  exists d' i i', patch_item Demo.t Demo.carol (MkUpdate None None (Some ITEM_IN_PROGRESS) None) 1 Demo.d2 = Ok d' /\
    items d' !! Demo.key = Some i' /\ items Demo.d2 !! Demo.key = Some i /\ (status i' = ITEM_RESOLVED <-> status i = ITEM_RESOLVED).
Proof.
  set (r := patch_item Demo.t Demo.carol (MkUpdate None None (Some ITEM_IN_PROGRESS) None) 1 Demo.d2).
  assert (E : r = Ok (Demo.ok_or r)) by (apply Demo.ok_or_eq; by vm_compute).
  destruct (items (Demo.ok_or r) !! Demo.key) as [i'|] eqn:Ei; [|exfalso; vm_compute in Ei; discriminate].
  destruct (hand_never_closes Demo.t Demo.carol (MkUpdate None None (Some ITEM_IN_PROGRESS) None) 1 Demo.d2 (Demo.ok_or r) Demo.key i'
    Demo.d2_reachable E Ei) as (i & Hi & _ & _ & _ & _ & H & _).
  exists (Demo.ok_or r), i, i'. split; [exact E|]. split; [exact Ei|]. split; [exact Hi|exact H].
Defined.
Lemma sync_settles_witness :
  let d2 := fst (sync Demo.t Demo.rep (fst (sync Demo.t Demo.rep Demo.d3))) in sync Demo.t Demo.rep d2 = (d2, []).
Proof. exact (sync_settles Demo.t Demo.rep Demo.d3 Demo.d3_reachable). Defined.

(** The class of an acceptance is the one its finding had when it was asked
    for: a manager's approval goes on covering the finding once it is critical. *)
Lemma manager_covers_critical :
  user_role Demo.bob = MANAGER /\
  exists i, items (fst (sync Demo.t (Demo.rep {{ cves := Some [Demo.finding "critical"] }}) Demo.d4)) !! Demo.key = Some i /\
    severity i = CRITICAL /\ status i = ITEM_ACCEPTED /\ acceptance_id i = Some 1.
Proof. split; [done|]. eexists. split; [by vm_compute|]. by split_and!. Qed.
