(* ===== verification/HostKeys.v ===== *)
(** * Trust in the devices' keys and certificates
    (src/app/core/ssh_host_keys.py, src/app/core/tls_pins.py, src/app/modules/device_keys.py)

    [Pins] states what a trust-on-first-use store promises and what follows
    from it for a whole history of connections that overlap: the check of a
    key and the write of a new one are two steps, and anything may happen
    between them.  [Ssh] and [Tls] are the two stores of the code, each proved
    to keep the promise; a TLS check holds its process's lock throughout.  paramiko's HostKeys
    and keys, the digests and the file system's answers are arguments, with
    paramiko's documented behaviour as the laws of a class. *)
From stdpp Require Import sorting.
From S2P Require Import Prelude PyStr.

(** ** The policy *)
Inductive HostKeyPolicyMode : Type := TOFU | STRICT.
#[export] Instance mode_dec : EqDecision HostKeyPolicyMode.
Proof. solve_decision. Defined.
(** [policy_mode]: a value that is no policy is the strict one. *)
Definition policy_mode (setting : option pystr) : HostKeyPolicyMode :=
  let raw := lower (strip (default [] setting)) in
  if bool_decide (raw = py "tofu") then TOFU else STRICT.

(** ** What a store of pins promises *)
Module Pins.
Inductive verdict : Type := Accepted | Refused | FirstUse.
(** [judge] reads the store and decides; on a first use the caller goes on
    and writes the pin, which is a step of its own. *)
Class PinStore (S Key : Type) : Type := {
  ok : S -> Prop;                                       (* well-formed stores *)
  fine : pystr -> Z -> Key -> Prop;                     (* what the code is given *)
  place : pystr -> Z -> pystr;                          (* the entry of a host and port *)
  same : Key -> Key -> Prop;                            (* keys the store does not tell apart *)
  known : S -> pystr -> bool;                           (* something is pinned there *)
  trusts : S -> pystr -> Key -> bool;                   (* this key is pinned there *)
  judge : HostKeyPolicyMode -> S -> pystr -> Z -> Key -> verdict;
  pin : S -> pystr -> Z -> Key -> S;
  drop_pin : S -> pystr -> Z -> S }.
Class PinStoreLaws (S Key : Type) `{PinStore S Key} : Prop := {
  pin_ok s h p k : ok s -> fine h p k -> ok (pin s h p k);
  drop_ok s h p : ok s -> ok (drop_pin s h p);
  judge_verdict m s h p k : ok s ->
    judge m s h p k =
    if known s (place h p) then (if trusts s (place h p) k then Accepted else Refused)
    else if bool_decide (m = TOFU) then FirstUse else Refused;
  pin_known s h p k n : ok s -> fine h p k -> known (pin s h p k) n = known s n || bool_decide (n = place h p);
  pin_other s h p k n k' : ok s -> fine h p k -> n <> place h p -> trusts (pin s h p k) n k' = trusts s n k';
  pin_self s h p k k' : ok s -> fine h p k -> same k k' -> trusts (pin s h p k) (place h p) k' = true;
  pin_trusts s h p k k' : ok s -> fine h p k ->
    trusts (pin s h p k) (place h p) k' = true -> same k k' \/ trusts s (place h p) k' = true;
  trusts_known s n k : ok s -> trusts s n k = true -> known s n = true;
  drop_known s h p n : ok s -> known (drop_pin s h p) n = known s n && negb (bool_decide (n = place h p));
  drop_trusts s h p n k : ok s -> n <> place h p -> trusts (drop_pin s h p) n k = trusts s n k }.

(** *** Connections that overlap *)
Section History.
Context {S Key : Type} `{PinStoreLaws S Key}.
Record call : Type := Call { to_host : pystr; to_port : Z; shown : Key }.
(** The store, the calls that found their host unknown and have not written
    the pin yet, and the calls that accepted their key, in order. *)
Record sys : Type := Sys { store : S; waiting : list call; accepted : list call }.
(** What happens: a call reads the store and decides, under the policy of the
    moment; one that waits writes its pin, or fails to; an administrator
    removes a pin. *)
Inductive event : Type :=
| Check (m : HostKeyPolicyMode) (c : call) | Write (i : nat) | Fails (i : nat) | Forget (h : pystr) (p : Z).
Definition place_of (c : call) : pystr := place (to_host c) (to_port c).
Definition call_fine (c : call) : Prop := fine (to_host c) (to_port c) (shown c).
Definition event_fine (e : event) : Prop := match e with Check _ c => call_fine c | _ => True end.
Definition leaves (n : pystr) (e : event) : Prop := match e with Forget h p => place h p <> n | _ => True end.
Definition do_event (s : sys) (e : event) : sys :=
  match e with
  | Check m c =>
      match judge m (store s) (to_host c) (to_port c) (shown c) with
      | Accepted => Sys (store s) (waiting s) (accepted s ++ [c])
      | Refused => s
      | FirstUse => Sys (store s) (waiting s ++ [c]) (accepted s)
      end
  | Write i =>
      match waiting s !! i with
      | Some c => Sys (pin (store s) (to_host c) (to_port c) (shown c)) (delete i (waiting s)) (accepted s ++ [c])
      | None => s
      end
  | Fails i => Sys (store s) (delete i (waiting s)) (accepted s)
  | Forget h p => Sys (drop_pin (store s) h p) (waiting s) (accepted s)
  end.
Definition run (s : sys) (l : list event) : sys := foldl do_event s l.

Record well_formed (s : sys) : Prop := WellFormed {
  wf_store : ok (store s); wf_waiting : Forall call_fine (waiting s) }.
Lemma event_well_formed s e : well_formed s -> event_fine e -> well_formed (do_event s e).
Proof.
  intros [Hs Hw] He. destruct e as [m c|i|i|h p]; simpl in *.
  - destruct (judge _ _ _ _ _); split; simpl; try done.
    apply list.Forall_app. split; [done|by constructor].
  - destruct (waiting s !! i) as [c|] eqn:Ei; [|by split]. split; simpl; [|by apply list.Forall_delete].
    apply pin_ok; [done|]. by eapply (list.Forall_lookup_1 _ _ _ _ Hw).
  - split; simpl; [done|by apply list.Forall_delete].
  - split; simpl; [by apply drop_ok|done].
Qed.

(** From a moment at which the place is known, what is pinned there and what
    waits to be are among some keys, and so is what is accepted from then on. *)
Record among (n : pystr) (P : Key -> Prop) (before : nat) (s : sys) : Prop := Among {
  among_wf : well_formed s;
  among_known : known (store s) n = true;
  among_pinned : forall k, trusts (store s) n k = true -> P k;
  among_waiting : forall c, c ∈ waiting s -> place_of c = n -> forall k, same (shown c) k -> P k;
  among_refl : forall c, c ∈ waiting s -> place_of c = n -> P (shown c);
  among_accepted : forall c, c ∈ drop before (accepted s) -> place_of c = n -> P (shown c);
  among_before : (before <= length (accepted s))%nat }.

Lemma drop_snoc {A} (l : list A) x n : (n <= length l)%nat -> drop n (l ++ [x]) = drop n l ++ [x].
Proof. intros Hn. by rewrite drop_app_le. Qed.

Lemma event_among n P before s e :
  among n P before s -> event_fine e -> leaves n e -> among n P before (do_event s e).
Proof.
  intros [Hwf Hk Hp Hw Hr Ha Hb] He Hl. pose proof (event_well_formed s e Hwf He) as Hwf'. destruct Hwf as [Hs Hwf].
  destruct e as [m c|i|i|h p]; simpl in *.
  - rewrite judge_verdict in * by done.
    assert (Hacc : known (store s) (place_of c) = true -> trusts (store s) (place_of c) (shown c) = true ->
      well_formed (Sys (store s) (waiting s) (accepted s ++ [c])) -> among n P before (Sys (store s) (waiting s) (accepted s ++ [c]))).
    { intros _ Ht Hwf''. split; simpl; try done; [|rewrite length_app; lia]. rewrite drop_snoc by done.
      intros c'. rewrite elem_of_app, list_elem_of_singleton. intros [Hc| ->] En; [by eapply Ha|]. subst n. by apply Hp. }
    fold (place_of c) in *. destruct (known _ (place_of c)) eqn:Ec.
    + destruct (trusts _ _ _) eqn:Et; [by apply Hacc|by split].
    + destruct (bool_decide _); [|by split].
      assert (Hne : place_of c <> n) by congruence.
      split; simpl; try done; intros c'; rewrite elem_of_app, list_elem_of_singleton; intros [Hc| ->] En; try done.
      * by apply Hw.
      * by apply Hr.
  - destruct (waiting s !! i) as [c|] eqn:Ei; [|by split].
    assert (Hf : call_fine c) by by eapply (list.Forall_lookup_1 _ _ _ _ Hwf).
    assert (Hin : c ∈ waiting s) by by eapply list_elem_of_lookup_2.
    pose proof (fun c' => list_elem_of_delete_inv (A := call) c' i (waiting s)) as Hsub.
    split; simpl; [done| | |by eauto|by eauto| |rewrite length_app; lia].
    + by rewrite pin_known, Hk.
    + intros k Ht. destruct (decide (n = place_of c)) as [->|Hn].
      * apply pin_trusts in Ht as [Ht|Ht]; [by eapply Hw|by apply Hp|done|done].
      * rewrite pin_other in Ht by done. by apply Hp.
    + rewrite drop_snoc by done. intros c'. rewrite elem_of_app, list_elem_of_singleton. intros [Hc| ->] En; [by apply Ha|by apply Hr].
  - pose proof (fun c' => list_elem_of_delete_inv (A := call) c' i (waiting s)) as Hsub.
    split; simpl; eauto.
  - split; simpl; try done.
    + by rewrite drop_known, Hk, bool_decide_eq_false_2 by auto.
    + intros k. rewrite drop_trusts by auto. apply Hp.
Qed.
Lemma run_among n P before s l :
  among n P before s -> Forall event_fine l -> Forall (leaves n) l -> among n P before (run s l).
Proof.
  unfold run. revert s. induction l as [|e l IH]; intros s Hs Hf Hl; simpl; [done|]. inversion Hf; inversion Hl; subst.
  apply IH; [by apply event_among|done..].
Qed.

(** A place that is known and that nothing waits to pin keeps its pin. *)
Record settled (n : pystr) (k : Key) (s : sys) : Prop := Settled {
  settled_wf : well_formed s;
  settled_known : known (store s) n = true;
  settled_trusts : forall k', trusts (store s) n k' = true <-> same k k';
  settled_waiting : forall c, c ∈ waiting s -> place_of c <> n }.
Lemma event_settled n k s e : settled n k s -> event_fine e -> leaves n e -> settled n k (do_event s e).
Proof.
  intros [Hwf Hk Ht Hw] He Hl. pose proof (event_well_formed s e Hwf He) as Hwf'. destruct Hwf as [Hs Hwf].
  destruct e as [m c|i|i|h p]; simpl in *.
  - rewrite judge_verdict in * by done. fold (place_of c) in *. destruct (known _ (place_of c)) eqn:Ec; [by destruct (trusts _ _ _)|].
    destruct (bool_decide _); [|by split]. split; simpl; try done. intros c'. rewrite elem_of_app, list_elem_of_singleton.
    intros [Hc| ->]; [by apply Hw|]. congruence.
  - destruct (waiting s !! i) as [c|] eqn:Ei; [|by split].
    assert (Hf : call_fine c) by by eapply (list.Forall_lookup_1 _ _ _ _ Hwf).
    assert (Hn : place_of c <> n) by (apply Hw; by eapply list_elem_of_lookup_2).
    split; simpl; [done|by rewrite pin_known, Hk| |].
    + intros k'. rewrite pin_other by auto. apply Ht.
    + intros c' Hc'. apply Hw. by eapply list_elem_of_delete_inv.
  - split; simpl; try done. intros c' Hc'. apply Hw. by eapply list_elem_of_delete_inv.
  - split; simpl; try done.
    + by rewrite drop_known, Hk, bool_decide_eq_false_2 by auto.
    + intros k'. rewrite drop_trusts by auto. apply Ht.
Qed.
Lemma run_settled n k s l : settled n k s -> Forall event_fine l -> Forall (leaves n) l -> settled n k (run s l).
Proof.
  unfold run. revert s. induction l as [|e l IH]; intros s Hs Hf Hl; simpl; [done|]. inversion Hf; inversion Hl; subst.
  apply IH; [by apply event_settled|done..].
Qed.
Lemma settled_judge n k s m h p k' :
  settled n k s -> n = place h p ->
  judge m (store s) h p k' = Accepted /\ same k k' \/ judge m (store s) h p k' = Refused /\ ~ same k k'.
Proof.
  intros [[Hs _] Hk Ht _] ->. rewrite judge_verdict, Hk by done.
  destruct (trusts _ _ _) eqn:E; [left; by apply Ht in E|right]. split; [done|]. rewrite <- Ht. by rewrite E.
Qed.

(** The first pin of a place, by the call that writes it. *)
Lemma first_write s i c (Hrefl : same (shown c) (shown c)) :
  well_formed s -> waiting s !! i = Some c -> known (store s) (place_of c) = false ->
  Forall (fun d => same (shown d) (shown d)) (waiting s) ->
  let s1 := do_event s (Write i) in
  among (place_of c) (fun k => same (shown c) k \/ exists d, d ∈ waiting s1 /\ place_of d = place_of c /\ same (shown d) k)
        (length (accepted s1)) s1
  /\ ((forall d, d ∈ waiting s1 -> place_of d <> place_of c) -> settled (place_of c) (shown c) s1).
Proof.
  intros Hwf Hi Hno Hall s1. assert (Hwf1 : well_formed s1) by by apply (event_well_formed s (Write i)).
  destruct Hwf as [Hs Hw]. assert (Hf : call_fine c) by by eapply (list.Forall_lookup_1 _ _ _ _ Hw).
  assert (E1 : s1 = Sys (pin (store s) (to_host c) (to_port c) (shown c)) (delete i (waiting s)) (accepted s ++ [c])).
  { unfold s1. simpl. by rewrite Hi. }
  assert (Hk : known (store s1) (place_of c) = true).
  { rewrite E1. simpl. rewrite pin_known by done. fold (place_of c). by rewrite bool_decide_eq_true_2, orb_true_r. }
  assert (Ht : forall k', trusts (store s1) (place_of c) k' = true <-> same (shown c) k').
  { intros k'. rewrite E1. simpl. split; [|by apply pin_self]. intros [?|E]%pin_trusts; [done| |done|done].
    apply trusts_known in E; [|done]. unfold place_of in Hno. congruence. }
  split; [split|split]; try done.
  - intros k. rewrite Ht. auto.
  - intros d Hd En k Hsame. right. by exists d.
  - intros d Hd En. right. exists d. split_and!; [done..|]. rewrite E1 in Hd. simpl in Hd.
    rewrite list.Forall_forall in Hall. apply Hall. by eapply list_elem_of_delete_inv.
  - intros d. rewrite drop_all. by intros ?%elem_of_nil.
Qed.

(** *** One connection after another *)
(** A store whose lock is held from the check to the write. *)
Inductive act : Type := Connect (m : HostKeyPolicyMode) (c : call) | Remove (h : pystr) (p : Z).
Definition offer (m : HostKeyPolicyMode) (s : S) (h : pystr) (p : Z) (k : Key) : S * bool :=
  match judge m s h p k with Accepted => (s, true) | Refused => (s, false) | FirstUse => (pin s h p k, true) end.
Definition do_act (s : S) (a : act) : S :=
  match a with Connect m c => fst (offer m s (to_host c) (to_port c) (shown c)) | Remove h p => drop_pin s h p end.
Definition events_of (a : act) : list event :=
  match a with Connect m c => [Check m c; Write 0] | Remove h p => [Forget h p] end.
Lemma acts_run s acc l :
  exists acc', run (Sys s [] acc) (flat_map events_of l) = Sys (foldl do_act s l) [] acc'.
Proof.
  revert s acc. induction l as [|a l IH]; intros s acc; [by exists acc|].
  destruct a as [m c|h p]; simpl; [|apply IH]. unfold offer. destruct (judge _ _ _ _ _); simpl; apply IH.
Qed.
Lemma acts_settled n k s l :
  ok s -> known s n = true -> (forall k', trusts s n k' = true <-> same k k') ->
  Forall event_fine (flat_map events_of l) -> Forall (leaves n) (flat_map events_of l) ->
  exists acc, settled n k (Sys (foldl do_act s l) [] acc).
Proof.
  intros Hs Hk Ht Hf Hl. destruct (acts_run s [] l) as [acc E]. exists acc. rewrite <- E. apply run_settled; [|done..].
  split; simpl; [split; [done|constructor]|done|done|]. by intros c ?%elem_of_nil.
Qed.
Lemma offer_settled n k s m h p k' :
  settled n k s -> n = place h p -> snd (offer m (store s) h p k') = true <-> same k k'.
Proof.
  intros Hs En. unfold offer. destruct (settled_judge n k s m h p k' Hs En) as [[-> ?]|[-> ?]]; done.
Qed.
End History.
End Pins.

(** ** SSH host keys *)
Module Ssh.
Definition SSH_DEFAULT_PORT : Z := 22.

(** [str.rpartition(sep)], where the separator occurs. *)
Fixpoint rpartition (sep s : pystr) : option (pystr * pystr) :=
  match s with
  | [] => None
  | c :: s' =>
      match rpartition sep s' with
      | Some (a, b) => Some (c :: a, b)
      | None => if is_prefix sep s then Some ([], drop (length sep) s) else None
      end
  end.
(** [host_key_entry_name] *)
Definition bracketed (host : pystr) (port : Z) : pystr := "["%char :: host ++ py "]:" ++ str_of_int port.
Definition host_key_entry_name (host : pystr) (port : Z) : pystr :=
  if port =? SSH_DEFAULT_PORT then host else bracketed host port.
(** [split_entry_name]; a port of digits that int() refuses raises. *)
Definition split_entry_name (name : pystr) (default_port : Z) : res unit (pystr * Z) :=
  match name with
  | c :: rest =>
      if bool_decide (c = "["%char) then
        match rpartition (py "]:") rest with
        | Some (host, port) =>
            if negb (bool_decide (host = [])) && negb (bool_decide (port = [])) && forallb py_isdigit port
            then match py_int port with Some n => Ok (host, n) | None => Raise tt end
            else Ok (name, default_port)
        | None => Ok (name, default_port)
        end
      else Ok (name, default_port)
  | [] => Ok (name, default_port)
  end.

(** [resolve_store_path]: the candidates with their directory and the one above. *)
Record FileSystem : Type := MkFs { expanduser : pystr -> pystr; is_dir : pystr -> bool; writable : pystr -> bool }.
Definition _DEFAULT_STORE_CANDIDATES : list (pystr * pystr * pystr) :=
  [(py "/etc/ngcorion/known_hosts", py "/etc/ngcorion", py "/etc");
   (py "~/.ngcorion/known_hosts", py "~/.ngcorion", py "~")].
Fixpoint first_usable (fs : FileSystem) (l : list (pystr * pystr * pystr)) : option pystr :=
  match l with
  | [] => None
  | (path, parent, above) :: l =>
      let parent := expanduser fs parent in
      if is_dir fs parent then
        if writable fs parent then Some (expanduser fs path) else first_usable fs l
      else if writable fs (expanduser fs above) then Some (expanduser fs path) else first_usable fs l
  end.
Definition resolve_store_path (fs : FileSystem) (setting : option pystr) : pystr :=
  let configured := strip (default [] setting) in
  if negb (bool_decide (configured = [])) then expanduser fs configured
  else default (expanduser fs (py "~/.ngcorion/known_hosts")) (first_usable fs _DEFAULT_STORE_CANDIDATES).

(** What the code uses of paramiko: keys, and HostKeys objects; the file is
    read and written line by line. *)
Class HostKeysLib : Type := {
  PKey : Type;
  get_name : PKey -> pystr;
  asbytes : PKey -> pystr;
  get_base64 : PKey -> pystr;
  HostKeys : Type;
  no_keys : HostKeys;
  load : list pystr -> HostKeys;                            (* what a load leaves, an error included *)
  lookup_keys : HostKeys -> pystr -> option (list (pystr * PKey));
  add_key : HostKeys -> pystr -> PKey -> HostKeys;
  names : HostKeys -> list pystr;
  plain : HostKeys -> Prop;                                 (* every entry names one host, in clear *)
  clean_name : pystr -> Prop;                               (* can stand in a line as it is *)
  writable_key : PKey -> Prop }.

(** Setting the key of a type among an entry's keys, and reading it. *)
Fixpoint set_key {A} (l : list (pystr * A)) (t : pystr) (k : A) : list (pystr * A) :=
  match l with
  | [] => [(t, k)]
  | (t', k') :: l => if bool_decide (t' = t) then (t, k) :: l else (t', k') :: set_key l t k
  end.
Definition entry_get {A} (l : list (pystr * A)) (t : pystr) : option A :=
  snd <$> List.find (fun e => bool_decide (fst e = t)) l.

Section Store.
Context `{HostKeysLib}.
(** The lines [_atomic_save] writes. *)
Definition line_of (name : pystr) (e : pystr * PKey) : pystr :=
  name ++ " "%char :: fst e ++ " "%char :: get_base64 (snd e).
Definition _atomic_save (keys : HostKeys) : list pystr :=
  flat_map (fun n => map (line_of n) (default [] (lookup_keys keys n))) (names keys).
End Store.

Class HostKeysLaws `{HostKeysLib} : Prop := {
  plain_empty : plain no_keys;
  lookup_empty_keys n : lookup_keys no_keys n = None;
  plain_add h n k : plain h -> clean_name n -> writable_key k -> plain (add_key h n k);
  lookup_add h n k n' : plain h -> clean_name n -> writable_key k ->
    lookup_keys (add_key h n k) n' =
    if bool_decide (n' = n) then Some (set_key (default [] (lookup_keys h n)) (get_name k) k) else lookup_keys h n';
  names_spec h n : plain h -> n ∈ names h <-> is_Some (lookup_keys h n);
  names_NoDup h : plain h -> NoDup (names h);
  plain_entry h n l : plain h -> lookup_keys h n = Some l ->
    l <> [] /\ NoDup (map fst l) /\ clean_name n /\ Forall (fun e => fst e = get_name (snd e) /\ writable_key (snd e)) l;
  load_saved h : plain h -> plain (load (_atomic_save h)) /\ forall n, lookup_keys (load (_atomic_save h)) n = lookup_keys h n }.

Section Verify.
Context `{HostKeysLaws}.
(** The store: the lines of the file, when it exists. *)
Definition KnownHostsStore : Type := option (list pystr).
Definition _load_unlocked (f : KnownHostsStore) : HostKeys := match f with Some ls => load ls | None => no_keys end.
Definition lookup (f : KnownHostsStore) (host : pystr) (port : Z) : option (list (pystr * PKey)) :=
  lookup_keys (_load_unlocked f) (host_key_entry_name host port).
Definition no_entry (e : option (list (pystr * PKey))) : bool := match e with None | Some [] => true | _ => false end.

Inductive VerificationResult : Type := MATCH | MISMATCH | UNKNOWN.
Definition verify (f : KnownHostsStore) (host : pystr) (port : Z) (key : PKey) : VerificationResult :=
  match lookup f host port with
  | None | Some [] => UNKNOWN
  | Some entry =>
      match entry_get entry (get_name key) with
      | None => MISMATCH
      | Some stored => if bool_decide (asbytes stored = asbytes key) then MATCH else MISMATCH
      end
  end.
Definition add (f : KnownHostsStore) (host : pystr) (port : Z) (key : PKey) : KnownHostsStore :=
  Some (_atomic_save (add_key (_load_unlocked f) (host_key_entry_name host port) key)).
(** [forget]: the store rebuilt without the entry, and whether there was one. *)
Definition copy_entry (keys : HostKeys) (acc : HostKeys) (n : pystr) : HostKeys :=
  foldl (fun h e => add_key h n (snd e)) acc (default [] (lookup_keys keys n)).
Definition without (keys : HostKeys) (entry : pystr) : HostKeys :=
  foldl (copy_entry keys) no_keys (List.filter (fun n => negb (bool_decide (n = entry))) (names keys)).
Definition forget (f : KnownHostsStore) (host : pystr) (port : Z) : KnownHostsStore * bool :=
  match f with
  | None => (f, false)
  | Some ls =>
      let keys := load ls in
      match lookup_keys keys (host_key_entry_name host port) with
      | None => (f, false)
      | Some _ => (Some (_atomic_save (without keys (host_key_entry_name host port))), true)
      end
  end.

Context (sha256 : pystr -> pystr) (b64 : pystr -> pystr).
Definition rstrip_char (c : ascii) (s : pystr) : pystr := rev (drop_while (fun d => bool_decide (d = c)) (rev s)).
Definition key_fingerprint (k : PKey) : pystr := py "SHA256:" ++ rstrip_char "="%char (b64 (sha256 (asbytes k))).
Definition joined (l : list pystr) : pystr :=
  match l with [] => [] | x :: l => foldl (fun s y => s ++ py ", " ++ y) x l end.
Definition expected_fingerprints (f : KnownHostsStore) (host : pystr) (port : Z) : pystr :=
  match lookup f host port with
  | None | Some [] => []
  | Some entry => joined (map (fun e => fst e ++ " "%char :: key_fingerprint (snd e)) entry)
  end.

(** The errors: the unknown host with what it offered, the mismatch with what
    was expected, and any other connection error. *)
Inductive ssh_error : Type :=
| SSHHostKeyUnknownError (host : pystr) (offered : option pystr)
| SSHHostKeyMismatchError (host : pystr) (expected : option pystr) (got : pystr)
| SSHConnectionError_ (e : pystr).
Definition or_none (s : pystr) : option pystr := if bool_decide (s = []) then None else Some s.

(** [evaluate_host_key] up to its decision: the outcome, or [None] when the
    host is unknown and the key is to be pinned. *)
Definition decide_host_key (m : HostKeyPolicyMode) (f : KnownHostsStore) (host : pystr) (port : Z) (key : PKey)
    : option (res ssh_error unit) :=
  match verify f host port key with
  | MATCH => Some (Ok tt)
  | MISMATCH => Some (Raise (SSHHostKeyMismatchError host (or_none (expected_fingerprints f host port)) (key_fingerprint key)))
  | UNKNOWN => if bool_decide (m = STRICT) then Some (Raise (SSHHostKeyUnknownError host (Some (key_fingerprint key)))) else None
  end.
(** [evaluate_host_key] with nothing in between: the store after, and the
    outcome.  [verify] and [add] take the store's lock one after the other;
    what other calls do between them is [Pins.do_event]'s. *)
Definition evaluate_host_key (m : HostKeyPolicyMode) (f : KnownHostsStore) (host : pystr) (port : Z) (key : PKey)
    : KnownHostsStore * res ssh_error unit :=
  match decide_host_key m f host port key with
  | Some r => (f, r)
  | None => (add f host port key, Ok tt)
  end.
(** [VerifyingHostKeyPolicy.missing_host_key] *)
Definition missing_host_key (m : HostKeyPolicyMode) (own_port : Z) (f : KnownHostsStore) (hostname : pystr) (key : PKey)
    : KnownHostsStore * res ssh_error unit :=
  match split_entry_name hostname own_port with
  | Ok (host, port) => evaluate_host_key m f host port key
  | Raise _ => (f, Raise (SSHConnectionError_ (py "ValueError")))
  end.
(** [ensure_host_key_trusted]; the probe is the handshake's answer, and the
    flag says whether it was made. *)
Definition ensure_host_key_trusted (m : HostKeyPolicyMode) (f : KnownHostsStore) (host : pystr) (port : Z)
    (probe : res pystr PKey) : KnownHostsStore * res ssh_error unit * bool :=
  if negb (no_entry (lookup f host port)) then (f, Ok tt, false)
  else if bool_decide (m = STRICT) then (f, Raise (SSHHostKeyUnknownError host None), false)
  else match probe with
       | Raise e => (f, Raise (SSHConnectionError_ e), true)
       | Ok key => (evaluate_host_key m f host port key, true)
       end.

(** [entries]: host, port, type and fingerprint, in the order of tuples. *)
Definition pin_cmp (x y : pystr * Z * pystr * pystr) : comparison :=
  let '(h, p, t, f) := x in let '(h', p', t', f') := y in
  match str_cmp h h' with
  | Eq => match p ?= p' with Eq => match str_cmp t t' with Eq => str_cmp f f' | c => c end | c => c end
  | c => c
  end.
Definition pin_le (x y : pystr * Z * pystr * pystr) : Prop := pin_cmp x y <> Gt.
#[local] Instance pin_le_dec : RelDecision pin_le.
Proof. intros x y. unfold pin_le. destruct (pin_cmp x y); [left|left|right]; congruence. Defined.
Definition entries (f : KnownHostsStore) : res unit (list (pystr * Z * pystr * pystr)) :=
  let keys := _load_unlocked f in
  let! out := foldl (fun acc n =>
           let! out := acc in
           let! hp := split_entry_name n SSH_DEFAULT_PORT in
           Ok (out ++ map (fun e => (fst hp, snd hp, fst e, key_fingerprint (snd e))) (default [] (lookup_keys keys n))))
    (Ok []) (names keys) in
  Ok (merge_sort pin_le out).
End Verify.

Definition _HOST_KEY_ERROR_MARKERS : list pystr := [py "host key"; py "known_hosts"; py "hostkey"].
Definition looks_like_host_key_failure (error : pystr) : bool :=
  existsb (fun marker => is_infix marker (lower error)) _HOST_KEY_ERROR_MARKERS.

(** *** Entry names *)
Lemma rpartition_none c sep s : has_char c s = false -> rpartition (c :: sep) s = None.
Proof.
  unfold has_char. induction s as [|d s IH]; intros Hs; [done|]. simpl in Hs. apply orb_false_elim in Hs as [Hd Hs].
  cbn [rpartition]. rewrite (IH Hs). cbn [is_prefix]. bool_prop. by rewrite bool_decide_eq_false_2 by congruence.
Qed.
Lemma rpartition_last a b : has_char "]"%char b = false -> rpartition (py "]:") (a ++ py "]:" ++ b) = Some (a, b).
Proof.
  intros Hb. induction a as [|x a IH]; [|cbn [app rpartition]; by rewrite IH].
  change (py "]:" ++ b) with ("]"%char :: ":"%char :: b). cbn [app rpartition].
  change (py "]:") with ["]"%char; ":"%char]. rewrite (rpartition_none _ _ b Hb). done.
Qed.
Lemma digits_no_bracket s : forallb is_digit s = true -> has_char "]"%char s = false.
Proof.
  intros H. apply not_true_is_false. intros Hc%has_char_spec. rewrite forallb_forall in H.
  apply list_elem_of_In in Hc. by specialize (H _ Hc).
Qed.
Lemma digit_isdigit c : is_digit c = true -> py_isdigit c = true.
Proof. unfold py_isdigit. by intros ->. Qed.
Lemma port_text p : 0 <= p -> str_of_int p <> [] /\ forallb is_digit (str_of_int p) = true.
Proof.
  intros Hp. unfold str_of_int. destruct (Z.ltb_spec p 0); [lia|]. destruct (dec_nonneg_spec p Hp) as (H1 & H2 & _). auto.
Qed.
Lemma split_bracketed host port d :
  host <> [] -> 0 <= port -> split_entry_name (bracketed host port) d = Ok (host, port).
Proof.
  intros Hh Hp. destruct (port_text port Hp) as [Hne Hd]. unfold bracketed, split_entry_name.
  rewrite (bool_decide_eq_true_2 ("["%char = "["%char)) by done.
  rewrite rpartition_last by by apply digits_no_bracket.
  rewrite !bool_decide_eq_false_2 by done. cbn [negb andb].
  assert (forallb py_isdigit (str_of_int port) = true) as ->; [|by rewrite py_int_str_of_int].
  apply forallb_forall. intros c Hc. apply digit_isdigit. by eapply forallb_forall in Hd.
Qed.
Lemma split_plain host d : head host <> Some "["%char -> split_entry_name host d = Ok (host, d).
Proof. destruct host as [|c host]; [done|]. simpl. intros H. rewrite bool_decide_eq_false_2; [done|congruence]. Qed.

(** The entry name of a host and port splits back into that host and port, on the
    default port when the host does not itself begin with a bracket, so two
    places never share an entry. *)
Theorem entry_name_splits host port :
  host <> [] -> 0 <= port -> (port = SSH_DEFAULT_PORT -> head host <> Some "["%char) ->
  split_entry_name (host_key_entry_name host port) SSH_DEFAULT_PORT = Ok (host, port).
Proof.
  intros Hh Hp H22. unfold host_key_entry_name. destruct (Z.eqb_spec port SSH_DEFAULT_PORT) as [->|].
  - by apply split_plain, H22.
  - by apply split_bracketed.
Qed.
Lemma entry_name_splits_witness :
  split_entry_name (host_key_entry_name (py "10.0.0.1") 2222) SSH_DEFAULT_PORT = Ok (py "10.0.0.1", 2222).
Proof. apply entry_name_splits; [discriminate|lia|discriminate]. Defined.

(** *** The store as a map from entries to keys *)
Lemma set_key_new {A} (l : list (pystr * A)) t k : t ∉ map fst l -> set_key l t k = l ++ [(t, k)].
Proof.
  induction l as [|[t' k'] l IH]; simpl; [done|]. intros Ht. rewrite bool_decide_eq_false_2 by set_solver.
  rewrite IH; set_solver.
Qed.
Lemma entry_get_set {A} (l : list (pystr * A)) t k t' : entry_get (set_key l t k) t' = if bool_decide (t' = t) then Some k else entry_get l t'.
Proof.
  unfold entry_get. induction l as [|[t1 k1] l IH]; simpl; repeat (case_bool_decide; simplify_eq/=); try done.
Qed.

Section Facts.
Context `{HostKeysLaws}.
Implicit Types (f : KnownHostsStore) (h : HostKeys).

(** Copying an entry, key by key. *)
Lemma copy_keys n l acc :
  plain acc -> clean_name n -> Forall (fun e => fst e = get_name (snd e) /\ writable_key (snd e)) l ->
  NoDup (map fst (default [] (lookup_keys acc n) ++ l)) ->
  let r := foldl (fun h e => add_key h n (snd e)) acc l in
  plain r /\ forall n', lookup_keys r n' =
    if bool_decide (n' = n) then (match l with [] => lookup_keys acc n | _ => Some (default [] (lookup_keys acc n) ++ l) end)
    else lookup_keys acc n'.
Proof.
  revert acc. induction l as [|[t k] l IH]; intros acc Hp Hc Hl Hn; simpl.
  - split; [done|]. intros n'. by case_bool_decide; subst.
  - inversion Hl as [|? ? [Et Hw] Hl']; subst. simpl in Et, Hw. subst t.
    assert (Hnew : get_name k ∉ map fst (default [] (lookup_keys acc n))).
    { rewrite map_app in Hn. simpl in Hn. apply list.NoDup_app in Hn as (_ & Hd & _). intros Hin. apply (Hd _ Hin). left. }
    assert (Ha : lookup_keys (add_key acc n k) n = Some (default [] (lookup_keys acc n) ++ [(get_name k, k)])).
    { rewrite lookup_add, bool_decide_eq_true_2 by done. by rewrite set_key_new. }
    destruct (IH (add_key acc n k)) as [H1 H2]; [by apply plain_add|done|done|by rewrite Ha; simpl; rewrite <- app_assoc|].
    split; [done|]. intros n'. rewrite H2, Ha. simpl. case_bool_decide as Hn'.
    + destruct l; [done|]. by rewrite <- app_assoc.
    + by rewrite lookup_add, bool_decide_eq_false_2.
Qed.
Lemma copy_names keys ns acc :
  plain keys -> plain acc -> NoDup ns -> (forall n, n ∈ ns -> is_Some (lookup_keys keys n) /\ lookup_keys acc n = None) ->
  let r := foldl (copy_entry keys) acc ns in
  plain r /\ forall n, lookup_keys r n = if bool_decide (n ∈ ns) then lookup_keys keys n else lookup_keys acc n.
Proof.
  intros Hk. revert acc. induction ns as [|n ns IH]; intros acc Hp Hn Hns; simpl.
  - by split.
  - inversion Hn as [|? ? Hnin Hn']; subst. destruct (Hns n) as [[l Hl] Hacc]; [by left|].
    destruct (plain_entry _ _ _ Hk Hl) as (Hne & Hnd & Hc & Hall).
    destruct (copy_keys n l acc Hp Hc Hall) as [H1 H2]; [by rewrite Hacc|].
    assert (Hstep : copy_entry keys acc n = foldl (fun h e => add_key h n (snd e)) acc l) by (unfold copy_entry; by rewrite Hl).
    rewrite Hstep. destruct (IH _ H1 Hn') as [H3 H4].
    { intros m Hm. destruct (Hns m) as [? Ha]; [by right|]. split; [done|].
      rewrite H2, bool_decide_eq_false_2; [done|]. by intros ->. }
    split; [done|]. intros m. rewrite H4, H2, Hacc. simpl.
    destruct (decide (m = n)) as [->|Hmn].
    + rewrite (bool_decide_eq_false_2 (n ∈ ns)), !bool_decide_eq_true_2 by (done || by left). by destruct l.
    + rewrite (bool_decide_eq_false_2 (m = n)) by done. do 2 case_bool_decide; set_solver.
Qed.
Lemma without_lookup keys e :
  plain keys -> plain (without keys e) /\
  forall n, lookup_keys (without keys e) n = if bool_decide (n = e) then None else lookup_keys keys n.
Proof.
  intros Hk. unfold without.
  set (ns := List.filter _ (names keys)).
  assert (Hns : forall n, n ∈ ns <-> is_Some (lookup_keys keys n) /\ n <> e).
  { intros n. unfold ns. rewrite elem_filter, names_spec, negb_true_iff, bool_decide_eq_false by done. done. }
  destruct (copy_names keys ns no_keys Hk plain_empty) as [H1 H2].
  - unfold ns. apply NoDup_ListNoDup, List.NoDup_filter, NoDup_ListNoDup. by apply names_NoDup.
  - intros n Hn%Hns. split; [tauto|]. apply lookup_empty_keys.
  - split; [done|]. intros n. rewrite H2, lookup_empty_keys. destruct (decide (n = e)) as [->|Hne].
    + rewrite bool_decide_eq_false_2, bool_decide_eq_true_2; [done..|]. intros [_ ?]%Hns. done.
    + rewrite (bool_decide_eq_false_2 (n = e)) by done. case_bool_decide as Hn; [done|].
      destruct (lookup_keys keys n) eqn:E; [|done]. destruct Hn. apply Hns. rewrite E. eauto.
Qed.

Lemma add_lookup_keys f host port k :
  plain (_load_unlocked f) -> clean_name (host_key_entry_name host port) -> writable_key k ->
  plain (_load_unlocked (add f host port k)) /\
  forall n, lookup_keys (_load_unlocked (add f host port k)) n =
    if bool_decide (n = host_key_entry_name host port)
    then Some (set_key (default [] (lookup_keys (_load_unlocked f) n)) (get_name k) k)
    else lookup_keys (_load_unlocked f) n.
Proof.
  intros Hp Hc Hw. unfold add. set (h := add_key _ _ _).
  assert (Hh : plain h) by by apply plain_add. destruct (load_saved h Hh) as [H1 H2].
  split; [done|]. intros n. simpl. rewrite H2. unfold h. rewrite lookup_add by done. case_bool_decide; by subst.
Qed.
Lemma forget_lookup f host port :
  plain (_load_unlocked f) ->
  plain (_load_unlocked (fst (forget f host port))) /\
  (snd (forget f host port) = true <-> is_Some (lookup f host port)) /\
  forall n, lookup_keys (_load_unlocked (fst (forget f host port))) n =
    if bool_decide (n = host_key_entry_name host port) then None else lookup_keys (_load_unlocked f) n.
Proof.
  intros Hp. unfold forget, lookup. destruct f as [ls|]; simpl in *.
  - destruct (lookup_keys (load ls) (host_key_entry_name host port)) as [l|] eqn:El; simpl.
    + destruct (without_lookup (load ls) (host_key_entry_name host port) Hp) as [H1 H2].
      destruct (load_saved _ H1) as [H3 H4]. split; [done|]. split; [split; eauto|]. intros n. by rewrite H4, H2.
    + split; [done|]. split; [split; [done|by intros []]|]. intros n. case_bool_decide; by subst.
  - rewrite lookup_empty_keys. split; [done|]. split; [split; [done|by intros []]|].
    intros n. rewrite lookup_empty_keys. by case_bool_decide.
Qed.
End Facts.

(** *** The store keeps the promise *)
Section Promise.
Context `{HostKeysLaws} (sha256 b64 : pystr -> pystr).
Definition pinned_in (f : KnownHostsStore) (n : pystr) (k : PKey) : bool :=
  match lookup_keys (_load_unlocked f) n with
  | Some l => match entry_get l (get_name k) with Some s => bool_decide (asbytes s = asbytes k) | None => false end
  | None => false
  end.
Definition same_key (k k' : PKey) : Prop := get_name k = get_name k' /\ asbytes k = asbytes k'.
#[export] Instance ssh_store : Pins.PinStore KnownHostsStore PKey := {
  ok f := plain (_load_unlocked f);
  fine host port k := clean_name (host_key_entry_name host port) /\ writable_key k;
  place := host_key_entry_name;
  same := same_key;
  known f n := negb (no_entry (lookup_keys (_load_unlocked f) n));
  trusts := pinned_in;
  judge m f host port k :=
    match decide_host_key sha256 b64 m f host port k with
    | Some r => if is_ok r then Pins.Accepted else Pins.Refused
    | None => Pins.FirstUse
    end;
  pin := add;
  drop_pin f host port := fst (forget f host port) }.

(** The decision, by what the store holds. *)
Lemma verify_entry_spec f host port k :
  verify f host port k =
  if no_entry (lookup f host port) then UNKNOWN
  else if pinned_in f (host_key_entry_name host port) k then MATCH else MISMATCH.
Proof.
  unfold verify, pinned_in, lookup. destruct (lookup_keys _ _) as [[|e l]|]; try done. cbn [no_entry].
  destruct (entry_get _ _); [|done]. by case_bool_decide.
Qed.
Lemma evaluate_spec m f host port k :
  let r := evaluate_host_key sha256 b64 m f host port k in
  is_ok (snd r) = pinned_in f (host_key_entry_name host port) k || (no_entry (lookup f host port) && bool_decide (m = TOFU)) /\
  fst r = (if no_entry (lookup f host port) && bool_decide (m = TOFU) then add f host port k else f).
Proof.
  cbv zeta. unfold evaluate_host_key, decide_host_key. rewrite verify_entry_spec.
  assert (Hn : no_entry (lookup f host port) = true -> pinned_in f (host_key_entry_name host port) k = false).
  { unfold pinned_in, lookup. destruct (lookup_keys _ _) as [[|e l]|]; done. }
  destruct (no_entry (lookup f host port)); [rewrite Hn by done; destruct m; by split|].
  destruct (pinned_in _ _ _); by split.
Qed.
Lemma no_entry_set (l : list (pystr * PKey)) t k : no_entry (Some (set_key l t k)) = false.
Proof. destruct l as [|[t' k'] l]; simpl; [done|]. by case_bool_decide. Qed.
#[export] Instance ssh_store_laws : Pins.PinStoreLaws KnownHostsStore PKey.
Proof.
  split; simpl.
  - intros f host port k Hp [Hc Hw]. by apply add_lookup_keys.
  - intros f host port Hp. by apply forget_lookup.
  - intros m f host port k _. unfold decide_host_key. rewrite verify_entry_spec. unfold lookup.
    destruct (no_entry _); simpl; [by destruct m|by destruct (pinned_in _ _ _)].
  - intros f host port k n Hp [Hc Hw]. rewrite (proj2 (add_lookup_keys f host port k Hp Hc Hw)).
    case_bool_decide; [|by rewrite orb_false_r]. by rewrite no_entry_set, orb_true_r.
  - intros f host port k n k' Hp [Hc Hw] Hn. unfold pinned_in.
    by rewrite (proj2 (add_lookup_keys f host port k Hp Hc Hw)), bool_decide_eq_false_2.
  - intros f host port k k' Hp [Hc Hw] [En Eb]. unfold pinned_in.
    rewrite (proj2 (add_lookup_keys f host port k Hp Hc Hw)), bool_decide_eq_true_2 by done.
    rewrite entry_get_set, bool_decide_eq_true_2 by done. by apply bool_decide_eq_true.
  - intros f host port k k' Hp [Hc Hw]. unfold pinned_in.
    rewrite (proj2 (add_lookup_keys f host port k Hp Hc Hw)), bool_decide_eq_true_2 by done.
    rewrite entry_get_set. case_bool_decide as En; [intros Eb%bool_decide_eq_true; by left|].
    destruct (lookup_keys _ _); [by right|]. done.
  - intros f n k _. unfold pinned_in. by destruct (lookup_keys _ _) as [[|e l]|].
  - intros f host port n Hp. destruct (forget_lookup f host port Hp) as (_ & _ & ->).
    case_bool_decide; simpl; [by rewrite andb_false_r|by rewrite andb_true_r].
  - intros f host port n k Hp Hn. unfold pinned_in. destruct (forget_lookup f host port Hp) as (_ & _ & ->).
    by rewrite bool_decide_eq_false_2.
Qed.

Notation entry := host_key_entry_name.
(** C32: Trust on first use, with connections that overlap.  Let a call that found
    its device unknown write the first pin of the device, the key it was
    shown.  Whatever happens afterwards, checks and writes of any calls in any
    order, writes that fail, other pins removed, until an administrator
    removes that very pin: every key accepted from the device is that key, or
    one shown to a call that had also found the device unknown before the pin
    was written; and if there was no such call, every later check of the
    device decides by that key alone, under either policy, and none pins
    another. *)
Theorem first_key_decides (s : Pins.sys) i host port k l :
  Pins.well_formed s -> Pins.waiting s !! i = Some (Pins.Call host port k) ->
  no_entry (lookup (Pins.store s) host port) = true ->
  Forall Pins.event_fine l -> Forall (Pins.leaves (entry host port)) l ->
  let s1 := Pins.do_event s (Pins.Write i) in
  let s2 := Pins.run s1 l in
  (forall c, c ∈ drop (length (Pins.accepted s1)) (Pins.accepted s2) -> Pins.place_of c = entry host port ->
     same_key k (Pins.shown c)
     \/ exists d, d ∈ Pins.waiting s1 /\ Pins.place_of d = entry host port /\ same_key (Pins.shown d) (Pins.shown c))
  /\ ((forall d, d ∈ Pins.waiting s1 -> Pins.place_of d <> entry host port) ->
      (forall m k', exists r, decide_host_key sha256 b64 m (Pins.store s2) host port k' = Some r
                              /\ (is_ok r = true <-> same_key k k'))
      /\ forall d, d ∈ Pins.waiting s2 -> Pins.place_of d <> entry host port).
Proof.
  intros Hwf Hi Hno Hf Hl s1 s2.
  destruct (Pins.first_write s i (Pins.Call host port k)) as [Ham Hse]; [done|done|done| | |].
  { simpl. by apply negb_false_iff. }
  { by apply list.Forall_true. }
  change (Pins.place_of (Pins.Call host port k)) with (entry host port) in *. split.
  - intros c Hc En. apply (Pins.run_among _ _ _ _ l) in Ham; [|done..]. exact (Pins.among_accepted _ _ _ _ Ham c Hc En).
  - intros Hnone. specialize (Hse Hnone). apply (Pins.run_settled _ _ _ l) in Hse; [|done..]. split; [|apply Hse].
    intros m k'. destruct (Pins.settled_judge _ _ _ m host port k' Hse eq_refl) as [[Hc Hs]|[Hc Hs]];
      simpl in Hc; (destruct (decide_host_key _ _ _ _ _ _ _) as [r|]; [|done]); exists r; (split; [done|]);
      destruct (is_ok r); done.
Qed.

(** The check before a netmiko connection: a known host passes without any
    traffic; an unknown one is refused without traffic under the strict
    policy; otherwise the device is asked once for its key, a failed answer
    is an error that changes nothing, and whenever the check passes the host
    has a pin to verify against. *)
Theorem ensure_pins_or_refuses m f host port probe :
  plain (_load_unlocked f) -> clean_name (entry host port) ->
  (forall k, probe = Ok k -> writable_key k) ->
  let '(f', r, asked) := ensure_host_key_trusted sha256 b64 m f host port probe in
  asked = no_entry (lookup f host port) && bool_decide (m = TOFU) /\
  (is_ok r = true <-> no_entry (lookup f host port) = false \/ (m = TOFU /\ is_ok probe = true)) /\
  (is_ok r = true -> no_entry (lookup f' host port) = false) /\
  (f' = f \/ exists k, probe = Ok k /\ asked = true /\ f' = add f host port k).
Proof.
  intros Hp Hc Hw. unfold ensure_host_key_trusted.
  destruct (no_entry (lookup f host port)) eqn:En; simpl; [|split_and!; auto; naive_solver].
  destruct m; simpl; [|split_and!; auto; naive_solver].
  destruct probe as [k|e]; simpl; [|split_and!; auto; naive_solver].
  destruct (evaluate_spec TOFU f host port k) as [H1 H2]. destruct (evaluate_host_key _ _ _ _ _ _ _) as [f' r].
  simpl in H1, H2. rewrite En in H1, H2. simpl in H2. rewrite orb_true_r in H1. subst f'.
  split; [done|]. split; [rewrite H1; naive_solver|]. split; [|eauto]. intros _. unfold lookup.
  rewrite (proj2 (add_lookup_keys f host port k Hp Hc (Hw k eq_refl))), bool_decide_eq_true_2 by done.
  destruct (set_key _ _ _) eqn:Es; [|done]. destruct (default [] _) as [|[]]; simpl in Es; [done|]. by case_bool_decide.
Qed.

(** Two first contacts at once: both find the host unknown, both are accepted,
    and the pin that stays is the one written last. *)
Lemma first_use_race f host port k1 k2 :
  plain (_load_unlocked f) -> clean_name (entry host port) -> writable_key k1 -> writable_key k2 ->
  get_name k1 = get_name k2 -> asbytes k1 <> asbytes k2 -> no_entry (lookup f host port) = true ->
  verify f host port k1 = UNKNOWN /\ verify f host port k2 = UNKNOWN /\
  let f2 := add (add f host port k1) host port k2 in
  verify f2 host port k1 = MISMATCH /\ verify f2 host port k2 = MATCH.
Proof.
  intros Hp Hc Hw1 Hw2 Hn Hb Hno. rewrite !(verify_entry_spec f), Hno. split; [done|]. split; [done|].
  assert (He : lookup_keys (_load_unlocked f) (entry host port) = None).
  { unfold lookup in Hno. destruct (lookup_keys _ _) as [[|e l']|] eqn:E; try done. by destruct (plain_entry _ _ _ Hp E). }
  destruct (add_lookup_keys f host port k1 Hp Hc Hw1) as [Hp1 H1].
  destruct (add_lookup_keys _ host port k2 Hp1 Hc Hw2) as [_ H2].
  specialize (H1 (entry host port)). specialize (H2 (entry host port)). rewrite bool_decide_eq_true_2 in H1, H2 by done.
  rewrite He in H1. cbn [from_option id set_key] in H1. rewrite H1 in H2. cbn [from_option id set_key] in H2. rewrite bool_decide_eq_true_2 in H2 by done.
  cbv zeta. unfold verify, lookup. rewrite H2. unfold entry_get. simpl.
  rewrite !bool_decide_eq_true_2 by congruence. simpl.
  rewrite (bool_decide_eq_false_2 (asbytes k2 = asbytes k1)), (bool_decide_eq_true_2 (asbytes k2 = asbytes k2)) by congruence. done.
Qed.
End Promise.

End Ssh.

(** ** TLS certificates *)
Module Tls.
Section Tls.
(** The SHA-256 fingerprint of a certificate. *)
Context (fingerprint : pystr -> pystr).
(** The file: absent, unreadable, or a JSON object. *)
Inductive pin_file : Type := NoFile | Unreadable | Stored (pins : gmap pystr pystr).
Inductive TLSPinError : Type :=
| StoreUnreadable
| TLSPinUnknownError (presented : pystr)
| TLSPinMismatchError (pinned presented : pystr).
Definition _key (host : pystr) (port : Z) : pystr := Ssh.bracketed host port.
Definition _load (f : pin_file) : res TLSPinError (gmap pystr pystr) :=
  match f with NoFile => Ok ∅ | Unreadable => Raise StoreUnreadable | Stored m => Ok m end.
Definition _save (pins : gmap pystr pystr) : pin_file := Stored pins.
Definition pinned (f : pin_file) (host : pystr) (port : Z) : res TLSPinError (option pystr) :=
  let! m := _load f in Ok (m !! _key host port).
Definition forget (f : pin_file) (host : pystr) (port : Z) : pin_file * res TLSPinError bool :=
  match _load f with
  | Raise e => (f, Raise e)
  | Ok m => match m !! _key host port with
            | None => (f, Ok false)
            | Some _ => (_save (delete (_key host port) m), Ok true)
            end
  end.
Definition check_ (m : HostKeyPolicyMode) (f : pin_file) (host : pystr) (port : Z) (der : pystr)
    : pin_file * res TLSPinError unit :=
  let seen := fingerprint der in
  match _load f with
  | Raise e => (f, Raise e)
  | Ok pins =>
      match pins !! _key host port with
      | Some known => if bool_decide (known = seen) then (f, Ok tt) else (f, Raise (TLSPinMismatchError known seen))
      | None =>
          if bool_decide (m = STRICT) then (f, Raise (TLSPinUnknownError seen))
          else (_save (<[_key host port := seen]> pins), Ok tt)
      end
  end.
(** [entries], before they are sorted; a key that does not split raises. *)
Definition entry_of (kv : pystr * pystr) : res unit (pystr * Z * pystr) :=
  match Ssh.rpartition (py "]:") (drop 1 (fst kv)) with
  | Some (host, port) => match py_int port with Some n => Ok (host, n, snd kv) | None => Raise tt end
  | None => match py_int (drop 1 (fst kv)) with Some n => Ok ([], n, snd kv) | None => Raise tt end
  end.

(** An unreadable store trusts nobody; a readable one keeps the promise. *)
Definition readable (f : pin_file) : Prop := f <> Unreadable.
Definition pins_of (f : pin_file) : gmap pystr pystr := match f with Stored m => m | _ => ∅ end.
#[export] Instance tls_store : Pins.PinStore pin_file pystr := {
  ok := readable;
  fine _ _ _ := True;
  place := _key;
  same der der' := fingerprint der = fingerprint der';
  known f n := bool_decide (is_Some (pins_of f !! n));
  trusts f n der := bool_decide (pins_of f !! n = Some (fingerprint der));
  judge m f host port der :=
    match pins_of f !! _key host port with
    | Some known => if bool_decide (known = fingerprint der) then Pins.Accepted else Pins.Refused
    | None => if bool_decide (m = STRICT) then Pins.Refused else Pins.FirstUse
    end;
  pin f host port der := _save (<[_key host port := fingerprint der]> (pins_of f));
  drop_pin f host port := fst (forget f host port) }.
Lemma load_readable f : readable f -> _load f = Ok (pins_of f).
Proof. by destruct f. Qed.
(** [check] holds the lock throughout. *)
Lemma check_offer m f host port der :
  readable f ->
  let r := check_ m f host port der in (fst r, is_ok (snd r)) = Pins.offer m f host port der.
Proof.
  intros Hr. unfold check_, Pins.offer. rewrite (load_readable f Hr). simpl. destruct (pins_of f !! _key host port) as [known|].
  - by case_bool_decide.
  - by destruct m.
Qed.
Lemma forget_spec f host port :
  readable f ->
  readable (fst (forget f host port)) /\ pins_of (fst (forget f host port)) = delete (_key host port) (pins_of f) /\
  snd (forget f host port) = Ok (bool_decide (is_Some (pins_of f !! _key host port))).
Proof.
  intros Hr. unfold forget. rewrite (load_readable f Hr). destruct (pins_of f !! _key host port) as [v|] eqn:E; simpl.
  - done.
  - by rewrite delete_id.
Qed.
#[export] Instance tls_store_laws : Pins.PinStoreLaws pin_file pystr.
Proof.
  split; simpl.
  - done.
  - intros f host port Hr. by apply forget_spec.
  - intros m f host port der _. destruct (pins_of f !! _key host port) as [v|].
    + rewrite (bool_decide_eq_true_2 (is_Some _)) by eauto. do 2 case_bool_decide; congruence.
    + rewrite (bool_decide_eq_false_2 (is_Some None)) by by intros []. by destruct m.
  - intros f host port der n _ _. destruct (decide (n = _key host port)) as [->|Hn].
    + rewrite lookup_insert_eq, (bool_decide_eq_true_2 (_ = _)), orb_true_r by done. by apply bool_decide_eq_true_2.
    + by rewrite lookup_insert_ne, (bool_decide_eq_false_2 (n = _)), orb_false_r by done.
  - intros f host port der n der' _ _ Hn. by rewrite lookup_insert_ne by done.
  - intros f host port der der' _ _ E. rewrite lookup_insert_eq, E. by apply bool_decide_eq_true_2.
  - intros f host port der der' _ _. rewrite lookup_insert_eq. intros [= E]%bool_decide_eq_true. by left.
  - intros f n der _ E%bool_decide_eq_true. rewrite E. by apply bool_decide_eq_true_2.
  - intros f host port n Hr. destruct (forget_spec f host port Hr) as (_ & -> & _).
    destruct (decide (n = _key host port)) as [->|Hn].
    + rewrite lookup_delete_eq, (bool_decide_eq_true_2 (_ = _)), andb_false_r by done. by apply bool_decide_eq_false_2; intros [].
    + by rewrite lookup_delete_ne, (bool_decide_eq_false_2 (n = _)), andb_true_r by done.
  - intros f host port n der Hr Hn. destruct (forget_spec f host port Hr) as (_ & -> & _). by rewrite lookup_delete_ne.
Qed.

(** The promise for certificates, in one process, whose lock is held from the
    check to the write: once a device's certificate is pinned, only
    certificates of that fingerprint are accepted from it, whatever else
    happens, until that pin is removed; and an unreadable pin file accepts
    none and is left as it is.  Two processes share the file without a lock. *)
Theorem first_certificate_decides f host port der l m der' :
  (readable f -> pins_of f !! _key host port = None ->
   Forall (Pins.leaves (_key host port)) (flat_map (Pins.events_of (Key := pystr)) l) ->
   is_ok (snd (check_ m (foldl Pins.do_act (fst (check_ TOFU f host port der)) l) host port der')) = true <->
   fingerprint der = fingerprint der') /\
  snd (check_ m Unreadable host port der) = Raise StoreUnreadable /\ fst (check_ m Unreadable host port der) = Unreadable.
Proof.
  split; [|done]. intros Hr Hn Hl.
  assert (Hf1 : fst (check_ TOFU f host port der) = Stored (<[_key host port := fingerprint der]> (pins_of f))).
  { unfold check_. rewrite (load_readable f Hr), Hn. done. }
  rewrite Hf1. set (f1 := Stored _).
  assert (Ht : forall k', Pins.trusts f1 (_key host port) k' = true <-> Pins.same der k').
  { intros k'. simpl. rewrite lookup_insert_eq, bool_decide_eq_true. split; [by intros [= ?]|by intros ->]. }
  destruct (Pins.acts_settled (_key host port) der f1 l) as [acc Hs]; [done| |done| |done|].
  { simpl. rewrite lookup_insert_eq. by apply bool_decide_eq_true_2. }
  { apply list.Forall_forall. by intros []. }
  rewrite <- (Pins.offer_settled _ _ _ m host port der' Hs eq_refl). simpl.
  destruct Hs as [[Hok _] _ _ _]. simpl in Hok. pose proof (check_offer m _ host port der' Hok) as E. simpl in E.
  by rewrite <- E.
Qed.
Lemma entry_of_key host port v : 0 <= port -> entry_of (_key host port, v) = Ok (host, port, v).
Proof.
  intros Hp. unfold entry_of, _key, Ssh.bracketed. cbn [fst snd].
  change (drop 1 _) with (host ++ py "]:" ++ str_of_int port).
  rewrite Ssh.rpartition_last by (apply Ssh.digits_no_bracket, Ssh.port_text; done). by rewrite py_int_str_of_int.
Qed.
End Tls.
End Tls.

(** ** A concrete HostKeys library, for the witnesses *)
Module Sample.
Import Ssh.
Record key : Type := Key { kt : pystr; kb : pystr }.
Notation keys := (gmap pystr (list (pystr * key))).
Definition one_word (s : pystr) : Prop := has_char " "%char s = false.
Definition add_to (m : keys) (n : pystr) (k : key) : keys := <[n := set_key (default [] (m !! n)) (kt k) k]> m.
Definition load_line (m : keys) (line : pystr) : keys :=
  match split_on " "%char line with [n; t; b] => add_to m n (Key t b) | _ => m end.
Definition good_key (k : key) : Prop := one_word (kt k) /\ one_word (kb k).
Definition good (m : keys) : Prop :=
  forall n l, m !! n = Some l ->
    l <> [] /\ NoDup (map fst l) /\ one_word n /\ Forall (fun e => fst e = kt (snd e) /\ good_key (snd e)) l.
#[export] Instance lib : HostKeysLib := {
  PKey := key; get_name := kt; asbytes := kb; get_base64 := kb; HostKeys := keys; no_keys := ∅;
  load := foldl load_line ∅; lookup_keys m n := m !! n; add_key := add_to; names m := map fst (map_to_list m);
  plain := good; clean_name := one_word; writable_key := good_key }.

Lemma load_line_of m n e :
  one_word n -> fst e = kt (snd e) -> good_key (snd e) -> load_line m (line_of n e) = add_to m n (snd e).
Proof.
  destruct e as [t [t' b]]. simpl. intros Hn -> [Ht Hb]. unfold load_line, line_of. cbn [fst snd get_base64 lib kb].
  rewrite !split_on_app by done. by rewrite split_on_none.
Qed.
Lemma set_key_types {A} (l : list (pystr * A)) t k : set_key l t k <> [] /\ (NoDup (map fst l) -> NoDup (map fst (set_key l t k))) /\
  forall t', t' ∈ map fst (set_key l t k) -> t' = t \/ t' ∈ map fst l.
Proof.
  induction l as [|[t1 k1] l (_ & IH1 & IH2)]; simpl.
  - split_and!; [done|intros; by apply NoDup_singleton|set_solver].
  - case_bool_decide as E; simpl; [subst; split_and!; set_solver|]. split_and!; [done| |set_solver].
    intros Hn. inversion Hn; subst. constructor; [|auto]. intros [?|?]%IH2; [congruence|done].
Qed.
Lemma set_key_forall {A} (P : pystr * A -> Prop) l t k : Forall P l -> P (t, k) -> Forall P (set_key l t k).
Proof. intros Hl Hk. induction Hl as [|[t1 k1] l H1 H2 IH]; simpl; [by constructor|]. case_bool_decide; by constructor. Qed.
Lemma add_good m n k : good m -> one_word n -> good_key k -> good (add_to m n k).
Proof.
  intros Hm Hn Hk n' l. unfold add_to. rewrite lookup_insert_Some. intros [[<- <-]|[_ Hl]]; [|by apply Hm].
  destruct (set_key_types (default [] (m !! n)) (kt k) k) as (H1 & H2 & _).
  assert (Hd : NoDup (map fst (default [] (m !! n))) /\ Forall (fun e => fst e = kt (snd e) /\ good_key (snd e)) (default [] (m !! n))).
  { destruct (m !! n) as [l'|] eqn:E; simpl; [|split; constructor]. by destruct (Hm n l' E) as (_ & ? & _ & ?). }
  refine (conj H1 (conj (H2 (proj1 Hd)) (conj Hn _))). apply set_key_forall; [apply Hd|by split].
Qed.
Lemma load_entry m n l pre :
  one_word n -> Forall (fun e => fst e = kt (snd e) /\ good_key (snd e)) l -> default [] (m !! n) = pre ->
  NoDup (map fst (pre ++ l)) -> l <> [] -> foldl load_line m (map (line_of n) l) = <[n := pre ++ l]> m.
Proof.
  intros Hn Hl. revert m pre. induction Hl as [|e l [He1 He2] Hl IH]; intros m pre Hp Hd Hne; [done|]. simpl.
  rewrite (load_line_of m n e Hn He1 He2).
  assert (Ha : add_to m n (snd e) = <[n := pre ++ [e]]> m).
  { unfold add_to. rewrite Hp, set_key_new.
    - rewrite <- He1. by destruct e.
    - rewrite <- He1. rewrite map_app in Hd. apply list.NoDup_app in Hd as (_ & Hd & _). intros Hin. apply (Hd _ Hin). left. }
  rewrite Ha. destruct (decide (l = [])) as [->|Hl0]; [done|].
  rewrite (IH _ (pre ++ [e])); [|by rewrite lookup_insert_eq|by rewrite <- app_assoc|done].
  by rewrite insert_insert_eq, <- app_assoc.
Qed.
Lemma load_names (m : keys) ns acc :
  good m -> NoDup ns -> (forall n, n ∈ ns -> is_Some (m !! n) /\ acc !! n = None) ->
  forall n', foldl load_line acc (flat_map (fun n => map (line_of n) (default [] (m !! n))) ns) !! n' =
    if bool_decide (n' ∈ ns) then m !! n' else acc !! n'.
Proof.
  intros Hm. revert acc. induction ns as [|n ns IH]; intros acc Hn Hns n'; [done|]. cbn [flat_map].
  inversion Hn as [|? ? Hnin Hn']; subst. destruct (Hns n) as [[l Hl] Ha]; [by left|].
  destruct (Hm n l Hl) as (Hne & Hd & Hw & Hall). rewrite foldl_app. cbv beta. change (@PKey lib) with key. rewrite Hl. cbn [from_option id].
  pose proof (load_entry acc n l [] Hw Hall ltac:(by rewrite Ha) Hd Hne) as E. change (@PKey lib) with key in E.
  rewrite E, IH; [|done|].
  - cbn [app]. destruct (decide (n' = n)) as [->|Hnn].
    + rewrite (bool_decide_eq_false_2 (n ∈ ns)), bool_decide_eq_true_2, lookup_insert_eq by (done || by left). done.
    + rewrite lookup_insert_ne by done. do 2 case_bool_decide; set_solver.
  - intros x Hx. destruct (Hns x) as [? ?]; [by right|]. split; [done|]. rewrite lookup_insert_ne; [done|]. by intros ->.
Qed.
#[export] Instance laws : HostKeysLaws.
Proof.
  split; cbn [lib PKey get_name asbytes HostKeys no_keys load lookup_keys add_key names plain clean_name writable_key].
  - intros n l Hl. by rewrite lookup_empty in Hl.
  - intros n. apply lookup_empty.
  - apply add_good.
  - intros h n k n' _ _ _. unfold add_to. destruct (decide (n' = n)) as [->|].
    + by rewrite lookup_insert_eq, bool_decide_eq_true_2.
    + by rewrite lookup_insert_ne, bool_decide_eq_false_2.
  - intros h n _. rewrite list_elem_of_fmap. split.
    + intros ([n' l] & -> & Hin%elem_of_map_to_list). eauto.
    + intros [l Hl]. exists (n, l). split; [done|]. by apply elem_of_map_to_list.
  - intros h _. apply NoDup_fst_map_to_list.
  - intros h n l Hh Hl. by apply Hh.
  - intros h Hh.
    assert (E : forall n, foldl load_line ∅ (_atomic_save (H := lib) h) !! n = h !! n).
    { intros n. unfold _atomic_save. cbn [lib lookup_keys names].
      rewrite (load_names h (map fst (map_to_list h)) ∅ Hh (NoDup_fst_map_to_list h)).
      - case_bool_decide as Hn; [done|]. rewrite lookup_empty. destruct (h !! n) eqn:En; [|done]. destruct Hn.
        apply list_elem_of_fmap. exists (n, l). split; [done|]. by apply elem_of_map_to_list.
      - intros m. rewrite list_elem_of_fmap. intros ([m' l] & -> & Hin%elem_of_map_to_list). split; [eauto|apply lookup_empty]. }
    split; [|exact E]. intros n l Hl. rewrite E in Hl. by apply Hh.
Qed.
End Sample.

Definition device_key : Sample.key := Sample.Key (py "ssh-ed25519") (py "AAAA1").
#[local] Instance sample_store : Pins.PinStore Ssh.KnownHostsStore Sample.key := Ssh.ssh_store (H := Sample.lib) id id.
(** A first contact that is about to write its pin, and what happens next:
    another device's first contact, its pin removed, a check that finds the
    device's host known. *)
Definition first_contact : Pins.sys := Pins.Sys (S := Ssh.KnownHostsStore) None [Pins.Call (py "10.0.0.1") 22 device_key] [].
Definition other_events : list (Pins.event (Key := Sample.key)) :=
  [Pins.Check TOFU (Pins.Call (py "10.0.0.2") 22 device_key); Pins.Check TOFU (Pins.Call (py "10.0.0.1") 22 device_key);
   Pins.Write 0; Pins.Forget (py "10.0.0.2") 22].
Lemma first_key_decides_witness :
  let s2 := Pins.run (Pins.do_event first_contact (Pins.Write 0)) other_events in
  length (Pins.accepted s2) = 3%nat /\
  exists r, Ssh.decide_host_key (H := Sample.lib) id id TOFU (Pins.store s2) (py "10.0.0.1") 22 (Sample.Key (py "ssh-ed25519") (py "AAAA2")) = Some r
    /\ (is_ok r = true <-> Ssh.same_key (H := Sample.lib) device_key (Sample.Key (py "ssh-ed25519") (py "AAAA2"))).
Proof.
  split; [vm_compute; reflexivity|].
  destruct (Ssh.first_key_decides (H := Sample.lib) (H0 := Sample.laws) id id first_contact 0 (py "10.0.0.1") 22 device_key other_events)
    as [_ W].
  - split; [intros n l Hl; discriminate Hl|]. repeat constructor.
  - reflexivity.
  - reflexivity.
  - repeat constructor.
  - repeat constructor. discriminate.
  - apply W. intros d Hd. apply elem_of_nil in Hd. destruct Hd.
Defined.
Lemma ensure_pins_or_refuses_witness :
  let '(f', r, asked) := Ssh.ensure_host_key_trusted (H := Sample.lib) id id TOFU None (py "10.0.0.1") 22 (Ok device_key) in
  asked = true /\ (is_ok r = true -> Ssh.no_entry (Ssh.lookup (H := Sample.lib) f' (py "10.0.0.1") 22) = false).
Proof.
  pose proof (Ssh.ensure_pins_or_refuses (H := Sample.lib) (H0 := Sample.laws) id id TOFU None (py "10.0.0.1") 22 (Ok device_key)) as W.
  destruct (Ssh.ensure_host_key_trusted _ _ _ _ _ _ _) as [[f' r] asked].
  destruct W as (Ha & _ & Hr & _).
  - intros n l Hl. discriminate Hl.
  - reflexivity.
  - intros k [= <-]. split; reflexivity.
  - split; [exact Ha|exact Hr].
Defined.
Lemma first_certificate_decides_witness :
  is_ok (snd (Tls.check_ id STRICT (foldl (Pins.do_act (H := Tls.tls_store id)) (fst (Tls.check_ id TOFU Tls.NoFile (py "fw") 443 (py "A")))
     [Pins.Connect TOFU (Pins.Call (py "fw2") 443 (py "B"))]) (py "fw") 443 (py "A"))) = true <-> py "A" = py "A".
Proof.
  destruct (Tls.first_certificate_decides id Tls.NoFile (py "fw") 443 (py "A") [Pins.Connect TOFU (Pins.Call (py "fw2") 443 (py "B"))] STRICT (py "A"))
    as [W _].
  apply W; [discriminate|reflexivity|repeat constructor].
Defined.
