(* ===== verification/Alerts.v ===== *)
(** * Alerts and their messages
    (src/app/modules/alerts/engine.py, policy.py, router.py, src/app/models/notification.py)

    A cycle evaluates the rules, turns new alerts, reminders and resolved
    notices into deliveries and sends what is due.  The tables are lists in
    the order of their ids; times are naive UTC microseconds; a rule's
    parameters are in millionths.  What an evaluator reports, the local time
    of day and the midnight of the server's time zone, and the outcome of a
    send are arguments.  Not modelled: the texts of the messages, the
    webhooks' health columns, the permission checks of the routes. *)
From stdpp Require Import sorting.
From S2P Require Import Prelude PyStr.

Definition minutes (n : Z) : Z := n * 60 * 1000000.
Definition hours (n : Z) : Z := minutes (60 * n).
Definition days (n : Z) : Z := hours (24 * n).

Inductive Severity : Type := info | warning | critical.
Inductive EventKind : Type := state | event.
Inductive AlertStatus : Type := ALERT_ACTIVE | ALERT_ACKNOWLEDGED | ALERT_RESOLVED.
Inductive Channel : Type := CHANNEL_EMAIL | CHANNEL_SMS | CHANNEL_SYSLOG | CHANNEL_WEBHOOK (hook : Z).
Inductive MessageKind : Type := raised | reminder | resolved_notice | test.
Inductive DeliveryStatus : Type := pending | sent | failed | skipped.
Inductive AssetScope : Type := scope_all | matching | specific.
#[export] Instance Severity_dec : EqDecision Severity.
Proof. solve_decision. Defined.
#[export] Instance EventKind_dec : EqDecision EventKind.
Proof. solve_decision. Defined.
#[export] Instance AlertStatus_dec : EqDecision AlertStatus.
Proof. solve_decision. Defined.
#[export] Instance Channel_dec : EqDecision Channel.
Proof. solve_decision. Defined.
#[export] Instance MessageKind_dec : EqDecision MessageKind.
Proof. solve_decision. Defined.
#[export] Instance DeliveryStatus_dec : EqDecision DeliveryStatus.
Proof. solve_decision. Defined.

Record Recipients : Type := MkRecipients {
  roles : list pystr; user_ids : list Z; r_emails : list pystr; r_phones : list pystr; owner : bool }.
Record AssetFilter : Type := MkFilter { type_ids : list Z; zone_ids : list Z; asset_ids : list Z }.
Record NotificationRule : Type := MkRule {
  rule_id : Z; event_type : pystr; enabled : bool; rule_severity : Severity; params : gmap pystr Z;
  asset_scope : AssetScope; asset_filter : AssetFilter; recipients : Recipients; channels : list Channel;
  repeat_minutes : Z; notify_resolved : bool; quiet_start : option pystr; quiet_end : option pystr;
  group_minutes : Z; builtin : bool; last_fired_at : option Z; last_sent_at : option Z; rule_created_at : Z }.
Record Alert : Type := MkAlert {
  alert_id : Z; alert_rule : option Z; alert_event : pystr; severity : Severity; fingerprint : pystr;
  title : pystr; detail : option pystr; asset_id : option Z; source_label : option pystr; owner_user_id : option Z;
  status : AlertStatus; first_seen_at : Z; last_seen_at : Z; acknowledged_at : option Z; acknowledged_by : option Z;
  resolved_at : option Z; resolved_by : option Z; notified_at : option Z; last_notified_at : option Z;
  reminders_sent : Z; resolved_notice_pending : bool }.
Record NotificationDelivery : Type := MkDelivery {
  delivery_id : Z; alert_ids : list Z; delivery_rule : Z; channel : Channel; recipient : option pystr; kind : MessageKind;
  delivery_severity : Severity; delivery_status : DeliveryStatus; attempts : Z; next_attempt_at : Z;
  error : option pystr; created_at : Z; sent_at : option Z }.
Record Problem : Type := MkProblem {
  p_key : pystr; p_title : pystr; p_detail : option pystr; p_asset : option Z; p_label : option pystr; p_owner : option Z }.
Record EventType : Type := MkEvent { code : pystr; event_kind : EventKind; every : Z; defaults : gmap pystr Z }.

Definition is_open (a : Alert) : bool := negb (bool_decide (status a = ALERT_RESOLVED)).

(** ** Rules *)
(** [rule_params] *)
Definition rule_params (e : EventType) (r : NotificationRule) : gmap pystr Z := params r ∪ defaults e.
Definition mem (x : Z) (l : list Z) : bool := bool_decide (x ∈ l).
(** [in_scope]; the map gives an asset's type and risk zone. *)
Definition in_scope (r : NotificationRule) (a : option Z) (assets : gmap Z (option Z * option Z)) : bool :=
  match asset_scope r, a with
  | scope_all, _ | _, None => true
  | specific, Some a => mem a (asset_ids (asset_filter r))
  | matching, Some a =>
      let '(type_id, zone_id) := default (None, None) (assets !! a) in
      let types := type_ids (asset_filter r) in
      let zones := zone_ids (asset_filter r) in
      (bool_decide (types = []) || match type_id with Some t => mem t types | None => false end) &&
      (bool_decide (zones = []) || match zone_id with Some z => mem z zones | None => false end)
  end.

(** ** 1. Evaluate *)
Definition EVENT_LOOKBACK : Z := hours 24.
Definition HOLD_PARAM (event_code : pystr) : option pystr :=
  if bool_decide (event_code = py "system.task_stopped") then Some (py "minutes") else None.

(** The tables, and what the worker keeps in memory: since when a held problem
    has been seen. *)
Record Db : Type := MkDb {
  rules : list NotificationRule; alerts : list Alert; deliveries : list NotificationDelivery;
  next_alert : Z; next_delivery : Z; next_rule : Z; held_since : gmap pystr Z }.

Definition prefix (rule : Z) : pystr := str_of_int rule ++ py ":".
(** [d[k] = v]: a key keeps its first place and takes its last value. *)
Fixpoint dict_set {A} (l : list (pystr * A)) (k : pystr) (v : A) : list (pystr * A) :=
  match l with
  | [] => [(k, v)]
  | (k', v') :: l => if bool_decide (k' = k) then (k, v) :: l else (k', v') :: dict_set l k v
  end.
Definition seen_problems (rule : Z) (ps : list Problem) : list (pystr * Problem) :=
  foldl (fun l p => dict_set l (prefix rule ++ p_key p) p) [] ps.
Definition has_fp (fp : pystr) (l : list Alert) : bool := existsb (fun a => bool_decide (fingerprint a = fp)) l.
Definition of_rule (rule : Z) (a : Alert) : bool := bool_decide (alert_rule a = Some rule).
Definition open_alerts (rule : Z) (l : list Alert) : list Alert := List.filter (fun a => of_rule rule a && is_open a) l.

Definition refresh (r : NotificationRule) (p : Problem) (now : Z) (a : Alert) : Alert :=
  a {{ last_seen_at := now; title := p_title p; detail := p_detail p; source_label := p_label p; severity := rule_severity r }}.
Definition new_alert (id : Z) (r : NotificationRule) (e : EventType) (fp : pystr) (p : Problem) (now : Z) : Alert :=
  MkAlert id (Some (rule_id r)) (code e) (rule_severity r) fp (p_title p) (p_detail p) (p_asset p) (p_label p) (p_owner p)
    ALERT_ACTIVE now now None None None None None None 0 false.
Definition update_where (p : Alert -> bool) (f : Alert -> Alert) (l : list Alert) : list Alert :=
  map (fun a => if p a then f a else a) l.

(** The walk over the problems seen: the table, the held problems, the count. *)
Record Walk : Type := MkWalk { w_alerts : list Alert; w_next : Z; w_held : gmap pystr Z; w_raised : Z }.
Definition held_long_enough (hold : option Z) (now : Z) (first : Z) : bool :=
  match hold with Some d => negb (now - first <? d) | None => true end.
(** The unique index on open fingerprints refuses a second open alert. *)
Definition raise_alert (r : NotificationRule) (e : EventType) (fp : pystr) (p : Problem) (now : Z) (w : Walk) : Walk :=
  if existsb (fun a => bool_decide (fingerprint a = fp) && is_open a) (w_alerts w) then w
  else MkWalk (w_alerts w ++ [new_alert (w_next w) r e fp p now]) (w_next w + 1) (w_held w) (w_raised w + 1).
Definition walk_one (r : NotificationRule) (e : EventType) (hold : option Z) (open_ known : list Alert) (now : Z)
    (w : Walk) (fpp : pystr * Problem) : Walk :=
  let '(fp, p) := fpp in
  if has_fp fp open_ then
    MkWalk (update_where (fun a => of_rule (rule_id r) a && is_open a && bool_decide (fingerprint a = fp)) (refresh r p now) (w_alerts w))
      (w_next w) (w_held w) (w_raised w)
  else if has_fp fp known then w
  else match hold with
       | None => raise_alert r e fp p now w
       | Some _ =>
           let first := default now (w_held w !! fp) in
           let w := MkWalk (w_alerts w) (w_next w) (<[fp := first]> (w_held w)) (w_raised w) in
           if held_long_enough hold now first then raise_alert r e fp p now w else w
       end.
Definition resolve_by_itself (r : NotificationRule) (now : Z) (a : Alert) : Alert :=
  a {{ status := ALERT_RESOLVED; resolved_at := Some now; resolved_by := None;
       resolved_notice_pending :=
         if notify_resolved r && match notified_at a with Some _ => true | None => false end && negb (bool_decide (channels r = []))
         then true else resolved_notice_pending a }}.
Definition put_alerts (l : list Alert) (n : Z) (h : gmap pystr Z) (d : Db) : Db :=
  d {{ alerts := l; next_alert := n; held_since := h }}.
Definition put_rule (r : NotificationRule) (d : Db) : Db :=
  d {{ rules := map (fun x => if rule_id x =? rule_id r then r else x) (rules d) }}.
Definition hold_of (e : EventType) (ps : gmap pystr Z) : option Z :=
  key ← HOLD_PARAM (code e); Some (60 * default 0 (ps !! key)).
Definition _apply (r : NotificationRule) (e : EventType) (ps : list Problem) (params_ : gmap pystr Z) (now : Z) (d : Db)
    : Db * (Z * Z) :=
  let seen := seen_problems (rule_id r) ps in
  let open_ := open_alerts (rule_id r) (alerts d) in
  let known := match event_kind e with event => alerts d | state => [] end in
  let w := foldl (walk_one r e (hold_of e params_) open_ known now) (MkWalk (alerts d) (next_alert d) (held_since d) 0) seen in
  let held := filter (fun kv => is_prefix (prefix (rule_id r)) (fst kv) = false \/ fst kv ∈ map fst seen) (w_held w) in
  let gone := fun a => of_rule (rule_id r) a && is_open a && negb (bool_decide (fingerprint a ∈ map fst seen)) in
  let '(l, n_resolved) :=
    match event_kind e with
    | state => (update_where gone (resolve_by_itself r now) (w_alerts w), Z.of_nat (length (List.filter gone open_)))
    | event => (w_alerts w, 0)
    end in
  let d := put_alerts l (w_next w) held d in
  ((if 0 <? w_raised w then put_rule (r {{ last_fired_at := Some now }}) d else d), (w_raised w, n_resolved)).

(** [evaluate]: the rules of each event that is due, event by event. *)
Section Evaluate.
Context (EVENTS : list EventType).
(** What an evaluator answers for its parameters and time; [None] is an exception. *)
Context (run : EventType -> gmap pystr Z -> Z -> option (list Problem)).
Context (assets : gmap Z (option Z * option Z)).
Definition event_by_code (c : pystr) : option EventType := List.find (fun e => bool_decide (code e = c)) EVENTS.
Definition selected (only : option (list pystr)) (r : NotificationRule) : bool :=
  enabled r && bool_decide (is_Some (event_by_code (event_type r))) &&
  match only with None => true | Some l => bool_decide (event_type r ∈ l) end.
Fixpoint firsts_of (seen : list pystr) (l : list pystr) : list pystr :=
  match l with [] => [] | c :: l => if bool_decide (c ∈ seen) then firsts_of seen l else c :: firsts_of (c :: seen) l end.
Definition since_of (now : Z) (r : NotificationRule) : Z := Z.max (rule_created_at r) (now - EVENT_LOOKBACK).
Definition evaluate_rule (e : EventType) (now : Z) (r : NotificationRule) (s : Db * (Z * Z)) : Db * (Z * Z) :=
  let '(d, (n, m)) := s in
  match run e (rule_params e r) (match event_kind e with event => since_of now r | state => 0 end) with
  | None => s
  | Some ps =>
      let '(d, (a, b)) := _apply r e (List.filter (fun p => in_scope r (p_asset p) assets) ps) (rule_params e r) now d in
      (d, (n + a, m + b))
  end.
Definition due_event (force : bool) (clock : Z) (last_checked : gmap pystr Z) (e : EventType) : bool :=
  force || match last_checked !! code e with Some t => negb (clock - t <? every e) | None => true end.
Definition evaluate_event (force : bool) (now clock : Z) (chosen : list NotificationRule) (c : pystr)
    (s : gmap pystr Z * (Db * (Z * Z))) : gmap pystr Z * (Db * (Z * Z)) :=
  match event_by_code c with
  | Some e =>
      if due_event force clock (fst s) e then
        (<[c := clock]> (fst s),
         foldl (fun s r => evaluate_rule e now r s) (snd s) (List.filter (fun r => bool_decide (event_type r = c)) chosen))
      else s
  | None => s
  end.
Definition evaluate (now clock : Z) (force : bool) (only : option (list pystr)) (last_checked : gmap pystr Z) (d : Db)
    : gmap pystr Z * (Db * (Z * Z)) :=
  let chosen := List.filter (selected only) (rules d) in
  foldl (fun s c => evaluate_event force now clock chosen c s) (last_checked, (d, (0, 0))) (firsts_of [] (map event_type chosen)).
End Evaluate.

(** ** Lifecycle by hand (engine.py, router.py) *)
Definition put_ack (now user : Z) (a : Alert) : Alert :=
  a {{ status := ALERT_ACKNOWLEDGED; acknowledged_at := Some now; acknowledged_by := Some user }}.
Definition acknowledge (now user : Z) (a : Alert) : Alert :=
  if bool_decide (status a = ALERT_ACTIVE) then put_ack now user a else a.
Definition put_resolved (now : Z) (user : option Z) (a : Alert) : Alert :=
  a {{ status := ALERT_RESOLVED; resolved_at := Some now; resolved_by := user; resolved_notice_pending := false }}.
Definition resolve (now : Z) (user : option Z) (a : Alert) : Alert := if is_open a then put_resolved now user a else a.
Definition on_alerts (f : Alert -> Alert) (p : Alert -> bool) (d : Db) : Db := d {{ alerts := update_where p f (alerts d) }}.
Definition with_id (id : Z) (a : Alert) : bool := alert_id a =? id.
(** The refusals of the routes. *)
Inductive http_error : Type := NotFound | Conflict | Unprocessable.
Definition find_alert (d : Db) (id : Z) : option Alert := List.find (with_id id) (alerts d).
Definition acknowledge_alert (now user id : Z) (d : Db) : res http_error Db :=
  match find_alert d id with
  | None => Raise NotFound
  | Some a => check bool_decide (status a = ALERT_ACTIVE) else Conflict in Ok (on_alerts (acknowledge now user) (with_id id) d)
  end.
Definition resolve_alert (now user id : Z) (d : Db) : res http_error Db :=
  match find_alert d id with
  | None => Raise NotFound
  | Some a => check is_open a else Conflict in Ok (on_alerts (resolve now (Some user)) (with_id id) d)
  end.
Definition _close_rule_alerts (now user rule : Z) (d : Db) : Db :=
  on_alerts (resolve now (Some user)) (fun a => of_rule rule a && is_open a) d.
Definition find_rule (d : Db) (id : Z) : option NotificationRule := List.find (fun r => rule_id r =? id) (rules d).
Definition set_rule_enabled (now user id : Z) (on : bool) (d : Db) : res http_error Db :=
  match find_rule d id with
  | None => Raise NotFound
  | Some r =>
      let d := if enabled r && negb on then _close_rule_alerts now user id d else d in
      Ok (put_rule (r {{ enabled := on }}) d)
  end.
(** Deleting a rule sets the column of its alerts to NULL. *)
Definition unlink_rule (id : Z) (a : Alert) : Alert :=
  a {{ alert_rule := if bool_decide (alert_rule a = Some id) then None else alert_rule a }}.
Definition delete_rule (now user id : Z) (d : Db) : res http_error Db :=
  match find_rule d id with
  | None => Raise NotFound
  | Some r =>
      check negb (builtin r) else Conflict in
      let d := _close_rule_alerts now user id d in
      Ok (d {{ rules := List.filter (fun x => negb (rule_id x =? id)) (rules d); alerts := map (unlink_rule id) (alerts d) }})
  end.
Definition add_rule (r : NotificationRule) (d : Db) : Db :=
  d {{ rules := rules d ++ [r {{ rule_id := next_rule d }}]; next_rule := next_rule d + 1 }}.
(** [cleanup] *)
Definition RETENTION_DAYS : Z := 90.
Definition expired_alert (cutoff : Z) (a : Alert) : bool :=
  bool_decide (status a = ALERT_RESOLVED) && match resolved_at a with Some t => t <? cutoff | None => false end.
Definition cleanup (now : Z) (d : Db) : Db :=
  let cutoff := now - days RETENTION_DAYS in
  d {{ deliveries := List.filter (fun x => negb (created_at x <? cutoff)) (deliveries d);
       alerts := List.filter (fun a => negb (expired_alert cutoff a)) (alerts d) }}.

(** ** The delivery policy (policy.py) *)
Record DeliveryPolicy : Type := MkPolicy {
  email_enabled : bool; email_min : Severity; sms_enabled : bool; sms_min : Severity;
  sms_quiet_start : option pystr; sms_quiet_end : option pystr; critical_in_quiet_hours : bool; daily_limit : Z }.
Definition DEFAULTS : DeliveryPolicy := MkPolicy true info true info None None true 0.
Definition SEVERITY_ORDER (s : Severity) : Z := match s with info => 0 | warning => 1 | critical => 2 end.
Definition severity_name (s : Severity) : pystr := py (match s with info => "Info" | warning => "Warning" | critical => "Critical" end).
Definition channel_block (p : DeliveryPolicy) (c : Channel) (s : Severity) : option pystr :=
  let verdict name on least :=
    if negb on then Some (name ++ py " is turned off in the delivery policy")
    else if SEVERITY_ORDER s <? SEVERITY_ORDER least
    then Some (name ++ py " is for " ++ severity_name least ++ py " and above in the delivery policy") else None in
  match c with
  | CHANNEL_EMAIL => verdict (py "Email") (email_enabled p) (email_min p)
  | CHANNEL_SMS => verdict (py "SMS") (sms_enabled p) (sms_min p)
  | _ => None
  end.
Definition filled (o : option pystr) : bool := match o with None | Some [] => false | _ => true end.
Definition quiet_hours (p : DeliveryPolicy) (rule_start rule_end : option pystr) : option pystr * option pystr :=
  if filled rule_start && filled rule_end then (rule_start, rule_end) else (sms_quiet_start p, sms_quiet_end p).
Definition str_le (a b : pystr) : bool := match str_cmp a b with Gt => false | _ => true end.
Definition str_lt (a b : pystr) : bool := match str_cmp a b with Lt => true | _ => false end.
(** [in_window]; [hm] is the server's local time as HH:MM. *)
Definition in_window (start stop : option pystr) (hm : pystr) : bool :=
  if negb (filled start) || negb (filled stop) then false
  else let s := default [] start in let e := default [] stop in
       if str_le s e then str_le s hm && str_lt hm e else str_le s hm || str_lt hm e.
Definition counts_as_sms (since : Z) (x : NotificationDelivery) : bool :=
  bool_decide (channel x = CHANNEL_SMS) && (since <=? created_at x) &&
  negb (bool_decide (delivery_status x = skipped)) && negb (bool_decide (kind x = test)).
Definition sms_sent_today (since : Z) (l : list NotificationDelivery) : Z := Z.of_nat (length (List.filter (counts_as_sms since) l)).

(** [router.update_rule]: the values were validated; the event cannot change. *)
Definition update_rule (now user : Z) (new : NotificationRule) (d : Db) : res http_error Db :=
  match find_rule d (rule_id new) with
  | None => Raise NotFound
  | Some r =>
      check bool_decide (event_type new = event_type r) else Unprocessable in
      let d := if enabled r && negb (enabled new) then _close_rule_alerts now user (rule_id r) d else d in
      Ok (put_rule (new {{ builtin := builtin r; last_fired_at := last_fired_at r; last_sent_at := last_sent_at r;
                           rule_created_at := rule_created_at r }}) d)
  end.

(** ** 2. Dispatch *)
Record User : Type := MkUser { user_id : Z; user_role : pystr; user_active : bool; user_is_apikey : bool; user_email : option pystr; user_phone : option pystr }.
Definition ROLES : list pystr := [py "admin"; py "user"; py "manager"; py "guest"].
Definition pystr_le (a b : pystr) : Prop := str_le a b = true.
#[local] Instance pystr_le_dec : RelDecision pystr_le.
Proof. intros a b. unfold pystr_le. apply _. Defined.
Definition sorted_set (l : list pystr) : list pystr := merge_sort pystr_le (remove_dups l).
Definition texts (l : list (option pystr)) : list pystr := omap (fun o => if filled o then o else None) l.
Definition SEVERITY_RANK (s : Severity) : Z := match s with critical => 0 | warning => 1 | info => 2 end.
Definition graver (s t : Severity) : Severity := if SEVERITY_RANK t <? SEVERITY_RANK s then t else s.
Definition worst (l : list Alert) : Severity :=
  match map severity l with [] => info | s :: l => foldl graver s l end.

Section Dispatch.
Context (users : list User) (pol : DeliveryPolicy).
(** The server's local time of day as HH:MM, and its last midnight. *)
Context (hm : Z -> pystr) (day_start_utc : Z -> Z).

(** [_recipients] *)
Definition chosen_users (r : NotificationRule) (l : list Alert) : list User :=
  let rc := recipients r in
  let owners := if owner rc then omap owner_user_id l else [] in
  let ids := user_ids rc ++ List.filter (fun u => negb (u =? 0)) owners in
  let rs := List.filter (fun x => bool_decide (x ∈ ROLES)) (roles rc) in
  List.filter (fun u => user_active u && negb (user_is_apikey u) && (bool_decide (user_role u ∈ rs) || mem (user_id u) ids)) users.
Definition _recipients (r : NotificationRule) (l : list Alert) : list pystr * list pystr :=
  let us := chosen_users r l in
  let trimmed := fun s => if bool_decide (strip s = []) then None else Some (strip s) in
  (sorted_set (map (fun e => lower (strip e)) (texts (map user_email us)) ++ map lower (omap trimmed (r_emails (recipients r)))),
   sorted_set (texts (map user_phone us) ++ omap trimmed (r_phones (recipients r)))).

(** One delivery row of a message. *)
Record Row : Type := MkRow { row_channel : Channel; row_recipient : option pystr; row_held : option pystr }.
Definition row_delivery (r : NotificationRule) (k : MessageKind) (l : list Alert) (now : Z) (id : Z) (w : Row) : NotificationDelivery :=
  MkDelivery id (map alert_id l) (rule_id r) (row_channel w) (row_recipient w) k (worst l)
    (match row_held w with Some _ => skipped | None => pending end) 0 now (row_held w) now None.
Definition add_row (r : NotificationRule) (k : MessageKind) (l : list Alert) (now : Z) (d : Db) (w : Row) : Db :=
  d {{ deliveries := deliveries d ++ [row_delivery r k l now (next_delivery d) w]; next_delivery := next_delivery d + 1 }}.
Definition limit_text (limit : Z) : pystr := py "Daily SMS limit reached (" ++ str_of_int limit ++ py ")".
(** The SMS of a message: held back, or counted against the daily limit. *)
Fixpoint sms_rows (phones : list pystr) (held : option pystr) (counting : bool) (limit sent_today : Z) : list Row :=
  match phones with
  | [] => []
  | p :: phones =>
      match held with
      | Some _ => MkRow CHANNEL_SMS (Some p) held :: sms_rows phones held counting limit sent_today
      | None =>
          if counting then
            if limit <=? sent_today
            then MkRow CHANNEL_SMS (Some p) (Some (limit_text limit)) :: sms_rows phones held counting limit sent_today
            else MkRow CHANNEL_SMS (Some p) None :: sms_rows phones held counting limit (sent_today + 1)
          else MkRow CHANNEL_SMS (Some p) None :: sms_rows phones held counting limit sent_today
      end
  end.
Definition sms_held (r : NotificationRule) (k : MessageKind) (w : Severity) (now : Z) : option pystr :=
  if bool_decide (k = test) then None
  else match channel_block pol CHANNEL_SMS w with
       | Some why => Some why
       | None =>
           let '(s, e) := quiet_hours pol (quiet_start r) (quiet_end r) in
           let through := bool_decide (w = critical) && critical_in_quiet_hours pol in
           if negb through && in_window s e (hm now)
           then Some (py "Quiet hours " ++ default [] s ++ py "-" ++ default [] e) else None
       end.
Definition channel_rows (r : NotificationRule) (k : MessageKind) (l : list Alert) (now : Z) (d : Db) (c : Channel) : list Row :=
  let w := worst l in
  let '(emails, phones) := _recipients r l in
  match c with
  | CHANNEL_EMAIL =>
      let held := if bool_decide (k = test) then None else channel_block pol CHANNEL_EMAIL w in
      map (fun to => MkRow CHANNEL_EMAIL (Some to) held) emails
  | CHANNEL_SMS =>
      let held := sms_held r k w now in
      let limit := daily_limit pol in
      let counting := negb (limit =? 0) && negb (bool_decide (k = test)) in
      sms_rows phones held counting limit (sms_sent_today (day_start_utc now) (deliveries d))
  | CHANNEL_SYSLOG => map (fun _ => MkRow CHANNEL_SYSLOG None None) l
  | CHANNEL_WEBHOOK h => [MkRow (CHANNEL_WEBHOOK h) None None]
  end.
Definition queue_channel (r : NotificationRule) (k : MessageKind) (l : list Alert) (now : Z) (d : Db) (c : Channel) : Db :=
  foldl (add_row r k l now) d (channel_rows r k l now d c).
Definition queue_message (r : NotificationRule) (k : MessageKind) (l : list Alert) (now : Z) (d : Db) : Db :=
  if bool_decide (channels r = []) || bool_decide (l = []) then d
  else foldl (queue_channel r k l now) d (channels r).

(** [dispatch]: new alerts, reminders, resolved notices. *)
Definition unnotified (a : Alert) : bool := is_open a && bool_decide (notified_at a = None).
Definition put_notified (now : Z) (a : Alert) : Alert := a {{ notified_at := Some now; last_notified_at := Some now }}.
Fixpoint group_keys (seen : list (option Z)) (l : list (option Z)) : list (option Z) :=
  match l with [] => [] | k :: l => if bool_decide (k ∈ seen) then group_keys seen l else k :: group_keys (k :: seen) l end.
Definition same_group (k : option Z) (a : Alert) : bool := bool_decide (alert_rule a = k).
Definition alert_order (a b : Alert) : Prop :=
  SEVERITY_RANK (severity a) < SEVERITY_RANK (severity b) \/
  (SEVERITY_RANK (severity a) = SEVERITY_RANK (severity b) /\ alert_id a <= alert_id b).
#[local] Instance alert_order_dec : RelDecision alert_order.
Proof. intros a b. unfold alert_order. apply _. Defined.
Definition rule_of (d : Db) (k : option Z) : option NotificationRule := k ≫= find_rule d.
Definition silent (o : option NotificationRule) : bool :=
  match o with None => true | Some r => negb (enabled r) || bool_decide (channels r = []) end.
Definition grouping (r : NotificationRule) (now : Z) : bool :=
  negb (group_minutes r =? 0) && match last_sent_at r with Some t => now - t <? minutes (group_minutes r) | None => false end.
Definition notify_group (now : Z) (d : Db) (k : option Z) : Db :=
  let l := List.filter (fun a => unnotified a && same_group k a) (alerts d) in
  let done_ := on_alerts (put_notified now) (fun a => unnotified a && same_group k a) in
  match rule_of d k with
  | None => done_ d
  | Some r =>
      if silent (Some r) then done_ d
      else if grouping r now then d
      else
        let active := merge_sort alert_order (List.filter (fun a => bool_decide (status a = ALERT_ACTIVE)) l) in
        done_ (if bool_decide (active = []) then d
               else put_rule (r {{ last_sent_at := Some now }}) (queue_message r raised active now d))
  end.
Definition reminder_due (r : NotificationRule) (now : Z) (a : Alert) : bool :=
  of_rule (rule_id r) a && bool_decide (status a = ALERT_ACTIVE) && negb (bool_decide (notified_at a = None)) &&
  match last_notified_at a with Some t => t <=? now - minutes (repeat_minutes r) | None => false end.
Definition put_reminded (now : Z) (a : Alert) : Alert :=
  a {{ last_notified_at := Some now; reminders_sent := reminders_sent a + 1 }}.
(** The query sees the alerts as they were before the cycle ([before]): what the
    session holds is not in the table yet; and where [sms_sent_today] flushed it,
    an alert notified just now is not due, its last message being of now. *)
Definition remind (now : Z) (before : list Alert) (d : Db) (r : NotificationRule) : Db :=
  if negb (enabled r) || (repeat_minutes r =? 0) || bool_decide (channels r = []) then d
  else
    let due := List.filter (reminder_due r now) before in
    if bool_decide (due = []) then d
    else on_alerts (put_reminded now) (fun a => existsb (fun b => alert_id b =? alert_id a) due) (queue_message r reminder due now d).
Definition put_noticed (a : Alert) : Alert := a {{ resolved_notice_pending := false }}.
Definition send_notice (now : Z) (l : list Alert) (d : Db) (k : option Z) : Db :=
  match rule_of d k with
  | Some r => queue_message r resolved_notice (List.filter (same_group k) l) now d
  | None => d
  end.
Definition dispatch (now : Z) (d : Db) : Db :=
  let before := alerts d in
  let d1 := foldl (notify_group now) d (group_keys [] (map alert_rule (List.filter unnotified (alerts d)))) in
  let d2 := foldl (remind now before) d1 (rules d1) in
  let closing := List.filter resolved_notice_pending (alerts d2) in
  foldl (send_notice now closing) (on_alerts put_noticed resolved_notice_pending d2) (group_keys [] (map alert_rule closing)).
End Dispatch.

(** ** 3. Send *)
Definition RETRY_DELAYS : list Z := [minutes 1; minutes 5].
Definition SEND_BATCH : nat := 200.
(** A send works (and has its time), fails with a message, or crashes. *)
Inductive outcome : Type := Delivered (at_ : Z) | DeliveryError (e : pystr) | Crashed (name : pystr).
Definition due_delivery (now : Z) (x : NotificationDelivery) : bool :=
  bool_decide (delivery_status x = pending) && (next_attempt_at x <=? now).
Definition put_sent (now : Z) (x : NotificationDelivery) : NotificationDelivery :=
  x {{ attempts := attempts x + 1; delivery_status := sent; sent_at := Some now }}.
Definition put_failed (e : pystr) (x : NotificationDelivery) : NotificationDelivery :=
  x {{ attempts := attempts x + 1; delivery_status := failed; error := Some e }}.
Definition put_retry (at_ : Z) (e : pystr) (x : NotificationDelivery) : NotificationDelivery :=
  x {{ attempts := attempts x + 1; next_attempt_at := at_; error := Some e }}.
Definition send_one (now : Z) (o : outcome) (x : NotificationDelivery) : NotificationDelivery :=
  match o with
  | Delivered t => put_sent t x
  | Crashed n => put_failed n x
  | DeliveryError e =>
      match RETRY_DELAYS !! Z.to_nat (attempts x) with
      | None => put_failed (take 1000 e) x
      | Some delay => put_retry (now + delay) (take 1000 e) x
      end
  end.
Definition batch (now : Z) (d : Db) : list Z := take SEND_BATCH (map delivery_id (List.filter (due_delivery now) (deliveries d))).
Definition send_pending (deliver : NotificationDelivery -> outcome) (now : Z) (d : Db) : Db :=
  let ids := batch now d in
  d {{ deliveries := map (fun x => if mem (delivery_id x) ids then send_one now (deliver x) x else x) (deliveries d) }}.

(** ** The alerts' invariant *)
Record alerts_ok (l : list Alert) (next : Z) : Prop := {
  ok_ids : NoDup (map alert_id l);
  ok_next : forall a, a ∈ l -> alert_id a < next;
  ok_open : forall a b, a ∈ l -> b ∈ l -> is_open a = true -> is_open b = true -> fingerprint a = fingerprint b -> alert_id a = alert_id b;
  ok_rule : forall a, a ∈ l -> is_open a = true -> exists r key, alert_rule a = Some r /\ fingerprint a = prefix r ++ key }.

(** A rewriting of the alerts that opens none. *)
Definition gentle (f : Alert -> Alert) (l : list Alert) : Prop :=
  forall a, a ∈ l -> alert_id (f a) = alert_id a /\
    (is_open (f a) = true -> is_open a = true /\ fingerprint (f a) = fingerprint a /\ alert_rule (f a) = alert_rule a).
Lemma map_ok f l next : alerts_ok l next -> gentle f l -> alerts_ok (map f l) next.
Proof.
  intros [H1 H2 H3 H4] Hf. constructor.
  - rewrite map_map. rewrite (map_ext_in _ alert_id); [done|]. intros a Ha%list_elem_of_In. by apply Hf.
  - intros b (a & -> & Ha)%list_elem_of_fmap. destruct (Hf a Ha) as [-> _]. by apply H2.
  - intros b b' (a & -> & Ha)%list_elem_of_fmap (a' & -> & Ha')%list_elem_of_fmap Ho Ho' He.
    destruct (Hf a Ha) as [-> Hx], (Hf a' Ha') as [-> Hx']. destruct (Hx Ho) as (? & E & _), (Hx' Ho') as (? & E' & _).
    apply H3; try done. congruence.
  - intros b (a & -> & Ha)%list_elem_of_fmap Ho. destruct (Hf a Ha) as [_ Hx]. destruct (Hx Ho) as (Hoa & -> & ->). by apply H4.
Qed.
Lemma gentle_if (p : Alert -> bool) f l :
  (forall a, a ∈ l -> p a = true -> alert_id (f a) = alert_id a /\
    (is_open (f a) = true -> is_open a = true /\ fingerprint (f a) = fingerprint a /\ alert_rule (f a) = alert_rule a)) ->
  gentle (fun a => if p a then f a else a) l.
Proof. intros H a Ha. destruct (p a) eqn:E; [by apply H|done]. Qed.
Lemma update_where_ok p f l next : alerts_ok l next -> gentle f l -> alerts_ok (update_where p f l) next.
Proof. intros H Hf. apply map_ok; [done|]. apply gentle_if. intros a Ha _. by apply Hf. Qed.
Lemma filter_alerts_ok (p : Alert -> bool) l next : alerts_ok l next -> alerts_ok (List.filter p l) next.
Proof.
  intros [H1 H2 H3 H4]. assert (Hs : forall a, a ∈ List.filter p l -> a ∈ l) by (intros a [? _]%elem_filter; done).
  constructor; eauto.
  clear -H1. induction l as [|a l IH]; simpl in *; [done|]. inversion H1 as [|? ? Ha Hn]; subst. destruct (p a); simpl; [|auto].
  constructor; [|auto]. intros (b & Eb & [Hb _]%elem_filter)%list_elem_of_fmap. apply Ha. rewrite Eb. by apply list_elem_of_fmap_2.
Qed.
Lemma append_ok l next a :
  alerts_ok l next -> alert_id a = next -> (exists r key, alert_rule a = Some r /\ fingerprint a = prefix r ++ key) ->
  (forall b, b ∈ l -> is_open b = true -> fingerprint b <> fingerprint a) -> alerts_ok (l ++ [a]) (next + 1).
Proof.
  intros [H1 H2 H3 H4] Hid Hr Hn. constructor.
  - rewrite map_app. apply list.NoDup_app. split; [done|]. split; [|by apply NoDup_singleton].
    intros i (b & -> & Hb)%list_elem_of_fmap Hi%list_elem_of_singleton. specialize (H2 b Hb). lia.
  - intros b [Hb| ->%list_elem_of_singleton]%elem_of_app; [specialize (H2 b Hb)|]; lia.
  - intros b c [Hb| ->%list_elem_of_singleton]%elem_of_app [Hc| ->%list_elem_of_singleton]%elem_of_app Hob Hoc He; auto.
    + by destruct (Hn b Hb Hob).
    + by destruct (Hn c Hc Hoc).
  - intros b [Hb| ->%list_elem_of_singleton]%elem_of_app Ho; auto.
Qed.

(** A fingerprint names its rule. *)
Lemma str_of_int_no_colon n : has_char ":"%char (str_of_int n) = false.
Proof.
  apply not_true_is_false. intros H%has_char_spec. pose proof (str_of_int_chars n) as Hc. rewrite forallb_forall in Hc.
  apply list_elem_of_In in H. by specialize (Hc _ H).
Qed.
Lemma prefix_inj r r' k k' : prefix r ++ k = prefix r' ++ k' -> r = r' /\ k = k'.
Proof.
  unfold prefix. intros H. rewrite <- !app_assoc in H. change (py ":") with [":"%char] in H.
  assert (Hp : partition1 ":"%char (str_of_int r ++ [":"%char] ++ k) = (str_of_int r, Some k)) by apply partition1_app, str_of_int_no_colon.
  assert (Hp' : partition1 ":"%char (str_of_int r' ++ [":"%char] ++ k') = (str_of_int r', Some k')) by apply partition1_app, str_of_int_no_colon.
  rewrite H, Hp' in Hp. injection Hp as E ->. split; [|done].
  assert (Hs : Some r = Some r') by (rewrite <- (py_int_str_of_int r), <- (py_int_str_of_int r'); by rewrite E). by injection Hs.
Qed.

(** *** The problems seen *)
Lemma dict_set_keys {A} (l : list (pystr * A)) k v :
  (NoDup (map fst l) -> NoDup (map fst (dict_set l k v))) /\ forall x, x ∈ map fst (dict_set l k v) <-> x = k \/ x ∈ map fst l.
Proof.
  induction l as [|[k1 v1] l [IH1 IH2]]; simpl.
  - split; [intros; apply NoDup_singleton|set_solver].
  - case_bool_decide as E; simpl; [subst; split; set_solver|]. split; [|set_solver].
    intros Hn. inversion Hn; subst. constructor; [|auto]. rewrite IH2. intros [?|?]; [congruence|done].
Qed.
Lemma seen_spec rule ps :
  NoDup (map fst (seen_problems rule ps)) /\
  forall fp, fp ∈ map fst (seen_problems rule ps) <-> exists p, p ∈ ps /\ fp = prefix rule ++ p_key p.
Proof.
  unfold seen_problems. induction ps as [|p ps [IH1 IH2]] using rev_ind; simpl.
  - split; [constructor|]. intros fp. split; [by intros ?%elem_of_nil|]. intros (p & Hp & _). by apply elem_of_nil in Hp.
  - rewrite foldl_app. simpl. destruct (dict_set_keys (foldl (fun l p => dict_set l (prefix rule ++ p_key p) p) [] ps) (prefix rule ++ p_key p) p) as [H1 H2].
    split; [auto|]. intros fp. rewrite H2, IH2. split.
    + intros [->|(q & Hq & ->)]; [exists p|exists q]; set_solver.
    + intros (q & [Hq| ->%list_elem_of_singleton]%elem_of_app & ->); [right; eauto|by left].
Qed.

(** *** One walk over the problems *)
Definition opened (fp : pystr) (l : list Alert) : bool := existsb (fun a => bool_decide (fingerprint a = fp) && is_open a) l.
Lemma opened_spec fp l : opened fp l = true <-> exists a, a ∈ l /\ fingerprint a = fp /\ is_open a = true.
Proof.
  unfold opened. rewrite existsb_exists. split.
  - intros (a & Ha & H). apply andb_prop in H as [H1 H2]. bool_prop. exists a. by rewrite list_elem_of_In.
  - intros (a & Ha & <- & Ho). exists a. rewrite Ho, bool_decide_eq_true_2 by done. by apply list_elem_of_In in Ha.
Qed.
Lemma opened_update p r q now fp l : opened fp (update_where p (refresh r q now) l) = opened fp l.
Proof.
  unfold opened, update_where. induction l as [|a l IH]; simpl; [done|]. rewrite IH. f_equal. by destruct (p a).
Qed.

Section Walk.
Context (r : NotificationRule) (e : EventType) (hold : option Z) (open_ known : list Alert) (now : Z).
Notation step1 := (walk_one r e hold open_ known now).
Definition ready (held : gmap pystr Z) (fp : pystr) : bool := held_long_enough hold now (default now (held !! fp)).

Lemma raise_opened fp p w fp' :
  opened fp' (w_alerts (raise_alert r e fp p now w)) = opened fp' (w_alerts w) || bool_decide (fp' = fp).
Proof.
  unfold raise_alert. fold (opened fp (w_alerts w)). destruct (opened fp (w_alerts w)) eqn:E; simpl.
  - case_bool_decide; subst; [by rewrite E|by rewrite orb_false_r].
  - unfold opened at 1. rewrite existsb_app. fold (opened fp' (w_alerts w)). f_equal. simpl. rewrite orb_false_r, andb_true_r.
    destruct (decide (fp' = fp)) as [->|]; [by rewrite !bool_decide_eq_true_2|]. by rewrite !bool_decide_eq_false_2 by congruence.
Qed.
Lemma walk_one_opened w fp p fp' :
  opened fp' (w_alerts (step1 w (fp, p))) =
  opened fp' (w_alerts w) ||
  (bool_decide (fp' = fp) && negb (has_fp fp open_) && negb (has_fp fp known) && ready (w_held w) fp).
Proof.
  unfold walk_one, ready. destruct (has_fp fp open_); simpl; [rewrite opened_update, andb_false_r; by rewrite orb_false_r|].
  destruct (has_fp fp known); simpl; [rewrite andb_false_r; by rewrite orb_false_r|]. rewrite !andb_true_r.
  destruct hold as [h|]; simpl.
  - destruct (negb _); [rewrite raise_opened; by rewrite andb_true_r|simpl; by rewrite andb_false_r, orb_false_r].
  - rewrite raise_opened. by rewrite andb_true_r.
Qed.
Lemma walk_one_held w fp p fp' : fp' <> fp -> w_held (step1 w (fp, p)) !! fp' = w_held w !! fp'.
Proof.
  intros Hne. unfold walk_one, raise_alert. repeat case_match; simpl; try done; by rewrite lookup_insert_ne.
Qed.
(** After the whole walk. *)
Lemma walk_opened l w fp :
  NoDup (map fst l) ->
  opened fp (w_alerts (foldl step1 w l)) =
  opened fp (w_alerts w) ||
  (bool_decide (fp ∈ map fst l) && negb (has_fp fp open_) && negb (has_fp fp known) && ready (w_held w) fp).
Proof.
  revert w. induction l as [|[k p] l IH]; intros w Hn; cbn [foldl map fst]; [by rewrite orb_false_r|].
  inversion Hn as [|? ? Hk Hn']; subst. rewrite IH, walk_one_opened by done.
  destruct (decide (fp = k)) as [->|Hne].
  - rewrite (bool_decide_eq_false_2 (k ∈ _)) by done. rewrite !(bool_decide_eq_true_2 _) by (done || by left). simpl. by rewrite orb_false_r.
  - rewrite (bool_decide_eq_false_2 (fp = k)) by done. cbn [andb]. rewrite orb_false_r. unfold ready. rewrite walk_one_held by done.
    f_equal. f_equal. f_equal. f_equal. apply bool_decide_ext. set_solver.
Qed.
Lemma walk_one_ok w fp p :
  alerts_ok (w_alerts w) (w_next w) -> (exists key, fp = prefix (rule_id r) ++ key) ->
  alerts_ok (w_alerts (step1 w (fp, p))) (w_next (step1 w (fp, p))).
Proof.
  intros Hw [key Hfp].
  assert (Hraise : forall w, alerts_ok (w_alerts w) (w_next w) ->
    alerts_ok (w_alerts (raise_alert r e fp p now w)) (w_next (raise_alert r e fp p now w))).
  { intros v Hv. unfold raise_alert. fold (opened fp (w_alerts v)). destruct (opened fp (w_alerts v)) eqn:E; [done|]. simpl.
    apply append_ok; [done|done|simpl; eauto|]. simpl. intros b Hb Ho Ef.
    assert (opened fp (w_alerts v) = true) by (apply opened_spec; eauto). congruence. }
  unfold walk_one. destruct (has_fp fp open_); simpl; [apply update_where_ok; [done|]; intros a _; by destruct a|].
  destruct (has_fp fp known); [done|]. destruct hold; [destruct (held_long_enough _ _ _)|]; auto.
Qed.
Lemma walk_ok l w :
  (forall fp, fp ∈ map fst l -> exists key, fp = prefix (rule_id r) ++ key) ->
  alerts_ok (w_alerts w) (w_next w) -> alerts_ok (w_alerts (foldl step1 w l)) (w_next (foldl step1 w l)).
Proof.
  revert w. induction l as [|[fp p] l IH]; intros w Hl Hw; simpl; [done|]. apply IH; [intros; apply Hl; by right|].
  apply walk_one_ok; [done|]. apply Hl. by left.
Qed.
End Walk.

(** *** What a check leaves open *)
Definition reported (key : pystr) (ps : list Problem) : bool := existsb (fun p => bool_decide (p_key p = key)) ps.
Lemma reported_seen rule ps key : bool_decide (prefix rule ++ key ∈ map fst (seen_problems rule ps)) = reported key ps.
Proof.
  destruct (seen_spec rule ps) as [_ H]. apply eq_iff_eq_true. rewrite bool_decide_eq_true, H. unfold reported. rewrite existsb_exists. split.
  - intros (p & Hp & E). exists p. apply prefix_inj in E as [_ ->]. split; [by apply list_elem_of_In|by apply bool_decide_eq_true_2].
  - intros (p & Hp & <-%bool_decide_eq_true). exists p. by rewrite list_elem_of_In.
Qed.
(** In a good table, the open alerts of a fingerprint are its rule's. *)
Lemma open_of_rule l next a rule key :
  alerts_ok l next -> a ∈ l -> is_open a = true -> fingerprint a = prefix rule ++ key -> of_rule rule a = true.
Proof.
  intros Hok Ha Ho E. destruct (ok_rule _ _ Hok a Ha Ho) as (r' & k' & Hr & E'). rewrite E in E'. apply prefix_inj in E' as [-> _].
  by apply bool_decide_eq_true_2.
Qed.
Lemma has_open l next rule key :
  alerts_ok l next -> has_fp (prefix rule ++ key) (open_alerts rule l) = opened (prefix rule ++ key) l.
Proof.
  intros Hok. apply eq_iff_eq_true. rewrite opened_spec. unfold has_fp. rewrite existsb_exists. split.
  - intros (a & [Ha H]%list_elem_of_In%elem_filter & E%bool_decide_eq_true). apply andb_prop in H as [_ H]. eauto.
  - intros (a & Ha & E & Ho). exists a. split; [|by apply bool_decide_eq_true_2]. apply list_elem_of_In, elem_filter.
    split; [done|]. by rewrite (open_of_rule l next a rule key), Ho.
Qed.
Lemma has_known fp l : has_fp fp l = false -> opened fp l = false.
Proof.
  intros H. apply not_true_is_false. intros (a & Ha & E & _)%opened_spec. assert (has_fp fp l = true); [|congruence].
  apply existsb_exists. exists a. split; [by apply list_elem_of_In|by apply bool_decide_eq_true_2].
Qed.
Definition gone_by (rule : Z) (fps : list pystr) (a : Alert) : bool :=
  of_rule rule a && is_open a && negb (bool_decide (fingerprint a ∈ fps)).
Lemma resolve_not_open r now a : is_open (resolve_by_itself r now a) = false.
Proof. by destruct a. Qed.
Lemma gone_opened l next r now fps key :
  alerts_ok l next ->
  opened (prefix (rule_id r) ++ key) (update_where (gone_by (rule_id r) fps) (resolve_by_itself r now) l) =
  bool_decide (prefix (rule_id r) ++ key ∈ fps) && opened (prefix (rule_id r) ++ key) l.
Proof.
  intros Hok. apply eq_iff_eq_true. rewrite andb_true_iff, bool_decide_eq_true, !opened_spec. split.
  - intros (b & (a & -> & Ha)%list_elem_of_fmap & E & Ho). destruct (gone_by (rule_id r) fps a) eqn:G; [by rewrite resolve_not_open in Ho|].
    split; [|eauto]. unfold gone_by in G. rewrite (open_of_rule l next a _ key), Ho in G by done. simpl in G.
    rewrite negb_false_iff, bool_decide_eq_true, E in G. done.
  - intros [Hin (a & Ha & E & Ho)]. exists a. split; [|done]. apply list_elem_of_fmap. exists a. split; [|done].
    unfold gone_by. rewrite (bool_decide_eq_true_2 (fingerprint a ∈ fps)) by by rewrite E. by rewrite andb_false_r.
Qed.
Lemma foldl_keeps {A B} (P : A -> Prop) (f : A -> B -> A) l a :
  (forall a b, b ∈ l -> P a -> P (f a b)) -> P a -> P (foldl f a l).
Proof.
  revert a. induction l as [|b l IH]; intros a Hf Ha; simpl; [done|]. apply IH; [intros; apply Hf; [by right|done]|].
  apply Hf; [by left|done].
Qed.

(** The alerts of other rules are not touched. *)
Lemma filter_update_others rule (p : Alert -> bool) f l :
  (forall a, p a = true -> of_rule rule a = true /\ of_rule rule (f a) = true) ->
  List.filter (fun a => negb (of_rule rule a)) (update_where p f l) = List.filter (fun a => negb (of_rule rule a)) l.
Proof.
  intros H. unfold update_where. induction l as [|a l IH]; simpl; [done|]. destruct (p a) eqn:E.
  - destruct (H a E) as [-> ->]. done.
  - by destruct (negb _); [f_equal|].
Qed.
Lemma walk_one_others r e hold open_ known now w fp p :
  List.filter (fun a => negb (of_rule (rule_id r) a)) (w_alerts (walk_one r e hold open_ known now w (fp, p))) =
  List.filter (fun a => negb (of_rule (rule_id r) a)) (w_alerts w).
Proof.
  assert (Hr : forall w, List.filter (fun a => negb (of_rule (rule_id r) a)) (w_alerts (raise_alert r e fp p now w)) =
    List.filter (fun a => negb (of_rule (rule_id r) a)) (w_alerts w)).
  { intros v. unfold raise_alert. destruct (existsb _ _); [done|]. cbn [w_alerts]. rewrite List.filter_app. simpl.
    unfold of_rule at 2. rewrite bool_decide_eq_true_2 by done. apply app_nil_r. }
  unfold walk_one. destruct (has_fp fp open_).
  { apply filter_update_others. intros a H. bool_prop. by destruct a. }
  destruct (has_fp fp known); [done|]. destruct hold; [destruct (held_long_enough _ _ _); [|done]|]; by rewrite Hr.
Qed.

Section Applied.
Context (r : NotificationRule) (e : EventType) (ps : list Problem) (ps_ : gmap pystr Z) (now : Z) (d : Db).
Definition walked : Walk :=
  foldl (walk_one r e (hold_of e ps_) (open_alerts (rule_id r) (alerts d)) (match event_kind e with event => alerts d | state => [] end) now)
    (MkWalk (alerts d) (next_alert d) (held_since d) 0) (seen_problems (rule_id r) ps).
Lemma apply_alerts :
  alerts (fst (_apply r e ps ps_ now d)) =
    match event_kind e with
    | state => update_where (gone_by (rule_id r) (map fst (seen_problems (rule_id r) ps))) (resolve_by_itself r now) (w_alerts walked)
    | event => w_alerts walked
    end /\
  next_alert (fst (_apply r e ps ps_ now d)) = w_next walked /\ deliveries (fst (_apply r e ps ps_ now d)) = deliveries d.
Proof.
  unfold _apply, walked. destruct (event_kind e); cbv zeta; cbn [fst]; (destruct (0 <? _); done).
Qed.
Lemma walked_ok : alerts_ok (alerts d) (next_alert d) -> alerts_ok (w_alerts walked) (w_next walked).
Proof.
  intros Hok. apply walk_ok; [|done]. intros fp. destruct (seen_spec (rule_id r) ps) as [_ H]. rewrite H. intros (p & _ & ->). eauto.
Qed.
Lemma apply_ok :
  alerts_ok (alerts d) (next_alert d) -> alerts_ok (alerts (fst (_apply r e ps ps_ now d))) (next_alert (fst (_apply r e ps ps_ now d))).
Proof.
  intros Hok%walked_ok. destruct apply_alerts as (-> & -> & _). destruct (event_kind e); [|done].
  apply update_where_ok; [done|]. intros a _. split; [by destruct a|]. by rewrite resolve_not_open.
Qed.
End Applied.

(** C31: A check leaves open exactly what it should.  For a state event, a
    rule's alert is open afterwards if and only if its problem was reported and
    the alert was open already or the problem has lasted long enough; for an
    event, an alert stays open until a person closes it, and one is raised for
    a reported problem only when the table has none, open or closed.  The
    alerts of every other rule stay as they were, in their order. *)
Theorem check_exactly r e ps ps_ now d :
  alerts_ok (alerts d) (next_alert d) ->
  let d' := fst (_apply r e ps ps_ now d) in
  (forall key, let fp := prefix (rule_id r) ++ key in
     opened fp (alerts d') =
       match event_kind e with
       | state => reported key ps && (opened fp (alerts d) || ready (hold_of e ps_) now (held_since d) fp)
       | event => opened fp (alerts d) ||
           (reported key ps && negb (has_fp fp (alerts d)) && ready (hold_of e ps_) now (held_since d) fp)
       end) /\
  List.filter (fun a => negb (of_rule (rule_id r) a)) (alerts d') = List.filter (fun a => negb (of_rule (rule_id r) a)) (alerts d).
Proof.
  intros Hok d'. destruct (apply_alerts r e ps ps_ now d) as (E & _ & _). fold d' in E. split.
  - intros key fp. assert (Hw : opened fp (w_alerts (walked r e ps ps_ now d)) = opened fp (alerts d) ||
      (reported key ps && negb (opened fp (alerts d)) && negb (has_fp fp (match event_kind e with event => alerts d | state => [] end)) &&
       ready (hold_of e ps_) now (held_since d) fp)).
    { unfold walked. rewrite walk_opened by apply seen_spec. cbn [w_alerts w_held]. unfold fp. by rewrite reported_seen, (has_open _ (next_alert d)). }
    rewrite E. pose proof (walked_ok r e ps ps_ now d Hok) as Hok'. destruct (event_kind e).
    + unfold fp. erewrite gone_opened by done. rewrite reported_seen. fold fp. rewrite Hw. cbn [has_fp existsb negb].
      by destruct (reported key ps), (opened fp (alerts d)).
    + rewrite Hw. destruct (has_fp fp (alerts d)) eqn:K; [by rewrite !andb_false_r|].
      rewrite (has_known fp _ K). by destruct (reported key ps).
  - assert (Hw : List.filter (fun a => negb (of_rule (rule_id r) a)) (w_alerts (walked r e ps ps_ now d)) =
                 List.filter (fun a => negb (of_rule (rule_id r) a)) (alerts d)).
    { unfold walked. set (w0 := MkWalk _ _ _ _).
      apply (foldl_keeps (fun w => List.filter (fun a => negb (of_rule (rule_id r) a)) (w_alerts w) =
                                   List.filter (fun a => negb (of_rule (rule_id r) a)) (alerts d))); [|done].
      intros w [fp p] _ <-. apply walk_one_others. }
    rewrite E. destruct (event_kind e); [|done]. rewrite filter_update_others; [done|]. intros a H. unfold gone_by in H.
    bool_prop. by destruct a.
Qed.

(** *** Every operation keeps the invariant *)
Definition good (d : Db) : Prop := alerts_ok (alerts d) (next_alert d).
Lemma good_eq d d' : alerts d' = alerts d -> next_alert d' = next_alert d -> good d -> good d'.
Proof. unfold good. by intros -> ->. Qed.
Lemma evaluate_rule_good run assets e now r s : good (fst s) -> good (fst (evaluate_rule run assets e now r s)).
Proof.
  destruct s as [d [n m]]. unfold evaluate_rule. destruct (run _ _ _) as [ps|]; [|done]. intros Hd.
  pose proof (apply_ok r e (List.filter (fun p => in_scope r (p_asset p) assets) ps) (rule_params e r) now d Hd) as H.
  by destruct (_apply _ _ _ _ _ _) as [d' [a b]].
Qed.
Lemma evaluate_good EVENTS run assets now clock force only last d :
  good d -> good (fst (snd (evaluate EVENTS run assets now clock force only last d))).
Proof.
  intros Hd. unfold evaluate. apply (foldl_keeps (fun s : gmap pystr Z * (Db * (Z * Z)) => good (fst (snd s)))); [|done].
  intros s c _ Hs. unfold evaluate_event. destruct (event_by_code EVENTS c) as [e|]; [|done]. destruct (due_event _ _ _ _); [|done].
  apply (foldl_keeps (fun s : Db * (Z * Z) => good (fst s))); [|done]. intros s' r _ Hs'. by apply evaluate_rule_good.
Qed.
Lemma on_alerts_good f p d :
  (forall a, alert_id (f a) = alert_id a /\ (is_open (f a) = true -> is_open a = true /\ fingerprint (f a) = fingerprint a /\ alert_rule (f a) = alert_rule a)) ->
  good d -> good (on_alerts f p d).
Proof. intros Hf Hd. apply update_where_ok; [done|]. intros a _. apply Hf. Qed.
Lemma acknowledge_gentle now user a :
  alert_id (acknowledge now user a) = alert_id a /\ (is_open (acknowledge now user a) = true -> is_open a = true /\
    fingerprint (acknowledge now user a) = fingerprint a /\ alert_rule (acknowledge now user a) = alert_rule a).
Proof. unfold acknowledge. case_bool_decide as E; [|done]. split; [by destruct a|]. intros _. unfold is_open. rewrite E. by destruct a. Qed.
Lemma resolve_gentle now user a :
  alert_id (resolve now user a) = alert_id a /\ (is_open (resolve now user a) = true -> is_open a = true /\
    fingerprint (resolve now user a) = fingerprint a /\ alert_rule (resolve now user a) = alert_rule a).
Proof. unfold resolve. destruct (is_open a) eqn:E; [|by rewrite E]. split; [by destruct a|]. by destruct a. Qed.
Lemma close_good now user rule d : good d -> good (_close_rule_alerts now user rule d).
Proof. apply on_alerts_good. intros a. apply resolve_gentle. Qed.
Lemma put_rule_good r d : good d -> good (put_rule r d).
Proof. by apply good_eq. Qed.

(** What a dispatch keeps of the tables, message by message. *)
Lemma queue_alerts users pol hm ds r k l now d :
  alerts (queue_message users pol hm ds r k l now d) = alerts d /\ next_alert (queue_message users pol hm ds r k l now d) = next_alert d.
Proof.
  unfold queue_message. destruct (_ || _); [done|].
  apply (foldl_keeps (fun x => alerts x = alerts d /\ next_alert x = next_alert d)); [|done]. intros x c _ Hx.
  apply (foldl_keeps (fun x => alerts x = alerts d /\ next_alert x = next_alert d)); [|done]. by intros.
Qed.
Lemma queue_good users pol hm ds r k l now d : good d -> good (queue_message users pol hm ds r k l now d).
Proof. destruct (queue_alerts users pol hm ds r k l now d). by apply good_eq. Qed.
Lemma queue_rules users pol hm ds r k l now d : rules (queue_message users pol hm ds r k l now d) = rules d.
Proof.
  unfold queue_message. destruct (_ || _); [done|]. apply (foldl_keeps (fun x => rules x = rules d)); [|done]. intros x c _ Hx.
  apply (foldl_keeps (fun x => rules x = rules d)); [|done]. by intros.
Qed.
Lemma rule_of_in d k r : rule_of d k = Some r -> r ∈ rules d.
Proof. unfold rule_of. destruct k as [k|]; [|done]. simpl. intros [H _]%find_some. by apply list_elem_of_In. Qed.
(** A property that every part of a dispatch keeps holds after it. *)
Lemma dispatch_keeps (P : Db -> Prop) users pol hm ds now d :
  (forall d f p, (f = put_notified now \/ f = put_reminded now \/ f = put_noticed) -> P d -> P (on_alerts f p d)) ->
  (forall d r, r ∈ rules d -> P d -> P (put_rule (r {{ last_sent_at := Some now }}) d)) ->
  (forall d r k l, k <> test -> r ∈ rules d -> P d -> P (queue_message users pol hm ds r k l now d)) ->
  P d -> P (dispatch users pol hm ds now d).
Proof.
  intros Ha Hr Hq Hd. unfold dispatch. set (d1 := foldl (notify_group _ _ _ _ now) d _).
  assert (H1 : P d1).
  { apply foldl_keeps; [|done]. intros x k _ Hx. unfold notify_group. destruct (rule_of x k) as [r|] eqn:E; [|apply Ha; by auto].
    apply rule_of_in in E. destruct (silent _); [apply Ha; by auto|]. destruct (grouping r now); [done|]. apply Ha; [by auto|].
    case_bool_decide; [done|]. apply Hr; [by rewrite queue_rules|]. by apply Hq. }
  set (d2 := foldl (remind _ _ _ _ now _) d1 (rules d1)). assert (H2 : P d2 /\ rules d2 = rules d1).
  { apply (foldl_keeps (fun x => P x /\ rules x = rules d1)); [|done]. intros x r Hin [Hx E]. unfold remind.
    destruct (_ || _); [done|]. case_bool_decide; [done|]. split; [|etrans; [|exact E]; apply (queue_rules users pol hm ds)].
    apply Ha; [by auto|]. apply Hq; [done|by rewrite E|done]. }
  apply foldl_keeps; [|apply Ha; [by auto|apply H2]].
  intros x k _ Hx. unfold send_notice. destruct (rule_of x k) as [r|] eqn:E; [|done]. apply rule_of_in in E. by apply Hq.
Qed.
Lemma dispatch_good users pol hm ds now d : good d -> good (dispatch users pol hm ds now d).
Proof.
  apply dispatch_keeps.
  - intros x f p [-> | [-> | ->]]; apply on_alerts_good; intros a; (split; [by destruct a|]); by destruct a.
  - intros. by apply put_rule_good.
  - intros. by apply queue_good.
Qed.

(** *** Runs *)
Section Runs.
Context (EVENTS : list EventType).
(** One operation of the module, by the worker's cycle or a route. *)
Inductive alert_step (d : Db) : Db -> Prop :=
| step_evaluate run assets now clock force only last :
    alert_step d (fst (snd (evaluate EVENTS run assets now clock force only last d)))
| step_dispatch users pol hm ds now : alert_step d (dispatch users pol hm ds now d)
| step_send deliver now : alert_step d (send_pending deliver now d)
| step_cleanup now : alert_step d (cleanup now d)
| step_acknowledge now user id d' : acknowledge_alert now user id d = Ok d' -> alert_step d d'
| step_resolve now user id d' : resolve_alert now user id d = Ok d' -> alert_step d d'
| step_enable now user id on d' : set_rule_enabled now user id on d = Ok d' -> alert_step d d'
| step_update now user r d' : update_rule now user r d = Ok d' -> alert_step d d'
| step_delete now user id d' : delete_rule now user id d = Ok d' -> alert_step d d'
| step_add r : alert_step d (add_rule r d).
Inductive alert_run (d0 : Db) : Db -> Prop :=
| run_none : alert_run d0 d0
| run_more d d' : alert_run d0 d -> alert_step d d' -> alert_run d0 d'.

Lemma delete_good now user id d d' : delete_rule now user id d = Ok d' -> good d -> good d'.
Proof.
  unfold delete_rule. destruct (find_rule d id); [|done]. destruct (negb _); [|done]. intros [= <-] Hd.
  pose proof (close_good now user id d Hd) as Hc. apply map_ok; [exact Hc|].
  intros a (b & -> & Hb)%list_elem_of_fmap. set (c := if of_rule id b && is_open b then resolve now (Some user) b else b).
  split; [unfold unlink_rule; by destruct c|]. intros Ho.
  assert (Hoc : is_open c = true) by (unfold unlink_rule in Ho; by destruct c). split; [done|].
  assert (Hne : alert_rule c <> Some id).
  { unfold c in *. destruct (of_rule id b && is_open b) eqn:E.
    - apply andb_prop in E as [_ E]. unfold resolve in Hoc. rewrite E in Hoc. by destruct b.
    - rewrite Hoc, andb_true_r in E. unfold of_rule in E. by bool_prop. }
  unfold unlink_rule. rewrite bool_decide_eq_false_2 by done. by destruct c.
Qed.
Lemma alert_step_good d d' : alert_step d d' -> good d -> good d'.
Proof.
  intros H Hd. destruct H.
  - by apply evaluate_good.
  - by apply dispatch_good.
  - by apply (good_eq d).
  - by apply filter_alerts_ok.
  - unfold acknowledge_alert in *. destruct (find_alert d id); [|done]. destruct (bool_decide _); [|done]. simplify_eq.
    apply on_alerts_good; [|done]. intros. apply acknowledge_gentle.
  - unfold resolve_alert in *. destruct (find_alert d id); [|done]. destruct (is_open _); [|done]. simplify_eq.
    apply on_alerts_good; [|done]. intros. apply resolve_gentle.
  - unfold set_rule_enabled in *. destruct (find_rule d id); [|done]. simplify_eq. apply put_rule_good.
    destruct (_ && _); [by apply close_good|done].
  - unfold update_rule in *. destruct (find_rule d _); [|done]. destruct (bool_decide _); [|done]. simplify_eq. apply put_rule_good.
    destruct (_ && _); [by apply close_good|done].
  - by eapply delete_good.
  - by apply (good_eq d).
Qed.
Lemma alert_run_good d0 d : alerts d0 = [] -> alert_run d0 d -> good d.
Proof.
  intros H0 Hr. induction Hr as [|d d' _ IH Hs]; [|by eapply alert_step_good].
  unfold good. rewrite H0. split; [by apply NoDup_nil_2| | |]; [intros a Ha|intros a b Ha|intros a Ha]; by apply elem_of_nil in Ha.
Qed.
End Runs.

Lemma same_id l a b : NoDup (map alert_id l) -> a ∈ l -> b ∈ l -> alert_id a = alert_id b -> a = b.
Proof.
  induction l as [|c l IH]; intros Hn Ha Hb E; [by apply elem_of_nil in Ha|]. inversion Hn as [|? ? Hc Hn']; subst.
  apply elem_of_cons in Ha as [->|Ha], Hb as [->|Hb]; [done|exfalso|exfalso|auto].
  - apply Hc. rewrite E. by apply list_elem_of_fmap_2.
  - apply Hc. rewrite <- E. by apply list_elem_of_fmap_2.
Qed.
(** One problem has one open alert.  From an empty table, after any
    sequence of checks, dispatches, sends, clean-ups and calls of the routes,
    two open alerts of one fingerprint are the same row, and an open alert
    still names the rule whose fingerprint it has, deleted rules included. *)
Theorem one_open_alert EVENTS d0 d a b :
  alerts d0 = [] -> alert_run EVENTS d0 d -> a ∈ alerts d -> b ∈ alerts d ->
  is_open a = true -> is_open b = true -> fingerprint a = fingerprint b ->
  a = b /\ exists rule key, alert_rule a = Some rule /\ fingerprint a = prefix rule ++ key.
Proof.
  intros H0 Hr Ha Hb Hoa Hob E. pose proof (alert_run_good EVENTS d0 d H0 Hr) as [H1 _ H3 H4].
  split; [|by apply H4]. apply (same_id (alerts d)); auto.
Qed.

(** ** What a dispatch sends *)
Section Policy.
Context (users : list User) (pol : DeliveryPolicy) (hm : Z -> pystr) (ds : Z -> Z).
Notation queue := (queue_message users pol hm ds).
Notation sent_today now d := (sms_sent_today (ds now) (deliveries d)).

Lemma sms_count_app since l l' : sms_sent_today since (l ++ l') = sms_sent_today since l + sms_sent_today since l'.
Proof. unfold sms_sent_today. rewrite List.filter_app, length_app. lia. Qed.
(** Rows are appended, one after the other. *)
Lemma add_rows r k l now rows d :
  exists new, deliveries (foldl (add_row r k l now) d rows) = deliveries d ++ new /\
    Forall2 (fun w x => exists id, x = row_delivery r k l now id w) rows new.
Proof.
  revert d. induction rows as [|w rows IH]; intros d; simpl; [exists []; rewrite app_nil_r; by split|].
  destruct (IH (add_row r k l now d w)) as (new & E & H). rewrite E. simpl. rewrite <- app_assoc. eexists. split; [reflexivity|].
  constructor; [by eexists|done].
Qed.
(** The rows of the SMS keep within what is left of the limit. *)
Definition live_sms (w : Row) : bool := bool_decide (row_channel w = CHANNEL_SMS) && bool_decide (row_held w = None).
Lemma sms_rows_count phones held limit n :
  n + Z.of_nat (length (List.filter live_sms (sms_rows phones held true limit n))) <= Z.max limit n.
Proof.
  revert n. induction phones as [|p phones IH]; intros n; simpl; [lia|].
  destruct held as [why|]; simpl; [apply IH|]. destruct (limit <=? n) eqn:E; simpl; [apply IH|].
  specialize (IH (n + 1)). bool_prop. lia.
Qed.
Lemma counted_rows since r k l now rows new :
  Forall2 (fun w x => exists id, x = row_delivery r k l now id w) rows new ->
  sms_sent_today since new <= Z.of_nat (length (List.filter live_sms rows)).
Proof.
  unfold sms_sent_today. induction 1 as [|w x rows new [id ->] _ IH]; simpl; [lia|].
  unfold counts_as_sms at 1, live_sms at 1. cbn [row_delivery channel delivery_status created_at kind].
  destruct (bool_decide (row_channel w = CHANNEL_SMS)); simpl; [|lia].
  destruct (row_held w) as [why|]; simpl; [rewrite andb_false_r; simpl; lia|]. destruct (_ && _); simpl length; lia.
Qed.
Lemma queue_channel_count r k l now d c :
  0 < daily_limit pol -> k <> test ->
  sent_today now (queue_channel users pol hm ds r k l now d c) <= Z.max (daily_limit pol) (sent_today now d).
Proof.
  intros Hl Hk. unfold queue_channel. destruct (add_rows r k l now (channel_rows users pol hm ds r k l now d c) d) as (new & -> & H).
  rewrite sms_count_app. apply (counted_rows (ds now)) in H. unfold channel_rows in H.
  destruct (_recipients users r l) as [emails phones]. destruct c as [| | |h]; simpl in H.
  - rewrite (proj2 (filter_is_nil _ _)) in H; [simpl in H; lia|]. by intros y (to & -> & _)%list_elem_of_fmap.
  - replace (negb (daily_limit pol =? 0)) with true in H by (destruct (Z.eqb_spec (daily_limit pol) 0); [lia|done]).
    rewrite bool_decide_eq_false_2 in H by done. simpl in H.
    pose proof (sms_rows_count phones (sms_held pol hm r k (worst l) now) (daily_limit pol) (sent_today now d)). lia.
  - rewrite (proj2 (filter_is_nil _ _)) in H; [simpl in H; lia|]. by intros y (to & -> & _)%list_elem_of_fmap.
  - lia.
Qed.
(** The daily SMS limit holds.  With a limit set, a whole dispatch (new
    alerts, reminders and resolved notices of every rule) leaves at most the
    limit of SMS counted since the server's midnight, or what there already was
    when the limit was lowered below it. *)
Theorem sms_limit_kept now d :
  0 < daily_limit pol ->
  sent_today now (dispatch users pol hm ds now d) <= Z.max (daily_limit pol) (sent_today now d).
Proof.
  intros Hl. apply (dispatch_keeps (fun y => sent_today now y <= Z.max (daily_limit pol) (sent_today now d))); [by intros|by intros| |lia].
  intros x r k l Hk _ Hx. unfold queue_message. destruct (_ || _); [done|].
  apply (foldl_keeps (fun y => sent_today now y <= Z.max (daily_limit pol) (sent_today now d))); [|done].
  intros y c _ Hy. pose proof (queue_channel_count r k l now y c Hl Hk). lia.
Qed.

(** A queued row is one the policy admits for the severity. *)
Definition sms_allowed (r : NotificationRule) (s : Severity) (now : Z) : Prop :=
  (s = critical /\ critical_in_quiet_hours pol = true) \/
  in_window (fst (quiet_hours pol (quiet_start r) (quiet_end r))) (snd (quiet_hours pol (quiet_start r) (quiet_end r))) (hm now) = false.
Definition within_policy (rs : list NotificationRule) (now : Z) (x : NotificationDelivery) : Prop :=
  (delivery_status x = skipped <-> error x <> None) /\
  (delivery_status x <> skipped ->
   delivery_status x = pending /\ channel_block pol (channel x) (delivery_severity x) = None /\
   (channel x = CHANNEL_SMS -> exists r, r ∈ rs /\ delivery_rule x = rule_id r /\ sms_allowed r (delivery_severity x) now)).
Lemma sms_held_none r k s now : k <> test -> sms_held pol hm r k s now = None -> channel_block pol CHANNEL_SMS s = None /\ sms_allowed r s now.
Proof.
  intros Hk. unfold sms_held, sms_allowed. rewrite (bool_decide_eq_false_2 (k = test)) by done.
  destruct (channel_block pol CHANNEL_SMS s); [done|]. destruct (quiet_hours _ _ _) as [a b]. cbn [fst snd].
  destruct (bool_decide (s = critical) && critical_in_quiet_hours pol) eqn:T; simpl.
  - bool_prop. auto.
  - destruct (in_window a b (hm now)); [done|]. auto.
Qed.
Lemma sms_rows_held phones held counting limit n w :
  w ∈ sms_rows phones held counting limit n -> row_channel w = CHANNEL_SMS /\ (row_held w = None -> held = None).
Proof.
  revert n. induction phones as [|p phones IH]; intros n; simpl; [by intros ?%elem_of_nil|].
  destruct held as [why|]; [|destruct counting; [destruct (limit <=? n)|]];
    (intros [->|Hw]%elem_of_cons; [done|by eapply IH]).
Qed.
Lemma rows_admitted r k l now d c w :
  k <> test -> w ∈ channel_rows users pol hm ds r k l now d c -> row_held w = None ->
  channel_block pol (row_channel w) (worst l) = None /\ (row_channel w = CHANNEL_SMS -> sms_allowed r (worst l) now).
Proof.
  intros Hk. unfold channel_rows. destruct (_recipients users r l) as [emails phones]. rewrite (bool_decide_eq_false_2 (k = test)) by done.
  destruct c as [| | |h].
  - by intros (to & -> & _)%list_elem_of_fmap.
  - intros [E H]%sms_rows_held Hh. rewrite E. destruct (sms_held_none r k (worst l) now Hk (H Hh)). auto.
  - by intros (to & -> & _)%list_elem_of_fmap.
  - by intros ->%list_elem_of_singleton.
Qed.
Lemma queued_within rs r k l now rows new :
  (exists r', r' ∈ rs /\ rule_id r' = rule_id r /\ (forall s, sms_allowed r s now -> sms_allowed r' s now)) ->
  (forall w, w ∈ rows -> row_held w = None ->
     channel_block pol (row_channel w) (worst l) = None /\ (row_channel w = CHANNEL_SMS -> sms_allowed r (worst l) now)) ->
  Forall2 (fun w x => exists id, x = row_delivery r k l now id w) rows new -> Forall (within_policy rs now) new.
Proof.
  intros (r' & Hr' & Er & Hs') Hw H. induction H as [|w x rows new [id ->] _ IH]; constructor; [|apply IH; intros; apply Hw; [by right|done]].
  specialize (Hw w (list_elem_of_here _ _)). unfold within_policy. cbn [row_delivery delivery_status error channel delivery_severity delivery_rule].
  destruct (row_held w); [by split|]. destruct (Hw eq_refl) as [? Hs]. split; [done|]. intros _. split; [done|]. split; [done|].
  intros E. exists r'. auto.
Qed.

(** The rules of a dispatch are those of the table but for the time of their
    last message. *)
Definition same_rules (rs rs' : list NotificationRule) : Prop :=
  forall r, r ∈ rs' -> exists r', r' ∈ rs /\ rule_id r' = rule_id r /\ quiet_start r' = quiet_start r /\ quiet_end r' = quiet_end r.
Lemma same_rules_put rs d r t : r ∈ rules d -> same_rules rs (rules d) -> same_rules rs (rules (put_rule (r {{ last_sent_at := t }}) d)).
Proof.
  intros Hr H q (q' & -> & Hq)%list_elem_of_fmap. destruct (rule_id q' =? _); [|by apply H].
  destruct (H r Hr) as (r' & ? & ? & ? & ?). exists r'. by destruct r.
Qed.

(** What the delivery policy holds back is never sent by a dispatch.  A
    delivery a dispatch adds is skipped exactly when it carries a reason; every
    other one is pending, its channel admits its severity, and an SMS was queued
    outside the quiet hours that apply to its rule in the table, or it is critical
    and the policy lets critical messages through. *)
Theorem policy_kept now d x :
  x ∈ deliveries (dispatch users pol hm ds now d) -> x ∉ deliveries d -> within_policy (rules d) now x.
Proof.
  intros Hx Hn. set (P := fun y => same_rules (rules d) (rules y) /\ Forall (fun x => x ∈ deliveries d \/ within_policy (rules d) now x) (deliveries y)).
  cut (P (dispatch users pol hm ds now d)). { intros [_ H]. rewrite list.Forall_forall in H. by destruct (H x Hx). }
  apply dispatch_keeps.
  - by intros y f p _.
  - intros y r Hr [H1 H2]. split; [by apply same_rules_put|done].
  - intros y r k l Hk Hr [H1 H2]. split; [by rewrite queue_rules|]. destruct (H1 r Hr) as (r' & Hr' & E1 & E2 & E3). clear Hr H1.
    unfold queue_message. destruct (_ || _); [done|].
    apply (foldl_keeps (fun y => Forall (fun x => x ∈ deliveries d \/ within_policy (rules d) now x) (deliveries y))); [|done].
    intros z c _ Hz. unfold queue_channel. destruct (add_rows r k l now (channel_rows users pol hm ds r k l now z c) z) as (new & -> & H).
    apply Forall_app. split; [done|]. eapply list.Forall_impl; [|intros w Hw; right; exact Hw].
    eapply queued_within; [|intros w; by apply rows_admitted|exact H].
    exists r'. split; [done|]. split; [done|]. intros s. unfold sms_allowed. by rewrite E2, E3.
  - split; [intros r Hr; by exists r|]. apply list.Forall_forall. auto.
Qed.
End Policy.

(** ** Retries *)
Definition tries_left (x : NotificationDelivery) : nat :=
  if bool_decide (delivery_status x = pending) then (3 - Z.to_nat (attempts x))%nat else 0%nat.
Definition queue_work (d : Db) : nat := list_sum (map tries_left (deliveries d)).
(** What waits was tried at most twice and is due by [t]. *)
Definition waiting_by (t : Z) (d : Db) : Prop :=
  forall x, x ∈ deliveries d -> delivery_status x = pending -> 0 <= attempts x <= 2 /\ next_attempt_at x <= t.
Lemma send_one_left now o x :
  (delivery_status x = pending -> 0 <= attempts x <= 2) ->
  (tries_left (send_one now o x) <= tries_left x)%nat /\ (delivery_status x = pending -> (tries_left (send_one now o x) < tries_left x)%nat).
Proof.
  intros Hx. destruct (decide (delivery_status x = pending)) as [Hp|Hp].
  - specialize (Hx Hp). assert (Ha : attempts x = 0 \/ attempts x = 1 \/ attempts x = 2) by lia. unfold tries_left.
    rewrite (bool_decide_eq_true_2 (delivery_status x = pending)) by done.
    assert ((if bool_decide (delivery_status (send_one now o x) = pending) then (3 - Z.to_nat (attempts (send_one now o x)))%nat else 0%nat)
      < 3 - Z.to_nat (attempts x))%nat; [|lia].
    destruct x; simpl in *; subst. destruct Ha as [-> | [-> | ->]]; destruct o; vm_compute; lia.
  - split; [|done]. assert (delivery_status (send_one now o x) <> pending).
    { unfold send_one. destruct o; [done| |done]. destruct (RETRY_DELAYS !! _); [by destruct x|done]. }
    unfold tries_left. by rewrite !bool_decide_eq_false_2.
Qed.
Lemma send_one_waiting now o x :
  delivery_status (send_one now o x) = pending -> 0 <= attempts x ->
  delivery_status x = pending /\ 0 <= attempts (send_one now o x) <= 2 /\ next_attempt_at (send_one now o x) <= now + minutes 5.
Proof.
  unfold send_one. destruct o; [done| |done]. destruct (RETRY_DELAYS !! Z.to_nat (attempts x)) as [delay|] eqn:E; [|done].
  intros Hp Hx. assert (Ha : attempts x = 0 /\ delay = minutes 1 \/ attempts x = 1 /\ delay = minutes 5).
  { destruct (Z.to_nat (attempts x)) as [|[|n]] eqn:En; simplify_eq/=; [left|right]; split; done || lia. }
  destruct x; simpl in *. unfold minutes in *. split; [done|]. destruct Ha as [[-> ->] | [-> ->]]; lia.
Qed.
Lemma list_sum_less {A} (f g : A -> nat) l :
  (forall x, x ∈ l -> (f x <= g x)%nat) ->
  (list_sum (map f l) <= list_sum (map g l))%nat /\ ((exists x, x ∈ l /\ (f x < g x)%nat) -> (list_sum (map f l) < list_sum (map g l))%nat).
Proof.
  induction l as [|y l IH]; intros H; simpl; [split; [lia|]; by intros (x & Hx%elem_of_nil & _)|].
  destruct IH as [IH1 IH2]; [intros; apply H; by right|]. specialize (H y (list_elem_of_here _ _)). split; [lia|].
  intros (x & [->|Hx]%elem_of_cons & Hl); [lia|]. assert (exists x, x ∈ l /\ (f x < g x)%nat) by eauto. specialize (IH2 ltac:(done)). lia.
Qed.
Lemma batch_hits now d : (exists x, x ∈ deliveries d /\ due_delivery now x = true) ->
  exists y, y ∈ deliveries d /\ due_delivery now y = true /\ mem (delivery_id y) (batch now d) = true.
Proof.
  intros (x & Hx & Hd). assert (Hf : x ∈ List.filter (due_delivery now) (deliveries d)) by by apply elem_filter.
  unfold batch. destruct (List.filter (due_delivery now) (deliveries d)) as [|y l] eqn:E; [by apply elem_of_nil in Hf|].
  exists y. assert (Hy : y ∈ List.filter (due_delivery now) (deliveries d)) by (rewrite E; by left).
  apply elem_filter in Hy as [? ?]. split; [done|]. split; [done|]. apply bool_decide_eq_true_2. simpl. by left.
Qed.
Lemma pass_progress deliver t now d :
  waiting_by t d -> t <= now ->
  waiting_by (now + minutes 5) (send_pending deliver now d) /\
  ((exists x, x ∈ deliveries d /\ delivery_status x = pending) -> (queue_work (send_pending deliver now d) < queue_work d)%nat) /\
  (queue_work (send_pending deliver now d) <= queue_work d)%nat.
Proof.
  intros Hw Ht. split; [|].
  - intros y (x & -> & Hx)%list_elem_of_fmap. destruct (mem _ _); [|intros Hp; destruct (Hw x Hx Hp); unfold minutes; lia].
    intros Hp. destruct (decide (0 <= attempts x)) as [Hz|Hz]; [by apply send_one_waiting|].
    exfalso. assert (Hpx : delivery_status x = pending).
    { revert Hp. unfold send_one. destruct (deliver x); [done| |done]. destruct (RETRY_DELAYS !! _); [by destruct x|done]. }
    destruct (Hw x Hx Hpx). lia.
  - unfold queue_work. set (g := fun x => if mem (delivery_id x) (batch now d) then send_one now (deliver x) x else x).
    change (deliveries (send_pending deliver now d)) with (map g (deliveries d)). rewrite map_map.
    destruct (list_sum_less (fun x => tries_left (g x)) tries_left (deliveries d)) as [H1 H2].
    { intros x Hx. unfold g. destruct (mem _ _); [|done]. apply send_one_left. intros Hp. by destruct (Hw x Hx Hp). }
    split; [|done]. intros (x & Hx & Hp). apply H2.
    assert (Hd : due_delivery now x = true).
    { unfold due_delivery. rewrite bool_decide_eq_true_2 by done. destruct (Hw x Hx Hp). simpl. apply Z.leb_le. lia. }
    destruct (batch_hits now d) as (y & Hy & Hdy & Hm); [eauto|]. exists y. split; [done|]. unfold g. rewrite Hm.
    apply andb_prop in Hdy as [Hpy%bool_decide_eq_true _]. apply send_one_left; [|done]. intros _. by destruct (Hw y Hy Hpy).
Qed.
(** Passes at least five minutes apart, from [t] on; each has the outcomes of its sends. *)
Fixpoint spaced (t : Z) (l : list (Z * (NotificationDelivery -> outcome))) : Prop :=
  match l with [] => True | (now, _) :: l => t <= now /\ spaced (now + minutes 5) l end.
(** The queue drains.  Whatever the sends answer, once there were as many
    passes, five minutes apart, as tries are left in the queue (three per new
    delivery), no delivery is pending: every one was sent or failed for good. *)
Theorem queue_drains passes t d :
  waiting_by t d -> spaced t passes -> (queue_work d <= length passes)%nat ->
  forall x, x ∈ deliveries (foldl (fun d p => send_pending (snd p) (fst p) d) d passes) -> delivery_status x <> pending.
Proof.
  revert t d. induction passes as [|[now deliver] passes IH]; intros t d Hw Hs Hl.
  - intros x Hx Hp. destruct (Hw x Hx Hp) as [Ha _]. destruct (list_sum_less (fun _ => 0%nat) tries_left (deliveries d)) as [_ H]; [lia|].
    assert (exists x, x ∈ deliveries d /\ (0 < tries_left x)%nat) as Hex.
    { exists x. split; [done|]. unfold tries_left. rewrite bool_decide_eq_true_2 by done. lia. }
    specialize (H Hex). unfold queue_work in Hl. simpl in Hl. lia.
  - destruct Hs as [Ht Hs]. cbn [foldl fst snd]. destruct (pass_progress deliver t now d Hw Ht) as (Hw' & Hlt & Hle).
    apply (IH (now + minutes 5)); [done|done|]. simpl in Hl.
    destruct (decide (Exists (fun x => delivery_status x = pending) (deliveries d))) as [Hex|Hno].
    + apply list.Exists_exists in Hex. specialize (Hlt Hex). lia.
    + assert (queue_work (send_pending deliver now d) = 0%nat); [|lia]. assert (queue_work d = 0%nat); [|lia].
      unfold queue_work. clear -Hno. induction (deliveries d) as [|x l IHl]; [done|]. simpl.
      rewrite IHl by (intros H; apply Hno; by right). unfold tries_left. rewrite bool_decide_eq_false_2; [done|].
      intros H. apply Hno. by left.
Qed.

(** ** Quiet hours *)
(** HH:MM of a minute of the day. *)
Definition two_digits (n : Z) : pystr := [ascii_of_nat (48 + Z.to_nat (n / 10)); ascii_of_nat (48 + Z.to_nat (n mod 10))].
Definition hhmm (m : Z) : pystr := two_digits (m / 60) ++ py ":" ++ two_digits (m mod 60).
Lemma two_digits_cmp a b : 0 <= a < 60 -> 0 <= b < 60 -> str_cmp (two_digits a) (two_digits b) = (a ?= b).
Proof.
  intros Ha Hb. pose proof (range_forall2 (fun a b => bool_decide (str_cmp (two_digits a) (two_digits b) = (a ?= b))) 60 60) as R.
  assert (Hf : forallb (fun x => forallb (fun b => bool_decide (str_cmp (two_digits x) (two_digits b) = (x ?= b))) (map Z.of_nat (List.seq 0 60)))
    (map Z.of_nat (List.seq 0 60)) = true) by (vm_compute; reflexivity).
  specialize (R Hf a b Ha Hb). by apply bool_decide_eq_true in R.
Qed.
Lemma str_cmp_app2 a b a' b' : length a = length b -> str_cmp (a ++ a') (b ++ b') = match str_cmp a b with Eq => str_cmp a' b' | c => c end.
Proof.
  revert b. induction a as [|x a IH]; intros [|y b] H; simplify_eq/=; [done|]. destruct (ord x ?= ord y); auto.
Qed.
Lemma hhmm_cmp a b : 0 <= a < 1440 -> 0 <= b < 1440 -> str_cmp (hhmm a) (hhmm b) = (a ?= b).
Proof.
  intros Ha Hb. unfold hhmm. rewrite str_cmp_app2 by done. rewrite two_digits_cmp by (split; [apply Z.div_pos|apply Z.div_lt_upper_bound]; lia).
  rewrite str_cmp_app2 by done. rewrite two_digits_cmp by (apply Z.mod_pos_bound; lia).
  pose proof (Z.div_mod a 60) as Ea. pose proof (Z.div_mod b 60) as Eb. pose proof (Z.mod_pos_bound a 60). pose proof (Z.mod_pos_bound b 60).
  destruct (Z.compare_spec (a / 60) (b / 60)) as [E|E|E]; simpl.
  - destruct (Z.compare_spec (a mod 60) (b mod 60)), (Z.compare_spec a b); lia || done.
  - symmetry. apply Z.compare_lt_iff. lia.
  - symmetry. apply Z.compare_gt_iff. lia.
Qed.
(** The comparison of HH:MM texts is the window on the clock, midnight
    included: a time is within the quiet hours exactly when it is less far after
    their start, around the clock, than their end is. *)
Theorem window_on_the_clock start stop t :
  0 <= start < 1440 -> 0 <= stop < 1440 -> 0 <= t < 1440 ->
  in_window (Some (hhmm start)) (Some (hhmm stop)) (hhmm t) = ((t - start) mod 1440 <? (stop - start) mod 1440).
Proof.
  intros Hs He Ht. unfold in_window, str_le, str_lt. change (filled (Some (hhmm start))) with true. change (filled (Some (hhmm stop))) with true.
  cbn [negb orb from_option id]. rewrite !hhmm_cmp by done. assert (Hm : forall x, -1440 < x < 1440 -> x mod 1440 = if x <? 0 then x + 1440 else x).
  { intros x Hx. destruct (Z.ltb_spec x 0); [|apply Z.mod_small; lia]. symmetry. apply (Z.mod_unique _ _ (-1)); lia. }
  rewrite !Hm by lia. apply eq_iff_eq_true.
  destruct (Z.compare_spec start stop), (Z.compare_spec start t), (Z.compare_spec t stop), (Z.ltb_spec (t - start) 0), (Z.ltb_spec (stop - start) 0);
    simpl; rewrite ?Z.ltb_lt; (split; [intros; lia || done|intros; lia || done]).
Qed.

(** ** A concrete table *)
Module Sample.
Definition device_down : EventType := MkEvent (py "device.unreachable") state 60 ∅.
Definition task_stopped : EventType := MkEvent (py "system.task_stopped") state 60 {[ py "minutes" := 5000000 ]}.
Definition night_rule : NotificationRule :=
  MkRule 7 (py "device.unreachable") true warning ∅ scope_all (MkFilter [] [] []) (MkRecipients [] [] [] [py "+31611111111"; py "+31622222222"] false)
    [CHANNEL_SMS] 60 true (Some (py "22:00")) (Some (py "07:00")) 0 false None None 0.
Definition down (k : pystr) : Problem := MkProblem k (py "Device unreachable") None (Some 3) None None.
Definition empty_db : Db := MkDb [night_rule] [] [] 1 1 8 ∅.
Definition run_down (_ : EventType) (_ : gmap pystr Z) (_ : Z) : option (list Problem) := Some [down (py "3"); down (py "3"); down (py "4")].
Definition checked : Db := fst (snd (evaluate [device_down] run_down ∅ 100 0 true None ∅ empty_db)).
Definition limited : DeliveryPolicy := MkPolicy true info true info None None true 1.
Definition noon (_ : Z) : pystr := py "12:00".
Definition night (_ : Z) : pystr := py "23:30".
Definition day0 (_ : Z) : Z := 0.
Definition mailed : Db := dispatch [] limited noon day0 100 checked.

Lemma checked_reachable : alert_run [device_down] empty_db checked.
Proof. eapply run_more; [apply run_none|]. apply step_evaluate. Qed.
Lemma checked_good : alerts_ok (alerts checked) (next_alert checked).
Proof. by apply (alert_run_good [device_down] empty_db); [|apply checked_reachable]. Qed.
End Sample.

Lemma check_exactly_witness :
  opened (py "7:3") (alerts (fst (_apply Sample.night_rule Sample.device_down [Sample.down (py "3")] ∅ 200 Sample.checked))) = true /\
  opened (py "7:4") (alerts (fst (_apply Sample.night_rule Sample.device_down [Sample.down (py "3")] ∅ 200 Sample.checked))) = false.
Proof.
  destruct (check_exactly Sample.night_rule Sample.device_down [Sample.down (py "3")] ∅ 200 Sample.checked Sample.checked_good) as [H _].
  split; [etrans; [exact (H (py "3"))|]|etrans; [exact (H (py "4"))|]]; vm_compute; reflexivity.
Defined.
Lemma one_open_alert_witness : exists a b, a ∈ alerts Sample.checked /\ b ∈ alerts Sample.checked /\ fingerprint a <> fingerprint b /\
  exists rule key, alert_rule a = Some rule /\ fingerprint a = prefix rule ++ key.
Proof.
  exists (new_alert 1 Sample.night_rule Sample.device_down (py "7:3") (Sample.down (py "3")) 100),
    (new_alert 2 Sample.night_rule Sample.device_down (py "7:4") (Sample.down (py "4")) 100).
  assert (E : alerts Sample.checked = [new_alert 1 Sample.night_rule Sample.device_down (py "7:3") (Sample.down (py "3")) 100;
    new_alert 2 Sample.night_rule Sample.device_down (py "7:4") (Sample.down (py "4")) 100]) by (vm_compute; reflexivity).
  split; [rewrite E; by left|]. split; [rewrite E; right; by left|]. split; [by vm_compute|].
  eapply (one_open_alert [Sample.device_down] Sample.empty_db Sample.checked);
    [reflexivity|apply Sample.checked_reachable|rewrite E; by left|rewrite E; by left|reflexivity..].
Defined.
Lemma sms_limit_kept_witness :
  sms_sent_today 0 (deliveries Sample.mailed) <= 1 /\ length (deliveries Sample.mailed) = 2%nat /\ sms_sent_today 0 (deliveries Sample.mailed) = 1.
Proof.
  split; [|split; vm_compute; reflexivity].
  exact (sms_limit_kept [] Sample.limited Sample.noon Sample.day0 100 Sample.checked ltac:(reflexivity)).
Defined.
Lemma policy_kept_witness : exists x, x ∈ deliveries (dispatch [] Sample.limited Sample.night Sample.day0 100 Sample.checked) /\
  delivery_status x = skipped /\ within_policy Sample.limited Sample.night [Sample.night_rule] 100 x.
Proof.
  set (l := deliveries (dispatch [] Sample.limited Sample.night Sample.day0 100 Sample.checked)).
  exists (MkDelivery 1 [1; 2] 7 CHANNEL_SMS (Some (py "+31611111111")) raised warning skipped 0 100 (Some (py "Quiet hours 22:00-07:00")) 100 None).
  assert (E : head l = Some (MkDelivery 1 [1; 2] 7 CHANNEL_SMS (Some (py "+31611111111")) raised warning skipped 0 100 (Some (py "Quiet hours 22:00-07:00")) 100 None))
    by (vm_compute; reflexivity).
  assert (Hin : MkDelivery 1 [1; 2] 7 CHANNEL_SMS (Some (py "+31611111111")) raised warning skipped 0 100 (Some (py "Quiet hours 22:00-07:00")) 100 None ∈ l).
  { destruct l; [done|]. injection E as ->. by left. }
  split; [done|]. split; [done|].
  assert (Er : [Sample.night_rule {{ last_fired_at := Some 100 }}] = rules Sample.checked) by (vm_compute; reflexivity).
  assert (Ed : deliveries Sample.checked = []) by (vm_compute; reflexivity).
  pose proof (policy_kept [] Sample.limited Sample.night Sample.day0 100 Sample.checked _ Hin) as H. rewrite Ed, <- Er in H.
  destruct H as [H1 H2]; [by intros ?%elem_of_nil|]. split; [done|]. by intros [].
Defined.
Lemma queue_drains_witness :
  Forall (fun x => delivery_status x <> pending) (deliveries (foldl (fun d p => send_pending (snd p) (fst p) d) Sample.mailed
    [(100, fun _ => DeliveryError (py "timeout")); (minutes 10, fun _ => DeliveryError (py "timeout")); (minutes 20, fun _ => DeliveryError (py "timeout"))])).
Proof.
  apply list.Forall_forall.
  apply (queue_drains _ 100 Sample.mailed); [|split; [lia|split; [vm_compute; discriminate|split; [vm_compute; discriminate|done]]]|vm_compute; lia].
  intros x Hx. assert (E : forallb (fun x => (0 <=? attempts x) && (attempts x <=? 2) && (next_attempt_at x <=? 100)) (deliveries Sample.mailed) = true)
    by (vm_compute; reflexivity).
  rewrite forallb_forall in E. specialize (E x ltac:(by apply list_elem_of_In)). bool_prop. lia.
Defined.
Lemma window_on_the_clock_witness :
  in_window (Some (py "22:00")) (Some (py "07:00")) (py "03:15") = true /\ in_window (Some (py "22:00")) (Some (py "07:00")) (py "07:00") = false.
Proof. split; [exact (window_on_the_clock 1320 420 195 ltac:(lia) ltac:(lia) ltac:(lia))|exact (window_on_the_clock 1320 420 420 ltac:(lia) ltac:(lia) ltac:(lia))]. Defined.
