(* ===== verification/Singleton.v ===== *)
(** * One process runs each background loop (src/app/core/singleton.py)

    The server runs several worker processes; each has a [SingletonTask] per
    loop, and a PostgreSQL advisory lock decides which of them starts it.  A
    worker is the state of its [_run] coroutine between two awaits ([Phase]);
    the system is the workers, the lock, the maintenance flag and the clock, and
    its steps interleave.  A connection may be lost at any time, a query may
    fail, a process may end; a coroutine ends when it cannot connect, and the
    thread of one that was cancelled may still take the lock.  [start] and [stop] are the loop's own: a stop
    that was awaited, or cancelled while it waits for the loop's task, has
    stopped the loop.  Times are microseconds of the event loop's clock. *)
From S2P Require Import Prelude PyStr.

Definition seconds (n : Z) : Z := n * 1000000.
Definition RETRY_SECONDS : Z := 30.
Definition PAUSE_CHECK_SECONDS : Z := 5.

(** ** A worker *)
(** Where [_run], and after it [stop], awaits; with the local [paused]. *)
Inductive Phase : Type :=
| Top | PauseStop | Trying (paused : bool) | Answered (paused got : bool) | Checking (paused : bool)
| LostStop | Releasing | Waiting (since : Z) | Ended | ShutStop | ShutRelease | Off.
#[export] Instance Phase_dec : EqDecision Phase.
Proof. solve_decision. Defined.
Record SingletonTask : Type := MkTask {
  conn : bool; leading : bool; _paused : bool; running : bool; last_lock_check : Z; _stopping : option Z; phase : Phase }.
(** A worker that has just called [start]. *)
Definition started : SingletonTask := MkTask false false false false 0 None Top.

Section Worker.
Context (retry_seconds : Z).
Definition retry : Z := seconds retry_seconds.
Definition wait_until (since : Z) : Z := since + Z.min retry (seconds PAUSE_CHECK_SECONDS).

(** Up to the next await, from each place the coroutine may be at. *)
Definition put_check (now : Z) (p : Phase) (w : SingletonTask) : SingletonTask := w {{ last_lock_check := now; phase := p }}.
Definition lock_check (now : Z) (paused : bool) (w : SingletonTask) : SingletonTask :=
  if retry <=? now - last_lock_check w
  then put_check now (if conn w then Checking paused else Trying paused) w
  else w {{ phase := Waiting now }}.
Definition pause (w : SingletonTask) : SingletonTask := w {{ _paused := true; phase := PauseStop }}.
Definition resume (w : SingletonTask) : SingletonTask := w {{ _paused := false; running := true }}.
Definition top (now : Z) (maintenance : bool) (w : SingletonTask) : SingletonTask :=
  match _stopping w with
  | Some _ => w {{ phase := Ended }}
  | None =>
      if leading w && negb (eqb maintenance (_paused w)) then
        if maintenance then pause w else lock_check now false (resume w)
      else lock_check now maintenance w
  end.
Definition pause_stopped (now : Z) (w : SingletonTask) : SingletonTask := lock_check now true (w {{ running := false }}).
Definition lead (paused : bool) (w : SingletonTask) : SingletonTask :=
  w {{ conn := true; leading := true; _paused := paused; running := negb paused }}.
Definition answered (now : Z) (paused got : bool) (w : SingletonTask) : SingletonTask :=
  (if got then lead paused w else w) {{ phase := Waiting now }}.
Definition lose (w : SingletonTask) : SingletonTask :=
  if _paused w then w {{ leading := false; _paused := false; phase := Releasing }} else w {{ leading := false; phase := LostStop }}.
Definition checked (now : Z) (held : bool) (w : SingletonTask) : SingletonTask :=
  if held then w {{ phase := Waiting now }} else lose w.
Definition lost_stopped (w : SingletonTask) : SingletonTask := w {{ running := false; _paused := false; phase := Releasing }}.
Definition released (w : SingletonTask) : SingletonTask := w {{ conn := false; last_lock_check := 0; phase := Top }}.
Definition wakes (now : Z) (since : Z) (w : SingletonTask) : bool :=
  match _stopping w with Some _ => true | None => wait_until since <=? now end.

(** [stop]: it waits five seconds for the coroutine, then cancels it. *)
Definition cancelled (w : SingletonTask) : SingletonTask :=
  match phase w with
  | PauseStop | LostStop => w {{ running := false; phase := Ended }}
  | _ => w {{ phase := Ended }}
  end.
Definition close (w : SingletonTask) : SingletonTask :=
  if leading w then
    if _paused w then w {{ leading := false; _paused := false; phase := ShutRelease }} else w {{ leading := false; phase := ShutStop }}
  else w {{ phase := ShutRelease }}.
Definition shut_stopped (w : SingletonTask) : SingletonTask := w {{ running := false; _paused := false; phase := ShutRelease }}.
Definition shut_released (w : SingletonTask) : SingletonTask := w {{ conn := false; phase := Off }}.
Definition awaiting (p : Phase) : bool :=
  match p with PauseStop | Trying _ | Answered _ _ | Checking _ | LostStop | Releasing | Waiting _ => true | _ => false end.

(** One turn of the loop of [_run], given what the database answers. *)
Definition iteration (now : Z) (maintenance got held : bool) (w : SingletonTask) : SingletonTask :=
  let w := top now maintenance w in
  let w := match phase w with PauseStop => pause_stopped now w | _ => w end in
  match phase w with
  | Trying paused => answered now paused got w
  | Checking _ =>
      let w := checked now held w in
      match phase w with LostStop => released (lost_stopped w) | Releasing => released w | _ => w end
  | _ => w
  end.

(** ** The system *)
(** [late]: workers of which a thread still asks for the lock though its
    coroutine was cancelled; nothing uses the connection it gets. *)
Record Sys : Type := MkSys { workers : gmap nat SingletonTask; lock : option nat; maintenance : bool; clock : Z; late : list nat }.
Definition put (i : nat) (w : SingletonTask) (s : Sys) : Sys := s {{ workers := <[i := w]> (workers s) }}.
Definition set_lock (l : option nat) (s : Sys) : Sys := s {{ lock := l }}.
(** What the lock may be after worker [i] tried to take it, with the answer:
    an error after the lock was granted leaves it with the connection. *)
Definition tried (i : nat) (got : bool) (l l' : option nat) : Prop :=
  (l = None \/ l = Some i) /\ l' = Some i \/ got = false /\ l' = l.
(** ... and after it gave the lock back; an error may keep it. *)
Definition given_back (i : nat) (l l' : option nat) : Prop := l' = l \/ l = Some i /\ l' = None.

(** What a step tells of the connection of a worker: the server lost it while it
    held the lock, or the worker is done with it. *)
Inductive event : Type := Silent | Lost (i : nat) | Done (i : nat).
Inductive step (s : Sys) : event -> Sys -> Prop :=
| step_spawn i : workers s !! i = None -> step s Silent (put i started s)
| step_exit i l : given_back i (lock s) l -> l <> Some i -> step s (Done i) 
    (MkSys (delete i (workers s)) l (maintenance s) (clock s) (List.filter (fun j => negb (j =? i)%nat) (late s)))
| step_drop i : lock s = Some i -> step s (Lost i) (set_lock None s)
| step_tick t : clock s <= t -> step s Silent (s {{ clock := t }})
| step_maintenance b : step s Silent (s {{ maintenance := b }})
| step_stop i w : workers s !! i = Some w -> _stopping w = None -> step s Silent (put i (w {{ _stopping := Some (clock s) }}) s)
| step_top i w : workers s !! i = Some w -> phase w = Top -> step s Silent (put i (top (clock s) (maintenance s) w) s)
| step_pause_stopped i w : workers s !! i = Some w -> phase w = PauseStop -> step s Silent (put i (pause_stopped (clock s) w) s)
| step_try i w p got l : workers s !! i = Some w -> phase w = Trying p -> tried i got (lock s) l ->
    step s Silent (set_lock l (put i (w {{ phase := Answered p got }}) s))
| step_try_raises i w p : workers s !! i = Some w -> phase w = Trying p -> step s Silent (put i (w {{ phase := Off }}) s)
| step_late i l1 l2 got l : late s = l1 ++ i :: l2 -> tried i got (lock s) l -> step s Silent (set_lock l (s {{ late := l1 ++ l2 }}))
| step_answered i w p got : workers s !! i = Some w -> phase w = Answered p got -> step s Silent (put i (answered (clock s) p got w) s)
| step_check i w p held : workers s !! i = Some w -> phase w = Checking p -> (held = true -> lock s = Some i) ->
    step s Silent (put i (checked (clock s) held w) s)
| step_lost_stopped i w : workers s !! i = Some w -> phase w = LostStop -> step s Silent (put i (lost_stopped w) s)
| step_release i w l : workers s !! i = Some w -> phase w = Releasing -> given_back i (lock s) l ->
    step s (Done i) (set_lock l (put i (released w) s))
| step_wake i w since : workers s !! i = Some w -> phase w = Waiting since -> wakes (clock s) since w = true ->
    step s Silent (put i (w {{ phase := Top }}) s)
| step_cancel i w t : workers s !! i = Some w -> _stopping w = Some t -> t + seconds 5 <= clock s -> awaiting (phase w) = true ->
    step s Silent (put i (cancelled w) (s {{ late := match phase w with Trying _ => i :: late s | _ => late s end }}))
| step_close i w : workers s !! i = Some w -> phase w = Ended -> step s Silent (put i (close w) s)
| step_shut_stopped i w : workers s !! i = Some w -> phase w = ShutStop -> step s Silent (put i (shut_stopped w) s)
| step_shut_release i w l : workers s !! i = Some w -> phase w = ShutRelease -> (conn w = true /\ given_back i (lock s) l \/ conn w = false /\ l = lock s) ->
    step s (Done i) (set_lock l (put i (shut_released w) s)).
(** What can be reached from no workers, with the workers that hold on to a
    connection the server has lost. *)
Definition after_event (e : event) (D : gset nat) : gset nat :=
  match e with Silent => D | Lost i => {[ i ]} ∪ D | Done i => D ∖ {[ i ]} end.
Inductive reach : gset nat -> Sys -> Prop :=
| reach_none m t : reach ∅ (MkSys ∅ None m t [])
| reach_step D e s s' : reach D s -> step s e s' -> reach (after_event e D) s'.

(** ** Invariants *)
(** What the fields of a worker say of one another, at each await. *)
Definition sound (w : SingletonTask) : bool :=
  implb (leading w) (conn w) && implb (running w) (conn w) && implb (_paused w) (leading w) &&
  match phase w with
  | PauseStop => leading w && _paused w && running w
  | LostStop | ShutStop => conn w && negb (leading w) && running w
  | p => eqb (running w) (leading w && negb (_paused w)) &&
         match p with Trying _ | Answered _ _ | Off => negb (conn w) | Checking _ => leading w | Releasing => conn w && negb (leading w) | ShutRelease => negb (leading w) | Top | Waiting _ => eqb (conn w) (leading w) | _ => true end
  end.
(** The worker has the lock, or its thread has just been granted it. *)
Definition holds (w : SingletonTask) : bool := conn w || match phase w with Answered _ true => true | _ => false end.

Ltac worker := intros; match goal with w : SingletonTask |- _ => destruct w as [[] [] [] [] ? ? []] end; simplify_eq/=; try done.
Lemma lock_check_sound now p w :
  implb (leading w) (conn w) && implb (_paused w) (leading w) && eqb (running w) (leading w && negb (_paused w)) && implb (conn w) (leading w) = true ->
  sound (lock_check now p w) = true /\ holds (lock_check now p w) = conn w.
Proof. unfold lock_check. destruct (retry <=? _); worker. Qed.
Lemma top_sound now m w : sound w = true -> phase w = Top -> sound (top now m w) = true /\ holds (top now m w) = conn w.
Proof.
  unfold top. destruct (_stopping w); [worker|]. intros Hs Hp. destruct (leading w && negb (eqb m (_paused w))) eqn:E; [destruct m|].
  - revert Hs Hp E. worker.
  - destruct (lock_check_sound now false (resume w)) as [H1 H2]; [revert Hs Hp E; worker|]. split; [done|]. rewrite H2. by destruct w.
  - apply lock_check_sound. revert Hs Hp E. worker.
Qed.
Lemma pause_stopped_sound now w : sound w = true -> phase w = PauseStop -> sound (pause_stopped now w) = true /\ holds (pause_stopped now w) = conn w.
Proof.
  intros Hs Hp. destruct (lock_check_sound now true (w {{ running := false }})) as [H1 H2]; [revert Hs Hp; worker|].
  split; [done|]. unfold pause_stopped. rewrite H2. by destruct w.
Qed.
Lemma answered_sound now p got w : sound w = true -> phase w = Answered p got ->
  sound (answered now p got w) = true /\ holds (answered now p got w) = got.
Proof. unfold answered. destruct got, p; worker. Qed.
Lemma checked_sound now p held w : sound w = true -> phase w = Checking p -> sound (checked now held w) = true /\ holds (checked now held w) = conn w.
Proof. unfold checked, lose. destruct held; worker. Qed.
Lemma cancelled_sound w : sound w = true -> awaiting (phase w) = true ->
  sound (cancelled w) = true /\ (holds (cancelled w) = true -> conn w = true).
Proof. worker. Qed.
Lemma close_sound w : sound w = true -> phase w = Ended -> sound (close w) = true /\ holds (close w) = conn w.
Proof. unfold close. worker. Qed.

(** A worker with a connection the server has not lost has the lock. *)
Definition inv (D : gset nat) (s : Sys) : Prop :=
  forall i w, workers s !! i = Some w -> sound w = true /\ (holds w = true -> i ∉ D -> lock s = Some i).
Lemma put_workers i w s : workers (put i w s) = <[i := w]> (workers s).
Proof. reflexivity. Qed.
Lemma set_lock_workers l s : workers (set_lock l s) = workers s.
Proof. reflexivity. Qed.
Lemma inv_put D s i w w' :
  inv D s -> workers s !! i = Some w -> sound w' = true -> (holds w' = true -> holds w = true) -> inv D (put i w' s).
Proof.
  intros H Hi Hs Hh j v. rewrite put_workers. change (lock (put i w' s)) with (lock s). intros [[-> ->]|[Hne Hj]]%lookup_insert_Some; [|by apply H].
  split; [done|]. intros Hv. apply (H j w Hi). auto.
Qed.
(** Worker [i] has done with its connection; the others' lock is untouched. *)
Lemma inv_back D s i l lt (m : gmap nat SingletonTask) :
  inv D s -> given_back i (lock s) l -> (forall j w, j <> i -> m !! j = Some w -> workers s !! j = Some w) ->
  (forall w, m !! i = Some w -> sound w = true /\ holds w = false) ->
  inv (D ∖ {[ i ]}) (MkSys m l (maintenance s) (clock s) lt).
Proof.
  intros H Hl Hm Hi j w. cbn [workers lock]. destruct (decide (j = i)) as [->|Hne]; [intros [Hs Hh]%Hi; rewrite Hh; by split|].
  intros Hj%Hm; [|done]. destruct (H j w Hj) as [Hs Hh]. split; [done|]. intros Hw Hd.
  assert (lock s = Some j) by (apply Hh; [done|set_solver]). destruct Hl as [->|[? _]]; [done|congruence].
Qed.
(** Only a free lock, or the worker's own, changes hands. *)
Lemma tried_others i got l l' j : tried i got l l' -> i <> j -> l = Some j -> l' = Some j.
Proof. intros [[[?|?] _]|[_ ->]]; congruence. Qed.
Lemma inv_try D s i w w' got l :
  inv D s -> workers s !! i = Some w -> tried i got (lock s) l -> sound w' = true -> (holds w' = true -> l = Some i) ->
  inv D (set_lock l (put i w' s)).
Proof.
  intros H Hi Ht Hs Hh j v. rewrite set_lock_workers, put_workers. change (lock (set_lock l (put i w' s))) with l. intros [[-> ->]|[Hne Hj]]%lookup_insert_Some.
  - split; [done|]. intros Hv _. auto.
  - destruct (H j v Hj) as [Hsj Hhj]. split; [done|]. intros Hv Hd. eapply tried_others; eauto.
Qed.
Lemma step_inv D s e s' : inv D s -> step s e s' -> inv (after_event e D) s'.
Proof.
  intros H Hs. destruct Hs; cbn [after_event].
  - intros j w. rewrite put_workers. intros [[-> <-]|[_ Hj]]%lookup_insert_Some; [by split|by apply H].
  - apply inv_back; [done|done| |].
    + intros j w Hne Hj. by rewrite lookup_delete_ne in Hj.
    + by intros w [? _]%lookup_delete_Some.
  - intros j w Hj. destruct (H j w Hj) as [Hs Hh]. split; [done|]. intros Hw Hd. exfalso.
    assert (lock s = Some j) by (apply Hh; [done|set_solver]). set_solver.
  - exact H.
  - exact H.
  - eapply inv_put; [done..| |]; destruct (H i w) as [Hs _]; try done; revert Hs; worker.
  - destruct (H i w) as [Hs _]; [done|]. destruct (top_sound (clock s) (maintenance s) w) as [X1 X2]; [done..|].
    eapply inv_put; [done..|]. rewrite X2. unfold holds. by intros ->.
  - destruct (H i w) as [Hs _]; [done|]. destruct (pause_stopped_sound (clock s) w) as [X1 X2]; [done..|].
    eapply inv_put; [done..|]. rewrite X2. unfold holds. by intros ->.
  - destruct (H i w) as [Hs _]; [done|]. eapply inv_try; [done..| |].
    + revert H1 Hs. destruct got; worker.
    + assert (E : holds (w {{ phase := Answered p got }}) = got) by (revert H1 Hs; destruct got; worker).
      rewrite E. intros ->. by destruct H2 as [[_ ->]|[? _]].
  - destruct (H i w) as [Hs _]; [done|]. eapply inv_put; [done..| |]; revert H1 Hs; worker.
  - intros j w Hj. destruct (H j w Hj) as [Hs Hh]. split; [done|]. intros Hw Hd. specialize (Hh Hw Hd).
    destruct (decide (i = j)) as [->|]; [|by eapply (tried_others i got)]. cbn. by destruct H1 as [[_ ->]|[_ ->]].
  - destruct (H i w) as [Hs Hh]; [done|]. destruct (answered_sound (clock s) p got w) as [X1 X2]; [done..|].
    eapply inv_put; [done..|]. rewrite X2. unfold holds. rewrite H1. intros ->. by rewrite orb_true_r.
  - destruct (H i w) as [Hs Hh]; [done|]. destruct (checked_sound (clock s) p held w) as [X1 X2]; [done..|].
    eapply inv_put; [done..|]. rewrite X2. unfold holds. by intros ->.
  - destruct (H i w) as [Hs Hh]; [done|]. eapply inv_put; [done..| |]; revert H1 Hs; worker.
  - destruct (H i w) as [Hs Hh]; [done|]. apply (inv_back D s i l (late s) (<[i := released w]> (workers s))); [done|done| |].
    + intros j v Hne Hj. by rewrite lookup_insert_ne in Hj.
    + intros v [[_ <-]|[? _]]%lookup_insert_Some; [|done]. revert H1 Hs. worker.
  - destruct (H i w) as [Hs Hh]; [done|]. eapply inv_put; [done..| |]; revert H1 Hs; worker.
  - destruct (H i w) as [Hs Hh]; [done|]. destruct (cancelled_sound w) as [X1 X2]; [done..|].
    assert (Hc : holds (cancelled w) = true -> holds w = true) by (intros ?%X2; unfold holds; destruct (conn w); done).
    by eapply (inv_put D (s {{ late := _ }}) i w).
  - destruct (H i w) as [Hs Hh]; [done|]. destruct (close_sound w) as [X1 X2]; [done..|].
    eapply inv_put; [done..|]. rewrite X2. unfold holds. by intros ->.
  - destruct (H i w) as [Hs Hh]; [done|]. eapply inv_put; [done..| |]; revert H1 Hs; worker.
  - destruct (H i w) as [Hs Hh]; [done|]. apply (inv_back D s i l (late s) (<[i := shut_released w]> (workers s))); [done| | |].
    + destruct H2 as [[_ ?]|[_ ->]]; [done|by left].
    + intros j v Hne Hj. by rewrite lookup_insert_ne in Hj.
    + intros v [[_ <-]|[? _]]%lookup_insert_Some; [|done]. revert H1 Hs. worker.
Qed.
Lemma reach_inv D s : reach D s -> inv D s.
Proof. induction 1 as [m t|D e s s' _ IH Hs]; [by intros i w Hi|by eapply step_inv]. Qed.

(** C33: A background loop runs in one process at a time.  In every reachable
    state of any number of workers, with queries that fail, processes that end,
    maintenance and shutdowns, a worker that runs the loop has the lock, unless it
    still holds on to a connection the server has lost: two workers run it only
    while one of them does. *)
Theorem one_runner D s i j wi wj :
  reach D s -> workers s !! i = Some wi -> workers s !! j = Some wj -> running wi = true -> running wj = true ->
  i ∉ D -> lock s = Some i /\ (j ∉ D -> j = i).
Proof.
  intros Hr Hi Hj Ri Rj Di. pose proof (reach_inv D s Hr) as H.
  assert (Hrun : forall k w, workers s !! k = Some w -> running w = true -> k ∉ D -> lock s = Some k).
  { intros k w Hk Rk Dk. destruct (H k w Hk) as [Hs Hh]. apply Hh; [|done]. revert Hs Rk. worker. }
  split; [by eapply Hrun|]. intros Dj. assert (lock s = Some i) by by eapply Hrun. assert (lock s = Some j) by by eapply Hrun. congruence.
Qed.

(** ** One turn *)
(** What each part computes, field by field. *)
Section Equations.
Context (c ld pd rn : bool) (lst now : Z) (st : option Z) (ph : Phase).
Notation w := (MkTask c ld pd rn lst st ph).
Lemma lock_check_eq p : lock_check now p w =
  if retry <=? now - lst then MkTask c ld pd rn now st (if c then Checking p else Trying p) else MkTask c ld pd rn lst st (Waiting now).
Proof. reflexivity. Qed.
Lemma top_eq m : st = None -> top now m w =
  if ld && negb (eqb m pd) then if m then MkTask c ld true rn lst st PauseStop else lock_check now false (MkTask c ld false true lst st ph)
  else lock_check now m w.
Proof. by intros ->. Qed.
Lemma pause_stopped_eq : pause_stopped now w = lock_check now true (MkTask c ld pd false lst st ph).
Proof. reflexivity. Qed.
Lemma answered_eq p got : answered now p got w =
  if got then MkTask true true p (negb p) lst st (Waiting now) else MkTask c ld pd rn lst st (Waiting now).
Proof. by destruct got. Qed.
Lemma checked_eq held : checked now held w =
  if held then MkTask c ld pd rn lst st (Waiting now)
  else if pd then MkTask c false false rn lst st Releasing else MkTask c false pd rn lst st LostStop.
Proof. destruct held; [reflexivity|]. by destruct pd. Qed.
Lemma lost_stopped_eq : lost_stopped w = MkTask c ld false false lst st Releasing.
Proof. reflexivity. Qed.
Lemma released_eq : released w = MkTask false ld pd rn 0 st Top.
Proof. reflexivity. Qed.
End Equations.
(** One turn: between turns a worker leads if and only if it has a connection;
    when its last check is RETRY_SECONDS old it asks for the lock, or whether it
    still has it, and the answer decides; the loop runs afterwards exactly when
    the worker leads and no maintenance is going on. *)
Lemma iteration_spec now m got held w :
  sound w = true -> phase w = Top -> _stopping w = None ->
  let w' := iteration now m got held w in
  let due := retry <=? now - last_lock_check w in
  let leads := if due then (if leading w then held else got) else leading w in
  leading w' = leads /\ conn w' = leads /\ running w' = leads && negb m /\ _paused w' = leads && m /\
  last_lock_check w' = (if due then (if leading w && negb held then 0 else now) else last_lock_check w) /\
  sound w' = true /\ _stopping w' = None /\ (phase w' = Waiting now \/ phase w' = Top).
Proof.
  destruct w as [c ld pd rn lst st ph]. cbn [last_lock_check leading phase _stopping]. intros Hs -> ->.
  unfold iteration. destruct c, ld, pd, rn; try discriminate Hs; clear Hs; destruct m; rewrite top_eq by done; cbn [andb negb eqb];
    repeat (rewrite ?lock_check_eq, ?pause_stopped_eq; cbn [phase]);
    destruct (retry <=? now - lst); cbn [phase]; rewrite ?answered_eq, ?checked_eq;
    try destruct got; try destruct held; cbn [phase]; rewrite ?lost_stopped_eq, ?released_eq; repeat split; auto.
Qed.

(** Turns one after the other: the time, maintenance, and the database's answers. *)
Record turn : Type := MkTurn { t_now : Z; t_maintenance : bool; t_got : bool; t_held : bool }.
Definition take_turn (w : SingletonTask) (o : turn) : SingletonTask :=
  (iteration (t_now o) (t_maintenance o) (t_got o) (t_held o) w) {{ phase := Top }}.
Definition ready (w : SingletonTask) : Prop := sound w = true /\ phase w = Top /\ _stopping w = None.
Lemma back_to_top w t : sound w = true -> phase w = Waiting t \/ phase w = Top -> sound (w {{ phase := Top }}) = true.
Proof. intros Hs [Hp|Hp]; revert Hs Hp; worker. Qed.
Lemma take_turn_spec w o :
  ready w -> let leads := if retry <=? t_now o - last_lock_check w then (if leading w then t_held o else t_got o) else leading w in
  ready (take_turn w o) /\ leading (take_turn w o) = leads /\ running (take_turn w o) = leads && negb (t_maintenance o) /\
  last_lock_check (take_turn w o) =
    (if retry <=? t_now o - last_lock_check w then (if leading w && negb (t_held o) then 0 else t_now o) else last_lock_check w).
Proof.
  intros (Hs & Hp & Ht). destruct (iteration_spec (t_now o) (t_maintenance o) (t_got o) (t_held o) w Hs Hp Ht)
    as (E1 & E2 & E3 & E4 & E5 & E6 & E7 & E8).
  unfold take_turn, ready. set (v := iteration _ _ _ _ w) in *. pose proof (back_to_top v _ E6 E8) as Hv.
  destruct v. cbn in E1, E3, E5, E7. cbn -[sound iteration]. auto 10.
Qed.
Lemma turns_settle b w turns :
  ready w -> Forall (fun o => t_got o = b /\ t_held o = b) turns ->
  ready (foldl take_turn w turns) /\
  (leading (foldl take_turn w turns) = b \/ last_lock_check (foldl take_turn w turns) = last_lock_check w).
Proof.
  intros Hw. induction turns as [|o turns IH] using rev_ind; [simpl; auto|]. rewrite foldl_app, Forall_app, Forall_singleton.
  intros [Hf [Hg Hh]]. cbn [foldl]. destruct (IH Hf) as [Hv Hl]. destruct (take_turn_spec (foldl take_turn w turns) o Hv) as (E1 & E2 & _ & E4).
  rewrite Hg, Hh in *. split; [done|]. rewrite E2, E4. destruct (retry <=? _); [left; by destruct (leading _)|done].
Qed.
(** C34: Fail-over is bounded.  When the database answers every worker of a group
    of turns alike, the lock free and held or taken and lost, then the first turn
    that comes RETRY_SECONDS after the worker's last check settles it: a leader
    that lost its lock no longer runs the loop after it, and a worker that waited
    runs it, maintenance apart, whatever the turns between have done. *)
Theorem failover_bounded b w turns o :
  ready w -> retry <= t_now o - last_lock_check w -> Forall (fun o => t_got o = b /\ t_held o = b) (turns ++ [o]) ->
  leading (foldl take_turn w (turns ++ [o])) = b /\ running (foldl take_turn w (turns ++ [o])) = b && negb (t_maintenance o).
Proof.
  rewrite foldl_app, Forall_app, Forall_singleton. intros Hw Hdue [Hf [Hg Hh]]. cbn [foldl].
  destruct (turns_settle b w turns Hw Hf) as [Hv Hl]. destruct (take_turn_spec (foldl take_turn w turns) o Hv) as (_ & -> & -> & _).
  rewrite Hg, Hh. assert (E : (if retry <=? t_now o - last_lock_check (foldl take_turn w turns)
    then if leading (foldl take_turn w turns) then b else b else leading (foldl take_turn w turns)) = b); [|by rewrite E].
  destruct Hl as [-> | ->]; [by destruct (retry <=? _), b|]. rewrite (proj2 (Z.leb_le _ _) Hdue). by destruct (leading _).
Qed.
End Worker.

(** ** Which process runs a job *)
Section Runner.
Context (INSTANCE_ID : pystr).
(** What [os.kill(pid, 0)] does. *)
Inductive kill_result : Type := Exists_ | NoProcess | NotPermitted | OtherError.
Context (kill0 : Z -> kill_result).
Definition runner_tag (instance : pystr) (getpid : Z) : pystr := instance ++ py "|" ++ str_of_int getpid.
(** [runner_is_alive]; the two exceptions are those of [int] and of [os.kill]. *)
Definition runner_is_alive (getpid : Z) (tag : option pystr) : res unit bool :=
  match tag with
  | None => Ok false
  | Some tag =>
      match rsplit1 "|"%char tag with
      | None => Ok false
      | Some (instance, pid) =>
          if negb (bool_decide (instance = INSTANCE_ID)) || bool_decide (pid = []) || negb (forallb py_isdigit pid) then Ok false
          else match py_int pid with
               | None => Raise tt
               | Some n =>
                   if n =? getpid then Ok true
                   else match kill0 n with Exists_ | NotPermitted => Ok true | NoProcess => Ok false | OtherError => Raise tt end
               end
      end
  end.
Lemma rsplit1_last c a b : has_char c b = false -> rsplit1 c (a ++ c :: b) = Some (a, b).
Proof.
  intros Hb. unfold rsplit1. rewrite rev_app_distr. cbn [rev]. rewrite <- app_assoc. cbn [app].
  rewrite partition1_app; [by rewrite !rev_involutive|]. apply not_true_is_false. intros H%has_char_spec.
  assert (has_char c b = true); [|congruence]. apply has_char_spec. rewrite list_elem_of_In in *. by apply in_rev.
Qed.
Lemma pid_text p : 0 <= p -> str_of_int p <> [] /\ forallb py_isdigit (str_of_int p) = true /\ has_char "|"%char (str_of_int p) = false.
Proof.
  intros Hp. unfold str_of_int. destruct (Z.ltb_spec p 0); [lia|]. destruct (dec_nonneg_spec p Hp) as (H1 & H2 & _).
  split; [done|]. rewrite forallb_forall in H2. split.
  - apply forallb_forall. intros c Hc. unfold py_isdigit. by rewrite (H2 c Hc).
  - apply not_true_is_false. intros Hc%has_char_spec%list_elem_of_In. by specialize (H2 _ Hc).
Qed.
(** A job is judged by the process that started it.  Of the tag any process
    of any server run stored, [runner_is_alive] says true exactly when the tag is
    of this run and the process is this one or still exists. *)
Theorem tag_tells_runner instance pid getpid :
  0 <= pid -> kill0 pid <> OtherError ->
  runner_is_alive getpid (Some (runner_tag instance pid)) =
  Ok (bool_decide (instance = INSTANCE_ID) && ((pid =? getpid) || match kill0 pid with NoProcess => false | _ => true end)).
Proof.
  intros Hp Hk. destruct (pid_text pid Hp) as (H1 & H2 & H3). unfold runner_is_alive, runner_tag.
  change (py "|" ++ str_of_int pid) with ("|"%char :: str_of_int pid). rewrite rsplit1_last by done.
  rewrite H2, (bool_decide_eq_false_2 (str_of_int pid = [])) by done. destruct (bool_decide (instance = INSTANCE_ID)); [|done].
  cbn [negb orb andb]. rewrite py_int_str_of_int. destruct (pid =? getpid); [done|]. by destruct (kill0 pid).
Qed.
End Runner.

(** ** A concrete run *)
Module TwoWorkers.
Definition t0 : Z := seconds 100.
Definition trying : SingletonTask := MkTask false false false false t0 None (Trying false).
Definition granted : SingletonTask := MkTask false false false false t0 None (Answered false true).
Definition runs : SingletonTask := MkTask true true false true t0 None (Waiting t0).
(** Worker 0 runs the loop and worker 1 waits. *)
Definition one : Sys := MkSys (<[1%nat := started]> (<[0%nat := runs]> ∅)) (Some 0%nat) false t0 [].
(** The server lost the connection of worker 0, and worker 1 took the lock. *)
Definition two : Sys := MkSys (<[1%nat := runs]> (<[0%nat := runs]> ∅)) (Some 1%nat) false t0 [].

Lemma next D e s s' s'' D' : reach 30 D s -> step 30 s e s' -> s' = s'' -> after_event e D = D' -> reach 30 D' s''.
Proof. intros Hr Hs <- <-. by eapply reach_step. Qed.
(** Worker [i], just started with the lock free, takes it and runs the loop. *)
Lemma takes_over D i (m m' : gmap nat SingletonTask) :
  m !! i = Some started -> m' = <[i := runs]> m -> reach 30 D (MkSys m None false t0 []) -> reach 30 D (MkSys m' (Some i) false t0 []).
Proof.
  intros Hm -> Hr. set (s := fun w l => MkSys (<[i := w]> m) l false t0 []).
  assert (H1 : reach 30 D (s trying None)).
  { eapply next; [exact Hr|by eapply (step_top _ _ i)| |done]. reflexivity. }
  assert (H2 : reach 30 D (s granted (Some i))).
  { eapply next; [exact H1|eapply (step_try _ _ i trying false true (Some i)); [apply lookup_insert_eq|done|left; auto]| |done].
    unfold s, put, set_lock. cbn. by rewrite insert_insert_eq. }
  eapply next; [exact H2|eapply (step_answered _ _ i granted false true); [apply lookup_insert_eq|done]| |done].
  unfold s, put. cbn. by rewrite insert_insert_eq.
Qed.
Lemma one_reachable : reach 30 ∅ one.
Proof.
  assert (H0 : reach 30 ∅ (MkSys (<[0%nat := started]> ∅) None false t0 [])).
  { eapply next; [apply (reach_none _ false t0)|by apply (step_spawn _ _ 0%nat)|reflexivity|done]. }
  assert (H1 : reach 30 ∅ (MkSys (<[0%nat := runs]> ∅) (Some 0%nat) false t0 [])).
  { eapply (takes_over ∅ 0 _ _ (lookup_insert_eq ∅ 0%nat started)); [|exact H0]. by rewrite insert_insert_eq. }
  eapply next; [exact H1|by apply (step_spawn _ _ 1%nat)|reflexivity|done].
Qed.
End TwoWorkers.

(** Until the leader checks its connection it cannot know that the lock is
    gone: two workers run the loop at the same time. *)
Lemma overlap_after_loss : exists D s i j wi wj,
  reach 30 D s /\ workers s !! i = Some wi /\ workers s !! j = Some wj /\ i <> j /\ running wi = true /\ running wj = true.
Proof.
  exists {[ 0%nat ]}, TwoWorkers.two, 0%nat, 1%nat, TwoWorkers.runs, TwoWorkers.runs. split; [|by repeat split].
  assert (H : reach 30 {[ 0%nat ]} (MkSys (workers TwoWorkers.one) None false TwoWorkers.t0 [])).
  { eapply TwoWorkers.next; [apply TwoWorkers.one_reachable|by apply (step_drop _ _ 0%nat)|reflexivity|set_solver]. }
  apply (TwoWorkers.takes_over _ 1%nat (workers TwoWorkers.one)); [reflexivity| |exact H]. unfold TwoWorkers.one. cbn [workers]. by rewrite insert_insert_eq.
Qed.
Lemma one_runner_witness : lock TwoWorkers.one = Some 0%nat /\ (0%nat ∉ (∅ : gset nat) -> 0%nat = 0%nat).
Proof.
  exact (one_runner 30 ∅ TwoWorkers.one 0 0 TwoWorkers.runs TwoWorkers.runs TwoWorkers.one_reachable eq_refl eq_refl eq_refl eq_refl ltac:(set_solver)).
Defined.
Lemma failover_bounded_witness :
  running (foldl (take_turn 30) (TwoWorkers.runs {{ phase := Top }}) [MkTurn (seconds 110) false false false; MkTurn (seconds 131) false false false]) = false /\
  running (foldl (take_turn 30) started [MkTurn (seconds 20) false true true; MkTurn (seconds 31) false true true]) = true.
Proof.
  split.
  - apply (failover_bounded 30 false (TwoWorkers.runs {{ phase := Top }}) [MkTurn (seconds 110) false false false] (MkTurn (seconds 131) false false false));
      [by repeat split|vm_compute; discriminate|repeat constructor].
  - apply (failover_bounded 30 true started [MkTurn (seconds 20) false true true] (MkTurn (seconds 31) false true true));
      [by repeat split|vm_compute; discriminate|repeat constructor].
Defined.
Lemma tag_tells_runner_witness :
  runner_is_alive (py "host:1:7") (fun _ => NoProcess) 42 (Some (runner_tag (py "host:1:7") 42)) = Ok true /\
  runner_is_alive (py "host:1:7") (fun _ => NoProcess) 42 (Some (runner_tag (py "host:1:7") 43)) = Ok false.
Proof.
  split; [exact (tag_tells_runner (py "host:1:7") (fun _ => NoProcess) (py "host:1:7") 42 42 ltac:(lia) ltac:(discriminate))|
          exact (tag_tells_runner (py "host:1:7") (fun _ => NoProcess) (py "host:1:7") 43 42 ltac:(lia) ltac:(discriminate))].
Defined.
