(* ===== verification/Advisories.v ===== *)
(** * Matching installed packages with the distributions' advisories
    (src/app/modules/advisories/match.py, releases.py, src/app/models/advisory.py)

    The packages of an asset are looked up under the name their distribution
    publishes, and each version is compared with every affected range, by the
    order of PkgVersions.  Texts hold no line break (the collectors split them at
    line breaks), so that [compare] always answers ([cmp_answers]).  The order in
    which Python walks a set is an argument.  Not modelled: the loading of the
    feeds, the query's columns that are only shown. *)
From stdpp Require Import sorting.
From S2P Require Import Prelude PyStr Orders PkgVersions CiscoTree.

(** ** Releases (releases.py) *)
Inductive Family : Type := deb | rpm.
#[export] Instance Family_dec : EqDecision Family.
Proof. solve_decision. Defined.
Definition DISTROS : list (pystr * Family) :=
  [(py "ubuntu", deb); (py "debian", deb); (py "rhel", rpm); (py "rocky", rpm); (py "alma", rpm)].
Definition _OS_IDS : list (pystr * pystr) :=
  [(py "ubuntu", py "ubuntu"); (py "debian", py "debian"); (py "rhel", py "rhel"); (py "rocky", py "rocky"); (py "almalinux", py "alma")].
Fixpoint assoc {A} (k : pystr) (l : list (pystr * A)) : option A :=
  match l with [] => None | (x, a) :: l => if bool_decide (x = k) then Some a else assoc k l end.
(** [split]: around the first colon. *)
Definition split (release : pystr) : pystr * pystr :=
  match partition1 ":"%char release with (d, Some v) => (d, v) | (d, None) => (d, []) end.
Definition family (release : pystr) : option Family := assoc (fst (split release)) DISTROS.
(** The pattern of two digits, a point, two digits. *)
Definition yy_mm (v : pystr) : bool :=
  match v with [a; b; p; c; d] => is_digit a && is_digit b && bool_decide (p = "."%char) && is_digit c && is_digit d | _ => false end.
Definition all_digits (s : pystr) : bool := negb (bool_decide (s = [])) && forallb py_isdigit s.
Definition valid (release : pystr) : bool :=
  let '(distro, version) := split release in
  if bool_decide (distro = py "ubuntu") then yy_mm version
  else match assoc distro DISTROS with Some _ => all_digits version | None => false end.
Inductive Status : Type := ok | not_loaded | unsupported | unknown.
#[export] Instance Status_dec : EqDecision Status.
Proof. solve_decision. Defined.
Record Platform : Type := MkPlatform { p_id : pystr; version_id : pystr; kernel : option pystr; p_reboot : bool }.
Definition from_platform (p : Platform) : option pystr * Status :=
  if bool_decide (p_id p = []) then (None, unknown)
  else match assoc (lower (p_id p)) _OS_IDS with
       | None => (None, unsupported)
       | Some distro =>
           let version := strip (version_id p) in
           if bool_decide (distro = py "ubuntu") then
             if yy_mm version then (Some (py "ubuntu:" ++ version), ok) else (None, unknown)
           else let major := hd [] (split_on "."%char version) in
                if all_digits major then (Some (distro ++ py ":" ++ major), ok) else (None, unknown)
       end.

(** ** The patterns of package names (match.py) *)
Definition after_prefix (p s : pystr) : option pystr := if is_prefix p s then Some (drop (length p) s) else None.
(** [^word(-.+)?$]: what follows the word. *)
Definition flavour (word s : pystr) : option pystr :=
  match after_prefix word s with
  | Some [] => Some []
  | Some ("-"%char :: c :: r) => Some ("-"%char :: c :: r)
  | _ => None
  end.
Definition _DEB_SIGNED : pystr -> option pystr := flavour (py "linux-signed").
Definition _DEB_META (s : pystr) : bool := bool_decide (is_Some (flavour (py "linux-meta") s)).
Definition in_words (l : list pystr) (s : pystr) : bool := bool_decide (s ∈ l).
Definition _DEB_SIGNED_DEBIAN (s : pystr) : bool :=
  match after_prefix (py "linux-signed-") s with
  | Some a => in_words (map py ["amd64"; "arm64"; "i386"; "armhf"; "ppc64el"; "s390x"]%string) a
  | None => false
  end.
(** [(\d+\.\d+\.\d+)-(\d+)] at the front: the two groups. *)
Definition digits_then (c : ascii) (s : pystr) : option (pystr * pystr) :=
  match take_while is_digit s, drop_while is_digit s with
  | (_ :: _) as ds, d :: rest => if bool_decide (d = c) then Some (ds, rest) else None
  | _, _ => None
  end.
Definition abi_groups (s : pystr) : option (pystr * pystr) :=
  a ← digits_then "."%char s; b ← digits_then "."%char (snd a); c ← digits_then "-"%char (snd b);
  match take_while is_digit (snd c) with
  | [] => None
  | d => Some (fst a ++ py "." ++ fst b ++ py "." ++ fst c, d)
  end.
Definition abi_text (g : pystr * pystr) : pystr := fst g ++ py "-" ++ snd g.
Definition dash_abi (s : pystr) : option pystr := r ← after_prefix (py "-") s; g ← abi_groups r; Some (abi_text g).
(** [[\w.-]*] and then the ABI: the longest way that fits. *)
Fixpoint last_abi (s : pystr) : option pystr :=
  match s with
  | [] => None
  | c :: s' =>
      match (if is_wordchar c || in_words [py "."; py "-"] [c] then last_abi s' else None) with
      | Some a => Some a
      | None => dash_abi s
      end
  end.
Definition kernel_words : list pystr :=
  map py ["image-unsigned"; "image"; "modules-extra"; "modules"; "headers"; "tools"; "cloud-tools"; "buildinfo"; "objects"; "signatures"]%string.
Fixpoint first_some {A B} (f : A -> option B) (l : list A) : option B :=
  match l with [] => None | x :: l => match f x with Some y => Some y | None => first_some f l end end.
Definition _DEB_KERNEL_ABI (name : pystr) : option pystr :=
  rest ← after_prefix (py "linux-") name;
  match first_some (fun w => r ← after_prefix w rest; dash_abi r) kernel_words with
  | Some a => Some a
  | None => r ← after_prefix (py "modules-nvidia") rest; last_abi r
  end.
Definition _DEB_KERNEL_HELPER (name : pystr) : bool :=
  match after_prefix (py "linux-") name with
  | None => false
  | Some r =>
      in_words (map py ["libc-dev"; "tools-common"; "cloud-tools-common"; "doc"; "source"; "tools-host"; "bpf-dev"; "perf"]%string) r ||
      match after_prefix (py "source-") r with
      | Some (_ :: _ as v) => forallb (fun c => is_digit c || bool_decide (c = "."%char)) v
      | _ => false
      end
  end.
Definition _RPM_KERNEL (name : pystr) : bool :=
  bool_decide (name = py "kernel") ||
  match after_prefix (py "kernel-") name with
  | Some r => in_words (map py ["core"; "modules"; "modules-core"; "modules-extra"; "devel"; "uek"; "uek-core"; "uek-modules"; "rt"; "rt-core";
                                "rt-modules"; "debug"; "debug-core"; "debug-modules"]%string) r
  | None => false
  end.
(** [_ARCH.sub] with nothing: the first place where a known architecture ends the text. *)
Definition ends_arch (s : pystr) : bool :=
  match after_prefix (py ".") s with
  | None => false
  | Some r =>
      existsb (fun a => match after_prefix a r with
                        | Some [] => true
                        | Some ("+"%char :: (_ :: _) as w) => forallb is_wordchar (tail w)
                        | _ => false
                        end) (map py ["x86_64"; "aarch64"; "ppc64le"; "s390x"; "i686"; "noarch"]%string)
  end.
Fixpoint without_arch (s : pystr) : pystr :=
  match s with [] => [] | c :: s' => if ends_arch s then [] else c :: without_arch s' end.
Definition no_zero_epoch (v : pystr) : pystr := default v (after_prefix (py "0:") v).

(** ** One package against the advisories *)
Definition family_name (f : Family) : pystr := match f with deb => py "deb" | rpm => py "rpm" end.
(** [compare]; see [cmp_answers]. *)
Definition cmp (f : Family) (a b : pystr) : Z := default 0 (compare (family_name f) a b).
Inductive Kind : Type := KIND_CVE | KIND_ADVISORY.
Definition AVAILABILITY_STANDARD : pystr := py "standard".
Definition AVAILABILITY_PRO : pystr := py "pro".
Record DistroVuln : Type := MkVuln {
  v_release : pystr; v_package : pystr; v_record : pystr; v_kind : Kind; introduced : option pystr; fixed : option pystr;
  last_affected : option pystr; cves : list pystr; v_severity : option pystr; v_availability : pystr; v_title : option pystr }.
Inductive VState : Type := opened_ | unfixed_ | fixed_.
#[export] Instance VState_dec : EqDecision VState.
Proof. solve_decision. Defined.
Record Hit : Type := MkHit {
  h_cve : pystr; h_kind : Kind; h_record : pystr; h_fixed : option pystr; h_availability : pystr; h_severity : option pystr;
  h_title : option pystr; h_state : VState }.
(** Truth of an optional text. *)
Definition given (o : option pystr) : option pystr := match o with Some [] => None | o => o end.
(** What a row says of a version; [None] when it does not concern it. *)
Definition state_of (f : Family) (version : pystr) (r : DistroVuln) : option VState :=
  if match given (introduced r) with Some i => cmp f version i <? 0 | None => false end then None
  else match given (fixed r) with
       | Some x => Some (if cmp f version x <? 0 then opened_ else fixed_)
       | None => match given (last_affected r) with
                 | Some x => if 0 <? cmp f version x then None else Some unfixed_
                 | None => Some unfixed_
                 end
       end.
Definition row_hits (f : Family) (version : pystr) (r : DistroVuln) : list Hit :=
  match state_of f version r with
  | None => []
  | Some s => map (fun c => MkHit c (v_kind r) (v_record r) (fixed r) (v_availability r) (v_severity r) (v_title r) s) (cves r)
  end.
(** The key of the cache: release, package, version. *)
Definition Needed : Type := pystr * pystr * pystr.
Definition row_of (release package : pystr) (r : DistroVuln) : bool := bool_decide (v_release r = release) && bool_decide (v_package r = package).
Definition hits_of (rows : list DistroVuln) (k : Needed) : list Hit :=
  let '(release, package, version) := k in
  flat_map (row_hits (default rpm (family release)) version) (List.filter (row_of release package) rows).

(** *** [_evaluate]: two locked sections around the queries *)
Definition MAX_CACHE : nat := Z.to_nat 400000.
Definition Stamp : Type := Z * option Z.
Record Cache : Type := MkCache { _cache : gmap Needed (list Hit); _cache_stamp : option Stamp }.
Definition look (stamp : Stamp) (needed : gset Needed) (c : Cache) : Cache * gmap Needed (list Hit) :=
  let c := if negb (bool_decide (_cache_stamp c = Some stamp)) || negb (size (_cache c) <=? MAX_CACHE)%nat then MkCache ∅ (Some stamp) else c in
  (c, filter (fun kv => fst kv ∈ needed) (_cache c)).
Definition fresh (rows : list DistroVuln) (missing : gset Needed) : gmap Needed (list Hit) := set_to_map (fun k => (k, hits_of rows k)) missing.
Definition remember (stamp : Stamp) (new : gmap Needed (list Hit)) (c : Cache) : Cache :=
  if bool_decide (_cache_stamp c = Some stamp) then MkCache (new ∪ _cache c) (_cache_stamp c) else c.
(** A call on its own. *)
Definition _evaluate (stamp : Stamp) (rows : list DistroVuln) (needed : gset Needed) (c : Cache) : Cache * gmap Needed (list Hit) :=
  let '(c, out) := look stamp needed c in
  let missing := needed ∖ dom out in
  if bool_decide (missing = ∅) then (c, out)
  else (remember stamp (fresh rows missing) c, fresh rows missing ∪ out).

(** ** One asset *)
Record SoftwareItem : Type := MkItem {
  item_name : pystr; item_version : pystr; source_package : option pystr; source_version : option pystr }.
Definition or_else_text (a : option pystr) (b : pystr) : pystr := default b (given a).
Definition _deb_key (i : SoftwareItem) : option pystr :=
  let src := hd [] (split_on " "%char (or_else_text (source_package i) (item_name i))) in
  if _DEB_META src then None
  else if _DEB_SIGNED_DEBIAN src then Some (py "linux")
  else match _DEB_SIGNED src with Some fl => Some (py "linux" ++ fl) | None => Some src end.
(** [max(values, key=...)]: the first of the greatest. *)
Definition max_by (lt : pystr -> pystr -> bool) (l : list pystr) : option pystr :=
  match l with [] => None | x :: l => Some (foldl (fun m y => if lt m y then y else m) x l) end.

(** [sorted]: by text; by package, then CVE. *)
Definition Key : Type := pystr * pystr.
Definition str_le (a b : pystr) : Prop := str_cmp a b <> Gt.
#[local] Instance str_le_dec : RelDecision str_le.
Proof. intros a b. unfold str_le. apply _. Defined.
Definition key_le (a b : Key) : Prop := match str_cmp (fst a) (fst b) with Lt => True | Eq => str_le (snd a) (snd b) | Gt => False end.
#[local] Instance key_le_dec : RelDecision key_le.
Proof. intros a b. unfold key_le. destruct (str_cmp _ _); apply _. Defined.
Definition entry_le {A} (a b : Key * A) : Prop := key_le (fst a) (fst b).
#[local] Instance entry_le_dec {A} : RelDecision (@entry_le A).
Proof. intros a b. unfold entry_le. apply _. Defined.

Section Asset.
(** The order in which a set of texts is walked. *)
Context (iter : list pystr -> list pystr).
Definition newest_of (f : Family) (l : list pystr) : option pystr := max_by (fun a b => cmp f a b <? 0) (iter l).
Definition running_abi (running : pystr) : option pystr := g ← abi_groups running; Some (abi_text g).
(** [_kernel_filter]: the items that count, the newest kernel, the running one. *)
Definition _kernel_filter (f : Family) (items : list SoftwareItem) (running : option pystr) :
    list SoftwareItem * option pystr * option pystr :=
  match f with
  | deb =>
      let abi := fun i => _DEB_KERNEL_ABI (item_name i) in
      let values := omap abi items in
      if bool_decide (values = []) then (items, None, None)
      else
        let newest := newest_of deb values in
        let keep := match given running with
                    | None => newest
                    | Some r => a ← running_abi r; if in_words values a then Some a else None
                    end in
        (List.filter (fun i => match abi i with None => true | Some a => bool_decide (keep = Some a) end) items, newest,
         given running ≫= running_abi)
  | rpm =>
      let kernels := List.filter (fun i => _RPM_KERNEL (item_name i)) items in
      if bool_decide (kernels = []) then (items, None, None)
      else
        let values := map (fun i => no_zero_epoch (item_version i)) kernels in
        let newest := newest_of rpm values in
        let run := option_map without_arch (given running) in
        let keep := match run with
                    | Some r => if in_words values r then Some r else if bool_decide (r = []) then newest else None
                    | None => newest
                    end in
        (List.filter (fun i => negb (_RPM_KERNEL (item_name i)) || bool_decide (keep = Some (no_zero_epoch (item_version i)))) items, newest, run)
  end.
(** The name and version an item is looked up under. *)
Definition keyed (f : Family) (i : SoftwareItem) : option (pystr * pystr) :=
  match f with
  | deb => if _DEB_KERNEL_HELPER (item_name i) then None
           else k ← _deb_key i; if bool_decide (k = []) then None else Some (k, or_else_text (source_version i) (item_version i))
  | rpm => if bool_decide (item_name i = []) then None else Some (item_name i, item_version i)
  end.

(** What is gathered for a package and CVE. *)
Record Entry : Type := MkEntry {
  binaries : list pystr; installed : pystr; fixes : gmap pystr pystr; advisories : list pystr; e_severity : option pystr; e_title : option pystr }.
Record Unfixed : Type := MkUnfixed { u_binaries : list pystr; u_installed : pystr; u_severity : option pystr; u_availability : pystr }.
Record Gathered : Type := MkGathered { g_opened : gmap Key Entry; g_unfixed : gmap Key Unfixed; g_resolved : gset Key }.
Definition add_once (x : pystr) (l : list pystr) : list pystr := if bool_decide (x ∈ l) then l else l ++ [x].
Definition or_text (a b : option pystr) : option pystr := match given a with Some x => Some x | None => b end.
Definition open_more (f : Family) (version : pystr) (i : SoftwareItem) (h : Hit) (e : Entry) : Entry :=
  let adv := bool_decide (h_state h = opened_) && match h_kind h with KIND_ADVISORY => true | KIND_CVE => false end in
  MkEntry (add_once (item_name i) (binaries e))
    (if cmp f version (installed e) <? 0 then version else installed e)
    (match fixes e !! h_availability h with
     | Some prev => if 0 <? cmp f (default [] (h_fixed h)) prev then <[h_availability h := default [] (h_fixed h)]> (fixes e) else fixes e
     | None => <[h_availability h := default [] (h_fixed h)]> (fixes e)
     end)
    (if adv then add_once (h_record h) (advisories e) else advisories e)
    (or_text (e_severity e) (h_severity h))
    (if adv then or_text (e_title e) (h_title h) else e_title e).
Definition unfixed_more (i : SoftwareItem) (h : Hit) (u : Unfixed) : Unfixed :=
  MkUnfixed (add_once (item_name i) (u_binaries u)) (u_installed u) (or_text (u_severity u) (h_severity h)) (u_availability u).
Definition gather_hit (f : Family) (key version : pystr) (i : SoftwareItem) (g : Gathered) (h : Hit) : Gathered :=
  let k := (key, h_cve h) in
  match h_state h with
  | fixed_ => MkGathered (g_opened g) (g_unfixed g) ({[ k ]} ∪ g_resolved g)
  | unfixed_ =>
      let u := default (MkUnfixed [] version None (h_availability h)) (g_unfixed g !! k) in
      MkGathered (g_opened g) (<[k := unfixed_more i h u]> (g_unfixed g)) (g_resolved g)
  | opened_ =>
      let e := default (MkEntry [] version ∅ [] None None) (g_opened g !! k) in
      MkGathered (<[k := open_more f version i h e]> (g_opened g)) (g_unfixed g) (g_resolved g)
  end.
(** The items that count, under their names: [keyed] of the kept items. *)
Definition looked_up (f : Family) (items : list SoftwareItem) : list (pystr * pystr * SoftwareItem) :=
  omap (fun i => kv ← keyed f i; Some (fst kv, snd kv, i)) items.
Definition gather (f : Family) (evaluated : pystr -> pystr -> list Hit) (l : list (pystr * pystr * SoftwareItem)) : Gathered :=
  foldl (fun g x => let '(key, version, i) := x in foldl (gather_hit f key version i) g (evaluated key version)) (MkGathered ∅ ∅ ∅) l.

Record Finding : Type := MkFinding {
  f_package : pystr; f_cve : pystr; f_binaries : list pystr; f_installed : pystr; fixed_in : option pystr; f_availability : pystr;
  f_advisories : list pystr; f_severity : option pystr; f_title : option pystr; f_kernel : bool; f_reboot : bool }.
Definition _abi_fixed (newest fixed_version : pystr) : bool :=
  match abi_groups fixed_version, abi_groups newest with
  | Some m, Some n => 0 <=? cmp deb (abi_text n) (abi_text m)
  | _, _ => false
  end.
Definition is_kernel (b : pystr) : bool := bool_decide (is_Some (_DEB_KERNEL_ABI b)) || _RPM_KERNEL b.
Definition finish (f : Family) (newest : option pystr) (all_items : list SoftwareItem) (ke : Key * Entry) : Finding :=
  let '((package, cve), e) := ke in
  let '(fix_, avail) := match fixes e !! AVAILABILITY_STANDARD with
                        | Some x => (Some x, AVAILABILITY_STANDARD)
                        | None => (fixes e !! AVAILABILITY_PRO, AVAILABILITY_PRO)
                        end in
  let kernel_ := existsb is_kernel (binaries e) in
  let newer := existsb (fun i => (in_words (binaries e) (item_name i) || _RPM_KERNEL (item_name i)) &&
                                 negb (bool_decide (item_version i = [])) && (0 <=? cmp f (item_version i) (default [] fix_))) all_items in
  let reboot := match given newest with
                | Some n => kernel_ && (newer || (bool_decide (f = deb) && _abi_fixed n (default [] fix_)))
                | None => false
                end in
  MkFinding package cve (merge_sort str_le (binaries e)) (installed e) fix_ avail (merge_sort str_le (advisories e)) (e_severity e) (e_title e) kernel_ reboot.
Record AssetAdvisories : Type := MkAdvisories {
  a_release : option pystr; a_status : Status; running_kernel : option pystr; newest_kernel : option pystr; reboot_required : bool;
  findings : list Finding; unfixed : list (Key * Unfixed) }.
(** [analyse] for an asset whose release is loaded. *)
Definition analyse_items (release : pystr) (p : Platform) (items : list SoftwareItem) (evaluated : Needed -> list Hit) : AssetAdvisories :=
  let f := default rpm (family release) in
  let '(kept, newest, run) := _kernel_filter f items (kernel p) in
  let behind := match given newest, given run with Some n, Some r => cmp f r n <? 0 | _, _ => false end in
  let g := gather f (fun k v => evaluated (release, k, v)) (looked_up f kept) in
  let left_ := filter (fun ku => fst ku ∉ dom (g_opened g) /\ fst ku ∉ g_resolved g) (g_unfixed g) in
  MkAdvisories (Some release) ok (kernel p) newest (p_reboot p || behind)
    (map (finish f newest items) (merge_sort entry_le (map_to_list (g_opened g)))) (merge_sort entry_le (map_to_list left_)).
Definition asset_status (loaded : list pystr) (p : Platform) : option pystr * Status :=
  match from_platform p with
  | (Some r, ok) => (Some r, if bool_decide (r ∈ loaded) then ok else not_loaded)
  | rs => rs
  end.
Definition needed_of (release : pystr) (p : Platform) (items : list SoftwareItem) : list Needed :=
  let f := default rpm (family release) in
  map (fun x => (release, fst (fst x), snd (fst x))) (looked_up f (fst (fst (_kernel_filter f items (kernel p))))).
(** [analyse] *)
Definition analyse (loaded : list pystr) (stamp : Stamp) (rows : list DistroVuln) (platforms : gmap Z (Platform * list SoftwareItem)) (c : Cache) :
    Cache * gmap Z AssetAdvisories :=
  let active := List.filter (fun x => bool_decide (snd (asset_status loaded (fst (snd x))) = ok)) (map_to_list platforms) in
  let needed := list_to_set (flat_map (fun x => match asset_status loaded (fst (snd x)) with
                                                | (Some r, ok) => needed_of r (fst (snd x)) (snd (snd x))
                                                | _ => []
                                                end) active) in
  let '(c, evaluated) := if bool_decide (length active = 0%nat) then (c, ∅) else _evaluate stamp rows needed c in
  (c, (fun x => match asset_status loaded (fst x) with
                | (Some r, ok) => analyse_items r (fst x) (snd x) (fun k => default [] (evaluated !! k))
                | (r, s) => MkAdvisories r s (kernel (fst x)) None (p_reboot (fst x)) [] []
                end) <$> platforms).
End Asset.

(** ** Versions without line breaks compare *)
Lemma drop_while_sub p (s : pystr) c : c ∈ drop_while p s -> c ∈ s.
Proof. intros H. rewrite <- (span_app p s). apply elem_of_app. by right. Qed.
Lemma strip_sub s c : c ∈ strip s -> c ∈ s.
Proof.
  unfold strip, rstrip, lstrip. rewrite list_elem_of_In, <- in_rev, <- list_elem_of_In. intros H%drop_while_sub.
  rewrite list_elem_of_In, <- in_rev, <- list_elem_of_In in H. by apply drop_while_sub in H.
Qed.
Lemma partition1_sub c s a b d : partition1 c s = (a, b) -> (d ∈ a -> d ∈ s) /\ (forall t, b = Some t -> d ∈ t -> d ∈ s).
Proof.
  revert a b. induction s as [|e s IH]; intros a b; simpl; [intros [= <- <-]; by split|].
  case_bool_decide; [intros [= <- <-]; split; [by intros ?%elem_of_nil|intros t [= <-]; by right]|].
  destruct (partition1 c s) as [a' b'] eqn:E. intros [= <- <-]. destruct (IH a' b' eq_refl) as [H1 H2].
  split; [intros [->|Hd]%elem_of_cons; [by left|right; auto]|]. intros t Ht Hd. right. eauto.
Qed.
Lemma rsplit1_sub c s a b d : rsplit1 c s = Some (a, b) -> d ∈ a -> d ∈ s.
Proof.
  unfold rsplit1. destruct (partition1 c (rev s)) as [x [y|]] eqn:E; [|done]. intros [= <- <-] Hd.
  rewrite list_elem_of_In, <- in_rev, <- list_elem_of_In in Hd. apply (partition1_sub _ _ _ _ d) in E as [_ E].
  specialize (E y eq_refl Hd). by rewrite list_elem_of_In, <- in_rev, <- list_elem_of_In in E.
Qed.
Lemma rpm_split_answers v : has_char Rpm.newline v = false -> is_Some (Rpm.rpm_split v).
Proof.
  intros Hv. unfold Rpm.rpm_split. set (ev := match take_while is_digit (strip v), drop_while is_digit (strip v) with
    | (_ :: _) as ds, ":"%char :: rest => (digits_val ds, rest) | _, _ => (0, strip v) end).
  assert (Hsub : forall c, c ∈ snd ev -> c ∈ v).
  { intros c Hc. apply strip_sub. unfold ev in Hc. destruct (take_while is_digit (strip v)); [done|].
    destruct (drop_while is_digit (strip v)) as [|d rest] eqn:E; [done|]. destruct (decide (d = ":"%char)) as [->|].
    - apply (drop_while_sub is_digit). rewrite E. by right.
    - by destruct d as [[] [] [] [] [] [] [] []]. }
  destruct ev as [e w]. cbn [snd] in Hsub. destruct (match rsplit1 "-"%char w with Some vr => vr | None => (w, []) end) as [a b] eqn:E.
  assert (Ha : has_char Rpm.newline a = false).
  { apply not_true_is_false. intros Hc%has_char_spec. assert (has_char Rpm.newline v = true); [|congruence]. apply has_char_spec, Hsub.
    destruct (rsplit1 "-"%char w) as [[a' b']|] eqn:E'; simplify_eq; [by eapply rsplit1_sub|done]. }
  rewrite Ha. eauto.
Qed.
(** Where texts hold no line break the comparison answers, and [cmp] is its answer. *)
Lemma cmp_answers f a b :
  has_char Rpm.newline a = false -> has_char Rpm.newline b = false -> compare (family_name f) a b = Some (cmp f a b).
Proof.
  intros Ha Hb. unfold cmp. destruct f; [done|]. change (compare (family_name rpm) a b) with (Rpm.rpm_compare a b). unfold Rpm.rpm_compare.
  destruct (rpm_split_answers a Ha) as [[[ea va] ra] ->], (rpm_split_answers b Hb) as [[[eb vb] rb] ->]. done.
Qed.
#[export] Instance deb_order : VersionOrder (cmp deb).
Proof. exact Deb.deb_version_order. Qed.

(** ** What is gathered *)
(** The pairs of an item that counts and a row's word on its version. *)
Definition Event : Type := pystr * pystr * SoftwareItem * Hit.
Definition events (ev : pystr -> pystr -> list Hit) (l : list (pystr * pystr * SoftwareItem)) : list Event :=
  flat_map (fun x => map (fun h => (x, h)) (ev (fst (fst x)) (snd (fst x)))) l.
Definition event_key (x : Event) : Key := (fst (fst (fst x)), h_cve (snd x)).
Definition take_event (f : Family) (g : Gathered) (x : Event) : Gathered :=
  let '(key, version, i, h) := x in gather_hit f key version i g h.
Lemma gather_events f ev l : gather f ev l = foldl (take_event f) (MkGathered ∅ ∅ ∅) (events ev l).
Proof.
  unfold gather, events. generalize (MkGathered ∅ ∅ ∅). induction l as [|[[key version] i] l IH]; intros g; [done|]. cbn [foldl flat_map fst snd].
  rewrite foldl_app, <- IH. f_equal. clear. revert g. induction (ev key version) as [|h hs IH]; intros g; [done|]. apply IH.
Qed.
Lemma elem_of_flat_map {A B} (f : A -> list B) l y : y ∈ flat_map f l <-> exists x, x ∈ l /\ y ∈ f x.
Proof. rewrite list_elem_of_In, in_flat_map. split; intros (x & H); exists x; by rewrite !list_elem_of_In in *. Qed.
Lemma event_in ev l x : x ∈ events ev l <-> fst x ∈ l /\ snd x ∈ ev (fst (fst (fst x))) (snd (fst (fst x))).
Proof.
  unfold events. rewrite elem_of_flat_map. split.
  - intros (y & Hy & (h & -> & Hh)%list_elem_of_fmap). by split.
  - destruct x as [y h]. cbn [fst snd]. intros [Hy Hh]. exists y. split; [done|]. apply list_elem_of_fmap. by exists h.
Qed.
(** The keys that each state of an event adds. *)
Section Keys.
Context (f : Family) (s : VState) (keys : Gathered -> gset Key).
Context (keys_none : keys (MkGathered ∅ ∅ ∅) = ∅).
Context (keys_event : forall g x, keys (take_event f g x) = if bool_decide (h_state (snd x) = s) then {[ event_key x ]} ∪ keys g else keys g).
Lemma keys_spec l k : k ∈ keys (foldl (take_event f) (MkGathered ∅ ∅ ∅) l) <-> exists x, x ∈ l /\ h_state (snd x) = s /\ event_key x = k.
Proof.
  induction l as [|x l IH] using rev_ind; [simpl; rewrite keys_none; set_solver|]. rewrite foldl_app. cbn [foldl]. rewrite keys_event. split.
  - intros Hk. case_bool_decide as E; [apply elem_of_union in Hk as [->%elem_of_singleton|Hk]; [exists x; set_solver|]|];
      apply IH in Hk as (y & Hy & ? & ?); exists y; set_solver.
  - intros (y & [Hy| ->%list_elem_of_singleton]%elem_of_app & Hs & <-).
    + assert (H : event_key y ∈ keys (foldl (take_event f) (MkGathered ∅ ∅ ∅) l)) by (apply IH; eauto). case_bool_decide; set_solver.
    + rewrite bool_decide_eq_true_2 by done. set_solver.
Qed.
End Keys.
Lemma opened_keys f l k : k ∈ dom (g_opened (foldl (take_event f) (MkGathered ∅ ∅ ∅) l)) <-> exists x, x ∈ l /\ h_state (snd x) = opened_ /\ event_key x = k.
Proof.
  apply (keys_spec f opened_ (fun g => dom (g_opened g))); [apply dom_empty_L|]. intros g [[[key version] i] h].
  unfold take_event, gather_hit. cbn [snd]. destruct (h_state h); [by rewrite bool_decide_eq_true_2 by done; cbn [g_opened]; rewrite dom_insert_L|by rewrite bool_decide_eq_false_2..].
Qed.
Lemma unfixed_keys f l k : k ∈ dom (g_unfixed (foldl (take_event f) (MkGathered ∅ ∅ ∅) l)) <-> exists x, x ∈ l /\ h_state (snd x) = unfixed_ /\ event_key x = k.
Proof.
  apply (keys_spec f unfixed_ (fun g => dom (g_unfixed g))); [apply dom_empty_L|]. intros g [[[key version] i] h].
  unfold take_event, gather_hit. cbn [snd]. destruct (h_state h); [by rewrite bool_decide_eq_false_2| |by rewrite bool_decide_eq_false_2].
  rewrite bool_decide_eq_true_2 by done. cbn [g_unfixed]. by rewrite dom_insert_L.
Qed.
Lemma resolved_keys f l k : k ∈ g_resolved (foldl (take_event f) (MkGathered ∅ ∅ ∅) l) <-> exists x, x ∈ l /\ h_state (snd x) = fixed_ /\ event_key x = k.
Proof.
  apply (keys_spec f fixed_ g_resolved); [done|]. intros g [[[key version] i] h]. unfold take_event, gather_hit. cbn [snd].
  destruct (h_state h); [by rewrite bool_decide_eq_false_2..|by rewrite bool_decide_eq_true_2].
Qed.
(** The words of the rows on one version. *)
Lemma hit_in rows release package version h :
  h ∈ hits_of rows (release, package, version) <->
  exists r s, r ∈ rows /\ v_release r = release /\ v_package r = package /\ state_of (default rpm (family release)) version r = Some s /\
    h_cve h ∈ cves r /\ h = MkHit (h_cve h) (v_kind r) (v_record r) (fixed r) (v_availability r) (v_severity r) (v_title r) s.
Proof.
  unfold hits_of. rewrite elem_of_flat_map. split.
  - intros (r & [Hr Hk]%elem_filter & Hh). unfold row_of in Hk. bool_prop. unfold row_hits in Hh.
    destruct (state_of _ _ r) as [s|] eqn:E; [|by apply elem_of_nil in Hh]. apply list_elem_of_fmap in Hh as (c & -> & Hc). exists r, s. auto 10.
  - intros (r & s & Hr & <- & <- & E & Hc & ->). exists r. split.
    + apply elem_filter. split; [done|]. unfold row_of. by rewrite !bool_decide_eq_true_2.
    + unfold row_hits. rewrite E. apply list_elem_of_fmap. by exists (h_cve h).
Qed.
(** A row that says [s] of a version installed under the package's name. *)
Definition says (rows : list DistroVuln) (release : pystr) (l : list (pystr * pystr * SoftwareItem)) (s : VState) (k : Key) (version : pystr) (r : DistroVuln) : Prop :=
  (exists i, (fst k, version, i) ∈ l) /\ r ∈ rows /\ v_release r = release /\ v_package r = fst k /\ snd k ∈ cves r /\
  state_of (default rpm (family release)) version r = Some s.
Lemma events_say rows release l s k :
  (exists x, x ∈ events (fun p v => hits_of rows (release, p, v)) l /\ h_state (snd x) = s /\ event_key x = k) <->
  exists version r, says rows release l s k version r.
Proof.
  split.
  - intros ([[[p v] i] h] & [Hl Hh]%event_in & Hs & <-). cbn [fst snd] in *. apply hit_in in Hh as (r & s' & Hr & E1 & E2 & Est & Hc & Eh).
    assert (s' = s) as -> by by rewrite Eh in Hs. exists v, r. unfold says, event_key. cbn [fst snd]. split; [eauto|]. auto.
  - intros (v & r & (i & Hi) & Hr & E1 & E2 & Hc & Est). destruct k as [p c]. cbn [fst snd] in *.
    exists (p, v, i, MkHit c (v_kind r) (v_record r) (fixed r) (v_availability r) (v_severity r) (v_title r) s). split; [|done].
    apply event_in. cbn [fst snd]. split; [done|]. apply hit_in. exists r, s. auto 10.
Qed.

(** *** The fix an entry keeps *)
Definition fix_at (g : Gathered) (k : Key) (a : pystr) : option pystr := e ← g_opened g !! k; fixes e !! a.
Definition fix_of (x : Event) : pystr := default [] (h_fixed (snd x)).
(** An event that offers a fix under the key, from the source [a]. *)
Definition offers (k : Key) (a : pystr) (x : Event) : bool :=
  bool_decide (h_state (snd x) = opened_) && bool_decide (event_key x = k) && bool_decide (h_availability (snd x) = a).
Definition better (f : Family) (x : pystr) (o : option pystr) : pystr :=
  match o with Some prev => if 0 <? cmp f x prev then x else prev | None => x end.
Lemma fix_at_event f g x k a :
  fix_at (take_event f g x) k a = if offers k a x then Some (better f (fix_of x) (fix_at g k a)) else fix_at g k a.
Proof.
  destruct x as [[[key version] i] h]. unfold take_event, gather_hit, offers, event_key, fix_of, fix_at. cbn [fst snd].
  destruct (h_state h); [|by rewrite bool_decide_eq_false_2..]. rewrite bool_decide_eq_true_2 by done. cbn [g_opened andb].
  destruct (decide ((key, h_cve h) = k)) as [<-|Hk].
  - rewrite (bool_decide_eq_true_2 (_ = _)) by done. rewrite lookup_insert_eq. cbn [mbind option_bind andb].
    set (e := default _ _). unfold open_more. cbn [fixes].
    assert (He : forall b, fixes e !! b = (g_opened g !! (key, h_cve h) ≫= fun e => fixes e !! b)).
    { intros b. unfold e. destruct (g_opened g !! (key, h_cve h)); [done|]. cbn. by rewrite lookup_empty. }
    rewrite <- He. destruct (decide (h_availability h = a)) as [<-|Ha].
    + rewrite (bool_decide_eq_true_2 (_ = _)) by done. destruct (fixes e !! h_availability h) as [prev|] eqn:E; cbn [better].
      * destruct (0 <? _); [by rewrite lookup_insert_eq|done].
      * by rewrite lookup_insert_eq.
    + rewrite (bool_decide_eq_false_2 (h_availability h = a)) by done. destruct (fixes e !! h_availability h); [destruct (0 <? _)|];
        by rewrite ?lookup_insert_ne.
  - rewrite (bool_decide_eq_false_2 (_ = k)) by done. by rewrite lookup_insert_ne.
Qed.
Lemma fix_at_best f `{!VersionOrder (cmp f)} l k a :
  match fix_at (foldl (take_event f) (MkGathered ∅ ∅ ∅) l) k a with
  | Some x => (exists y, y ∈ l /\ offers k a y = true /\ fix_of y = x) /\ forall y, y ∈ l -> offers k a y = true -> 0 <= cmp f x (fix_of y)
  | None => forall y, y ∈ l -> offers k a y = false
  end.
Proof.
  induction l as [|x l IH] using rev_ind.
  { unfold fix_at. cbn [foldl g_opened]. rewrite lookup_empty. intros y Hy. by apply elem_of_nil in Hy. }
  rewrite foldl_app. cbn [foldl]. rewrite fix_at_event.
  set (o := fix_at _ k a) in *. destruct (offers k a x) eqn:Ex.
  - split.
    + unfold better. destruct o as [prev|]; [destruct (0 <? _)|]; try (exists x; set_solver).
      destruct IH as [(y & Hy & ? & ?) _]. exists y. set_solver.
    + intros y [Hy| ->%list_elem_of_singleton]%elem_of_app Hoy.
      * destruct o as [prev|]; [|by rewrite (IH y Hy) in Hoy]. destruct IH as [_ IH]. specialize (IH y Hy Hoy). cbn [better].
        destruct (Z.ltb_spec 0 (cmp f (fix_of x) prev)); [|done].
        pose proof (vo_flip (cmp f) (fix_of x) prev). pose proof (vo_flip (cmp f) prev (fix_of y)). pose proof (vo_flip (cmp f) (fix_of x) (fix_of y)).
        pose proof (vo_trans (cmp f) (fix_of y) prev (fix_of x)). lia.
      * pose proof (vo_refl (cmp f) (fix_of x)). unfold better. destruct o as [prev|]; [|lia].
        destruct (Z.ltb_spec 0 (cmp f (fix_of x) prev)); [lia|]. pose proof (vo_flip (cmp f) (fix_of x) prev). lia.
  - destruct o as [v|].
    + destruct IH as [(y & Hy & H1 & H2) IH]. split; [exists y; set_solver|].
      intros z [Hz| ->%list_elem_of_singleton]%elem_of_app Hoz; [auto|congruence].
    + intros y [Hy| ->%list_elem_of_singleton]%elem_of_app; auto.
Qed.

(** ** The properties *)
Section Findings.
Context (iter : list pystr -> list pystr) (rows : list DistroVuln) (release : pystr) (p : Platform) (items : list SoftwareItem).
Notation f := (default rpm (family release)).
(** The packages that count, under the names the distribution publishes. *)
Definition counted : list (pystr * pystr * SoftwareItem) := looked_up f (fst (fst (_kernel_filter iter f items (kernel p)))).
Notation a := (analyse_items iter release p items (hits_of rows)).
Notation gathered := (foldl (take_event f) (MkGathered ∅ ∅ ∅) (events (fun k v => hits_of rows (release, k, v)) counted)).
Lemma analysed :
  (exists newest, findings a = map (finish f newest items) (merge_sort entry_le (map_to_list (g_opened gathered)))) /\
  unfixed a = merge_sort entry_le (map_to_list (filter (fun ku => fst ku ∉ dom (g_opened gathered) /\ fst ku ∉ g_resolved gathered) (g_unfixed gathered))).
Proof.
  unfold analyse_items, counted. destruct (_kernel_filter iter f items (kernel p)) as [[kept newest] run]. cbn [fst findings unfixed].
  rewrite gather_events. split; [by eexists|done].
Qed.
Definition finding_key (x : Finding) : Key := (f_package x, f_cve x).
Lemma finish_key newest ke : finding_key (finish f newest items ke) = fst ke.
Proof. destruct ke as [[k c] e]. unfold finish. by destruct (match fixes e !! AVAILABILITY_STANDARD with Some x => _ | None => _ end). Qed.

(** C35: The findings of an asset are exactly its open CVEs.  A package and CVE
    are a finding if and only if an installed package that counts has a version
    some row of its release says is affected and fixed later; they are listed as
    unfixed if and only if a row says affected without a fix, and no row says open
    or fixed of a version that counts.  Each is listed once. *)
Theorem findings_exact :
  (forall k, (exists x, x ∈ findings a /\ finding_key x = k) <-> exists version r, says rows release counted opened_ k version r) /\
  (forall k, (exists u, (k, u) ∈ unfixed a) <->
     (exists version r, says rows release counted unfixed_ k version r) /\
     ~ (exists version r, says rows release counted opened_ k version r) /\ ~ (exists version r, says rows release counted fixed_ k version r)) /\
  NoDup (map finding_key (findings a)) /\ NoDup (map fst (unfixed a)).
Proof.
  destruct analysed as [[newest ->] ->]. split; [|split; [|split]].
  - intros k. rewrite <- events_say, <- (opened_keys f). rewrite elem_of_dom. split.
    + intros (x & ([k' e] & -> & Hk)%list_elem_of_fmap & <-). rewrite finish_key. rewrite merge_sort_Permutation, elem_of_map_to_list in Hk. by exists e.
    + intros [e He]. exists (finish f newest items (k, e)). rewrite finish_key. split; [|done]. apply list_elem_of_fmap_2.
      by rewrite merge_sort_Permutation, elem_of_map_to_list.
  - intros k. rewrite <- !events_say, <- (unfixed_keys f), <- (opened_keys f), <- (resolved_keys f). rewrite (elem_of_dom (g_unfixed gathered)). split.
    + intros [u Hu]. rewrite merge_sort_Permutation, elem_of_map_to_list, map_lookup_filter_Some in Hu. destruct Hu as [Hu [H1 H2]].
      split; [by exists u|]. by split.
    + intros ([u Hu] & H1 & H2). exists u. rewrite merge_sort_Permutation, elem_of_map_to_list, map_lookup_filter_Some. by split.
  - rewrite map_map. erewrite map_ext by apply finish_key. rewrite merge_sort_Permutation. apply NoDup_fst_map_to_list.
  - rewrite merge_sort_Permutation. apply NoDup_fst_map_to_list.
Qed.

Lemma offers_says c av x : (exists y, y ∈ events (fun k v => hits_of rows (release, k, v)) counted /\ offers c av y = true /\ fix_of y = x) <->
  exists version r, says rows release counted opened_ c version r /\ v_availability r = av /\ default [] (fixed r) = x.
Proof.
  unfold offers, fix_of. split.
  - intros ([[[q v] i] h] & [Hl Hh]%event_in & Ho & Hx). cbn [fst snd] in *. apply hit_in in Hh as (r & s' & Hr & E1 & E2 & Est & Hc & Eh).
    bool_prop. rewrite Eh in *. cbn [h_state h_availability h_fixed] in *. subst s'. exists v, r. split; [|done]. subst c.
    unfold says, event_key. cbn [fst snd h_cve]. split; [eauto|]. auto 10.
  - intros (v & r & ((i & Hi) & Hr & E1 & E2 & Hc & Est) & <- & <-). destruct c as [q c]. cbn [fst snd] in *.
    exists (q, v, i, MkHit c (v_kind r) (v_record r) (fixed r) (v_availability r) (v_severity r) (v_title r) opened_).
    split; [|split; [by rewrite !bool_decide_eq_true_2|done]].
    apply event_in. cbn [fst snd]. split; [done|]. apply hit_in. exists r, opened_. auto 10.
Qed.
(** What an entry keeps of each source, in terms of the rows. *)
Lemma entry_best c e av :
  f = deb -> g_opened gathered !! c = Some e ->
  match fixes e !! av with
  | Some x => (exists version r, says rows release counted opened_ c version r /\ v_availability r = av /\ default [] (fixed r) = x) /\
              forall version r, says rows release counted opened_ c version r -> v_availability r = av -> 0 <= cmp deb x (default [] (fixed r))
  | None => forall version r, says rows release counted opened_ c version r -> v_availability r <> av
  end.
Proof.
  intros Hf He. assert (E : fixes e !! av = fix_at gathered c av) by (unfold fix_at; by rewrite He). rewrite E, Hf. clear E.
  pose proof (fix_at_best deb (events (fun k v => hits_of rows (release, k, v)) counted) c av) as H. destruct (fix_at _ c av) as [x|].
  - destruct H as [H1 H2]. split; [by apply offers_says|]. intros v r Hs Ha.
    destruct (proj2 (offers_says c av (default [] (fixed r)))) as (y & Hy & Ho & <-); eauto.
  - intros v r Hs Ha. destruct (proj2 (offers_says c av (default [] (fixed r)))) as (y & Hy & Ho & _); [eauto|]. by rewrite (H y Hy) in Ho.
Qed.
Lemma open_below g w r : state_of g w r = Some opened_ -> exists x, fixed r = Some x /\ cmp g w x < 0.
Proof.
  unfold state_of. destruct (match given (introduced r) with Some _ => _ | None => _ end); [done|].
  destruct (fixed r) as [[|ch tl]|]; cbn [given]; [by destruct (given (last_affected r)); try destruct (0 <? _)| |
    by destruct (given (last_affected r)); try destruct (0 <? _)].
  destruct (cmp g w (ch :: tl) <? 0) eqn:E; [|done]. intros _. bool_prop. eauto.
Qed.
Lemma finish_source newest c e fix_ :
  fixed_in (finish f newest items (c, e)) = Some fix_ ->
  fixes e !! f_availability (finish f newest items (c, e)) = Some fix_ /\
  (f_availability (finish f newest items (c, e)) <> AVAILABILITY_STANDARD -> fixes e !! AVAILABILITY_STANDARD = None).
Proof.
  destruct c as [q cv]. unfold finish. destruct (fixes e !! AVAILABILITY_STANDARD) as [y|] eqn:Es; cbn [fixed_in f_availability]; intros Hy; by rewrite <- Hy.
Qed.
(** The version a finding names closes it.  On Debian and Ubuntu it is the
    fix of a row that says open, of the source the finding names; at that version
    or any later one, by dpkg's order, none of the rows of that source that say
    open still does; and a finding names the paid source only when no row of the
    standard one says open. *)
Theorem update_closes x fix_ :
  f = deb -> x ∈ findings a -> fixed_in x = Some fix_ ->
  (exists version r, says rows release counted opened_ (finding_key x) version r /\ v_availability r = f_availability x /\ fixed r = Some fix_) /\
  (forall w version r, 0 <= cmp deb w fix_ -> says rows release counted opened_ (finding_key x) version r -> v_availability r = f_availability x ->
     state_of deb w r <> Some opened_) /\
  (f_availability x <> AVAILABILITY_STANDARD ->
     forall version r, says rows release counted opened_ (finding_key x) version r -> v_availability r <> AVAILABILITY_STANDARD).
Proof.
  intros Hf Hx Hfix. destruct analysed as [[newest E] _]. rewrite E in Hx. clear E.
  apply list_elem_of_fmap in Hx as ([c e] & -> & Hke). rewrite merge_sort_Permutation, elem_of_map_to_list in Hke. rewrite finish_key. cbn [fst].
  destruct (finish_source newest c e fix_ Hfix) as [Hav Hstd]. set (av := f_availability _) in *.
  pose proof (entry_best c e av Hf Hke) as Hb. rewrite Hav in Hb. destruct Hb as [(v & r & Hs & Ha & Hd) Hb]. split; [|split].
  - exists v, r. split; [done|]. split; [done|]. destruct Hs as (_ & _ & _ & _ & _ & Hst). apply open_below in Hst as (x & Ex & _). rewrite Ex in *. cbn in Hd. by subst.
  - intros w v' r' Hw Hs' Ha' (x & Ex & Hlt)%open_below. specialize (Hb v' r' Hs' Ha'). rewrite Ex in Hb. cbn [from_option id default] in Hb.
    pose proof (vo_flip (cmp deb) w fix_). pose proof (vo_flip (cmp deb) fix_ x). pose proof (vo_flip (cmp deb) w x).
    pose proof (vo_trans (cmp deb) x fix_ w). lia.
  - intros Hne v' r' Hs'. pose proof (entry_best c e AVAILABILITY_STANDARD Hf Hke) as Hb'. rewrite (Hstd Hne) in Hb'. by eapply Hb'.
Qed.
End Findings.

(** ** The cache *)
Section Cache.
(** The rows of the table when the feeds have a stamp. *)
Context (rows_at : Stamp -> list DistroVuln).
Definition true_of (s : Stamp) (m : gmap Needed (list Hit)) : Prop := forall k l, m !! k = Some l -> l = hits_of (rows_at s) k.
(** A call between its two locked sections: its stamp, what it needs, what it found. *)
Record Call : Type := MkCall { c_stamp : Stamp; c_needed : gset Needed; c_out : gmap Needed (list Hit) }.
Definition missing (c : Call) : gset Needed := c_needed c ∖ dom (c_out c).
Definition answer (c : Call) : gmap Needed (list Hit) := fresh (rows_at (c_stamp c)) (missing c) ∪ c_out c.
(** Calls of several threads, under whatever stamp each has read. *)
Inductive calls : Cache -> list Call -> Prop :=
| calls_none : calls (MkCache ∅ None) []
| calls_begin c l stamp needed c' out :
    calls c l -> look stamp needed c = (c', out) -> calls c' (MkCall stamp needed out :: l)
| calls_end c l1 x l2 : calls c (l1 ++ x :: l2) -> missing x <> ∅ ->
    calls (remember (c_stamp x) (fresh (rows_at (c_stamp x)) (missing x)) c) (l1 ++ l2)
| calls_end_found c l1 x l2 : calls c (l1 ++ x :: l2) -> missing x = ∅ -> calls c (l1 ++ l2).
Lemma fresh_spec rows s k : fresh rows s !! k = if bool_decide (k ∈ s) then Some (hits_of rows k) else None.
Proof.
  unfold fresh. assert (Hi : forall y y' : Needed, y ∈ s -> y' ∈ s -> fst (y, hits_of rows y) = fst (y', hits_of rows y') -> y = y') by by intros. case_bool_decide as E.
  - apply lookup_set_to_map; [exact Hi|]. by exists k.
  - apply eq_None_not_Some. intros [l Hl]. apply lookup_set_to_map in Hl as (k' & Hk & E'); [|exact Hi]. injection E' as -> _. done.
Qed.
Lemma fresh_true s m : true_of s (fresh (rows_at s) m).
Proof. intros k l. rewrite fresh_spec. case_bool_decide; [by intros [= <-]|done]. Qed.
Lemma union_true s m m' : true_of s m -> true_of s m' -> true_of s (m ∪ m').
Proof. intros H H' k l [Hk|[_ Hk]]%lookup_union_Some_raw; eauto. Qed.
Lemma look_true stamp needed c c' out :
  (forall s, _cache_stamp c = Some s -> true_of s (_cache c)) -> look stamp needed c = (c', out) ->
  (forall s, _cache_stamp c' = Some s -> true_of s (_cache c')) /\ true_of stamp out /\ dom out ⊆ needed.
Proof.
  intros Hc. unfold look. set (d := if negb (bool_decide (_cache_stamp c = Some stamp)) || negb (size (_cache c) <=? MAX_CACHE)%nat then MkCache ∅ (Some stamp) else c).
  intros [= <- <-].
  assert (Hd : _cache_stamp d = Some stamp /\ true_of stamp (_cache d)).
  { unfold d. destruct (negb (bool_decide (_cache_stamp c = Some stamp)) || _) eqn:E; [split; [done|]; intros k l; cbn [_cache]; by rewrite lookup_empty|].
    bool_prop. auto. }
  destruct Hd as [Hd1 Hd2]. split; [intros s; rewrite Hd1; by intros [= <-]|]. split.
  - intros k l [Hk _]%map_lookup_filter_Some. by apply Hd2.
  - intros k [l [_ Hk]%map_lookup_filter_Some]%elem_of_dom. done.
Qed.
Lemma calls_true c l : calls c l ->
  (forall s, _cache_stamp c = Some s -> true_of s (_cache c)) /\ Forall (fun x => true_of (c_stamp x) (c_out x)) l.
Proof.
  induction 1 as [|c l stamp needed c' out _ [IH1 IH2] E|c l1 x l2 _ [IH1 IH2] _|c l1 x l2 _ [IH1 IH2] _].
  - by split.
  - destruct (look_true _ _ _ _ _ IH1 E) as (H1 & H2 & _). split; [done|]. by constructor.
  - rewrite list.Forall_app, list.Forall_cons in IH2. destruct IH2 as (Hl1 & Hx & Hl2). split; [|by apply list.Forall_app].
    intros s. unfold remember. case_bool_decide as Es; [|apply IH1]. cbn [_cache_stamp _cache]. rewrite Es. intros [= <-].
    apply union_true; [apply fresh_true|by apply IH1].
  - rewrite list.Forall_app, list.Forall_cons in IH2. destruct IH2 as (Hl1 & Hx & Hl2). split; [done|]. by apply list.Forall_app.
Qed.
(** C36: The cache is transparent.  However the calls of several threads
    interleave, each under the stamp it has read, a call answers every key it
    needs with what the rows of its stamp say, as if there were no cache. *)
Theorem cache_transparent c l1 x l2 k :
  calls c (l1 ++ x :: l2) -> k ∈ c_needed x -> answer x !! k = Some (hits_of (rows_at (c_stamp x)) k).
Proof.
  intros [_ H]%calls_true Hk. rewrite list.Forall_app, list.Forall_cons in H. destruct H as (_ & Hx & _). unfold answer.
  destruct (c_out x !! k) as [l|] eqn:E.
  - assert (Hm : fresh (rows_at (c_stamp x)) (missing x) !! k = None).
    { rewrite fresh_spec, bool_decide_eq_false_2; [done|]. unfold missing. apply mk_is_Some, elem_of_dom in E. set_solver. }
    rewrite lookup_union_r by done. rewrite E. f_equal. by apply Hx.
  - rewrite lookup_union_l by done. rewrite fresh_spec, bool_decide_eq_true_2; [done|]. unfold missing.
    apply elem_of_difference. split; [done|]. by apply not_elem_of_dom.
Qed.
(** [_evaluate] is such a call with nothing in between. *)
Lemma evaluate_call stamp needed c :
  (forall s, _cache_stamp c = Some s -> true_of s (_cache c)) ->
  (forall s, _cache_stamp (fst (_evaluate stamp (rows_at stamp) needed c)) = Some s -> true_of s (_cache (fst (_evaluate stamp (rows_at stamp) needed c)))) /\
  forall k, k ∈ needed -> snd (_evaluate stamp (rows_at stamp) needed c) !! k = Some (hits_of (rows_at stamp) k).
Proof.
  intros Hc. unfold _evaluate. destruct (look stamp needed c) as [c' out] eqn:E. destruct (look_true _ _ _ _ _ Hc E) as (H1 & H2 & H3).
  case_bool_decide as Em; cbn [fst snd].
  - split; [done|]. intros k Hk. destruct (out !! k) as [l|] eqn:Ek; [f_equal; by apply H2|].
    apply not_elem_of_dom in Ek. set_solver.
  - split.
    + intros s. unfold remember. case_bool_decide as Es; [|apply H1]. cbn [_cache_stamp _cache]. rewrite Es. intros [= <-].
      apply union_true; [apply fresh_true|by apply H1].
    + intros k Hk. destruct (decide (k ∈ dom out)) as [Hd|Hd].
      * rewrite lookup_union_r by (rewrite fresh_spec, bool_decide_eq_false_2; [done|set_solver]).
        apply elem_of_dom in Hd as [l Hl]. rewrite Hl. f_equal. by apply H2.
      * rewrite lookup_union_l by by apply not_elem_of_dom. rewrite fresh_spec, bool_decide_eq_true_2; [done|set_solver].
Qed.
End Cache.

(** ** Which kernels count *)
(** The version of a kernel package, and the one that runs: [Some None] is a
    running kernel that is none of the distribution's. *)
Definition kernel_version (f : Family) (i : SoftwareItem) : option pystr :=
  match f with
  | deb => _DEB_KERNEL_ABI (item_name i)
  | rpm => if _RPM_KERNEL (item_name i) then Some (no_zero_epoch (item_version i)) else None
  end.
Definition runs_version (f : Family) (running : option pystr) : option (option pystr) :=
  match f, given running with
  | _, None => None
  | deb, Some r => Some (running_abi r)
  | rpm, Some r => Some (Some (without_arch r))
  end.
Section Kernels.
Context (iter : list pystr -> list pystr) (iter_set : forall l x, x ∈ iter l <-> x ∈ l).
Lemma max_by_spec f `{!VersionOrder (cmp f)} l m :
  max_by (fun a b => cmp f a b <? 0) l = Some m -> m ∈ l /\ forall x, x ∈ l -> cmp f x m <= 0.
Proof.
  destruct l as [|y l]; [done|]. cbn [max_by]. intros [= <-]. revert y. induction l as [|z l IH]; intros y; cbn [foldl].
  - split; [by left|]. intros x ->%list_elem_of_singleton. by rewrite vo_refl.
  - destruct (IH (if cmp f y z <? 0 then z else y)) as [H1 H2]. set (b := foldl _ _ l) in *.
    assert (Hb : forall x, x = y \/ x = z -> cmp f x b <= 0).
    { assert (Hc := H2 _ (list_elem_of_here _ _)). pose proof (vo_flip (cmp f) y z). intros x Hx.
      destruct (Z.ltb_spec (cmp f y z) 0); destruct Hx as [-> | ->]; try done.
      - apply (vo_trans (cmp f) y z b); lia.
      - apply (vo_trans (cmp f) z y b); lia. }
    split.
    + apply elem_of_cons in H1 as [->|H1]; [destruct (cmp f y z <? 0); set_solver|set_solver].
    + intros x [->|[->|Hx]%elem_of_cons]%elem_of_cons; [by apply Hb; left|by apply Hb; right|]. apply H2. by right.
Qed.
Lemma newest_spec f `{!VersionOrder (cmp f)} l m : newest_of iter f l = Some m -> m ∈ l /\ forall x, x ∈ l -> cmp f x m <= 0.
Proof. intros H%max_by_spec; [|done]. destruct H as [H1 H2]. split; [by apply iter_set|]. intros x Hx. by apply H2, iter_set. Qed.
Lemma newest_some f l : l <> [] -> is_Some (newest_of iter f l).
Proof.
  unfold newest_of. destruct l as [|x l]; [done|]. intros _. destruct (iter (x :: l)) as [|y t] eqn:E; [|by eexists].
  assert (H : x ∈ iter (x :: l)) by (apply iter_set; by left). rewrite E in H. by apply elem_of_nil in H.
Qed.
(** Only the running kernel counts.  A package that is no kernel always
    counts; a kernel package counts exactly when it is of the running kernel; when
    that is not known, when it is of the newest one installed, which on Debian and
    Ubuntu no installed kernel exceeds; a running kernel that is none of the
    installed ones makes none of them count.  (On the rpm distributions the name
    of the running kernel is more than an architecture.) *)
Theorem kernels_counted f items running i :
  i ∈ items -> (f = rpm -> forall r, given running = Some r -> without_arch r <> []) ->
  let '(kept, newest, _) := _kernel_filter iter f items running in
  (i ∈ kept <-> match kernel_version f i with
                | None => True
                | Some v => match runs_version f running with Some r => r = Some v | None => newest = Some v end
                end) /\
  (f = deb -> forall v, kernel_version deb i = Some v -> exists n, newest = Some n /\ cmp deb v n <= 0).
Proof.
  intros Hi Hrun. destruct f; cbn [kernel_version _kernel_filter].
  - set (values := omap _ items). assert (Hv : forall v, _DEB_KERNEL_ABI (item_name i) = Some v -> v ∈ values).
    { intros v E. apply list_elem_of_omap. by exists i. }
    case_bool_decide as En; cbv beta iota; [split|].
    + split; [|by intros]. intros _. destruct (_DEB_KERNEL_ABI (item_name i)) as [v|]; [|done]. specialize (Hv v eq_refl). rewrite En in Hv. by apply elem_of_nil in Hv.
    + intros _ v E. specialize (Hv v E). rewrite En in Hv. by apply elem_of_nil in Hv.
    + split.
      * rewrite elem_filter. destruct (_DEB_KERNEL_ABI (item_name i)) as [v|]; [|tauto]. specialize (Hv v eq_refl). rewrite bool_decide_eq_true.
        unfold runs_version. destruct (given running) as [r|]; [|tauto]. destruct (running_abi r) as [a|]; cbn; [|naive_solver].
        unfold in_words. case_bool_decide; [naive_solver|]. split; [naive_solver|]. intros [= ->]. done.
      * intros _ v E. destruct (newest_some deb values En) as [n Hn]. exists n. split; [done|]. apply (newest_spec deb) in Hn as [_ Hn]. by apply Hn, Hv.
  - set (kernels := List.filter _ items). case_bool_decide as En; cbv beta iota; (split; [|done]).
    + split; [|by intros]. intros _. destruct (_RPM_KERNEL (item_name i)) eqn:E; [|done].
      assert (H : i ∈ kernels) by by apply elem_filter. rewrite En in H. by apply elem_of_nil in H.
    + rewrite elem_filter. destruct (_RPM_KERNEL (item_name i)) eqn:E; cbn [negb orb]; [|tauto]. rewrite bool_decide_eq_true.
      assert (Hin : no_zero_epoch (item_version i) ∈ map (fun i => no_zero_epoch (item_version i)) kernels).
      { apply list_elem_of_fmap. exists i. split; [done|]. by apply elem_filter. }
      unfold runs_version. destruct (given running) as [r|]; cbn [option_map]; [|tauto]. specialize (Hrun eq_refl r eq_refl).
      unfold in_words. case_bool_decide; [tauto|]. rewrite bool_decide_eq_false_2 by done. split; [naive_solver|]. intros [= Ex]. by rewrite <- Ex in Hin.
Qed.
End Kernels.

(** ** A concrete asset *)
Module Sample.
Definition usn (fix_ : string) (availability : pystr) : DistroVuln :=
  MkVuln (py "ubuntu:22.04") (py "openssl") (py "USN-6119-1") KIND_ADVISORY None (Some (py fix_)) None [py "CVE-2023-2650"] (Some (py "high")) availability None.
Definition rows : list DistroVuln := [usn "3.0.2-0ubuntu1.10" AVAILABILITY_STANDARD; usn "3.0.2-0ubuntu1.9+esm1" AVAILABILITY_PRO; usn "3.0.2-0ubuntu1.9" AVAILABILITY_STANDARD].
Definition item (name version : string) (src : option string) : SoftwareItem := MkItem (py name) (py version) (option_map py src) None.
Definition items : list SoftwareItem :=
  [item "libssl3" "3.0.2-0ubuntu1.7" (Some "openssl"%string); item "linux-image-5.15.0-91-generic" "5.15.0-91.101" (Some "linux-signed"%string);
   item "linux-modules-nvidia-535-5.15.0-105-generic" "5.15.0-105.115" None].
Definition host (running : option string) : Platform := MkPlatform (py "Ubuntu") (py "22.04") (option_map py running) false.
Definition report : AssetAdvisories := analyse_items remove_dups (py "ubuntu:22.04") (host (Some "5.15.0-91-generic"%string)) items (hits_of rows).
Definition libssl : Finding :=
  MkFinding (py "openssl") (py "CVE-2023-2650") [py "libssl3"] (py "3.0.2-0ubuntu1.7") (Some (py "3.0.2-0ubuntu1.10")) AVAILABILITY_STANDARD
    [py "USN-6119-1"] (Some (py "high")) None false false.
Lemma report_findings : findings report = [libssl] /\ newest_kernel report = Some (py "5.15.0-105") /\ reboot_required report = true.
Proof. vm_compute. auto. Qed.
End Sample.

Lemma update_closes_witness :
  state_of deb (py "3.0.2-0ubuntu1.10") (Sample.usn "3.0.2-0ubuntu1.10" AVAILABILITY_STANDARD) <> Some opened_.
Proof.
  assert (Hx : Sample.libssl ∈ findings Sample.report) by (rewrite (proj1 Sample.report_findings); by left).
  destruct (update_closes remove_dups Sample.rows (py "ubuntu:22.04") (Sample.host (Some "5.15.0-91-generic"%string)) Sample.items
    Sample.libssl (py "3.0.2-0ubuntu1.10") eq_refl Hx eq_refl) as (_ & H & _).
  apply (H _ (py "3.0.2-0ubuntu1.7")); [vm_compute; discriminate| |reflexivity].
  split; [exists (Sample.item "libssl3" "3.0.2-0ubuntu1.7" (Some "openssl"%string)); vm_compute; by left|].
  split; [by left|]. split; [reflexivity|]. split; [reflexivity|]. split; [by left|]. vm_compute. reflexivity.
Defined.
Lemma kernels_counted_witness :
  Sample.item "linux-image-5.15.0-91-generic" "5.15.0-91.101" (Some "linux-signed"%string)
    ∈ fst (fst (_kernel_filter remove_dups deb Sample.items (Some (py "5.15.0-91-generic")))).
Proof.
  pose proof (kernels_counted remove_dups elem_of_remove_dups deb Sample.items (Some (py "5.15.0-91-generic"))
    (Sample.item "linux-image-5.15.0-91-generic" "5.15.0-91.101" (Some "linux-signed"%string)) ltac:(right; by left) ltac:(discriminate)) as H.
  destruct (_kernel_filter remove_dups deb Sample.items (Some (py "5.15.0-91-generic"))) as [[kept newest] run]. destruct H as [H _].
  apply H. vm_compute. reflexivity.
Defined.
Lemma cache_transparent_witness :
  answer (fun _ => Sample.rows) (MkCall (1, None) {[ (py "ubuntu:22.04", py "openssl", py "3.0.2-0ubuntu1.7") ]} ∅) !! (py "ubuntu:22.04", py "openssl", py "3.0.2-0ubuntu1.7")
  = Some (hits_of Sample.rows (py "ubuntu:22.04", py "openssl", py "3.0.2-0ubuntu1.7")).
Proof.
  apply (cache_transparent (fun _ => Sample.rows) (MkCache ∅ (Some (1, None))) []
    (MkCall (1, None) {[ (py "ubuntu:22.04", py "openssl", py "3.0.2-0ubuntu1.7") ]} ∅) []); [|cbn [c_needed]; by apply elem_of_singleton].
  eapply calls_begin; [apply calls_none|]. reflexivity.
Defined.
