(* ===== verification/Utf8.v ===== *)
(** * UTF-8 and big-endian integers

    [str.encode("utf-8")], [bytes.decode("utf-8")] and the unsigned big-endian
    formats of [struct.pack] and [struct.unpack], on lists of bytes (integers
    from 0 to 255) and lists of code points.  The backup container writes its
    names, its header and its lengths with them. *)
From S2P Require Import Prelude Base64.

(** A Python string that is not limited to the characters of [pystr]. *)
Notation ustr := (list Z) (only parsing).

(** ** struct *)

(** [struct.pack(">H")], [">I"], [">Q"], [">B"]: [w] bytes, or [struct.error]. *)
Fixpoint be_bytes (w : nat) (n : Z) : list byte :=
  match w with
  | O => []
  | S w' => be_bytes w' (n / 256) ++ [n mod 256]
  end.

Definition pack (w : nat) (n : Z) : option (list byte) :=
  if (0 <=? n) && (n <? 256 ^ Z.of_nat w) then Some (be_bytes w n) else None.

(** [struct.unpack] of the same formats. *)
Definition unpack (bs : list byte) : Z := foldl (fun n b => 256 * n + b) 0 bs.

Lemma be_bytes_length w n : length (be_bytes w n) = w.
Proof.
  revert n. induction w as [|w IH]; intros n; simpl; [done|].
  rewrite length_app, IH. simpl. lia.
Qed.

Lemma be_bytes_range w n : Forall is_byte (be_bytes w n).
Proof.
  revert n. induction w as [|w IH]; intros n; simpl; [constructor|].
  apply list.Forall_app. split; [apply IH|]. repeat constructor;
    pose proof (Z.mod_pos_bound n 256); lia.
Qed.

Lemma unpack_be w n : 0 <= n < 256 ^ Z.of_nat w -> unpack (be_bytes w n) = n.
Proof.
  unfold unpack. revert n. induction w as [|w IH]; intros n Hn; [simpl in *; lia|].
  rewrite Nat2Z.inj_succ, Z.pow_succ_r in Hn by lia.
  cbn [be_bytes]. rewrite foldl_app. cbn [foldl]. rewrite IH.
  - pose proof (Z.div_mod n 256). lia.
  - split; [apply Z.div_pos; lia|]. apply Z.div_lt_upper_bound; lia.
Qed.

Lemma pack_some w n bs : pack w n = Some bs -> bs = be_bytes w n /\ 0 <= n < 256 ^ Z.of_nat w.
Proof. unfold pack. intros E. case_match eqn:B; simplify_eq. bool_prop. split; [done|lia]. Qed.

Lemma pack_ok w n : 0 <= n < 256 ^ Z.of_nat w -> pack w n = Some (be_bytes w n).
Proof. intros H. unfold pack. by rewrite (proj2 (Z.leb_le _ _)), (proj2 (Z.ltb_lt _ _)) by lia. Qed.

Lemma pack_length w n bs : pack w n = Some bs -> length bs = w.
Proof. intros [-> _]%pack_some. apply be_bytes_length. Qed.

Lemma unpack_pack w n bs : pack w n = Some bs -> unpack bs = n.
Proof. intros [-> ?]%pack_some. by apply unpack_be. Qed.

Lemma pack_inj w n m bs : pack w n = Some bs -> pack w m = Some bs -> n = m.
Proof. intros Hn%unpack_pack Hm%unpack_pack. by rewrite <- Hn. Qed.

Lemma unpack_snoc bs b : unpack (bs ++ [b]) = 256 * unpack bs + b.
Proof. unfold unpack. by rewrite foldl_app. Qed.

(** The bytes of a fixed width are determined by their value. *)
Lemma be_unpack bs : Forall is_byte bs -> be_bytes (length bs) (unpack bs) = bs /\ 0 <= unpack bs.
Proof.
  induction bs as [|b bs IH] using rev_ind; intros Hb; [done|].
  apply list.Forall_app in Hb as [Hbs Hb]. apply Forall_cons_iff in Hb as [Hb _].
  destruct (IH Hbs) as [E Hp]. rewrite length_app. simpl. rewrite Nat.add_1_r, unpack_snoc.
  red in Hb. split; [|lia]. simpl. rewrite Z.add_comm, (Z.mul_comm 256), Z.div_add by lia.
  rewrite (Z.div_small b) by lia. rewrite Z.add_0_l, E, Z.mod_add, Z.mod_small by lia. done.
Qed.

Lemma unpack_bound bs : Forall is_byte bs -> unpack bs < 256 ^ Z.of_nat (length bs).
Proof.
  induction bs as [|b bs IH] using rev_ind; intros Hb; [done|].
  apply list.Forall_app in Hb as [Hbs Hb]. apply Forall_cons_iff in Hb as [Hb _]. specialize (IH Hbs). red in Hb.
  rewrite unpack_snoc, length_app. simpl. rewrite Nat.add_1_r, Nat2Z.inj_succ, Z.pow_succ_r by lia. lia.
Qed.

(** ** UTF-8 *)

(** One code point, [None] for a surrogate ([UnicodeEncodeError]). *)
Definition encode_point (c : Z) : option (list byte) :=
  if c <? 0 then None
  else if c <? 128 then Some [c]
  else if c <? 2048 then Some [192 + c / 64; 128 + c mod 64]
  else if c <? 65536 then
    if (55296 <=? c) && (c <=? 57343) then None
    else Some [224 + c / 4096; 128 + c / 64 mod 64; 128 + c mod 64]
  else if c <? 1114112 then
    Some [240 + c / 262144; 128 + c / 4096 mod 64; 128 + c / 64 mod 64; 128 + c mod 64]
  else None.

Fixpoint utf8_encode (s : ustr) : option (list byte) :=
  match s with
  | [] => Some []
  | c :: s' =>
      match encode_point c, utf8_encode s' with
      | Some x, Some y => Some (x ++ y)
      | _, _ => None
      end
  end.

(** A continuation byte. *)
Definition is_cont (b : Z) : bool := (128 <=? b) && (b <=? 191).

(** [bytes.decode("utf-8")]: overlong forms, surrogates and code points above
    0x10FFFF are refused ([UnicodeDecodeError]). *)
Fixpoint utf8_decode (bs : list byte) : option ustr :=
  match bs with
  | [] => Some []
  | b :: r =>
      if b <? 128 then option_map (cons b) (utf8_decode r)
      else if b <? 194 then None
      else if b <? 224 then
        match r with
        | b1 :: r' =>
            if is_cont b1
            then option_map (cons ((b - 192) * 64 + (b1 - 128))) (utf8_decode r')
            else None
        | [] => None
        end
      else if b <? 240 then
        match r with
        | b1 :: b2 :: r' =>
            if is_cont b1 && is_cont b2
               && negb ((b =? 224) && (b1 <? 160)) && negb ((b =? 237) && (160 <=? b1))
            then option_map (cons ((b - 224) * 4096 + (b1 - 128) * 64 + (b2 - 128))) (utf8_decode r')
            else None
        | _ => None
        end
      else if b <? 245 then
        match r with
        | b1 :: b2 :: b3 :: r' =>
            if is_cont b1 && is_cont b2 && is_cont b3
               && negb ((b =? 240) && (b1 <? 144)) && negb ((b =? 244) && (144 <=? b1))
            then option_map (cons ((b - 240) * 262144 + (b1 - 128) * 4096 + (b2 - 128) * 64 + (b3 - 128)))
                            (utf8_decode r')
            else None
        | _ => None
        end
      else None
  end.

(** The base-64 digits of a code point. *)
Lemma digits64 c : 0 <= c ->
  c = c / 64 * 64 + c mod 64 /\ c / 64 = c / 4096 * 64 + c / 64 mod 64 /\
  c / 4096 = c / 262144 * 64 + c / 4096 mod 64 /\
  0 <= c mod 64 < 64 /\ 0 <= c / 64 mod 64 < 64 /\ 0 <= c / 4096 mod 64 < 64 /\ 0 <= c / 262144.
Proof.
  intros Hc. pose proof (Z.div_mod c 64). pose proof (Z.div_mod (c / 64) 64).
  pose proof (Z.div_mod (c / 4096) 64).
  pose proof (Z.mod_pos_bound c 64). pose proof (Z.mod_pos_bound (c / 64) 64).
  pose proof (Z.mod_pos_bound (c / 4096) 64). pose proof (Z.div_pos c 262144).
  assert (c / 4096 = c / 64 / 64) by (rewrite Z.div_div by lia; reflexivity).
  assert (c / 262144 = c / 4096 / 64) by (rewrite Z.div_div by lia; reflexivity).
  lia.
Qed.

Lemma is_cont_digit d : 0 <= d < 64 -> is_cont (128 + d) = true.
Proof. intros. unfold is_cont. apply andb_true_intro. split; apply Z.leb_le; lia. Qed.

Lemma decode1 c r : 0 <= c < 128 -> utf8_decode (c :: r) = option_map (cons c) (utf8_decode r).
Proof. intros. cbn [utf8_decode]. destruct (Z.ltb_spec c 128); [done|lia]. Qed.

Lemma decode2 h l r : 2 <= h < 32 -> 0 <= l < 64 ->
  utf8_decode (192 + h :: 128 + l :: r) = option_map (cons (h * 64 + l)) (utf8_decode r).
Proof.
  intros. cbn [utf8_decode]. rewrite (is_cont_digit l) by done.
  replace (192 + h - 192) with h by lia. replace (128 + l - 128) with l by lia.
  destruct (Z.ltb_spec (192 + h) 128); [lia|]. destruct (Z.ltb_spec (192 + h) 194); [lia|].
  destruct (Z.ltb_spec (192 + h) 224); [done|lia].
Qed.

Lemma decode3 h m l r : 0 <= h < 16 -> 0 <= m < 64 -> 0 <= l < 64 ->
  (h = 0 -> 32 <= m) -> (h = 13 -> m < 32) ->
  utf8_decode (224 + h :: 128 + m :: 128 + l :: r) = option_map (cons (h * 4096 + m * 64 + l)) (utf8_decode r).
Proof.
  intros ? ? ? H0 H13. cbn [utf8_decode]. rewrite (is_cont_digit m), (is_cont_digit l) by done.
  replace (224 + h - 224) with h by lia. replace (128 + l - 128) with l by lia.
  replace (128 + m - 128) with m by lia.
  destruct (Z.ltb_spec (224 + h) 128); [lia|]. destruct (Z.ltb_spec (224 + h) 194); [lia|].
  destruct (Z.ltb_spec (224 + h) 224); [lia|]. destruct (Z.ltb_spec (224 + h) 240); [|lia].
  destruct (Z.eqb_spec (224 + h) 224), (Z.eqb_spec (224 + h) 237), (Z.ltb_spec (128 + m) 160),
    (Z.leb_spec 160 (128 + m)); try done; lia.
Qed.

Lemma decode4 h a b l r : 0 <= h <= 4 -> 0 <= a < 64 -> 0 <= b < 64 -> 0 <= l < 64 ->
  (h = 0 -> 16 <= a) -> (h = 4 -> a < 16) ->
  utf8_decode (240 + h :: 128 + a :: 128 + b :: 128 + l :: r)
  = option_map (cons (h * 262144 + a * 4096 + b * 64 + l)) (utf8_decode r).
Proof.
  intros ? ? ? ? H0 H4. cbn [utf8_decode].
  rewrite (is_cont_digit a), (is_cont_digit b), (is_cont_digit l) by done.
  replace (240 + h - 240) with h by lia. replace (128 + l - 128) with l by lia.
  replace (128 + a - 128) with a by lia. replace (128 + b - 128) with b by lia.
  destruct (Z.ltb_spec (240 + h) 128); [lia|]. destruct (Z.ltb_spec (240 + h) 194); [lia|].
  destruct (Z.ltb_spec (240 + h) 224); [lia|]. destruct (Z.ltb_spec (240 + h) 240); [lia|]. destruct (Z.ltb_spec (240 + h) 245); [|lia].
  destruct (Z.eqb_spec (240 + h) 240), (Z.eqb_spec (240 + h) 244), (Z.ltb_spec (128 + a) 144),
    (Z.leb_spec 144 (128 + a)); try done; lia.
Qed.

Lemma decode_point c x r :
  encode_point c = Some x -> utf8_decode (x ++ r) = option_map (cons c) (utf8_decode r) /\ Forall is_byte x.
Proof.
  unfold encode_point. intros E. destruct (Z.ltb_spec c 0) as [|Hc]; [done|].
  pose proof (digits64 c Hc) as (D1 & D2 & D3 & B1 & B2 & B3 & B4).
  revert E D1 D2 D3 B1 B2 B3 B4.
  generalize (c mod 64); intros l. generalize (c / 64 mod 64); intros m.
  generalize (c / 4096 mod 64); intros a. generalize (c / 64), (c / 4096), (c / 262144).
  intros c1 c2 h E D1 D2 D3 ? ? ? ?. unfold is_byte.
  destruct (Z.ltb_spec c 128).
  { injection E as <-. split; [apply decode1; lia|]. repeat constructor; lia. }
  destruct (Z.ltb_spec c 2048).
  { injection E as <-. rewrite D1. split; [apply decode2; lia|]. repeat constructor; lia. }
  destruct (Z.ltb_spec c 65536).
  { destruct (Z.leb_spec 55296 c), (Z.leb_spec c 57343); try discriminate E; injection E as <-;
      (replace c with (c2 * 4096 + m * 64 + l) by lia;
       split; [apply decode3; lia|]; repeat constructor; lia). }
  destruct (Z.ltb_spec c 1114112); [|discriminate E]. injection E as <-.
  replace c with (h * 262144 + a * 4096 + m * 64 + l) by lia.
  split; [apply decode4; lia|]. repeat constructor; lia.
Qed.

Lemma utf8_decode_encode s bs : utf8_encode s = Some bs -> utf8_decode bs = Some s /\ Forall is_byte bs.
Proof.
  revert bs. induction s as [|c s IH]; simpl; intros bs E; [by simplify_eq|].
  destruct (encode_point c) as [x|] eqn:Ec; [|done]. destruct (utf8_encode s) as [y|]; simplify_eq.
  destruct (IH y eq_refl) as [E F]. destruct (decode_point c x y Ec) as [-> G].
  rewrite E. split; [done|]. by apply list.Forall_app.
Qed.

(** Characters below 256 can always be encoded. *)
Lemma utf8_encode_small s : Forall is_byte s -> exists bs, utf8_encode s = Some bs.
Proof.
  induction 1 as [|c s Hc _ [bs IH]]; simpl; [by eauto|]. rewrite IH. unfold encode_point. red in Hc.
  rewrite (proj2 (Z.ltb_ge c 0)) by lia. rewrite (proj2 (Z.ltb_lt c 2048)) by lia.
  destruct (c <? 128); eauto.
Qed.
