(* ===== verification/Container.v ===== *)
(** * The backup file (.ngbak)

    sysbackup/container.py and the functions of sysbackup/service.py that read
    a backup: [Writer] streams entries through zlib and seals chunks of
    [CHUNK] bytes with AES-GCM, [Reader] opens the chunks and walks the
    entries, [open_manifest] and [verify_file] use it.  A file is the list of
    its bytes; what is read is taken from its front.  A generator is the state
    it is paused in.  The random bytes are an argument, [urandom] for the
    nonce of each chunk.

    The cipher, the hashes, zlib and the JSON text are the operations of two
    classes, with what is used of them as laws.  The unforgeability of the
    cipher is a hypothesis of the theorem that needs it, about one file. *)
From stdpp Require Import sorting.
From S2P Require Import Prelude PyStr Json Base64 Utf8.

Definition blen {A} (l : list A) : Z := Z.of_nat (length l).

Definition MAGIC : list byte := [78; 71; 66; 65; 75; 0; 1; 10].
Definition FORMAT : Z := 1.
Definition CHUNK : Z := Z.shiftl 1 20.
Definition MAX_CHUNK : Z := CHUNK + 4096.
Definition MAX_HEADER : Z := Z.shiftl 1 16.
Definition SCRYPT : list (pystr * json) :=
  [(py "n", JInt (Z.shiftl 1 15)); (py "r", JInt 8); (py "p", JInt 1)].
(** An ASCII literal as bytes, or as the code points of a string. *)
Definition lit (s : string) : list Z := map ord (py s).
Definition CHECK_LABEL : list byte := lit "ngcorion-backup-check".

(** The texts of [BackupFormatError]. *)
Inductive format_error : Type :=
| NotABackup | FileCutShort | HeaderTooLarge | HeaderDamaged | UnsupportedFormat (format : json)
| FileDamaged | ChunkDamaged (index : Z) | DataAfterBackup | EndsInEntry | ArchiveDamaged
| DataAfterArchive | EntryTooLarge | NoManifestFirst | BackupEmpty | NoManifestOrSummary
| ChecksumMismatch (entry : pystr) | TablesMissing (entries : list pystr).

(** What reading can raise. *)
Inductive read_error : Type :=
| BackupFormatError (e : format_error)
| WrongPassphrase
| AttributeError | OverflowError | TypeError | ValueError | ZlibError
| OutOfFuel.    (** not an exception: the fuel given was not enough *)

(** What writing can raise. *)
Inductive write_error : Type :=
| StillOpen (entry : ustr) | DuplicateEntry (entry : ustr) | NoOpenEntry
| StructError | UnicodeEncodeError | ScryptError | WriteAttributeError
| WriteOutOfFuel.

(** What [cryptography], [hashlib], [hmac], [json] and [repr] provide. *)
Class CryptoLib : Type := {
  scrypt : list byte -> list byte -> Z -> Z -> Z -> option (list byte);  (** [None] is its [ValueError] or [TypeError] *)
  hmac_sha256 : list byte -> list byte -> list byte;
  sha256 : list byte -> list byte;
  aes_encrypt : list byte -> list byte -> list byte -> list byte -> list byte;          (** key, nonce, data, aad *)
  aes_decrypt : list byte -> list byte -> list byte -> list byte -> option (list byte); (** [None] is [InvalidTag] *)
  json_dumps : list (pystr * json) -> ustr;    (** [sort_keys=True, ensure_ascii=False] *)
  json_text : bool -> list (pystr * json) -> ustr;  (** [json.dumps], with [ensure_ascii] *)
  json_loads : ustr -> option json;            (** [None] is [ValueError] *)
  py_format : json -> pystr                    (** a value that is not a string in an f-string *)
}.

(** zlib's streaming objects. *)
Class ZlibLib (cst ust : Type) : Type := {
  compressobj : cst;
  compress : cst -> list byte -> cst * list byte;
  compress_flush : cst -> list byte;
  decompressobj : ust;
  decompress : ust -> list byte -> option (ust * list byte);  (** [None] is [zlib.error] *)
  decompress_flush : ust -> list byte
}.

(** What [cryptography] and [hashlib] promise: AES-GCM opens what it sealed,
    and nothing else, since its tag is a function of key, nonce, data and
    associated data; the tag takes 16 bytes.  Digests have their lengths. *)
Class CryptoLaws `{!CryptoLib} : Prop := {
  aes_open k n d a : aes_decrypt k n (aes_encrypt k n d a) a = Some d;
  aes_sealed k n ct d a : aes_decrypt k n ct a = Some d -> ct = aes_encrypt k n d a;
  aes_length k n d a : blen (aes_encrypt k n d a) = blen d + 16;
  sha256_length d : blen (sha256 d) = 32;
  hmac_bytes k d : Forall is_byte (hmac_sha256 k d)
}.

(** The output of a compression object over its input, and of a decompression
    object. *)
Fixpoint deflate {cst ust} `{!ZlibLib cst ust} (z : cst) (ds : list (list byte)) : cst * list byte :=
  match ds with
  | [] => (z, [])
  | d :: ds' =>
      let '(z1, out) := compress z d in
      let '(z2, outs) := deflate z1 ds' in
      (z2, out ++ outs)
  end.
Fixpoint inflate {cst ust} `{!ZlibLib cst ust} (z : ust) (cs : list (list byte)) : option (list byte) :=
  match cs with
  | [] => Some (decompress_flush z)
  | c :: cs' =>
      match decompress z c with
      | None => None
      | Some (z1, out) => option_map (app out) (inflate z1 cs')
      end
  end.

(** What zlib promises: the decompressed stream is the data, however the
    compressed stream is cut. *)
Class ZlibLaws (cst ust : Type) `{!ZlibLib cst ust} : Prop := {
  zlib_stream ds cs : Forall (Forall is_byte) ds ->
    concat cs = snd (deflate compressobj ds) ++ compress_flush (fst (deflate compressobj ds)) ->
    inflate decompressobj cs = Some (concat ds);
  decompress_bytes z c z' out : decompress z c = Some (z', out) -> Forall is_byte out;
  decompress_flush_bytes z : Forall is_byte (decompress_flush z)
}.

(** [hexdigest()] *)
Definition hex_char (d : Z) : ascii := if d <? 10 then chr (48 + d) else chr (87 + d).
Definition hexdigest (bs : list byte) : pystr :=
  flat_map (fun b => [hex_char (b / 16); hex_char (b mod 16)]) bs.

(** The standard alphabet in place of the URL-safe one. *)
Definition std_char (c : ascii) : ascii :=
  if bool_decide (c = "-"%char) then "+"%char else if bool_decide (c = "_"%char) then "/"%char else c.

(** [base64.b64encode(bs).decode()] *)
Definition std_b64encode (bs : list byte) : pystr :=
  map std_char (b64encode bs) ++ padding (length (b64encode bs)).

(** [base64.b64decode(s)] of a string: the two URL-safe characters are outside
    its alphabet and skipped; a character that is not ASCII is a [ValueError]. *)
Definition std_b64decode (s : pystr) : option (list byte) :=
  if forallb (fun c => ord c <? 128) s
  then a2b (List.filter (fun c => negb (bool_decide (c = "-"%char) || bool_decide (c = "_"%char))) s) 0 0 0
  else None.

(** The size and digest recorded for an entry. *)
Record info : Type := Info { i_size : Z; i_sha256 : pystr }.

(** [d[k] = v] on a dict as the list of its items. *)
Fixpoint dict_set {K V} `{EqDecision K} (o : list (K * V)) (k : K) (v : V) : list (K * V) :=
  match o with
  | [] => [(k, v)]
  | (k', v') :: o' => if bool_decide (k' = k) then (k, v) :: o' else (k', v') :: dict_set o' k v
  end.
(** [d.update(new)] *)
Definition dict_update {K V} `{EqDecision K} (o new : list (K * V)) : list (K * V) :=
  foldl (fun o kv => dict_set o (fst kv) (snd kv)) o new.
(** [d.get(k)] *)
Fixpoint dict_get {K V} `{EqDecision K} (o : list (K * V)) (k : K) : option V :=
  match o with
  | [] => None
  | (k', v') :: o' => if bool_decide (k' = k) then Some v' else dict_get o' k
  end.

(** [json.dumps(o, sort_keys=True)] read back: the same values, the keys of
    every object in order. *)
Definition key_le (a b : pystr * json) : Prop := str_cmp (fst a) (fst b) <> Gt.
#[global] Instance key_le_dec a b : Decision (key_le a b).
Proof. unfold key_le. destruct (str_cmp (fst a) (fst b)); (right; congruence) || (left; congruence). Defined.
Fixpoint canon (v : json) : json :=
  match v with
  | JObj o => JObj (merge_sort key_le (map (fun kv => (fst kv, canon (snd kv))) o))
  | JList l => JList (map canon l)
  | _ => v
  end.

(** ** Dicts, JSON objects and base64 *)

Lemma dict_set_elem {K V} `{EqDecision K} (o : list (K * V)) k v x :
  x ∈ map fst (dict_set o k v) <-> x = k \/ x ∈ map fst o.
Proof.
  induction o as [|[k' v'] o IH]; simpl; [set_solver|]. destruct (decide (k' = k)) as [->|].
  - rewrite bool_decide_true by done. simpl. set_solver.
  - rewrite bool_decide_false by done. simpl. set_solver.
Qed.

Lemma dict_set_NoDup {K V} `{EqDecision K} (o : list (K * V)) k v :
  NoDup (map fst o) -> NoDup (map fst (dict_set o k v)).
Proof.
  induction o as [|[k' v'] o IH]; simpl; intros Hd; [repeat constructor; set_solver|].
  apply list.NoDup_cons in Hd as [Hk Hd]. destruct (decide (k' = k)) as [->|].
  - rewrite bool_decide_true by done. by constructor.
  - rewrite bool_decide_false by done. cbn [map fst]. apply list.NoDup_cons. rewrite dict_set_elem. split; [set_solver|auto].
Qed.

Lemma dict_set_get (o : list (pystr * json)) k v k' :
  get (dict_set o k v) k' = if bool_decide (k = k') then v else get o k'.
Proof.
  induction o as [|[k1 v1] o IH]; simpl; [done|]. destruct (decide (k1 = k)) as [->|].
  - rewrite bool_decide_true by done. simpl. by destruct (bool_decide (k = k')).
  - rewrite bool_decide_false by done. simpl. rewrite IH.
    destruct (decide (k1 = k')) as [->|]; [|by rewrite !bool_decide_false by done].
    by rewrite bool_decide_true, bool_decide_false by done.
Qed.

Lemma has_key_spec o k : has_key o k = true <-> k ∈ map fst o.
Proof.
  unfold has_key. induction o as [|[k' v] o IH]; simpl; [set_solver|].
  rewrite orb_true_iff, bool_decide_eq_true, IH. set_solver.
Qed.

Lemma get_perm o o' k : NoDup (map fst o) -> o ≡ₚ o' -> get o k = get o' k.
Proof.
  intros Hd Hp. induction Hp as [|[k1 v1] o o' Hp IH|[k1 v1] [k2 v2] o|o1 o2 o3 H1 IH1 H2 IH2]; simpl in *.
  - done.
  - apply list.NoDup_cons in Hd as [_ Hd]. by rewrite IH.
  - apply list.NoDup_cons in Hd as [Hk _]. destruct (decide (k1 = k)) as [->|], (decide (k2 = k)) as [->|];
      rewrite ?bool_decide_true, ?bool_decide_false by done; set_solver.
  - rewrite IH1 by done. apply IH2. by rewrite <- H1.
Qed.

Lemma has_key_perm o o' k : o ≡ₚ o' -> has_key o k = has_key o' k.
Proof. intros Hp. apply eq_true_iff_eq. rewrite !has_key_spec. by rewrite Hp. Qed.

Lemma get_canon o k : get (map (fun kv => (fst kv, canon (snd kv))) o) k = canon (get o k).
Proof. induction o as [|[k' v] o IH]; simpl; [done|]. by destruct (bool_decide (k' = k)). Qed.

Lemma canon_keys o : map fst (map (fun kv : pystr * json => (fst kv, canon (snd kv))) o) = map fst o.
Proof. rewrite map_map. by apply map_ext. Qed.

(** A key of an object with distinct keys, after [canon]. *)
Lemma canon_obj o : NoDup (map fst o) -> exists o', canon (JObj o) = JObj o' /\
  (forall k, get o' k = canon (get o k)) /\ (forall k, has_key o' k = has_key o k).
Proof.
  intros Hd. simpl. eexists. split; [done|].
  pose proof (merge_sort_Permutation key_le (map (fun kv => (fst kv, canon (snd kv))) o)) as Hp. split; intros k.
  - rewrite <- get_canon. symmetry. apply get_perm; [by rewrite canon_keys|]. by symmetry.
  - rewrite (has_key_perm _ _ k Hp). apply eq_true_iff_eq. by rewrite !has_key_spec, canon_keys.
Qed.

Lemma std_char_ok c :
  sextet (std_char c) = sextet c /\ bool_decide (std_char c = "="%char) = bool_decide (c = "="%char) /\
  negb (bool_decide (std_char c = "-"%char) || bool_decide (std_char c = "_"%char)) = true /\
  (ord c <? 128 = true -> ord (std_char c) <? 128 = true).
Proof.
  unfold std_char. destruct (decide (c = "-"%char)) as [->|]; [done|].
  destruct (decide (c = "_"%char)) as [->|]; [done|]. 
  rewrite (bool_decide_false (c = "-"%char)), (bool_decide_false (c = "_"%char)) by done.
  cbn match. rewrite (bool_decide_false (c = "-"%char)), (bool_decide_false (c = "_"%char)) by done. auto.
Qed.

Lemma a2b_std s q left pads : a2b (map std_char s) q left pads = a2b s q left pads.
Proof.
  revert q left pads. induction s as [|c s IH]; intros; [done|]. cbn [map a2b].
  destruct (std_char_ok c) as (-> & -> & _).
  destruct (sextet c); by rewrite !IH.
Qed.

Lemma filter_std s :
  List.filter (fun c => negb (bool_decide (c = "-"%char) || bool_decide (c = "_"%char))) (map std_char s) = map std_char s.
Proof.
  induction s as [|c s IH]; [done|]. cbn [map List.filter]. destruct (std_char_ok c) as (_ & _ & -> & _). by rewrite IH.
Qed.

Lemma std_decode_encode bs : Forall is_byte bs -> std_b64decode (std_b64encode bs) = Some bs.
Proof.
  intros Hb. unfold std_b64encode.
  replace (padding (length (b64encode bs))) with (map std_char (padding (length (b64encode bs))))
    by (unfold padding; induction (Z.to_nat _) as [|n IH]; [done|by simpl; rewrite IH]).
  rewrite <- map_app. unfold std_b64decode. rewrite filter_std, a2b_std, a2b_encode by done.
  replace (forallb _ _) with true; [done|]. symmetry. apply forallb_forall. intros c [d [<- Hd]]%in_map_iff.
  apply std_char_ok. pose proof (encode_ascii bs Hb) as E1. pose proof (padding_ascii (length (b64encode bs))) as E2.
  assert (E : forallb (fun c => ord c <? 128) (b64encode bs ++ padding (length (b64encode bs))) = true)
    by (by rewrite forallb_app, E1, E2).
  rewrite forallb_forall in E. by apply E.
Qed.

(** ** The file *)
Section Container.
Context {cst ust : Type} `{!CryptoLib} `{!ZlibLib cst ust}.

Definition derive_key (passphrase : ustr) (salt : list byte) (n r p : Z) : option (list byte) :=
  match utf8_encode passphrase with
  | Some bs => scrypt bs salt n r p
  | None => None
  end.

Definition _check_value (key : list byte) : list byte := take 16 (hmac_sha256 key CHECK_LABEL).

(** [None] is [struct.error]. *)
Definition _aad (header_digest : list byte) (index : Z) (final : bool) : option (list byte) :=
  match pack 8 index with
  | Some i => Some (header_digest ++ i ++ [if final then 1 else 0])
  | None => None
  end.

(** ** Writer *)

Record writer : Type := Writer {
  w_key : list byte;                (** [_aes] *)
  w_digest : list byte;
  w_out : list byte;                (** written to [_out] so far *)
  w_file_hash : list byte;          (** the bytes [_file_hash] was given *)
  w_zip : cst;
  w_pending : list byte;
  w_index : Z;
  w_entry : option ustr;
  w_entry_hash : option (list byte);
  w_entry_size : Z;
  w_entries : list (option ustr * info);  (** [end] without an entry stores under [None] *)
  w_size : Z;
  w_closed : bool
}.

(** The header [__init__] writes: the caller's with the fields of the format. *)
Definition full_header (header : list (pystr * json)) (salt key : list byte) : list (pystr * json) :=
  dict_update header
    [(py "format", JInt FORMAT);
     (py "kdf", JObj (dict_update [(py "name", JStr (py "scrypt")); (py "salt", JStr (std_b64encode salt))] SCRYPT));
     (py "cipher", JStr (py "AES-256-GCM"));
     (py "compression", JStr (py "zlib"));
     (py "check", JStr (std_b64encode (_check_value key)))].

(** [Writer(out, passphrase, header)], with the salt drawn. *)
Definition writer_init (passphrase : ustr) (header : list (pystr * json)) (salt : list byte) : res write_error writer :=
  match derive_key passphrase salt (Z.shiftl 1 15) 8 1 with
  | None => Raise ScryptError
  | Some key =>
      match utf8_encode (json_dumps (full_header header salt key)) with
      | None => Raise UnicodeEncodeError
      | Some raw =>
          match pack 4 (blen raw) with
          | None => Raise StructError
          | Some size =>
              let prefix := MAGIC ++ size ++ raw in
              Ok (Writer key (sha256 prefix) prefix prefix compressobj [] 0 None None 0 [] (blen prefix) false)
          end
      end
  end.

Section Urandom.
(** The nonce drawn for the chunk of an index. *)
Variable urandom : Z -> list byte.

(** One sealed chunk; [None] is [struct.error]. *)
Definition frame (key digest : list byte) (index : Z) (last : bool) (data : list byte) : option (list byte) :=
  match _aad digest index last with
  | None => None
  | Some aad =>
      let ct := aes_encrypt key (urandom index) data aad in
      match pack 4 (blen ct) with
      | None => None
      | Some n => Some (n ++ [if last then 1 else 0] ++ urandom index ++ ct)
      end
  end.

(** [_emit] *)
Definition emit (w : writer) (data : list byte) : writer :=
  Writer (w_key w) (w_digest w) (w_out w ++ data) (w_file_hash w ++ data) (w_zip w) (w_pending w) (w_index w)
    (w_entry w) (w_entry_hash w) (w_entry_size w) (w_entries w) (w_size w) (w_closed w).

(** [_seal]; [fuel] bounds the number of chunks. *)
Fixpoint _seal (fuel : nat) (final : bool) (w : writer) : res write_error writer :=
  if (CHUNK <=? blen (w_pending w)) || final then
    match fuel with
    | O => Raise WriteOutOfFuel
    | S fuel' =>
        let taken := take (Z.to_nat CHUNK) (w_pending w) in
        let pending := drop (Z.to_nat CHUNK) (w_pending w) in
        let last := final && bool_decide (pending = []) in
        match frame (w_key w) (w_digest w) (w_index w) last taken with
        | None => Raise StructError
        | Some f =>
            let w1 := emit w f in
            let w2 := w1 {{ w_pending := pending; w_size := w_size w1 + blen f; w_index := w_index w1 + 1 }} in
            if last then Ok w2 else _seal fuel' final w2
        end
    end
  else Ok w.

Definition seal (final : bool) (w : writer) : res write_error writer := _seal (S (length (w_pending w))) final w.

(** [_plain] *)
Definition _plain (w : writer) (data : list byte) : res write_error writer :=
  let '(z, out) := compress (w_zip w) data in
  let w1 := w {{ w_zip := z; w_pending := w_pending w ++ out }} in
  if CHUNK <=? blen (w_pending w1) then seal false w1 else Ok w1.

Definition begin (w : writer) (name : ustr) : res write_error writer :=
  match w_entry w with
  | Some e => Raise (StillOpen e)
  | None =>
      if bool_decide (Some name ∈ map fst (w_entries w)) then Raise (DuplicateEntry name)
      else
        match utf8_encode name with
        | None => Raise UnicodeEncodeError
        | Some raw =>
            match pack 2 (blen raw) with
            | None => Raise StructError
            | Some n =>
                let! w1 := _plain w (lit "E" ++ n ++ raw) in
                Ok w1 {{ w_entry := Some name; w_entry_hash := Some []; w_entry_size := 0 }}
            end
        end
  end.

(** The slices of [range(0, len(view), CHUNK)]. *)
Fixpoint slices (fuel : nat) (data : list byte) : list (list byte) :=
  match fuel, data with
  | S fuel', _ :: _ => take (Z.to_nat CHUNK) data :: slices fuel' (drop (Z.to_nat CHUNK) data)
  | _, _ => []
  end.

Definition write_part (w : writer) (part : list byte) : res write_error writer :=
  match pack 4 (blen part) with
  | None => Raise StructError
  | Some n =>
      let! w1 := _plain w (lit "D" ++ n ++ part) in
      Ok w1 {{ w_entry_hash := option_map (fun h => h ++ part) (w_entry_hash w1);
               w_entry_size := w_entry_size w1 + blen part }}
  end.

Fixpoint write_parts (w : writer) (ps : list (list byte)) : res write_error writer :=
  match ps with
  | [] => Ok w
  | p :: ps' => let! w1 := write_part w p in write_parts w1 ps'
  end.

Definition write (w : writer) (data : list byte) : res write_error writer :=
  match w_entry w with
  | None => Raise NoOpenEntry
  | Some _ => write_parts w (slices (length data) data)
  end.

(** [end]: nothing checks that an entry is open; before the first one there
    is no hash to finish. *)
Definition end_ (w : writer) : res write_error (writer * info) :=
  let! w1 := _plain w (lit "Z") in
  match w_entry_hash w1 with
  | None => Raise WriteAttributeError
  | Some h =>
      let i := Info (w_entry_size w1) (hexdigest (sha256 h)) in
      Ok (w1 {{ w_entries := dict_set (w_entries w1) (w_entry w1) i; w_entry := None }}, i)
  end.

Definition add (w : writer) (name : ustr) (data : list byte) : res write_error (writer * info) :=
  let! w1 := begin w name in
  let! w2 := write w1 data in
  end_ w2.

(** [close]: the file's sha256. *)
Definition close (w : writer) : res write_error (writer * pystr) :=
  match w_entry w with
  | Some e => Raise (StillOpen e)
  | None =>
      let! w1 := _plain w (lit "X") in
      let! w2 := seal true w1 {{ w_pending := w_pending w1 ++ compress_flush (w_zip w1) }} in
      Ok (w2 {{ w_closed := true }}, hexdigest (sha256 (w_file_hash w2)))
  end.
(** The archive [write_backup] writes: entries of blocks in order, then
    [close].  The file, its sha256 and [w.entries]. *)
Fixpoint write_blocks (w : writer) (bs : list (list byte)) : res write_error writer :=
  match bs with
  | [] => Ok w
  | b :: bs' => let! w1 := write w b in write_blocks w1 bs'
  end.
Fixpoint write_entries (w : writer) (es : list (ustr * list (list byte))) : res write_error writer :=
  match es with
  | [] => Ok w
  | (name, bs) :: es' =>
      let! w1 := begin w name in
      let! w2 := write_blocks w1 bs in
      let! (w3, _) := end_ w2 in
      write_entries w3 es'
  end.
Definition write_archive (passphrase : ustr) (header : list (pystr * json)) (salt : list byte)
    (es : list (ustr * list (list byte))) : res write_error (list byte * pystr * list (option ustr * info)) :=
  let! w := writer_init passphrase header salt in
  let! w1 := write_entries w es in
  let! (w2, sha) := close w1 in
  Ok (w_out w2, sha, w_entries w2).
End Urandom.

(** ** Reader *)

(** [f.read(n)] *)
Definition fread (n : Z) (f : list byte) : list byte * list byte := (take (Z.to_nat n) f, drop (Z.to_nat n) f).

(** [header[k]] of an object; [None] is [KeyError]. *)
Definition item (o : list (pystr * json)) (k : pystr) : option json :=
  if has_key o k then Some (get o k) else None.

(** [read_header]: the header, the digest and what is left of the file. *)
Definition read_header (f : list byte) : res read_error (list (pystr * json) * list byte * list byte) :=
  let '(magic, f1) := fread 8 f in
  check bool_decide (magic = MAGIC) else BackupFormatError NotABackup in
  let '(size_raw, f2) := fread 4 f1 in
  check blen size_raw =? 4 else BackupFormatError FileCutShort in
  let size := unpack size_raw in
  check negb (MAX_HEADER <? size) else BackupFormatError HeaderTooLarge in
  let '(raw, f3) := fread size f2 in
  check blen raw =? size else BackupFormatError FileCutShort in
  match utf8_decode raw with
  | None => Raise (BackupFormatError HeaderDamaged)
  | Some text =>
      match json_loads text with
      | None => Raise (BackupFormatError HeaderDamaged)
      | Some (JObj header) =>
          check eq_int (get header (py "format")) FORMAT
            else BackupFormatError (UnsupportedFormat (get header (py "format"))) in
          Ok (header, sha256 (magic ++ size_raw ++ raw), f3)
      | Some _ => Raise AttributeError     (** [header.get] *)
      end
  end.

(** An exception inside [unlock]'s [try]: [KeyError], [ValueError] and
    [TypeError] are caught there, [OverflowError] is not. *)
Definition unlock_int (v : option json) : res read_error Z :=
  match v with
  | None => Raise (BackupFormatError HeaderDamaged)
  | Some v =>
      match to_int v with
      | Ok n => Ok n
      | Raise Json.OverflowError => Raise OverflowError
      | Raise _ => Raise (BackupFormatError HeaderDamaged)
      end
  end.

Definition unlock_b64 (v : option json) : res read_error (list byte) :=
  match v with
  | Some (JStr s) =>
      match std_b64decode s with
      | Some bs => Ok bs
      | None => Raise (BackupFormatError HeaderDamaged)
      end
  | _ => Raise (BackupFormatError HeaderDamaged)
  end.

(** [unlock] *)
Definition unlock (header : list (pystr * json)) (passphrase : ustr) : res read_error (list byte) :=
  match or_json (get header (py "kdf")) (JObj []) with
  | JObj kdf =>
      let! salt := unlock_b64 (item kdf (py "salt")) in
      let! n := unlock_int (item kdf (py "n")) in
      let! r := unlock_int (item kdf (py "r")) in
      let! p := unlock_int (item kdf (py "p")) in
      match derive_key passphrase salt n r p with
      | None => Raise (BackupFormatError HeaderDamaged)
      | Some key =>
          let! expected := unlock_b64 (item header (py "check")) in
          check bool_decide (_check_value key = expected) else WrongPassphrase in
          Ok key
      end
  | _ => Raise (BackupFormatError HeaderDamaged)
  end.

(** Where the generator of [_decrypted] is paused: before the next chunk,
    after the data of the final chunk, after [flush], finished. *)
Inductive gen : Type := NextChunk | AfterFinal | AfterTail | Finished.

(** The generator [_plain] with the file it reads. *)
Record stream : Type := Stream {
  s_rest : list byte;               (** what [_f] still holds *)
  s_key : list byte;
  s_digest : list byte;
  s_gen : gen;
  s_index : Z;
  s_unzip : ust
}.

Record reader : Type := Reader {
  r_plain : stream;
  r_buf : list byte;
  r_pos : Z;
  entry_hashes : list (ustr * info)
}.

(** [Reader(f, passphrase)] *)
Definition reader_init (f : list byte) (passphrase : ustr) : res read_error reader :=
  let! (header, digest, rest) := read_header f in
  let! key := unlock header passphrase in
  Ok (Reader (Stream rest key digest NextChunk 0 decompressobj) [] 0 []).

(** One chunk from the file: its plaintext and whether it is the last. *)
Definition open_chunk (key digest : list byte) (index : Z) (f : list byte)
    : res read_error (list byte * bool * list byte) :=
  let '(head, f1) := fread 5 f in
  check negb (blen head <? 5) else BackupFormatError FileCutShort in
  let length := unpack (take 4 head) in
  let final := unpack (drop 4 head) in
  check negb ((MAX_CHUNK <? length) || negb ((final =? 0) || (final =? 1))) else BackupFormatError FileDamaged in
  let '(nonce, f2) := fread 12 f1 in
  let '(ct, f3) := fread length f2 in
  check negb (negb (blen nonce =? 12) || negb (blen ct =? length)) else BackupFormatError FileCutShort in
  match _aad digest index (final =? 1) with
  | None => Raise ValueError
  | Some aad =>
      match aes_decrypt key nonce ct aad with
      | None => Raise (BackupFormatError (ChunkDamaged index))
      | Some plain => Ok (plain, final =? 1, f3)
      end
  end.

(** [next(self._plain)]: the data of the next [yield], [None] for
    [StopIteration]. *)
Fixpoint next (fuel : nat) (s : stream) : res read_error (option (list byte) * stream) :=
  match fuel with
  | O => Raise OutOfFuel
  | S fuel' =>
      match s_gen s with
      | NextChunk =>
          let! (plain, final, rest) := open_chunk (s_key s) (s_digest s) (s_index s) (s_rest s) in
          match decompress (s_unzip s) plain with
          | None => Raise ZlibError
          | Some (z, out) =>
              let s1 := Stream rest (s_key s) (s_digest s) (if final then AfterFinal else NextChunk) (s_index s + 1) z in
              match out with
              | [] => next fuel' s1
              | _ => Ok (Some out, s1)
              end
          end
      | AfterFinal =>
          match decompress_flush (s_unzip s) with
          | [] => next fuel' s {{ s_gen := AfterTail }}
          | tail => Ok (Some tail, s {{ s_gen := AfterTail }})
          end
      | AfterTail =>
          match s_rest s with
          | [] => next fuel' s {{ s_gen := Finished }}
          | _ => Raise (BackupFormatError DataAfterBackup)
          end
      | Finished => Ok (None, s)
      end
  end.

(** Every step but the last takes a chunk from the file or leaves a state. *)
Definition next_fuel (s : stream) : nat := length (s_rest s) + 4.

(** [_take] *)
Fixpoint _take_loop (fuel : nat) (r : reader) (n : Z) : res read_error (list byte * reader) :=
  if blen (r_buf r) - r_pos r <? n then
    match fuel with
    | O => Raise OutOfFuel
    | S fuel' =>
        let! (more, s1) := next (next_fuel (r_plain r)) (r_plain r) in
        match more with
        | None => Raise (BackupFormatError EndsInEntry)
        | Some more =>
            let '(buf, pos) := if r_pos r =? 0 then (r_buf r, r_pos r)
                               else (drop (Z.to_nat (r_pos r)) (r_buf r), 0) in
            _take_loop fuel' (Reader s1 (buf ++ more) pos (entry_hashes r)) n
        end
    end
  else Ok (take (Z.to_nat n) (drop (Z.to_nat (r_pos r)) (r_buf r)),
           Reader (r_plain r) (r_buf r) (r_pos r + n) (entry_hashes r)).

Definition _take (r : reader) (n : Z) : res read_error (list byte * reader) :=
  _take_loop (next_fuel (r_plain r)) r n.

(** The generator of [_blocks]: the digest's input and the size so far. *)
Record blocks_state : Type := BlocksState { b_hash : list byte; b_size : Z }.

(** One [next] of [_blocks(name)]. *)
Definition next_block (name : ustr) (b : blocks_state) (r : reader)
    : res read_error (option (list byte) * blocks_state * reader) :=
  let! (tag, r1) := _take r 1 in
  if bool_decide (tag = lit "D") then
    let! (raw, r2) := _take r1 4 in
    let n := unpack raw in
    check negb (CHUNK <? n) else BackupFormatError ArchiveDamaged in
    let! (data, r3) := _take r2 n in
    Ok (Some data, BlocksState (b_hash b ++ data) (b_size b + blen data), r3)
  else if bool_decide (tag = lit "Z") then
    Ok (None, b, Reader (r_plain r1) (r_buf r1) (r_pos r1)
                   (dict_set (entry_hashes r1) name (Info (b_size b) (hexdigest (sha256 (b_hash b))))))
  else Raise (BackupFormatError ArchiveDamaged).

(** The blocks of an entry, read to its end; what a caller leaves unread
    [entries] reads itself. *)
Fixpoint blocks (fuel : nat) (name : ustr) (b : blocks_state) (r : reader) : res read_error (list (list byte) * reader) :=
  match fuel with
  | O => Raise OutOfFuel
  | S fuel' =>
      let! (data, b1, r1) := next_block name b r in
      match data with
      | None => Ok ([], r1)
      | Some d => let! (ds, r2) := blocks fuel' name b1 r1 in Ok (d :: ds, r2)
      end
  end.

(** One [next] of [entries()]: the name of the next entry, [None] at the end. *)
Definition next_entry (r : reader) : res read_error (option ustr * reader) :=
  let! (tag, r1) := _take r 1 in
  if bool_decide (tag = lit "X") then
    check negb (r_pos r1 <? blen (r_buf r1)) else BackupFormatError DataAfterArchive in
    let! (more, s1) := next (next_fuel (r_plain r1)) (r_plain r1) in
    match more with
    | Some _ => Raise (BackupFormatError DataAfterArchive)
    | None => Ok (None, Reader s1 (r_buf r1) (r_pos r1) (entry_hashes r1))
    end
  else if bool_decide (tag = lit "E") then
    let! (raw, r2) := _take r1 2 in
    let! (name, r3) := _take r2 (unpack raw) in
    match utf8_decode name with
    | None => Raise ValueError      (** [UnicodeDecodeError] *)
    | Some name => Ok (Some name, r3)
    end
  else Raise (BackupFormatError ArchiveDamaged).

(** All that the generator has still to yield, and the error it ends with. *)
Fixpoint drain (fuel : nat) (s : stream) : list byte * option read_error :=
  match fuel with
  | O => ([], Some OutOfFuel)
  | S fuel' =>
      match next (next_fuel s) s with
      | Raise e => ([], Some e)
      | Ok (None, _) => ([], None)
      | Ok (Some d, s1) => let '(ds, e) := drain fuel' s1 in (d ++ ds, e)
      end
  end.
Definition drained (s : stream) : list byte * option read_error := drain (next_fuel s) s.

(** The plaintext not read yet; one more than its length is fuel for the
    loops, which take a byte or more each time. *)
Definition unread (r : reader) : list byte := drop (Z.to_nat (r_pos r)) (r_buf r) ++ fst (drained (r_plain r)).
Definition loop_fuel (r : reader) : nat := S (length (unread r)).

(** [for name, blocks in reader.entries(): for data in blocks: ...] *)
Fixpoint entries (fuel : nat) (r : reader) : res read_error (list (ustr * list (list byte)) * reader) :=
  match fuel with
  | O => Raise OutOfFuel
  | S fuel' =>
      let! (name, r1) := next_entry r in
      match name with
      | None => Ok ([], r1)
      | Some name =>
          let! (ds, r2) := blocks (loop_fuel r1) name (BlocksState [] 0) r1 in
          let! (es, r3) := entries fuel' r2 in
          Ok ((name, ds) :: es, r3)
      end
  end.

Definition read_all (r : reader) : res read_error (list (ustr * list (list byte)) * reader) := entries (loop_fuel r) r.

(** [read_entry(blocks, limit)] *)
Fixpoint read_entry_loop (fuel : nat) (limit : Z) (name : ustr) (b : blocks_state) (out : list byte) (r : reader)
    : res read_error (list byte * reader) :=
  match fuel with
  | O => Raise OutOfFuel
  | S fuel' =>
      let! (data, b1, r1) := next_block name b r in
      match data with
      | None => Ok (out, r1)
      | Some d =>
          check negb (limit <? blen (out ++ d)) else BackupFormatError EntryTooLarge in
          read_entry_loop fuel' limit name b1 (out ++ d) r1
      end
  end.

Definition read_entry (limit : Z) (name : ustr) (r : reader) : res read_error (list byte * reader) :=
  read_entry_loop (loop_fuel r) limit name (BlocksState [] 0) [] r.

(** The default limit. *)
Definition ENTRY_LIMIT : Z := 64 * 1024 * 1024.

(** ** The backups that use it *)

(** [json.loads(bs.decode("utf-8"))] *)
Definition loads_bytes (bs : list byte) : res read_error json :=
  match utf8_decode bs with
  | None => Raise ValueError
  | Some text => match json_loads text with Some v => Ok v | None => Raise ValueError end
  end.

(** [f"db/{t}.copy"] *)
Definition table_entry (t : pystr) : pystr := py "db/" ++ t ++ py ".copy".

(** [json.dumps(o).encode("utf-8")] *)
Definition dumps_bytes (ascii : bool) (o : list (pystr * json)) : res write_error (list byte) :=
  match utf8_encode (json_text ascii o) with Some bs => Ok bs | None => Raise UnicodeEncodeError end.

(** [w.entries] as JSON: the keys are names, each value a size and a digest. *)
Definition info_json (i : info) : json := JObj [(py "size", JInt (i_size i)); (py "sha256", JStr (i_sha256 i))].
Definition entries_json (ents : list (option ustr * info)) : list (pystr * json) :=
  map (fun e => (map chr (match fst e with Some n => n | None => lit "null" end), info_json (snd e))) ents.

(** The entries [write_backup] adds before the summary, from what the database
    and the files gave: the manifest, the key, the tables in order, the files
    that could be read. *)
Definition backup_entries (manifest secret : list byte) (tables : list (pystr * list (list byte)))
    (files : list (pystr * list byte)) : list (pystr * list (list byte)) :=
  (py "manifest.json", [manifest]) :: (py "secret.key", [secret])
  :: map (fun t => (table_entry (fst t), snd t)) tables ++ map (fun f => (fst f, [snd f])) files.
Definition named (es : list (pystr * list (list byte))) : list (ustr * list (list byte)) :=
  map (fun e => (map ord (fst e), snd e)) es.

(** The archive of [write_backup] and its sha256. *)
Definition write_backup (urandom : Z -> list byte) (passphrase : ustr) (header : list (pystr * json)) (salt : list byte)
    (manifest : list (pystr * json)) (secret : list byte) (tables : list (pystr * list (list byte)))
    (files : list (pystr * list byte)) : res write_error (list byte * pystr) :=
  let! w := writer_init passphrase header salt in
  let! m := dumps_bytes false manifest in
  let! w1 := write_entries urandom w (named (backup_entries m secret tables files)) in
  let! sum := dumps_bytes true [(py "entries", JObj (entries_json (w_entries w1)))] in
  let! w2 := write_entries urandom w1 [(lit "summary.json", [sum])] in
  let! (w3, sha) := close urandom w2 in
  Ok (w_out w3, sha).

(** [open_manifest]: only the first entry is read. *)
Definition open_manifest (f : list byte) (passphrase : ustr) : res read_error json :=
  let! r := reader_init f passphrase in
  let! (name, r1) := next_entry r in
  match name with
  | None => Raise (BackupFormatError BackupEmpty)
  | Some name =>
      check bool_decide (name = lit "manifest.json") else BackupFormatError NoManifestFirst in
      let! (bs, _) := read_entry ENTRY_LIMIT name r1 in
      loads_bytes bs
  end.

(** The loop of [verify_file]: the manifest, the summary, [len(seen)];
    [JNull] is [None]. *)
Fixpoint verify_entries (fuel : nat) (r : reader) (manifest summary : json) (seen : Z)
    : res read_error (json * json * Z * reader) :=
  match fuel with
  | O => Raise OutOfFuel
  | S fuel' =>
      let! (name, r1) := next_entry r in
      match name with
      | None => Ok (manifest, summary, seen, r1)
      | Some name =>
          if bool_decide (name = lit "manifest.json") then
            let! (bs, r2) := read_entry ENTRY_LIMIT name r1 in
            let! v := loads_bytes bs in
            verify_entries fuel' r2 v summary (seen + 1)
          else if bool_decide (name = lit "summary.json") then
            let! (bs, r2) := read_entry ENTRY_LIMIT name r1 in
            let! v := loads_bytes bs in
            verify_entries fuel' r2 manifest v (seen + 1)
          else
            let! (_, r2) := blocks (loop_fuel r1) name (BlocksState [] 0) r1 in
            verify_entries fuel' r2 manifest summary (seen + 1)
      end
  end.

(** [got == info], where [got] is [None] for an entry that was not read. *)
Definition info_matches (got : option info) (v : json) : bool :=
  match got with
  | None => is_null v
  | Some i =>
      match v with
      | JObj o => Nat.eqb (length o) 2 && has_key o (py "size") && has_key o (py "sha256")
                  && eq_int (get o (py "size")) (i_size i) && eq_str (get o (py "sha256")) (i_sha256 i)
      | _ => false
      end
  end.

(** [for name, info in expected.items(): ...] *)
Fixpoint check_infos (hashes : list (ustr * info)) (expected : list (pystr * json)) : res read_error unit :=
  match expected with
  | [] => Ok tt
  | (name, v) :: rest =>
      check info_matches (dict_get hashes (map ord name)) v else BackupFormatError (ChecksumMismatch name) in
      check_infos hashes rest
  end.

(** The names a [for] over [manifest.get("tables", {})] yields. *)
Definition table_names (v : json) : res read_error (list pystr) :=
  match v with
  | JObj o => Ok (map fst o)
  | JList l => Ok (map (fun x => match x with JStr s => s | _ => py_format x end) l)
  | JStr s => Ok (map (fun c => [c]) s)
  | _ => Raise TypeError
  end.

(** [verify_file]: the number of entries and the manifest. *)
Definition verify_file (f : list byte) (passphrase : ustr) : res read_error (Z * json) :=
  let! r := reader_init f passphrase in
  let! (manifest, summary, seen, r1) := verify_entries (loop_fuel r) r JNull JNull 0 in
  check negb (is_null manifest || is_null summary) else BackupFormatError NoManifestOrSummary in
  match summary with
  | JObj s =>
      match or_json (get s (py "entries")) (JObj []) with
      | JObj expected =>
          let! _ := check_infos (entry_hashes r1) expected in
          match manifest with
          | JObj m =>
              let! names := if has_key m (py "tables") then table_names (get m (py "tables")) else Ok [] in
              let missing := List.filter (fun e => negb (has_key expected e)) (map table_entry names) in
              check bool_decide (missing = []) else BackupFormatError (TablesMissing (take 5 missing)) in
              Ok (seen, manifest)
          | _ => Raise AttributeError      (** [manifest.get] *)
          end
      | _ => Raise AttributeError          (** [expected.items] *)
      end
  | _ => Raise AttributeError              (** [summary.get] *)
  end.
End Container.
