(* ===== verification/ContainerProofs.v ===== *)
(** * What the backup file guarantees

    The buffered reader refines a parser of the plaintext; reading and writing
    end; what was written reads back; nothing else reads to its end; what
    [verify_file] accepts is whole, and a backup just written is accepted.
    The library and the backup of [Demo] are the concrete instances. *)
From S2P Require Import Prelude PyStr Json Base64 Utf8 Container.

Section Container.
Context {cst ust : Type} `{!CryptoLib} `{!ZlibLib cst ust}.
#[local] Notation stream := (@Container.stream ust).
#[local] Notation reader := (@Container.reader ust).
#[local] Notation writer := (@Container.writer cst).
Implicit Types w : writer.

(** ** The plaintext as records

    What [entries] reads, told on the whole plaintext and the error, if any,
    that follows it: the specification the buffered reader implements. *)
Definition text : Type := list byte * option read_error.

Definition text_take (n : Z) (t : text) : res read_error (list byte * text) :=
  if blen (fst t) <? n
  then Raise (match snd t with Some e => e | None => BackupFormatError EndsInEntry end)
  else Ok (take (Z.to_nat n) (fst t), (drop (Z.to_nat n) (fst t), snd t)).

Definition text_block (b : blocks_state) (t : text) : res read_error (option (list byte) * blocks_state * text) :=
  let! (tag, t1) := text_take 1 t in
  if bool_decide (tag = lit "D") then
    let! (raw, t2) := text_take 4 t1 in
    check negb (CHUNK <? unpack raw) else BackupFormatError ArchiveDamaged in
    let! (data, t3) := text_take (unpack raw) t2 in
    Ok (Some data, BlocksState (b_hash b ++ data) (b_size b + blen data), t3)
  else if bool_decide (tag = lit "Z") then Ok (None, b, t1)
  else Raise (BackupFormatError ArchiveDamaged).

Fixpoint text_blocks (fuel : nat) (b : blocks_state) (t : text) : res read_error (list (list byte) * info * text) :=
  match fuel with
  | O => Raise OutOfFuel
  | S fuel' =>
      let! (data, b1, t1) := text_block b t in
      match data with
      | None => Ok ([], Info (b_size b1) (hexdigest (sha256 (b_hash b1))), t1)
      | Some d => let! (ds, i, t2) := text_blocks fuel' b1 t1 in Ok (d :: ds, i, t2)
      end
  end.

Definition text_entry (t : text) : res read_error (option ustr * text) :=
  let! (tag, t1) := text_take 1 t in
  if bool_decide (tag = lit "X") then
    match fst t1, snd t1 with
    | _ :: _, _ => Raise (BackupFormatError DataAfterArchive)
    | [], Some e => Raise e
    | [], None => Ok (None, t1)
    end
  else if bool_decide (tag = lit "E") then
    let! (raw, t2) := text_take 2 t1 in
    let! (name, t3) := text_take (unpack raw) t2 in
    match utf8_decode name with
    | None => Raise ValueError
    | Some name => Ok (Some name, t3)
    end
  else Raise (BackupFormatError ArchiveDamaged).

Fixpoint text_entries (fuel : nat) (t : text) (hashes : list (ustr * info))
    : res read_error (list (ustr * list (list byte)) * list (ustr * info)) :=
  match fuel with
  | O => Raise OutOfFuel
  | S fuel' =>
      let! (name, t1) := text_entry t in
      match name with
      | None => Ok ([], hashes)
      | Some name =>
          let! (ds, i, t2) := text_blocks (S (length (fst t1))) (BlocksState [] 0) t1 in
          let! (es, hs) := text_entries fuel' t2 (dict_set hashes name i) in
          Ok ((name, ds) :: es, hs)
      end
  end.

Definition parse (t : text) : res read_error (list (ustr * list (list byte)) * list (ustr * info)) :=
  text_entries (S (length (fst t))) t [].

(** ** The generator *)

(** Steps left before [StopIteration]. *)
Definition steps (s : stream) : nat :=
  match s_gen s with
  | NextChunk => length (s_rest s) + 4
  | AfterFinal => 3
  | AfterTail => 2
  | Finished => 1
  end.

Lemma fread_app n f a b : fread n f = (a, b) -> f = a ++ b.
Proof. unfold fread. intros [= <- <-]. by rewrite take_drop. Qed.

Lemma blen_nat {A} (l : list A) (n : nat) : blen l = Z.of_nat n <-> length l = n.
Proof. unfold blen. lia. Qed.

Lemma blen_nonneg {A} (l : list A) : 0 <= blen l.
Proof. unfold blen. lia. Qed.

Lemma open_chunk_inv key digest i f plain final rest :
  open_chunk key digest i f = Ok (plain, final, rest) ->
  exists head nonce ct aad, f = head ++ nonce ++ ct ++ rest /\ length head = 5%nat /\
    unpack (take 4 head) = blen ct /\ unpack (drop 4 head) = (if final then 1 else 0) /\
    length nonce = 12%nat /\ _aad digest i final = Some aad /\ aes_decrypt key nonce ct aad = Some plain.
Proof.
  unfold open_chunk. destruct (fread 5 f) as [head f1] eqn:E1.
  destruct (negb (blen head <? 5)) eqn:B1; [|done].
  destruct (negb ((MAX_CHUNK <? _) || _)) eqn:B2; [|done]. destruct (fread 12 f1) as [nonce f2] eqn:E2.
  destruct (fread _ f2) as [ct f3] eqn:E3. 
  destruct (negb (negb (blen nonce =? _) || _)) eqn:B3; [|done].
  destruct (_aad _ _ _) as [aad|] eqn:Ea; [|done]. destruct (aes_decrypt _ _ _ _) as [d|] eqn:Ed; [|done].
  intros [= <- <- <-]. exists head, nonce, ct, aad.
  assert (L5 : (length head <= 5)%nat) by (unfold fread in E1; simplify_eq; rewrite length_take; lia).
  apply fread_app in E1 as ->, E2 as ->, E3 as ->.
  apply negb_true_iff, orb_false_iff in B2 as [_ B2], B3 as [B3 B3'].
  apply negb_false_iff, orb_true_iff in B2. unfold blen in *. bool_prop.
  repeat split; try done; try lia.
  destruct (Z.eqb_spec (unpack (drop 4 head)) 1); [done|]. destruct B2; bool_prop; lia.
Qed.

Lemma open_chunk_fuel key digest i f : open_chunk key digest i f <> Raise OutOfFuel.
Proof. unfold open_chunk. repeat case_match; congruence. Qed.

Lemma next_spec fuel s : (steps s <= fuel)%nat ->
  match next fuel s with
  | Raise e => e <> OutOfFuel
  | Ok (Some d, s1) => d <> [] /\ (steps s1 < steps s)%nat
  | Ok (None, s1) => s_gen s1 = Finished
  end.
Proof.
  revert s. induction fuel as [|fuel IH]; intros [f k dg g i z] Hf;
    unfold steps in *; [destruct g; cbn [s_gen s_rest] in Hf; lia|].
  cbn [next s_gen s_key s_digest s_index s_unzip s_rest] in *. destruct g.
  - pose proof (open_chunk_fuel k dg i f) as Hfuel.
    destruct (open_chunk k dg i f) as [[[plain final] rest]|e] eqn:E; cbn [res_bind]; [|congruence].
    apply open_chunk_inv in E as (head & nonce & ct & aad & -> & L1 & _ & _ & L2 & _).
    rewrite !length_app in *. destruct (decompress z plain) as [[z1 out]|]; [|done].
    destruct out as [|b out].
    + match goal with |- context [next fuel ?s] => specialize (IH s) end.
      destruct final; cbn [s_gen s_rest] in *; specialize (IH ltac:(lia));
        destruct (next fuel _) as [[[d|] s1]|e]; try done; destruct IH; (split; [done|lia]).
    + split; [done|]. destruct final; cbn [s_gen s_rest]; lia.
  - destruct (decompress_flush z) as [|b tail].
    + match goal with |- context [next fuel ?s] => specialize (IH s) end. cbn [s_gen s_rest] in *.
      specialize (IH ltac:(simpl; lia)). 
      destruct (next fuel _) as [[[d|] s1]|e]; try done. simpl in IH. destruct IH; (split; [done|lia]).
    + split; [done|]. simpl; lia.
  - destruct f; [|congruence].
    match goal with |- context [next fuel ?s] => specialize (IH s) end.
    specialize (IH ltac:(simpl; lia)).
    destruct (next fuel _) as [[[d|] s1]|e]; try done. simpl in IH. destruct IH; (split; [done|lia]).
  - done.
Qed.

Lemma steps_pos s : (1 <= steps s)%nat.
Proof. unfold steps. destruct (s_gen s); lia. Qed.

Lemma steps_fuel s : (steps s <= next_fuel s)%nat.
Proof. unfold steps, next_fuel. destruct (s_gen s); lia. Qed.

Lemma drain_fuel n m s : (steps s <= n)%nat -> (steps s <= m)%nat -> drain n s = drain m s.
Proof.
  revert m s. induction n as [|n IH]; intros m s Hn Hm; [pose proof (steps_pos s); lia|].
  destruct m as [|m]; [pose proof (steps_pos s); lia|]. cbn [drain].
  pose proof (next_spec (next_fuel s) s (steps_fuel s)) as Hs.
  destruct (next _ s) as [[[d|] s1]|e]; try done. destruct Hs as [_ Hs]. by rewrite (IH m s1) by lia.
Qed.

(** What is left, one [yield] at a time. *)
Lemma drained_step s :
  drained s = match next (next_fuel s) s with
              | Raise e => ([], Some e)
              | Ok (None, _) => ([], None)
              | Ok (Some d, s1) => (d ++ fst (drained s1), snd (drained s1))
              end.
Proof.
  unfold drained at 1. pose proof (steps_fuel s) as Hf.
  destruct (next_fuel s) as [|n] eqn:En; [pose proof (steps_pos s); lia|].
  cbn [drain]. rewrite En. rewrite <- En in *.
  pose proof (next_spec (next_fuel s) s (steps_fuel s)) as Hs.
  destruct (next _ s) as [[[d|] s1]|e]; try done. destruct Hs as [_ Hs]. unfold drained.
  rewrite (drain_fuel n (next_fuel s1) s1); [by destruct (drain _ s1)| |apply steps_fuel]. lia.
Qed.

Lemma finished_drained s : s_gen s = Finished -> drained s = ([], None).
Proof. intros Hg. rewrite drained_step. unfold next_fuel. rewrite Nat.add_comm. simpl. by rewrite Hg. Qed.

Lemma drained_no_fuel s : snd (drained s) <> Some OutOfFuel.
Proof.
  remember (steps s) as n eqn:En. revert s En. induction n as [n IH] using lt_wf_ind. intros s ->.
  rewrite drained_step. pose proof (next_spec (next_fuel s) s (steps_fuel s)) as Hs.
  destruct (next _ s) as [[[d|] s1]|e]; simpl; try congruence. destruct Hs as [_ Hs]. by apply (IH (steps s1)).
Qed.

(** ** The buffer *)

Context `{!ZlibLaws cst ust}.

Lemma next_bytes fuel s d s1 : next fuel s = Ok (Some d, s1) -> Forall is_byte d.
Proof.
  revert s. induction fuel as [|fuel IH]; intros s E; [done|]. cbn [next] in E.
  destruct (s_gen s).
  - destruct (open_chunk _ _ _ _) as [[[plain final] rest]|]; [|done]. cbn [res_bind] in E.
    destruct (decompress _ plain) as [[z out]|] eqn:Ed; [|done]. apply decompress_bytes in Ed.
    destruct out; [by eapply IH|]. by simplify_eq.
  - pose proof (decompress_flush_bytes (s_unzip s)). destruct (decompress_flush _); [by eapply IH|]. by simplify_eq.
  - destruct (s_rest s); [by eapply IH|done].
  - done.
Qed.

Lemma drained_bytes s : Forall is_byte (fst (drained s)).
Proof.
  remember (steps s) as n eqn:En. revert s En. induction n as [n IH] using lt_wf_ind. intros s ->.
  rewrite drained_step. pose proof (next_spec (next_fuel s) s (steps_fuel s)) as Hs.
  destruct (next _ s) as [[[d|] s1]|e] eqn:E; simpl; try constructor. destruct Hs as [_ Hs].
  apply list.Forall_app. split; [by eapply next_bytes|]. by apply (IH (steps s1)).
Qed.

Definition ending (r : reader) : option read_error := snd (drained (r_plain r)).
Definition view (r : reader) : text := (unread r, ending r).
(** The position is inside the buffer. *)
Definition buffer_ok (r : reader) : Prop := 0 <= r_pos r <= blen (r_buf r).

(** The abstract reader [(t, hs)] is what the reader [r] shows. *)
Definition shows (r : reader) (t : text) (hs : list (ustr * info)) : Prop :=
  buffer_ok r /\ view r = t /\ Forall is_byte (fst t) /\ entry_hashes r = hs.

(** Two results agree: the same exception, or related values. *)
Definition agree {E A B} (R : A -> B -> Prop) (m : res E A) (m' : res E B) : Prop :=
  match m, m' with
  | Ok a, Ok b => R a b
  | Raise e, Raise e' => e = e'
  | _, _ => False
  end.

Lemma agree_bind {E A B A' B'} (R : A -> B -> Prop) (R' : A' -> B' -> Prop) (m : res E A) (m' : res E B) k k' :
  agree R m m' -> (forall a b, R a b -> agree R' (k a) (k' b)) -> agree R' (res_bind m k) (res_bind m' k').
Proof. destruct m, m'; simpl; try done; intros Ha Hk; auto. Qed.

Lemma unread_length r : buffer_ok r ->
  blen (unread r) = blen (r_buf r) - r_pos r + blen (fst (drained (r_plain r))).
Proof. unfold buffer_ok, unread, blen. intros. rewrite length_app, length_drop. lia. Qed.

(** The bytes are in the buffer. *)
Lemma take_buffered fuel r n : buffer_ok r -> 0 <= n -> n <= blen (r_buf r) - r_pos r ->
  agree (fun x y => fst x = fst y /\ buffer_ok (snd x) /\ view (snd x) = snd y /\ entry_hashes (snd x) = entry_hashes r)
    (_take_loop fuel r n) (text_take n (view r)).
Proof.
  intros Hb Hn Hge.
  replace (_take_loop fuel r n) with
    (@Ok read_error _ (take (Z.to_nat n) (drop (Z.to_nat (r_pos r)) (r_buf r)),
      Reader (r_plain r) (r_buf r) (r_pos r + n) (entry_hashes r)))
    by (destruct fuel; cbn [_take_loop]; by rewrite (proj2 (Z.ltb_ge _ _) Hge)).
  unfold text_take, view. cbn [fst snd]. pose proof (blen_nonneg (fst (drained (r_plain r)))).
  rewrite (proj2 (Z.ltb_ge _ _)) by (rewrite unread_length by done; lia).
  unfold unread, blen, buffer_ok in *. cbn [agree fst snd].
  rewrite take_app_le, drop_app_le by (rewrite length_drop; lia). split; [done|].
  split; [unfold buffer_ok, blen in *; simpl; lia|]. split; [|done].
  unfold view, unread, ending. simpl. rewrite drop_drop. do 4 f_equal. lia.
Qed.

Lemma take_loop_spec fuel r n : (steps (r_plain r) <= fuel)%nat -> buffer_ok r -> 0 <= n ->
  agree (fun x y => fst x = fst y /\ buffer_ok (snd x) /\ view (snd x) = snd y /\ entry_hashes (snd x) = entry_hashes r)
    (_take_loop fuel r n) (text_take n (view r)).
Proof.
  revert r. induction fuel as [|fuel IH]; intros r Hf Hb Hn; [pose proof (steps_pos (r_plain r)); lia|].
  destruct (Z.ltb_spec (blen (r_buf r) - r_pos r) n) as [Hlt|Hge]; [|by apply take_buffered].
  cbn [_take_loop]. rewrite (proj2 (Z.ltb_lt _ _) Hlt).
  pose proof (next_spec (next_fuel (r_plain r)) (r_plain r) (steps_fuel _)) as Hs.
  unfold text_take, view. cbn [fst snd]. unfold ending. rewrite unread_length by done.
  rewrite drained_step.
  destruct (next _ (r_plain r)) as [[[d|] s1]|e] eqn:En; cbn [res_bind fst snd]; cycle 1.
  1, 2: unfold blen in *; simpl; rewrite (proj2 (Z.ltb_lt _ _)) by lia; done.
  destruct Hs as [_ Hs].
  assert (exists buf, (if r_pos r =? 0 then (r_buf r, r_pos r) else (drop (Z.to_nat (r_pos r)) (r_buf r), 0)) = (buf, 0)
          /\ buf = drop (Z.to_nat (r_pos r)) (r_buf r)) as (buf & -> & Ebuf).
  { destruct (Z.eqb_spec (r_pos r) 0) as [E|]; [|eauto]. rewrite E. eauto. }
  set (r2 := Reader s1 (buf ++ d) 0 (entry_hashes r)).
  assert (Ev : view r2 = (unread r, snd (drained s1))).
  { unfold view, unread, ending. simpl. f_equal. rewrite drop_0, <- app_assoc, Ebuf.
    rewrite (drained_step (r_plain r)), En. done. }
  assert (Hb2 : buffer_ok r2) by (unfold buffer_ok, blen; simpl; lia).
  specialize (IH r2 ltac:(simpl; lia) Hb2 Hn). rewrite Ev in IH. unfold text_take in IH. cbn [fst snd] in IH.
  rewrite unread_length in IH by done. rewrite drained_step, En in IH. apply IH.
Qed.

Lemma text_take_bytes n t a t1 :
  text_take n t = Ok (a, t1) -> Forall is_byte (fst t) -> Forall is_byte a /\ Forall is_byte (fst t1).
Proof.
  unfold text_take. intros E Hb. destruct (blen _ <? n); simplify_eq/=. split; [by apply Forall_take|by apply Forall_drop].
Qed.

Lemma take_spec r t hs n : shows r t hs -> 0 <= n ->
  agree (fun x y => fst x = fst y /\ Forall is_byte (fst y) /\ shows (snd x) (snd y) hs) (_take r n) (text_take n t).
Proof.
  intros (Hb & <- & Hbytes & <-) Hn.
  pose proof (take_loop_spec (next_fuel (r_plain r)) r n (steps_fuel _) Hb Hn) as Ht. fold (_take r n) in Ht.
  destruct (_take r n) as [[a r1]|], (text_take n (view r)) as [[a' t1]|] eqn:E; try done.
  apply text_take_bytes in E as [E1 E2]; [|done]. destruct Ht as (E & Hb1 & Hv & Hh).
  simpl in *. subst. split; [done|]. split; [done|]. by split; [|split; [|split]].
Qed.

Lemma unpack_nonneg bs : Forall is_byte bs -> 0 <= unpack bs.
Proof. apply be_unpack. Qed.

(** A tag, [tags], decided the same way on both sides. *)
Lemma next_block_spec name b r t hs : shows r t hs ->
  agree (fun x y => fst x = fst y /\
           shows (snd x) (snd y)
             (match fst (fst y) with
              | None => dict_set hs name (Info (b_size (snd (fst y))) (hexdigest (sha256 (b_hash (snd (fst y))))))
              | Some _ => hs
              end))
    (next_block name b r) (text_block b t).
Proof.
  intros Hr. unfold next_block, text_block. eapply agree_bind; [by apply take_spec|].
  intros [tag r1] [tag' t1] (E & _ & H1). simpl in E, H1. subst tag'.
  destruct (bool_decide (tag = lit "D")).
  - eapply agree_bind; [by apply take_spec|]. intros [raw r2] [raw' t2] (E & Hraw & H2). simpl in E, H2, Hraw. subst raw'.
    destruct (negb (CHUNK <? unpack raw)); [|done].
    eapply agree_bind; [apply take_spec; [done|by apply unpack_nonneg]|].
    intros [d r3] [d' t3] (E & _ & H3). simpl in E, H3. subst d'. by split.
  - destruct (bool_decide (tag = lit "Z")); [|done]. split; [done|].
    destruct H1 as (B & V & F & <-). by split; [|split; [|split]].
Qed.

Lemma blocks_spec fuel name b r t hs : shows r t hs ->
  agree (fun x y => fst x = fst (fst y) /\ shows (snd x) (snd y) (dict_set hs name (snd (fst y))))
    (blocks fuel name b r) (text_blocks fuel b t).
Proof.
  revert b r t. induction fuel as [|fuel IH]; intros b r t Hr; [done|]. cbn [blocks text_blocks].
  eapply agree_bind; [by eapply next_block_spec|]. intros [[[d|] b1] r1] [[d' b1'] t1] [E H1]; simpl in E, H1; simplify_eq.
  - eapply agree_bind; [by apply IH|]. intros [ds r2] [[ds' i] t2] [E H2]. simpl in *. subst. by split.
  - by split.
Qed.

Lemma next_entry_spec r t hs : shows r t hs ->
  agree (fun x y => fst x = fst y /\ shows (snd x) (snd y) hs) (next_entry r) (text_entry t).
Proof.
  intros Hr. unfold next_entry, text_entry. eapply agree_bind; [by apply take_spec|].
  intros [tag r1] [tag' t1] (E & _ & H1). simpl in E, H1. subst tag'.
  destruct (bool_decide (tag = lit "X")).
  - destruct H1 as (B & <- & F & H1). unfold view in *. cbn [fst snd] in *. unfold ending, unread in *.
    pose proof (next_spec (next_fuel (r_plain r1)) (r_plain r1) (steps_fuel _)) as Hs.
    rewrite drained_step in *.
    destruct (Z.ltb_spec (r_pos r1) (blen (r_buf r1))) as [Hlt|Hge]; simpl negb; cbv iota.
    + destruct (drop (Z.to_nat (r_pos r1)) (r_buf r1)) eqn:Ed; [|done].
      apply (f_equal length) in Ed. rewrite length_drop in Ed. unfold blen, buffer_ok in *. simpl in Ed. lia.
    + rewrite (drop_ge (r_buf r1)) in * by (unfold blen, buffer_ok in *; lia).
      destruct (next _ (r_plain r1)) as [[[d|] s1]|e] eqn:En; cbn [res_bind fst snd app] in *; [|  |done].
      * destruct Hs as [Hs _]. by destruct d.
      * split; [done|]. split; [done|]. split; [|done]. unfold view, unread, ending. simpl.
        rewrite (drop_ge (r_buf r1)) by (unfold blen, buffer_ok in *; lia).
        by rewrite finished_drained.
  - destruct (bool_decide (tag = lit "E")); [|done].
    eapply agree_bind; [by apply take_spec|]. intros [raw r2] [raw' t2] (E & Hraw & H2). simpl in E, H2, Hraw. subst raw'.
    eapply agree_bind; [apply take_spec; [done|by apply unpack_nonneg]|].
    intros [d r3] [d' t3] (E & _ & H3). simpl in E, H3. subst d'. by destruct (utf8_decode d).
Qed.

Lemma shows_fuel r t hs : shows r t hs -> loop_fuel r = S (length (fst t)).
Proof. by intros (_ & <- & _). Qed.

Lemma entries_spec fuel r t hs : shows r t hs ->
  agree (fun x y => fst x = fst y /\ entry_hashes (snd x) = snd y) (entries fuel r) (text_entries fuel t hs).
Proof.
  revert r t hs. induction fuel as [|fuel IH]; intros r t hs Hr; [done|]. cbn [entries text_entries].
  eapply agree_bind; [by apply next_entry_spec|].
  intros [[name|] r1] [name' t1] [E H1]; simpl in E, H1; subst name'; [|by destruct H1 as (_ & _ & _ & ?)].
  rewrite (shows_fuel _ _ _ H1). eapply agree_bind; [by apply blocks_spec|].
  intros [ds r2] [[ds' i] t2] [E H2]. simpl in E, H2. subst ds'.
  eapply agree_bind; [by apply IH|]. intros [es r3] [es' hs3] [E H3]. simpl in *. by subst.
Qed.

(** A fresh reader. *)
Definition fresh (f key digest : list byte) : reader := Reader (Stream f key digest NextChunk 0 decompressobj) [] 0 [].

Lemma reader_init_fresh f passphrase r :
  reader_init f passphrase = Ok r -> exists header digest rest key,
    read_header f = Ok (header, digest, rest) /\ unlock header passphrase = Ok key /\ r = fresh rest key digest.
Proof.
  unfold reader_init. destruct (read_header f) as [[[header digest] rest]|]; [|done]. simpl.
  destruct (unlock header passphrase) as [key|] eqn:E; [|done]. intros [= <-]. by exists header, digest, rest, key.
Qed.

Lemma fresh_shows f key digest :
  shows (fresh f key digest) (view (fresh f key digest)) [].
Proof.
  split; [unfold buffer_ok, blen; simpl; lia|]. split; [done|]. split; [|done].
  unfold view, unread. simpl. apply drained_bytes.
Qed.

(** ** Reading ends *)

Lemma text_take_short n t a t1 :
  text_take n t = Ok (a, t1) -> snd t1 = snd t /\ (length (fst t1) <= length (fst t))%nat /\
    (1 <= n -> (length (fst t1) < length (fst t))%nat).
Proof.
  unfold text_take, blen. intros E. destruct (Z.ltb_spec (Z.of_nat (length (fst t))) n); simplify_eq/=.
  rewrite length_drop. split; [done|]. lia.
Qed.

Lemma text_take_fuel n t : snd t <> Some OutOfFuel -> text_take n t <> Raise OutOfFuel.
Proof. unfold text_take. intros Ht. destruct (blen _ <? n); [|done]. destruct (snd t); congruence. Qed.

(** [m] does not run out of fuel, and what it leaves is shorter. *)
Definition shrinks {A} (t : text) (m : res read_error (A * text)) : Prop :=
  m <> Raise OutOfFuel /\
  forall a t1, m = Ok (a, t1) -> snd t1 = snd t /\ (length (fst t1) < length (fst t))%nat.

Lemma shrinks_take n t : snd t <> Some OutOfFuel -> 1 <= n -> shrinks t (text_take n t).
Proof. intros Ht Hn. split; [by apply text_take_fuel|]. intros a t1 E. apply text_take_short in E. intuition. Qed.

Lemma shrinks_take_bind {A} n t t0 (k : list byte -> text -> res read_error (A * text)) :
  snd t <> Some OutOfFuel -> snd t = snd t0 -> (length (fst t) < length (fst t0))%nat ->
  (forall a t1, text_take n t = Ok (a, t1) -> snd t1 = snd t -> (length (fst t1) <= length (fst t))%nat -> shrinks t0 (k a t1)) ->
  shrinks t0 (let! (a, t1) := text_take n t in k a t1).
Proof.
  intros Ht Es El Hk. pose proof (text_take_fuel n t Ht) as Hf.
  destruct (text_take n t) as [[a t1]|e] eqn:E; cbn [res_bind].
  - pose proof (text_take_short _ _ _ _ E) as (? & ? & _). by apply Hk.
  - split; [congruence|done].
Qed.

Lemma shrinks_raise {A} t e : e <> OutOfFuel -> shrinks (A:=A) t (Raise e).
Proof. split; [congruence|done]. Qed.

Lemma shrinks_ok {A} t (a : A) t1 : snd t1 = snd t -> (length (fst t1) < length (fst t))%nat -> shrinks t (Ok (a, t1)).
Proof. intros. split; [done|]. intros ? ? [= <- <-]. done. Qed.

Lemma shrinks_block b t : snd t <> Some OutOfFuel -> shrinks t (text_block b t).
Proof.
  intros Ht. unfold text_block. destruct (shrinks_take 1 t Ht ltac:(lia)) as [Hf Hs].
  destruct (text_take 1 t) as [[tag t1]|e]; cbn [res_bind]; [|split; [congruence|done]].
  destruct (Hs _ _ eq_refl) as [E1 L1].
  destruct (bool_decide (tag = lit "D")); [|destruct (bool_decide _); [by apply shrinks_ok|by apply shrinks_raise]].
  apply shrinks_take_bind; [congruence|done|done|]. intros raw t2 _ E2 L2.
  destruct (negb (CHUNK <? unpack raw)); [|by apply shrinks_raise].
  apply shrinks_take_bind; [congruence|congruence|lia|]. intros d t3 _ E3 L3. apply shrinks_ok; [congruence|lia].
Qed.

Lemma shrinks_entry t : snd t <> Some OutOfFuel -> shrinks t (text_entry t).
Proof.
  intros Ht. unfold text_entry. destruct (shrinks_take 1 t Ht ltac:(lia)) as [Hf Hs].
  destruct (text_take 1 t) as [[tag t1]|e]; cbn [res_bind]; [|split; [congruence|done]].
  destruct (Hs _ _ eq_refl) as [E1 L1].
  destruct (bool_decide (tag = lit "X")).
  { destruct t1 as [[|b u] [e|]]; simpl in *; try by apply shrinks_raise. 2: by apply shrinks_ok.
    apply shrinks_raise. congruence. }
  destruct (bool_decide _); [|by apply shrinks_raise].
  apply shrinks_take_bind; [congruence|done|done|]. intros raw t2 _ E2 L2.
  apply shrinks_take_bind; [congruence|congruence|lia|]. intros d t3 _ E3 L3.
  destruct (utf8_decode d); [|by apply shrinks_raise]. apply shrinks_ok; [congruence|lia].
Qed.

Lemma shrinks_blocks fuel b t : snd t <> Some OutOfFuel -> (length (fst t) < fuel)%nat -> shrinks t (text_blocks fuel b t).
Proof.
  revert b t. induction fuel as [|fuel IH]; intros b t Ht Hf; [lia|]. cbn [text_blocks].
  destruct (shrinks_block b t Ht) as [Hn Hs].
  destruct (text_block b t) as [[[d b1] t1]|e]; cbn [res_bind]; [|split; [congruence|done]].
  destruct (Hs _ _ eq_refl) as [E1 L1]. destruct d; [|by apply shrinks_ok].
  destruct (IH b1 t1) as [Hn2 Hs2]; [congruence|lia|].
  destruct (text_blocks fuel b1 t1) as [[[ds i] t2]|e]; cbn [res_bind]; [|split; [congruence|done]].
  destruct (Hs2 _ _ eq_refl) as [E2 L2]. apply shrinks_ok; [congruence|lia].
Qed.

Lemma text_entries_end fuel t hs :
  snd t <> Some OutOfFuel -> (length (fst t) < fuel)%nat -> text_entries fuel t hs <> Raise OutOfFuel.
Proof.
  revert t hs. induction fuel as [|fuel IH]; intros t hs Ht Hf; [lia|]. cbn [text_entries].
  destruct (shrinks_entry t Ht) as [Hn Hs].
  destruct (text_entry t) as [[[name|] t1]|e]; cbn [res_bind]; [|done|congruence].
  destruct (Hs _ _ eq_refl) as [E1 L1].
  destruct (shrinks_blocks (S (length (fst t1))) (BlocksState [] 0) t1) as [Hn2 Hs2]; [congruence|lia|].
  destruct (text_blocks _ _ t1) as [[[ds i] t2]|e]; cbn [res_bind]; [|congruence].
  destruct (Hs2 _ _ eq_refl) as [E2 L2].
  specialize (IH t2 (dict_set hs name i) ltac:(congruence) ltac:(lia)).
  destruct (text_entries fuel t2 _) as [[es hs3]|e]; cbn [res_bind]; congruence.
Qed.

Lemma read_header_fuel f : read_header f <> Raise OutOfFuel.
Proof. unfold read_header. repeat case_match; congruence. Qed.

Lemma bind_fuel {A B} (m : res read_error A) (k : A -> res read_error B) :
  m <> Raise OutOfFuel -> (forall a, k a <> Raise OutOfFuel) -> res_bind m k <> Raise OutOfFuel.
Proof. destruct m; simpl; [auto|congruence]. Qed.

Lemma unlock_int_fuel v : unlock_int v <> Raise OutOfFuel.
Proof. unfold unlock_int. repeat case_match; congruence. Qed.

Lemma unlock_b64_fuel v : unlock_b64 v <> Raise OutOfFuel.
Proof. unfold unlock_b64. repeat case_match; congruence. Qed.

Lemma unlock_fuel header passphrase : unlock header passphrase <> Raise OutOfFuel.
Proof.
  unfold unlock. destruct (or_json _ _); try congruence.
  apply bind_fuel; [apply unlock_b64_fuel|]. intros salt.
  do 3 (apply bind_fuel; [apply unlock_int_fuel|]; intros ?).
  destruct (derive_key _ _ _ _ _); [|congruence].
  apply bind_fuel; [apply unlock_b64_fuel|]. intros expected. case_match; congruence.
Qed.

(** The whole reading of a file. *)
Definition read_file (f : list byte) (passphrase : ustr)
    : res read_error (list (ustr * list (list byte)) * reader) :=
  let! r := reader_init f passphrase in
  read_all r.

Lemma read_all_parse f key digest :
  agree (fun x y => fst x = fst y /\ entry_hashes (snd x) = snd y)
    (read_all (fresh f key digest)) (parse (view (fresh f key digest))).
Proof.
  pose proof (fresh_shows f key digest) as Hs. unfold read_all, parse. rewrite (shows_fuel _ _ _ Hs).
  by apply entries_spec.
Qed.

(** ** Chunk by chunk *)

Lemma next_irrel n m s : (steps s <= n)%nat -> (steps s <= m)%nat -> next n s = next m s.
Proof.
  revert m s. induction n as [|n IH]; intros m s Hn Hm; [pose proof (steps_pos s); lia|].
  destruct m as [|m]; [pose proof (steps_pos s); lia|]. destruct s as [f k dg g i z].
  unfold steps in *. cbn [next s_gen s_key s_digest s_index s_unzip s_rest] in *. destruct g.
  - destruct (open_chunk k dg i f) as [[[plain final] rest]|e] eqn:E; cbn [res_bind]; [|done].
    apply open_chunk_inv in E as (head & nonce & ct & aad & -> & L1 & _ & _ & L2 & _). rewrite !length_app in *.
    destruct (decompress z plain) as [[z1 [|b out]]|]; try done. apply IH; destruct final; cbn [s_gen s_rest]; lia.
  - destruct (decompress_flush z); [|done]. apply IH; cbn [s_gen]; simpl; lia.
  - destruct f; [|done]. apply IH; simpl; lia.
  - done.
Qed.

(** A step of [next] that yields nothing does not show in what is left. *)
Lemma drained_skip s s1 :
  next (next_fuel s) s = next (pred (next_fuel s)) s1 -> (steps s1 <= pred (next_fuel s))%nat -> drained s = drained s1.
Proof.
  intros E Hs. rewrite (drained_step s), (drained_step s1), E.
  by rewrite (next_irrel (pred (next_fuel s)) (next_fuel s1) s1 Hs (steps_fuel s1)).
Qed.

Lemma drained_chunk s plain final rest z out :
  s_gen s = NextChunk -> open_chunk (s_key s) (s_digest s) (s_index s) (s_rest s) = Ok (plain, final, rest) ->
  decompress (s_unzip s) plain = Some (z, out) ->
  let s1 := Stream rest (s_key s) (s_digest s) (if final then AfterFinal else NextChunk) (s_index s + 1) z in
  drained s = (out ++ fst (drained s1), snd (drained s1)).
Proof.
  intros Hg E Hz s1.
  assert (En : next (next_fuel s) s = match out with [] => next (pred (next_fuel s)) s1 | _ => Ok (Some out, s1) end).
  { unfold next_fuel. rewrite Nat.add_comm. cbn [next pred Nat.add]. rewrite Hg, E. cbn [res_bind]. by rewrite Hz. }
  destruct out as [|b out]; [|by rewrite drained_step, En].
  rewrite (drained_skip s s1); [by destruct (drained s1)|done|].
  apply open_chunk_inv in E as (head & nonce & ct & aad & E & L1 & _ & _ & L2 & _).
  unfold next_fuel. rewrite E, !length_app. subst s1. destruct final; unfold steps; cbn [s_gen s_rest]; lia.
Qed.

Lemma drained_final s : s_gen s = AfterFinal -> s_rest s = [] -> drained s = (decompress_flush (s_unzip s), None).
Proof.
  intros Hg Hr.
  assert (Ht : forall s1, s_gen s1 = AfterTail -> s_rest s1 = [] -> drained s1 = ([], None)).
  { intros s1 Hg1 Hr1. rewrite drained_step. unfold next_fuel. rewrite Hr1. cbn [length Nat.add next].
    rewrite Hg1, Hr1. done. }
  destruct s as [f k dg g i z]. simpl in Hg, Hr. subst. rewrite drained_step. unfold next_fuel.
  cbn [s_rest length Nat.add next s_gen s_unzip]. destruct (decompress_flush z) as [|b tail]; [done|].
  by rewrite Ht, app_nil_r.
Qed.

(** The file from chunk [index] on is chunks that open, the last one marked
    final and nothing after it. *)
Inductive accepted (key digest : list byte) : Z -> list byte -> Prop :=
| accepted_last i f plain : open_chunk key digest i f = Ok (plain, true, []) -> accepted key digest i f
| accepted_more i f plain rest :
    open_chunk key digest i f = Ok (plain, false, rest) -> accepted key digest (i + 1) rest -> accepted key digest i f.

Definition good_end (s : stream) : Prop :=
  match s_gen s with
  | NextChunk => accepted (s_key s) (s_digest s) (s_index s) (s_rest s)
  | AfterFinal | AfterTail => s_rest s = []
  | Finished => True
  end.

Lemma next_good fuel s x s1 : next fuel s = Ok (x, s1) -> good_end s1 -> good_end s.
Proof.
  revert s. induction fuel as [|fuel IH]; intros s E Hg; [done|]. cbn [next] in E. unfold good_end.
  destruct (s_gen s) eqn:Eg.
  - destruct (open_chunk _ _ _ _) as [[[plain final] rest]|] eqn:Ec; [|done]. cbn [res_bind] in E.
    destruct (decompress _ plain) as [[z out]|]; [|done].
    assert (Hn : good_end (Stream rest (s_key s) (s_digest s) (if final then AfterFinal else NextChunk) (s_index s + 1) z)).
    { destruct out; [by eapply IH|]. by simplify_eq. }
    destruct final; unfold good_end in Hn; simpl in Hn; [subst; by eapply accepted_last|by eapply accepted_more].
  - destruct (decompress_flush _); [apply IH in E; done|]. by simplify_eq.
  - by destruct (s_rest s).
  - done.
Qed.

Lemma drained_good s : snd (drained s) = None -> good_end s.
Proof.
  remember (steps s) as n eqn:En. revert s En. induction n as [n IH] using lt_wf_ind. intros s -> Hd.
  rewrite drained_step in Hd. pose proof (next_spec (next_fuel s) s (steps_fuel s)) as Hs.
  destruct (next _ s) as [[[d|] s1]|e] eqn:E; simpl in Hd; try done; eapply next_good; try done.
  - destruct Hs as [_ Hs]. by eapply IH.
  - unfold good_end. by rewrite Hs.
Qed.

(** ** Sealed chunks open *)

Lemma CHUNK_pos : 0 < CHUNK.
Proof. done. Qed.
#[local] Opaque CHUNK.

Section Sealed.
Context `{!CryptoLaws} (urandom : Z -> list byte).
(** [os.urandom(12)] *)
Hypothesis nonce_length : forall i, length (urandom i) = 12%nat.

(** The chunks of a file, each with its data and whether it is the last. *)
Fixpoint frames (key digest : list byte) (index : Z) (ds : list (list byte * bool)) : option (list byte) :=
  match ds with
  | [] => Some []
  | (d, last) :: ds' =>
      match frame urandom key digest index last d, frames key digest (index + 1) ds' with
      | Some f, Some fs => Some (f ++ fs)
      | _, _ => None
      end
  end.

Lemma frames_app key digest i ds ds' fs fs' :
  frames key digest i ds = Some fs -> frames key digest (i + blen ds) ds' = Some fs' ->
  frames key digest i (ds ++ ds') = Some (fs ++ fs').
Proof.
  revert i fs. induction ds as [|[d last] ds IH]; intros i fs E E'; simpl in *.
  { simplify_eq. by rewrite Z.add_0_r in E'. }
  destruct (frame _ _ _ _ _ _) as [f|]; [|done]. destruct (frames _ _ (i + 1) ds) as [fs1|] eqn:E1; simplify_eq.
  rewrite (IH (i + 1) fs1 E1); [by rewrite app_assoc|]. rewrite <- E'. f_equal. unfold blen. simpl. lia.
Qed.

(** The parts of a chunk. *)
Lemma frame_inv key digest i last d f : frame urandom key digest i last d = Some f ->
  exists aad n, _aad digest i last = Some aad /\ pack 4 (blen (aes_encrypt key (urandom i) d aad)) = Some n /\
    f = n ++ [if last then 1 else 0] ++ urandom i ++ aes_encrypt key (urandom i) d aad.
Proof.
  unfold frame. destruct (_aad _ _ _) as [aad|]; [|done]. destruct (pack 4 _) as [n|] eqn:E; [|done].
  intros [= <-]. by exists aad, n.
Qed.

Lemma fread_exact n a b : length a = Z.to_nat n -> fread n (a ++ b) = (a, b).
Proof. intros E. unfold fread. by rewrite take_app_length', drop_app_length' by done. Qed.

Lemma open_chunk_frame key digest i last d f rest :
  frame urandom key digest i last d = Some f -> blen d <= CHUNK ->
  open_chunk key digest i (f ++ rest) = Ok (d, last, rest).
Proof.
  intros (aad & n & Ea & En & ->)%frame_inv Hd. set (ct := aes_encrypt _ _ _ _) in *.
  assert (Ln : length n = 4%nat) by by apply pack_length in En.
  assert (Lc : blen ct <= MAX_CHUNK) by (subst ct; rewrite aes_length; unfold MAX_CHUNK; lia).
  unfold open_chunk. rewrite <- !app_assoc, (app_assoc n).
  rewrite fread_exact by (rewrite length_app; simpl; lia).
  rewrite fread_exact by (by rewrite nonce_length).
  assert (Eh : unpack (take 4 (n ++ [if last then 1 else 0])) = blen ct)
    by (rewrite take_app_length' by done; by apply unpack_pack in En).
  rewrite Eh. rewrite fread_exact by (unfold blen; lia).
  replace (unpack (drop 4 (n ++ [if last then 1 else 0]))) with (if last then 1 else 0)
    by (rewrite drop_app_length' by done; by destruct last).
  rewrite (proj2 (Z.ltb_ge _ 5)) by (unfold blen; rewrite length_app; simpl; lia).
  rewrite (proj2 (Z.ltb_ge MAX_CHUNK _) Lc). rewrite (proj2 (Z.eqb_eq (blen (urandom i)) 12)) by (unfold blen; rewrite nonce_length; done).
  rewrite Z.eqb_refl. replace ((if last then 1 else 0) =? 1) with last by by destruct last.
  rewrite Ea. subst ct. rewrite aes_open. by destruct last.
Qed.

(** ** The chunks of the file read as the decompressed data *)

Lemma drained_frames key digest i z ds dl fs data :
  frames key digest i (map (fun d => (d, false)) ds ++ [(dl, true)]) = Some fs ->
  Forall (fun d => blen d <= CHUNK) (ds ++ [dl]) -> inflate z (ds ++ [dl]) = Some data ->
  drained (Stream fs key digest NextChunk i z) = (data, None).
Proof.
  revert i z fs data. induction ds as [|d ds IH]; intros i z fs data E Hd Hz; cbn [map app frames] in *.
  - destruct (frame _ _ _ _ _ _) as [f|] eqn:Ef; simplify_eq. apply list.Forall_cons in Hd as [Hd _].
    cbn [inflate] in Hz. destruct (decompress z dl) as [[z1 out]|] eqn:Ez; [|done]. simpl in Hz. simplify_eq.
    erewrite drained_chunk; [|done|by apply open_chunk_frame|done]. by rewrite drained_final.
  - destruct (frame _ _ _ _ _ _) as [f|] eqn:Ef; [|done]. destruct (frames _ _ (i + 1) _) as [fs1|] eqn:Efs; simplify_eq.
    apply list.Forall_cons in Hd as [Hd Hds]. cbn [inflate] in Hz.
    destruct (decompress z d) as [[z1 out]|] eqn:Ez; [|done].
    destruct (inflate z1 _) as [data1|] eqn:Ez1; [|done]. simpl in Hz. simplify_eq.
    erewrite drained_chunk; [|done|by apply open_chunk_frame|done]. cbn [s_key s_digest s_index].
    by rewrite (IH (i + 1) z1 fs1 data1).
Qed.

(** ** What the writer holds *)

(** The chunks [cs] are sealed after [prefix]; they and the pending bytes are
    the compressed stream [z] so far. *)
Record sinv (prefix key digest : list byte) (w : writer) (cs : list (list byte)) (z : list byte) : Prop := {
  wi_key : w_key w = key;
  wi_digest : w_digest w = digest;
  wi_frames : exists body, frames key digest 0 (map (fun c => (c, false)) cs) = Some body /\ w_out w = prefix ++ body;
  wi_hash : w_file_hash w = w_out w;
  wi_size : w_size w = blen (w_out w);
  wi_index : w_index w = blen cs;
  wi_chunks : Forall (fun c => blen c = CHUNK) cs;
  wi_stream : concat cs ++ w_pending w = z
}.

(** After the pieces [ds]. *)
Definition winv (prefix key digest : list byte) (w : writer) (cs ds : list (list byte)) : Prop :=
  sinv prefix key digest w cs (snd (deflate compressobj ds)) /\ w_zip w = fst (deflate compressobj ds).

(** The fields of the open entry and of the table. *)
Definition entry_fields (w : writer) : option ustr * option (list byte) * Z * list (option ustr * info) * bool :=
  (w_entry w, w_entry_hash w, w_entry_size w, w_entries w, w_closed w).

Lemma deflate_snoc z ds d :
  deflate z (ds ++ [d]) =
  let '(z1, o1) := deflate z ds in let '(z2, o2) := compress z1 d in (z2, o1 ++ o2).
Proof.
  revert z. induction ds as [|d1 ds IH]; intros z; cbn [app deflate].
  - destruct (compress z d). by rewrite app_nil_r.
  - destruct (compress z d1) as [z1 o1]. rewrite IH. destruct (deflate z1 ds) as [z2 o2].
    destruct (compress z2 d). by rewrite app_assoc.
Qed.

(** One turn of the loop of [_seal]. *)
Lemma seal_turn fuel final w w' :
  _seal urandom (S fuel) final w = Ok w' -> CHUNK <= blen (w_pending w) \/ final = true ->
  let taken := take (Z.to_nat CHUNK) (w_pending w) in
  let pending := drop (Z.to_nat CHUNK) (w_pending w) in
  let last := final && bool_decide (pending = []) in
  exists f, frame urandom (w_key w) (w_digest w) (w_index w) last taken = Some f /\
    let w2 := Writer (w_key w) (w_digest w) (w_out w ++ f) (w_file_hash w ++ f) (w_zip w) pending (w_index w + 1)
                (w_entry w) (w_entry_hash w) (w_entry_size w) (w_entries w) (w_size w + blen f) (w_closed w) in
    (if last then Ok w2 else _seal urandom fuel final w2) = Ok w'.
Proof.
  destruct w as [k dg out fh z pend idx e eh es ents sz cl]. cbn [_seal]. cbn [w_pending w_key w_digest w_index].
  intros E Hc. replace ((CHUNK <=? blen pend) || final) with true in E.
  2:{ symmetry. apply orb_true_iff. destruct Hc; [left; by apply Z.leb_le|by right]. }
  destruct (frame _ _ _ _ _ _) as [f|]; [|done]. exists f. by split.
Qed.

Lemma seal_stop fuel w w' : _seal urandom fuel false w = Ok w' -> blen (w_pending w) < CHUNK -> w' = w.
Proof.
  intros E Hc. destruct fuel; cbn [_seal] in E; rewrite (proj2 (Z.leb_gt _ _) Hc) in E; simpl in E; by simplify_eq.
Qed.

Lemma sinv_chunk prefix key digest w cs z f :
  sinv prefix key digest w cs z -> CHUNK <= blen (w_pending w) ->
  frame urandom key digest (w_index w) false (take (Z.to_nat CHUNK) (w_pending w)) = Some f ->
  sinv prefix key digest
    (Writer (w_key w) (w_digest w) (w_out w ++ f) (w_file_hash w ++ f) (w_zip w) (drop (Z.to_nat CHUNK) (w_pending w))
       (w_index w + 1) (w_entry w) (w_entry_hash w) (w_entry_size w) (w_entries w) (w_size w + blen f) (w_closed w))
    (cs ++ [take (Z.to_nat CHUNK) (w_pending w)]) z.
Proof.
  intros [Hk Hd (body & Hf & Ho) Hh Hs Hi Hc Hz] Hlen Ef. constructor; cbn.
  - done.
  - done.
  - exists (body ++ f). split; [|by rewrite Ho, app_assoc]. rewrite map_app. apply frames_app; [done|].
    simpl. rewrite Z.add_0_l. unfold blen at 1. rewrite length_map. fold (blen cs). rewrite <- Hi, Ef. by rewrite app_nil_r.
  - by rewrite Hh.
  - rewrite Hs. unfold blen. rewrite length_app. lia.
  - rewrite Hi. unfold blen. rewrite length_app. simpl. lia.
  - apply list.Forall_app. split; [done|]. constructor; [|done].
    pose proof CHUNK_pos. unfold blen in *. rewrite length_take. lia.
  - rewrite <- Hz, concat_app. cbn [concat]. rewrite app_nil_r, <- app_assoc, take_drop. done.
Qed.

Lemma seal_false_spec prefix key digest fuel w w' cs z :
  sinv prefix key digest w cs z -> _seal urandom fuel false w = Ok w' ->
  exists cs', sinv prefix key digest w' cs' z /\ entry_fields w' = entry_fields w /\ w_zip w' = w_zip w.
Proof.
  revert w cs. induction fuel as [|fuel IH]; intros w cs Hw E;
    (destruct (Z.lt_ge_cases (blen (w_pending w)) CHUNK) as [Hlt|Hge];
     [apply seal_stop in E as ->; [by exists cs|done]|]).
  { cbn [_seal] in E. by rewrite (proj2 (Z.leb_le _ _) Hge) in E. }
  apply seal_turn in E as (f & Ef & E); [|by left]. cbn [andb] in *. cbv zeta in E.
  rewrite (wi_key _ _ _ _ _ _ Hw), (wi_digest _ _ _ _ _ _ Hw) in Ef. apply (sinv_chunk prefix key digest w cs z f Hw Hge) in Ef.
  apply (IH _ _ Ef) in E as (cs' & Hw' & Hf). by exists cs'.
Qed.

Lemma plain_spec prefix key digest w data w' cs ds :
  winv prefix key digest w cs ds -> _plain urandom w data = Ok w' ->
  exists cs', winv prefix key digest w' cs' (ds ++ [data]) /\ entry_fields w' = entry_fields w.
Proof.
  intros [Hw Hz] E. unfold _plain in E. destruct (compress (w_zip w) data) as [z out] eqn:Ez.
  assert (Ed : deflate compressobj (ds ++ [data]) = (z, snd (deflate compressobj ds) ++ out)).
  { rewrite deflate_snoc. rewrite Hz in Ez. destruct (deflate compressobj ds). simpl in *. by rewrite Ez. }
  unfold winv. rewrite Ed. cbn [fst snd].
  assert (H1 : sinv prefix key digest (w {{ w_zip := z; w_pending := w_pending w ++ out }}) cs
                 (snd (deflate compressobj ds) ++ out)).
  { destruct Hw as [Hk Hd Hf Hh Hs Hi Hc Hst]. rewrite <- Hst. destruct w. simpl in *. constructor; simpl; try done.
    by rewrite app_assoc. }
  destruct (CHUNK <=? _); [|simplify_eq; exists cs; by destruct w].
  unfold seal in E. eapply seal_false_spec in E as (cs' & ? & Hf & Hz'); [|done].
  exists cs'. split; [split; [done|]|]; [rewrite Hz'|rewrite Hf]; by destruct w.
Qed.

(** The file when the last chunk is sealed. *)
Lemma seal_true_spec prefix key digest fuel w w' cs z :
  sinv prefix key digest w cs z -> _seal urandom fuel true w = Ok w' ->
  exists cs' dl body, frames key digest 0 (map (fun c => (c, false)) cs' ++ [(dl, true)]) = Some body /\
    w_out w' = prefix ++ body /\ concat (cs' ++ [dl]) = z /\
    Forall (fun c => blen c <= CHUNK) (cs' ++ [dl]) /\ w_file_hash w' = w_out w' /\ w_size w' = blen (w_out w') /\
    entry_fields w' = entry_fields w.
Proof.
  revert w cs. induction fuel as [|fuel IH]; intros w cs Hw E; [cbn [_seal] in E; by rewrite orb_true_r in E|].
  apply seal_turn in E as (f & Ef & E); [|by right]. cbn [andb] in *. cbv zeta in E. pose proof CHUNK_pos as Hpos.
  rewrite (wi_key _ _ _ _ _ _ Hw), (wi_digest _ _ _ _ _ _ Hw) in Ef.
  destruct (bool_decide (drop (Z.to_nat CHUNK) (w_pending w) = [])) eqn:Eb; cbn [andb] in *.
  - apply bool_decide_eq_true in Eb. injection E as <-.
    destruct Hw as [Hk Hd (body & Hf & Ho) Hh Hs Hi Hc Hz].
    assert (Et : take (Z.to_nat CHUNK) (w_pending w) = w_pending w).
    { rewrite <- (take_drop (Z.to_nat CHUNK) (w_pending w)) at 2. by rewrite Eb, app_nil_r. }
    exists cs, (w_pending w), (body ++ f). cbn [w_out w_file_hash w_size]. rewrite Et in Ef. split.
    { apply frames_app; [done|]. cbn [frames]. rewrite Z.add_0_l. unfold blen. rewrite length_map. fold (blen cs).
      rewrite <- Hi, Ef. by rewrite app_nil_r. }
    split; [by rewrite Ho, app_assoc|]. split; [rewrite concat_app; simpl; by rewrite app_nil_r|]. split.
    { apply list.Forall_app. split; [eapply list.Forall_impl; [done|]; simpl; lia|]. constructor; [|done].
      rewrite <- Et. unfold blen. rewrite length_take. lia. }
    split; [by rewrite Hh|]. split; [|done]. rewrite Hs. unfold blen. rewrite length_app. lia.
  - assert (Hge : CHUNK <= blen (w_pending w)).
    { destruct (Z.lt_ge_cases (blen (w_pending w)) CHUNK); [|done].
      apply bool_decide_eq_false in Eb. exfalso. apply Eb. apply drop_ge. unfold blen in *. lia. }
    pose proof (sinv_chunk prefix key digest w cs z f Hw Hge Ef) as Hw1.
    apply (IH _ _ Hw1) in E as (cs' & dl & body & E1 & E2 & E3 & E4 & E5 & E6 & E7).
    exists cs', dl, body. by split_and!.
Qed.

(** ** The records of an archive *)

Definition data_record (part : list byte) : list byte := lit "D" ++ be_bytes 4 (blen part) ++ part.
Definition name_record (raw : list byte) : list byte := lit "E" ++ be_bytes 2 (blen raw) ++ raw.

Lemma text_take_app n a u e : blen a = n -> text_take n (a ++ u, e) = Ok (a, (u, e)).
Proof.
  intros E. unfold text_take. cbn [fst snd]. pose proof (blen_nonneg u).
  rewrite (proj2 (Z.ltb_ge _ _)) by (unfold blen in *; rewrite length_app; lia).
  unfold blen in E. by rewrite take_app_length', drop_app_length' by lia.
Qed.

Lemma text_block_data b part u e : blen part <= CHUNK ->
  text_block b (data_record part ++ u, e) = Ok (Some part, BlocksState (b_hash b ++ part) (b_size b + blen part), (u, e)).
Proof.
  intros Hp. unfold text_block, data_record. rewrite <- !app_assoc.
  rewrite text_take_app by done. cbn [res_bind]. rewrite bool_decide_true by done.
  rewrite text_take_app by (unfold blen; by rewrite be_bytes_length). cbn [res_bind].
  rewrite unpack_be by (pose proof (blen_nonneg part); assert (CHUNK < 256 ^ Z.of_nat 4) by done; lia).
  rewrite (proj2 (Z.ltb_ge _ _) Hp). simpl negb. cbv iota. by rewrite text_take_app.
Qed.

Lemma text_block_end b u e : text_block b (lit "Z" ++ u, e) = Ok (None, b, (u, e)).
Proof. unfold text_block. rewrite text_take_app by done. cbn [res_bind]. by rewrite bool_decide_false, bool_decide_true. Qed.

(** The info of an entry with the data [d]. *)
Definition info_of (d : list byte) : info := Info (blen d) (hexdigest (sha256 d)).

Lemma text_blocks_records fuel b parts u e :
  Forall (fun p => blen p <= CHUNK) parts -> (length parts < fuel)%nat ->
  text_blocks fuel b (concat (map data_record parts) ++ lit "Z" ++ u, e)
  = Ok (parts, Info (b_size b + blen (concat parts)) (hexdigest (sha256 (b_hash b ++ concat parts))), (u, e)).
Proof.
  revert b fuel. induction parts as [|p parts IH]; intros b [|fuel] Hp Hf; simpl in Hf; try lia; cbn [text_blocks map concat].
  - cbn [app]. rewrite text_block_end. cbn [res_bind]. by rewrite app_nil_r, Z.add_0_r.
  - apply list.Forall_cons in Hp as [Hp Hps]. rewrite <- app_assoc, text_block_data by done. cbn [res_bind].
    rewrite IH by (done || lia). cbn [res_bind b_size b_hash]. do 4 f_equal; [|by rewrite app_assoc].
    unfold blen. rewrite length_app. lia.
Qed.

Lemma text_entry_name raw name u e :
  utf8_decode raw = Some name -> blen raw < 65536 -> text_entry (name_record raw ++ u, e) = Ok (Some name, (u, e)).
Proof.
  intros Ed Hl. unfold text_entry, name_record. rewrite <- !app_assoc. rewrite text_take_app by done. cbn [res_bind].
  rewrite bool_decide_false, bool_decide_true by done.
  rewrite text_take_app by (unfold blen; by rewrite be_bytes_length). cbn [res_bind].
  rewrite unpack_be by (pose proof (blen_nonneg raw); lia). rewrite text_take_app by done. cbn [res_bind]. by rewrite Ed.
Qed.

Lemma text_entry_end : text_entry (lit "X", None) = Ok (None, ([], None)).
Proof. done. Qed.

(** ** Entries *)

Lemma slices_concat fuel d : (length d <= fuel)%nat -> concat (slices fuel d) = d.
Proof.
  revert d. induction fuel as [|fuel IH]; intros [|b d] Hf; try done; [simpl in Hf; lia|]. cbn [slices concat].
  rewrite IH; [apply take_drop|]. pose proof CHUNK_pos. rewrite length_drop. simpl in *. lia.
Qed.

Lemma slices_bound fuel d : Forall (fun p => blen p <= CHUNK) (slices fuel d).
Proof.
  revert d. induction fuel as [|fuel IH]; intros [|b d]; cbn [slices]; constructor; [|apply IH].
  pose proof CHUNK_pos. unfold blen. rewrite length_take. lia.
Qed.

(** The data records of the blocks of an entry. *)
Definition parts_of (bs : list (list byte)) : list (list byte) := concat (map (fun b => slices (length b) b) bs).

Lemma parts_concat bs : concat (parts_of bs) = concat bs.
Proof.
  unfold parts_of. induction bs as [|b bs IH]; [done|]. cbn [map concat]. by rewrite concat_app, IH, slices_concat.
Qed.

Lemma parts_bound bs : Forall (fun p => blen p <= CHUNK) (parts_of bs).
Proof.
  unfold parts_of. induction bs as [|b bs IH]; [constructor|]. cbn [map concat].
  apply list.Forall_app. split; [apply slices_bound|done].
Qed.

(** The entry [name] is open and holds [h]. *)
Definition holds (w : writer) (name : ustr) (h : list byte) (ents : list (option ustr * info)) : Prop :=
  w_entry w = Some name /\ w_entry_hash w = Some h /\ w_entry_size w = blen h /\ w_entries w = ents.

Lemma holds_fields w w' name h ents : entry_fields w' = entry_fields w -> holds w name h ents -> holds w' name h ents.
Proof. unfold entry_fields, holds. destruct w, w'. simpl. intros [= -> -> -> -> ->]. done. Qed.

Lemma winv_fields prefix key digest w w' cs ds :
  winv prefix key digest w cs ds -> w_key w' = w_key w -> w_digest w' = w_digest w -> w_out w' = w_out w ->
  w_file_hash w' = w_file_hash w -> w_zip w' = w_zip w -> w_pending w' = w_pending w -> w_index w' = w_index w ->
  w_size w' = w_size w -> winv prefix key digest w' cs ds.
Proof.
  intros [[] ?] Ek Ed Eo Ef Ez Ep Ei Es. split; [|congruence].
  constructor; rewrite ?Ek, ?Ed, ?Eo, ?Ef, ?Ep, ?Ei, ?Es; done.
Qed.

Lemma begin_spec prefix key digest w name w' cs ds :
  winv prefix key digest w cs ds -> begin urandom w name = Ok w' ->
  exists cs' raw, utf8_encode name = Some raw /\ blen raw < 65536 /\ w_entry w = None /\
    Some name ∉ map fst (w_entries w) /\
    winv prefix key digest w' cs' (ds ++ [name_record raw]) /\ holds w' name [] (w_entries w).
Proof.
  intros Hw E. unfold begin in E. destruct (w_entry w) eqn:Ee; [done|].
  destruct (bool_decide _) eqn:Eb; [done|]. apply bool_decide_eq_false in Eb.
  destruct (utf8_encode name) as [raw|] eqn:Er; [|done]. destruct (pack 2 (blen raw)) as [n|] eqn:En; [|done].
  apply pack_some in En as [-> Hn]. destruct (_plain _ _ _) as [w1|] eqn:Ep; [|done]. simpl in E. simplify_eq.
  apply (plain_spec prefix key digest _ _ _ cs ds Hw) in Ep as (cs' & Hw1 & Hf).
  exists cs', raw. split; [done|]. split; [change (256 ^ Z.of_nat 2) with 65536 in Hn; lia|]. split; [done|]. split; [done|].
  split; [eapply winv_fields; [done|by destruct w1..]|].
  unfold entry_fields in Hf. destruct w, w1. simpl in *. simplify_eq. done.
Qed.

Lemma write_part_spec prefix key digest w p w' cs ds name h ents :
  winv prefix key digest w cs ds -> holds w name h ents -> write_part urandom w p = Ok w' ->
  exists cs', winv prefix key digest w' cs' (ds ++ [data_record p]) /\ holds w' name (h ++ p) ents.
Proof.
  intros Hw Hh E. unfold write_part in E. destruct (pack 4 (blen p)) as [n|] eqn:En; [|done].
  apply pack_some in En as [-> Hn]. destruct (_plain _ _ _) as [w1|] eqn:Ep; [|done]. simpl in E. simplify_eq.
  apply (plain_spec prefix key digest _ _ _ cs ds Hw) in Ep as (cs' & Hw1 & Hf).
  exists cs'. split; [eapply winv_fields; [done|by destruct w1..]|].
  apply (holds_fields _ _ _ _ _ Hf) in Hh as (? & Eh & Es & ?). destruct w1. unfold holds. simpl in *.
  rewrite Eh, Es. split_and!; try done. unfold blen. rewrite length_app. lia.
Qed.

Lemma write_parts_spec prefix key digest ps : forall w w' cs ds name h ents,
  winv prefix key digest w cs ds -> holds w name h ents -> write_parts urandom w ps = Ok w' ->
  exists cs', winv prefix key digest w' cs' (ds ++ map data_record ps) /\ holds w' name (h ++ concat ps) ents.
Proof.
  induction ps as [|p ps IH]; intros w w' cs ds name h ents Hw Hh E; cbn [write_parts] in E.
  - simplify_eq. exists cs. by rewrite !app_nil_r.
  - destruct (write_part _ _ _) as [w1|] eqn:E1; [|done]. cbn [res_bind] in E.
    eapply write_part_spec in E1 as (cs1 & Hw1 & Hh1); [|done..].
    eapply IH in E as (cs2 & Hw2 & Hh2); [|done..]. exists cs2. cbn [map concat]. rewrite <- !app_assoc in *. by split.
Qed.

Lemma write_blocks_spec prefix key digest bs : forall w w' cs ds name h ents,
  winv prefix key digest w cs ds -> holds w name h ents -> write_blocks urandom w bs = Ok w' ->
  exists cs', winv prefix key digest w' cs' (ds ++ map data_record (parts_of bs)) /\ holds w' name (h ++ concat bs) ents.
Proof.
  induction bs as [|b bs IH]; intros w w' cs ds name h ents Hw Hh E; cbn [write_blocks] in E.
  - simplify_eq. exists cs. by rewrite !app_nil_r.
  - destruct (write _ _ _) as [w1|] eqn:E1; [|done]. cbn [res_bind] in E. unfold write in E1.
    destruct (w_entry w); [|done].
    eapply write_parts_spec in E1 as (cs1 & Hw1 & Hh1); [|done..]. rewrite slices_concat in Hh1 by done.
    eapply IH in E as (cs2 & Hw2 & Hh2); [|done..]. exists cs2. unfold parts_of in *. cbn [map concat].
    rewrite map_app. rewrite <- !app_assoc in *. by split.
Qed.

Lemma end_spec prefix key digest w w' i cs ds name h ents :
  winv prefix key digest w cs ds -> holds w name h ents -> end_ urandom w = Ok (w', i) ->
  exists cs', winv prefix key digest w' cs' (ds ++ [lit "Z"]) /\ w_entry w' = None /\
    w_entries w' = dict_set ents (Some name) (info_of h) /\ i = info_of h.
Proof.
  intros Hw Hh E. unfold end_ in E. destruct (_plain _ _ _) as [w1|] eqn:Ep; [|done].
  apply (plain_spec prefix key digest _ _ _ cs ds Hw) in Ep as (cs' & Hw1 & Hf).
  pose proof (holds_fields _ _ _ _ _ Hf Hh) as (Ee & Eh & Es & Et). clear Hf Hw Hh. exists cs'.
  destruct w1. simpl in *. subst. injection E as <- <-. by split; [eapply winv_fields|].
Qed.

(** ** The header *)

(** [kdf] as [__init__] writes it. *)
Definition kdf_fields (salt : list byte) : list (pystr * json) :=
  dict_update [(py "name", JStr (py "scrypt")); (py "salt", JStr (std_b64encode salt))] SCRYPT.

Lemma full_header_NoDup header salt key : NoDup (map fst header) -> NoDup (map fst (full_header header salt key)).
Proof. intros. unfold full_header, dict_update. cbn [foldl]. by repeat apply dict_set_NoDup. Qed.

Lemma full_header_fields header salt key :
  get (full_header header salt key) (py "format") = JInt FORMAT /\
  get (full_header header salt key) (py "kdf") = JObj (kdf_fields salt) /\
  get (full_header header salt key) (py "check") = JStr (std_b64encode (_check_value key)) /\
  has_key (full_header header salt key) (py "check") = true.
Proof.
  unfold full_header, dict_update. cbn [foldl fst snd].
  split_and!; [rewrite !dict_set_get; reflexivity..|]. apply has_key_spec. rewrite !dict_set_elem. by left.
Qed.

Lemma kdf_NoDup salt : NoDup (map fst (kdf_fields salt)).
Proof. apply (bool_decide_eq_true_1 (NoDup _)). vm_compute. done. Qed.

Lemma item_canon o o' k :
  (forall k, get o' k = canon (get o k)) -> (forall k, has_key o' k = has_key o k) -> has_key o k = true ->
  item o' k = Some (canon (get o k)).
Proof. intros Hg Hh Hk. unfold item. by rewrite Hh, Hk, Hg. Qed.

(** The key comes back from the header. *)
Lemma unlock_full passphrase header salt key hd :
  NoDup (map fst header) -> Forall is_byte salt -> derive_key passphrase salt (Z.shiftl 1 15) 8 1 = Some key ->
  canon (JObj (full_header header salt key)) = JObj hd ->
  eq_int (get hd (py "format")) FORMAT = true /\ unlock hd passphrase = Ok key.
Proof.
  intros Hd Hsalt Hk Hc. destruct (canon_obj _ (full_header_NoDup header salt key Hd)) as (hd' & E & Hg & Hh).
  rewrite Hc in E. injection E as <-. destruct (full_header_fields header salt key) as (Ef & Ek & Ec & Hkey).
  split; [by rewrite Hg, Ef|]. unfold unlock. rewrite Hg, Ek.
  destruct (canon_obj _ (kdf_NoDup salt)) as (kdf & Ekdf & Hkg & Hkh). unfold or_json.
  assert (Ht : truthy (canon (JObj (kdf_fields salt))) = true).
  { rewrite Ekdf. destruct kdf; [|done]. specialize (Hkh (py "n")). done. }
  rewrite Ht, Ekdf. rewrite !(item_canon _ _ _ Hkg Hkh) by done.
  change (get (kdf_fields salt) (py "salt")) with (JStr (std_b64encode salt)). cbn [canon unlock_b64].
  rewrite std_decode_encode by done. cbn [res_bind].
  change (get (kdf_fields salt) (py "n")) with (JInt (Z.shiftl 1 15)).
  change (get (kdf_fields salt) (py "r")) with (JInt 8). change (get (kdf_fields salt) (py "p")) with (JInt 1).
  cbn [canon unlock_int to_int res_bind]. rewrite Hk.
  rewrite (item_canon _ _ _ Hg Hh) by done. rewrite Ec. cbn [canon unlock_b64].
  rewrite std_decode_encode by (apply Forall_take, hmac_bytes). cbn [res_bind]. by rewrite bool_decide_true.
Qed.

Lemma read_header_prefix raw text hd rest :
  utf8_encode text = Some raw -> json_loads text = Some (JObj hd) -> eq_int (get hd (py "format")) FORMAT = true ->
  blen raw <= MAX_HEADER ->
  read_header ((MAGIC ++ be_bytes 4 (blen raw) ++ raw) ++ rest)
  = Ok (hd, sha256 (MAGIC ++ be_bytes 4 (blen raw) ++ raw), rest).
Proof.
  intros Hr Hj Hf Hl. unfold read_header. rewrite <- !app_assoc. rewrite fread_exact by done.
  rewrite bool_decide_true by done. rewrite fread_exact by (by rewrite be_bytes_length).
  rewrite unpack_be by (pose proof (blen_nonneg raw); assert (MAX_HEADER < 256 ^ Z.of_nat 4) by done; lia).
  rewrite fread_exact by (unfold blen; lia). unfold blen at 1. rewrite be_bytes_length. simpl (_ =? 4). cbv iota.
  rewrite (proj2 (Z.ltb_ge _ _) Hl). rewrite Z.eqb_refl. simpl negb. cbv iota.
  apply utf8_decode_encode in Hr as [-> _]. by rewrite Hj, Hf.
Qed.

(** ** Archives *)

Definition raw_of (name : ustr) : list byte := match utf8_encode name with Some raw => raw | None => [] end.
Definition entry_text (e : ustr * list (list byte)) : list byte :=
  name_record (raw_of (fst e)) ++ concat (map data_record (parts_of (snd e))) ++ lit "Z".
Definition archive_text (es : list (ustr * list (list byte))) : list byte := concat (map entry_text es) ++ lit "X".

(** What the two readers see of an entry: its records, its info. *)
Definition entry_parts (e : ustr * list (list byte)) : ustr * list (list byte) := (fst e, parts_of (snd e)).
Definition entry_info {K} (f : ustr -> K) `{EqDecision K} (t : list (K * info)) (e : ustr * list (list byte)) : list (K * info) :=
  dict_set t (f (fst e)) (info_of (concat (snd e))).

Definition name_ok (e : ustr * list (list byte)) : Prop :=
  utf8_encode (fst e) = Some (raw_of (fst e)) /\ blen (raw_of (fst e)) < 65536.

Lemma data_records_length ps : (length ps <= length (concat (map data_record ps)))%nat.
Proof.
  induction ps as [|p ps IH]; [done|]. cbn [map concat length]. rewrite length_app.
  assert (1 <= length (data_record p))%nat by (unfold data_record; rewrite !length_app; simpl; lia). lia.
Qed.

Lemma lit_bytes t : Forall is_byte (lit t).
Proof. unfold lit. apply List.Forall_map, list.Forall_true. intros c. apply ord_range. Qed.

Lemma record_bytes tag (w : nat) n data : Forall is_byte data -> Forall is_byte (lit tag ++ be_bytes w n ++ data).
Proof. intros. rewrite !list.Forall_app. split; [apply lit_bytes|]. split; [apply be_bytes_range|done]. Qed.

Lemma slices_bytes fuel d : Forall is_byte d -> Forall (Forall is_byte) (slices fuel d).
Proof.
  revert d. induction fuel as [|fuel IH]; intros [|b d] Hd; cbn [slices]; constructor; [by apply Forall_take|].
  apply IH. by apply Forall_drop.
Qed.

Lemma parts_bytes bs : Forall (Forall is_byte) bs -> Forall (Forall is_byte) (parts_of bs).
Proof.
  unfold parts_of. induction 1 as [|b bs Hb _ IH]; [constructor|]. cbn [map concat]. apply list.Forall_app.
  split; [by apply slices_bytes|done].
Qed.

Lemma text_entries_records es : forall fuel hs, Forall name_ok es -> (length es < fuel)%nat ->
  text_entries fuel (archive_text es, None) hs = Ok (map entry_parts es, foldl (entry_info id) hs es).
Proof.
  unfold archive_text. induction es as [|[name bs] es IH]; intros [|fuel] hs Hes Hf; simpl in Hf; try lia; cbn [text_entries].
  { done. }
  apply list.Forall_cons in Hes as [[Er El] Hes]. simpl in Er, El. apply utf8_decode_encode in Er as [Er _].
  cbn [map concat]. unfold entry_text at 1. cbn [fst snd]. rewrite <- !app_assoc.
  rewrite (text_entry_name _ name) by done. cbn [res_bind fst].
  rewrite text_blocks_records; [|apply parts_bound|]. 2:{ rewrite length_app. pose proof (data_records_length (parts_of bs)). lia. }
  cbn [res_bind b_size b_hash]. rewrite parts_concat, Z.add_0_l. cbn [app]. fold (info_of (concat bs)).
  rewrite IH by (done || lia). done.
Qed.

Lemma write_entries_spec prefix key digest es : forall w w' cs ds,
  winv prefix key digest w cs ds -> write_entries urandom w es = Ok w' ->
  exists cs' ds', winv prefix key digest w' cs' (ds ++ ds') /\ concat ds' = concat (map entry_text es) /\
    w_entries w' = foldl (entry_info Some) (w_entries w) es /\ Forall name_ok es /\
    (Forall (fun e => Forall (Forall is_byte) (snd e)) es -> Forall (Forall is_byte) ds') /\
    NoDup (map fst es) /\ (forall k, k ∈ map fst es -> Some k ∉ map fst (w_entries w)).
Proof.
  induction es as [|[name bs] es IH]; intros w w' cs ds Hw E; cbn [write_entries] in E.
  { simplify_eq. exists cs, []. rewrite app_nil_r. split_and!; try done; [constructor|]. intros k Hk. by apply not_elem_of_nil in Hk. }
  destruct (begin _ _ _) as [w1|] eqn:E1; [|done]. cbn [res_bind] in E.
  destruct (write_blocks _ _ _) as [w2|] eqn:E2; [|done]. cbn [res_bind] in E.
  destruct (end_ _ _) as [[w3 i]|] eqn:E3; [|done]. cbn [res_bind] in E.
  eapply begin_spec in E1 as (cs1 & raw & Er & El & _ & Hnew & Hw1 & Hh1); [|done].
  eapply write_blocks_spec in E2 as (cs2 & Hw2 & Hh2); [|done..].
  eapply end_spec in E3 as (cs3 & Hw3 & _ & Et & _); [|done..].
  eapply IH in E as (cs4 & ds4 & Hw4 & Ec & Et4 & Hn & Hb & Hd & Hf); [|done].
  assert (Eraw : raw_of name = raw) by (unfold raw_of; by rewrite Er).
  exists cs4, (([name_record raw] ++ map data_record (parts_of bs) ++ [lit "Z"]) ++ ds4).
  rewrite <- !app_assoc in *. split; [done|]. split.
  { cbn [map concat]. rewrite !concat_app, Ec. unfold entry_text. cbn [fst snd]. rewrite Eraw. simpl. rewrite app_nil_r.
    rewrite <- !app_assoc. done. }
  split; [rewrite Et4, Et; done|]. split; [constructor; [split; simpl; rewrite Eraw; done|done]|].
  rewrite Et in Hf. split.
  2:{ cbn [map fst]. split.
      - apply list.NoDup_cons. split; [|done]. intros Hin. apply (Hf _ Hin). apply dict_set_elem. by left.
      - intros k [->|Hk]%elem_of_cons; [done|]. specialize (Hf _ Hk). rewrite dict_set_elem in Hf. tauto. }
  intros Hes. apply list.Forall_cons in Hes as [Hbs Hes]. apply utf8_decode_encode in Er as [_ Hraw].
  rewrite !list.Forall_app. split; [|split; [|split; [|by apply Hb]]].
  - constructor; [by apply record_bytes|done].
  - apply List.Forall_map. eapply list.Forall_impl; [by apply parts_bytes|]. intros p Hp. by apply record_bytes.
  - constructor; [apply lit_bytes|done].
Qed.

(** The parts of a finished file. *)
Record archive_file (passphrase : ustr) (header : list (pystr * json)) (salt : list byte)
    (es : list (ustr * list (list byte))) (file key raw : list byte) (cs : list (list byte)) (dl body : list byte) : Prop := {
  af_key : derive_key passphrase salt (Z.shiftl 1 15) 8 1 = Some key;
  af_header : utf8_encode (json_dumps (full_header header salt key)) = Some raw;
  af_size : blen raw < 256 ^ Z.of_nat 4;
  af_file : file = (MAGIC ++ be_bytes 4 (blen raw) ++ raw) ++ body;
  af_frames : frames key (sha256 (MAGIC ++ be_bytes 4 (blen raw) ++ raw)) 0 (map (fun c => (c, false)) cs ++ [(dl, true)])
              = Some body;
  af_chunks : Forall (fun c => blen c <= CHUNK) (cs ++ [dl]);
  af_names : Forall name_ok es;
  af_data : Forall (fun e => Forall (Forall is_byte) (snd e)) es ->
            inflate decompressobj (cs ++ [dl]) = Some (archive_text es)
}.

Lemma writer_init_inv passphrase header salt w :
  writer_init passphrase header salt = Ok w -> exists key raw,
    derive_key passphrase salt (Z.shiftl 1 15) 8 1 = Some key /\
    utf8_encode (json_dumps (full_header header salt key)) = Some raw /\ blen raw < 256 ^ Z.of_nat 4 /\
    (let prefix := MAGIC ++ be_bytes 4 (blen raw) ++ raw in
     winv prefix key (sha256 prefix) w [] [] /\ w_entries w = []).
Proof.
  unfold writer_init. destruct (derive_key _ _ _ _ _) as [key|]; [|done].
  destruct (utf8_encode _) as [raw|] eqn:Er; [|done]. destruct (pack 4 _) as [n|] eqn:En; [|done].
  apply pack_some in En as [-> Hn]. intros [= <-]. exists key, raw. split; [done|]. split; [done|].
  split; [lia|]. split; [|done]. split; [|done]. constructor; try done. exists []. by rewrite app_nil_r.
Qed.

(** [close] ends the compressed stream and seals what is pending. *)
Lemma close_spec prefix key digest w w' sha cs ds :
  winv prefix key digest w cs ds -> close urandom w = Ok (w', sha) ->
  let ds' := ds ++ [lit "X"] in
  exists cs' dl body, frames key digest 0 (map (fun c => (c, false)) cs' ++ [(dl, true)]) = Some body /\
    w_out w' = prefix ++ body /\ Forall (fun c => blen c <= CHUNK) (cs' ++ [dl]) /\
    concat (cs' ++ [dl]) = snd (deflate compressobj ds') ++ compress_flush (fst (deflate compressobj ds')) /\
    w_entries w' = w_entries w /\ sha = hexdigest (sha256 (w_out w')).
Proof.
  intros Hw E ds'. unfold close in E. destruct (w_entry w); [done|].
  destruct (_plain _ _ _) as [w2|] eqn:E2; [|done]. cbn [res_bind] in E.
  eapply plain_spec in E2 as (cs2 & [Hw2 Hz2] & Hf2); [|done]. fold ds' in Hw2, Hz2.
  set (w3 := w2 {{ w_pending := w_pending w2 ++ compress_flush (w_zip w2) }}) in *.
  assert (Hw3 : sinv prefix key digest w3 cs2 (snd (deflate compressobj ds') ++ compress_flush (fst (deflate compressobj ds')))).
  { rewrite <- Hz2. destruct Hw2 as [? ? ? ? ? ? ? Hst]. rewrite <- Hst. subst w3. destruct w2. simpl in *.
    constructor; simpl; try done. by rewrite app_assoc. }
  assert (Ht : w_entries w3 = w_entries w).
  { subst w3. clear -Hf2. unfold entry_fields in Hf2. destruct w2, w. simpl in *. by simplify_eq. }
  clearbody w3. unfold seal in E. destruct (_seal _ _ true w3) as [w4|] eqn:E4; [|done]. cbn [res_bind] in E.
  eapply seal_true_spec in E4 as (cs' & dl & body & Ef & Eo & Ec & Hc & Eh & _ & He); [|done].
  exists cs', dl, body. injection E as <- <-. unfold entry_fields in He. rewrite <- Ht, Eh.
  destruct w4, w3. simpl in *. simplify_eq. by split_and!.
Qed.

Lemma write_archive_inv passphrase header salt es file sha ents :
  write_archive urandom passphrase header salt es = Ok (file, sha, ents) ->
  (exists key raw cs dl body, archive_file passphrase header salt es file key raw cs dl body) /\
  ents = foldl (entry_info Some) [] es /\ sha = hexdigest (sha256 file).
Proof.
  unfold write_archive. destruct (writer_init _ _ _) as [w|] eqn:Ei; [|done]. cbn [res_bind].
  apply writer_init_inv in Ei as (key & raw & Ek & Er & Hn4 & Hw & He).
  destruct (write_entries _ _ _) as [w1|] eqn:E1; [|done]. cbn [res_bind].
  eapply write_entries_spec in E1 as (cs1 & ds1 & Hw1 & Ec1 & Et1 & Hn & Hb & _); [|done]. rewrite He in Et1.
  destruct (close _ w1) as [[w2 sha']|] eqn:E2; [|done]. cbn [res_bind]. intros [= <- <- <-].
  eapply close_spec in E2 as (cs & dl & body & Ef & Eo & Hc & Ez & Et & Esha); [|done].
  split; [|by rewrite Et]. exists key, raw, cs, dl, body. constructor; try done.
  intros Hes. rewrite (zlib_stream (ds1 ++ [lit "X"])); [by rewrite concat_app, Ec1| |done].
  apply list.Forall_app. split; [by apply Hb|]. constructor; [apply lit_bytes|done].
Qed.

(** The infos agree: those of the reader are those the writer returned. *)
Lemma entry_info_map es : forall t,
  map (fun e => (Some (fst e), snd e)) (foldl (entry_info id) t es)
  = foldl (entry_info Some) (map (fun e => (Some (fst e), snd e)) t) es.
Proof.
  induction es as [|e es IH]; intros t; [done|]. cbn [foldl]. rewrite IH. f_equal. unfold entry_info, id.
  generalize (info_of (concat (snd e))), (fst e). clear. intros i k. induction t as [|[k' i'] t IH]; [done|]. simpl.
  destruct (decide (k' = k)) as [->|].
  - by rewrite !bool_decide_true.
  - rewrite !bool_decide_false by congruence. cbn [map fst snd]. by rewrite IH.
Qed.

(** ** Only the file that was written *)

Lemma aad_inj dg dg' i j l l' aad :
  length dg = length dg' -> _aad dg i l = Some aad -> _aad dg' j l' = Some aad -> dg = dg' /\ i = j /\ l = l'.
Proof.
  unfold _aad. intros L. destruct (pack 8 i) as [a|] eqn:Ei; [|done]. destruct (pack 8 j) as [b|] eqn:Ej; [|done].
  intros [= <-] [= E]. apply app_inj_1 in E as [-> E]; [|done].
  apply app_inj_1 in E as [-> E]; [|by rewrite (pack_length _ _ _ Ei), (pack_length _ _ _ Ej)].
  split; [done|]. split; [by eapply pack_inj|]. by destruct l, l'.
Qed.

(** The chunks stored in a file, without opening them: nonce, associated data
    and ciphertext. *)
Fixpoint raw_chunks (fuel : nat) (digest : list byte) (index : Z) (f : list byte)
    : list (list byte * list byte * list byte) :=
  match fuel, f with
  | S fuel', _ :: _ =>
      let '(head, f1) := fread 5 f in
      let '(nonce, f2) := fread 12 f1 in
      let '(ct, f3) := fread (unpack (take 4 head)) f2 in
      match _aad digest index (unpack (drop 4 head) =? 1) with
      | Some aad => (nonce, aad, ct) :: raw_chunks fuel' digest (index + 1) f3
      | None => []
      end
  | _, _ => []
  end.

(** The magic, the length and the header; the chunks. *)
Definition split_file (f : list byte) : list byte * list byte := fread (12 + unpack (take 4 (drop 8 f))) f.
Definition stored_chunks (f : list byte) : list (list byte * list byte * list byte) :=
  let '(prefix, body) := split_file f in raw_chunks (length body) (sha256 prefix) 0 body.

Lemma raw_chunks_step fuel digest i head nonce ct f aad :
  length head = 5%nat -> length nonce = 12%nat -> unpack (take 4 head) = blen ct ->
  _aad digest i (unpack (drop 4 head) =? 1) = Some aad ->
  raw_chunks (S fuel) digest i (head ++ nonce ++ ct ++ f) = (nonce, aad, ct) :: raw_chunks fuel digest (i + 1) f.
Proof.
  intros Lh Ln Eu Ea. transitivity (let '(h, f1) := fread 5 (head ++ nonce ++ ct ++ f) in
      let '(nonce, f2) := fread 12 f1 in
      let '(ct, f3) := fread (unpack (take 4 h)) f2 in
      match _aad digest i (unpack (drop 4 h) =? 1) with
      | Some aad => (nonce, aad, ct) :: raw_chunks fuel digest (i + 1) f3
      | None => []
      end); [by destruct head|].
  rewrite (fread_exact 5), (fread_exact 12), Eu, fread_exact, Ea by (unfold blen; lia). done.
Qed.

Lemma raw_chunks_frames fuel key digest i ds body x :
  frames key digest i ds = Some body -> x ∈ raw_chunks fuel digest i body ->
  exists j d last aad, ds !! j = Some (d, last) /\ _aad digest (i + Z.of_nat j) last = Some aad /\
    x = (urandom (i + Z.of_nat j), aad, aes_encrypt key (urandom (i + Z.of_nat j)) d aad).
Proof.
  revert fuel i body. induction ds as [|[d last] ds IH]; intros fuel i body E Hx; cbn [frames] in E.
  { simplify_eq. destruct fuel; by apply not_elem_of_nil in Hx. }
  destruct (frame _ _ _ _ _ _) as [f|] eqn:Ef; [|done]. destruct (frames _ _ (i + 1) ds) as [fs|] eqn:Es; simplify_eq.
  apply frame_inv in Ef as (aad & n & Ea & En & ->). rewrite <- !app_assoc in Hx.
  assert (Ln : length n = 4%nat) by by apply pack_length in En.
  assert (Eu : unpack n = blen (aes_encrypt key (urandom i) d aad)) by by apply unpack_pack in En.
  destruct fuel as [|fuel]; [by apply not_elem_of_nil in Hx|].
  rewrite (app_assoc n), (raw_chunks_step _ _ _ _ _ _ _ aad) in Hx; cycle 1.
  { rewrite length_app, Ln. done. }
  { done. }
  { by rewrite take_app_length'. }
  { rewrite drop_app_length' by done. by destruct last. }
  apply elem_of_cons in Hx as [->|Hx].
  - exists 0%nat, d, last, aad. simpl. by rewrite Z.add_0_r.
  - destruct (IH _ _ _ Es Hx) as (j & d' & l' & aad' & Ej & Ea' & ->).
    exists (S j), d', l', aad'. replace (i + Z.of_nat (S j)) with (i + 1 + Z.of_nat j) by lia. done.
Qed.

(** Flags are only on the last chunk. *)
Lemma last_flag (cs : list (list byte)) dl j d l :
  (map (fun c => (c, false)) cs ++ [(dl, true)]) !! j = Some (d, l) -> l = bool_decide (j = length cs) /\ (j <= length cs)%nat.
Proof.
  intros E. assert (Hj : (j < length (map (fun c => (c, false)) cs ++ [(dl, true)]))%nat) by (by eapply lookup_lt_Some).
  rewrite length_app, length_map in Hj. simpl in Hj. split; [|lia]. destruct (decide (j = length cs)) as [->|Hne].
  - rewrite bool_decide_true by done. rewrite lookup_app_r in E by (by rewrite length_map).
    rewrite length_map, Nat.sub_diag in E. by simplify_eq/=.
  - rewrite bool_decide_false by done. rewrite lookup_app_l in E by (rewrite length_map; lia).
    apply list_elem_of_lookup_2, list_elem_of_In, in_map_iff in E as (c & E & _). by simplify_eq.
Qed.

(** A chunk that opens and was sealed at index [j] is chunk [j]. *)
Lemma chunk_same key dg dg' i head nonce ct (final : bool) aad j d last :
  Forall is_byte head -> length dg = length dg' -> length head = 5%nat -> unpack (take 4 head) = blen ct ->
  unpack (drop 4 head) = (if final then 1 else 0) -> _aad dg' i final = Some aad ->
  _aad dg j last = Some aad -> nonce = urandom j -> ct = aes_encrypt key (urandom j) d aad ->
  dg' = dg /\ i = j /\ final = last /\ frame urandom key dg i final d = Some (head ++ nonce ++ ct).
Proof.
  intros Hh Hl L5 Eu Ef Ea' Ea -> Ect.
  destruct (aad_inj _ _ _ _ _ _ _ (eq_sym Hl) Ea' Ea) as (-> & -> & ->). do 3 (split; [done|]).
  rewrite <- (take_drop 4 head) in Hh. apply list.Forall_app in Hh as [Ht Hd].
  assert (L4 : length (take 4 head) = 4%nat) by (rewrite length_take; lia).
  destruct (be_unpack _ Ht) as [Et Ep]. pose proof (unpack_bound _ Ht) as Eb. rewrite L4, Eu in *.
  unfold frame. rewrite Ea, <- Ect, (pack_ok 4), Et by done. f_equal.
  assert (L1 : length (drop 4 head) = 1%nat) by (rewrite length_drop; lia).
  rewrite (app_assoc (take 4 head)). f_equal.
  replace [if last then 1 else 0] with (drop 4 head); [apply take_drop|]. rewrite <- Ef.
  by destruct (drop 4 head) as [|b [|? ?]].
Qed.

(** Chunks that all open, under whatever key, are the ones sealed, when what
    opens was sealed. *)
Lemma accepted_same key key' dg dg' cs dl f0 g pre i n :
  let ds := map (fun c => (c, false)) cs ++ [(dl, true)] in
  (forall pre nonce ct post i last aad d, f0 = pre ++ nonce ++ ct ++ post -> length nonce = 12%nat ->
     _aad dg' i last = Some aad -> aes_decrypt key' nonce ct aad = Some d ->
     exists j d' last, ds !! j = Some (d', last) /\ _aad dg (Z.of_nat j) last = Some aad /\
       nonce = urandom (Z.of_nat j) /\ ct = aes_encrypt key (urandom (Z.of_nat j)) d' aad) ->
  length dg = length dg' -> Forall is_byte f0 -> f0 = pre ++ g -> i = Z.of_nat n ->
  accepted key' dg' i g -> dg' = dg /\ frames key dg i (drop n ds) = Some g.
Proof.
  intros ds U Hl Hb Ef Ei Ha. revert pre n Ef Ei.
  assert (Step : forall i f plain final rest pre n, f0 = pre ++ f -> i = Z.of_nat n ->
    open_chunk key' dg' i f = Ok (plain, final, rest) ->
    dg' = dg /\ exists pre' fr d', f0 = pre' ++ rest /\ f = fr ++ rest /\ ds !! n = Some (d', final) /\
      frame urandom key dg i final d' = Some fr).
  { clear i g Ha. intros i f plain final rest pre n Ef -> E.
    apply open_chunk_inv in E as (head & nonce & ct & aad & -> & L5 & Eu & Efl & L12 & Ea & Ed).
    destruct (U (pre ++ head) nonce ct rest (Z.of_nat n) final aad plain) as (j & d & last & Ej & Eaj & En & Ec);
      [by rewrite Ef, !app_assoc|done|done|done|].
    assert (Hh : Forall is_byte head) by (rewrite Ef, !list.Forall_app in Hb; tauto).
    destruct (chunk_same key dg dg' (Z.of_nat n) head nonce ct final aad (Z.of_nat j) d last)
      as (-> & Eij & -> & Efr); try done. apply Nat2Z.inj in Eij as <-.
    split; [done|]. exists (pre ++ head ++ nonce ++ ct), (head ++ nonce ++ ct), d. rewrite <- !app_assoc. auto. }
  induction Ha as [i f plain E|i f plain rest E Ha IH]; intros pre n Ef Ei;
    destruct (Step _ _ _ _ _ _ _ Ef Ei E) as (Edg & pre' & fr & d & Epre & Efr & Eds & Efm); (split; [done|]).
  - rewrite (drop_S _ _ _ Eds). cbn [frames]. rewrite Efm.
    destruct (last_flag cs dl n d true Eds) as [El _]. symmetry in El. apply bool_decide_eq_true in El as ->.
    rewrite drop_ge by (unfold ds; rewrite length_app, length_map; simpl; lia). simpl. by rewrite Efr.
  - rewrite (drop_S _ _ _ Eds). cbn [frames]. rewrite Efm.
    destruct (IH pre' (S n) Epre) as [_ ->]; [lia|]. by rewrite Efr.
Qed.

Lemma text_entries_none fuel t hs x : snd t <> Some OutOfFuel -> text_entries fuel t hs = Ok x -> snd t = None.
Proof.
  revert t hs x. induction fuel as [|fuel IH]; intros t hs x Ht E; [done|]. cbn [text_entries] in E.
  destruct (shrinks_entry t Ht) as [_ Hs]. destruct (text_entry t) as [[[name|] t1]|] eqn:Et; [| |done];
    destruct (Hs _ _ eq_refl) as [E1 _]; cbn [res_bind] in E.
  - destruct (text_blocks _ _ t1) as [[[ds i] t2]|] eqn:Eb; [|done]. cbn [res_bind] in E.
    destruct (shrinks_blocks (S (length (fst t1))) (BlocksState [] 0) t1) as [_ Hs2]; [congruence|lia|].
    destruct (Hs2 _ _ Eb) as [E2 _].
    destruct (text_entries fuel t2 _) as [y|] eqn:Ee; [|done]. apply IH in Ee; congruence.
  - rewrite <- E1. unfold text_entry in Et. destruct (text_take 1 t) as [[tag t0]|]; [|done]. cbn [res_bind] in Et.
    destruct (bool_decide _).
    + destruct (fst t0); [|done]. destruct (snd t0) eqn:E0; [done|]. by simplify_eq.
    + destruct (bool_decide _); [|done]. destruct (text_take 2 t0) as [[raw t2]|]; [|done]. cbn [res_bind] in Et.
      destruct (text_take _ t2) as [[nm t3]|]; [|done]. cbn [res_bind] in Et. by destruct (utf8_decode nm).
Qed.

Lemma fread_full n f a b : fread n f = (a, b) -> blen a = n -> f = a ++ b /\ forall c, fread n (a ++ c) = (a, c).
Proof.
  intros E L. split; [by eapply fread_app|]. intros c. apply fread_exact. unfold blen in L. lia.
Qed.

Lemma split_prefix magic size raw rest :
  length magic = 8%nat -> length size = 4%nat -> unpack size = blen raw ->
  split_file ((magic ++ size ++ raw) ++ rest) = (magic ++ size ++ raw, rest).
Proof.
  intros Lm Ls Eu. unfold split_file. rewrite <- !app_assoc.
  rewrite drop_app_length', take_app_length', Eu by done. rewrite !app_assoc. apply fread_exact.
  rewrite !length_app. unfold blen. lia.
Qed.

Lemma read_header_split f header digest rest :
  read_header f = Ok (header, digest, rest) ->
  exists prefix, split_file f = (prefix, rest) /\ f = prefix ++ rest /\ digest = sha256 prefix.
Proof.
  unfold read_header. destruct (fread 8 f) as [magic f1] eqn:E1. destruct (bool_decide (magic = MAGIC)) eqn:B1; [|done].
  apply bool_decide_eq_true in B1 as ->. destruct (fread 4 f1) as [size f2] eqn:E2.
  destruct (blen size =? 4) eqn:B2; [|done]. destruct (negb (MAX_HEADER <? unpack size)); [|done].
  destruct (fread (unpack size) f2) as [raw f3] eqn:E3. destruct (blen raw =? unpack size) eqn:B3; [|done].
  destruct (utf8_decode raw); [|done]. destruct (json_loads _) as [[]|]; try done. case_match; [|done].
  intros [= <- <- <-]. exists (MAGIC ++ size ++ raw). bool_prop. unfold blen in B2.
  apply fread_app in E1 as ->, E2 as ->, E3 as ->. rewrite !app_assoc, <- (app_assoc MAGIC).
  split; [apply split_prefix; [done|lia|done]|done].
Qed.

Lemma archive_split passphrase header salt es file key raw cs dl body :
  archive_file passphrase header salt es file key raw cs dl body ->
  split_file file = (MAGIC ++ be_bytes 4 (blen raw) ++ raw, body).
Proof.
  intros []. subst file. apply split_prefix; [done|apply be_bytes_length|].
  apply unpack_be. pose proof (blen_nonneg raw). lia.
Qed.

(** C16: A backup file reads back: opening it with its passphrase yields the
    entries written, in order, cut into the writer's data records, with the
    sizes and digests the writer recorded; the returned digest is the file's.
    The header must parse back and fit the reader's limit. *)
Theorem archive_reads_back passphrase header salt es file sha ents key :
  NoDup (map fst header) -> Forall is_byte salt ->
  Forall (fun e => Forall (Forall is_byte) (snd e)) es ->
  derive_key passphrase salt (Z.shiftl 1 15) 8 1 = Some key ->
  json_loads (json_dumps (full_header header salt key)) = Some (canon (JObj (full_header header salt key))) ->
  (forall raw, utf8_encode (json_dumps (full_header header salt key)) = Some raw -> blen raw <= MAX_HEADER) ->
  write_archive urandom passphrase header salt es = Ok (file, sha, ents) ->
  exists r, read_file file passphrase = Ok (map entry_parts es, r) /\
    map (fun e => (Some (fst e), snd e)) (entry_hashes r) = ents /\ sha = hexdigest (sha256 file).
Proof.
  intros Hd Hsalt Hes Hk Hj Hl E.
  apply write_archive_inv in E as ((key' & raw & cs & dl & body & Ha) & -> & ->).
  destruct Ha as [Ek Er _ -> Ef Hc Hn Hz]. rewrite Hk in Ek. injection Ek as <-. pose proof (Hl raw Er) as Hraw.
  pose proof (canon_obj _ (full_header_NoDup header salt key Hd)) as (hd & Ehd & _ & _).
  destruct (unlock_full passphrase header salt key hd) as [Efmt Hu]; try done. rewrite Ehd in Hj.
  set (dg := sha256 (MAGIC ++ be_bytes 4 (blen raw) ++ raw)) in *.
  pose proof (read_all_parse body key dg) as Hp.
  assert (Hv : view (fresh body key dg) = (archive_text es, None)).
  { unfold view, unread, ending. cbn [r_plain r_buf r_pos fresh]. 
    rewrite (drained_frames key dg 0 decompressobj cs dl body (archive_text es)); auto. }
  rewrite Hv in Hp. unfold parse in Hp. cbn [fst] in Hp. rewrite text_entries_records in Hp; [|done|].
  2:{ unfold archive_text. rewrite length_app. simpl. clear. 
      assert (length es <= length (concat (map entry_text es)))%nat; [|lia].
      induction es as [|e es IH]; [done|]. cbn [map concat length]. rewrite length_app.
      assert (1 <= length (entry_text e))%nat by (unfold entry_text; rewrite !length_app; simpl; lia). lia. }
  destruct (read_all (fresh body key dg)) as [[es' r]|] eqn:Er'; [|done]. destruct Hp as [Hp1 Hp2]. simpl in Hp1, Hp2.
  exists r. split; [|split; [by rewrite Hp2, entry_info_map|done]].
  unfold read_file, reader_init. rewrite (read_header_prefix raw (json_dumps (full_header header salt key)) hd) by auto.
  cbn [res_bind]. rewrite Hu. cbn [res_bind]. fold dg. change (Reader _ [] 0 []) with (fresh body key dg).
  by rewrite Er', Hp1.
Qed.

(** C15: Nothing but the file that was written reads to its end.  If a file
    of bytes is read without an error, with any passphrase, then it is the
    written file, byte for byte - whatever was cut off, appended, exchanged or
    edited - when what opens in it was sealed by the writer (the cipher is not
    forged) and the two headers do not collide. *)
Theorem only_the_written_file passphrase header salt es file sha ents f passphrase' r0 x :
  write_archive urandom passphrase header salt es = Ok (file, sha, ents) ->
  Forall is_byte f -> reader_init f passphrase' = Ok r0 -> read_all r0 = Ok x ->
  (forall pre nonce ct post i last aad d, f = pre ++ nonce ++ ct ++ post -> length nonce = 12%nat ->
     _aad (sha256 (fst (split_file f))) i last = Some aad ->
     aes_decrypt (s_key (r_plain r0)) nonce ct aad = Some d -> (nonce, aad, ct) ∈ stored_chunks file) ->
  (sha256 (fst (split_file f)) = sha256 (fst (split_file file)) -> fst (split_file f) = fst (split_file file)) ->
  f = file.
Proof.
  intros Hw Hb Hi Hr Hu Hsha.
  apply write_archive_inv in Hw as ((key & raw & cs & dl & body & Ha) & _ & _).
  pose proof (archive_split _ _ _ _ _ _ _ _ _ _ Ha) as Hs. destruct Ha as [_ _ _ Efile Ef _ _ _].
  apply reader_init_fresh in Hi as (hd & dg & rest & key' & Eh & _ & ->).
  apply read_header_split in Eh as (prefix & Esp & Ef' & ->). rewrite Esp, Hs in Hsha. cbn [fst] in Hsha.
  pose proof (read_all_parse rest key' (sha256 prefix)) as Hp. rewrite Hr in Hp.
  destruct (parse _) as [y|] eqn:Ep; [|done]. clear Hp. apply text_entries_none in Ep; [|apply drained_no_fuel].
  apply drained_good in Ep. unfold good_end in Ep. cbn in Ep.
  unfold stored_chunks in Hu. rewrite Hs in Hu. cbn [s_key r_plain fresh] in Hu.
  destruct (accepted_same key key' (sha256 (MAGIC ++ be_bytes 4 (blen raw) ++ raw)) (sha256 prefix) cs dl f rest prefix 0 0)
    as [Edg Ebody]; try done.
  - intros pre nonce ct post i last0 aad d Epre L12 Ea0 Ed. rewrite Esp in Hu. specialize (Hu pre nonce ct post i last0 aad d Epre L12 Ea0 Ed).
    eapply raw_chunks_frames in Hu as (j & d' & last & aad' & Ej & Ea & [= -> -> ->]); [|done].
    rewrite Z.add_0_l in *. by exists j, d', last.
  - pose proof (sha256_length (MAGIC ++ be_bytes 4 (blen raw) ++ raw)). pose proof (sha256_length prefix). unfold blen in *. lia.
  - rewrite drop_0, Ef in Ebody. injection Ebody as <-. by rewrite Ef', Efile, Hsha.
Qed.

(** C17: Reading a file is parsing its plaintext: the buffered reader, which
    takes the data of the chunks as it needs them, yields the entries, the
    recorded sizes and digests, or the error of the specification on the whole
    plaintext and the error that follows it. *)
Theorem reader_parses f passphrase r :
  reader_init f passphrase = Ok r ->
  match read_file f passphrase, parse (view r) with
  | Ok (es, r'), Ok (es', hashes) => es = es' /\ entry_hashes r' = hashes
  | Raise e, Raise e' => e = e'
  | _, _ => False
  end.
Proof.
  intros Hi. unfold read_file. rewrite Hi. cbn [res_bind].
  apply reader_init_fresh in Hi as (hd & dg & rest & key & _ & _ & ->).
  pose proof (read_all_parse rest key dg) as Hp. destruct (read_all _) as [[es r']|], (parse _) as [[es' hs]|]; done.
Qed.

Lemma seal_fuel fuel final w : (length (w_pending w) < fuel)%nat -> _seal urandom fuel final w <> Raise WriteOutOfFuel.
Proof.
  revert w. induction fuel as [|fuel IH]; intros w Hf; [lia|]. cbn [_seal]. destruct ((CHUNK <=? _) || final) eqn:E; [|done].
  destruct (frame _ _ _ _ _ _); [|done]. set (last := _ && _). destruct last eqn:El; [done|]. apply IH.
  destruct w as [? ? ? ? ? pend ? ? ? ? ? ? ?]. cbn in *. pose proof CHUNK_pos. rewrite length_drop. apply orb_true_iff in E as [E|E].
  - bool_prop. unfold blen in *. lia.
  - subst last final. cbn [andb] in El. apply bool_decide_eq_false in El.
    assert (pend <> []) by (intros ->; by destruct (Z.to_nat CHUNK)).
    destruct pend; simpl in *; [done|]. lia.
Qed.

Lemma bind_wfuel {A B} (m : res write_error A) (k : A -> res write_error B) :
  m <> Raise WriteOutOfFuel -> (forall a, k a <> Raise WriteOutOfFuel) -> res_bind m k <> Raise WriteOutOfFuel.
Proof. destruct m; simpl; [auto|congruence]. Qed.

Lemma plain_fuel w data : _plain urandom w data <> Raise WriteOutOfFuel.
Proof. unfold _plain. destruct (compress _ _). case_match; [|done]. apply seal_fuel. lia. Qed.

Lemma write_archive_fuel passphrase header salt es : write_archive urandom passphrase header salt es <> Raise WriteOutOfFuel.
Proof.
  unfold write_archive. apply bind_wfuel; [unfold writer_init; repeat case_match; congruence|]. intros w.
  apply bind_wfuel; [|intros w1; apply bind_wfuel; [|by intros [w2 sha]]].
  - revert w. induction es as [|[name bs] es IH]; intros w; [done|]. cbn [write_entries].
    apply bind_wfuel; [|intros w1; apply bind_wfuel; [|intros w2; apply bind_wfuel; [|intros [w3 i]; apply IH]]].
    + unfold begin. repeat (case_match; try congruence). apply bind_wfuel; [apply plain_fuel|done].
    + revert w1. induction bs as [|b bs IHb]; intros w1; [done|]. cbn [write_blocks].
      apply bind_wfuel; [|apply IHb]. unfold write. destruct (w_entry w1); [|done]. clear. revert w1.
      induction (slices (length b) b) as [|p ps IHp]; intros w1; [done|]. cbn [write_parts].
      apply bind_wfuel; [|apply IHp]. unfold write_part. case_match; [|done]. apply bind_wfuel; [apply plain_fuel|done].
    + unfold end_. apply bind_wfuel; [apply plain_fuel|]. intros w3. by destruct (w_entry_hash w3).
  - unfold close. case_match; [done|]. apply bind_wfuel; [apply plain_fuel|]. intros w2.
    apply bind_wfuel; [apply seal_fuel; lia|done].
Qed.

(** Reading any file and writing any archive ends: neither runs out of
    fuel, so each returns a value or raises one of the code's exceptions, and
    the loops of [next], [_take], [_blocks], [entries] and [_seal] end. *)
Theorem container_ends passphrase header salt es f :
  read_file f passphrase <> Raise OutOfFuel /\ write_archive urandom passphrase header salt es <> Raise WriteOutOfFuel.
Proof.
  split; [|apply write_archive_fuel]. unfold read_file. destruct (reader_init f passphrase) as [r|e] eqn:Hi; cbn [res_bind].
  - apply reader_init_fresh in Hi as (hd & dg & rest & key & _ & _ & ->).
    pose proof (read_all_parse rest key dg) as Hp. destruct (read_all _) as [[es' r']|e]; [done|]. intros [= ->].
    destruct (parse _) as [|e'] eqn:Ep; [done|]. simpl in Hp. subst e'. revert Ep. apply text_entries_end; [|lia].
    apply drained_no_fuel.
  - intros [= ->]. unfold reader_init in Hi. revert Hi. apply bind_fuel; [apply read_header_fuel|].
    intros [[hd dg] rest]. apply bind_fuel; [apply unlock_fuel|done].
Qed.

(** ** Verification *)

Lemma text_blocks_info fuel b t ds i t1 : text_blocks fuel b t = Ok (ds, i, t1) ->
  i = Info (b_size b + blen (concat ds)) (hexdigest (sha256 (b_hash b ++ concat ds))).
Proof.
  revert b t ds i t1. induction fuel as [|fuel IH]; intros b t ds i t1 E; [done|]. cbn [text_blocks] in E.
  destruct (text_block b t) as [[[d b1] t2]|] eqn:Eb; [|done]. cbn [res_bind] in E.
  assert (Hb : match d with Some d => b1 = BlocksState (b_hash b ++ d) (b_size b + blen d) | None => b1 = b end).
  { unfold text_block in Eb. destruct (text_take 1 t) as [[tag t3]|]; [|done]. cbn [res_bind] in Eb.
    destruct (bool_decide _); [|destruct (bool_decide _); [by simplify_eq|done]].
    destruct (text_take 4 t3) as [[raw t4]|]; [|done]. cbn [res_bind] in Eb. destruct (negb _); [|done].
    destruct (text_take _ t4) as [[data t5]|]; [|done]. cbn [res_bind] in Eb. by simplify_eq. }
  destruct d as [d|]; subst b1.
  - destruct (text_blocks fuel _ t2) as [[[ds2 i2] t3]|] eqn:E2; [|done]. cbn [res_bind] in E. simplify_eq.
    apply IH in E2 as ->. cbn [b_size b_hash concat]. rewrite <- app_assoc. f_equal. unfold blen. rewrite length_app. lia.
  - simplify_eq. cbn [concat]. rewrite app_nil_r. f_equal. unfold blen. simpl. lia.
Qed.

Lemma text_entries_infos fuel t hs es hs' : text_entries fuel t hs = Ok (es, hs') -> hs' = foldl (entry_info id) hs es.
Proof.
  revert t hs es hs'. induction fuel as [|fuel IH]; intros t hs es hs' E; [done|]. cbn [text_entries] in E.
  destruct (text_entry t) as [[[name|] t1]|]; cbn [res_bind] in E; [| |done]; [|by simplify_eq].
  destruct (text_blocks _ _ t1) as [[[ds i] t2]|] eqn:Eb; [|done]. cbn [res_bind] in E.
  destruct (text_entries fuel t2 _) as [[es2 hs2]|] eqn:E2; [|done]. cbn [res_bind] in E. simplify_eq.
  apply IH in E2 as ->. apply text_blocks_info in Eb as ->. cbn [foldl]. f_equal.
Qed.

Lemma read_entry_blocks fuel limit name b out r bs r1 :
  read_entry_loop fuel limit name b out r = Ok (bs, r1) ->
  exists ds, blocks fuel name b r = Ok (ds, r1) /\ bs = out ++ concat ds.
Proof.
  revert b out r. induction fuel as [|fuel IH]; intros b out r E; [done|]. cbn [read_entry_loop blocks] in *.
  destruct (next_block name b r) as [[[[d|] b1] r2]|]; cbn [res_bind] in *; [| |done].
  - destruct (negb _); [|done]. apply IH in E as (ds & -> & ->).
    exists (d :: ds). cbn [res_bind concat]. by rewrite <- app_assoc.
  - simplify_eq. exists []. by rewrite app_nil_r.
Qed.

(** The loop of [verify_file] reads every entry; the manifest and the summary
    are the contents of the entries of that name. *)
Lemma verify_entries_spec fuel r m s n m' s' n' r1 :
  verify_entries fuel r m s n = Ok (m', s', n', r1) ->
  exists es, entries fuel r = Ok (es, r1) /\ n' = n + blen es /\
    (m' = m \/ exists ds, (lit "manifest.json", ds) ∈ es /\ loads_bytes (concat ds) = Ok m') /\
    (s' = s \/ exists ds, (lit "summary.json", ds) ∈ es /\ loads_bytes (concat ds) = Ok s').
Proof.
  revert r m s n. induction fuel as [|fuel IH]; intros r m s n E; [done|]. cbn [verify_entries entries] in *.
  destruct (next_entry r) as [[[name|] r2]|]; cbn [res_bind] in *; [| |done].
  2:{ simplify_eq. exists []. split; [done|]. split; [unfold blen; simpl; lia|]. auto. }
  assert (Hstep : forall ds r3 m1 s1, blocks (loop_fuel r2) name (BlocksState [] 0) r2 = Ok (ds, r3) ->
    verify_entries fuel r3 m1 s1 (n + 1) = Ok (m', s', n', r1) ->
    (m1 = m \/ name = lit "manifest.json" /\ loads_bytes (concat ds) = Ok m1) ->
    (s1 = s \/ name = lit "summary.json" /\ loads_bytes (concat ds) = Ok s1) ->
    exists es, (let! (ds, r2) := blocks (loop_fuel r2) name (BlocksState [] 0) r2 in
                let! (es, r3) := entries fuel r2 in Ok ((name, ds) :: es, r3)) = Ok (es, r1) /\ n' = n + blen es /\
      (m' = m \/ exists ds, (lit "manifest.json", ds) ∈ es /\ loads_bytes (concat ds) = Ok m') /\
      (s' = s \/ exists ds, (lit "summary.json", ds) ∈ es /\ loads_bytes (concat ds) = Ok s')).
  { intros ds r3 m1 s1 -> Ev Hm Hs. apply IH in Ev as (es & Ee & -> & Hm' & Hs'). cbn [res_bind]. rewrite Ee.
    cbn [res_bind]. exists ((name, ds) :: es). split; [done|]. split; [unfold blen; simpl; lia|].
    split; [destruct Hm' as [->|(d & ? & ?)]; [destruct Hm as [|[-> ?]]|]|destruct Hs' as [->|(d & ? & ?)]; [destruct Hs as [|[-> ?]]|]];
      try (by left); right; eexists; (split; [|done]); by constructor. }
  destruct (bool_decide (name = lit "manifest.json")) eqn:Em; [|destruct (bool_decide (name = lit "summary.json")) eqn:Es].
  - destruct (read_entry _ _ _) as [[bs r3]|] eqn:Er; [|done]. cbn [res_bind] in E.
    apply read_entry_blocks in Er as (ds & Eb & ->). simpl in E. destruct (loads_bytes (concat ds)) as [v|] eqn:El; [|done].
    cbn [res_bind] in E. bool_prop. eapply Hstep; eauto.
  - destruct (read_entry _ _ _) as [[bs r3]|] eqn:Er; [|done]. cbn [res_bind] in E.
    apply read_entry_blocks in Er as (ds & Eb & ->). simpl in E. destruct (loads_bytes (concat ds)) as [v|] eqn:El; [|done].
    cbn [res_bind] in E. bool_prop. eapply Hstep; eauto.
  - destruct (blocks _ _ _ r2) as [[ds r3]|] eqn:Eb; [|done]. cbn [res_bind] in E. 
    eapply Hstep; [done|exact E|by left|by left].
Qed.

Lemma check_infos_ok hashes expected : check_infos hashes expected = Ok tt ->
  forall k v, (k, v) ∈ expected -> info_matches (dict_get hashes (map ord k)) v = true.
Proof.
  induction expected as [|[k' v'] rest IH]; cbn [check_infos]; intros E k v Hk; [by apply not_elem_of_nil in Hk|].
  destruct (info_matches _ v') eqn:Ei; [|done]. apply elem_of_cons in Hk as [[= -> ->]|Hk]; [done|by apply IH].
Qed.

(** [entries[k]] for every entry read: the last of a name wins. *)
Definition recorded (es : list (ustr * list (list byte))) : list (ustr * info) := foldl (entry_info id) [] es.

Lemma read_all_recorded f key digest es r :
  read_all (fresh f key digest) = Ok (es, r) -> entry_hashes r = recorded es.
Proof.
  intros E. pose proof (read_all_parse f key digest) as Hp. rewrite E in Hp.
  destruct (parse _) as [[es' hs]|] eqn:Ep; [|done]. destruct Hp as [Hp1 Hp2]. simpl in Hp1, Hp2. subst.
  by apply text_entries_infos in Ep.
Qed.

Lemma dict_get_set {K V} `{EqDecision K} (o : list (K * V)) k v k' :
  dict_get (dict_set o k v) k' = if bool_decide (k = k') then Some v else dict_get o k'.
Proof.
  induction o as [|[k1 v1] o IH]; simpl; [done|]. destruct (decide (k1 = k)) as [->|].
  - rewrite bool_decide_true by done. simpl. by destruct (bool_decide (k = k')).
  - rewrite bool_decide_false by done. simpl. rewrite IH. destruct (decide (k1 = k')) as [->|].
    + by rewrite bool_decide_true, bool_decide_false by done.
    + by rewrite bool_decide_false by done.
Qed.

Lemma recorded_other es : forall t k, k ∉ map fst es -> dict_get (foldl (entry_info id) t es) k = dict_get t k.
Proof.
  induction es as [|e es IH]; intros t k Hk; [done|]. cbn [map] in Hk. apply not_elem_of_cons in Hk as [H1 H2].
  cbn [foldl]. rewrite IH by done. unfold entry_info, id. by rewrite dict_get_set, bool_decide_false.
Qed.

(** What was recorded under a name is of the last entry read with it. *)
Definition last_entry (es : list (ustr * list (list byte))) (k : ustr) (d : list byte) : Prop :=
  exists before ds after, es = before ++ (k, ds) :: after /\ k ∉ map fst after /\ d = concat ds.

Lemma recorded_spec es k :
  match dict_get (recorded es) k with
  | Some i => exists d, last_entry es k d /\ i = info_of d
  | None => k ∉ map fst es
  end.
Proof.
  destruct (decide (k ∈ map fst es)) as [Hin|Hout]; [|by unfold recorded; rewrite recorded_other].
  cut (exists before ds after, es = before ++ (k, ds) :: after /\ k ∉ map fst after).
  { intros (pre & ds & post & -> & Hn). unfold recorded. rewrite foldl_app. cbn [foldl].
    rewrite recorded_other by done. unfold entry_info, id. rewrite dict_get_set, bool_decide_true by done.
    exists (concat ds). split; [|done]. by exists pre, ds, post. }
  clear -Hin. induction es as [|[k' ds] es IH]; [by apply not_elem_of_nil in Hin|].
  destruct (decide (k ∈ map fst es)) as [Hk|Hk].
  - destruct (IH Hk) as (pre & ds' & post & -> & Hn). by exists ((k', ds) :: pre), ds', post.
  - apply elem_of_cons in Hin as [E|Hin]; [|done]. simpl in E. subst. by exists [], ds, es.
Qed.

(** The summary's value of an entry that was read: an object of the two
    fields that record the content's size and digest. *)
Definition records (v : json) (d : list byte) : Prop :=
  exists o, v = JObj o /\ length o = 2%nat /\ has_key o (py "size") = true /\ has_key o (py "sha256") = true
    /\ eq_int (get o (py "size")) (blen d) = true /\ get o (py "sha256") = JStr (hexdigest (sha256 d)).

Lemma info_matches_spec es k v :
  info_matches (dict_get (recorded es) k) v = true ->
  (exists d, last_entry es k d /\ records v d) \/ (v = JNull /\ k ∉ map fst es).
Proof.
  pose proof (recorded_spec es k) as Hrec. destruct (dict_get _ _) as [i|]; simpl; intros E.
  - left. destruct Hrec as (d & Hd & ->). exists d. split; [done|]. destruct v as [| | | | | |o]; try done.
    bool_prop. exists o.
    split_and!; [done|by apply Nat.eqb_eq|done..|]. destruct (get o (py "sha256")); try done.
    simpl in *. bool_prop. congruence.
  - right. split; [by destruct v|done].
Qed.

(** C19: What a backup that passes [verify_file] was found to hold: every
    entry was read, the returned manifest is the content of manifest.json, and
    for every name the summary lists either the last entry read with that
    name has the size and the SHA-256 digest the summary records for it, or
    the summary's value for the name is null and no entry of that name was
    read; and every table of the manifest is listed in the summary. *)
Theorem verify_sound f passphrase n manifest :
  verify_file f passphrase = Ok (n, manifest) ->
  exists es r, read_file f passphrase = Ok (es, r) /\ n = blen es /\
    (exists ds, (lit "manifest.json", ds) ∈ es /\ loads_bytes (concat ds) = Ok manifest) /\
    exists ds s expected, (lit "summary.json", ds) ∈ es /\ loads_bytes (concat ds) = Ok (JObj s) /\
      or_json (get s (py "entries")) (JObj []) = JObj expected /\
      (forall k v, (k, v) ∈ expected ->
         (exists d, last_entry es (map ord k) d /\ records v d) \/ (v = JNull /\ map ord k ∉ map fst es)) /\
      (forall m names t, manifest = JObj m -> has_key m (py "tables") = true ->
         table_names (get m (py "tables")) = Ok names -> t ∈ names -> has_key expected (table_entry t) = true).
Proof.
  unfold verify_file, read_file. destruct (reader_init f passphrase) as [r0|] eqn:Hi; [|done]. cbn [res_bind].
  destruct (verify_entries _ r0 _ _ _) as [[[[m s] n'] r]|] eqn:Ev; [|done]. cbn [res_bind].
  apply verify_entries_spec in Ev as (es & Ee & -> & Hm & Hs). fold (read_all r0) in Ee.
  destruct (negb _) eqn:En; [|done]. apply negb_true_iff, orb_false_iff in En as [Nm Ns].
  destruct Hm as [->|Hm]; [done|]. destruct Hs as [->|(ds & Hds & Hs)]; [done|].
  destruct s as [| | | | | |s]; try done. destruct (or_json _ _) as [| | | | | |expected] eqn:Eo; try done.
  apply reader_init_fresh in Hi as (hd & dg & rest & key & _ & _ & ->).
  pose proof (read_all_recorded _ _ _ _ _ Ee) as Eh.
  destruct (check_infos _ _) as [[]|] eqn:Ec; [|done]. cbn [res_bind]. rewrite Eh in Ec.
  destruct m as [| | | | | |m]; try done. intros E. exists es, r. split; [done|].
  destruct (if has_key m (py "tables") then _ else _) as [names|] eqn:Et; [|done]. cbn [res_bind] in E.
  destruct (bool_decide _) eqn:Eb; [|done]. injection E as <- <-. apply bool_decide_eq_true in Eb.
  split; [lia|]. split; [done|]. exists ds, s, expected. do 3 (split; [done|]). split; [intros k v Hkv; by apply info_matches_spec, (check_infos_ok _ expected)|].
  intros m' names' t [= <-] Hk En Ht. rewrite Hk, En in Et. injection Et as <-.
  destruct (has_key expected (table_entry t)) eqn:Eh2; [done|].
  apply filter_is_nil with (y := table_entry t) in Eb; [by rewrite Eh2 in Eb|].
  apply list_elem_of_In, in_map_iff. exists t. split; [done|]. by apply list_elem_of_In.
Qed.

(** A header that is not an object, and one whose scrypt cost is infinite,
    raise what the callers do not catch. *)
Lemma header_not_object text v raw rest :
  utf8_encode text = Some raw -> json_loads text = Some (JList v) -> blen raw <= MAX_HEADER ->
  read_header ((MAGIC ++ be_bytes 4 (blen raw) ++ raw) ++ rest) = Raise AttributeError.
Proof.
  intros Hr Hj Hl. unfold read_header. rewrite <- !app_assoc. rewrite fread_exact by done.
  rewrite bool_decide_true by done. rewrite fread_exact by (by rewrite be_bytes_length).
  rewrite unpack_be by (pose proof (blen_nonneg raw); assert (MAX_HEADER < 256 ^ Z.of_nat 4) by done; lia).
  rewrite fread_exact by (unfold blen; lia). unfold blen at 1. rewrite be_bytes_length. simpl (_ =? 4). cbv iota.
  rewrite (proj2 (Z.ltb_ge _ _) Hl). rewrite Z.eqb_refl. simpl negb. cbv iota.
  apply utf8_decode_encode in Hr as [-> _]. by rewrite Hj.
Qed.

Lemma header_overflow passphrase :
  unlock [(py "kdf", JObj [(py "salt", JStr []); (py "n", JFloat (FInf false))])] passphrase = Raise OverflowError.
Proof. reflexivity. Qed.

(** ** A backup passes its own check *)

Lemma dict_set_new {K V} `{EqDecision K} (o : list (K * V)) k v : k ∉ map fst o -> dict_set o k v = o ++ [(k, v)].
Proof.
  induction o as [|[k1 v1] o IH]; intros Hk; [done|]. cbn [map fst] in Hk. apply not_elem_of_cons in Hk as [H1 H2].
  cbn [dict_set]. rewrite bool_decide_false by done. by rewrite IH.
Qed.

(** With distinct names every entry has its own record. *)
Lemma recorded_get es e : NoDup (map fst es) -> e ∈ es -> dict_get (recorded es) (fst e) = Some (info_of (concat (snd e))).
Proof.
  unfold recorded. generalize (@nil (list Z * info)). induction es as [|e' es IH]; intros t Hd He; [by apply not_elem_of_nil in He|].
  cbn [map] in Hd. apply list.NoDup_cons in Hd as [Hn Hd]. cbn [foldl]. apply elem_of_cons in He as [->|He]; [|by apply IH].
  rewrite recorded_other by done. unfold entry_info, id. by rewrite dict_get_set, bool_decide_true.
Qed.

Lemma entries_table es : forall t, NoDup (map fst es) -> (forall k, k ∈ map fst es -> Some k ∉ map fst t) ->
  foldl (entry_info Some) t es = t ++ map (fun e => (Some (fst e), info_of (concat (snd e)))) es.
Proof.
  induction es as [|e es IH]; intros t Hd Hf; [by rewrite app_nil_r|].
  cbn [map] in Hd. apply list.NoDup_cons in Hd as [Hn Hd]. cbn [foldl map].
  unfold entry_info at 2. rewrite dict_set_new by (apply Hf; by left). rewrite IH; [by rewrite <- app_assoc|done|].
  intros k Hk. rewrite map_app, elem_of_app. cbn [map fst]. intros [Hin|Hin].
  - apply (Hf k); [by right|done].
  - apply list_elem_of_singleton in Hin. by injection Hin as ->.
Qed.

Lemma recorded_parts es : recorded (map entry_parts es) = recorded es.
Proof.
  unfold recorded. generalize (@nil (list Z * info)). induction es as [|e es IH]; intros t; [done|]. cbn [map foldl].
  rewrite IH. f_equal. unfold entry_info, entry_parts. cbn [fst snd]. by rewrite parts_concat.
Qed.

Lemma map_fst_parts es : map fst (map entry_parts es) = map fst es.
Proof. rewrite map_map. by apply map_ext. Qed.

Lemma blocks_read_entry fuel limit name b out r ds r1 :
  blocks fuel name b r = Ok (ds, r1) -> blen (out ++ concat ds) <= limit ->
  read_entry_loop fuel limit name b out r = Ok (out ++ concat ds, r1).
Proof.
  revert b out r ds r1. induction fuel as [|fuel IH]; intros b out r ds r1 E Hl; [done|]. cbn [read_entry_loop blocks] in *.
  destruct (next_block name b r) as [[[[d|] b1] r2]|]; cbn [res_bind] in *; [| |done].
  - destruct (blocks fuel name b1 r2) as [[ds2 r3]|] eqn:E2; [|done]. cbn [res_bind] in E. simplify_eq. cbn [concat] in *.
    rewrite app_assoc in Hl. rewrite (proj2 (Z.ltb_ge _ _)) by (unfold blen in *; rewrite length_app in Hl; lia).
    simpl negb. cbv iota. rewrite (IH _ _ _ _ _ E2) by done. by rewrite <- app_assoc.
  - simplify_eq. cbn [concat]. by rewrite app_nil_r.
Qed.

(** The last content of the entries of a name. *)
Definition pick (name : ustr) (v : json) (e : ustr * list (list byte)) : json :=
  if bool_decide (fst e = name) then match loads_bytes (concat (snd e)) with Ok v' => v' | Raise _ => v end else v.

Lemma pick_other name es : forall v, name ∉ map fst es -> foldl (pick name) v es = v.
Proof.
  induction es as [|e es IH]; intros v Hn; [done|]. cbn [map] in Hn. apply not_elem_of_cons in Hn as [H1 H2].
  cbn [foldl]. unfold pick at 2. rewrite bool_decide_false by done. auto.
Qed.

(** The manifest and the summary must be small enough and parse. *)
Definition verifiable (e : ustr * list (list byte)) : Prop :=
  fst e = lit "manifest.json" \/ fst e = lit "summary.json" ->
  blen (concat (snd e)) <= ENTRY_LIMIT /\ exists v, loads_bytes (concat (snd e)) = Ok v.

Lemma verify_entries_complete fuel r m s n es r1 :
  entries fuel r = Ok (es, r1) -> Forall verifiable es ->
  verify_entries fuel r m s n
  = Ok (foldl (pick (lit "manifest.json")) m es, foldl (pick (lit "summary.json")) s es, n + blen es, r1).
Proof.
  revert r m s n es r1. induction fuel as [|fuel IH]; intros r m s n es r1 E Hv; [done|]. cbn [verify_entries entries] in *.
  destruct (next_entry r) as [[[name|] r2]|]; cbn [res_bind] in *; [| |done].
  2:{ simplify_eq. unfold blen. simpl. by rewrite Z.add_0_r. }
  destruct (blocks _ _ _ r2) as [[ds r3]|] eqn:Eb; [|done]. cbn [res_bind] in E.
  destruct (entries fuel r3) as [[es2 r4]|] eqn:E2; [|done]. cbn [res_bind] in E. simplify_eq.
  apply list.Forall_cons in Hv as [Hv Hvs]. unfold verifiable in Hv. cbn [fst snd] in Hv.
  assert (En : n + blen ((name, ds) :: es2) = n + 1 + blen es2) by (unfold blen; simpl; lia). rewrite En.
  cbn [foldl]. unfold pick at 2 4. cbn [fst snd]. unfold read_entry.
  destruct (bool_decide (name = lit "manifest.json")) eqn:B1; [|destruct (bool_decide (name = lit "summary.json")) eqn:B2].
  - bool_prop. subst name. destruct Hv as [Hl [v Ev]]; [by left|].
    rewrite (blocks_read_entry _ _ _ _ [] _ _ _ Eb) by done. cbn [res_bind app]. rewrite Ev. cbn [res_bind].
    rewrite bool_decide_false by done. by apply IH.
  - bool_prop. subst name. destruct Hv as [Hl [v Ev]]; [by right|].
    rewrite (blocks_read_entry _ _ _ _ [] _ _ _ Eb) by done. cbn [res_bind app]. rewrite Ev. cbn [res_bind]. by apply IH.
  - cbn [res_bind]. by apply IH.
Qed.

Lemma write_entries_app es es' : forall w w1,
  write_entries urandom w es = Ok w1 -> write_entries urandom w (es ++ es') = write_entries urandom w1 es'.
Proof.
  induction es as [|[name bs] es IH]; intros w w1 E; cbn [write_entries app] in *; [by simplify_eq|].
  destruct (begin _ _ _) as [a|]; [|done]. cbn [res_bind] in *. destruct (write_blocks _ _ _) as [b|]; [|done].
  cbn [res_bind] in *. destruct (end_ _ _) as [[c i]|]; [|done]. cbn [res_bind] in *. by apply IH.
Qed.

(** [w.add] is an entry of one block. *)
Lemma add_entry w name data :
  write_entries urandom w [(name, [data])] = let! (w1, _) := add urandom w name data in Ok w1.
Proof.
  unfold add. cbn [write_entries write_blocks]. destruct (begin _ w name) as [w1|]; [|done]. cbn [res_bind].
  destruct (write _ w1 data) as [w2|]; [|done]. cbn [res_bind]. by destruct (end_ _ w2) as [[w3 i]|].
Qed.

(** The table of the entries of a backup, as the summary lists it. *)
Definition summary_infos (es : list (pystr * list (list byte))) : list (pystr * json) :=
  map (fun e => (fst e, info_json (info_of (concat (snd e))))) es.

Lemma map_chr_ord s : map chr (map ord s) = s.
Proof.
  induction s as [|c s IH]; [done|]. cbn [map]. rewrite IH. f_equal. apply ord_inj, ord_chr, ord_range.
Qed.

Lemma map_ord_inj s t : map ord s = map ord t -> s = t.
Proof. intros E. by rewrite <- (map_chr_ord s), E, map_chr_ord. Qed.

Lemma summary_infos_table es : NoDup (map fst (named es)) ->
  entries_json (foldl (entry_info Some) [] (named es)) = summary_infos es.
Proof.
  intros Hd. rewrite entries_table; [|done|intros k _; apply not_elem_of_nil]. cbn [app]. unfold entries_json, named, summary_infos.
  rewrite !map_map. apply map_ext. intros e. cbn [fst snd]. by rewrite map_chr_ord.
Qed.

Lemma info_matches_json i : info_matches (Some i) (info_json i) = true.
Proof.
  unfold info_matches, info_json. cbn [length Nat.eqb].
  change (eq_int (JInt (i_size i)) (i_size i) && eq_str (JStr (i_sha256 i)) (i_sha256 i) = true).
  simpl. by rewrite Z.eqb_refl, bool_decide_true.
Qed.

Lemma check_infos_summary hashes es :
  (forall e, e ∈ es -> dict_get hashes (map ord (fst e)) = Some (info_of (concat (snd e)))) ->
  check_infos hashes (summary_infos es) = Ok tt.
Proof.
  induction es as [|e es IH]; intros Hh; [done|]. unfold summary_infos. cbn [map check_infos].
  rewrite (Hh e) by by left. rewrite info_matches_json. apply IH. intros e' He'. apply Hh. by right.
Qed.

Lemma loads_dumps ascii o bs :
  dumps_bytes ascii o = Ok bs -> json_loads (json_text ascii o) = Some (JObj o) -> loads_bytes bs = Ok (JObj o).
Proof.
  unfold dumps_bytes, loads_bytes. destruct (utf8_encode _) as [x|] eqn:E; [|done]. intros [= ->] Hj.
  apply utf8_decode_encode in E as [-> _]. by rewrite Hj.
Qed.

Lemma dumps_bytes_range ascii o bs : dumps_bytes ascii o = Ok bs -> Forall is_byte bs.
Proof.
  unfold dumps_bytes. destruct (utf8_encode _) as [x|] eqn:E; [|done]. intros [= ->]. by apply utf8_decode_encode in E as [_ ?].
Qed.

(** What [write_backup] writes is an archive. *)
Lemma write_backup_archive passphrase header salt manifest secret tables files file sha :
  write_backup urandom passphrase header salt manifest secret tables files = Ok (file, sha) ->
  exists m sum ents, dumps_bytes false manifest = Ok m /\
    let es := named (backup_entries m secret tables files) in
    dumps_bytes true [(py "entries", JObj (summary_infos (backup_entries m secret tables files)))] = Ok sum /\
    NoDup (map fst (es ++ [(lit "summary.json", [sum])])) /\
    write_archive urandom passphrase header salt (es ++ [(lit "summary.json", [sum])]) = Ok (file, sha, ents).
Proof.
  unfold write_backup, write_archive. destruct (writer_init _ _ _) as [w|] eqn:Ei; [|done]. cbn [res_bind].
  apply writer_init_inv in Ei as (key & raw & Ek & Er & Hn4 & Hw & He).
  destruct (dumps_bytes false manifest) as [m|] eqn:Em; [|done]. cbn [res_bind].
  set (es := named (backup_entries m secret tables files)).
  destruct (write_entries _ w es) as [w1|] eqn:E1; [|done]. cbn [res_bind].
  destruct (dumps_bytes true _) as [sum|] eqn:Es; [|done]. cbn [res_bind].
  destruct (write_entries _ w1 _) as [w2|] eqn:E2; [|done]. cbn [res_bind].
  pose proof (write_entries_app es [(lit "summary.json", [sum])] w w1 E1) as E12. rewrite E2 in E12.
  pose proof (write_entries_spec _ _ _ _ _ _ _ _ Hw E12) as (? & ? & _ & _ & _ & _ & _ & Hd & _).
  pose proof (write_entries_spec _ _ _ _ _ _ _ _ Hw E1) as (? & ? & _ & _ & Et & _ & _ & Hd1 & _).
  destruct (close _ w2) as [[w3 sha']|] eqn:Ec; [|done]. cbn [res_bind]. intros [= <- <-].
  exists m, sum, (w_entries w3). split; [done|]. rewrite Et, He in Es. subst es. rewrite summary_infos_table in Es by done.
  split; [done|]. split; [done|]. rewrite E12. cbn [res_bind]. by rewrite Ec.
Qed.

Lemma backup_entries_bytes m secret tables files :
  Forall is_byte m -> Forall is_byte secret -> Forall (fun t => Forall (Forall is_byte) (snd t)) tables ->
  Forall (fun f => Forall is_byte (snd f)) files ->
  Forall (fun e => Forall (Forall is_byte) (snd e)) (named (backup_entries m secret tables files)).
Proof.
  intros Hm Hs Ht Hf. unfold named. apply List.Forall_map. unfold backup_entries. cbn [snd].
  constructor; [by repeat constructor|]. constructor; [by repeat constructor|]. apply list.Forall_app.
  split; apply List.Forall_map; eapply list.Forall_impl; try done. intros f Hf'. by repeat constructor.
Qed.

Lemma table_has_key m secret tables files t :
  t ∈ map fst tables -> has_key (summary_infos (backup_entries m secret tables files)) (table_entry t) = true.
Proof.
  intros Ht. apply has_key_spec. unfold summary_infos. rewrite map_map. cbn [fst].
  apply list_elem_of_In, in_map_iff in Ht as ([t' bs] & <- & Ht). unfold backup_entries. cbn [map fst].
  apply elem_of_cons; right. apply elem_of_cons; right. rewrite map_app, map_map. cbn [fst]. apply elem_of_app. left.
  apply list_elem_of_In, in_map_iff. by exists (t', bs).
Qed.

Lemma pick_unique name es1 e es2 v v' :
  name ∉ map fst es2 -> fst e = name -> loads_bytes (concat (snd e)) = Ok v' ->
  foldl (pick name) v (es1 ++ e :: es2) = v'.
Proof.
  intros Hn He Hv. rewrite foldl_app. cbn [foldl]. rewrite pick_other by done. unfold pick. by rewrite bool_decide_true, Hv.
Qed.

Lemma unique_entry {A B} (l : list (A * B)) a b : NoDup (map fst l) -> a ∈ l -> b ∈ l -> fst a = fst b -> a = b.
Proof.
  induction l as [|x l IH]; intros Hd Ha Hb E; [by apply not_elem_of_nil in Ha|].
  cbn [map] in Hd. apply list.NoDup_cons in Hd as [Hn Hd].
  assert (Hin : forall y, y ∈ l -> fst y ∈ map fst l)
    by (intros y Hy; apply list_elem_of_In, in_map; by apply list_elem_of_In).
  apply elem_of_cons in Ha as [->|Ha], Hb as [->|Hb]; try done; [| |by apply IH]; exfalso; apply Hn.
  - rewrite E. auto.
  - rewrite <- E. auto.
Qed.

Lemma parts_one b : concat (parts_of [b]) = b.
Proof. rewrite parts_concat. cbn [concat]. apply app_nil_r. Qed.

(** [open_manifest] of a file whose first entry is its manifest. *)
Lemma open_manifest_first f passphrase ds es r v :
  read_file f passphrase = Ok ((lit "manifest.json", ds) :: es, r) -> blen (concat ds) <= ENTRY_LIMIT ->
  loads_bytes (concat ds) = Ok v -> open_manifest f passphrase = Ok v.
Proof.
  unfold read_file, open_manifest. destruct (reader_init f passphrase) as [r0|]; [|done]. cbn [res_bind].
  unfold read_all, loop_fuel. cbn [entries]. destruct (next_entry r0) as [[[name|] r1]|]; [|done|done].
  cbn [res_bind]. destruct (blocks _ _ _ r1) as [[ds1 r2]|] eqn:Eb; [|done]. cbn [res_bind].
  destruct (entries _ r2) as [[es2 r3]|]; [|done]. cbn [res_bind]. intros [= -> -> -> ->] Hl Hv.
  rewrite bool_decide_true by done. unfold read_entry. rewrite (blocks_read_entry _ _ _ _ [] _ _ _ Eb) by done.
  cbn [res_bind app]. by rewrite Hv.
Qed.

(** C18: A backup passes the check made right after it is written:
    [verify_file] on what [write_backup] wrote returns its manifest and counts
    all its entries - the manifest, the key, the tables, the files and the
    summary - and [open_manifest] returns the manifest, when the JSON texts parse back, the header fits the reader's
    limit and the manifest and the summary fit [read_entry]'s. *)
Theorem written_backup_verifies passphrase header salt manifest secret tables files file sha key tb m sum :
  NoDup (map fst header) -> Forall is_byte salt -> Forall is_byte secret ->
  Forall (fun t => Forall (Forall is_byte) (snd t)) tables -> Forall (fun f => Forall is_byte (snd f)) files ->
  derive_key passphrase salt (Z.shiftl 1 15) 8 1 = Some key ->
  json_loads (json_dumps (full_header header salt key)) = Some (canon (JObj (full_header header salt key))) ->
  (forall raw, utf8_encode (json_dumps (full_header header salt key)) = Some raw -> blen raw <= MAX_HEADER) ->
  json_loads (json_text false manifest) = Some (JObj manifest) ->
  get manifest (py "tables") = JObj tb -> (forall t, t ∈ map fst tb -> t ∈ map fst tables) ->
  dumps_bytes false manifest = Ok m -> blen m <= ENTRY_LIMIT ->
  (let summary := [(py "entries", JObj (summary_infos (backup_entries m secret tables files)))] in
   json_loads (json_text true summary) = Some (JObj summary) /\ dumps_bytes true summary = Ok sum) ->
  blen sum <= ENTRY_LIMIT ->
  write_backup urandom passphrase header salt manifest secret tables files = Ok (file, sha) ->
  verify_file file passphrase = Ok (3 + blen tables + blen files, JObj manifest) /\
  open_manifest file passphrase = Ok (JObj manifest).
Proof.
  intros Hd Hsalt Hsec Htab Hfil Hk Hj Hl Hjm Htb Hsub Hm Hml [Hjs Hsum] Hsl E.
  apply write_backup_archive in E as (m' & sum' & ents & Em & Es & Hnd & Ew).
  rewrite Hm in Em. injection Em as <-. rewrite Hsum in Es. injection Es as <-.
  set (be := backup_entries m secret tables files) in *.
  assert (Hb : Forall (fun e => Forall (Forall is_byte) (snd e)) (named be ++ [(lit "summary.json", [sum])])).
  { apply list.Forall_app. split; [apply backup_entries_bytes; try done; by eapply dumps_bytes_range|].
    constructor; [|done]. constructor; [by eapply dumps_bytes_range|done]. }
  destruct (archive_reads_back passphrase header salt _ file sha ents key Hd Hsalt Hb Hk Hj Hl Ew) as (r & Er & _ & _).
  set (es := named be ++ [(lit "summary.json", [sum])]) in *.
  pose proof (loads_dumps _ _ _ Hm Hjm) as Lm. pose proof (loads_dumps _ _ _ Hsum Hjs) as Ls.
  assert (Hd2 : NoDup (map fst (map entry_parts es))) by by rewrite map_fst_parts.
  assert (Ees : map entry_parts es = map entry_parts (named be) ++ [entry_parts (lit "summary.json", [sum])])
    by (unfold es; by rewrite map_app).
  assert (Ebe : map entry_parts (named be) = entry_parts (lit "manifest.json", [m]) :: tail (map entry_parts (named be))) by done.
  assert (Em : foldl (pick (lit "manifest.json")) JNull (map entry_parts es) = JObj manifest).
  { rewrite Ees, Ebe in *. cbn [app map] in Hd2 |- *. apply list.NoDup_cons in Hd2 as [Hn _].
    apply (pick_unique _ []); [done|done|]. cbn [entry_parts snd]. by rewrite parts_one. }
  assert (Es : foldl (pick (lit "summary.json")) JNull (map entry_parts es)
               = JObj [(py "entries", JObj (summary_infos be))]).
  { rewrite Ees. apply pick_unique; [apply not_elem_of_nil|done|]. cbn [entry_parts snd]. by rewrite parts_one. }
  assert (Hv : Forall verifiable (map entry_parts es)).
  { apply list.Forall_forall. intros e He Hname.
    assert (Hin : entry_parts (lit "manifest.json", [m]) ∈ map entry_parts es /\
                  entry_parts (lit "summary.json", [sum]) ∈ map entry_parts es).
    { rewrite Ees, Ebe. split; [by left|]. apply elem_of_app. right. by left. }
    destruct Hin as [Hin1 Hin2]. destruct Hname as [Hname|Hname].
    - rewrite (unique_entry _ _ _ Hd2 He Hin1 Hname). cbn [entry_parts snd]. rewrite parts_one. by split; [|eexists].
    - rewrite (unique_entry _ _ _ Hd2 He Hin2 Hname). cbn [entry_parts snd]. rewrite parts_one. by split; [|eexists]. }
  split.
  2:{ rewrite Ees, Ebe in Er. apply (open_manifest_first _ _ _ _ _ _ Er); cbn [entry_parts snd]; rewrite parts_one; done. }
  unfold read_file in Er. unfold verify_file.
  destruct (reader_init file passphrase) as [r0|] eqn:Hi; [|done]. cbn [res_bind] in *.
  rewrite (verify_entries_complete _ _ _ _ _ _ _ Er Hv), Em, Es. cbn [res_bind is_null orb negb].
  change (or_json _ _) with (JObj (summary_infos be)). cbv iota beta.
  apply reader_init_fresh in Hi as (hd & dg & rest & key' & _ & _ & ->). rewrite (read_all_recorded _ _ _ _ _ Er), recorded_parts.
  rewrite check_infos_summary. 2:{
    intros e He. apply (recorded_get es (map ord (fst e), snd e)); [done|]. unfold es. apply elem_of_app. left.
    apply list_elem_of_In, in_map_iff. exists e. split; [done|]. by apply list_elem_of_In. }
  assert (El : 0 + blen (map entry_parts es) = 3 + blen tables + blen files).
  { unfold es, be, named, backup_entries, blen. rewrite length_map, length_app, length_map. cbn [length].
    rewrite length_app, !length_map. lia. }
  cbn [res_bind]. rewrite Htb. cbn [table_names].
  destruct (has_key manifest (py "tables")); cbn [res_bind].
  - replace (List.filter _ _) with (@nil pystr); [by rewrite bool_decide_true, El|]. symmetry. apply filter_is_nil.
    intros y Hy. apply list_elem_of_In, in_map_iff in Hy as (t & <- & Ht). apply negb_false_iff.
    apply table_has_key, Hsub. by apply list_elem_of_In.
  - by rewrite bool_decide_true, El.
Qed.
End Sealed.
End Container.

(** ** A small library and a small backup *)

Module Demo.
Definition zero (n : nat) : list byte := replicate n 0.
Definition key : list byte := [1; 2; 3].
Definition urandom (i : Z) : list byte := zero 12.
Definition salt : list byte := [5; 6].
Definition header : list (pystr * json) := [(py "kind", JStr (py "manual")); (py "app_version", JStr (py "2.0"))].
Definition manifest : list (pystr * json) := [(py "tables", JObj [(py "users", JNull)])].
Definition tables : list (pystr * list (list byte)) := [(py "users", [[1; 9]; [200]])].

(** The one chunk of each demonstration archive has the tag 0; every other
    chunk has a tag that is not a byte. *)
Definition tag (chunks : list (list byte * list byte * list byte * list byte)) (k n d a : list byte) : list byte :=
  (if bool_decide ((k, n, d, a) ∈ chunks) then 0 else 256 + Z.pos (encode (k, n, d, a))) :: zero 15.
Definition seal_with chunks (k n d a : list byte) : list byte := d ++ tag chunks k n d a.
Definition open_with chunks (k n ct a : list byte) : option (list byte) :=
  let d := take (length ct - 16) ct in
  if bool_decide (ct = seal_with chunks k n d a) then Some d else None.

(** The library, for some chunks and some JSON texts. *)
Definition lib_with chunks (parsed : list (ustr * json)) : CryptoLib := {|
  scrypt _ _ _ _ _ := Some key;
  hmac_sha256 _ _ := zero 32;
  sha256 d := take 32 (map (fun b => b mod 256) d ++ zero 32);
  aes_encrypt := seal_with chunks;
  aes_decrypt := open_with chunks;
  json_dumps _ := lit "H";
  json_text ascii _ := if ascii then lit "S" else lit "M";
  json_loads t := dict_get parsed t;
  py_format _ := []
|}.

#[export] Instance zlib : ZlibLib unit unit := {|
  compressobj := tt;
  compress _ d := (tt, d);
  compress_flush _ := [];
  decompressobj := tt;
  decompress _ d := Some (tt, map (fun b => b mod 256) d);
  decompress_flush _ := []
|}.

Lemma mod_bytes d : Forall is_byte d -> map (fun b => b mod 256) d = d.
Proof. induction 1 as [|b d Hb _ IH]; [done|]. cbn [map]. rewrite IH, Z.mod_small by done. done. Qed.

#[export] Instance zlib_laws : ZlibLaws unit unit.
Proof.
  split.
  - intros ds cs Hds E. cbn [compress_flush zlib] in E. rewrite app_nil_r in E.
    assert (Ed : forall z, snd (deflate z ds) = concat ds).
    { clear. induction ds as [|d ds IH]; intros z; [done|]. cbn [deflate compress zlib concat].
      specialize (IH tt). destruct (deflate tt ds). simpl in *. by rewrite IH. }
    rewrite Ed in E. assert (Hb : Forall is_byte (concat cs)).
    { rewrite E. clear -Hds. induction Hds; [constructor|]. cbn [concat]. by apply list.Forall_app. }
    rewrite <- E. clear -Hb. revert Hb. generalize (@decompressobj unit unit zlib). induction cs as [|c cs IH]; intros z Hb; [done|].
    cbn [concat] in *. apply list.Forall_app in Hb as [Hc Hb]. cbn [inflate decompress zlib]. rewrite mod_bytes by done.
    by rewrite (IH tt).
  - intros z c z' out [= <- <-]. apply List.Forall_map, list.Forall_true. intros b. apply Z.mod_pos_bound. done.
  - intros z. constructor.
Qed.

Lemma lib_laws chunks parsed : @CryptoLaws (lib_with chunks parsed).
Proof.
  split.
  - intros k n d a. cbn [aes_decrypt aes_encrypt lib_with]. unfold open_with, seal_with. rewrite length_app.
    replace (length d + length (tag chunks k n d a) - 16)%nat with (length d) by (unfold tag; simpl; lia).
    rewrite take_app_length. by rewrite bool_decide_true.
  - intros k n ct d a. cbn [aes_decrypt aes_encrypt lib_with]. unfold open_with. case_bool_decide as E; [|done].
    by intros [= <-].
  - intros k n d a. cbn [aes_encrypt lib_with]. unfold seal_with, blen. rewrite length_app. unfold tag. simpl. lia.
  - intros d. cbn [sha256 lib_with]. unfold blen, zero. rewrite length_take, length_app, length_replicate. lia.
  - intros k d. cbn [hmac_sha256 lib_with]. unfold zero. by apply Forall_replicate.
Qed.

(** The JSON texts of the demonstration: the header, the manifest, the
    summary; the values do not depend on the cipher. *)
Definition lib0 : CryptoLib := lib_with [] [].
Definition summary : list (pystr * json) :=
  [(py "entries", JObj (@summary_infos lib0 (backup_entries (lit "M") [7; 7] tables [])))].
Definition parsed : list (ustr * json) :=
  [(lit "H", canon (JObj (@full_header lib0 header salt key))); (lit "M", JObj manifest); (lit "S", JObj summary)].
(** The plaintext of the backup and the associated data of its one chunk. *)
Definition plaintext : list byte :=
  archive_text (named (backup_entries (lit "M") [7; 7] tables []) ++ [(lit "summary.json", [lit "S"])]).
Definition aad0 : list byte :=
  take 32 (MAGIC ++ be_bytes 4 1 ++ lit "H" ++ zero 32) ++ zero 8 ++ [1].
#[export] Instance lib : CryptoLib := lib_with [(key, zero 12, plaintext, aad0)] parsed.
#[export] Instance laws : CryptoLaws := lib_laws _ _.

Definition passphrase : ustr := lit "correct horse".
Definition es : list (ustr * list (list byte)) :=
  named (backup_entries (lit "M") [7; 7] tables []) ++ [(lit "summary.json", [lit "S"])].
Definition written := write_archive urandom passphrase header salt es.
Definition backup : list byte := match written with Ok (f, _, _) => f | Raise _ => [] end.
Definition ents : list (option ustr * info) := match written with Ok (_, _, t) => t | Raise _ => [] end.
Definition opened : reader :=
  match reader_init backup passphrase with Ok r => r | Raise _ => fresh [] [] [] end.

Lemma urandom_length i : length (urandom i) = 12%nat.
Proof. done. Qed.

Lemma written_ok : written = Ok (backup, hexdigest (sha256 backup), ents).
Proof. vm_compute. reflexivity. Qed.

Lemma opened_ok : reader_init backup passphrase = Ok opened.
Proof. vm_compute. reflexivity. Qed.

Definition byte_test (b : Z) : bool := (0 <=? b) && (b <? 256).

Lemma bytes_dec l : forallb byte_test l = true -> Forall is_byte l.
Proof.
  intros E. induction l as [|b l IH]; [constructor|]. apply andb_prop in E as [Eb E].
  constructor; [|auto]. apply andb_prop in Eb as [E1 E2]. apply Z.leb_le in E1. apply Z.ltb_lt in E2. by split.
Qed.

Lemma blocks_dec (l : list (list byte)) : forallb (forallb byte_test) l = true -> Forall (Forall is_byte) l.
Proof.
  intros E. induction l as [|b l IH]; [constructor|]. apply andb_prop in E as [Eb E].
  constructor; [by apply bytes_dec|auto].
Qed.

Lemma entries_dec {K} (l : list (K * list (list byte))) :
  forallb (fun e => forallb (forallb byte_test) (snd e)) l = true -> Forall (fun e => Forall (Forall is_byte) (snd e)) l.
Proof.
  intros E. induction l as [|b l IH]; [constructor|]. apply andb_prop in E as [Eb E].
  constructor; [by apply blocks_dec|auto].
Qed.


(** Nothing but its chunk opens in the backup. *)
Lemma unforged pre nonce ct post k aad d :
  backup = pre ++ nonce ++ ct ++ post -> aes_decrypt k nonce ct aad = Some d -> (nonce, aad, ct) ∈ stored_chunks backup.
Proof.
  intros Eb E. apply aes_sealed in E as ->.
  assert (Hb : Forall is_byte backup) by (apply bytes_dec; vm_compute; reflexivity).
  rewrite Eb, !list.Forall_app in Hb. destruct Hb as (_ & _ & Hct & _).
  cbn [aes_encrypt lib lib_with] in *. unfold seal_with in *. apply list.Forall_app in Hct as [_ Ht]. unfold tag in *.
  destruct (bool_decide ((k, nonce, d, aad) ∈ _)) eqn:E.
  - apply bool_decide_eq_true, list_elem_of_singleton in E. injection E as -> -> -> ->.
    apply (bool_decide_unpack (_ ∈ _)). vm_compute. done.
  - apply Forall_cons_iff in Ht as [Ht _]. unfold is_byte in Ht. lia.
Qed.

(** A backup reads back, evaluated: six entries' worth of blocks. *)
Lemma archive_reads_back_witness : exists r,
  read_file backup passphrase = Ok (map entry_parts es, r) /\
  map (fun e => (Some (fst e), snd e)) (entry_hashes r) = ents /\ hexdigest (sha256 backup) = hexdigest (sha256 backup).
Proof.
  apply (archive_reads_back urandom urandom_length passphrase header salt es backup (hexdigest (sha256 backup)) ents key).
  - apply (bool_decide_unpack (NoDup _)). vm_compute. done.
  - apply bytes_dec. reflexivity.
  - apply entries_dec. vm_compute. reflexivity.
  - reflexivity.
  - vm_compute. reflexivity.
  - intros raw E. vm_compute in E. injection E as <-. vm_compute. discriminate.
  - exact written_ok.
Defined.

Lemma only_the_written_file_witness : backup = backup.
Proof.
  destruct (read_all opened) as [x|] eqn:Er; [|vm_compute in Er; discriminate Er].
  apply (only_the_written_file urandom urandom_length passphrase header salt es backup (hexdigest (sha256 backup)) ents backup
           passphrase opened x).
  - exact written_ok.
  - apply bytes_dec. vm_compute. reflexivity.
  - exact opened_ok.
  - exact Er.
  - intros pre nonce ct post i last aad d Eb _ _ Ed. exact (unforged _ _ _ _ _ _ _ Eb Ed).
  - reflexivity.
Defined.

Lemma reader_parses_witness :
  match read_file backup passphrase, parse (view opened) with
  | Ok (es, r'), Ok (es', hashes) => es = es' /\ entry_hashes r' = hashes
  | Raise e, Raise e' => e = e'
  | _, _ => False
  end.
Proof. apply (reader_parses backup passphrase opened). exact opened_ok. Defined.

Lemma container_ends_witness :
  read_file (take 20 backup) passphrase <> Raise OutOfFuel /\
  write_archive urandom passphrase header salt es <> Raise WriteOutOfFuel.
Proof. apply (container_ends urandom passphrase header salt es (take 20 backup)). Defined.

Lemma verify_sound_witness : exists es r, read_file backup passphrase = Ok (es, r) /\ 4 = blen es /\
  (exists ds, (lit "manifest.json", ds) ∈ es /\ loads_bytes (concat ds) = Ok (JObj manifest)) /\
  exists ds s expected, (lit "summary.json", ds) ∈ es /\ loads_bytes (concat ds) = Ok (JObj s) /\
    or_json (get s (py "entries")) (JObj []) = JObj expected /\
    (forall k v, (k, v) ∈ expected ->
       (exists d, last_entry es (map ord k) d /\ records v d) \/ (v = JNull /\ map ord k ∉ map fst es)) /\
    (forall m names t, JObj manifest = JObj m -> has_key m (py "tables") = true ->
       table_names (get m (py "tables")) = Ok names -> t ∈ names -> has_key expected (table_entry t) = true).
Proof. apply (verify_sound backup passphrase 4 (JObj manifest)). vm_compute. reflexivity. Defined.

Lemma written_backup_verifies_witness :
  verify_file backup passphrase = Ok (3 + blen tables + blen (@nil (pystr * list byte)), JObj manifest) /\
  open_manifest backup passphrase = Ok (JObj manifest).
Proof.
  apply (written_backup_verifies urandom urandom_length passphrase header salt manifest [7; 7] tables [] backup
           (hexdigest (sha256 backup)) key [(py "users", JNull)] (lit "M") (lit "S")).
  - apply (bool_decide_unpack (NoDup _)). vm_compute. done.
  - apply bytes_dec. reflexivity.
  - apply bytes_dec. reflexivity.
  - apply entries_dec. reflexivity.
  - constructor.
  - reflexivity.
  - vm_compute. reflexivity.
  - intros raw E. vm_compute in E. injection E as <-. vm_compute. discriminate.
  - reflexivity.
  - reflexivity.
  - intros t Ht. exact Ht.
  - reflexivity.
  - vm_compute. discriminate.
  - split; vm_compute; reflexivity.
  - vm_compute. discriminate.
  - vm_compute. reflexivity.
Defined.

(** A summary that lists a table's entry as null: [got != info] compares
    [None] with [None], so a backup without the table's data passes. *)
Module Gone.
Definition entries0 : list (ustr * list (list byte)) := [(lit "manifest.json", [lit "M"]); (lit "summary.json", [lit "S"])].
Definition manifest0 : json := JObj [(py "tables", JObj [(py "users", JNull)])].
Definition parsed0 : list (ustr * json) :=
  [(lit "H", canon (JObj (@full_header lib0 header salt key))); (lit "M", manifest0);
   (lit "S", JObj [(py "entries", JObj [(py "db/users.copy", JNull)])])].
#[local] Instance lib1 : CryptoLib := lib_with [(key, zero 12, archive_text entries0, aad0)] parsed0.
Definition file : list byte :=
  match write_archive urandom passphrase header salt entries0 with Ok (f, _, _) => f | Raise _ => [] end.

Lemma null_entry_passes :
  verify_file file passphrase = Ok (2, manifest0)
  /\ exists es r, read_file file passphrase = Ok (es, r) /\ map fst es = [lit "manifest.json"; lit "summary.json"].
Proof. split; [vm_compute; reflexivity|]. do 2 eexists. split; vm_compute; reflexivity. Qed.
End Gone.
End Demo.

