(* ===== verification/Users.v ===== *)
(** * Users: accounts, roles and module permissions
    (src/app/models/user_permission.py, src/app/modules/users/service.py and
    router.py, and the permission checks of src/app/core/dependencies.py and
    src/app/modules/auth/router.py)

    The tables [users] and [user_permissions] are maps by user id; a request
    that raises is rolled back, so the table after it is the table before.
    bcrypt is an argument: hashing with the salt it draws, and checking. *)
From S2P Require Import Prelude PyStr Utf8 Accounts.

(** ** Module permissions *)
Module Permissions.
Inductive ModuleEnum : Type :=
| DASHBOARD | ASSET_REQUIREMENT | ASSET_LIST | ASSET_AUTO_DISCOVERY | USER_MANAGEMENT | AUDITING | HARDENING
| RISK | SYSTEM_CONFIG | LOGS | BACKUP | CVE | TOPOLOGY | ARCHITECTURE_VALIDATION | DESIGN_CONFIGURATION
| DEPLOYMENT | DRIFT | NOC | REMEDIATION | REPORTS | CREDENTIAL_PROFILES.
#[global] Instance ModuleEnum_eq_dec : EqDecision ModuleEnum.
Proof. solve_decision. Defined.

(** The members in the order of the class: [for module in ModuleEnum]. *)
Definition members : list ModuleEnum :=
  [DASHBOARD; ASSET_REQUIREMENT; ASSET_LIST; ASSET_AUTO_DISCOVERY; USER_MANAGEMENT; AUDITING; HARDENING; RISK;
   SYSTEM_CONFIG; LOGS; BACKUP; CVE; TOPOLOGY; ARCHITECTURE_VALIDATION; DESIGN_CONFIGURATION; DEPLOYMENT; DRIFT;
   NOC; REMEDIATION; REPORTS; CREDENTIAL_PROFILES].

(** [module.value]; the name of a member is its value in capitals. *)
Definition module_value (m : ModuleEnum) : pystr :=
  py match m with
     | DASHBOARD => "dashboard" | ASSET_REQUIREMENT => "asset_requirement" | ASSET_LIST => "asset_list"
     | ASSET_AUTO_DISCOVERY => "asset_auto_discovery" | USER_MANAGEMENT => "user_management"
     | AUDITING => "auditing" | HARDENING => "hardening" | RISK => "risk" | SYSTEM_CONFIG => "system_config"
     | LOGS => "logs" | BACKUP => "backup" | CVE => "cve" | TOPOLOGY => "topology"
     | ARCHITECTURE_VALIDATION => "architecture_validation" | DESIGN_CONFIGURATION => "design_configuration"
     | DEPLOYMENT => "deployment" | DRIFT => "drift" | NOC => "noc" | REMEDIATION => "remediation"
     | REPORTS => "reports" | CREDENTIAL_PROFILES => "credential_profiles"
     end.

(** [ModuleEnum(value)]; [None] is its ValueError. *)
Definition module_of (s : pystr) : option ModuleEnum :=
  List.find (fun m => bool_decide (module_value m = s)) members.

Lemma module_of_value m : module_of (module_value m) = Some m.
Proof. by destruct m; vm_compute. Qed.
#[global] Instance ModuleEnum_countable : Countable ModuleEnum :=
  inj_countable module_value module_of module_of_value.
Lemma members_all m : m ∈ members.
Proof. destruct m; unfold members; set_solver. Qed.
Lemma members_nodup : NoDup members.
Proof. apply (bool_decide_unpack _). by vm_compute. Qed.

(** [get_all_modules] *)
Definition get_all_modules : list pystr := map module_value members.

(** The three flags of a row, and what a request names. *)
Record flags : Type := Flags { can_read : bool; can_write : bool; can_delete : bool }.
#[global] Instance flags_eq_dec : EqDecision flags.
Proof. solve_decision. Defined.
Inductive action : Type := Read | Write | Delete.
#[global] Instance action_eq_dec : EqDecision action.
Proof. solve_decision. Defined.
Definition actions : list action := [Read; Write; Delete].
Definition no_flags : flags := Flags false false false.
Definition flag (a : action) (f : flags) : bool :=
  match a with Read => can_read f | Write => can_write f | Delete => can_delete f end.

(** The rows of one user: one for each module (unique_user_module). *)
Notation rows := (gmap ModuleEnum flags).
(** The flag of a module, missing rows giving none. *)
Definition grants (r : rows) (m : ModuleEnum) (a : action) : bool :=
  match r !! m with Some f => flag a f | None => false end.

(** [get_default_permissions] *)
Definition get_default_permissions : list (ModuleEnum * flags) :=
  map (fun m => (m, Flags (bool_decide (m = DASHBOARD \/ m = ASSET_LIST)) false false)) members.
Definition is_default (m : ModuleEnum) (a : action) : Prop := (m = DASHBOARD \/ m = ASSET_LIST) /\ a = Read.
#[global] Arguments module_of _ : simpl never.
#[global] Arguments module_value _ : simpl never.
#[global] Arguments members : simpl never.
#[global] Arguments get_default_permissions : simpl never.
End Permissions.
Import Permissions.

(** ** The tables *)
Inductive auth_source : Type := Local | Ldap | FromKey.
#[global] Instance auth_source_eq_dec : EqDecision auth_source.
Proof. solve_decision. Defined.

(** [User]; its id is its key in the table. *)
Record user : Type := MkUser {
  username : pystr;
  email : option pystr;
  phone : option pystr;
  language : option pystr;
  hashed_password : pystr;
  is_active : bool;
  must_change_password : bool;
  role : Mfa.role;
  source : auth_source;
  disabled_by_directory : bool
}.

(** [next_id]: the sequence behind the ids, which are never given twice. *)
Record db : Type := Db { users : gmap Z user; permissions : gmap Z rows; next_id : Z }.
Definition permissions_of (d : db) (uid : Z) : rows := default ∅ (permissions d !! uid).
Definition put_user (uid : Z) (u : user) (d : db) : db := d {{ users := <[uid := u]> (users d) }}.
Definition put_rows (uid : Z) (r : rows) (d : db) : db := d {{ permissions := <[uid := r]> (permissions d) }}.

(** [UserRole(value)] *)
Definition role_value (r : Mfa.role) : pystr :=
  py match r with Mfa.Admin => "admin" | Mfa.Manager => "manager" | Mfa.User => "user" | Mfa.Guest => "guest" end.
Definition role_of (s : pystr) : option Mfa.role := List.find (fun r => bool_decide (role_value r = s)) Mfa.ROLES.
Definition is_admin (r : Mfa.role) : bool := bool_decide (r = Mfa.Admin).
#[global] Arguments role_of _ : simpl never.

(** ** What a request says *)
Record perm_in : Type := PermIn { p_module : pystr; p_flags : flags }.

(** [UserCreate] and [UserUpdate]; pydantic has read them. *)
Record user_create : Type := UserCreate {
  c_username : pystr; c_email : pystr; c_phone : option pystr; c_password : pystr; c_role : pystr;
  c_is_active : bool; c_permissions : option (list perm_in)
}.
Record user_update : Type := UserUpdate {
  u_username : option pystr; u_email : option pystr; u_phone : option pystr; u_language : option pystr;
  u_password : option pystr; u_current_password : option pystr; u_role : option pystr;
  u_is_active : option bool; u_permissions : option (list perm_in)
}.

(** [validate_password_strength]: the rule that fails first. *)
Inductive weakness : Type := TooShort | NoCapital | NoSmall | NoDigit | NoSpecial.
Definition specials : pystr := py "!@#$%^&*()_+=-[]{};':\|,.<>/?" ++ [chr 34].
Definition validate_password_strength (v : pystr) : res weakness pystr :=
  check 8 <=? Z.of_nat (length v) else TooShort in
  check existsb is_upper v else NoCapital in
  check existsb is_lower v else NoSmall in
  check existsb is_digit v else NoDigit in
  check existsb (fun c => has_char c specials) v else NoSpecial in
  Ok v.

(** [validate_phone]; [None] is its ValueError. *)
Definition phone_digits (s : pystr) : bool :=
  forallb is_digit s && (7 <=? Z.of_nat (length s)) && (Z.of_nat (length s) <=? 15).
Definition validate_phone (v : option pystr) : option (option pystr) :=
  match v with
  | None => Some None
  | Some v =>
      let v := List.filter (fun c => negb (is_space c || has_char c (py "-()"))) v in
      let digits := match v with c :: v' => if bool_decide (c = "+"%char) then v' else v | [] => [] end in
      match v with
      | [] => Some (Some [])
      | _ => if phone_digits digits then Some (Some v) else None
      end
  end.

(** ** The service *)
Inductive verb : Type := ToCreate | ToModify | ToDelete.
Inductive error : Type :=
| NotFound | UsernameTaken | EmailTaken | InvalidRole | OutOfReach (v : verb) | CannotGrant | CannotChangeContact
| FromDirectory | CurrentPasswordRequired | WrongPassword | PasswordTooLong | OnlyAdminsChangeRoles | OwnRole
| OwnAccount | LastAdmin | InvalidModule | IntegrityError | OnlyAdminsReset | OwnPassword | DirectoryPassword
| CannotDeleteSelf | NoPermission (a : action) | OwnRoleOrPermissions.

(** [x or None] of an optional string. *)
Definition or_none (x : pystr) : option pystr := match x with [] => None | _ => Some x end.

Section Service.
(** [pwd_context.hash] with its salt, [pwd_context.verify] *)
Context (bcrypt : pystr -> pystr -> pystr) (verify_password : pystr -> pystr -> bool).

(** [get_password_hash] *)
Definition encoded_length (s : pystr) : Z :=
  Z.of_nat (length (default [] (utf8_encode (map ord s)))).
Definition get_password_hash (salt password : pystr) : res error pystr :=
  check encoded_length password <=? 72 else PasswordTooLong in
  Ok (bcrypt salt password).

(** [get_user_by_id] *)
Definition get_user_by_id (d : db) (uid : Z) : res error user :=
  match users d !! uid with
  | Some u => if bool_decide (source u = FromKey) then Raise NotFound else Ok u
  | None => Raise NotFound
  end.

(** [_ROLE_RANK], [_assert_role_within_reach] *)
Definition _ROLE_RANK (r : Mfa.role) : Z :=
  match r with Mfa.Guest => 0 | Mfa.User => 1 | Mfa.Manager => 2 | Mfa.Admin => 3 end.
Definition role_within_reach (actor : option (Z * user)) (r : Mfa.role) : bool :=
  match actor with
  | None => true
  | Some (_, a) => is_admin (role a) || negb (is_admin r || (_ROLE_RANK (role a) <? _ROLE_RANK r))
  end.

(** [_assert_can_grant], of named flags: the modules of a request, or the rows
    of an account. *)
Definition may_grant (mine : option flags) (f : flags) : bool :=
  forallb (fun a => negb (flag a f) || match mine with Some g => flag a g | None => false end) actions.
Definition can_grant (d : db) (actor : option (Z * user)) (named : list (option ModuleEnum * flags)) : bool :=
  match actor with
  | None => true
  | Some (aid, a) =>
      let held := permissions_of d aid in
      is_admin (role a) ||
      forallb (fun mf => may_grant (match fst mf with Some m => held !! m | None => None end) (snd mf)) named
  end.
Definition named_in (ps : list perm_in) : list (option ModuleEnum * flags) :=
  map (fun p => (module_of (p_module p), p_flags p)) ps.
Definition named_rows (r : rows) : list (option ModuleEnum * flags) :=
  map (fun mf => (Some (fst mf), snd mf)) (map_to_list r).

(** Rows added to what a user has: [IntegrityError] when a module is there. *)
Fixpoint add_rows (new : list (ModuleEnum * flags)) (r : rows) : res error rows :=
  match new with
  | [] => Ok r
  | (m, f) :: new => match r !! m with None => add_rows new (<[m := f]> r) | Some _ => Raise IntegrityError end
  end.
(** The modules of a list, read before anything is written. *)
Fixpoint parsed (ps : list perm_in) : res error (list (ModuleEnum * flags)) :=
  match ps with
  | [] => Ok []
  | p :: ps =>
      match module_of (p_module p) with
      | Some m => let! rest := parsed ps in Ok ((m, p_flags p) :: rest)
      | None => Raise InvalidModule
      end
  end.

(** [_create_user_permissions], [_update_user_permissions] *)
Definition _create_user_permissions (d : db) (uid : Z) (data : option (list perm_in)) : res error db :=
  let! new := match data with None => Ok get_default_permissions | Some ps => parsed ps end in
  let! r := add_rows new (permissions_of d uid) in
  Ok (put_rows uid r d).
Definition _update_user_permissions (d : db) (uid : Z) (ps : list perm_in) : res error db :=
  let! new := parsed ps in
  let! r := add_rows new ∅ in
  Ok (put_rows uid r d).

(** [_active_admin_count] *)
Definition active_admin (u : user) : bool := is_admin (role u) && is_active u.
Definition _active_admin_count (d : db) : Z :=
  Z.of_nat (size (filter (fun kv => active_admin (snd kv) = true) (users d))).

(** The uniqueness queries; [but] is the row left out. *)
Definition username_taken (d : db) (but : option Z) (name : pystr) : bool :=
  bool_decide (map_Exists (fun i u => Some i <> but /\ username u = name) (users d)).
Definition email_taken (d : db) (but : option Z) (e : pystr) : bool :=
  bool_decide (map_Exists (fun i u => Some i <> but /\ email u = Some e) (users d)).

(** [create_user]; [actor] is the signed-in user. *)
Definition create_user (salt : pystr) (d : db) (data : user_create) (actor : option (Z * user)) : res error db :=
  check negb (username_taken d None (c_username data)) else UsernameTaken in
  check negb (email_taken d None (c_email data)) else EmailTaken in
  match role_of (c_role data) with
  | None => Raise InvalidRole
  | Some r =>
      check role_within_reach actor r else OutOfReach ToCreate in
      check is_admin r || can_grant d actor (named_in (default [] (c_permissions data))) else CannotGrant in
      let! hashed := get_password_hash salt (c_password data) in
      let uid := next_id d in
      let u := {| username := c_username data; email := Some (c_email data); phone := c_phone data; language := None;
                  hashed_password := hashed; is_active := c_is_active data; must_change_password := true;
                  role := r; source := Local; disabled_by_directory := false |} in
      let d' := (put_user uid u d) {{ next_id := uid + 1 }} in
      if is_admin r then Ok d' else _create_user_permissions d' uid (c_permissions data)
  end.

(** [update_user], the account's fields in the order of the code: the row
    after each group of fields. *)
Definition set_username (d : db) (uid : Z) (new : option pystr) (u : user) : res error user :=
  match new with
  | None => Ok u
  | Some x => check negb (username_taken d (Some uid) x) else UsernameTaken in Ok (u {{ username := x }})
  end.
Definition set_email (d : db) (uid : Z) (new : option pystr) (u : user) : res error user :=
  match new with
  | None => Ok u
  | Some x => check negb (email_taken d (Some uid) x) else EmailTaken in Ok (u {{ email := Some x }})
  end.
Definition set_contact (phone1 language1 : option pystr) (u : user) : user :=
  let u := match phone1 with Some p => u {{ phone := or_none p }} | None => u end in
  match language1 with Some l => u {{ language := or_none l }} | None => u end.
Definition set_password (salt : pystr) (new current : option pystr) (u : user) : res error user :=
  match new with
  | None => Ok u
  | Some p =>
      match current with
      | Some ((_ :: _) as c) =>
          check verify_password c (hashed_password u) else WrongPassword in
          let! h := get_password_hash salt p in Ok (u {{ hashed_password := h }})
      | _ => Raise CurrentPasswordRequired
      end
  end.
(** The role, and the rows of an account that becomes or stops being an administrator. *)
Definition set_role (d : db) (uid : Z) (own : bool) (cu : option user) (new : option pystr) (u : user) : res error (db * user) :=
  match new with
  | None => Ok (d, u)
  | Some v =>
      check match cu with Some c => is_admin (role c) | None => true end else OnlyAdminsChangeRoles in
      check negb own else OwnRole in
      match role_of v with
      | None => Raise InvalidRole
      | Some r =>
          let! d' :=
            if bool_decide (role u = r) then Ok d
            else if is_admin r then Ok (d {{ permissions := delete uid (permissions d) }})
            else if is_admin (role u) then _create_user_permissions d uid None
            else Ok d in
          Ok (d', u {{ role := r }})
      end
  end.
Definition set_active (d : db) (uid : Z) (own : bool) (new : option bool) (u : user) : res error user :=
  match new with
  | None => Ok u
  | Some b =>
      check b || negb (is_active u) || negb own else OwnAccount in
      check b || negb (is_active u) || negb (is_admin (role u)) || (1 <? _active_admin_count (put_user uid u d)) else LastAdmin in
      Ok (u {{ is_active := b }})
  end.

Definition differs (new old : option pystr) : bool := negb (bool_decide (new = None)) && negb (bool_decide (new = old)).

Definition update_user (salt : pystr) (d : db) (uid : Z) (data : user_update) (cuid : option Z) : res error db :=
  let! u := get_user_by_id d uid in
  let cu := match cuid with Some i => if i =? 0 then None else users d !! i | None => None end in
  let actor := match cuid, cu with Some i, Some a => Some (i, a) | _, _ => None end in
  let own := bool_decide (cuid = Some uid) in
  check own || role_within_reach actor (role u) else OutOfReach ToModify in
  check can_grant d actor (named_in (default [] (u_permissions data))) else CannotGrant in
  let new_email := differs (u_email data) (email u) in
  let new_phone := match u_phone data with Some p => negb (bool_decide (or_none p = phone u)) | None => false end in
  check own || negb (new_email || new_phone) || can_grant d actor (named_rows (permissions_of d uid)) else CannotChangeContact in
  check bool_decide (source u = Local) ||
        negb (differs (u_username data) (Some (username u)) || negb (bool_decide (u_password data = None)) ||
              differs (u_role data) (Some (role_value (role u))) || negb (bool_decide (u_permissions data = None))) else FromDirectory in
  let u := if bool_decide (u_is_active data = Some true) && disabled_by_directory u
           then u {{ disabled_by_directory := false }} else u in
  let! u := set_username d uid (u_username data) u in
  let! u := set_email d uid (u_email data) u in
  let u := set_contact (u_phone data) (u_language data) u in
  let! u := set_password salt (u_password data) (u_current_password data) u in
  let! (d, u) := set_role d uid own cu (u_role data) u in
  let! u := set_active d uid own (u_is_active data) u in
  let d := put_user uid u d in
  match u_permissions data with
  | Some ps => if is_admin (role u) then Ok d else _update_user_permissions d uid ps
  | None => Ok d
  end.

(** [reset_password], [delete_user] *)
Definition reset_password (salt : pystr) (d : db) (uid : Z) (new : pystr) (actor : option (Z * user)) : res error db :=
  match actor with
  | Some (aid, a) =>
      check is_admin (role a) else OnlyAdminsReset in
      check negb (aid =? uid) else OwnPassword in
      let! u := get_user_by_id d uid in
      check bool_decide (source u = Local) else DirectoryPassword in
      let! h := get_password_hash salt new in
      Ok (put_user uid (u {{ hashed_password := h; must_change_password := true }}) d)
  | None => Raise OnlyAdminsReset
  end.

Definition delete_user (d : db) (uid : Z) (cuid : option Z) : res error db :=
  let! u := get_user_by_id d uid in
  check bool_decide (cuid <> Some uid) || (uid =? 0) else CannotDeleteSelf in
  let actor := match cuid with
               | Some i => if i =? 0 then None else match users d !! i with Some a => Some (i, a) | None => None end
               | None => None
               end in
  check role_within_reach actor (role u) else OutOfReach ToDelete in
  check negb (is_admin (role u)) || (1 <? _active_admin_count d) else LastAdmin in
  Ok (d {{ users := delete uid (users d); permissions := delete uid (permissions d) }}).

(** ** Who may do what *)

(** [UserService.check_permission]: the module and the action by name. *)
Definition action_of (s : pystr) : option action :=
  List.find (fun a => bool_decide (py match a with Read => "read" | Write => "write" | Delete => "delete" end = s)) actions.
Definition check_permission (d : db) (uid : Z) (module act : pystr) : bool :=
  match users d !! uid with
  | None => false
  | Some u =>
      is_admin (role u) ||
      match module_of module with
      | None => false
      | Some m =>
          match permissions_of d uid !! m, action_of act with
          | Some f, Some a => flag a f
          | _, _ => false
          end
      end
  end.

(** [require_permission]: a module is named by its value or its member's name. *)
Definition upper1 (c : ascii) : ascii := if is_lower c then chr (ord c - 32) else c.
Definition bind_module (s : pystr) : option ModuleEnum :=
  match module_of s with
  | Some m => Some m
  | None => List.find (fun m => bool_decide (map upper1 (module_value m) = s)) members
  end.
Definition require_permission (d : db) (module act : pystr) (uid : Z) (u : user) : bool :=
  is_admin (role u) ||
  match bind_module module with
  | None => false
  | Some m =>
      match permissions_of d uid !! m with
      | None => false
      | Some f =>
          (bool_decide (act = py "read") && can_read f) || (bool_decide (act = py "write") && can_write f) ||
          (bool_decide (act = py "delete") && can_delete f)
      end
  end.

(** [get_user_permissions] of the sign-in's answer: each module's flags. *)
Definition get_user_permissions (d : db) (uid : Z) (r : Mfa.role) : gmap pystr flags :=
  if is_admin r then list_to_map (map (fun m => (m, Flags true true true)) get_all_modules)
  else
    let result := foldl (fun acc mf => <[module_value (fst mf) := snd mf]> acc) ∅ (map_to_list (permissions_of d uid)) in
    foldl (fun acc m => match acc !! m with None => <[m := no_flags]> acc | Some _ => acc end) result get_all_modules.

(** ** The routes (src/app/modules/users/router.py) *)
Definition any_flag (f : flags) : bool := existsb (fun a => flag a f) actions.

(** [_same_permissions]: as dictionaries of the modules with a flag set. *)
Definition _same_permissions (d : db) (uid : Z) (u : user) (ps : list perm_in) : bool :=
  is_admin (role u) ||
  let held : gmap pystr flags :=
    list_to_map (map (fun mf => (module_value (fst mf), snd mf)) (map_to_list (permissions_of d uid))) in
  let sent : gmap pystr flags := foldl (fun acc p => <[lower (p_module p) := p_flags p]> acc) ∅ ps in
  bool_decide (filter (fun kv => any_flag (snd kv) = true) held = filter (fun kv => any_flag (snd kv) = true) sent).

(** What the signed-in user asks; [salt] is what bcrypt draws. *)
Inductive op : Type :=
| CreateUser (data : user_create)
| UpdateUser (uid : Z) (data : user_update)
| ResetPassword (uid : Z) (new : pystr)
| DeleteUser (uid : Z).

(** A user's own role and permissions sent back unchanged are dropped. *)
Definition own_update (d : db) (uid : Z) (u : user) (data : user_update) : res error user_update :=
  let data := if bool_decide (u_role data = Some (role_value (role u))) then data {{ u_role := None }} else data in
  let data := match u_permissions data with
              | Some ps => if _same_permissions d uid u ps then data {{ u_permissions := None }} else data
              | None => data
              end in
  check bool_decide (u_role data = None /\ u_permissions data = None) else OwnRoleOrPermissions in
  Ok data.

Definition check_user_management_permission (d : db) (aid : Z) (a : user) (act : action) : bool :=
  is_admin (role a) ||
  check_permission d aid (py "user_management") (py match act with Read => "read" | Write => "write" | Delete => "delete" end).

(** The four routes that change accounts; [aid] is the signed-in user. *)
Definition request (salt : pystr) (d : db) (aid : Z) (o : op) : res error db :=
  match users d !! aid with
  | None => Raise NotFound
  | Some a =>
      match o with
      | CreateUser data =>
          check check_user_management_permission d aid a Write else NoPermission Write in
          create_user salt d data (Some (aid, a))
      | UpdateUser uid data =>
          check check_user_management_permission d aid a Write else NoPermission Write in
          let! data := if uid =? aid then own_update d aid a data else Ok data in
          update_user salt d uid data (Some aid)
      | ResetPassword uid new => reset_password salt d uid new (Some (aid, a))
      | DeleteUser uid =>
          check check_user_management_permission d aid a Delete else NoPermission Delete in
          delete_user d uid (Some aid)
      end
  end.
End Service.

#[local] Arguments _create_user_permissions : simpl never.
#[local] Arguments _update_user_permissions : simpl never.

(** ** What the operations change *)
Lemma username_free d but x i u :
  username_taken d but x = false -> users d !! i = Some u -> Some i <> but -> username u <> x.
Proof. unfold username_taken. intros H%bool_decide_eq_false Hi Hb <-. apply H. exists i, u. done. Qed.
Lemma email_free d but x i u :
  email_taken d but x = false -> users d !! i = Some u -> Some i <> but -> email u <> Some x.
Proof. unfold email_taken. intros H%bool_decide_eq_false Hi Hb E. apply H. exists i, u. done. Qed.

Section Spec.
Context (bcrypt : pystr -> pystr -> pystr) (verify_password : pystr -> pystr -> bool).
Notation set_password := (set_password bcrypt verify_password).
Notation update_user := (update_user bcrypt verify_password).

Lemma set_username_spec d uid new u u' :
  set_username d uid new u = Ok u' ->
  exists x, u' = u {{ username := x }} /\ (x = username u \/ username_taken d (Some uid) x = false).
Proof.
  unfold set_username. destruct new as [x|]; [|intros [= <-]; exists (username u); by destruct u; eauto].
  destruct (username_taken _ _ _) eqn:E; simpl; [done|]. intros [= <-]. eauto.
Qed.
Lemma set_email_spec d uid new u u' :
  set_email d uid new u = Ok u' ->
  exists x, u' = u {{ email := x }} /\
    (x = email u \/ exists e, new = Some e /\ x = Some e /\ email_taken d (Some uid) e = false).
Proof.
  unfold set_email. destruct new as [x|]; [|intros [= <-]; exists (email u); by destruct u; eauto].
  destruct (email_taken _ _ _) eqn:E; simpl; [done|]. intros [= <-]. exists (Some x). split; [done|]. right. eauto.
Qed.
Lemma set_contact_spec p l u :
  exists q m, set_contact p l u = u {{ phone := q }} {{ language := m }} /\
    (q = phone u \/ exists x, p = Some x /\ q = or_none x).
Proof.
  unfold set_contact. destruct u, p as [x|], l as [y|]; cbn; (do 2 eexists; split; [reflexivity|]); eauto.
Qed.
Lemma set_password_spec salt new cur u u' :
  set_password salt new cur u = Ok u' ->
  exists h, u' = u {{ hashed_password := h }} /\
    (h = hashed_password u /\ new = None \/ exists p c, new = Some p /\ cur = Some c /\
       verify_password c (hashed_password u) = true /\ h = bcrypt salt p).
Proof.
  unfold set_password, Users.set_password. destruct new as [p|].
  - destruct cur as [[|x c]|]; [done| |done]. destruct (verify_password _ _) eqn:E; [|done].
    unfold get_password_hash. destruct (_ <=? _); [|done]. cbn. intros [= <-]. eexists. split; [done|]. right. eauto 8.
  - intros [= <-]. exists (hashed_password u). split; [by destruct u|by left].
Qed.

Lemma add_rows_spec new r r' :
  add_rows new r = Ok r' ->
  forall m f, r' !! m = Some f -> r !! m = Some f \/ (m, f) ∈ new.
Proof.
  revert r. induction new as [|[m f] new IH]; intros r; cbn; [intros [= <-]; auto|].
  destruct (r !! m) eqn:Em; [done|]. intros H m' f' Hm. destruct (IH _ H _ _ Hm) as [H'|H']; [|right; by right].
  apply lookup_insert_Some in H' as [[<- <-]|[_ H']]; [right; left|by left].
Qed.
Lemma add_rows_ok new r :
  NoDup (map fst new) -> (forall m f, (m, f) ∈ new -> r !! m = None) -> exists r', add_rows new r = Ok r'.
Proof.
  revert r. induction new as [|[m f] new IH]; intros r Hnd Hr; cbn; [eauto|].
  rewrite (Hr m f) by left. apply list.NoDup_cons in Hnd as [Hm Hnd]. apply IH; [done|]. intros m' f' Hin.
  rewrite lookup_insert_ne; [apply (Hr m' f'); by right|]. intros ->. apply Hm. apply list_elem_of_fmap. by exists (m', f').
Qed.
Lemma defaults_modules : map fst get_default_permissions = members.
Proof. done. Qed.
Lemma defaults_added : exists r, add_rows get_default_permissions ∅ = Ok r.
Proof. apply add_rows_ok; [rewrite defaults_modules; apply members_nodup|]. intros. apply lookup_empty. Qed.
Lemma default_flags m f a : (m, f) ∈ get_default_permissions -> flag a f = true -> is_default m a.
Proof.
  intros (x & E & _)%list_elem_of_fmap. injection E as -> ->. destruct a; cbn; try done.
  intros H%bool_decide_eq_true. by split.
Qed.
Lemma parsed_spec ps new m f : parsed ps = Ok new -> (m, f) ∈ new -> (Some m, f) ∈ named_in ps.
Proof.
  revert new. induction ps as [|p ps IH]; intros new; cbn; [intros [= <-] H; by apply elem_of_nil in H|].
  destruct (module_of (p_module p)) as [m'|] eqn:Em; [|done]. destruct (parsed ps) as [rest|]; [|done]. cbn.
  intros [= <-] [[= -> ->]|Hin]%elem_of_cons; [left|right; eauto].
Qed.

(** Rows an operation may write: those there before, the defaults when it names
    no list, and what its list names. *)
Definition from_list (ps : option (list perm_in)) (m : ModuleEnum) (f : flags) : Prop :=
  match ps with None => (m, f) ∈ get_default_permissions | Some ps => (Some m, f) ∈ named_in ps end.

Lemma create_permissions_spec d uid data d' :
  _create_user_permissions d uid data = Ok d' ->
  exists r, d' = put_rows uid r d /\
    forall m f, r !! m = Some f -> permissions_of d uid !! m = Some f \/ from_list data m f.
Proof.
  unfold _create_user_permissions. destruct data as [ps|]; cbn.
  - destruct (parsed ps) as [new|] eqn:Ep; [|done]. cbn. destruct (add_rows _ _) as [r|] eqn:Er; [|done].
    intros [= <-]. exists r. split; [done|]. intros m f Hm.
    destruct (add_rows_spec _ _ _ Er _ _ Hm); [auto|]. right. eapply parsed_spec; eauto.
  - destruct (add_rows _ _) as [r|] eqn:Er; [|done]. intros [= <-]. exists r. split; [done|]. intros m f Hm.
    destruct (add_rows_spec _ _ _ Er _ _ Hm); [by left|by right].
Qed.
Lemma update_permissions_spec d uid ps d' :
  _update_user_permissions d uid ps = Ok d' ->
  exists r, d' = put_rows uid r d /\ forall m f, r !! m = Some f -> (Some m, f) ∈ named_in ps.
Proof.
  unfold _update_user_permissions. destruct (parsed ps) as [new|] eqn:Ep; [|done]. cbn.
  destruct (add_rows _ _) as [r|] eqn:Er; [|done]. intros [= <-]. exists r. split; [done|]. intros m f Hm.
  destruct (add_rows_spec _ _ _ Er _ _ Hm) as [H|H]; [by rewrite lookup_empty in H|]. eapply parsed_spec; eauto.
Qed.

(** What [can_grant] lets through is held by the one who grants. *)
Lemma can_grant_held d aid a named m f act :
  can_grant d (Some (aid, a)) named = true -> is_admin (role a) = false ->
  (Some m, f) ∈ named -> flag act f = true -> grants (permissions_of d aid) m act = true.
Proof.
  unfold can_grant. intros H Ha. rewrite Ha in H. cbn in H. intros Hin Hf.
  rewrite forallb_forall in H. apply list_elem_of_In in Hin. specialize (H _ Hin). cbn [fst snd] in H.
  unfold may_grant in H. cbn in H. rewrite !andb_true_iff in H. destruct H as (H1 & H2 & H3 & _).
  unfold grants. destruct act; cbn in Hf |- *; [rewrite Hf in H1|rewrite Hf in H2|rewrite Hf in H3]; done.
Qed.

Lemma set_role_spec d uid own cu new u d' u' :
  set_role d uid own cu new u = Ok (d', u') ->
  users d' = users d /\ next_id d' = next_id d /\ u' = u {{ role := role u' }} /\
  (forall j, j <> uid -> permissions d' !! j = permissions d !! j) /\
  (role u' = role u /\ d' = d \/ own = false /\ (cu = None \/ exists c, cu = Some c /\ role c = Mfa.Admin)) /\
  (forall m f, permissions_of d' uid !! m = Some f ->
     permissions_of d uid !! m = Some f \/ role u = Mfa.Admin /\ (m, f) ∈ get_default_permissions) /\
  (role u' = Mfa.Admin -> role u = Mfa.Admin /\ d' = d \/ permissions d' !! uid = None).
Proof.
  unfold set_role. destruct new as [v|]; [|intros [= <- <-]; split_and!; eauto; by destruct u].
  destruct (match cu with Some c => _ | None => _ end) eqn:Ec; [|done]. destruct own; cbn [negb]; [done|].
  destruct (role_of v) as [r|]; [|done].
  assert (Hcu : cu = None \/ exists c, cu = Some c /\ role c = Mfa.Admin).
  { destruct cu as [c|]; [right|by left]. exists c. split; [done|]. by apply bool_decide_eq_true in Ec. }
  case_bool_decide as Er; cbn.
  { intros [= <- <-]. subst r. split_and!; eauto; by destruct u. }
  unfold is_admin. case_bool_decide as Ha; cbn.
  - intros [= <- <-]. cbn. split_and!; eauto.
    + intros j Hj. by rewrite lookup_delete_ne.
    + intros m f. unfold permissions_of. cbn. rewrite lookup_delete_eq. cbn. by rewrite lookup_empty.
    + intros _. right. apply lookup_delete_eq.
  - case_bool_decide as Hu; cbn.
    + destruct (_create_user_permissions _ _ _) as [d1|] eqn:E; [|done]. cbn. intros [= <- <-].
      apply create_permissions_spec in E as (r' & -> & Hr). cbn. split_and!; eauto.
      * intros j Hj. by rewrite lookup_insert_ne.
      * intros m f. unfold permissions_of at 1. cbn. rewrite lookup_insert_eq. cbn. intros Hm.
        destruct (Hr _ _ Hm) as [H|H]; [by left|right; by split].
      * done.
    + intros [= <- <-]. cbn. split_and!; eauto. done.
Qed.

Lemma count_other d uid u :
  1 < _active_admin_count (put_user uid u d) ->
  exists j v, j <> uid /\ users d !! j = Some v /\ active_admin v = true.
Proof.
  unfold _active_admin_count. cbn. rewrite map_filter_insert. set (m := filter _ (users d)).
  assert (Hm : forall j, j <> uid -> is_Some (m !! j) -> exists j v, j <> uid /\ users d !! j = Some v /\ active_admin v = true).
  { intros j Hj [v [Hv Ha]%map_lookup_filter_Some]. eauto. }
  intros H. destruct (decide (delete uid m = ∅)) as [E|E].
  - exfalso. assert (Hs : (size m <= 1)%nat).
    { destruct (m !! uid) as [v|] eqn:Ev.
      - rewrite <- (insert_delete_id m uid v Ev), E. rewrite map_size_insert_None by apply lookup_empty. by rewrite map_size_empty.
      - rewrite delete_id in E by done. rewrite E, map_size_empty. lia. }
    revert H. case_decide; [|rewrite map_filter_delete; unfold m in E; rewrite E, map_size_empty; lia].
    rewrite <- insert_delete_eq, E. rewrite map_size_insert_None by apply lookup_empty. rewrite map_size_empty. lia.
  - apply map_choose in E as (j & v & [Hj Hv]%lookup_delete_Some). eauto.
Qed.

Lemma set_active_spec d uid own new u u' :
  set_active d uid own new u = Ok u' ->
  exists b, u' = u {{ is_active := b }} /\
    (b = true \/ b = is_active u \/ own = false /\
       (role u <> Mfa.Admin \/ exists j v, j <> uid /\ users d !! j = Some v /\ active_admin v = true)).
Proof.
  unfold set_active. destruct new as [b|]; [|intros [= <-]; exists (is_active u); destruct u; eauto].
  destruct b; cbn; [intros [= <-]; eauto|]. destruct (is_active u) eqn:Ea; cbn; [|intros [= <-]; eauto].
  destruct own; cbn; [done|]. unfold is_admin. case_bool_decide as Hr; cbn.
  - destruct (1 <? _) eqn:E; [|done]. intros [= <-]. bool_prop. apply count_other in E. eauto 8.
  - intros [= <-]. eauto 8.
Qed.

(** Pass the check that raises [e]. *)
Ltac passes e H :=
  match goal with |- context [if ?b then _ else Raise e] => destruct b eqn:H; [|done] end.

(** A successful update of [uid] by [aid], from the row [u] to [u']. *)
Record updated (salt : pystr) (d : db) (uid : Z) (data : user_update) (aid : Z) (a u u' : user) (d' : db) : Prop := {
  up_before : users d !! uid = Some u;
  up_person : source u <> FromKey;
  up_reach : aid = uid \/ role_within_reach (Some (aid, a)) (role u) = true;
  up_grant : can_grant d (Some (aid, a)) (named_in (default [] (u_permissions data))) = true;
  up_after : users d' = <[uid := u']> (users d);
  up_next : next_id d' = next_id d;
  up_source : source u' = source u;
  up_name : username u' = username u \/ username_taken d (Some uid) (username u') = false;
  up_email : email u' = email u \/ exists e, email u' = Some e /\ email_taken d (Some uid) e = false;
  up_contact : email u' = email u /\ phone u' = phone u \/ aid = uid \/
    can_grant d (Some (aid, a)) (named_rows (permissions_of d uid)) = true;
  up_password : hashed_password u' = hashed_password u /\ u_password data = None \/
    exists p c, u_password data = Some p /\ u_current_password data = Some c /\
      verify_password c (hashed_password u) = true /\ hashed_password u' = bcrypt salt p;
  up_role : role u' = role u \/ role a = Mfa.Admin /\ aid <> uid;
  up_active : active_admin u = true -> active_admin u' = true \/ role a = Mfa.Admin /\ aid <> uid \/
    exists j v, j <> uid /\ users d !! j = Some v /\ active_admin v = true;
  up_others : forall j, j <> uid -> permissions d' !! j = permissions d !! j;
  up_rows : forall m f, permissions_of d' uid !! m = Some f ->
    permissions_of d uid !! m = Some f \/ role a = Mfa.Admin \/ (Some m, f) ∈ named_in (default [] (u_permissions data));
  up_admin : role u' = Mfa.Admin ->
    permissions d' !! uid = None \/ role u = Mfa.Admin /\ permissions d' !! uid = permissions d !! uid
}.

(** The rows of an updated account: [role0] and [role1] are its roles before and after. *)
Definition rows_after (d : db) (uid : Z) (data : user_update) (a : user) (role0 role1 : Mfa.role) (pr : gmap Z rows) : Prop :=
  (forall j, j <> uid -> pr !! j = permissions d !! j) /\
  (forall m f, default ∅ (pr !! uid) !! m = Some f -> permissions_of d uid !! m = Some f \/ role a = Mfa.Admin \/
     (Some m, f) ∈ named_in (default [] (u_permissions data))) /\
  (role1 = Mfa.Admin -> pr !! uid = None \/ role0 = Mfa.Admin /\ pr !! uid = permissions d !! uid).

Lemma last_rows d uid data a role0 us pr nx role1 d' :
  match u_permissions data with
  | Some ps => if is_admin role1 then Ok (Db us pr nx) else _update_user_permissions (Db us pr nx) uid ps
  | None => Ok (Db us pr nx)
  end = Ok d' ->
  rows_after d uid data a role0 role1 pr ->
  exists pr', d' = Db us pr' nx /\ rows_after d uid data a role0 role1 pr'.
Proof.
  intros H Hpr. destruct (u_permissions data) as [ps|] eqn:Ep; [|injection H as <-; eauto].
  unfold is_admin in H. case_bool_decide as Ea; [injection H as <-; eauto|].
  apply update_permissions_spec in H as (r & -> & Hr). eexists. split; [reflexivity|]. destruct Hpr as (Ho & _). split_and!.
  - intros j Hj. cbn. rewrite lookup_insert_ne by done. by apply Ho.
  - intros m f. cbn. rewrite lookup_insert_eq, Ep. cbn. auto.
  - done.
Qed.

Lemma update_user_spec salt d uid data aid a d' :
  users d !! aid = Some a -> aid <> 0 -> update_user salt d uid data (Some aid) = Ok d' ->
  exists u u', updated salt d uid data aid a u u' d'.
Proof.
  intros Ha H0. unfold update_user, Users.update_user. rewrite (proj2 (Z.eqb_neq aid 0) H0), Ha.
  unfold get_user_by_id. destruct (users d !! uid) as [u|] eqn:Eu; [|done]. case_bool_decide as Esrc; [done|]. cbn [res_bind].
  passes (OutOfReach ToModify) Er. passes CannotGrant Eg. passes CannotChangeContact Ec. passes FromDirectory Ed.
  set (u0 := if _ && disabled_by_directory u then _ else u).
  assert (H00 : exists b, u0 = u {{ disabled_by_directory := b }}).
  { unfold u0. destruct (_ && _); [by exists false|]. exists (disabled_by_directory u). by destruct u. }
  destruct H00 as [b Hb]. clearbody u0. cbn [res_bind].
  destruct (set_username _ _ _ _) as [u1|] eqn:E1; [|done]. apply set_username_spec in E1 as (nm & -> & Hnm). cbn [res_bind].
  destruct (set_email _ _ _ _) as [u2|] eqn:E2; [|done]. apply set_email_spec in E2 as (em & -> & Hem). cbn [res_bind].
  destruct (set_contact_spec (u_phone data) (u_language data) (u0 {{ username := nm }} {{ email := em }})) as (ph & lg & -> & Hph).
  destruct (set_password _ _ _ _) as [u3|] eqn:E3; [|done]. apply set_password_spec in E3 as (pw & -> & Hpw). cbn [res_bind].
  destruct (set_role _ _ _ _ _ _) as [[d1 u4]|] eqn:E4; [|done].
  apply set_role_spec in E4 as (Hu1 & Hn1 & Hu4 & Ho1 & Hr1 & Hrows & Hadm). cbn [res_bind].
  destruct (set_active _ _ _ _ _) as [u5|] eqn:E5; [|done]. apply set_active_spec in E5 as (ac & -> & Hac). cbn [res_bind].
  assert (Hown : forall b1, bool_decide (Some aid = Some uid) = b1 -> if b1 then aid = uid else aid <> uid).
  { intros [] H; [by apply bool_decide_eq_true in H as [= ->]|]. apply bool_decide_eq_false in H. by intros ->. }
  destruct u, u4. cbn [username email phone language hashed_password is_active must_change_password role source disabled_by_directory] in *.
  subst u0. destruct d1 as [us ps1 nx]. cbn in *. subst us nx. injection Hu4 as -> -> -> -> -> -> -> -> ->.
  assert (Hr2 : role1 = role0 /\ ps1 = permissions d \/ role a = Mfa.Admin /\ aid <> uid).
  { destruct Hr1 as [[-> <-]|[Ho [Hn|(c & [= <-] & Hc)]]]; [by left|done|right]. by apply Hown in Ho. }
  set (uf := MkUser nm em ph lg pw ac _ role1 source0 b).
  intros H. exists (MkUser username0 email0 phone0 language0 hashed_password0 is_active0 must_change_password0 role0 source0 disabled_by_directory0), uf.
  eapply (last_rows d uid data a role0) in H as (pr & -> & Hpo & Hpr & Hpa); cycle 1.
  { split_and!; [exact Ho1| |].
    - intros m f Hm. destruct (Hrows m f Hm) as [?|[? _]]; [by left|].
      destruct Hr2 as [[-> ->]|[? _]]; [by left|by right; left].
    - intros Hadm1. destruct (Hadm Hadm1) as [[-> <-]|]; [by right|by left]. }
  constructor; cbn; try done.
  - apply orb_true_iff in Er as [Er|Er]; [left; exact (Hown _ Er)|by right].
  - destruct Hem as [->|(e & _ & -> & He)]; eauto.
  - apply orb_true_iff in Ec as [Ec|Ec]; [|auto]. apply orb_true_iff in Ec as [Ec|Ec]; [right; left; exact (Hown _ Ec)|].
    left. apply negb_true_iff, orb_false_iff in Ec as [Ec1 Ec2]. split.
    + destruct Hem as [->|(e & Ee & -> & _)]; [done|]. unfold differs in Ec1. rewrite Ee in Ec1. cbn in Ec1. by bool_prop.
    + destruct Hph as [->|(x & Ee & ->)]; [done|]. rewrite Ee in Ec2. by bool_prop.
  - destruct Hr2 as [[? _]|?]; auto.
  - unfold active_admin, is_admin. cbn. intros [Hra ->]%andb_prop. apply bool_decide_eq_true in Hra as ->.
    destruct Hr2 as [[-> _]|?]; [|auto]. destruct Hac as [->|[->|[_ [?|?]]]]; auto.
Qed.

(** An account created by [actor]. *)
Record created (d : db) (data : user_create) (actor : Z * user) (u : user) (d' : db) : Prop := {
  cr_name : username_taken d None (username u) = false;
  cr_email : exists e, email u = Some e /\ email_taken d None e = false;
  cr_source : source u = Local;
  cr_reach : role_within_reach (Some actor) (role u) = true;
  cr_after : users d' = <[next_id d := u]> (users d);
  cr_next : next_id d' = next_id d + 1;
  cr_others : forall j, j <> next_id d -> permissions d' !! j = permissions d !! j;
  cr_admin : role u = Mfa.Admin -> permissions d' !! next_id d = permissions d !! next_id d;
  cr_rows : forall m f, permissions_of d' (next_id d) !! m = Some f ->
    permissions_of d (next_id d) !! m = Some f \/ (m, f) ∈ get_default_permissions \/
    exists ps, c_permissions data = Some ps /\ (Some m, f) ∈ named_in ps /\ can_grant d (Some actor) (named_in ps) = true
}.

Lemma create_user_spec salt d data actor d' :
  create_user bcrypt salt d data (Some actor) = Ok d' -> exists u, created d data actor u d'.
Proof.
  unfold create_user. passes UsernameTaken En. passes EmailTaken Ee. destruct (role_of _) as [r|] eqn:Er; [|done].
  passes (OutOfReach ToCreate) Ereach. passes CannotGrant Eg. unfold get_password_hash. passes PasswordTooLong Ep. cbn [res_bind].
  apply negb_true_iff in En, Ee. set (u := MkUser _ _ _ _ _ _ _ _ _ _). set (d1 := (put_user _ _ _) {{ next_id := _ }}).
  intros H. exists u. destruct (is_admin r) eqn:Ea.
  - injection H as <-. constructor; cbn; eauto.
  - apply create_permissions_spec in H as (r' & -> & Hr). constructor; cbn; eauto.
    + intros j Hj. by rewrite lookup_insert_ne.
    + intros ->. by apply bool_decide_eq_false in Ea.
    + intros m f. unfold permissions_of at 1. cbn. rewrite lookup_insert_eq. cbn. intros Hm.
      destruct (Hr m f Hm) as [?|Hl]; [by left|]. right. destruct (c_permissions data) as [ps|]; [right; eauto|by left].
Qed.

(** ** The tables stay sound *)
Record wf (d : db) : Prop := {
  wf_next : 0 < next_id d;
  wf_ids : forall i u, users d !! i = Some u -> 0 < i < next_id d;
  wf_names : forall i j u v, users d !! i = Some u -> users d !! j = Some v -> username u = username v -> i = j;
  wf_emails : forall i j u v e, users d !! i = Some u -> users d !! j = Some v -> email u = Some e -> email v = Some e -> i = j;
  wf_rows : forall i, is_Some (permissions d !! i) -> is_Some (users d !! i);
  wf_admins : forall i u, users d !! i = Some u -> role u = Mfa.Admin -> permissions d !! i = None
}.
Definition has_admin (d : db) : Prop := exists i u, users d !! i = Some u /\ active_admin u = true.

Lemma wf_fresh d : wf d -> users d !! next_id d = None /\ permissions d !! next_id d = None.
Proof.
  intros W. assert (users d !! next_id d = None) as E.
  { destruct (users d !! next_id d) eqn:E; [|done]. apply (wf_ids _ W) in E. lia. }
  split; [done|]. destruct (permissions d !! next_id d) eqn:Ep; [|done].
  destruct (wf_rows _ W (next_id d)) as [v Hv]; [by rewrite Ep|]. congruence.
Qed.

(** One row deleted, with its permissions. *)
Lemma wf_delete d uid : wf d -> wf (d {{ users := delete uid (users d); permissions := delete uid (permissions d) }}).
Proof.
  intros W. assert (HI : forall j v, delete uid (users d) !! j = Some v -> users d !! j = Some v /\ j <> uid).
  { intros j v [? ?]%lookup_delete_Some. auto. }
  destruct d as [us ps nx]. constructor; cbn in *.
  - apply (wf_next _ W).
  - intros i v [Hv _]%HI. by apply (wf_ids _ W) in Hv.
  - intros i j v w [Hv _]%HI [Hw _]%HI. by apply (wf_names _ W).
  - intros i j v w e [Hv _]%HI [Hw _]%HI. by apply (wf_emails _ W).
  - intros i [r [Hne Hr]%lookup_delete_Some]. rewrite lookup_delete_ne by done. apply (wf_rows _ W). by exists r.
  - intros i v [Hv Hne]%HI Hr. rewrite lookup_delete_ne by done. by apply (wf_admins _ W i v).
Qed.

(** One row written. *)
Lemma wf_write d d' uid u :
  wf d -> users d' = <[uid := u]> (users d) -> 0 < uid < next_id d' -> next_id d <= next_id d' ->
  (forall j v, j <> uid -> users d !! j = Some v -> username v <> username u) ->
  (forall j v e, j <> uid -> users d !! j = Some v -> email u = Some e -> email v <> Some e) ->
  (forall j, j <> uid -> permissions d' !! j = permissions d !! j) ->
  (role u = Mfa.Admin -> permissions d' !! uid = None) -> wf d'.
Proof.
  intros W Hu Hid Hn Hname Hemail Hp Ha.
  assert (HI : forall j v, users d' !! j = Some v -> j = uid /\ v = u \/ j <> uid /\ users d !! j = Some v).
  { intros j v. rewrite Hu, lookup_insert_Some. intros [[-> ->]|[? ?]]; auto. }
  constructor.
  - lia.
  - intros i v [[-> _]|[_ Hv]]%HI; [done|]. apply (wf_ids _ W) in Hv. lia.
  - intros i j v w [[-> ->]|[Hi Hv]]%HI [[-> ->]|[Hj Hw]]%HI E; [done| | |by apply (wf_names _ W i j v w)].
    + by destruct (Hname _ _ Hj Hw).
    + by destruct (Hname _ _ Hi Hv).
  - intros i j v w e [[-> ->]|[Hi Hv]]%HI [[-> ->]|[Hj Hw]]%HI E F; [done| | |by apply (wf_emails _ W i j v w e)].
    + by destruct (Hemail _ _ e Hj Hw).
    + by destruct (Hemail _ _ e Hi Hv).
  - intros i Hi. rewrite Hu. destruct (decide (i = uid)) as [->|Hne]; [by rewrite lookup_insert_eq|].
    rewrite lookup_insert_ne by done. rewrite (Hp _ Hne) in Hi. by apply (wf_rows _ W).
  - intros i v [[-> ->]|[Hi Hv]]%HI Hr; [auto|]. rewrite (Hp _ Hi). by apply (wf_admins _ W i v).
Qed.

Lemma reset_password_spec salt d uid new aid a d' :
  reset_password bcrypt salt d uid new (Some (aid, a)) = Ok d' ->
  exists u, users d !! uid = Some u /\ source u = Local /\ role a = Mfa.Admin /\ aid <> uid /\
    d' = put_user uid (u {{ hashed_password := bcrypt salt new }} {{ must_change_password := true }}) d.
Proof.
  unfold reset_password. passes OnlyAdminsReset Ea. passes OwnPassword Eo.
  unfold get_user_by_id. destruct (users d !! uid) as [u|]; [|done]. case_bool_decide; [done|]. cbn [res_bind].
  passes DirectoryPassword Es. unfold get_password_hash. passes PasswordTooLong El. cbn [res_bind]. intros [= <-].
  bool_prop. apply bool_decide_eq_true in Ea. exists u. split_and!; auto.
Qed.

Lemma delete_user_spec d uid aid a d' :
  users d !! aid = Some a -> aid <> 0 -> delete_user d uid (Some aid) = Ok d' ->
  exists u, users d !! uid = Some u /\ source u <> FromKey /\ (aid <> uid \/ uid = 0) /\
    role_within_reach (Some (aid, a)) (role u) = true /\
    (role u = Mfa.Admin -> 1 < _active_admin_count d) /\
    d' = d {{ users := delete uid (users d); permissions := delete uid (permissions d) }}.
Proof.
  intros Ha H0. unfold delete_user, get_user_by_id. rewrite (proj2 (Z.eqb_neq aid 0) H0), Ha.
  destruct (users d !! uid) as [u|] eqn:Eu; [|done]. case_bool_decide; [done|]. cbn [res_bind].
  passes CannotDeleteSelf Es. passes (OutOfReach ToDelete) Er. passes LastAdmin El. intros [= <-].
  exists u. split_and!; auto.
  - apply orb_true_iff in Es as [Es|Es]; bool_prop; [left; congruence|by right].
  - intros Hr. apply orb_true_iff in El as [El|El]; bool_prop; [|done]. unfold is_admin in El. by bool_prop.
Qed.

(** A successful request, by route. *)
Lemma request_inv salt d aid a o d' :
  users d !! aid = Some a -> request bcrypt verify_password salt d aid o = Ok d' ->
  (exists data, o = CreateUser data /\ create_user bcrypt salt d data (Some (aid, a)) = Ok d') \/
  (exists uid data data', o = UpdateUser uid data /\ update_user salt d uid data' (Some aid) = Ok d' /\
     u_password data' = u_password data /\
     (uid = aid -> u_role data' = None /\ u_permissions data' = None)) \/
  (exists uid new, o = ResetPassword uid new /\ reset_password bcrypt salt d uid new (Some (aid, a)) = Ok d') \/
  (exists uid, o = DeleteUser uid /\ delete_user d uid (Some aid) = Ok d').
Proof.
  unfold request. intros ->. destruct o as [data|uid data|uid new|uid].
  - passes (NoPermission Write) Ep. eauto.
  - passes (NoPermission Write) Ep. destruct (Z.eqb_spec uid aid) as [->|Hne]; cbn [res_bind].
    + unfold own_update. set (d1 := if bool_decide _ then _ else data).
      set (d2 := match u_permissions d1 with Some ps => _ | None => d1 end).
      passes OwnRoleOrPermissions Eo. cbn [res_bind]. apply bool_decide_eq_true in Eo.
      intros H. right; left. exists aid, data, d2. split_and!; [done|done| |done].
      assert (E1 : u_password d1 = u_password data) by (unfold d1; case_match; [by destruct data|done]).
      unfold d2. destruct (u_permissions d1); [|done]. case_match; [|done]. rewrite <- E1. by destruct d1.
    + intros H. right; left. exists uid, data, data. by split_and!.
  - eauto 10.
  - passes (NoPermission Delete) Ep. eauto 10.
Qed.

Lemma request_deletes salt d aid target d' :
  request bcrypt verify_password salt d aid (DeleteUser target) = Ok d' -> users d' = delete target (users d).
Proof.
  unfold request. destruct (users d !! aid) as [a|]; [|done]. passes (NoPermission Delete) Ep. unfold delete_user.
  destruct (get_user_by_id d target) as [u|]; [|done]. cbn [res_bind]. passes CannotDeleteSelf E1. passes (OutOfReach ToDelete) E2.
  passes LastAdmin E3. intros [= <-]. by destruct d.
Qed.

(** A request the server answers: the signed-in account is active ([get_current_user]). *)
Inductive step (d d' : db) : Prop :=
| step_request salt aid a o :
    users d !! aid = Some a -> is_active a = true -> request bcrypt verify_password salt d aid o = Ok d' -> step d d'.

Lemma wf_step d d' : wf d -> step d d' -> wf d'.
Proof.
  intros W [salt aid a o Ha _ Hr]. pose proof (wf_ids _ W _ _ Ha) as Haid.
  apply (request_inv _ _ _ _ _ _ Ha) in Hr as [(data & -> & H)|[(uid & data & data' & -> & H & _)|[(uid & new & -> & H)|(uid & -> & H)]]].
  - apply create_user_spec in H as [u C]. destruct (wf_fresh _ W) as [Ef Ep]. pose proof (wf_next _ W) as Hn.
    eapply (wf_write _ _ (next_id d) u W (cr_after _ _ _ _ _ C)).
    + rewrite (cr_next _ _ _ _ _ C). lia.
    + rewrite (cr_next _ _ _ _ _ C). lia.
    + intros j v _ Hv. by eapply username_free; [apply (cr_name _ _ _ _ _ C)|exact Hv|].
    + intros j v e _ Hv He. destruct (cr_email _ _ _ _ _ C) as (e' & He' & Ht). rewrite He in He'. injection He' as <-.
      by eapply email_free; [exact Ht|exact Hv|].
    + apply (cr_others _ _ _ _ _ C).
    + intros Hr. by rewrite (cr_admin _ _ _ _ _ C Hr).
  - apply update_user_spec with (a := a) in H as (u & u' & U); [|done|lia].
    pose proof (up_before _ _ _ _ _ _ _ _ _ U) as Hu.
    eapply (wf_write _ _ uid u' W (up_after _ _ _ _ _ _ _ _ _ U)); rewrite ?(up_next _ _ _ _ _ _ _ _ _ U).
    + by apply (wf_ids _ W) in Hu.
    + done.
    + intros j v Hj Hv. destruct (up_name _ _ _ _ _ _ _ _ _ U) as [->|Ht].
      * intros E. by destruct (Hj (wf_names _ W _ _ _ _ Hv Hu E)).
      * eapply username_free; [exact Ht|exact Hv|congruence].
    + intros j v e Hj Hv He. destruct (up_email _ _ _ _ _ _ _ _ _ U) as [E|(e' & E & Ht)].
      * intros F. rewrite E in He. by destruct (Hj (wf_emails _ W _ _ _ _ e Hv Hu F He)).
      * rewrite E in He. injection He as <-. eapply email_free; [exact Ht|exact Hv|congruence].
    + apply (up_others _ _ _ _ _ _ _ _ _ U).
    + intros Hr. destruct (up_admin _ _ _ _ _ _ _ _ _ U Hr) as [?|[Hr0 ->]]; [done|]. by apply (wf_admins _ W uid u).
  - apply reset_password_spec in H as (u & Hu & _ & _ & _ & ->). pose proof (wf_ids _ W _ _ Hu) as Hid. destruct u.
    eapply (wf_write _ _ uid); [exact W|reflexivity|..]; cbn; try done.
    + intros j v Hj Hv E. by destruct (Hj (wf_names _ W _ _ _ _ Hv Hu E)).
    + intros j v e Hj Hv He F. by destruct (Hj (wf_emails _ W _ _ _ _ e Hv Hu F He)).
    + intros Hr. by eapply (wf_admins _ W uid); [exact Hu|].
  - apply delete_user_spec with (a := a) in H as (u & Hu & _ & _ & _ & _ & ->); [|done|lia]. by apply wf_delete.
Qed.

Lemma admin_kept d d' : wf d -> has_admin d -> step d d' -> has_admin d'.
Proof.
  intros W (x & ux & Hx & Hax) [salt aid a o Ha Hact Hr]. pose proof (wf_ids _ W _ _ Ha) as Haid.
  assert (Hput : forall uid u', users d' = <[uid := u']> (users d) -> (x <> uid \/ active_admin u' = true) -> has_admin d').
  { intros uid u' E [Hne|Hu']; [exists x, ux|exists uid, u']; rewrite E; [by rewrite lookup_insert_ne|by rewrite lookup_insert_eq]. }
  assert (Haa : role a = Mfa.Admin -> active_admin a = true).
  { intros E. unfold active_admin. by rewrite E, Hact. }
  apply (request_inv _ _ _ _ _ _ Ha) in Hr as [(data & -> & H)|[(uid & data & data' & -> & H & _)|[(uid & new & -> & H)|(uid & -> & H)]]].
  - apply create_user_spec in H as [u C]. apply (Hput _ _ (cr_after _ _ _ _ _ C)). left.
    apply (wf_ids _ W) in Hx. lia.
  - apply update_user_spec with (a := a) in H as (u & u' & U); [|done|lia].
    destruct (decide (x = uid)) as [->|Hne]; [|apply (Hput _ _ (up_after _ _ _ _ _ _ _ _ _ U)); by left].
    rewrite (up_before _ _ _ _ _ _ _ _ _ U) in Hx. injection Hx as ->.
    destruct (up_active _ _ _ _ _ _ _ _ _ U Hax) as [?|[[Hra Hne]|(j & v & Hj & Hv & Hav)]].
    + apply (Hput _ _ (up_after _ _ _ _ _ _ _ _ _ U)). by right.
    + exists aid, a. rewrite (up_after _ _ _ _ _ _ _ _ _ U), lookup_insert_ne by done. auto.
    + exists j, v. rewrite (up_after _ _ _ _ _ _ _ _ _ U), lookup_insert_ne by done. auto.
  - apply reset_password_spec in H as (u & Hu & _ & Hra & Hne & ->). exists aid, a. cbn.
    rewrite lookup_insert_ne by done. auto.
  - apply delete_user_spec with (a := a) in H as (u & Hu & _ & _ & _ & Hc & ->); [|done|lia].
    destruct d as [us ps nx]; cbn in *. destruct (decide (x = uid)) as [->|Hne].
    + rewrite Hx in Hu. injection Hu as ->. unfold active_admin in Hax. apply andb_prop in Hax as [Hr _].
      apply bool_decide_eq_true in Hr. destruct (count_other (Db us ps nx) uid u) as (j & v & Hj & Hv & Hav).
      { unfold put_user. cbn. rewrite insert_id by done. by apply Hc. }
      exists j, v. cbn. rewrite lookup_delete_ne by done. auto.
    + exists x, ux. cbn. rewrite lookup_delete_ne by done. auto.
Qed.

(** C14: In every history of answered account requests, whoever makes them: ids stay below the sequence, user
    names and addresses unique, permission rows belong to existing accounts and administrators have none (so that
    making one an ordinary user never collides with stored rows), and an active administrator remains. *)
Theorem accounts_kept d d' : wf d -> has_admin d -> rtc step d d' -> wf d' /\ has_admin d'.
Proof.
  intros W A H. induction H as [|d d1 d2 Hs _ IH]; [done|]. apply IH; eauto using wf_step, admin_kept.
Qed.

(** ** No escalation

    Accounts [C] are in the hands of people who work together.  They make
    requests with any of them; an account they create is theirs, and so is one
    whose address or number they change, where its reset code goes. *)
Definition taken (d d' : db) (i : Z) : Prop :=
  exists u', users d' !! i = Some u' /\
    match users d !! i with None => True | Some u => email u' <> email u \/ phone u' <> phone u end.

Inductive coalition (d0 : db) (C0 : Z -> Prop) : db -> (Z -> Prop) -> Prop :=
| coalition_start : coalition d0 C0 d0 C0
| coalition_request d C d' salt aid a o :
    coalition d0 C0 d C -> C aid -> users d !! aid = Some a -> is_active a = true ->
    (** they know no other account's password *)
    (forall uid data, o = UpdateUser uid data -> u_password data <> None -> C uid) ->
    request bcrypt verify_password salt d aid o = Ok d' ->
    coalition d0 C0 d' (fun i => C i \/ taken d d' i).

(** What their accounts could do at the start, or any new account can. *)
Definition within (d0 : db) (C0 : Z -> Prop) (m : ModuleEnum) (act : action) : Prop :=
  is_default m act \/ exists i, C0 i /\ grants (permissions_of d0 i) m act = true.

Record bounded (d0 : db) (C0 : Z -> Prop) (rank : Z) (d : db) (C : Z -> Prop) : Prop := {
  bo_wf : wf d;
  bo_role : forall i u, C i -> users d !! i = Some u -> role u <> Mfa.Admin /\ _ROLE_RANK (role u) <= rank;
  bo_rows : forall i m act, C i -> grants (permissions_of d i) m act = true -> within d0 C0 m act;
  bo_granted : forall i m act, grants (permissions_of d i) m act = true ->
    grants (permissions_of d0 i) m act = true \/ within d0 C0 m act;
  bo_admins : forall i u, users d0 !! i = Some u -> role u = Mfa.Admin -> users d !! i = Some u;
  bo_others : forall i u, ~ C i -> users d !! i = Some u ->
    exists u0, users d0 !! i = Some u0 /\ role u = role u0 /\ hashed_password u = hashed_password u0 /\
      email u = email u0 /\ phone u = phone u0
}.

Section Bounded.
Context (d0 : db) (C0 : Z -> Prop) (rank : Z) (d : db) (C : Z -> Prop) (B : bounded d0 C0 rank d C).
Context (aid : Z) (a : user) (HC : C aid) (Ha : users d !! aid = Some a).

Lemma member_not_admin : role a <> Mfa.Admin.
Proof. by apply (bo_role _ _ _ _ _ B aid a). Qed.
Lemma member_reach r : role_within_reach (Some (aid, a)) r = true -> r <> Mfa.Admin /\ _ROLE_RANK r <= rank.
Proof.
  destruct (bo_role _ _ _ _ _ B aid a HC Ha) as [Hna Hr]. unfold role_within_reach, is_admin.
  rewrite (bool_decide_eq_false_2 _ Hna). cbn. intros [H1 H2]%negb_true_iff%orb_false_iff. bool_prop. split; [done|lia].
Qed.
Lemma member_grants named m f act :
  can_grant d (Some (aid, a)) named = true -> (Some m, f) ∈ named -> flag act f = true -> within d0 C0 m act.
Proof.
  intros H Hin Hf. eapply (bo_rows _ _ _ _ _ B aid); [done|]. eapply can_grant_held; eauto.
  apply bool_decide_eq_false_2, member_not_admin.
Qed.

(** A member writes one account that is no administrator's. *)
Lemma bounded_write d' uid u' :
  wf d' -> users d' = <[uid := u']> (users d) ->
  (forall j, j <> uid -> permissions d' !! j = permissions d !! j) ->
  (forall u, users d !! uid = Some u -> role u <> Mfa.Admin) ->
  (C uid \/ taken d d' uid -> role u' <> Mfa.Admin /\ _ROLE_RANK (role u') <= rank) ->
  (forall m act, grants (permissions_of d' uid) m act = true ->
     within d0 C0 m act \/ (taken d d' uid -> C uid) /\ grants (permissions_of d uid) m act = true) ->
  (~ (C uid \/ taken d d' uid) -> exists u, users d !! uid = Some u /\ role u' = role u /\
     hashed_password u' = hashed_password u /\ email u' = email u /\ phone u' = phone u) ->
  bounded d0 C0 rank d' (fun i => C i \/ taken d d' i).
Proof.
  intros W Hu Hp Hna Hrole Hrows Hout.
  assert (Hsame : forall i, i <> uid -> users d' !! i = users d !! i) by (intros; by rewrite Hu, lookup_insert_ne).
  assert (Hperm : forall i, i <> uid -> permissions_of d' i = permissions_of d i) by (intros; unfold permissions_of; by rewrite Hp).
  assert (Hnot : forall i, i <> uid -> C i \/ taken d d' i -> C i).
  { intros i Hi [?|(v & Hv & Hd)]; [done|]. rewrite Hsame in Hv by done. rewrite Hv in Hd. tauto. }
  constructor; [done| | | | |].
  - intros i u Hi Hui. destruct (decide (i = uid)) as [->|Hne].
    + rewrite Hu, lookup_insert_eq in Hui. injection Hui as <-. auto.
    + rewrite Hsame in Hui by done. apply (bo_role _ _ _ _ _ B i); auto.
  - intros i m act Hi Hg. destruct (decide (i = uid)) as [->|Hne].
    + destruct (Hrows _ _ Hg) as [?|[Ht Hg']]; [done|]. apply (bo_rows _ _ _ _ _ B uid); [tauto|done].
    + rewrite Hperm in Hg by done. apply (bo_rows _ _ _ _ _ B i); auto.
  - intros i m act Hg. destruct (decide (i = uid)) as [->|Hne].
    + destruct (Hrows _ _ Hg) as [?|[_ Hg']]; [auto|]. by apply (bo_granted _ _ _ _ _ B).
    + rewrite Hperm in Hg by done. by apply (bo_granted _ _ _ _ _ B).
  - intros i u Hi Hr. pose proof (bo_admins _ _ _ _ _ B i u Hi Hr) as Hd. destruct (decide (i = uid)) as [->|Hne].
    + by destruct (Hna _ Hd).
    + by rewrite Hsame.
  - intros i u Hi Hui. destruct (decide (i = uid)) as [->|Hne].
    + destruct (Hout Hi) as (v & Hv & E1 & E2 & E3 & E4). rewrite Hu, lookup_insert_eq in Hui. injection Hui as <-.
      destruct (bo_others _ _ _ _ _ B uid v) as (w & Hw & F1 & F2 & F3 & F4); [tauto|done|].
      exists w. split_and!; [done|congruence..].
    + rewrite Hsame in Hui by done. apply (bo_others _ _ _ _ _ B); [tauto|done].
Qed.

Lemma bounded_create salt data d' :
  wf d' -> create_user bcrypt salt d data (Some (aid, a)) = Ok d' ->
  bounded d0 C0 rank d' (fun i => C i \/ taken d d' i).
Proof.
  intros W [u Cr]%create_user_spec. destruct (wf_fresh _ (bo_wf _ _ _ _ _ B)) as [Hf Hfp].
  assert (Ht : taken d d' (next_id d)).
  { exists u. rewrite (cr_after _ _ _ _ _ Cr), lookup_insert_eq, Hf. done. }
  eapply (bounded_write d' (next_id d) u W (cr_after _ _ _ _ _ Cr) (cr_others _ _ _ _ _ Cr)).
  - intros v Hv. congruence.
  - intros _. apply member_reach, (cr_reach _ _ _ _ _ Cr).
  - intros m act Hg. left. unfold grants in Hg. destruct (permissions_of d' _ !! m) as [f|] eqn:Em; [|done].
    destruct (cr_rows _ _ _ _ _ Cr m f Em) as [H|[H|(ps & _ & Hin & Hc)]].
    + unfold permissions_of in H. rewrite Hfp in H. cbn in H. by rewrite lookup_empty in H.
    + left. eapply default_flags; eauto.
    + eapply member_grants; eauto.
  - tauto.
Qed.

Lemma bounded_update salt uid data d' :
  wf d' -> (u_password data <> None -> C uid) -> update_user salt d uid data (Some aid) = Ok d' ->
  bounded d0 C0 rank d' (fun i => C i \/ taken d d' i).
Proof.
  intros W Hpw H. pose proof (wf_ids _ (bo_wf _ _ _ _ _ B) _ _ Ha) as Haid. pose proof member_not_admin as Hna.
  apply update_user_spec with (a := a) in H as (u & u' & U); [|done|lia].
  pose proof (up_before _ _ _ _ _ _ _ _ _ U) as Hu.
  assert (Hr : role u' = role u) by (destruct (up_role _ _ _ _ _ _ _ _ _ U) as [|[]]; done).
  assert (Hreach : role u <> Mfa.Admin /\ _ROLE_RANK (role u) <= rank).
  { destruct (up_reach _ _ _ _ _ _ _ _ _ U) as [<-|Hre]; [by apply (bo_role _ _ _ _ _ B aid u)|by apply member_reach]. }
  eapply (bounded_write d' uid u' W (up_after _ _ _ _ _ _ _ _ _ U) (up_others _ _ _ _ _ _ _ _ _ U)).
  - intros v Hv. rewrite Hu in Hv. injection Hv as <-. apply Hreach.
  - intros _. by rewrite Hr.
  - intros m act Hg. unfold grants in Hg. destruct (permissions_of d' uid !! m) as [f|] eqn:Em; [|done].
    destruct (up_rows _ _ _ _ _ _ _ _ _ U m f Em) as [Ho|[?|Hin]]; [|done|].
    + destruct (up_contact _ _ _ _ _ _ _ _ _ U) as [[E1 E2]|[<-|Hc]].
      * right. split; [|unfold grants; by rewrite Ho]. intros (v & Hv & Hd). rewrite Hu in Hd.
        rewrite (up_after _ _ _ _ _ _ _ _ _ U), lookup_insert_eq in Hv. injection Hv as <-. destruct Hd; congruence.
      * right. split; [done|]. unfold grants. by rewrite Ho.
      * left. eapply member_grants; [exact Hc| |exact Hg]. unfold named_rows. apply list_elem_of_fmap.
        exists (m, f). split; [done|]. by apply elem_of_map_to_list.
    + left. eapply member_grants; [apply (up_grant _ _ _ _ _ _ _ _ _ U)|exact Hin|exact Hg].
  - intros Hn. exists u. destruct (up_password _ _ _ _ _ _ _ _ _ U) as [[E _]|(p & c & Ep & _)]; [|exfalso; apply Hn; left; apply Hpw; congruence].
    assert (Hsame : ~ (email u' <> email u \/ phone u' <> phone u)).
    { intros Hd. apply Hn. right. exists u'. rewrite (up_after _ _ _ _ _ _ _ _ _ U), lookup_insert_eq, Hu. auto. }
    split_and!; [done..| |].
    + destruct (decide (email u' = email u)); [done|tauto].
    + destruct (decide (phone u' = phone u)); [done|tauto].
Qed.

Lemma bounded_delete uid d' :
  wf d' -> delete_user d uid (Some aid) = Ok d' -> bounded d0 C0 rank d' (fun i => C i \/ taken d d' i).
Proof.
  intros W H. pose proof (wf_ids _ (bo_wf _ _ _ _ _ B) _ _ Ha) as Haid.
  apply delete_user_spec with (a := a) in H as (u & Hu & _ & _ & Hre & _ & ->); [|done|lia].
  apply member_reach in Hre as [Hna _]. set (d' := d {{ users := _; permissions := _ }}) in *.
  assert (Hsame : forall i v, users d' !! i = Some v -> users d !! i = Some v /\ i <> uid).
  { intros i v Hv. assert (Hv2 : delete uid (users d) !! i = Some v) by (destruct d; exact Hv).
    apply lookup_delete_Some in Hv2 as [? ?]. auto. }
  assert (Hnot : forall i, C i \/ taken d d' i -> C i).
  { intros i [?|(v & Hv & Hd)]; [done|]. apply Hsame in Hv as [Hv _]. rewrite Hv in Hd. tauto. }
  assert (Hperm : forall i m act, grants (permissions_of d' i) m act = true -> grants (permissions_of d i) m act = true).
  { intros i m act. assert (permissions_of d' i = default ∅ (delete uid (permissions d) !! i)) as -> by (destruct d; done).
    destruct (decide (i = uid)) as [->|Hne]; [|by rewrite lookup_delete_ne].
    rewrite lookup_delete_eq. cbn. unfold grants. by rewrite lookup_empty. }
  constructor; [done| | | | |].
  - intros i v Hi [Hv _]%Hsame. apply (bo_role _ _ _ _ _ B i); auto.
  - intros i m act Hi Hg%Hperm. apply (bo_rows _ _ _ _ _ B i); auto.
  - intros i m act Hg%Hperm. by apply (bo_granted _ _ _ _ _ B).
  - intros i v Hi Hr. pose proof (bo_admins _ _ _ _ _ B i v Hi Hr) as Hd.
    assert (i <> uid) by (intros ->; rewrite Hu in Hd; injection Hd as ->; done).
    assert (users d' !! i = delete uid (users d) !! i) as -> by (destruct d; done). by rewrite lookup_delete_ne.
  - intros i v Hi [Hv _]%Hsame. apply (bo_others _ _ _ _ _ B); [tauto|done].
Qed.
End Bounded.

Lemma coalition_invariant d0 C0 rank d C :
  bounded d0 C0 rank d0 C0 -> coalition d0 C0 d C -> bounded d0 C0 rank d C.
Proof.
  intros B0. induction 1 as [|d C d' salt aid a o _ B HC Ha Hact Hpw Hr]; [done|].
  assert (W : wf d') by (eapply wf_step; [apply (bo_wf _ _ _ _ _ B)|econstructor; eauto]).
  pose proof (member_not_admin d0 C0 rank d C B aid a HC Ha) as Hna.
  apply (request_inv _ _ _ _ _ _ Ha) in Hr as [(data & -> & H)|[(uid & data & data' & -> & H & E & _)|[(uid & new & -> & H)|(uid & -> & H)]]].
  - eapply bounded_create; eauto.
  - eapply (bounded_update _ _ _ _ _ B aid a HC Ha); [exact W| |exact H]. intros Hd. apply (Hpw uid data eq_refl). congruence.
  - by apply reset_password_spec in H as (u & _ & _ & Hra & _).
  - eapply bounded_delete; eauto.
Qed.

(** C13: People who hold some ordinary accounts and work together cannot escalate through user management: whatever
    requests they make, creating accounts and taking over the ones they can redirect, every account in their hands
    stays below administrator and within the highest role they had, can do only what one of their accounts could do
    at the start or any new account can (the default permissions), administrators' accounts do not change at all, and
    nobody else's role, password, address or number does. *)
Theorem no_escalation d0 C0 rank d C :
  wf d0 -> (forall i u, C0 i -> users d0 !! i = Some u -> role u <> Mfa.Admin /\ _ROLE_RANK (role u) <= rank) ->
  coalition d0 C0 d C ->
  (forall i u, C i -> users d !! i = Some u -> role u <> Mfa.Admin /\ _ROLE_RANK (role u) <= rank) /\
  (forall i m act, C i -> grants (permissions_of d i) m act = true -> within d0 C0 m act) /\
  (forall i u, users d0 !! i = Some u -> role u = Mfa.Admin -> users d !! i = Some u) /\
  (forall i u, ~ C i -> users d !! i = Some u -> exists u0, users d0 !! i = Some u0 /\ role u = role u0 /\
     hashed_password u = hashed_password u0 /\ email u = email u0 /\ phone u = phone u0).
Proof.
  intros W H0 H. assert (B : bounded d0 C0 rank d C); [|by destruct B].
  eapply coalition_invariant; [|exact H]. constructor; eauto 10.
  intros i m act Hi Hg. right. eauto.
Qed.
End Spec.

(** ** One answer about a permission *)
Lemma module_value_inj m m' : module_value m = module_value m' -> m = m'.
Proof. intros E. pose proof (module_of_value m) as H. rewrite E, module_of_value in H. by injection H. Qed.
Lemma bind_module_value m : bind_module (module_value m) = Some m.
Proof. unfold bind_module. by rewrite module_of_value. Qed.
Lemma bind_module_name m : bind_module (map upper1 (module_value m)) = Some m.
Proof. by destruct m; vm_compute. Qed.
Definition action_name (a : action) : pystr := py match a with Read => "read" | Write => "write" | Delete => "delete" end.

Lemma foldl_insert_lookup (l : list (ModuleEnum * flags)) (acc : gmap pystr flags) m :
  NoDup l.*1 ->
  foldl (fun acc mf => <[module_value (fst mf) := snd mf]> acc) acc l !! module_value m =
  match (list_to_map l : rows) !! m with Some f => Some f | None => acc !! module_value m end.
Proof.
  revert acc. induction l as [|[k v] l IH]; intros acc Hnd; [done|].
  rewrite fmap_cons in Hnd. apply list.NoDup_cons in Hnd as [Hk Hnd]. cbn [foldl fst snd list_to_map foldr]. rewrite IH by done. destruct (decide (m = k)) as [->|Hne].
  - rewrite lookup_insert_eq. rewrite (not_elem_of_list_to_map_1 l k Hk). by rewrite !lookup_insert_eq.
  - rewrite !lookup_insert_ne; [done|congruence|]. intros E%module_value_inj. congruence.
Qed.
Lemma foldl_fill_lookup (ms : list pystr) (acc : gmap pystr flags) x :
  foldl (fun acc m => match acc !! m with None => <[m := no_flags]> acc | Some _ => acc end) acc ms !! x =
  match acc !! x with Some f => Some f | None => if decide (x ∈ ms) then Some no_flags else None end.
Proof.
  revert acc. induction ms as [|m ms IH]; intros acc; cbn; [by destruct (acc !! x)|]. rewrite IH.
  destruct (acc !! m) as [g|] eqn:Em.
  - destruct (acc !! x) eqn:Ex; [done|]. assert (x <> m) by congruence.
    destruct (decide (x ∈ ms)), (decide (x ∈ m :: ms)); set_solver.
  - destruct (decide (x = m)) as [->|Hne].
    + rewrite lookup_insert_eq, Em. rewrite decide_True by left. done.
    + rewrite lookup_insert_ne by done. destruct (acc !! x); [done|].
      destruct (decide (x ∈ ms)), (decide (x ∈ m :: ms)); set_solver.
Qed.

Definition allowed (d : db) (uid : Z) (u : user) (m : ModuleEnum) (act : action) : bool :=
  is_admin (role u) || grants (permissions_of d uid) m act.

(** C24: The three places that decide a module permission, and the list the sign-in hands to the user interface, give
    one answer: the routes' dependency (whether a route names the module by its value or by its member), the users
    service, and the listed flags agree for every account, module and action, and all say yes exactly for an
    administrator or an account whose row of that module has the flag. *)
Theorem permission_answers_agree d uid u m act :
  users d !! uid = Some u ->
  check_permission d uid (module_value m) (action_name act) = allowed d uid u m act /\
  require_permission d (module_value m) (action_name act) uid u = allowed d uid u m act /\
  require_permission d (map upper1 (module_value m)) (action_name act) uid u = allowed d uid u m act /\
  option_map (flag act) (get_user_permissions d uid (role u) !! module_value m) = Some (allowed d uid u m act).
Proof.
  intros Hu. unfold check_permission, require_permission, allowed, grants, get_user_permissions.
  rewrite Hu, module_of_value, bind_module_value, bind_module_name.
  destruct (is_admin (role u)); cbn [orb].
  - split_and!; [done..|]. by destruct m, act; vm_compute.
  - rewrite foldl_fill_lookup, foldl_insert_lookup by apply NoDup_fst_map_to_list.
    rewrite list_to_map_to_list, lookup_empty. rewrite (decide_True (P := module_value m ∈ _));
      [|apply list_elem_of_fmap; exists m; split; [done|apply members_all]].
    destruct (permissions_of d uid !! m) as [f|]; [|by destruct act]. by destruct act, f as [[] [] []]; vm_compute.
Qed.

(** ** A small server *)
Module Demo.
Definition bcrypt (salt password : pystr) : pystr := salt ++ ":"%char :: password.
Definition verify_password (password hashed : pystr) : bool :=
  match snd (partition1 ":"%char hashed) with Some p => bool_decide (p = password) | None => false end.
Definition account (name : string) (r : Mfa.role) : user :=
  MkUser (py name) (Some (py name ++ py "@x.org")) None None (bcrypt (py "s") (py name)) true false r Local false.
Definition management : rows := {[ USER_MANAGEMENT := Flags true true true; RISK := Flags true false false ]}.
(** An administrator, a manager who may manage users but not see the dashboard, and a user. *)
Definition start : db :=
  Db {[ 1 := account "root" Mfa.Admin; 2 := account "mona" Mfa.Manager; 3 := account "ulla" Mfa.User ]}
     {[ 2 := management ]} 4.
Definition newcomer : user_create :=
  UserCreate (py "newt") (py "newt@x.org") None (py "Secret-1") (py "user") true None.
Definition nothing : user_update := UserUpdate None None None None None None None None None.
Definition next (aid : Z) (o : op) (d : db) : db :=
  match request bcrypt verify_password (py "t") d aid o with Ok d' => d' | Raise _ => d end.
Definition with_newt : db := next 2 (CreateUser newcomer) start.
Lemma next_ok aid o d :
  is_ok (request bcrypt verify_password (py "t") d aid o) = true ->
  request bcrypt verify_password (py "t") d aid o = Ok (next aid o d).
Proof. unfold next. by destruct (request _ _ _ _ _ _). Qed.

(** The manager creates an account that may read the dashboard, which they may not. *)
Example defaults_exceed_the_creator :
  grants (permissions_of start 2) DASHBOARD Read = false /\
  request bcrypt verify_password (py "t") start 2 (CreateUser newcomer) = Ok with_newt /\
  grants (permissions_of with_newt 4) DASHBOARD Read = true.
Proof. split_and!; [by vm_compute|by apply next_ok; vm_compute|by vm_compute]. Qed.

Lemma start_wf : wf start.
Proof.
  assert (Hcase : forall i u, users start !! i = Some u ->
    i = 1 /\ u = account "root" Mfa.Admin \/ i = 2 /\ u = account "mona" Mfa.Manager \/ i = 3 /\ u = account "ulla" Mfa.User).
  { intros i u. unfold start. cbn. rewrite !lookup_insert_Some, lookup_singleton_Some. naive_solver. }
  constructor.
  - done.
  - intros i u H. change (next_id start) with 4. destruct (Hcase i u H) as [[-> _]|[[-> _]|[-> _]]]; lia.
  - intros i j u v Hi Hj. destruct (Hcase i u Hi) as [[-> ->]|[[-> ->]|[-> ->]]], (Hcase j v Hj) as [[-> ->]|[[-> ->]|[-> ->]]]; by intros [=].
  - intros i j u v e Hi Hj E F. rewrite <- F in E. revert E.
    destruct (Hcase i u Hi) as [[-> ->]|[[-> ->]|[-> ->]]], (Hcase j v Hj) as [[-> ->]|[[-> ->]|[-> ->]]]; by intros [=].
  - intros i [r H]. unfold start in H. cbn in H. apply lookup_singleton_Some in H as [<- _]. by eexists.
  - intros i u Hi Hr. destruct (Hcase i u Hi) as [[-> ->]|[[-> ->]|[-> ->]]]; done.
Qed.

(** The manager creates an account, the administrator turns the user's account off. *)
Lemma accounts_kept_witness :
  let d := next 1 (UpdateUser 3 (nothing {{ u_is_active := Some false }})) with_newt in
  wf d /\ has_admin d /\ option_map is_active (users d !! 3) = Some false.
Proof.
  intros d. assert (H : wf d /\ has_admin d); [|destruct H; split_and!; [done..|by vm_compute]].
  apply (accounts_kept bcrypt verify_password start d).
  - apply start_wf.
  - exists 1, (account "root" Mfa.Admin). by vm_compute.
  - apply (rtc_l _ _ with_newt).
    + apply (step_request _ _ _ _ (py "t") 2 (account "mona" Mfa.Manager) (CreateUser newcomer)); [by vm_compute|done|].
      by apply next_ok; vm_compute.
    + apply rtc_once.
      apply (step_request _ _ _ _ (py "t") 1 (account "root" Mfa.Admin) (UpdateUser 3 (nothing {{ u_is_active := Some false }})));
        [by vm_compute|done|]. by apply next_ok; vm_compute.
Defined.

(** The manager and the account they made: it is theirs, and no administrator's. *)
Lemma no_escalation_witness :
  exists C, coalition bcrypt verify_password start (fun i => i = 2) with_newt C /\ C 4 /\
    (forall u, users with_newt !! 4 = Some u -> role u <> Mfa.Admin) /\
    users with_newt !! 1 = users start !! 1.
Proof.
  exists (fun i => i = 2 \/ taken start with_newt i).
  assert (H : coalition bcrypt verify_password start (fun i => i = 2) with_newt (fun i => i = 2 \/ taken start with_newt i)).
  { eapply (coalition_request _ _ _ _ _ _ _ (py "t") 2 (account "mona" Mfa.Manager) (CreateUser newcomer));
      [constructor|done|by vm_compute|done|done|by apply next_ok; vm_compute]. }
  assert (H4 : 4 = 2 \/ taken start with_newt 4).
  { right. exists (MkUser (py "newt") (Some (py "newt@x.org")) None None (bcrypt (py "t") (py "Secret-1")) true true Mfa.User Local false).
    by split; vm_compute. }
  assert (Hr : forall i u, i = 2 -> users start !! i = Some u -> role u <> Mfa.Admin /\ _ROLE_RANK (role u) <= 2).
  { intros i u -> Hu. vm_compute in Hu. injection Hu as <-. by vm_compute. }
  destruct (no_escalation bcrypt verify_password _ _ 2 _ _ start_wf Hr H) as (R1 & _ & R3 & _).
  split_and!; [exact H|exact H4| |].
  - intros u Hu. by apply (R1 4 u H4 Hu).
  - rewrite (R3 1 (account "root" Mfa.Admin)); [by vm_compute|by vm_compute|done].
Defined.
Lemma permission_answers_agree_witness :
  require_permission start (py "RISK") (py "read") 2 (account "mona" Mfa.Manager) = true /\
  check_permission start 2 (py "risk") (py "write") = false.
Proof.
  split.
  - etransitivity; [apply (proj1 (proj2 (proj2 (permission_answers_agree start 2 (account "mona" Mfa.Manager) RISK Read eq_refl))))|].
    by vm_compute.
  - etransitivity; [apply (proj1 (permission_answers_agree start 2 (account "mona" Mfa.Manager) RISK Write eq_refl))|].
    by vm_compute.
Defined.
End Demo.
