(* ===== verification/Directory.v ===== *)
(** * Directory accounts
    (src/app/modules/directory/service.py, and the group search of ldap.py)

    Sign-in with Active Directory or LDAP: what a user's groups give, the
    account made or brought up to date at a sign-in, the periodic check of
    every directory account, and the search of groups of groups.  The LDAP
    server is an argument: what a search finds, and whether a bind succeeds.
    The columns that only record (external_dn, directory_synced_at) are left out. *)
From S2P Require Import Prelude PyStr Accounts Users.
Import Permissions.

(** [DirectoryUnavailable] *)
Inductive unavailable : Type := DirectoryUnavailable.

(** [norm_dn] *)
Fixpoint join_commas (parts : list pystr) : pystr :=
  match parts with
  | [] => []
  | [p] => p
  | p :: ps => p ++ ","%char :: join_commas ps
  end.
Definition norm_dn (dn : pystr) : pystr := lower (join_commas (map strip (split_on ","%char dn))).

(** ** Groups of groups *)
Section Groups.
(** The groups whose member is this entry, one search of the server. *)
Context (groups_with : pystr -> res unavailable (list pystr)).

(** [Session.groups_of] for directories other than Active Directory: one level
    after another.  [seen] maps a group's normalised name to its spelling. *)
Definition NESTING_DEPTH : nat := 8.
Fixpoint note (found : list pystr) (seen : gmap pystr pystr) (nxt : list pystr) : gmap pystr pystr * list pystr :=
  match found with
  | [] => (seen, nxt)
  | dn :: found =>
      match seen !! norm_dn dn with
      | Some _ => note found seen nxt
      | None => note found (<[norm_dn dn := dn]> seen) (nxt ++ [dn])
      end
  end.
Fixpoint level (frontier : list pystr) (seen : gmap pystr pystr) (nxt : list pystr)
    : res unavailable (gmap pystr pystr * list pystr) :=
  match frontier with
  | [] => Ok (seen, nxt)
  | dn :: frontier =>
      let! found := groups_with dn in
      let '(seen, nxt) := note found seen nxt in
      level frontier seen nxt
  end.
Fixpoint levels (n : nat) (frontier : list pystr) (seen : gmap pystr pystr) : res unavailable (gmap pystr pystr) :=
  match n with
  | O => Ok seen
  | S n =>
      let! (seen, nxt) := level frontier seen [] in
      match nxt with [] => Ok seen | _ => levels n nxt seen end
  end.
Definition groups_of (dn : pystr) : res unavailable (list pystr) :=
  let! seen := levels NESTING_DEPTH [dn] ∅ in
  Ok (map snd (map_to_list seen)).

(** The reference: chains of memberships. *)
Inductive reached : nat -> pystr -> pystr -> Prop :=
| reached_0 dn : reached 0 dn dn
| reached_S n dn g h found : reached n dn g -> groups_with g = Ok found -> h ∈ found -> reached (S n) dn h.
End Groups.

(** ** What groups give *)
Record mapping : Type := Mapping { group_dn : pystr; m_role : Mfa.role; m_permissions : list perm_in }.
Record grant : Type := Grant { g_role : Mfa.role; g_permissions : gmap pystr flags; g_groups : list pystr }.

Definition is_hit (groups : list pystr) (m : mapping) : bool := bool_decide (norm_dn (group_dn m) ∈ map norm_dn groups).
Definition or_flags (f g : flags) : flags :=
  Flags (can_read f || can_read g) (can_write f || can_write g) (can_delete f || can_delete g).

(** [max(roles, key=rank)]: the first of the highest. *)
Definition higher (r s : Mfa.role) : Mfa.role := if _ROLE_RANK r <? _ROLE_RANK s then s else r.
Definition collect (acc : gmap pystr flags) (p : perm_in) : gmap pystr flags :=
  <[p_module p := or_flags (default no_flags (acc !! p_module p)) (p_flags p)]> acc.

(** [resolve] *)
Definition resolve (mappings : list mapping) (groups : list pystr) : option grant :=
  match List.filter (is_hit groups) mappings with
  | [] => None
  | m :: hits =>
      let r := foldl (fun r m => higher r (m_role m)) (m_role m) hits in
      let perms := if is_admin r then ∅ else foldl (fun acc m => foldl collect acc (m_permissions m)) ∅ (m :: hits) in
      Some (Grant r perms (map group_dn (m :: hits)))
  end.

(** [_apply_grant]: the tables after, and what changed. *)
Inductive change : Type := RoleChanged | PermissionsChanged | TurnedOn.
Definition some_flag (kv : pystr * flags) : Prop := any_flag (snd kv) = true.
Definition by_value (r : rows) : gmap pystr flags := kmap module_value r.
Definition by_module (w : gmap pystr flags) : rows :=
  list_to_map (omap (fun sf => option_map (fun m => (m, snd sf)) (module_of (fst sf))) (map_to_list w)).
Definition _apply_grant (d : db) (uid : Z) (u : user) (g : grant) : db * list change :=
  let '(u', c1) := if bool_decide (role u = g_role g) then (u, []) else (u {{ role := g_role g }}, [RoleChanged]) in
  let d := put_user uid u' d in
  let wanted := filter some_flag (if is_admin (g_role g) then ∅ else g_permissions g) in
  let current := filter some_flag (by_value (permissions_of d uid)) in
  if bool_decide (current = wanted) then (d, c1)
  else (put_rows uid (by_module wanted) d, c1 ++ [PermissionsChanged]).

(** ** Accounts *)
Record directory_user : Type := DirectoryUser { dn : pystr; du_name : pystr; du_email : option pystr; disabled : bool }.

(** [local_account], [_directory_account], [_free_email] *)
Definition local_account (d : db) (name : pystr) : bool :=
  bool_decide (map_Exists (fun _ u => username u = name /\ source u = Local) (users d)).
Definition _directory_account (d : db) (name : pystr) : option (Z * user) :=
  List.find (fun iu => bool_decide (source (snd iu) = Ldap /\ lower (username (snd iu)) = lower name)) (map_to_list (users d)).
Definition _free_email (d : db) (e : option pystr) (but : option Z) : option pystr :=
  match e with
  | Some ((_ :: _) as e') =>
      if bool_decide (map_Exists (fun i u => Some i <> but /\ option_map lower (email u) = Some (lower e')) (users d))
      then None else Some e'
  | _ => None
  end.

Section Server.
(** The server: [find_user], [check_password] and [groups_of] of the session,
    each of which may find it unreachable. *)
Context (find_user : pystr -> res unavailable (option directory_user)).
Context (check_password : directory_user -> pystr -> res unavailable bool).
Context (groups_of : directory_user -> res unavailable (list pystr)).

(** [_provision]: the tables and the account's id; [hashed] is the hash of a random
    password.  A name already taken by another account is the database's IntegrityError. *)
Definition _provision (hashed : pystr) (d : db) (found : directory_user) (g : grant) : res error (db * Z) :=
  let name := lower (du_name found) in
  match _directory_account d name with
  | None =>
      check negb (username_taken d None name) else IntegrityError in
      let uid := next_id d in
      let u := {| username := name; email := _free_email d (du_email found) None; phone := None; language := None;
                  hashed_password := hashed; is_active := true; must_change_password := false;
                  role := g_role g; source := Ldap; disabled_by_directory := false |} in
      Ok (fst (_apply_grant ((put_user uid u d) {{ next_id := uid + 1 }}) uid u g), uid)
  | Some (uid, u) =>
      let d := fst (_apply_grant d uid u g) in
      let u := default u (users d !! uid) in
      let u := match du_email found, email u with
               | Some (_ :: _), (None | Some []) => u {{ email := _free_email d (du_email found) (Some uid) }}
               | _, _ => u
               end in
      let u := if negb (is_active u) && disabled_by_directory u
               then u {{ is_active := true }} {{ disabled_by_directory := false }} else u in
      Ok (put_user uid u d, uid)
  end.

(** [sign_in] *)
Inductive outcome : Type := SignedIn (d : db) (uid : Z) | BadCredentials | DisabledThere | NoGroup | ServerError (e : error).
Definition sign_in (mappings : list mapping) (hashed : pystr) (d : db) (name password : pystr) : res unavailable outcome :=
  let! found := find_user name in
  match found with
  | None => Ok BadCredentials
  | Some f =>
      let! good := check_password f password in
      if negb good then Ok BadCredentials
      else if disabled f then Ok DisabledThere
      else
        let! groups := groups_of f in
        match resolve mappings groups with
        | None => Ok NoGroup
        | Some g => Ok match _provision hashed d f g with Ok (d', uid) => SignedIn d' uid | Raise e => ServerError e end
        end
  end.

(** What the directory says of an account. *)
Inductive verdict : Type := Missing | Disabled | InNoGroup | Gives (g : grant).
Definition verdict_of (mappings : list mapping) (name : pystr) : res unavailable verdict :=
  let! found := find_user name in
  match found with
  | None => Ok Missing
  | Some f =>
      if disabled f then Ok Disabled
      else let! groups := groups_of f in
           Ok match resolve mappings groups with None => InNoGroup | Some g => Gives g end
  end.

(** [check_accounts], its loop: each account is committed before the next;
    the accounts to turn off are kept for the end. *)
Fixpoint check_loop (mappings : list mapping) (us : list (Z * user)) (d : db) (off : list Z) (updated : Z)
    : db * option (list Z * Z) :=
  match us with
  | [] => (d, Some (off, updated))
  | (uid, u) :: us =>
      match verdict_of mappings (username u) with
      | Raise _ => (d, None)
      | Ok (Gives g) =>
          let '(d, changes) := _apply_grant d uid u g in
          check_loop mappings us d off (updated + match changes with [] => 0 | _ => 1 end)
      | Ok _ => check_loop mappings us d (off ++ [uid]) updated
      end
  end.
Definition turn_off (d : db) (uid : Z) : db :=
  match users d !! uid with
  | Some u => put_user uid (u {{ is_active := false }} {{ disabled_by_directory := true }}) d
  | None => d
  end.
Inductive status : Type := Skipped | Failed | Checked (checked updated turned_off : Z).
Definition to_check (d : db) : list (Z * user) :=
  List.filter (fun iu => bool_decide (source (snd iu) = Ldap) && is_active (snd iu)) (map_to_list (users d)).
Definition check_accounts (enabled : bool) (mappings : list mapping) (d : db) : db * status :=
  if negb enabled then (d, Skipped)
  else
    let us := to_check d in
    match check_loop mappings us d [] 0 with
    | (d, None) => (d, Failed)
    | (d, Some (off, updated)) =>
        (foldl turn_off d off, Checked (Z.of_nat (length us)) updated (Z.of_nat (length off)))
    end.
End Server.

(** ** Groups of groups: the search is the closure *)
Section GroupsProofs.
Context (groups_with : pystr -> res unavailable (list pystr)).
(** A directory compares names without regard to case and spaces. *)
Context (same_entry : forall a b, norm_dn a = norm_dn b -> groups_with a = groups_with b).
Notation reached := (reached groups_with).

(** What one search adds. *)
Definition adds (from : pystr -> Prop) (seen seen' : gmap pystr pystr) (nxt nxt' : list pystr) : Prop :=
  (forall k h, seen' !! k = Some h -> seen !! k = Some h \/ norm_dn h = k /\ from h) /\
  (forall k, is_Some (seen !! k) -> is_Some (seen' !! k)) /\
  (forall h, from h -> is_Some (seen' !! norm_dn h)) /\
  (forall h, h ∈ nxt' -> h ∈ nxt \/ from h) /\
  (forall h, h ∈ nxt -> h ∈ nxt') /\
  (forall k, is_Some (seen' !! k) -> is_Some (seen !! k) \/ exists h, h ∈ nxt' /\ norm_dn h = k).

Lemma adds_trans p q seen seen1 seen2 nxt nxt1 nxt2 :
  adds p seen seen1 nxt nxt1 -> adds q seen1 seen2 nxt1 nxt2 -> adds (fun h => p h \/ q h) seen seen2 nxt nxt2.
Proof.
  intros (A1 & A2 & A3 & A4 & A5 & A6) (B1 & B2 & B3 & B4 & B5 & B6). split_and!.
  - intros k h [[?|[? ?]]%A1|[? ?]]%B1; auto.
  - auto.
  - intros h [?|?]; auto.
  - intros h [[?|?]%A4|?]%B4; auto.
  - auto.
  - intros k [[?|(h & ? & ?)]%A6|(h & ? & ?)]%B6; eauto.
Qed.
Lemma adds_iff p q seen seen' nxt nxt' : (forall h, p h <-> q h) -> adds p seen seen' nxt nxt' -> adds q seen seen' nxt nxt'.
Proof.
  intros E (A1 & A2 & A3 & A4 & A5 & A6). split_and!; eauto.
  - intros k h [?|[? ?%E]]%A1; auto.
  - intros h ?%E. auto.
  - intros h [?|?%E]%A4; auto.
Qed.

Lemma note_adds found seen nxt seen' nxt' :
  note found seen nxt = (seen', nxt') -> adds (fun h => h ∈ found) seen seen' nxt nxt'.
Proof.
  revert seen nxt. induction found as [|h found IH]; intros seen nxt; cbn.
  - intros [= <- <-]. split_and!; eauto. intros h Hh. by apply elem_of_nil in Hh.
  - intros H. apply (adds_iff (fun x => x = h \/ x ∈ found)); [intros x; by rewrite elem_of_cons|].
    destruct (seen !! norm_dn h) as [g|] eqn:Es; eapply adds_trans; [|by apply IH| |by apply IH].
    + split_and!; eauto. intros x ->. by exists g.
    + split_and!.
      * intros k x [[<- <-]|[? ?]]%lookup_insert_Some; auto.
      * intros k Hk. destruct (decide (k = norm_dn h)) as [->|]; [by rewrite lookup_insert_eq|by rewrite lookup_insert_ne].
      * intros x ->. by rewrite lookup_insert_eq.
      * set_solver.
      * set_solver.
      * intros k Hk. destruct (decide (k = norm_dn h)) as [->|]; [right; exists h; set_solver|].
        rewrite lookup_insert_ne in Hk by done. auto.
Qed.

Lemma level_adds frontier seen nxt seen' nxt' :
  level groups_with frontier seen nxt = Ok (seen', nxt') ->
  adds (fun h => exists f found, f ∈ frontier /\ groups_with f = Ok found /\ h ∈ found) seen seen' nxt nxt' /\
  forall f, f ∈ frontier -> exists found, groups_with f = Ok found.
Proof.
  revert seen nxt. induction frontier as [|f frontier IH]; intros seen nxt; cbn.
  - intros [= <- <-]. split; [|intros f Hf; by apply elem_of_nil in Hf]. split_and!; eauto.
    intros h (f & found & Hf & _). by apply elem_of_nil in Hf.
  - destruct (groups_with f) as [found|] eqn:Ef; [|done]. cbn. destruct (note found seen nxt) as [seen1 nxt1] eqn:En.
    intros [A F]%IH. split.
    + eapply adds_iff; [|eapply adds_trans; [by eapply note_adds|exact A]]. intros h. split.
      * intros [Hin|(x & fd & ? & ? & ?)]; [exists f, found|exists x, fd]; split_and!; auto; [left|by right].
      * intros (x & fd & [->|Hx]%elem_of_cons & Hg & Hin); [left; congruence|right; by exists x, fd].
    + intros x [->|Hx]%elem_of_cons; eauto.
Qed.

(** After [k] levels: the groups within [k] steps are seen, and the frontier
    stands for those not seen before. *)
Definition searched (dn : pystr) (k : nat) (frontier : list pystr) (seen : gmap pystr pystr) : Prop :=
  (forall key h, seen !! key = Some h -> norm_dn h = key /\ exists i, (1 <= i <= k)%nat /\ reached i dn h) /\
  (forall i h, (1 <= i <= k)%nat -> reached i dn h -> is_Some (seen !! norm_dn h)) /\
  (forall f, f ∈ frontier -> reached k dn f) /\
  (forall h, reached k dn h -> (exists f, f ∈ frontier /\ norm_dn f = norm_dn h) \/
     exists i g, (i < k)%nat /\ reached i dn g /\ norm_dn g = norm_dn h).

Lemma searched_start dn : searched dn 0 [dn] ∅.
Proof.
  split_and!.
  - intros key h H. by rewrite lookup_empty in H.
  - lia.
  - intros f ->%list_elem_of_singleton. constructor.
  - intros h H. inversion H; subst. left. exists h. split; [left|done].
Qed.

Lemma searched_next dn k frontier seen seen' nxt' :
  searched dn k frontier seen -> level groups_with frontier seen [] = Ok (seen', nxt') -> searched dn (S k) nxt' seen'.
Proof using same_entry.
  intros (S1 & S2 & S3 & S4) [(A1 & A2 & A3 & A4 & A5 & A6) F]%level_adds.
  assert (Hnew : forall h, reached (S k) dn h -> is_Some (seen' !! norm_dn h)).
  { intros h H. inversion H as [|n dn' g h' found Hg Hgw Hin]; subst.
    destruct (S4 g Hg) as [(f & Hf & E)|(i & g' & Hi & Hg' & E)].
    - apply A3. exists f, found. rewrite (same_entry f g E). done.
    - apply A2, (S2 (S i)); [lia|]. econstructor; [exact Hg'|by rewrite (same_entry g' g E)|exact Hin]. }
  split_and!.
  - intros key h [H|[E (f & found & Hf & Hgw & Hin)]]%A1.
    + destruct (S1 _ _ H) as (E & i & Hi & Hr). split; [done|]. exists i. split; [lia|done].
    + split; [done|]. exists (S k). split; [lia|]. econstructor; eauto.
  - intros i h Hi Hr. destruct (decide (i = S k)) as [->|Hne]; [by apply Hnew|]. apply A2, (S2 i); [lia|done].
  - intros h [H|(f & found & Hf & Hgw & Hin)]%A4; [by apply elem_of_nil in H|]. econstructor; eauto.
  - intros h Hr. destruct (A6 _ (Hnew h Hr)) as [[g Hg]|(g & Hg & E)]; [|by left; exists g].
    right. destruct (S1 _ _ Hg) as (E & i & Hi & Hri). exists i, g. split_and!; [lia|done|done].
Qed.

(** Nothing new at a level: nothing new at any later one. *)
Lemma searched_done dn k seen :
  searched dn k [] seen -> forall i h, (1 <= i)%nat -> reached i dn h -> is_Some (seen !! norm_dn h).
Proof using same_entry.
  intros (S1 & S2 & S3 & S4).
  assert (Hback : forall j h, reached (k + j) dn h -> exists i g, (i < k)%nat /\ reached i dn g /\ norm_dn g = norm_dn h).
  { induction j as [|j IH]; intros h H.
    - rewrite Nat.add_0_r in H. destruct (S4 h H) as [(f & Hf & _)|?]; [by apply elem_of_nil in Hf|done].
    - rewrite Nat.add_succ_r in H. inversion H as [|n dn' g h' found Hg Hgw Hin]; subst.
      destruct (IH g Hg) as (i & g' & Hi & Hr & E).
      assert (Hh : reached (S i) dn h) by (econstructor; [exact Hr|by rewrite (same_entry g' g E)|exact Hin]).
      destruct (decide (S i = k)) as [<-|]; [|exists (S i), h; split_and!; [lia|done|done]].
      destruct (S4 h Hh) as [(f & Hf & _)|?]; [by apply elem_of_nil in Hf|done]. }
  intros i h Hi Hr. destruct (decide (i <= k)%nat) as [Hle|Hgt]; [apply (S2 i); [lia|done]|].
  inversion Hr as [|n dn' p h' found Hp Hgw Hin]; subst; [lia|].
  destruct (Hback (n - k)%nat p) as (j & g & Hj & Hg & E); [by replace (k + (n - k))%nat with n by lia|].
  apply (S2 (S j)); [lia|]. econstructor; [exact Hg|by rewrite (same_entry g p E)|exact Hin].
Qed.

Lemma levels_spec n : forall dn k frontier seen seen',
  searched dn k frontier seen -> levels groups_with n frontier seen = Ok seen' ->
  (forall key h, seen' !! key = Some h -> norm_dn h = key /\ exists i, (1 <= i <= k + n)%nat /\ reached i dn h) /\
  (forall i h, (1 <= i <= k + n)%nat -> reached i dn h -> is_Some (seen' !! norm_dn h)).
Proof using same_entry.
  induction n as [|n IH]; intros dn k frontier seen seen' S; cbn.
  - intros [= <-]. rewrite Nat.add_0_r. destruct S as (S1 & S2 & _). eauto.
  - destruct (level _ _ _ _) as [[seen1 nxt]|] eqn:El; [|done]. cbn.
    assert (S' := searched_next _ _ _ _ _ _ S El). destruct nxt as [|f nxt].
    + intros [= <-]. pose proof (proj1 S') as S1. split.
      * intros key h H. destruct (S1 _ _ H) as (? & i & ? & ?). split; [done|]. exists i. split; [lia|done].
      * intros i h Hi Hr. apply (searched_done _ _ _ S' i); [lia|exact Hr].
    + intros H. replace (k + Datatypes.S n)%nat with (Datatypes.S k + n)%nat by lia. by apply (IH dn (Datatypes.S k) (f :: nxt) seen1).
Qed.

(** The search of groups of groups is the closure: when the server answers, what it returns is, up to the spelling
    of a name, exactly the groups that contain the entry through a chain of one to [NESTING_DEPTH] memberships, cycles
    included, and no group twice. *)
Theorem groups_reached entry l :
  groups_of groups_with entry = Ok l ->
  (forall g, g ∈ l -> exists i, (1 <= i <= NESTING_DEPTH)%nat /\ reached i entry g) /\
  (forall i g, (1 <= i <= NESTING_DEPTH)%nat -> reached i entry g -> norm_dn g ∈ map norm_dn l) /\
  NoDup (map norm_dn l).
Proof using same_entry.
  unfold groups_of. destruct (levels _ _ _ _) as [seen|] eqn:E; [|done]. cbn. intros [= <-].
  apply (levels_spec _ _ _ _ _ _ (searched_start entry)) in E as [E1 E2]. cbn [Nat.add] in *.
  assert (Hk : map norm_dn (map snd (map_to_list seen)) = map fst (map_to_list seen)).
  { rewrite List.map_map. apply map_ext_in. intros [key h] Hin%list_elem_of_In%elem_of_map_to_list. cbn. by apply E1. }
  split_and!.
  - intros g ([key h] & -> & Hin%elem_of_map_to_list)%list_elem_of_fmap. cbn. apply (proj2 (E1 _ _ Hin)).
  - intros i g Hi Hr. rewrite Hk. destruct (E2 i g Hi Hr) as [h Hh]. apply list_elem_of_fmap.
    exists (norm_dn g, h). split; [done|]. by apply elem_of_map_to_list.
  - rewrite Hk. apply NoDup_fst_map_to_list.
Qed.
End GroupsProofs.

(** ** What groups give *)
Lemma higher_max r s :
  (_ROLE_RANK r <= _ROLE_RANK (higher r s)) /\ (_ROLE_RANK s <= _ROLE_RANK (higher r s)) /\ (higher r s = r \/ higher r s = s).
Proof. unfold higher. destruct (Z.ltb_spec (_ROLE_RANK r) (_ROLE_RANK s)); split_and!; auto; lia. Qed.
Lemma foldl_higher hits r0 :
  let r := foldl (fun r m => higher r (m_role m)) r0 hits in
  (_ROLE_RANK r0 <= _ROLE_RANK r) /\ (forall m, m ∈ hits -> _ROLE_RANK (m_role m) <= _ROLE_RANK r) /\
  (r = r0 \/ exists m, m ∈ hits /\ m_role m = r).
Proof.
  revert r0. induction hits as [|m hits IH]; intros r0; cbn [foldl].
  - split_and!; [lia| |by left]. intros m Hm. by apply elem_of_nil in Hm.
  - destruct (IH (higher r0 (m_role m))) as (H1 & H2 & H3). destruct (higher_max r0 (m_role m)) as (G1 & G2 & G3).
    split_and!; [lia| |].
    + intros x [->|Hx]%elem_of_cons; [lia|auto].
    + destruct H3 as [H3|(x & Hx & E)]; [|right; exists x; split; [by right|done]].
      destruct G3 as [G3|G3]; [left; congruence|right; exists m; split; [left|congruence]].
Qed.

Lemma flag_or a f g : flag a (or_flags f g) = flag a f || flag a g.
Proof. by destruct a. Qed.
Definition gives (acc : gmap pystr flags) (s : pystr) (a : action) : bool :=
  match acc !! s with Some f => flag a f | None => false end.
Lemma gives_collect acc p s a :
  gives (collect acc p) s a = gives acc s a || bool_decide (p_module p = s) && flag a (p_flags p).
Proof.
  unfold gives, collect. case_bool_decide as E.
  - subst s. rewrite lookup_insert_eq, flag_or. destruct (acc !! p_module p); [done|]. by destruct a.
  - rewrite lookup_insert_ne by done. by rewrite orb_false_r.
Qed.
Lemma gives_collect_all ps acc s a :
  gives (foldl collect acc ps) s a = true <->
  gives acc s a = true \/ exists p, p ∈ ps /\ p_module p = s /\ flag a (p_flags p) = true.
Proof.
  revert acc. induction ps as [|p ps IH]; intros acc; cbn [foldl].
  - split; [auto|]. intros [?|(p & Hp & _)]; [done|by apply elem_of_nil in Hp].
  - rewrite IH, gives_collect, orb_true_iff, andb_true_iff, bool_decide_eq_true. split.
    + intros [[?|[? ?]]|(q & ? & ?)]; [auto|right; exists p; split; [left|done]|right; exists q; split; [by right|done]].
    + intros [?|(q & [->|Hq]%elem_of_cons & ? & ?)]; [auto|auto|right; eauto].
Qed.
Lemma gives_hits hits acc s a :
  gives (foldl (fun acc m => foldl collect acc (m_permissions m)) acc hits) s a = true <->
  gives acc s a = true \/ exists m p, m ∈ hits /\ p ∈ m_permissions m /\ p_module p = s /\ flag a (p_flags p) = true.
Proof.
  revert acc. induction hits as [|m hits IH]; intros acc; cbn [foldl].
  - split; [auto|]. intros [?|(m & p & Hm & _)]; [done|by apply elem_of_nil in Hm].
  - rewrite IH, gives_collect_all. split.
    + intros [[?|(p & ? & ?)]|(n & p & ? & ?)]; [auto|right; exists m, p; split; [left|done]|right; exists n, p; split; [by right|done]].
    + intros [?|(n & p & [->|Hn]%elem_of_cons & ?)]; [auto|left; right; eauto|right; eauto].
Qed.

(** What a grant means for an account: the reference, straight from the mappings. *)
Definition granted_by (mappings : list mapping) (groups : list pystr) (r : Mfa.role) (s : pystr) (a : action) : Prop :=
  r = Mfa.Admin \/
  exists m p, m ∈ mappings /\ is_hit groups m = true /\ p ∈ m_permissions m /\ p_module p = s /\ flag a (p_flags p) = true.
Definition highest (mappings : list mapping) (groups : list pystr) (r : Mfa.role) : Prop :=
  (exists m, m ∈ mappings /\ is_hit groups m = true /\ m_role m = r) /\
  forall m, m ∈ mappings -> is_hit groups m = true -> _ROLE_RANK (m_role m) <= _ROLE_RANK r.

Lemma resolve_spec mappings groups :
  match resolve mappings groups with
  | None => forall m, m ∈ mappings -> is_hit groups m = false
  | Some g => highest mappings groups (g_role g) /\
      forall s a, granted_by mappings groups (g_role g) s a <-> g_role g = Mfa.Admin \/ gives (g_permissions g) s a = true
  end.
Proof.
  unfold resolve. destruct (List.filter _ _) as [|m hits] eqn:E; [by apply filter_is_nil|]. cbn [g_role g_permissions].
  set (r := foldl _ (m_role m) hits).
  assert (Hin : forall x, x ∈ m :: hits <-> x ∈ mappings /\ is_hit groups x = true) by (intros; by rewrite <- E, elem_filter).
  destruct (foldl_higher hits (m_role m)) as (H1 & H2 & H3). fold r in H1, H2, H3. split.
  - split.
    + destruct H3 as [->|(x & Hx & <-)].
      * exists m. destruct (proj1 (Hin m)) as [? ?]; [left|done].
      * exists x. destruct (proj1 (Hin x)) as [? ?]; [by right|done].
    + intros x Hx Hh. pose proof (proj2 (Hin x) (conj Hx Hh)) as Hc. apply elem_of_cons in Hc as [->|?]; auto.
  - intros s a. unfold granted_by, is_admin. case_bool_decide as Ea; [tauto|].
    rewrite gives_hits. unfold gives at 1. rewrite lookup_empty. split.
    + intros [?|(x & p & Hx & Hh & ?)]; [done|]. right. right. exists x, p. split; [|done]. by apply Hin.
    + intros [?|[?|(x & p & Hx & ?)]]; [done|done|]. right. apply Hin in Hx as [? ?]. by exists x, p.
Qed.

(** ** The account after its groups were applied *)
#[global] Instance module_value_inj' : Inj (=) (=) module_value.
Proof. intros m m'. apply module_value_inj. Qed.

Lemma module_of_some s m : module_of s = Some m -> module_value m = s.
Proof. unfold module_of. intros [_ H]%List.find_some. by apply bool_decide_eq_true in H. Qed.
Lemma by_module_lookup w m : by_module w !! m = w !! module_value m.
Proof.
  assert (Hel : forall f, (m, f) ∈ omap (fun sf => option_map (fun m => (m, snd sf)) (module_of (fst sf))) (map_to_list w) <-> w !! module_value m = Some f).
  { intros f. rewrite list_elem_of_omap. split.
    - intros ([s g] & Hin%elem_of_map_to_list & E). cbn in E. destruct (module_of s) as [m'|] eqn:Em; [|done].
      injection E as -> ->. by rewrite (module_of_some _ _ Em).
    - intros H. exists (module_value m, f). rewrite elem_of_map_to_list. cbn. by rewrite module_of_value. }
  unfold by_module. destruct (w !! module_value m) as [f|] eqn:E.
  - apply elem_of_list_to_map_1'; [|by apply Hel]. intros g Hg%Hel. congruence.
  - apply not_elem_of_list_to_map_1. intros ([m' f] & Em & Hin)%list_elem_of_fmap. cbn in Em. subst m'.
    apply Hel in Hin. congruence.
Qed.
Lemma any_flag_of a f : flag a f = true -> any_flag f = true.
Proof. destruct a, f as [[] [] []]; by cbn. Qed.
Lemma gives_filter w s a : gives (filter some_flag w) s a = gives w s a.
Proof.
  unfold gives. destruct (w !! s) as [f|] eqn:E.
  - destruct (filter some_flag w !! s) as [g|] eqn:Eg.
    + apply map_lookup_filter_Some in Eg as [Eg _]. congruence.
    + destruct (flag a f) eqn:Ef; [|done]. exfalso. apply map_lookup_filter_None in Eg as [Eg|Eg]; [congruence|].
      apply (Eg f E). unfold some_flag. by eapply any_flag_of.
  - destruct (filter some_flag w !! s) as [g|] eqn:Eg; [|done]. apply map_lookup_filter_Some in Eg as [Eg _]. congruence.
Qed.
Lemma gives_by_value r m a : gives (by_value r) (module_value m) a = grants r m a.
Proof. unfold gives, by_value, grants. by rewrite lookup_kmap by apply _. Qed.

(** Nothing but this account's row and permissions is touched. *)
Definition untouched (d d' : db) (uid : Z) : Prop :=
  users d' !! uid = users d !! uid /\ permissions d' !! uid = permissions d !! uid.
(** An account that follows a grant. *)
Definition follows (d : db) (uid : Z) (u : user) (g : grant) : Prop :=
  users d !! uid = Some (u {{ role := g_role g }}) /\
  forall m a, grants (permissions_of d uid) m a = negb (is_admin (g_role g)) && gives (g_permissions g) (module_value m) a.

Lemma apply_grant_spec d uid u g d' c :
  _apply_grant d uid u g = (d', c) -> follows d' uid u g /\ (forall j, j <> uid -> untouched d d' j).
Proof.
  unfold _apply_grant. set (uc := if bool_decide (role u = g_role g) then _ else _).
  assert (Hu : fst uc = u {{ role := g_role g }}) by (unfold uc; case_bool_decide as E; [destruct u; cbn in *; by subst|done]).
  destruct uc as [u' c1]. cbn in Hu. subst u'. set (wanted := if is_admin (g_role g) then ∅ else g_permissions g).
  assert (Hw : forall m a, gives wanted (module_value m) a = negb (is_admin (g_role g)) && gives (g_permissions g) (module_value m) a).
  { intros m a. unfold wanted. destruct (is_admin (g_role g)); [|done]. unfold gives. by rewrite lookup_empty. }
  case_bool_decide as E; intros [= <- <-]; (split; [split|]).
  - cbn. apply lookup_insert_eq.
  - intros m a. rewrite <- gives_by_value, <- gives_filter, E, gives_filter. apply Hw.
  - intros j Hj. split; cbn; [by rewrite lookup_insert_ne|done].
  - cbn. apply lookup_insert_eq.
  - intros m a. rewrite <- Hw, <- (gives_filter wanted). unfold grants, permissions_of, gives, put_rows. cbn.
    rewrite lookup_insert_eq. cbn. by rewrite by_module_lookup.
  - intros j Hj. split; cbn; by rewrite lookup_insert_ne.
Qed.

Lemma untouched_trans d d1 d2 uid : untouched d d1 uid -> untouched d1 d2 uid -> untouched d d2 uid.
Proof. intros [H1 H2] [H3 H4]. split; congruence. Qed.
Lemma follows_untouched d d' uid u g : follows d uid u g -> untouched d d' uid -> follows d' uid u g.
Proof. intros [H1 H2] [E1 E2]. split; [congruence|]. unfold permissions_of in *. by rewrite E2. Qed.

Section CheckProofs.
Context (find_user : pystr -> res unavailable (option directory_user)).
Context (groups_of : directory_user -> res unavailable (list pystr)).
Notation verdict_of := (verdict_of find_user groups_of).
Notation check_loop := (check_loop find_user groups_of).

Lemma check_loop_spec mappings us : forall d off updated d' off' updated',
  NoDup us.*1 -> (forall uid u, (uid, u) ∈ us -> users d !! uid = Some u) ->
  check_loop mappings us d off updated = (d', Some (off', updated')) ->
  (forall uid, uid ∉ us.*1 -> untouched d d' uid) /\
  (forall uid u, (uid, u) ∈ us -> exists v, verdict_of mappings (username u) = Ok v /\
     match v with Gives g => follows d' uid u g | _ => untouched d d' uid end) /\
  (forall uid, uid ∈ off' <-> uid ∈ off \/ exists u v, (uid, u) ∈ us /\ verdict_of mappings (username u) = Ok v /\
     match v with Gives _ => False | _ => True end).
Proof.
  induction us as [|[uid u] us IH]; intros d off updated d' off' updated' Hnd Hus; cbn [Directory.check_loop].
  - intros [= <- <- <-]. split_and!; [done| |].
    + intros uid u H. by apply elem_of_nil in H.
    + intros uid. split; [auto|]. intros [?|(u & v & H & _)]; [done|by apply elem_of_nil in H].
  - rewrite fmap_cons in Hnd. apply list.NoDup_cons in Hnd as [Hn Hnd]. cbn in Hn.
    assert (Hin : forall x, (uid, x) ∈ us -> False).
    { intros x Hx. apply Hn. apply list_elem_of_fmap. by exists (uid, x). }
    destruct (verdict_of mappings (username u)) as [v|] eqn:Ev; [|done].
    (** what this account's turn does *)
    assert (Hrest : forall d1 off1 upd1,
      check_loop mappings us d1 off1 upd1 = (d', Some (off', updated')) ->
      (forall j, j <> uid -> untouched d d1 j) ->
      match v with Gives g => follows d1 uid u g | _ => untouched d d1 uid end ->
      (forall j, j ∈ off1 <-> j ∈ off \/ j = uid /\ match v with Gives _ => False | _ => True end) ->
      (forall j, j ∉ ((uid, u) :: us).*1 -> untouched d d' j) /\
      (forall j x, (j, x) ∈ (uid, u) :: us -> exists v, verdict_of mappings (username x) = Ok v /\
         match v with Gives g => follows d' j x g | _ => untouched d d' j end) /\
      (forall j, j ∈ off' <-> j ∈ off \/ exists x v, (j, x) ∈ (uid, u) :: us /\ verdict_of mappings (username x) = Ok v /\
         match v with Gives _ => False | _ => True end)).
    { intros d1 off1 upd1 H Hoth Hown Hoff. destruct (IH d1 off1 upd1 d' off' updated' Hnd) as (R1 & R2 & R3); [|exact H|].
      { intros j x Hx. destruct (Hoth j) as [-> _]; [intros ->; eauto|]. apply Hus. by right. }
      split_and!.
      - intros j [Hj1 Hj2]%not_elem_of_cons. eapply untouched_trans; [apply Hoth|apply R1]; done.
      - intros j x [[= -> ->]|Hx]%elem_of_cons.
        + exists v. split; [done|]. destruct v; eauto using untouched_trans, follows_untouched.
        + destruct (R2 j x Hx) as (w & Hw & Hj). exists w. split; [done|].
          assert (j <> uid) by (intros ->; eauto). destruct w; eauto using untouched_trans.
      - intros j. rewrite R3, Hoff. split.
        + intros [[?|[-> ?]]|(x & w & ? & ?)]; [auto|right; exists u, v; split; [left|done]|right; exists x, w; split; [by right|done]].
        + intros [?|(x & w & [[= -> ->]|Hx]%elem_of_cons & Hw & ?)]; [auto| |right; eauto].
          left. right. split; [done|]. congruence || (rewrite Ev in Hw; by injection Hw as ->). }
    destruct v; intros H; try (apply (Hrest _ _ _ H); [done|done|intros j; rewrite elem_of_app, list_elem_of_singleton; tauto]).
    destruct (_apply_grant d uid u g) as [d1 c] eqn:Ea. apply apply_grant_spec in Ea as [Hf Ho].
    apply (Hrest _ _ _ H); [done|done|]. intros j. tauto.
Qed.

Definition switched_off (u : user) : user := u {{ is_active := false }} {{ disabled_by_directory := true }}.
Lemma turn_off_all off d uid :
  permissions (foldl turn_off d off) = permissions d /\
  users (foldl turn_off d off) !! uid =
    (if decide (uid ∈ off) then option_map switched_off (users d !! uid) else users d !! uid).
Proof.
  revert d. induction off as [|j off IH]; intros d; cbn [foldl].
  - split; [done|]. destruct (decide (uid ∈ [])) as [H|]; [by apply elem_of_nil in H|done].
  - destruct (IH (turn_off d j)) as [E1 E2]. rewrite E1, E2.
    assert (Hp : permissions (turn_off d j) = permissions d) by (unfold turn_off; by destruct (users d !! j)).
    split; [exact Hp|]. assert (Hj : users (turn_off d j) !! uid = if decide (uid = j) then option_map switched_off (users d !! uid) else users d !! uid).
    { unfold turn_off. destruct (users d !! j) as [u|] eqn:Ej; destruct (decide (uid = j)) as [->|Hne]; cbn; rewrite ?Ej; try done;
        [by rewrite lookup_insert_eq|by rewrite lookup_insert_ne]. }
    rewrite Hj. destruct (decide (uid = j)) as [->|Hne].
    + rewrite (decide_True (P := j ∈ j :: off)) by left. destruct (decide (j ∈ off)); [|done].
      destruct (users d !! j) as [u|]; [|done]. by destruct u.
    + destruct (decide (uid ∈ off)), (decide (uid ∈ j :: off)); set_solver.
Qed.

Lemma to_check_elem d uid u : (uid, u) ∈ to_check d <-> users d !! uid = Some u /\ source u = Ldap /\ is_active u = true.
Proof.
  unfold to_check. rewrite elem_filter, elem_of_map_to_list, andb_true_iff, bool_decide_eq_true. cbn. tauto.
Qed.
Lemma to_check_nodup d : NoDup (to_check d).*1.
Proof.
  unfold to_check. generalize (NoDup_fst_map_to_list (users d)). generalize (map_to_list (users d)).
  intros l. induction l as [|[i u] l IH]; [done|]. cbn [List.filter]. rewrite fmap_cons, list.NoDup_cons. intros [Hn Hnd].
  destruct (_ && _); [|by apply IH]. rewrite fmap_cons, list.NoDup_cons. split; [|by apply IH].
  intros ([j v] & E & [Hin _]%elem_filter)%list_elem_of_fmap. apply Hn. apply list_elem_of_fmap. by exists (j, v).
Qed.

(** What the directory's answers say of an account. *)
Lemma verdict_meaning mappings name v :
  verdict_of mappings name = Ok v ->
  exists found, find_user name = Ok found /\
    match found with
    | None => v = Missing
    | Some f =>
        if disabled f then v = Disabled
        else exists groups, groups_of f = Ok groups /\
          match v with
          | InNoGroup => forall m, m ∈ mappings -> is_hit groups m = false
          | Gives g => highest mappings groups (g_role g) /\
              forall s a, granted_by mappings groups (g_role g) s a <-> g_role g = Mfa.Admin \/ gives (g_permissions g) s a = true
          | _ => False
          end
    end.
Proof.
  unfold Directory.verdict_of. destruct (find_user name) as [found|]; [|done]. intros H. exists found. split; [done|].
  destruct found as [f|]; [|by injection H as <-]. cbn in H. destruct (disabled f); [by injection H as <-|].
  destruct (groups_of f) as [groups|]; [|done]. exists groups. split; [done|]. cbn in H.
  pose proof (resolve_spec mappings groups) as Hr. destruct (resolve mappings groups) as [g|]; by injection H as <-.
Qed.

Lemma allowed_follows d uid u r w m a :
  (forall m a, grants (permissions_of d uid) m a = negb (is_admin r) && gives w (module_value m) a) ->
  allowed d uid (u {{ role := r }}) m a = true <-> r = Mfa.Admin \/ gives w (module_value m) a = true.
Proof.
  intros H. unfold allowed. rewrite H. destruct u. cbn. unfold is_admin. case_bool_decide; cbn; [tauto|]. split; [auto|tauto].
Qed.

(** C23: A check that reaches the directory makes every directory account what the directory says: an active one that
    is not found there, is disabled there or is in no mapped group is turned off and loses nothing else; any other has
    the highest role its mapped groups give and may do exactly what one of them gives (everything, for an
    administrator); and no other account - local, of an API key, or already off - is touched. *)
Theorem directory_decides mappings d d' n k m :
  check_accounts find_user groups_of true mappings d = (d', Checked n k m) ->
  forall uid u, users d !! uid = Some u ->
  if decide (source u = Ldap /\ is_active u = true)
  then exists found, find_user (username u) = Ok found /\
    let off := users d' !! uid = Some (switched_off u) /\ permissions d' !! uid = permissions d !! uid in
    match found with
    | None => off
    | Some f =>
        if disabled f then off
        else exists groups, groups_of f = Ok groups /\
          ((forall m, m ∈ mappings -> is_hit groups m = false) /\ off \/
           exists r, highest mappings groups r /\ users d' !! uid = Some (u {{ role := r }}) /\
             forall m a, allowed d' uid (u {{ role := r }}) m a = true <-> granted_by mappings groups r (module_value m) a)
    end
  else untouched d d' uid.
Proof.
  unfold check_accounts. cbn [negb]. destruct (check_loop mappings (to_check d) d [] 0) as [d1 [[off upd]|]] eqn:El; [|done].
  intros [= <- _ _ _] uid u Hu.
  apply check_loop_spec in El as (R1 & R2 & R3); [|apply to_check_nodup|intros j x Hx; by apply to_check_elem in Hx as [? _]].
  destruct (turn_off_all off d1 uid) as [Ep Eu].
  destruct (decide (source u = Ldap /\ is_active u = true)) as [[Hl Ha]|Hl].
  - destruct (R2 uid u) as (v & Hv & Hd); [by apply to_check_elem|].
    assert (Hoff : uid ∈ off <-> match v with Gives _ => False | _ => True end).
    { rewrite R3. split.
      - intros [H|(x & w & Hx & Hw & H)]; [by apply elem_of_nil in H|]. apply to_check_elem in Hx as [Hx _].
        assert (x = u) by congruence. subst x. by assert (w = v) as <- by congruence.
      - intros H. right. exists u, v. split; [by apply to_check_elem|done]. }
    assert (Hsw : match v with Gives _ => False | _ => True end ->
      users (foldl turn_off d1 off) !! uid = Some (switched_off u) /\ permissions (foldl turn_off d1 off) !! uid = permissions d !! uid).
    { intros H. assert (untouched d d1 uid) as [E1 E2] by (by destruct v). rewrite Eu, Ep, decide_True by (by apply Hoff).
      by rewrite E1, Hu. }
    apply verdict_meaning in Hv as (found & Hf & Hv). exists found. split; [exact Hf|]. cbn.
    destruct found as [f|]; [destruct (disabled f)|]; [subst v; by apply Hsw| |subst v; by apply Hsw].
    destruct Hv as (groups & Hg & Hr). exists groups. split; [exact Hg|].
    destruct v as [| | |g]; try done; [left; split; [exact Hr|by apply Hsw]|right].
    destruct Hd as [E1 E2]. destruct Hr as [Hh Hr]. exists (g_role g). rewrite Eu, decide_False by (by intros ?%Hoff).
    split_and!; [done|done|]. intros x a. rewrite Hr. apply allowed_follows.
    intros y b. rewrite <- E2. unfold permissions_of. by rewrite Ep.
  - assert (Hni : uid ∉ (to_check d).*1).
    { intros ([j x] & E & Hx%to_check_elem)%list_elem_of_fmap. cbn in E. subst j. apply Hl. destruct Hx as (Hx & ? & ?).
      by assert (x = u) as <- by congruence. }
    assert (Hno : uid ∉ off).
    { rewrite R3. intros [H|(x & w & Hx & _)]; [by apply elem_of_nil in H|]. apply Hni, list_elem_of_fmap. by exists (uid, x). }
    destruct (R1 _ Hni) as [E1 E2]. split; [by rewrite Eu, decide_False|by rewrite Ep].
Qed.
End CheckProofs.

(** ** A small directory *)
Module Demo.
(** The groups [a] and [b] contain each other; the entry is in [a]. *)
Definition groups_with (entry : pystr) : res unavailable (list pystr) :=
  Ok (if bool_decide (norm_dn entry = py "cn=u,dc=x") then [py "CN=A, DC=x"]
      else if bool_decide (norm_dn entry = py "cn=a,dc=x") then [py "cn=b,dc=x"; py "cn=u,dc=x"]
      else if bool_decide (norm_dn entry = py "cn=b,dc=x") then [py "cn=a,dc=x"] else []).
Lemma groups_reached_witness :
  groups_of groups_with (py "cn=U,dc=X") = Ok (default [] (match groups_of groups_with (py "cn=U,dc=X") with Ok l => Some l | _ => None end)) /\
  exists l, groups_of groups_with (py "cn=U,dc=X") = Ok l /\ py "cn=b,dc=x" ∈ map norm_dn l /\ NoDup (map norm_dn l).
Proof.
  split; [by vm_compute|].
  destruct (groups_of groups_with (py "cn=U,dc=X")) as [l|] eqn:E; [|by vm_compute in E]. exists l. split; [done|].
  assert (Hsame : forall a b, norm_dn a = norm_dn b -> groups_with a = groups_with b) by (unfold groups_with; by intros a b ->).
  destruct (groups_reached groups_with Hsame _ _ E) as (_ & H & Hnd). split; [|exact Hnd].
  apply (H 2%nat (py "cn=b,dc=x")); [by vm_compute; lia|].
  eapply (reached_S _ 1 _ (py "CN=A, DC=x")); [|by vm_compute|left].
  eapply (reached_S _ 0 _ (py "cn=U,dc=X")); [constructor|by vm_compute|left].
Defined.

Definition person (name : string) (r : Mfa.role) : user :=
  MkUser (py name) None None None (py "h") true false r Ldap false.
Definition start : db :=
  Db {[ 1 := Users.Demo.account "root" Mfa.Admin; 2 := person "ann" Mfa.Manager; 3 := person "bob" Mfa.User ]} ∅ 4.
Definition mappings : list mapping :=
  [Mapping (py "CN=Audit,DC=x") Mfa.User [PermIn (py "auditing") (Flags true false false)];
   Mapping (py "cn=staff, dc=x") Mfa.Guest [PermIn (py "auditing") (Flags false true false)]].
Definition found (name : pystr) : directory_user := DirectoryUser name name None false.
(** Ann is in both groups, Bob is not found. *)
Definition find_user (name : pystr) : res unavailable (option directory_user) :=
  Ok (if bool_decide (name = py "ann") then Some (found name) else None).
Definition her_groups (u : directory_user) : res unavailable (list pystr) := Ok [py "cn=audit,dc=x"; py "cn=Staff,dc=x"].
Definition after : db := fst (check_accounts find_user her_groups true mappings start).

Lemma directory_decides_witness :
  snd (check_accounts find_user her_groups true mappings start) = Checked 2 1 1 /\
  users after !! 3 = Some (switched_off (person "bob" Mfa.User)) /\
  allowed after 2 (person "ann" Mfa.User) AUDITING Write = true.
Proof.
  assert (E : snd (check_accounts find_user her_groups true mappings start) = Checked 2 1 1) by by vm_compute.
  split; [exact E|]. unfold after.
  destruct (check_accounts find_user her_groups true mappings start) as [d' st] eqn:Ec. cbn [snd fst] in *. subst st.
  pose proof (directory_decides find_user her_groups mappings start d' _ _ _ Ec) as H. split.
  - specialize (H 3 (person "bob" Mfa.User) eq_refl). cbn in H. destruct H as (f & Hf & H). injection Hf as <-. by destruct H.
  - specialize (H 2 (person "ann" Mfa.Manager) eq_refl). cbn in H. destruct H as (f & Hf & H). injection Hf as <-.
    cbn in H. destruct H as (gs & Hg & H). injection Hg as <-.
    assert (Hhit : forall m, m ∈ mappings -> is_hit [py "cn=audit,dc=x"; py "cn=Staff,dc=x"] m = true).
    { intros m Hm. apply elem_of_cons in Hm as [->|Hm]; [by vm_compute|]. apply list_elem_of_singleton in Hm as ->. by vm_compute. }
    destruct H as [[Hno _]|(r & [(m & Hm & _ & Hr) Hmax] & _ & Hall)].
    { specialize (Hno _ (list_elem_of_here _ _)). rewrite Hhit in Hno; [done|left]. }
    assert (r = Mfa.User) as ->.
    { specialize (Hmax _ (list_elem_of_here _ _) (Hhit _ (list_elem_of_here _ _))). cbn in Hmax.
      apply elem_of_cons in Hm as [->|Hm]; [done|]. apply list_elem_of_singleton in Hm as ->. subst r. cbn in Hmax. lia. }
    apply (proj2 (Hall AUDITING Write)). right. exists (Mapping (py "cn=staff, dc=x") Mfa.Guest [PermIn (py "auditing") (Flags false true false)]).
    eexists. split_and!; [right; left|by vm_compute|left|by vm_compute|done].
Defined.

(** The directory stops answering after the first account (Bob's): what was changed before stays. *)
Definition fails_late (name : pystr) : res unavailable (option directory_user) :=
  if bool_decide (name = py "bob") then Ok (Some (found name)) else Raise DirectoryUnavailable.
Example failed_check_changes :
  let d' := fst (check_accounts fails_late her_groups true mappings start) in
  snd (check_accounts fails_late her_groups true mappings start) = Failed /\
  allowed start 3 (person "bob" Mfa.User) AUDITING Write = false /\
  allowed d' 3 (person "bob" Mfa.User) AUDITING Write = true.
Proof. split_and!; by vm_compute. Qed.

(** A directory user whose name, in small letters, is a local account's: the sign-in ends in the database's error. *)
Example name_of_a_local_account :
  local_account start (py "ROOT") = false /\
  sign_in (fun _ => Ok (Some (found (py "Root")))) (fun _ _ => Ok true) her_groups mappings (py "h") start (py "ROOT") (py "p")
    = Ok (ServerError IntegrityError).
Proof. split; by vm_compute. Qed.
End Demo.
