(* ===== verification/Access.v ===== *)
(** * Access: sign-in, sessions and the checks of every request
    (src/app/core/dependencies.py, security.py, storage_guard.py;
    src/app/modules/auth/router.py, mfa_router.py and service.py;
    end_directory_sessions of src/app/modules/directory/service.py)

    The state is the tables these read and write; a handler takes the reading
    of the clock and what the random generator draws.  It composes the
    components of Accounts (codes, sessions, API keys, limits), Users and
    Directory.  [issued] and [coded] are no tables: they record which tokens
    the server has signed, and which of the sessions were opened with a
    two-step code, so that the theorems can speak of them. *)
From S2P Require Import Prelude PyStr LicenseState Accounts Users Directory.

(** ** Tokens *)
Record payload : Type := Payload {
  sub : option pystr;
  purpose : option pystr;
  jti : option pystr;
  pwv : option pystr;
  mfv : option Z;
  iat : Z;
  exp : Z
}.
Inductive jwt_error : Type := ExpiredSignature | OtherInvalid.

(** PyJWT with the server's key, as documented: a signed token reads back as
    what was signed until it expires and is refused afterwards; what a token
    says does not change with time; a token that is read is not of the form of
    an API key. *)
Class Jwt : Type := {
  encode : payload -> pystr;
  decode : pystr -> Z -> res jwt_error payload;
  decode_encode p now : iat p <= now -> decode (encode p) now = if exp p <=? now then Raise ExpiredSignature else Ok p;
  decode_expiry t now p : decode t now = Ok p -> now < exp p;
  decode_same t now now' p p' : decode t now = Ok p -> decode t now' = Ok p' -> p = p';
  decode_not_key t now p : decode t now = Ok p -> ApiKeys.is_api_key t = false
}.

(** ** The tables *)
Record reset_code : Type := ResetCode { rc_id : Z; rc_user : Z; token_hash : pystr; rc_expires : Z; attempts : Z; used : bool }.
Record state : Type := State {
  accounts : Users.db;
  two_step : gmap Z Mfa.row;
  web : Sessions.db;
  api_keys : gmap pystr ApiKeys.key;
  logins : list RateLimits.login;
  codes : list reset_code;              (* newest first *)
  policy : Mfa.policy;
  directory : bool * list mapping;      (* sign-in through the directory on, its mappings *)
  issued : list payload;
  coded : gset pystr
}.
Definition row_of (st : state) (uid : Z) : option Mfa.row := two_step st !! uid.
Definition put_row (uid : Z) (r : Mfa.row) (st : state) : state := st {{ two_step := <[uid := r]> (two_step st) }}.
(** [db.query(User).filter(User.username == name).first()] and by email *)
Definition user_named (st : state) (name : pystr) : option (Z * user) :=
  List.find (fun iu => bool_decide (username (snd iu) = name)) (map_to_list (users (accounts st))).
Definition user_with_email (st : state) (e : pystr) : option (Z * user) :=
  List.find (fun iu => bool_decide (email (snd iu) = Some e)) (map_to_list (users (accounts st))).

(** A request as the dependencies see it. *)
Record request : Type := Request { path : pystr; meth : pystr; client : option pystr }.
Definition client_of (rq : option request) : option pystr := match rq with Some r => client r | None => None end.

Inductive refusal : Type :=
| KeyRefused (r : ApiKeys.refusal) | MissingSubject | TokenExpired | InvalidToken | SessionEnded | SessionStale
| AccountDisabled | IdleTooLong | PasswordChangeRequired | MfaRequired | StorageFull.

Definition paths (l : list string) : list pystr := map py l.
Definition PASSWORD_CHANGE_ALLOWED : list pystr := paths ["/auth/me"; "/auth/me/password"; "/auth/me/language"; "/auth/logout"]%string.
Definition ENROLMENT_ALLOWED : list pystr :=
  paths ["/auth/me"; "/auth/me/password"; "/auth/me/language"; "/auth/logout"; "/auth/me/mfa"; "/auth/me/mfa/setup"; "/auth/me/mfa/confirm"]%string.
Definition WRITE_METHODS : list pystr := paths ["POST"; "PUT"; "PATCH"; "DELETE"]%string.
Definition ALWAYS_ALLOWED : list pystr := paths ["/auth/logout"]%string.
Definition among (x : pystr) (l : list pystr) : bool := existsb (fun y => bool_decide (y = x)) l.

(** A value Python takes as true: given and not empty. *)
Definition given (x : option pystr) : option pystr := match x with Some (_ :: _) => x | _ => None end.

(** [check_request] of the storage guard: whether the request goes on. *)
Definition check_storage (critical : bool) (rq : option request) (who : Mfa.role) : bool :=
  match rq with
  | None => true
  | Some r => negb (among (meth r) WRITE_METHODS) || among (path r) ALWAYS_ALLOWED || is_admin who || negb critical
  end.

Section Access.
Context `{J : Jwt}.
(** SHA-256 in hexadecimal; bcrypt; the code generator; addresses; the settings. *)
Context (sha256 : pystr -> pystr).
Context (bcrypt : pystr -> pystr -> pystr) (verify_password : pystr -> pystr -> bool).
Context (hmac_sha1 : list Z -> list Z -> list Z) (_key : pystr -> list Z) (recovery_code_matches : pystr -> pystr -> bool).
Context (parse_ip : pystr -> option Z) (in_network : Z -> pystr -> bool).
Context (ACCESS_TOKEN_EXPIRE_MINUTES SESSION_IDLE_TIMEOUT_MINUTES PASSWORD_RESET_TOKEN_EXPIRE_MINUTES PASSWORD_RESET_MAX_ATTEMPTS : Z).

(** [password_fingerprint] *)
Definition password_fingerprint (hashed : pystr) : pystr := take 16 (sha256 hashed).
Definition fingerprint_of (u : user) : option pystr := Some (password_fingerprint (hashed_password u)).

Definition api_account (u : user) : ApiKeys.account :=
  ApiKeys.Account (is_active u) (bool_decide (source u = FromKey)).

(** [get_current_user]: the tables after, and the account or the refusal. *)
Definition get_current_user (st : state) (token : pystr) (rq : option request) (critical : bool) (now : Z)
    : state * res refusal (Z * user) :=
  if ApiKeys.is_api_key token then
    match ApiKeys.authenticate sha256 parse_ip in_network (api_keys st) (api_account <$> users (accounts st)) token (client_of rq) now with
    | Raise r => (st, Raise (KeyRefused r))
    | Ok (keys, uid) =>
        match users (accounts st) !! uid with
        | None => (st, Raise (KeyRefused ApiKeys.Invalid))
        | Some u =>
            (st {{ api_keys := keys }},
             if check_storage critical rq (role u) then Ok (uid, u) else Raise StorageFull)
        end
    end
  else
    match decode token now with
    | Raise ExpiredSignature => (st, Raise TokenExpired)
    | Raise OtherInvalid => (st, Raise InvalidToken)
    | Ok p =>
        match sub p with
        | None => (st, Raise MissingSubject)
        | Some name =>
            match given (purpose p) with
            | Some _ => (st, Raise InvalidToken)
            | None =>
                if match given (jti p) with Some j => bool_decide (is_Some (Sessions.revoked (web st) !! j)) | None => false end
                then (st, Raise SessionEnded)
                else
                  match user_named st name with
                  | None => (st, Raise SessionStale)
                  | Some (uid, u) =>
                      let row := row_of st uid in
                      if negb (bool_decide (pwv p = fingerprint_of u)) || negb (default 0 (mfv p) =? Mfa.version_of row)
                      then (st, Raise SessionStale)
                      else if negb (is_active u) then (st, Raise AccountDisabled)
                      else
                        let '(w, alive) := Sessions.touch SESSION_IDLE_TIMEOUT_MINUTES (given (jti p)) uid (exp p) now (web st) in
                        let st := st {{ web := w }} in
                        if negb alive then (st, Raise IdleTooLong)
                        else if must_change_password u && match rq with Some r => negb (among (path r) PASSWORD_CHANGE_ALLOWED) | None => false end
                        then (st, Raise PasswordChangeRequired)
                        else if match rq with Some r => negb (among (path r) ENROLMENT_ALLOWED) | None => false end
                                && negb (match row with Some r => Mfa.enabled r | None => false end)
                                && Mfa.enrolment_due (policy st) (role u) row now
                        then (st, Raise MfaRequired)
                        else if negb (check_storage critical rq (role u)) then (st, Raise StorageFull)
                        else (st, Ok (uid, u))
                  end
            end
        end
    end.

(** [require_admin], [require_admin_or_manager] *)
Definition require_admin (u : user) : bool := bool_decide (role u = Mfa.Admin).
Definition require_admin_or_manager (u : user) : bool := bool_decide (role u = Mfa.Admin \/ role u = Mfa.Manager).

(** ** Sign-in *)
Definition whole_seconds (t : Z) : Z := t / second * second.
(** What a handler answers. *)
Inductive answer : Type :=
| Refused (r : refusal) | RateLimited | WrongCredentials | Inactive | DirectoryDown | InternalError
| StepExpired | WrongCode | WrongCurrentPassword | SamePassword | NotLocal | NotOn | StartAgain | RoleRequiresIt
| OwnAccountMfa | NoSuchUser | NotAdmin | CodeNeeded | IncompleteSettings | NoMapping | UserError (e : Users.error)
| StepToken (token : pystr) | NewSession (token : pystr) | Done.

Definition log_login (st : state) (ip : option pystr) (name : pystr) (good : bool) (now : Z) : state :=
  st {{ logins := RateLimits.Login good now (default [] ip) name :: logins st }}.
Definition limited (st : state) (ip : option pystr) (name : pystr) (now : Z) : bool :=
  negb (is_ok (RateLimits.check_login_rate_limit (logins st) (default [] ip) name now)).

(** [create_access_token] and [issue_session]; [rand] is the token's random id,
    [with_code] whether a two-step code opened it. *)
Definition access_payload (st : state) (uid : Z) (u : user) (rand : pystr) (now : Z) : payload :=
  {| sub := Some (username u); purpose := None; jti := Some rand; pwv := fingerprint_of u;
     mfv := Some (Mfa.version_of (row_of st uid)); iat := whole_seconds now;
     exp := whole_seconds (now + ACCESS_TOKEN_EXPIRE_MINUTES * minute) |}.
Definition issue_session (st : state) (uid : Z) (u : user) (rand : pystr) (with_code : bool) (now : Z) : state * answer :=
  let p := access_payload st uid u rand now in
  (st {{ web := Sessions.open_session rand uid (exp p) now (web st) }} {{ issued := p :: issued st }}
      {{ coded := if with_code then {[ rand ]} ∪ coded st else coded st }},
   NewSession (encode p)).

(** [issue_mfa_token], [read_mfa_token] *)
Definition MFA_PURPOSE : pystr := py "mfa".
Definition mfa_payload (u : user) (r : Mfa.row) (now : Z) : payload :=
  {| sub := Some (username u); purpose := Some MFA_PURPOSE; jti := None; pwv := fingerprint_of u;
     mfv := Some (Mfa.version r); iat := whole_seconds now;
     exp := whole_seconds (now + Mfa.MFA_TOKEN_MINUTES * minute) |}.
Definition read_mfa_token (st : state) (token : pystr) (now : Z) : option (Z * user) :=
  match decode token now with
  | Raise _ => None
  | Ok p =>
      if negb (bool_decide (purpose p = Some MFA_PURPOSE)) then None
      else
        match (match sub p with Some name => user_named st name | None => None end) with
        | None => None
        | Some (uid, u) =>
            if negb (is_active u) || negb (bool_decide (pwv p = fingerprint_of u)) ||
               negb (bool_decide (mfv p = Some (Mfa.version_of (row_of st uid))))
            then None else Some (uid, u)
        end
  end.

(** [authenticate_user] *)
Definition authenticate_user (st : state) (name password : pystr) : option (Z * user) :=
  match user_named st name with
  | Some (uid, u) =>
      if bool_decide (source u = FromKey) || negb (verify_password password (hashed_password u)) then None else Some (uid, u)
  | None => None
  end.

Section Login.
(** The directory's server ([Directory]). *)
Context (find_user : pystr -> res unavailable (option directory_user)).
Context (check_password : directory_user -> pystr -> res unavailable bool).
Context (groups_of : directory_user -> res unavailable (list pystr)).

(** Who signs in: through the directory when it is on and the name is no local
    account's.  [hashed] is the hash of the random password of a new account. *)
Definition sign_in_user (st : state) (name password hashed : pystr) : res answer (state * option (Z * user)) :=
  let '(on, mappings) := directory st in
  if on && negb (local_account (accounts st) name) then
    match sign_in find_user check_password groups_of mappings hashed (accounts st) name password with
    | Raise _ => Raise DirectoryDown
    | Ok (ServerError _) => Raise InternalError
    | Ok (SignedIn d uid) =>
        Ok (st {{ accounts := d }}, match users d !! uid with Some u => Some (uid, u) | None => None end)
    | Ok _ => Ok (st, None)
    end
  else Ok (st, authenticate_user st name password).

(** [login] *)
Definition login (st : state) (name password : pystr) (ip : option pystr) (hashed rand : pystr) (now : Z) : state * answer :=
  if limited st ip name now then (log_login st ip name false now, RateLimited)
  else
    match sign_in_user st name password hashed with
    | Raise DirectoryDown => (log_login st ip name false now, DirectoryDown)
    | Raise a => (st, a)
    | Ok (st, None) => (log_login st ip name false now, WrongCredentials)
    | Ok (st, Some (uid, u)) =>
        if negb (is_active u) then (log_login st ip name false now, Inactive)
        else
          let row := Mfa.start_grace (policy st) (role u) (row_of st uid) now in
          let st := match row with Some r => put_row uid r st | None => st end in
          match row with
          | Some r =>
              if Mfa.enabled r then
                let p := mfa_payload u r now in
                (st {{ issued := p :: issued st }}, StepToken (encode p))
              else issue_session (log_login st ip (username u) true now) uid u rand false now
          | None => issue_session (log_login st ip (username u) true now) uid u rand false now
          end
    end.
End Login.

(** [login_mfa]: the second step. *)
Definition login_mfa (st : state) (token code : pystr) (ip : option pystr) (rand : pystr) (now : Z) : state * answer :=
  match read_mfa_token st token now with
  | None => (st, StepExpired)
  | Some (uid, u) =>
      if limited st ip (username u) now then (log_login st ip (username u) false now, RateLimited)
      else
        let r0 := default Mfa.new_row (row_of st uid) in
        match Mfa.check_code hmac_sha1 _key recovery_code_matches r0 code now with
        | Raise _ => (st, InternalError)
        | Ok (_, None) => (log_login st ip (username u) false now, WrongCode)
        | Ok (r, Some _) =>
            issue_session (log_login (put_row uid r st) ip (username u) true now) uid u rand true now
        end
  end.

(** ** What a signed-in user does *)

(** A handler behind [get_current_user]: refused, or the rest of it. *)
Definition signed_in (st : state) (token : pystr) (rq : option request) (critical : bool) (now : Z)
    (k : state -> Z -> user -> state * answer) : state * answer :=
  let '(st, who) := get_current_user st token rq critical now in
  match who with
  | Raise r => (st, Refused r)
  | Ok (uid, u) => k st uid u
  end.

(** [logout]: it presents itself without a request. *)
Definition prune (now : Z) (d : Sessions.db) : Sessions.db :=
  {| Sessions.sessions := Sessions.sessions d;
     Sessions.revoked := filter (fun kv => now <= Sessions.r_expires (snd kv)) (Sessions.revoked d) |}.
Definition logout (st : state) (token : pystr) (critical : bool) (now : Z) : state * answer :=
  signed_in st token None critical now (fun st uid u =>
    match decode token now with
    | Raise _ => (st, InternalError)
    | Ok p =>
        let w := prune now (web st) in
        match given (jti p) with
        | None => (st {{ web := w }}, Done)
        | Some j =>
            match Sessions.revoked w !! j with
            | Some _ => (st, InternalError)
            | None => (st {{ web := Sessions.revoke j uid (exp p) w }}, Done)
            end
        end
    end).

Section Directory.
Context (find_user : pystr -> res unavailable (option directory_user)).
Context (check_password : directory_user -> pystr -> res unavailable bool).

(** [check_password] of the directory service *)
Definition directory_password (u : user) (password : pystr) : res unavailable bool :=
  let! found := find_user (username u) in
  match found with
  | None => Ok false
  | Some f => if disabled f then Ok false else check_password f password
  end.

(** [_check_password]: [None] when the password is the caller's. *)
Definition _check_password (st : state) (u : user) (password : pystr) (ip : option pystr) (now : Z) : state * option answer :=
  if limited st ip (username u) now then (st, Some RateLimited)
  else
    match (if bool_decide (source u = Ldap) then directory_password u password
           else Ok (verify_password password (hashed_password u))) with
    | Raise _ => (st, Some DirectoryDown)
    | Ok true => (st, None)
    | Ok false => (log_login st ip (username u) false now, Some WrongCurrentPassword)
    end.
(** [_check_code]: the row after an accepted code. *)
Definition _check_code (st : state) (u : user) (r : Mfa.row) (code : pystr) (ip : option pystr) (now : Z) : state * res answer Mfa.row :=
  match Mfa.check_code hmac_sha1 _key recovery_code_matches r code now with
  | Raise _ => (st, Raise InternalError)
  | Ok (_, None) => (log_login st ip (username u) false now, Raise WrongCode)
  | Ok (r, Some _) => (st, Ok r)
  end.
Definition sure_of_password (st : state) (u : user) (password : pystr) (ip : option pystr) (now : Z)
    (k : state -> state * answer) : state * answer :=
  match _check_password st u password ip now with
  | (st, Some a) => (st, a)
  | (st, None) => k st
  end.

(** [start_setup]: an account with an app gives a code of it too. *)
Definition start_setup (st : state) (token : pystr) (rq : request) (critical : bool) (password : pystr) (code : option pystr)
    (new_secret : pystr) (now : Z) : state * answer :=
  signed_in st token (Some rq) critical now (fun st uid u =>
    sure_of_password st u password (client rq) now (fun st =>
      let r := default Mfa.new_row (row_of st uid) in
      if Mfa.enabled r then
        match given code with
        | None => (st, CodeNeeded)
        | Some c =>
            match _check_code st u r c (client rq) now with
            | (st, Raise a) => (st, a)
            | (st, Ok r) => (put_row uid (Mfa.start_setup new_secret r) st, Done)
            end
        end
      else (put_row uid (Mfa.start_setup new_secret r) st, Done))).

(** [confirm_setup] *)
Definition confirm_setup (st : state) (token : pystr) (rq : request) (critical : bool) (code : pystr) (recovery : list pystr)
    (rand : pystr) (now : Z) : state * answer :=
  signed_in st token (Some rq) critical now (fun st uid u =>
    match row_of st uid with
    | Some ({| Mfa.pending_secret := Some (_ :: _) |} as r) =>
        match Mfa.confirm_setup hmac_sha1 _key r code recovery now with
        | Raise _ => (st, InternalError)
        | Ok None => (st, WrongCode)
        | Ok (Some r) => issue_session (put_row uid r st) uid u rand true now
        end
    | _ => (st, StartAgain)
    end).

(** [new_codes], [disable] *)
Definition with_code_of (st : state) (uid : Z) (u : user) (code : pystr) (ip : option pystr) (now : Z)
    (k : state -> Mfa.row -> state * answer) : state * answer :=
  match row_of st uid with
  | Some r =>
      if Mfa.enabled r then
        match _check_code st u r code ip now with
        | (st, Raise a) => (st, a)
        | (st, Ok r) => k st r
        end
      else (st, NotOn)
  | None => (st, NotOn)
  end.
Definition new_codes (st : state) (token : pystr) (rq : request) (critical : bool) (password code : pystr) (recovery : list pystr)
    (now : Z) : state * answer :=
  signed_in st token (Some rq) critical now (fun st uid u =>
    sure_of_password st u password (client rq) now (fun st =>
      with_code_of st uid u code (client rq) now (fun st r =>
        (put_row uid (r {{ Mfa.recovery_codes := recovery }}) st, Done)))).
Definition disable (st : state) (token : pystr) (rq : request) (critical : bool) (password code rand : pystr)
    (now : Z) : state * answer :=
  signed_in st token (Some rq) critical now (fun st uid u =>
    if Mfa.is_required (policy st) (role u) then (st, RoleRequiresIt)
    else
      sure_of_password st u password (client rq) now (fun st =>
        with_code_of st uid u code (client rq) now (fun st r =>
          issue_session (put_row uid (Mfa._clear r) st) uid u rand false now))).
End Directory.

(** [change_own_password]; the new session is as good as the one it replaces. *)
Definition session_coded (st : state) (token : pystr) (now : Z) : bool :=
  match decode token now with
  | Ok p => match jti p with Some j => bool_decide (j ∈ coded st) | None => false end
  | Raise _ => false
  end.
Definition change_own_password (st : state) (token : pystr) (rq : request) (critical : bool) (current new salt rand : pystr)
    (now : Z) : state * answer :=
  signed_in st token (Some rq) critical now (fun st uid u =>
    if negb (bool_decide (source u = Local)) then (st, NotLocal)
    else if negb (verify_password current (hashed_password u)) then (st, WrongCurrentPassword)
    else if verify_password new (hashed_password u) then (st, SamePassword)
    else
      match get_password_hash bcrypt salt new with
      | Raise _ => (st, InternalError)
      | Ok h =>
          let u := u {{ hashed_password := h }} {{ must_change_password := false }} in
          issue_session (st {{ accounts := put_user uid u (accounts st) }}) uid u rand (session_coded st token now) now
      end).

(** [reset_user_mfa] and [put_policy], for administrators. *)
Definition reset_user_mfa (st : state) (token : pystr) (rq : request) (critical : bool) (target : Z) (now : Z) : state * answer :=
  signed_in st token (Some rq) critical now (fun st uid u =>
    if negb (require_admin u) then (st, NotAdmin)
    else if target =? uid then (st, OwnAccountMfa)
    else
      match users (accounts st) !! target with
      | None => (st, NoSuchUser)
      | Some v =>
          let r := Mfa._clear (default Mfa.new_row (row_of st target)) in
          let r := if Mfa.is_required (policy st) (role v) then r {{ Mfa.deadline := Some now }} else r in
          (put_row target r st, Done)
      end).
Definition put_policy (st : state) (token : pystr) (rq : request) (critical : bool) (roles : list Mfa.role) (grace : Z) (now : Z)
    : state * answer :=
  signed_in st token (Some rq) critical now (fun st uid u =>
    if negb (require_admin u) then (st, NotAdmin)
    else (st {{ policy := Mfa.get_policy (Some (List.filter (fun r => Mfa.mem_role r roles) Mfa.ROLES)) (Some grace) }}, Done)).

(** The account routes ([Users.request]); a deleted user's rows go with them
    (the foreign keys' ON DELETE CASCADE). *)
Definition cascade (uid : Z) (st : state) : state :=
  st {{ two_step := delete uid (two_step st) }}
     {{ web := {| Sessions.sessions := filter (fun kv => Sessions.user_id (snd kv) <> uid) (Sessions.sessions (web st));
                  Sessions.revoked := filter (fun kv => Sessions.r_user (snd kv) <> uid) (Sessions.revoked (web st)) |} }}
     {{ codes := List.filter (fun c => negb (rc_user c =? uid)) (codes st) }}
     {{ api_keys := filter (fun kv => ApiKeys.user_id (snd kv) <> uid) (api_keys st) }}.
Definition manage_users (st : state) (token : pystr) (rq : request) (critical : bool) (o : Users.op) (salt : pystr) (now : Z)
    : state * answer :=
  signed_in st token (Some rq) critical now (fun st uid u =>
    match Users.request bcrypt verify_password salt (accounts st) uid o with
    | Raise e => (st, UserError e)
    | Ok d =>
        let st := st {{ accounts := d }} in
        (match o with DeleteUser target => cascade target st | _ => st end, Done)
    end).

(** ** Reset codes by e-mail or SMS *)
Definition close_codes (uid : Z) (cs : list reset_code) : list reset_code :=
  map (fun c => if rc_user c =? uid then c {{ used := true }} else c) cs.

Definition next_code_id (cs : list reset_code) : Z := 1 + foldr Z.max 0 (map rc_id cs).

(** [create_password_reset_otp]: the newest code is the only open one. *)
Definition create_password_reset_otp (st : state) (e otp : pystr) (now : Z) : state * bool :=
  match user_with_email st e with
  | Some (uid, u) =>
      if negb (is_active u) || negb (bool_decide (source u = Local)) then (st, false)
      else
        let c := ResetCode (next_code_id (codes st)) uid (sha256 otp) (now + PASSWORD_RESET_TOKEN_EXPIRE_MINUTES * minute) 0 false in
        (st {{ codes := c :: close_codes uid (codes st) }}, true)
  | None => (st, false)
  end.

(** The newest open code of a user; a row by its id. *)
Definition open_for (uid now : Z) (c : reset_code) : bool := (rc_user c =? uid) && negb (used c) && (now <? rc_expires c).
Fixpoint find_code (uid now : Z) (cs : list reset_code) : option reset_code :=
  match cs with
  | [] => None
  | c :: cs => if open_for uid now c then Some c else find_code uid now cs
  end.
Definition code_row (id : Z) (cs : list reset_code) : option reset_code := List.find (fun c => rc_id c =? id) cs.
Definition put_code (id : Z) (f : reset_code -> reset_code) (cs : list reset_code) : list reset_code :=
  map (fun c => if rc_id c =? id then f c else c) cs.

(** [reset_password_with_otp] reads the rows and compares the code; nothing
    locks them until it writes.  What it goes on to write: *)
Inductive reset_plan : Type :=
| PlanNothing | PlanBurn (id : Z) | PlanWrong (id seen : Z) | PlanReset (uid id seen : Z).
Definition read_reset (st : state) (e otp : pystr) (now : Z) : reset_plan :=
  match user_with_email st e with
  | None => PlanNothing
  | Some (uid, u) =>
      if negb (is_active u) then PlanNothing
      else
        match find_code uid now (codes st) with
        | None => PlanNothing
        | Some c =>
            if PASSWORD_RESET_MAX_ATTEMPTS <=? attempts c then PlanBurn (rc_id c)
            else if negb (bool_decide (sha256 otp = token_hash c)) then PlanWrong (rc_id c) (attempts c)
            else PlanReset uid (rc_id c) (attempts c)
        end
  end.

(** The writes, to the rows by their ids: [attempts] is what was read and
    one.  A row deleted meanwhile makes the flush fail ([RowGone]), and a
    password bcrypt cannot hash makes the request fail ([TooLong]). *)
Inductive reset_result : Type := NoCode | Burned | WrongGuess | TooLong | WasReset (uid : Z) | RowGone.
Definition change_code (st : state) (id : Z) (f : reset_code -> reset_code) (r : reset_result) : state * reset_result :=
  match code_row id (codes st) with
  | None => (st, RowGone)
  | Some _ => (st {{ codes := put_code id f (codes st) }}, r)
  end.
Definition count_wrong (seen : Z) (c : reset_code) : reset_code :=
  let n := seen + 1 in
  if PASSWORD_RESET_MAX_ATTEMPTS <=? n then c {{ attempts := n }} {{ used := true }} else c {{ attempts := n }}.
Definition write_reset (st : state) (p : reset_plan) (new salt : pystr) : state * reset_result :=
  match p with
  | PlanNothing => (st, NoCode)
  | PlanBurn id => change_code st id (fun c => c {{ used := true }}) Burned
  | PlanWrong id seen => change_code st id (count_wrong seen) WrongGuess
  | PlanReset uid id _ =>
      match get_password_hash bcrypt salt new with
      | Raise _ => (st, TooLong)
      | Ok h =>
          match users (accounts st) !! uid, code_row id (codes st) with
          | Some u, Some _ =>
              ((st {{ codes := put_code id (fun c => c {{ used := true }}) (codes st) }})
                 {{ accounts := put_user uid (u {{ hashed_password := h }}) (accounts st) }}, WasReset uid)
          | _, _ => (st, RowGone)
          end
      end
  end.

(** [reset_password_with_otp] with nothing in between *)
Definition reset_password_with_otp (st : state) (e otp new salt : pystr) (now : Z) : state * reset_result :=
  write_reset st (read_reset st e otp now) new salt.

(** [end_directory_sessions]: every open session of a directory account. *)
Definition is_directory_session (st : state) (now : Z) (s : Sessions.session) : bool :=
  (now <? Sessions.expires_at s) &&
  match users (accounts st) !! Sessions.user_id s with Some u => bool_decide (source u = Ldap) | None => false end.
Definition end_directory_sessions (st : state) (now : Z) : state :=
  let rows := List.filter (fun js => is_directory_session st now (snd js)) (map_to_list (Sessions.sessions (web st))) in
  st {{ web := foldl (fun w js => Sessions.revoke (fst js) (Sessions.user_id (snd js)) (Sessions.expires_at (snd js)) w) (web st) rows }}.

(** [put_directory] (src/app/modules/directory/router.py): the settings checked when
    they turn sign-in on ([complete]: servers, base and service account are there), saved, and
    the sessions ended when sign-in through the directory is turned off. *)
Definition put_directory (st : state) (token : pystr) (rq : request) (critical : bool) (on complete : bool) (mappings : list mapping)
    (now : Z) : state * answer :=
  signed_in st token (Some rq) critical now (fun st uid u =>
    if negb (require_admin u) then (st, NotAdmin)
    else if on && negb complete then (st, IncompleteSettings)
    else if on && bool_decide (mappings = []) then (st, NoMapping)
    else
      let was_on := fst (directory st) in
      let st := st {{ directory := (on, mappings) }} in
      (if was_on && negb on then end_directory_sessions st now else st, Done)).

(** ** What every handler's effects are made of

    The handlers are sequences of a few writes; the invariants are proved of
    the writes.  [owns] says whose token a payload is: the account with the
    password it was signed for. *)
Definition owns (st : state) (p : payload) (i : Z) (u : user) : Prop :=
  users (accounts st) !! i = Some u /\ pwv p = fingerprint_of u.
(** What a row about token [j] says is what every signed token of that id says. *)
Definition about (st : state) (j : pystr) (uid expires : Z) : Prop :=
  (exists p, p ∈ issued st /\ jti p = Some j) /\
  forall p, p ∈ issued st -> jti p = Some j -> expires = exp p /\ forall i u, owns st p i u -> uid = i.

(** bcrypt's salts: the fingerprint of a password stored by a step is that of no
    other account and of no token signed so far. *)
Definition new_hashes (st : state) (d : Users.db) : Prop :=
  forall i u, users d !! i = Some u ->
    (exists u0, users (accounts st) !! i = Some u0 /\ hashed_password u = hashed_password u0) \/
    (forall p, p ∈ issued st -> pwv p <> fingerprint_of u) /\
    (forall k v, k <> i -> users d !! k = Some v -> fingerprint_of v <> fingerprint_of u).

Inductive write (now : Z) (st : state) : state -> Prop :=
| write_rest keys ls cs pol dir :
    write now st (st {{ api_keys := keys }} {{ logins := ls }} {{ codes := cs }} {{ policy := pol }} {{ directory := dir }})
| write_accounts d : new_hashes st d -> write now st (st {{ accounts := d }})
| write_row uid r :
    Mfa.version_of (row_of st uid) <= Mfa.version r ->
    (Mfa.enabled r = true -> Mfa.version_of (row_of st uid) < Mfa.version r \/
       exists r0, row_of st uid = Some r0 /\ Mfa.enabled r0 = true /\ Mfa.version r0 = Mfa.version r) ->
    write now st (put_row uid r st)
| write_session j s :
    about st j (Sessions.user_id s) (Sessions.expires_at s) ->
    write now st (st {{ web := {| Sessions.sessions := <[j := s]> (Sessions.sessions (web st)); Sessions.revoked := Sessions.revoked (web st) |} }})
| write_forget ss :
    ss ⊆ Sessions.sessions (web st) ->
    write now st (st {{ web := {| Sessions.sessions := ss; Sessions.revoked := Sessions.revoked (web st) |} }})
| write_revoke j uid expires :
    about st j uid expires -> write now st (st {{ web := Sessions.revoke j uid expires (web st) }})
| write_prune : write now st (st {{ web := prune now (web st) }})
| write_issue p uid u with_code :
    owns st p uid u -> mfv p = Some (Mfa.version_of (row_of st uid)) ->
    (forall j, jti p = Some j -> forall q, q ∈ issued st -> jti q <> Some j) ->
    match given (purpose p) with
    | Some _ => with_code = None
    | None => with_code = jti p \/ with_code = None /\ (forall r, row_of st uid = Some r -> Mfa.enabled r = false)
    end -> (is_Some (jti p) \/ is_Some (given (purpose p))) ->
    write now st (st {{ issued := p :: issued st }}
                     {{ coded := match with_code with Some j => {[ j ]} ∪ coded st | None => coded st end }})
| write_delete uid d :
    users d = delete uid (users (accounts st)) -> write now st (cascade uid (st {{ accounts := d }})).

(** ** The invariant *)
Record good (st : state) : Prop := {
  g_prints : forall i j u v, users (accounts st) !! i = Some u -> users (accounts st) !! j = Some v ->
    fingerprint_of u = fingerprint_of v -> i = j;
  g_version : forall p i u, p ∈ issued st -> owns st p i u -> default 0 (mfv p) <= Mfa.version_of (row_of st i);
  g_ids : forall p q j, p ∈ issued st -> q ∈ issued st -> jti p = Some j -> jti q = Some j -> p = q;
  g_sessions : forall j s, Sessions.sessions (web st) !! j = Some s -> about st j (Sessions.user_id s) (Sessions.expires_at s);
  g_revoked : forall j r, Sessions.revoked (web st) !! j = Some r -> about st j (Sessions.r_user r) (Sessions.r_expires r);
  g_coded : forall p i u r, p ∈ issued st -> given (purpose p) = None -> owns st p i u -> row_of st i = Some r ->
    Mfa.enabled r = true -> default 0 (mfv p) = Mfa.version r -> exists j, jti p = Some j /\ j ∈ coded st
}.

(** A token that is over: past its expiry, revoked, or signed for a password or
    a state of two-step sign-in that no account has any more. *)
Definition over (now : Z) (st : state) (p : payload) : Prop :=
  exp p <= now \/
  (exists j r, jti p = Some j /\ Sessions.revoked (web st) !! j = Some r) \/
  (forall i u, owns st p i u -> default 0 (mfv p) < Mfa.version_of (row_of st i)).

Lemma owns_later st d p i u :
  new_hashes st d -> p ∈ issued st -> owns (st {{ accounts := d }}) p i u -> exists u0, owns st p i u0.
Proof.
  intros Hn Hp [Hu Hpw]. cbn in Hu. destruct (Hn i u Hu) as [(u0 & H0 & E)|[Hf _]]; [|by destruct (Hf p Hp)].
  exists u0. split; [done|]. unfold fingerprint_of in *. by rewrite <- E.
Qed.
Lemma about_same st st' j uid e :
  issued st' = issued st -> (forall p i u, p ∈ issued st -> owns st' p i u -> exists u0, owns st p i u0) ->
  about st j uid e -> about st' j uid e.
Proof.
  intros Ei Ho [(p & Hp & Hj) Hall]. split; [exists p; by rewrite Ei|]. intros q Hq Hjq. rewrite Ei in Hq.
  destruct (Hall q Hq Hjq) as [He Hown]. split; [done|]. intros i u Hou. destruct (Ho q i u Hq Hou) as [u0 H0]. by eapply Hown.
Qed.

Lemma good_web st w :
  good st ->
  (forall j s, Sessions.sessions w !! j = Some s -> about st j (Sessions.user_id s) (Sessions.expires_at s)) ->
  (forall j r, Sessions.revoked w !! j = Some r -> about st j (Sessions.r_user r) (Sessions.r_expires r)) ->
  good (st {{ web := w }}).
Proof. intros [G1 G2 G3 G4 G5 G6] Hs Hr. constructor; destruct st; cbn in *; try done; eauto. Qed.

Lemma revoke_lookup j uid e w k r :
  Sessions.revoked (Sessions.revoke j uid e w) !! k = Some r ->
  Sessions.revoked w !! k = Some r \/ k = j /\ r = Sessions.RevokedToken uid e.
Proof.
  unfold Sessions.revoke. destruct (Sessions.revoked w !! j); [auto|]. cbn.
  intros [[<- <-]|[_ ?]]%lookup_insert_Some; auto.
Qed.
Lemma revoke_sessions j uid e w : Sessions.sessions (Sessions.revoke j uid e w) = Sessions.sessions w.
Proof. unfold Sessions.revoke. by destruct (Sessions.revoked w !! j). Qed.
Lemma revoke_keeps j uid e w k : is_Some (Sessions.revoked w !! k) -> is_Some (Sessions.revoked (Sessions.revoke j uid e w) !! k).
Proof.
  unfold Sessions.revoke. destruct (Sessions.revoked w !! j) eqn:Ej; [done|]. cbn. intros Hk.
  destruct (decide (k = j)) as [->|]; [by rewrite lookup_insert_eq|by rewrite lookup_insert_ne].
Qed.
Lemma revoke_there j uid e w : is_Some (Sessions.revoked (Sessions.revoke j uid e w) !! j).
Proof. unfold Sessions.revoke. destruct (Sessions.revoked w !! j) eqn:Ej; [by rewrite Ej|]. cbn. by rewrite lookup_insert_eq. Qed.

Lemma good_accounts st d : good st -> new_hashes st d -> good (st {{ accounts := d }}).
Proof.
  intros [G1 G2 G3 G4 G5 G6] Hn. pose proof (owns_later st d) as Ho. specialize (fun p i u => Ho p i u Hn) as Ho'.
  assert (Ha : forall j uid e, about st j uid e -> about (st {{ accounts := d }}) j uid e).
  { intros j uid e. apply about_same; [by destruct st|exact Ho']. }
  constructor.
  - intros i j u v Hi Hj E. destruct (decide (j = i)) as [->|Hne]; [done|].
    assert (Hi' : users d !! i = Some u) by (destruct st; exact Hi). assert (Hj' : users d !! j = Some v) by (destruct st; exact Hj).
    destruct (Hn i u Hi') as [(u0 & Hu0 & Eu)|[_ Hf]]; [|by destruct (Hf j v Hne Hj')].
    destruct (Hn j v Hj') as [(v0 & Hv0 & Ev)|[_ Hf]]; [|by destruct (Hf i u (not_eq_sym Hne) Hi')].
    apply (G1 i j u0 v0 Hu0 Hv0). unfold fingerprint_of in *. congruence.
  - intros p i u Hp Hu. assert (Hp' : p ∈ issued st) by (destruct st; exact Hp).
    destruct (Ho' p i u Hp' Hu) as [u0 H0]. pose proof (G2 p i u0 Hp' H0) as H. by destruct st.
  - intros p q j Hp Hq. destruct st; cbn in *. by apply G3.
  - intros j s Hs. apply Ha. apply G4. by destruct st.
  - intros j r Hr. apply Ha. apply G5. by destruct st.
  - intros p i u r Hp Hpu Hu Hr. assert (Hp' : p ∈ issued st) by (destruct st; exact Hp).
    destruct (Ho' p i u Hp' Hu) as [u0 H0]. destruct st; cbn in *. by apply (G6 p i u0 r).
Qed.

Lemma good_row st uid r :
  good st -> Mfa.version_of (row_of st uid) <= Mfa.version r ->
  (Mfa.enabled r = true -> Mfa.version_of (row_of st uid) < Mfa.version r \/
     exists r0, row_of st uid = Some r0 /\ Mfa.enabled r0 = true /\ Mfa.version r0 = Mfa.version r) ->
  good (put_row uid r st).
Proof.
  intros [G1 G2 G3 G4 G5 G6] Hv He.
  assert (Hrow : forall i, row_of (put_row uid r st) i = if decide (i = uid) then Some r else row_of st i).
  { intros i. unfold row_of, put_row. destruct st; cbn. destruct (decide (i = uid)) as [->|]; [by rewrite lookup_insert_eq|by rewrite lookup_insert_ne]. }
  assert (Ho : forall p i u, owns (put_row uid r st) p i u -> owns st p i u) by (destruct st; done).
  constructor; try (destruct st; done).
  - intros p i u Hp Hu. assert (Hp' : p ∈ issued st) by (destruct st; exact Hp). pose proof (G2 p i u Hp' (Ho _ _ _ Hu)) as H'.
    rewrite Hrow. destruct (decide (i = uid)) as [->|]; cbn; [lia|done].
  - intros p i u r' Hp Hpu Hu Hr Hen Hm. assert (Hp' : p ∈ issued st) by (destruct st; exact Hp).
    assert (Hc : coded (put_row uid r st) = coded st) by (by destruct st). rewrite Hc. rewrite Hrow in Hr.
    destruct (decide (i = uid)) as [->|]; [|by apply (G6 p i u r' Hp' Hpu (Ho _ _ _ Hu))]. injection Hr as <-.
    pose proof (G2 p uid u Hp' (Ho _ _ _ Hu)) as Hle.
    destruct (He Hen) as [Hlt|(r0 & Hr0 & He0 & Ev0)]; [lia|].
    apply (G6 p uid u r0 Hp' Hpu (Ho _ _ _ Hu) Hr0 He0). congruence.
Qed.

Lemma good_issue st p uid u with_code :
  good st -> owns st p uid u -> mfv p = Some (Mfa.version_of (row_of st uid)) ->
  (forall j, jti p = Some j -> forall q, q ∈ issued st -> jti q <> Some j) ->
  match given (purpose p) with
  | Some _ => with_code = None
  | None => with_code = jti p \/ with_code = None /\ (forall r, row_of st uid = Some r -> Mfa.enabled r = false)
  end -> (is_Some (jti p) \/ is_Some (given (purpose p))) ->
  good (st {{ issued := p :: issued st }} {{ coded := match with_code with Some j => {[ j ]} ∪ coded st | None => coded st end }}).
Proof.
  intros [G1 G2 G3 G4 G5 G6] Ho Hm Hj Hw Hk. set (st' := (st {{ issued := _ }}) {{ coded := _ }}).
  assert (Hi : issued st' = p :: issued st) by (by destruct st).
  assert (Hr : forall i, row_of st' i = row_of st i) by (by destruct st).
  assert (Hown : forall q i v, owns st' q i v <-> owns st q i v) by (by destruct st).
  assert (Hp : forall i v, owns st p i v -> i = uid).
  { intros i v [Hv E]. destruct Ho as [Hu E']. apply (G1 i uid v u Hv Hu). congruence. }
  assert (Ha : forall j a e, about st j a e -> about st' j a e).
  { intros j a e [(q & Hq & Hjq) Hall]. split; [exists q; rewrite Hi; split; [by right|done]|].
    intros q'. rewrite Hi. intros [->|Hq']%elem_of_cons Hj'; [by destruct (Hj j Hj' q Hq)|].
    destruct (Hall q' Hq' Hj') as [He Hu]. split; [done|]. intros i v Hv%Hown. eauto. }
  constructor.
  - by destruct st.
  - intros q i v. rewrite Hi, Hown, Hr. intros [->|Hq]%elem_of_cons Hv; [|by eapply G2].
    rewrite (Hp i v Hv), Hm. cbn. lia.
  - intros q q' j. rewrite Hi. intros [->|Hq]%elem_of_cons [->|Hq']%elem_of_cons E E'; [done| | |by eapply G3].
    + by destruct (Hj j E q' Hq').
    + by destruct (Hj j E' q Hq).
  - intros j s Hs. apply Ha, G4. by destruct st.
  - intros j r Hs. apply Ha, G5. by destruct st.
  - intros q i v r. rewrite Hi, Hown, Hr. assert (Hc : coded st' = match with_code with Some j => {[ j ]} ∪ coded st | None => coded st end) by (by destruct st).
    rewrite Hc. intros [->|Hq]%elem_of_cons Hpu Hv Hrow Hen Hver.
    + rewrite Hpu in Hw. destruct Hk as [[j Ej]|[x Hx]]; [|congruence]. exists j. split; [done|].
      destruct Hw as [->|[_ Hoff]]; [rewrite Ej; set_solver|]. rewrite (Hp i v Hv) in Hrow. by rewrite (Hoff r Hrow) in Hen.
    + destruct (G6 q i v r Hq Hpu Hv Hrow Hen Hver) as (j & Ej & Hin). exists j. split; [done|]. destruct with_code; set_solver.
Qed.

Lemma deleted_hashes st uid d : users d = delete uid (users (accounts st)) -> new_hashes st d.
Proof. intros E i u Hi. rewrite E in Hi. apply lookup_delete_Some in Hi as [_ Hi]. left. by exists u. Qed.
Lemma good_delete st uid d :
  good st -> users d = delete uid (users (accounts st)) -> good (cascade uid (st {{ accounts := d }})).
Proof.
  intros G E. pose proof (good_accounts st d G (deleted_hashes st uid d E)) as [G1 G2 G3 G4 G5 G6].
  assert (Hne : forall p i u, owns (st {{ accounts := d }}) p i u -> i <> uid).
  { intros p i u [Hu _]. assert (Hu' : users d !! i = Some u) by (destruct st; exact Hu). rewrite E in Hu'.
    by apply lookup_delete_Some in Hu' as [? _]. }
  set (st1 := st {{ accounts := d }}) in *. set (st2 := cascade uid st1).
  assert (Hrow : forall i, i <> uid -> row_of st2 i = row_of st1 i).
  { intros i Hi. unfold st2, cascade, row_of. destruct st1; cbn. by rewrite lookup_delete_ne. }
  assert (Ho : forall p i u, owns st2 p i u -> owns st1 p i u) by (unfold st2, cascade; destruct st1; done).
  assert (Hi : issued st2 = issued st1) by (unfold st2, cascade; by destruct st1).
  assert (Ha : forall j a e, about st1 j a e -> about st2 j a e).
  { intros j a e. apply about_same; [exact Hi|]. intros q k u _ Hq%Ho. eauto. }
  assert (Hc : coded st2 = coded st1) by (unfold st2, cascade; by destruct st1).
  constructor; rewrite ?Hi, ?Hc.
  - unfold st2, cascade. by destruct st1.
  - intros p i u Hp Hu%Ho. rewrite Hrow by eauto. eauto.
  - intros p q j Hp Hq. eauto.
  - intros j s Hs. apply Ha, G4. unfold st2, cascade in Hs. destruct st1; cbn in *.
    by apply map_lookup_filter_Some in Hs as [Hs _].
  - intros j r Hs. apply Ha, G5. unfold st2, cascade in Hs. destruct st1; cbn in *.
    by apply map_lookup_filter_Some in Hs as [Hs _].
  - intros p i u r Hp Hpu Hu%Ho Hr Hen Hv. rewrite Hrow in Hr by eauto. eauto.
Qed.

Lemma write_good now st st' : good st -> write now st st' -> good st'.
Proof.
  intros G W. destruct W as [ks ls cs pol dir|d Hd|uid r Hv He|j s Ha|ss Hss|j uid e Ha| |p uid u wc Ho Hm Hj Hw Hk|uid d Hd].
  - destruct G as [G1 G2 G3 G4 G5 G6]. by constructor; destruct st.
  - by apply good_accounts.
  - by apply good_row.
  - pose proof G as [G1 G2 G3 G4 G5 G6]. apply good_web; [done| |exact G5].
    intros k s' Hk. cbn in Hk. apply lookup_insert_Some in Hk as [[<- <-]|[_ Hk]]; [done|by apply G4].
  - pose proof G as [G1 G2 G3 G4 G5 G6]. apply good_web; [done| |exact G5]. intros k s' Hk. apply G4. by eapply lookup_weaken.
  - pose proof G as [G1 G2 G3 G4 G5 G6]. apply good_web; [done| |].
    + intros k s'. rewrite revoke_sessions. apply G4.
    + intros k r [Hk|[-> ->]]%revoke_lookup; [by apply G5|done].
  - pose proof G as [G1 G2 G3 G4 G5 G6]. apply good_web; [done|exact G4|].
    intros k r Hk. apply map_lookup_filter_Some in Hk as [Hk _]. by apply G5.
  - by eapply good_issue.
  - by apply good_delete.
Qed.

(** What is over stays over. *)
Lemma write_over now st st' p : good st -> write now st st' -> p ∈ issued st -> over now st p -> over now st' p.
Proof.
  intros G W Hp [He|[(j & r & Hj & Hr)|Hv]]; [by left| |].
  - destruct (g_revoked _ G j r Hr) as [_ Hall]. destruct (Hall p Hp Hj) as [E Hown].
    destruct W as [ks ls cs pol dir|d Hd|uid r' Hv He|k s Ha|ss Hss|k uid e Ha| |q uid u wc Ho Hm Hjj Hw Hk|uid d Hd];
      try (right; left; exists j, r; split; [exact Hj|by destruct st]).
    + right; left. destruct (revoke_keeps k uid e (web st) j) as [r' Hr']; [by exists r|]. exists j, r'. split; [done|]. by destruct st.
    + destruct (decide (now <= Sessions.r_expires r)) as [Hle|Hgt]; [|left; lia].
      right; left. exists j, r. split; [done|]. assert (Hf : Sessions.revoked (prune now (web st)) !! j = Some r).
      { unfold prune. cbn. by apply map_lookup_filter_Some. }
      by destruct st.
    + right. destruct (decide (Sessions.r_user r = uid)) as [<-|Hne].
      * right. intros i u Hu. exfalso. destruct Hu as [Hu Epw]. unfold cascade in Hu. destruct st; cbn in *.
        rewrite Hd in Hu. apply lookup_delete_Some in Hu as [Hne Hu]. apply Hne. by apply (Hown i u).
      * left. exists j, r. split; [done|]. unfold cascade. destruct st; cbn in *. by apply map_lookup_filter_Some.
  - right; right. destruct W as [ks ls cs pol dir|d Hd|uid r' Hv' He|k s Ha|ss Hss|k uid e Ha| |q uid u wc Ho Hm Hjj Hw Hk|uid d Hd];
      try (intros i v Hiv; destruct st; by apply (Hv i v)).
    + intros i v Hiv. destruct (owns_later st d p i v Hd Hp Hiv) as [v0 H0]. destruct st. by apply (Hv i v0).
    + intros i v Hiv. assert (Hlt : default 0 (mfv p) < Mfa.version_of (row_of st i)) by (apply (Hv i v); by destruct st).
      unfold row_of, put_row in *. destruct st; cbn in *. destruct (decide (i = uid)) as [->|Hne].
      * rewrite lookup_insert_eq. cbn. lia.
      * by rewrite lookup_insert_ne.
    + intros i v [Hiv Epw]. unfold cascade, row_of in *. destruct st; cbn in *. rewrite Hd in Hiv.
      apply lookup_delete_Some in Hiv as [Hne Hiv]. rewrite lookup_delete_ne by done. by apply (Hv i v).
Qed.

(** ** Histories of writes *)
Definition writes (now : Z) : state -> state -> Prop := rtc (write now).
Lemma writes_good now st st' : good st -> writes now st st' -> good st'.
Proof. intros G Hw. induction Hw as [|st st1 st2 Hw _ IH]; [done|]. apply IH. by eapply write_good. Qed.
Lemma write_issued now st st' p : write now st st' -> p ∈ issued st -> p ∈ issued st'.
Proof.
  intros W Hp. destruct W; try (by destruct st).
  assert (issued ((st {{ issued := p0 :: issued st }} {{ coded := _ }})) = p0 :: issued st) as -> by (by destruct st). by right.
Qed.
Lemma writes_issued now st st' p : writes now st st' -> p ∈ issued st -> p ∈ issued st'.
Proof. intros Hw Hp. induction Hw as [|st st1 st2 Hw _ IH]; [done|]. eauto using write_issued. Qed.
Lemma writes_over now st st' p : good st -> writes now st st' -> p ∈ issued st -> over now st p -> over now st' p.
Proof.
  intros G Hw. induction Hw as [|st st1 st2 Hw _ IH]; [done|]. intros Hp Ho. apply IH.
  - by eapply write_good.
  - by eapply write_issued.
  - by eapply write_over.
Qed.
Lemma over_later now now' st p : now <= now' -> over now st p -> over now' st p.
Proof. intros Hle [?|?]; [left; lia|by right]. Qed.

(** ** What the handlers write *)
Lemma user_named_spec st name uid u :
  user_named st name = Some (uid, u) -> users (accounts st) !! uid = Some u /\ username u = name.
Proof.
  unfold user_named. intros [Hin Hn]%List.find_some. apply bool_decide_eq_true in Hn.
  by apply list_elem_of_In, elem_of_map_to_list in Hin.
Qed.
Lemma given_some x y : given x = Some y -> x = Some y.
Proof. destruct x as [[|]|]; cbn; by intros [= <-]. Qed.

Lemma about_own st p j uid u :
  good st -> p ∈ issued st -> jti p = Some j -> owns st p uid u -> about st j uid (exp p).
Proof.
  intros G Hp Hj [Hu Epw]. split; [by exists p|]. intros q Hq Hjq. rewrite (g_ids _ G p q j Hp Hq Hj Hjq) in *.
  split; [done|]. intros i v [Hv Ev]. apply (g_prints _ G uid i u v Hu Hv). congruence.
Qed.

Lemma touch_writes st p uid u now w ok :
  good st -> p ∈ issued st -> owns st p uid u ->
  Sessions.touch SESSION_IDLE_TIMEOUT_MINUTES (given (jti p)) uid (exp p) now (web st) = (w, ok) ->
  writes now st (st {{ web := w }}) /\
  (ok = false -> exists j, jti p = Some j /\ is_Some (Sessions.revoked w !! j)).
Proof.
  intros G Hp Ho. destruct (given (jti p)) as [j|] eqn:Ej; cbn [Sessions.touch].
  - apply given_some in Ej. pose proof (about_own st p j uid u G Hp Ej Ho) as Hab.
    destruct (Sessions.sessions (web st) !! j) as [s|] eqn:Es.
    + destruct (g_sessions _ G j s Es) as [Hex Hall]. destruct (Hall p Hp Ej) as [Ee Hid].
      destruct (_ <? _); [|destruct (_ <=? _)]; intros [= <- <-].
      * split; [|intros _; exists j; split; [done|apply revoke_there]].
        apply rtc_once, write_revoke. by rewrite Ee.
      * split; [|done]. apply rtc_once, write_session. destruct s. by split.
      * split; [|done]. destruct st. apply rtc_refl.
    + intros [= <- <-]. split; [|done]. apply rtc_once. by apply write_session.
  - intros [= <- <-]. split; [|done]. destruct st. apply rtc_refl.
Qed.

Definition signed (st : state) (token : pystr) (now : Z) : Prop := forall p, decode token now = Ok p -> p ∈ issued st.

(** A request that was let in: what was written, and whose it is. *)
Record let_in (st st1 : state) (token : pystr) (now uid : Z) (u : user) : Prop := {
  in_writes : writes now st st1;
  in_accounts : accounts st1 = accounts st;
  in_rows : two_step st1 = two_step st;
  in_issued : issued st1 = issued st;
  in_coded : coded st1 = coded st;
  in_policy : policy st1 = policy st;
  in_user : users (accounts st) !! uid = Some u;
  in_active : is_active u = true;
  in_token : ApiKeys.is_api_key token = true /\ source u = FromKey \/
    exists p, decode token now = Ok p /\ given (purpose p) = None /\ owns st p uid u /\
      default 0 (mfv p) = Mfa.version_of (row_of st uid)
}.

Lemma keys_write now st keys : write now st (st {{ api_keys := keys }}).
Proof.
  assert (st {{ api_keys := keys }} = st {{ api_keys := keys }} {{ logins := logins st }} {{ codes := codes st }} {{ policy := policy st }} {{ directory := directory st }}) as ->
    by (by destruct st). constructor.
Qed.
Lemma log_write now st ip name b t : write now st (log_login st ip name b t).
Proof.
  assert (log_login st ip name b t = st {{ api_keys := api_keys st }} {{ logins := logins (log_login st ip name b t) }} {{ codes := codes st }} {{ policy := policy st }} {{ directory := directory st }}) as ->
    by (by destruct st). constructor.
Qed.

Lemma api_active st keys token ip now keys' uid u :
  ApiKeys.authenticate sha256 parse_ip in_network keys (api_account <$> users (accounts st)) token ip now = Ok (keys', uid) ->
  users (accounts st) !! uid = Some u -> is_active u = true /\ source u = FromKey.
Proof.
  unfold ApiKeys.authenticate. destruct (ApiKeys.parse token) as [[kid sec]|]; [|done].
  destruct (bool_decide _); [|done]. destruct (keys !! kid) as [k|]; [|done]. destruct (negb _); [done|].
  destruct (_ <=? _); [done|]. rewrite lookup_fmap. destruct (users (accounts st) !! ApiKeys.user_id k) as [v|] eqn:Ev; [|done].
  cbn. destruct (negb (is_active v) || _) eqn:Ea; [done|]. destruct (negb (ApiKeys.ip_allowed _ _ _ _)); [done|].
  intros [= _ <-] Hu. rewrite Ev in Hu. injection Hu as ->. by bool_prop.
Qed.

Lemma get_current_user_spec st token rq critical now st1 who :
  good st -> signed st token now -> get_current_user st token rq critical now = (st1, who) ->
  writes now st st1 /\
  match who with
  | Ok (uid, u) => let_in st st1 token now uid u
  | Raise IdleTooLong => exists p j, decode token now = Ok p /\ jti p = Some j /\ is_Some (Sessions.revoked (web st1) !! j)
  | Raise _ => True
  end.
Proof.
  intros G Hs. unfold get_current_user. destruct (ApiKeys.is_api_key token) eqn:Ek.
  - destruct (ApiKeys.authenticate _ _ _ _ _ _ _ _) as [[keys uid]|] eqn:Ea; [|intros [= <- <-]; by split; [apply rtc_refl|]].
    destruct (users (accounts st) !! uid) as [u|] eqn:Eu; [|intros [= <- <-]; by split; [apply rtc_refl|]].
    assert (Hw : writes now st (st {{ api_keys := keys }})) by apply rtc_once, keys_write.
    destruct (check_storage critical rq (role u)); intros [= <- <-]; (split; [exact Hw|]); [|done].
    assert (Hact : is_active u = true /\ source u = FromKey) by (eapply api_active; eauto). destruct Hact as [? ?].
    constructor; try done; try (by destruct st). by left.
  - destruct (decode token now) as [p|[]] eqn:Ed; [|intros [= <- <-]; by split; [apply rtc_refl|]..].
    destruct (sub p) as [name|]; [|intros [= <- <-]; by split; [apply rtc_refl|]].
    destruct (given (purpose p)) eqn:Epu; [intros [= <- <-]; by split; [apply rtc_refl|]|].
    destruct (match given (jti p) with Some _ => _ | None => false end); [intros [= <- <-]; by split; [apply rtc_refl|]|].
    destruct (user_named st name) as [[uid u]|] eqn:Eu; [|intros [= <- <-]; by split; [apply rtc_refl|]].
    apply user_named_spec in Eu as [Hu _].
    destruct (_ || _) eqn:Em; [intros [= <- <-]; by split; [apply rtc_refl|]|]. bool_prop.
    destruct (negb (is_active u)) eqn:Eact; [intros [= <- <-]; by split; [apply rtc_refl|]|]. bool_prop.
    assert (Ho : owns st p uid u) by done.
    destruct (Sessions.touch _ _ _ _ _ _) as [w ok] eqn:Et. apply touch_writes with (u := u) in Et as [Hw Hidle]; [|done|by apply Hs|done].
    destruct ok; cbn [negb].
    + assert (Hin : let_in st (st {{ web := w }}) token now uid u).
      { constructor; try done; try (by destruct st). right. by exists p. }
      destruct (_ && _); [intros [= <- <-]; by split|]. destruct (_ && _); [intros [= <- <-]; by split|].
      destruct (negb _); intros [= <- <-]; by split.
    + intros [= <- <-]. split; [done|]. destruct (Hidle eq_refl) as (j & Hj & Hr). exists p, j. split_and!; [done|done|by destruct st].
Qed.

(** [secrets.token_hex(16)]: an id no signed token has. *)
Definition fresh_id (st : state) (rand : pystr) : Prop := rand <> [] /\ forall q, q ∈ issued st -> jti q <> Some rand.

Lemma issue_writes st uid u rand wc now :
  good st -> users (accounts st) !! uid = Some u -> fresh_id st rand ->
  (wc = true \/ forall r, row_of st uid = Some r -> Mfa.enabled r = false) ->
  writes now st (fst (issue_session st uid u rand wc now)).
Proof.
  intros G Hu [_ Hf] Hwc. unfold issue_session. cbn [fst]. set (p := access_payload st uid u rand now).
  set (st1 := (st {{ issued := p :: issued st }})
                  {{ coded := match (if wc then Some rand else None) with Some j => {[ j ]} ∪ coded st | None => coded st end }}).
  set (ss := filter (fun kv => now <= Sessions.expires_at (snd kv)) (Sessions.sessions (web st))).
  set (st2 := st1 {{ web := {| Sessions.sessions := ss; Sessions.revoked := Sessions.revoked (web st1) |} }}).
  assert (W1 : write now st st1).
  { apply (write_issue now st p uid u); [done|done| | |by left].
    - intros j [= <-]. exact Hf.
    - cbn. destruct wc; [by left|right]. split; [done|]. by destruct Hwc. }
  assert (W2 : write now st1 st2).
  { apply write_forget. unfold ss, st1. destruct st; cbn. apply map_filter_subseteq. }
  assert (Hab : about st2 rand uid (exp p)).
  { assert (Hi : issued st2 = p :: issued st) by (by destruct st). split; [exists p; rewrite Hi; split; [left|done]|].
    intros q. rewrite Hi. intros [->|Hq]%elem_of_cons Ej; [|by destruct (Hf q Hq)]. split; [done|].
    intros i v [Hv Ev]. assert (Hv' : users (accounts st) !! i = Some v) by (by destruct st).
    apply (g_prints _ G uid i u v Hu Hv'). cbn in Ev. exact Ev. }
  eapply rtc_l; [exact W1|]. eapply rtc_l; [exact W2|]. apply rtc_once.
  assert (st {{ web := Sessions.open_session rand uid (exp p) now (web st) }} {{ issued := p :: issued st }}
             {{ coded := if wc then {[ rand ]} ∪ coded st else coded st }} =
          st2 {{ web := {| Sessions.sessions := <[rand := Sessions.Session uid now now (exp p)]> (Sessions.sessions (web st2));
                           Sessions.revoked := Sessions.revoked (web st2) |} }}) as -> by (destruct st, wc; reflexivity).
  by apply write_session.
Qed.

(** A handler behind [get_current_user] writes what it writes once let in. *)
Lemma signed_in_writes st token rq critical now k :
  good st -> signed st token now ->
  (forall st1 uid u, good st1 -> let_in st st1 token now uid u -> writes now st1 (fst (k st1 uid u))) ->
  writes now st (fst (signed_in st token rq critical now k)).
Proof.
  intros G Hs Hk. unfold signed_in. destruct (get_current_user _ _ _ _ _) as [st1 who] eqn:E.
  apply get_current_user_spec in E as [Hw Hin]; [|done|done]. destruct who as [[uid u]|]; [|exact Hw].
  etransitivity; [exact Hw|]. apply Hk; [|done]. by eapply writes_good.
Qed.
Lemma let_in_user st st1 token now uid u : let_in st st1 token now uid u -> users (accounts st1) !! uid = Some u.
Proof. intros []. congruence. Qed.
Lemma let_in_fresh st st1 token now uid u rand : let_in st st1 token now uid u -> fresh_id st rand -> fresh_id st1 rand.
Proof. unfold fresh_id. intros [] ?. by rewrite in_issued0. Qed.
Lemma let_in_signed st st1 token now uid u : let_in st st1 token now uid u -> signed st token now -> signed st1 token now.
Proof. unfold signed. intros [] ?. by rewrite in_issued0. Qed.
Lemma let_in_hashes st st1 token now uid u d : let_in st st1 token now uid u -> new_hashes st d -> new_hashes st1 d.
Proof. unfold new_hashes. intros [] ?. by rewrite in_issued0, in_accounts0. Qed.

(** Rows that change neither whether two-step sign-in is on nor its version. *)
Lemma same_row_write now st uid r0 r :
  default Mfa.new_row (row_of st uid) = r0 -> Mfa.enabled r = Mfa.enabled r0 -> Mfa.version r = Mfa.version r0 ->
  write now st (put_row uid r st).
Proof.
  intros E He Hv. assert (Hd : Mfa.version_of (row_of st uid) = Mfa.version r0) by (subst r0; by destruct (row_of st uid)).
  constructor; [lia|]. intros Hr. right. destruct (row_of st uid) as [r1|]; cbn in E; subst r0.
  - exists r1. split_and!; [done|congruence|congruence].
  - rewrite He in Hr. done.
Qed.
Lemma newer_row_write now st uid r : Mfa.version_of (row_of st uid) < Mfa.version r -> write now st (put_row uid r st).
Proof. intros Hlt. constructor; [lia|auto]. Qed.
Lemma version_default st uid : Mfa.version (default Mfa.new_row (row_of st uid)) = Mfa.version_of (row_of st uid).
Proof. by destruct (row_of st uid). Qed.
Lemma row_put st uid r : row_of (put_row uid r st) uid = Some r.
Proof. unfold row_of, put_row. destruct st; cbn. apply lookup_insert_eq. Qed.

(** The successful sign-in logged, and the session opened. *)
Lemma opened st uid u rand wc ip name now :
  good st -> users (accounts st) !! uid = Some u -> fresh_id st rand ->
  (wc = true \/ forall r, row_of st uid = Some r -> Mfa.enabled r = false) ->
  writes now st (fst (issue_session (log_login st ip name true now) uid u rand wc now)).
Proof.
  intros G Hu Hf Hr. pose proof (log_write now st ip name true now) as W. eapply rtc_l; [exact W|].
  apply issue_writes; [by eapply write_good|by destruct st|by destruct st|by destruct st].
Qed.

Section LoginWrites.
Context (find_user : pystr -> res unavailable (option directory_user)).
Context (check_password : directory_user -> pystr -> res unavailable bool).
Context (groups_of : directory_user -> res unavailable (list pystr)).

Lemma sign_in_user_spec st name password hashed st1 uo :
  sign_in_user find_user check_password groups_of st name password hashed = Ok (st1, uo) ->
  st1 = st {{ accounts := accounts st1 }} /\
  match uo with Some (uid, u) => users (accounts st1) !! uid = Some u | None => True end.
Proof.
  unfold sign_in_user. destruct (directory st) as [on maps]. destruct (on && _).
  - destruct (sign_in _ _ _ _ _ _ _ _) as [[d uid| | | |]|]; try done; intros [= <- <-]; (split; [by destruct st|]); try done.
    destruct (users d !! uid) eqn:Eu; [|done]. by destruct st.
  - intros [= <- <-]. split; [by destruct st|]. unfold authenticate_user.
    destruct (user_named st name) as [[uid u]|] eqn:Eu; [|done]. destruct (_ || _); [done|]. by apply user_named_spec in Eu as [? _].
Qed.

Lemma start_grace_same p r0 st uid now r :
  Mfa.start_grace p r0 (row_of st uid) now = Some r ->
  Mfa.enabled r = Mfa.enabled (default Mfa.new_row (row_of st uid)) /\ Mfa.version r = Mfa.version (default Mfa.new_row (row_of st uid)).
Proof.
  unfold Mfa.start_grace. destruct (negb _); [by intros ->|]. set (r1 := match row_of st uid with Some r => r | None => Mfa.new_row end).
  assert (default Mfa.new_row (row_of st uid) = r1) as -> by (unfold r1; by destruct (row_of st uid)).
  intros [= <-]. destruct (Mfa.enabled r1) eqn:E1; [done|]. destruct (Mfa.deadline r1); [done|]. by destruct r1.
Qed.

Lemma login_writes st name password ip hashed rand now :
  good st -> fresh_id st rand ->
  new_hashes st (accounts (fst (login find_user check_password groups_of st name password ip hashed rand now))) ->
  writes now st (fst (login find_user check_password groups_of st name password ip hashed rand now)).
Proof.
  intros G Hf. unfold login. destruct (limited st ip name now); [intros _; apply rtc_once, log_write|].
  destruct (sign_in_user _ _ _ st name password hashed) as [[st1 uo]|[]] eqn:Es;
    [|intros _; first [apply rtc_refl|apply rtc_once, log_write]..].
  apply sign_in_user_spec in Es as [E1 Huo].
  assert (Hacc : new_hashes st (accounts st1) -> writes now st st1) by (intros Hn; rewrite E1; apply rtc_once; by constructor).
  assert (Hf1 : fresh_id st1 rand) by (rewrite E1; by destruct st).
  destruct uo as [[uid u]|]; [|intros Hn; eapply rtc_r; [by apply Hacc; destruct st1|apply log_write]].
  destruct (negb (is_active u)); [intros Hn; eapply rtc_r; [by apply Hacc; destruct st1|apply log_write]|].
  destruct (Mfa.start_grace (policy st1) (role u) (row_of st1 uid) now) as [r|] eqn:Er.
  - apply start_grace_same in Er as [Hen Hve]. pose proof (same_row_write now st1 uid _ r eq_refl Hen Hve) as W.
    destruct (Mfa.enabled r) eqn:Eenr; cbn [fst]; intros Hn;
      (assert (Hw : writes now st (put_row uid r st1)) by (eapply rtc_r; [by apply Hacc; destruct st1|exact W]));
      (etransitivity; [exact Hw|]).
    + assert (Eq : forall s2 x, s2 {{ issued := x }} = s2 {{ issued := x }} {{ coded := coded s2 }}) by (by intros []).
      rewrite Eq. apply rtc_once, (write_issue now (put_row uid r st1) (mfa_payload u r now) uid u None);
        [by destruct st1|by rewrite row_put|done|done|by right].
    + apply opened; [by eapply writes_good|by destruct st1|by destruct st1|]. right. intros r'. rewrite row_put. congruence.
  - cbn [fst]. intros Hn. assert (Hw : writes now st st1) by (by apply Hacc; destruct st1).
    etransitivity; [exact Hw|]. apply opened; [by eapply writes_good|done|done|].
    right. intros r' Hr'. unfold Mfa.start_grace in Er. rewrite Hr' in Er. by destruct (negb _).
Qed.
End LoginWrites.

(** Whose session it is, for a token that reads. *)
Lemma let_in_token st st1 token now uid u p :
  let_in st st1 token now uid u -> decode token now = Ok p ->
  given (purpose p) = None /\ owns st p uid u /\ default 0 (mfv p) = Mfa.version_of (row_of st uid).
Proof.
  intros L Hd. destruct (in_token _ _ _ _ _ _ L) as [[Hk _]|(q & Hq & ?)].
  - rewrite (decode_not_key _ _ _ Hd) in Hk. done.
  - rewrite Hd in Hq. by injection Hq as <-.
Qed.
Lemma let_in_row st st1 token now uid u i : let_in st st1 token now uid u -> row_of st1 i = row_of st i.
Proof. intros []. unfold row_of. by rewrite in_rows0. Qed.

Lemma login_mfa_writes st token code ip rand now :
  good st -> fresh_id st rand -> writes now st (fst (login_mfa st token code ip rand now)).
Proof.
  intros G Hf. unfold login_mfa. destruct (read_mfa_token st token now) as [[uid u]|] eqn:Er; [|apply rtc_refl].
  assert (Hu : users (accounts st) !! uid = Some u).
  { revert Er. unfold read_mfa_token. destruct (decode token now) as [p|]; [|done]. destruct (negb _); [done|].
    destruct (sub p) as [name|]; [|done]. destruct (user_named st name) as [[i v]|] eqn:En; [|done].
    destruct (_ || _); [done|]. intros [= <- <-]. by apply user_named_spec in En as [? _]. }
  destruct (limited _ _ _ _); [apply rtc_once, log_write|].
  destruct (Mfa.check_code _ _ _ _ _ _) as [[r [how|]]|] eqn:Ec; [|apply rtc_once, log_write|apply rtc_refl].
  apply Mfa.check_code_spec in Ec as (He & _ & Hv & _). pose proof (same_row_write now st uid _ r eq_refl He Hv) as W.
  eapply rtc_l; [exact W|]. apply opened; [by eapply write_good|by destruct st|by destruct st|by left].
Qed.

Lemma logout_writes st token critical now :
  good st -> signed st token now -> writes now st (fst (logout st token critical now)).
Proof.
  intros G Hs. apply signed_in_writes; [done|done|]. intros st1 uid u G1 L.
  destruct (decode token now) as [p|] eqn:Ed; [|apply rtc_refl].
  destruct (let_in_token _ _ _ _ _ _ _ L Ed) as (_ & Ho & _).
  destruct (given (jti p)) as [j|] eqn:Ej; [|apply rtc_once, write_prune].
  cbv zeta. case_match; [apply rtc_refl|]. cbn [fst].
  assert (Eq : st1 {{ web := Sessions.revoke j uid (exp p) (prune now (web st1)) }} =
    (st1 {{ web := prune now (web st1) }}) {{ web := Sessions.revoke j uid (exp p) (web (st1 {{ web := prune now (web st1) }})) }}) by (by destruct st1).
  rewrite Eq. eapply rtc_l; [apply write_prune|]. apply rtc_once, write_revoke.
  apply (about_same st1); [by destruct st1|intros q i v _ Hq; exists v; by destruct st1|].
  assert (Hp : p ∈ issued st1) by (rewrite (in_issued _ _ _ _ _ _ L); by apply Hs).
  apply (about_own st1 p j uid u G1 Hp); [by apply given_some|]. destruct Ho as [Hu Epw]. split; [|done]. by eapply let_in_user.
Qed.

Section DirectoryWrites.
Context (find_user : pystr -> res unavailable (option directory_user)).
Context (check_password : directory_user -> pystr -> res unavailable bool).
Notation _check_password := (_check_password find_user check_password).

Lemma sure_writes st u password ip now k :
  good st ->
  (forall st1, good st1 -> accounts st1 = accounts st -> two_step st1 = two_step st -> issued st1 = issued st -> coded st1 = coded st ->
     writes now st1 (fst (k st1))) ->
  writes now st (fst (sure_of_password find_user check_password st u password ip now k)).
Proof.
  intros G Hk. unfold sure_of_password, Access._check_password. destruct (limited _ _ _ _); [apply rtc_refl|].
  destruct (if bool_decide _ then _ else _) as [[]|]; [by apply Hk|apply rtc_once, log_write|apply rtc_refl].
Qed.
Lemma check_code_row st u r code ip now st1 r1 :
  _check_code st u r code ip now = (st1, Ok r1) -> st1 = st /\ Mfa.enabled r1 = Mfa.enabled r /\ Mfa.version r1 = Mfa.version r.
Proof.
  unfold _check_code. destruct (Mfa.check_code _ _ _ _ _ _) as [[r2 [how|]]|] eqn:Ec; try done.
  intros [= <- <-]. by apply Mfa.check_code_spec in Ec as (? & _ & ? & _).
Qed.
Lemma check_code_writes st u r code ip now : writes now st (fst (_check_code st u r code ip now)).
Proof. unfold _check_code. destruct (Mfa.check_code _ _ _ _ _ _) as [[r2 [how|]]|]; [apply rtc_refl|apply rtc_once, log_write|apply rtc_refl]. Qed.

Lemma start_setup_writes st token rq critical password code new_secret now :
  good st -> signed st token now ->
  writes now st (fst (start_setup find_user check_password st token rq critical password code new_secret now)).
Proof.
  intros G Hs. apply signed_in_writes; [done|done|]. intros st1 uid u G1 _. apply sure_writes; [done|].
  intros st2 G2 _ _ _ _. cbv zeta. set (r := default Mfa.new_row (row_of st2 uid)).
  destruct (Mfa.enabled r) eqn:Ee; [|apply rtc_once; apply (same_row_write now st2 uid r); [done|clearbody r; by destruct r..]].
  destruct (given code) as [c|]; [|apply rtc_refl]. pose proof (check_code_writes st2 u r c (client rq) now) as Hw.
  destruct (_check_code st2 u r c (client rq) now) as [st3 [r1|]] eqn:Ec; [|exact Hw].
  apply check_code_row in Ec as (-> & He & Hv). apply rtc_once.
  apply (same_row_write now st2 uid r); [done|clearbody r; by destruct r1..].
Qed.

Lemma with_code_writes st uid u code ip now k :
  (forall r0 r, row_of st uid = Some r0 -> Mfa.enabled r0 = true -> Mfa.enabled r = true -> Mfa.version r = Mfa.version r0 ->
     writes now st (fst (k st r))) ->
  writes now st (fst (with_code_of st uid u code ip now k)).
Proof.
  intros Hk. unfold with_code_of. destruct (row_of st uid) as [r|] eqn:Er; [|apply rtc_refl].
  destruct (Mfa.enabled r) eqn:Ee; [|apply rtc_refl]. pose proof (check_code_writes st u r code ip now) as Hw.
  destruct (_check_code st u r code ip now) as [st3 [r1|]] eqn:Ec; [|exact Hw].
  apply check_code_row in Ec as (-> & He & Hv). apply (Hk r r1); congruence.
Qed.
Lemma new_codes_writes st token rq critical password code recovery now :
  good st -> signed st token now ->
  writes now st (fst (new_codes find_user check_password st token rq critical password code recovery now)).
Proof.
  intros G Hs. apply signed_in_writes; [done|done|]. intros st1 uid u G1 _. apply sure_writes; [done|].
  intros st2 G2 _ _ _ _. apply with_code_writes. intros r0 r Hr0 He0 He Hv.
  apply rtc_once. apply (same_row_write now st2 uid r0); [by rewrite Hr0|destruct r; cbn in *; congruence|by destruct r].
Qed.
Lemma disable_writes st token rq critical password code rand now :
  good st -> signed st token now -> fresh_id st rand ->
  writes now st (fst (disable find_user check_password st token rq critical password code rand now)).
Proof.
  intros G Hs Hf. apply signed_in_writes; [done|done|]. intros st1 uid u G1 L. destruct (Mfa.is_required _ _); [apply rtc_refl|].
  apply sure_writes; [done|]. intros st2 G2 Ea _ Ei _. apply with_code_writes. intros r0 r Hr0 _ _ Hv.
  assert (W : write now st2 (put_row uid (Mfa._clear r) st2)) by (apply newer_row_write; rewrite Hr0; destruct r; cbn in *; lia).
  eapply rtc_l; [exact W|]. apply issue_writes; [by eapply write_good| | |].
  - assert (accounts (put_row uid (Mfa._clear r) st2) = accounts st2) as -> by (by destruct st2). rewrite Ea. by eapply let_in_user.
  - unfold fresh_id. assert (issued (put_row uid (Mfa._clear r) st2) = issued st2) as -> by (by destruct st2). rewrite Ei.
    by apply (let_in_fresh _ _ _ _ _ _ _ L).
  - right. intros r'. rewrite row_put. intros [= <-]. by destruct r.
Qed.
End DirectoryWrites.

Lemma confirmed_version r code recovery now r' :
  Mfa.confirm_setup hmac_sha1 _key r code recovery now = Ok (Some r') -> Mfa.version r' = Mfa.version r + 1.
Proof.
  unfold Mfa.confirm_setup. destruct (Mfa.pending_secret r) as [[|c sec]|]; try done.
  destruct (Totp.verify _ _ _ _ _ _) as [[k|]|]; try done. cbn. intros [= <-]. by destruct r.
Qed.
Lemma confirm_setup_writes st token rq critical code recovery rand now :
  good st -> signed st token now -> fresh_id st rand ->
  writes now st (fst (confirm_setup st token rq critical code recovery rand now)).
Proof.
  intros G Hs Hf. apply signed_in_writes; [done|done|]. intros st1 uid u G1 L.
  destruct (row_of st1 uid) as [[en sec [[|c pend]|] lu rc ve de ea]|] eqn:Er; try apply rtc_refl.
  set (r := Mfa.Row _ _ _ _ _ _ _ _) in *. destruct (Mfa.confirm_setup _ _ _ _ _ _) as [[r'|]|] eqn:Ec; [|apply rtc_refl..].
  apply confirmed_version in Ec.
  assert (W : write now st1 (put_row uid r' st1)) by (apply newer_row_write; rewrite Er; cbn [Mfa.version_of]; lia).
  eapply rtc_l; [exact W|]. apply issue_writes; [by eapply write_good| | |by left].
  - apply let_in_user in L. by destruct st1.
  - apply (let_in_fresh _ _ _ _ _ _ _ L) in Hf. by destruct st1.
Qed.

Lemma change_own_password_writes st token rq critical current new salt rand now :
  good st -> signed st token now -> fresh_id st rand ->
  new_hashes st (accounts (fst (change_own_password st token rq critical current new salt rand now))) ->
  writes now st (fst (change_own_password st token rq critical current new salt rand now)).
Proof.
  intros G Hs Hf. unfold change_own_password, signed_in. destruct (get_current_user _ _ _ _ _) as [st1 who] eqn:E.
  apply get_current_user_spec in E as [Hw L]; [|done|done]. destruct who as [[uid u]|]; [|done].
  assert (G1 : good st1) by (by eapply writes_good).
  case_bool_decide as Hl; cbn [negb]; [|done]. destruct (negb (verify_password current _)); [done|].
  destruct (verify_password new _); [done|]. destruct (get_password_hash bcrypt salt new) as [h|]; [|done].
  set (u' := u {{ hashed_password := h }} {{ must_change_password := false }}). set (d := put_user uid u' (accounts st1)).
  set (st2 := st1 {{ accounts := d }}). set (wc := session_coded st1 token now). intros Hn.
  assert (Hacc : forall s i v x w, accounts (fst (issue_session s i v x w now)) = accounts s) by (by intros []).
  rewrite Hacc in Hn. assert (Hd : accounts st2 = d) by (by destruct st1). rewrite Hd in Hn.
  assert (W : write now st1 st2) by (constructor; by eapply let_in_hashes).
  etransitivity; [exact Hw|]. eapply rtc_l; [exact W|]. apply issue_writes.
  - by eapply write_good.
  - rewrite Hd. cbn. apply lookup_insert_eq.
  - apply (let_in_fresh _ _ _ _ _ _ _ L) in Hf. by destruct st1.
  - assert (Hrow : forall i, row_of st2 i = row_of st1 i) by (by destruct st1).
    destruct wc eqn:Ewc; [by left|right]. intros r Hr. rewrite Hrow in Hr. destruct (Mfa.enabled r) eqn:Een; [exfalso|done].
    (** an enabled row: the session that asks was opened with a code *)
    destruct (in_token _ _ _ _ _ _ L) as [[_ Hk]|(p & Hp & Hpu & Ho & Hv)]; [congruence|].
    assert (Ho1 : owns st1 p uid u) by (split; [by eapply let_in_user|apply Ho]).
    rewrite <- (let_in_row _ _ _ _ _ _ _ L), Hr in Hv. cbn in Hv.
    destruct (g_coded _ G1 p uid u r) as (j & Hj & Hin); [rewrite (in_issued _ _ _ _ _ _ L); by apply Hs|done..|].
    revert Ewc. unfold wc, session_coded. rewrite Hp, Hj. by rewrite bool_decide_true.
Qed.

Lemma reset_user_mfa_writes st token rq critical target now :
  good st -> signed st token now -> writes now st (fst (reset_user_mfa st token rq critical target now)).
Proof.
  intros G Hs. apply signed_in_writes; [done|done|]. intros st1 uid u G1 L. destruct (negb _); [apply rtc_refl|].
  destruct (target =? uid); [apply rtc_refl|]. destruct (users (accounts st1) !! target) as [v|]; [|apply rtc_refl].
  apply rtc_once, newer_row_write. rewrite <- version_default. destruct (Mfa.is_required _ _), (default _ _); cbn; lia.
Qed.
Lemma put_policy_writes st token rq critical roles grace now :
  good st -> signed st token now -> writes now st (fst (put_policy st token rq critical roles grace now)).
Proof.
  intros G Hs. apply signed_in_writes; [done|done|]. intros st1 uid u G1 L. destruct (negb _); [apply rtc_refl|].
  apply rtc_once. cbn [fst]. set (pol := Mfa.get_policy _ _).
  assert (st1 {{ policy := pol }} = st1 {{ api_keys := api_keys st1 }} {{ logins := logins st1 }} {{ codes := codes st1 }} {{ policy := pol }} {{ directory := directory st1 }}) as -> by (by destruct st1).
  constructor.
Qed.
Lemma manage_users_writes st token rq critical o salt now :
  good st -> signed st token now ->
  new_hashes st (accounts (fst (manage_users st token rq critical o salt now))) ->
  writes now st (fst (manage_users st token rq critical o salt now)).
Proof.
  intros G Hs. unfold manage_users, signed_in. destruct (get_current_user _ _ _ _ _) as [st1 who] eqn:E.
  apply get_current_user_spec in E as [Hw L]; [|done|done]. destruct who as [[uid u]|]; [|done].
  destruct (Users.request _ _ _ _ _ _) as [d|] eqn:Er; [|done]. intros Hn. etransitivity; [exact Hw|].
  assert (Hd : accounts (fst (match o with DeleteUser target => cascade target (st1 {{ accounts := d }}) | _ => st1 {{ accounts := d }} end, Done)) = d)
    by (destruct o, st1; done).
  rewrite Hd in Hn. apply (let_in_hashes _ _ _ _ _ _ _ L) in Hn. apply rtc_once.
  destruct o as [| | |target]; try (by constructor). cbn [fst]. apply write_delete. by eapply request_deletes.
Qed.

Lemma codes_write now st cs : write now st (st {{ codes := cs }}).
Proof.
  assert (st {{ codes := cs }} = st {{ api_keys := api_keys st }} {{ logins := logins st }} {{ codes := cs }} {{ policy := policy st }} {{ directory := directory st }}) as -> by (by destruct st).
  constructor.
Qed.
Lemma change_code_writes now st id f r : writes now st (fst (change_code st id f r)).
Proof. unfold change_code. destruct (code_row _ _); [apply rtc_once, codes_write|apply rtc_refl]. Qed.
Lemma write_reset_writes now st p new salt :
  new_hashes st (accounts (fst (write_reset st p new salt))) -> writes now st (fst (write_reset st p new salt)).
Proof.
  destruct p as [|id|id seen|uid id seen]; cbn [write_reset]; [intros _; apply rtc_refl|intros _; apply change_code_writes..|].
  destruct (get_password_hash _ _ _) as [h|]; [|intros _; apply rtc_refl].
  destruct (_ !! uid) as [u|]; [|intros _; apply rtc_refl].
  destruct (code_row _ _); [|intros _; apply rtc_refl]. cbn [fst]. intros Hn.
  eapply rtc_l; [apply codes_write|]. apply rtc_once, write_accounts. revert Hn. by destruct st.
Qed.
Lemma create_otp_writes st e otp now : writes now st (fst (create_password_reset_otp st e otp now)).
Proof.
  unfold create_password_reset_otp. destruct (user_with_email st e) as [[uid u]|]; [|apply rtc_refl].
  destruct (_ || _); [apply rtc_refl|]. apply rtc_once, codes_write.
Qed.
Lemma end_directory_sessions_writes st now : good st -> writes now st (end_directory_sessions st now).
Proof.
  intros G. unfold end_directory_sessions. set (rows := List.filter _ _).
  assert (Hrows : forall js, js ∈ rows -> about st (fst js) (Sessions.user_id (snd js)) (Sessions.expires_at (snd js))).
  { intros [j s] [Hin _]%elem_filter. by apply (g_sessions _ G), elem_of_map_to_list. }
  clearbody rows. revert st G Hrows. induction rows as [|[j s] rows IH]; intros st G Hrows; cbn [foldl fst snd].
  - destruct st. apply rtc_refl.
  - set (w := Sessions.revoke j (Sessions.user_id s) (Sessions.expires_at s) (web st)).
    assert (W : write now st (st {{ web := w }})) by (apply write_revoke, (Hrows (j, s)); left).
    assert (Hw : web (st {{ web := w }}) = w) by (by destruct st).
    eapply rtc_l; [exact W|]. specialize (IH (st {{ web := w }}) (write_good _ _ _ G W)). rewrite Hw in IH.
    assert (Eq : forall x, (st {{ web := w }}) {{ web := x }} = st {{ web := x }}) by (by destruct st). rewrite Eq in IH. apply IH.
    intros js Hin. apply (about_same st); [by destruct st|intros q i v _ Hq; exists v; by destruct st|]. apply Hrows. by right.
Qed.

Lemma put_directory_writes st token rq critical on complete maps now :
  good st -> signed st token now -> writes now st (fst (put_directory st token rq critical on complete maps now)).
Proof.
  intros G Hs. apply signed_in_writes; [done|done|]. intros st1 uid u G1 L.
  destruct (negb _); [apply rtc_refl|]. destruct (on && negb complete); [apply rtc_refl|].
  destruct (on && bool_decide (maps = [])); [apply rtc_refl|]. cbn [fst].
  assert (W : write now st1 (st1 {{ directory := (on, maps) }})).
  { assert (st1 {{ directory := (on, maps) }} = st1 {{ api_keys := api_keys st1 }} {{ logins := logins st1 }} {{ codes := codes st1 }}
      {{ policy := policy st1 }} {{ directory := (on, maps) }}) as -> by (by destruct st1). constructor. }
  eapply rtc_l; [exact W|]. destruct (_ && _); [|apply rtc_refl]. apply end_directory_sessions_writes. by eapply write_good.
Qed.

(** ** Histories

    One request, sign-in or periodic check after another.  A presented token
    that reads was signed by the server ([signed]: nobody else has its key);
    ids drawn are fresh; new password hashes have new fingerprints. *)
Inductive step (now : Z) (st : state) : state -> Prop :=
| step_request token rq critical :
    signed st token now -> step now st (fst (get_current_user st token rq critical now))
| step_login fu cp go name password ip hashed rand :
    let st' := fst (login fu cp go st name password ip hashed rand now) in
    fresh_id st rand -> new_hashes st (accounts st') -> step now st st'
| step_login_mfa token code ip rand :
    fresh_id st rand -> step now st (fst (login_mfa st token code ip rand now))
| step_logout token critical :
    signed st token now -> step now st (fst (logout st token critical now))
| step_setup fu cp token rq critical password code new_secret :
    signed st token now -> step now st (fst (start_setup fu cp st token rq critical password code new_secret now))
| step_confirm token rq critical code recovery rand :
    signed st token now -> fresh_id st rand -> step now st (fst (confirm_setup st token rq critical code recovery rand now))
| step_new_codes fu cp token rq critical password code recovery :
    signed st token now -> step now st (fst (new_codes fu cp st token rq critical password code recovery now))
| step_disable fu cp token rq critical password code rand :
    signed st token now -> fresh_id st rand -> step now st (fst (disable fu cp st token rq critical password code rand now))
| step_password token rq critical current new salt rand :
    let st' := fst (change_own_password st token rq critical current new salt rand now) in
    signed st token now -> fresh_id st rand -> new_hashes st (accounts st') -> step now st st'
| step_reset_mfa token rq critical target :
    signed st token now -> step now st (fst (reset_user_mfa st token rq critical target now))
| step_policy token rq critical roles grace :
    signed st token now -> step now st (fst (put_policy st token rq critical roles grace now))
| step_users token rq critical o salt :
    let st' := fst (manage_users st token rq critical o salt now) in
    signed st token now -> new_hashes st (accounts st') -> step now st st'
| step_forgot e otp : step now st (fst (create_password_reset_otp st e otp now))
| step_reset p new salt :
    (* what a reset writes, whatever it read before *)
    let st' := fst (write_reset st p new salt) in
    new_hashes st (accounts st') -> step now st st'
| step_directory token rq critical on complete maps :
    signed st token now -> step now st (fst (put_directory st token rq critical on complete maps now))
| step_check fu go on maps :
    let d := fst (check_accounts fu go on maps (accounts st)) in
    new_hashes st d -> step now st (st {{ accounts := d }}).

Lemma step_writes now st st' : good st -> step now st st' -> writes now st st'.
Proof.
  intros G S. destruct S.
  - destruct (get_current_user st token rq critical now) as [st1 who] eqn:E. by apply get_current_user_spec in E as [? _].
  - by apply login_writes.
  - by apply login_mfa_writes.
  - by apply logout_writes.
  - by apply start_setup_writes.
  - by apply confirm_setup_writes.
  - by apply new_codes_writes.
  - by apply disable_writes.
  - by apply change_own_password_writes.
  - by apply reset_user_mfa_writes.
  - by apply put_policy_writes.
  - by apply manage_users_writes.
  - apply create_otp_writes.
  - by apply write_reset_writes.
  - by apply put_directory_writes.
  - by apply rtc_once, write_accounts.
Qed.

Inductive history : Z -> state -> Z -> state -> Prop :=
| history_nil t st : history t st t st
| history_step t st now st1 t' st' : t <= now -> step now st st1 -> history now st1 t' st' -> history t st t' st'.

Lemma history_good t st t' st' : good st -> history t st t' st' -> good st'.
Proof.
  intros G Hh. induction Hh as [|t st now st1 t' st' _ S _ IH]; [done|]. apply IH. eapply writes_good; [exact G|by apply step_writes].
Qed.
Lemma history_over t st t' st' p :
  good st -> history t st t' st' -> p ∈ issued st -> over t st p -> over t' st' p /\ p ∈ issued st'.
Proof.
  intros G Hh. induction Hh as [|t st now st1 t' st' Hle S _ IH]; [done|]. intros Hp Ho.
  pose proof (step_writes _ _ _ G S) as W. apply IH.
  - by eapply writes_good.
  - by eapply writes_issued.
  - eapply writes_over; [done|exact W|done|]. by eapply over_later.
Qed.

(** A token that is over is refused. *)
Lemma over_refused st p token rq critical now :
  over now st p -> decode token now = Ok p -> (jti p <> Some []) ->
  exists r, snd (get_current_user st token rq critical now) = Raise r.
Proof.
  intros Ho Hd Hne. unfold get_current_user. rewrite (decode_not_key _ _ _ Hd), Hd.
  destruct (sub p) as [name|]; [|by eexists]. destruct (given (purpose p)); [by eexists|].
  destruct (match given (jti p) with Some _ => _ | None => false end) eqn:Erev; [by eexists|].
  destruct (user_named st name) as [[uid u]|] eqn:Eu; [|by eexists]. apply user_named_spec in Eu as [Hu _].
  destruct (_ || _) eqn:Em; [by eexists|]. bool_prop. exfalso.
  destruct Ho as [He|[(j & r & Hj & Hr)|Hv]].
  - apply decode_expiry in Hd. lia.
  - rewrite Hj in Erev. destruct j as [|c j]; [done|]. cbn in Erev. apply bool_decide_eq_false in Erev. apply Erev. by rewrite Hr.
  - specialize (Hv uid u (conj Hu H)). lia.
Qed.

(** C12: What has ended stays ended: once a signed token is past its expiry, or revoked (by signing out, by the idle
    limit, by turning directory sign-in off), or signed for a password or a version of two-step sign-in that no
    account has any more, then whatever requests, sign-ins, checks and prunings of the tables follow, every request
    that presents it is refused. *)
Theorem ended_stays_ended t st t' st' token t0 p now rq critical :
  good st -> p ∈ issued st -> jti p <> Some [] -> over t st p -> history t st t' st' -> t' <= now ->
  decode token t0 = Ok p -> exists r, snd (get_current_user st' token rq critical now) = Raise r.
Proof.
  intros G Hp Hj Ho Hh Hle Hd. destruct (history_over _ _ _ _ _ G Hh Hp Ho) as [Ho' _].
  destruct (decode token now) as [q|e] eqn:Eq.
  - rewrite <- (decode_same _ _ _ _ _ Hd Eq) in Eq. eapply over_refused; [by eapply over_later|exact Eq|exact Hj].
  - unfold get_current_user. rewrite (decode_not_key _ _ _ Hd), Eq. by destruct e; eexists.
Qed.

(** ** What ends sessions *)
Definition ends (now : Z) (st st' : state) (uid : Z) : Prop :=
  forall p u, p ∈ issued st -> owns st p uid u -> over now st' p.
(** A salt no token was signed under. *)
Definition fresh_salt (st : state) (salt : pystr) : Prop :=
  forall password p, p ∈ issued st -> pwv p <> Some (password_fingerprint (bcrypt salt password)).

Lemma ended_by_hash now st st' uid u' :
  good st -> users (accounts st') = <[uid := u']> (users (accounts st)) ->
  (forall p, p ∈ issued st -> pwv p <> fingerprint_of u') -> ends now st st' uid.
Proof.
  intros G E Hf p u Hp [Hu Epw]. right; right. intros i v [Hv Ev]. exfalso. rewrite E in Hv.
  apply lookup_insert_Some in Hv as [[<- <-]|[Hne Hv]]; [by apply (Hf p Hp)|].
  apply Hne. apply (g_prints _ G uid i u v Hu Hv). congruence.
Qed.
Lemma ended_by_row now st st' uid :
  good st -> users (accounts st') = users (accounts st) ->
  Mfa.version_of (row_of st uid) < Mfa.version_of (row_of st' uid) -> ends now st st' uid.
Proof.
  intros G E Hlt p u Hp Ho. right; right. intros i v [Hv Ev]. rewrite E in Hv.
  assert (i = uid) as ->. { destruct Ho as [Hu Epw]. apply (g_prints _ G i uid v u Hv Hu). congruence. }
  pose proof (g_version _ G p uid u Hp Ho). lia.
Qed.
Lemma ended_by_deletion now st st' uid :
  good st -> users (accounts st') = delete uid (users (accounts st)) -> ends now st st' uid.
Proof.
  intros G E p u Hp [Hu Epw]. right; right. intros i v [Hv Ev]. exfalso. rewrite E in Hv.
  apply lookup_delete_Some in Hv as [Hne Hv]. apply Hne. apply (g_prints _ G uid i u v Hu Hv). congruence.
Qed.
Lemma issue_frame st uid u rand wc now :
  accounts (fst (issue_session st uid u rand wc now)) = accounts st /\
  two_step (fst (issue_session st uid u rand wc now)) = two_step st.
Proof. by destruct st. Qed.

(** Through [get_current_user]: the same account tables. *)
Lemma signed_in_inv st token rq critical now k st' a :
  good st -> signed st token now -> signed_in st token rq critical now k = (st', a) ->
  (exists r, a = Refused r) \/ exists st1 uid u, let_in st st1 token now uid u /\ good st1 /\ k st1 uid u = (st', a).
Proof.
  intros G Hs. unfold signed_in. destruct (get_current_user _ _ _ _ _) as [st1 who] eqn:E.
  apply get_current_user_spec in E as [Hw L]; [|done|done]. destruct who as [[uid u]|r]; [|intros [= <- <-]; left; by exists r].
  intros H. right. exists st1, uid, u. split_and!; [done|by eapply writes_good|done].
Qed.
Lemma ends_later now st st1 st' uid :
  accounts st1 = accounts st -> issued st1 = issued st -> ends now st1 st' uid -> ends now st st' uid.
Proof. unfold ends, owns. intros -> -> H p u Hp Ho. by apply (H p u). Qed.

Lemma logout_ends st st' token critical now p j :
  good st -> signed st token now -> logout st token critical now = (st', Done) ->
  decode token now = Ok p -> given (jti p) = Some j -> over now st' p.
Proof.
  intros G Hs H Hd Hj. apply signed_in_inv in H as [[r [=]]|(st1 & uid & u & L & G1 & H)]; [|done|done].
  rewrite Hd in H. cbv zeta in H. rewrite Hj in H. destruct (Sessions.revoked _ !! j); [done|]. injection H as <-.
  right; left. destruct (revoke_there j uid (exp p) (prune now (web st1))) as [r Hr]. exists j, r.
  split; [by apply given_some|by destruct st1].
Qed.
Lemma idle_ends st st' token rq critical now p :
  good st -> signed st token now -> get_current_user st token rq critical now = (st', Raise IdleTooLong) ->
  decode token now = Ok p -> over now st' p.
Proof.
  intros G Hs H Hd. apply get_current_user_spec in H as [_ (q & j & Hq & Hj & [r Hr])]; [|done|done].
  rewrite Hd in Hq. injection Hq as <-. right; left. by exists j, r.
Qed.
Lemma password_ends st st' token rq critical current new salt rand now t p :
  good st -> signed st token now -> fresh_salt st salt ->
  change_own_password st token rq critical current new salt rand now = (st', NewSession t) ->
  decode token now = Ok p -> exists uid u, owns st p uid u /\ ends now st st' uid.
Proof.
  intros G Hs Hf H Hd. apply signed_in_inv in H as [[r [=]]|(st1 & uid & u & L & G1 & H)]; [|done|done].
  pose proof (let_in_token _ _ _ _ _ _ _ L Hd) as (_ & Ho & _). exists uid, u. split; [done|].
  destruct (negb _); [done|]. destruct (negb _); [done|]. destruct (verify_password new _); [done|].
  unfold get_password_hash in H. destruct (_ <=? 72); [|done]. cbv zeta in H. set (u' := u {{ hashed_password := _ }} {{ must_change_password := false }}) in H.
  set (st2 := st1 {{ accounts := _ }}) in H. pose proof (issue_frame st2 uid u' rand (session_coded st1 token now) now) as [Ea _].
  rewrite H in Ea. cbn [fst] in Ea. apply (ended_by_hash now st st' uid u'); [done| |].
  - rewrite Ea. unfold st2. rewrite <- (in_accounts _ _ _ _ _ _ L). by destruct st1.
  - intros q Hq. assert (fingerprint_of u' = Some (password_fingerprint (bcrypt salt new))) as -> by (unfold u'; by destruct u). by apply Hf.
Qed.
Lemma confirm_ends st st' token rq critical code recovery rand now t :
  good st -> signed st token now -> confirm_setup st token rq critical code recovery rand now = (st', NewSession t) ->
  exists uid u st1, let_in st st1 token now uid u /\ ends now st st' uid.
Proof.
  intros G Hs H. apply signed_in_inv in H as [[r [=]]|(st1 & uid & u & L & G1 & H)]; [|done|done].
  exists uid, u, st1. split; [done|].
  destruct (row_of st1 uid) as [[en sec [[|c pend]|] lu rc ve de ea]|] eqn:Er; try done.
  set (r := Mfa.Row _ _ _ _ _ _ _ _) in *. destruct (Mfa.confirm_setup _ _ _ _ _ _) as [[r'|]|] eqn:Ec; try done.
  apply confirmed_version in Ec. pose proof (issue_frame (put_row uid r' st1) uid u rand true now) as [Ea Et]. rewrite H in Ea, Et. cbn [fst] in Ea, Et.
  apply (ended_by_row now st st' uid); [done| |].
  - rewrite Ea, <- (in_accounts _ _ _ _ _ _ L). by destruct st1.
  - rewrite <- (let_in_row _ _ _ _ _ _ _ L), Er. assert (row_of st' uid = Some r') as -> by (unfold row_of; rewrite Et; apply row_put).
    cbn [Mfa.version_of]. lia.
Qed.

Lemma sure_inv fu cp st u password ip now k st' a :
  sure_of_password fu cp st u password ip now k = (st', a) ->
  a = RateLimited \/ a = DirectoryDown \/ a = WrongCurrentPassword \/ k st = (st', a).
Proof.
  unfold sure_of_password, _check_password. destruct (limited _ _ _ _); [intros [= <- <-]; auto|].
  destruct (if bool_decide _ then _ else _) as [[]|]; [auto|intros [= <- <-]; auto..].
Qed.
Lemma with_code_inv st uid u code ip now k st' a :
  with_code_of st uid u code ip now k = (st', a) ->
  a = NotOn \/ a = InternalError \/ a = WrongCode \/
  exists r0 r, row_of st uid = Some r0 /\ Mfa.version r = Mfa.version r0 /\ k st r = (st', a).
Proof.
  unfold with_code_of. destruct (row_of st uid) as [r0|] eqn:Er; [|intros [= <- <-]; auto].
  destruct (Mfa.enabled r0); [|intros [= <- <-]; auto]. destruct (_check_code st u r0 code ip now) as [st1 [r|b]] eqn:Ec.
  - apply check_code_row in Ec as (-> & _ & Hv). intros H. right; right; right. by exists r0, r.
  - revert Ec. unfold _check_code. destruct (Mfa.check_code _ _ _ _ _ _) as [[r2 [how|]]|]; intros [= <- <-] [= <- <-]; auto.
Qed.
Lemma disable_ends fu cp st st' token rq critical password code rand now t :
  good st -> signed st token now -> disable fu cp st token rq critical password code rand now = (st', NewSession t) ->
  exists uid u st1, let_in st st1 token now uid u /\ ends now st st' uid.
Proof.
  intros G Hs H. apply signed_in_inv in H as [[r [=]]|(st1 & uid & u & L & G1 & H)]; [|done|done].
  exists uid, u, st1. split; [done|]. destruct (Mfa.is_required _ _); [done|].
  apply sure_inv in H as [?|[?|[?|H]]]; try done. apply with_code_inv in H as [?|[?|[?|(r0 & r & Er & Hv & H)]]]; try done.
  pose proof (issue_frame (put_row uid (Mfa._clear r) st1) uid u rand false now) as [Ea Et]. rewrite H in Ea, Et. cbn [fst] in Ea, Et.
  apply (ended_by_row now st st' uid); [done| |].
  - rewrite Ea, <- (in_accounts _ _ _ _ _ _ L). by destruct st1.
  - rewrite <- (let_in_row _ _ _ _ _ _ _ L), Er. assert (row_of st' uid = Some (Mfa._clear r)) as -> by (unfold row_of; rewrite Et; apply row_put).
    destruct r; cbn in *. lia.
Qed.
Lemma reset_mfa_ends st st' token rq critical target now :
  good st -> signed st token now -> reset_user_mfa st token rq critical target now = (st', Done) -> ends now st st' target.
Proof.
  intros G Hs H. apply signed_in_inv in H as [[r [=]]|(st1 & uid & u & L & G1 & H)]; [|done|done].
  destruct (negb _); [done|]. destruct (target =? uid); [done|]. destruct (users _ !! target) as [v|]; [|done]. injection H as <-.
  apply (ended_by_row now st _ target); [done|rewrite <- (in_accounts _ _ _ _ _ _ L); by destruct st1|].
  rewrite row_put, <- (let_in_row _ _ _ _ _ _ _ L), <- version_default. destruct (Mfa.is_required _ _), (default _ _); cbn; lia.
Qed.
Lemma otp_ends st st' e otp new salt now uid :
  good st -> fresh_salt st salt -> reset_password_with_otp st e otp new salt now = (st', WasReset uid) -> ends now st st' uid.
Proof.
  intros G Hf. unfold reset_password_with_otp. destruct (read_reset st e otp now) as [|id|id seen|i id seen]; cbn [write_reset]; [done|..].
  1-2: unfold change_code; by destruct (code_row _ _).
  unfold get_password_hash. destruct (_ <=? 72); [|done]. destruct (_ !! i) as [u|]; [|done].
  set (u' := u {{ hashed_password := _ }}). destruct (code_row _ _); [|done]. intros [= <- <-].
  apply (ended_by_hash now st _ i u'); [done|by destruct st|].
  intros q Hq. assert (fingerprint_of u' = Some (password_fingerprint (bcrypt salt new))) as -> by (unfold u'; by destruct u). by apply Hf.
Qed.
Lemma deletion_ends st st' token rq critical salt target now :
  good st -> signed st token now -> manage_users st token rq critical (DeleteUser target) salt now = (st', Done) ->
  ends now st st' target.
Proof.
  intros G Hs H. apply signed_in_inv in H as [[r [=]]|(st1 & uid & u & L & G1 & H)]; [|done|done].
  destruct (Users.request _ _ _ _ _ _) as [d|] eqn:Er; [|done]. injection H as <-. apply request_deletes in Er.
  rewrite (in_accounts _ _ _ _ _ _ L) in Er. apply (ended_by_deletion now st _ target); [done|]. unfold cascade. by destruct st1.
Qed.
Lemma temporary_password_ends st st' token rq critical salt target new now :
  good st -> signed st token now -> fresh_salt st salt ->
  manage_users st token rq critical (ResetPassword target new) salt now = (st', Done) -> ends now st st' target.
Proof.
  intros G Hs Hf H. apply signed_in_inv in H as [[r [=]]|(st1 & uid & u & L & G1 & H)]; [|done|done].
  destruct (Users.request _ _ _ _ _ _) as [d|] eqn:Er; [|done]. injection H as <-. unfold Users.request in Er.
  destruct (users (accounts st1) !! uid) as [a|]; [|done].
  apply reset_password_spec in Er as (v & Hv & _ & _ & _ & ->). rewrite (in_accounts _ _ _ _ _ _ L) in *.
  set (v' := v {{ hashed_password := _ }} {{ must_change_password := true }}).
  apply (ended_by_hash now st _ target v'); [done|by destruct st1|].
  intros q Hq. assert (fingerprint_of v' = Some (password_fingerprint (bcrypt salt new))) as -> by (unfold v'; by destruct v). by apply Hf.
Qed.
Lemma directory_off_ends st now j s p :
  Sessions.sessions (web st) !! j = Some s -> is_directory_session st now s = true -> jti p = Some j ->
  over now (end_directory_sessions st now) p.
Proof.
  intros Hs Hd Hj. unfold end_directory_sessions. set (rows := List.filter _ _).
  assert (Hin : (j, s) ∈ rows) by (apply elem_filter; split; [by apply elem_of_map_to_list|done]). clearbody rows.
  assert (Hf : forall w, (j, s) ∈ rows \/ is_Some (Sessions.revoked w !! j) ->
    is_Some (Sessions.revoked (foldl (fun w js => Sessions.revoke (fst js) (Sessions.user_id (snd js)) (Sessions.expires_at (snd js)) w) w rows) !! j)).
  { clear Hin. induction rows as [|[k x] rows IH]; intros w [Hin|Hr]; cbn [foldl fst snd]; [by apply elem_of_nil in Hin|done| |].
    - apply elem_of_cons in Hin as [[= <- <-]|Hin]; apply IH; [right; apply revoke_there|by left].
    - apply IH. right. by apply revoke_keeps. }
  destruct (Hf (web st)) as [r Hr]; [by left|]. right; left. exists j, r. split; [done|]. by destruct st.
Qed.


(** C11: With two-step sign-in on, no session without it: in every state a history reaches, a request let in by a token for
    an account whose two-step sign-in is on presents a session that was opened with a code - at the second step of
    the sign-in, at the confirmation of the setup, or by a password change of such a session. *)
Theorem second_factor_required t0 st0 t st token rq critical now st' uid u r :
  good st0 -> history t0 st0 t st -> signed st token now -> ApiKeys.is_api_key token = false ->
  get_current_user st token rq critical now = (st', Ok (uid, u)) ->
  row_of st uid = Some r -> Mfa.enabled r = true ->
  exists p j, decode token now = Ok p /\ jti p = Some j /\ j ∈ coded st.
Proof.
  intros G0 Hh Hs Hk Hg Hr He. assert (G : good st) by (by eapply history_good).
  apply get_current_user_spec in Hg as [_ L]; [|done|done].
  destruct (in_token _ _ _ _ _ _ L) as [[Hk' _]|(p & Hp & Hpu & Ho & Hv)]; [congruence|].
  rewrite Hr in Hv. destruct (g_coded _ G p uid u r (Hs p Hp) Hpu Ho Hr He Hv) as (j & Hj & Hin). by exists p, j.
Qed.

(** ** The checks of a request, in order *)
Definition idle_since (st : state) (p : payload) (now : Z) : bool :=
  match given (jti p) with
  | Some j => match Sessions.sessions (web st) !! j with
              | Some s => SESSION_IDLE_TIMEOUT_MINUTES * minute <? now - Sessions.last_seen_at s
              | None => false
              end
  | None => false
  end.
Definition outside (rq : option request) (allowed : list pystr) : bool :=
  match rq with Some r => negb (among (path r) allowed) | None => false end.
Definition request_checks (st : state) (p : payload) (rq : option request) (critical : bool) (now uid : Z) (u : user)
    : list (bool * refusal) :=
  let row := row_of st uid in
  [(match given (jti p) with Some j => bool_decide (is_Some (Sessions.revoked (web st) !! j)) | None => false end, SessionEnded);
   (negb (bool_decide (pwv p = fingerprint_of u)), SessionStale);
   (negb (default 0 (mfv p) =? Mfa.version_of row), SessionStale);
   (negb (is_active u), AccountDisabled);
   (idle_since st p now, IdleTooLong);
   (must_change_password u && outside rq PASSWORD_CHANGE_ALLOWED, PasswordChangeRequired);
   (outside rq ENROLMENT_ALLOWED && Mfa.enrolment_due (policy st) (role u) row now, MfaRequired);
   (match rq with
    | Some r => among (meth r) WRITE_METHODS && negb (among (path r) ALWAYS_ALLOWED) && negb (is_admin (role u)) && critical
    | None => false
    end, StorageFull)].
Fixpoint first_failure {E} (l : list (bool * E)) : option E :=
  match l with [] => None | (true, e) :: _ => Some e | (false, _) :: l => first_failure l end.

Lemma touch_idle idle oj uid e now w :
  snd (Sessions.touch idle oj uid e now w) =
  negb match oj with
       | Some j => match Sessions.sessions w !! j with Some s => idle * minute <? now - Sessions.last_seen_at s | None => false end
       | None => false
       end.
Proof.
  destruct oj as [j|]; [|done]. cbn. destruct (Sessions.sessions w !! j) as [s|]; [|done].
  destruct (idle * minute <? _); [done|]. by destruct (Sessions._SEEN_RESOLUTION <=? _).
Qed.


(** ** Guesses of a reset code *)

(** Wrong tries a code of this account still allows. *)
Definition tries (uid : Z) (c : reset_code) : Z :=
  if (rc_user c =? uid) && negb (used c) then Z.max 0 (PASSWORD_RESET_MAX_ATTEMPTS - attempts c) else 0.
Definition total (f : reset_code -> Z) (cs : list reset_code) : Z := foldr (fun c n => f c + n) 0 cs.
Definition tries_left (uid : Z) (st : state) : Z := total (tries uid) (codes st).

(** Whose code a request by e-mail is about. *)
Definition asks_for (st : state) (e : pystr) (uid : Z) : bool :=
  match user_with_email st e with Some (i, _) => i =? uid | None => false end.

(** A try that counts as a guess at a code of this account when it is written:
    the code was wrong, or it was right and the password was set. *)
Definition guess_at (st : state) (p : reset_plan) (r : reset_result) (uid : Z) : bool :=
  match p, r with
  | PlanWrong id _, WrongGuess | PlanReset _ id _, WasReset _ =>
      match code_row id (codes st) with Some c => rc_user c =? uid | None => false end
  | _, _ => false
  end.
(** The row a try read is not as the try read it: another try, a reset or a
    newer code came between its read and its write. *)
Definition overtaken (st : state) (p : reset_plan) : bool :=
  match p with
  | PlanWrong id seen | PlanReset _ id seen =>
      match code_row id (codes st) with Some c => used c || negb (attempts c =? seen) | None => false end
  | _ => false
  end.

Record tally : Type := Tally { asked_for : Z; guessed : Z; late : Z }.
(** A stretch of time: codes asked for, tries that read and, later, write,
    with anything in between, and whatever leaves the codes alone.  [flight]
    are the tries that have read and not yet written. *)
Inductive guessing (uid : Z) (st : state) : tally -> state -> list reset_plan -> Prop :=
| guessing_start : guessing uid st (Tally 0 0 0) st []
| guessing_ask n m k st1 flight e otp now :
    guessing uid st (Tally n m k) st1 flight ->
    guessing uid st (Tally (n + if asks_for st1 e uid && snd (create_password_reset_otp st1 e otp now) then 1 else 0) m k)
      (fst (create_password_reset_otp st1 e otp now)) flight
| guessing_read t st1 flight e otp now :
    guessing uid st t st1 flight -> guessing uid st t st1 (read_reset st1 e otp now :: flight)
| guessing_write n m k st1 before p after new salt st2 r :
    guessing uid st (Tally n m k) st1 (before ++ p :: after) ->
    write_reset st1 p new salt = (st2, r) ->
    guessing uid st
      (Tally n (m + if guess_at st1 p r uid then 1 else 0) (k + if guess_at st1 p r uid && overtaken st1 p then 1 else 0))
      st2 (before ++ after)
| guessing_else t st1 flight st2 :
    guessing uid st t st1 flight -> codes st2 = codes st1 -> guessing uid st t st2 flight.

(** The rows have ids of their own and count from 0. *)
Record codes_ok (cs : list reset_code) : Prop := CodesOk {
  codes_ids : NoDup (map rc_id cs); codes_counts : forall c, c ∈ cs -> 0 <= attempts c }.
(** A try goes on only with fewer wrong tries than the limit. *)
Definition plan_ok (p : reset_plan) : Prop :=
  match p with PlanWrong _ seen | PlanReset _ _ seen => 0 <= seen < PASSWORD_RESET_MAX_ATTEMPTS | _ => True end.

Lemma tries_nonneg uid c : 0 <= tries uid c.
Proof. unfold tries. destruct (_ && _); lia. Qed.
Lemma total_nonneg uid cs : 0 <= total (tries uid) cs.
Proof. unfold total. induction cs as [|c cs IH]; cbn; [lia|]. pose proof (tries_nonneg uid c). lia. Qed.
Lemma tries_closed uid i cs : total (tries uid) (close_codes i cs) = if i =? uid then 0 else total (tries uid) cs.
Proof.
  unfold total, close_codes. induction cs as [|c cs IH]; cbn [map foldr]; [by destruct (i =? uid)|]. rewrite IH.
  unfold tries. destruct (Z.eqb_spec (rc_user c) i) as [E|E].
  - destruct c as [ci cu h x a us]; cbn in *. subst cu. destruct (Z.eqb_spec i uid); [|done]. by rewrite andb_false_r.
  - destruct (Z.eqb_spec i uid) as [->|]; [|done]. by destruct (Z.eqb_spec (rc_user c) uid).
Qed.
Lemma put_code_absent id f cs : id ∉ map rc_id cs -> put_code id f cs = cs.
Proof.
  unfold put_code. induction cs as [|c cs IH]; cbn; [done|]. rewrite not_elem_of_cons. intros [Hn Hc].
  rewrite IH by done. by destruct (Z.eqb_spec (rc_id c) id).
Qed.
Lemma code_row_in id cs c : code_row id cs = Some c -> c ∈ cs /\ rc_id c = id.
Proof. unfold code_row. intros [Hc E]%find_some. split; [by apply list_elem_of_In|by apply Z.eqb_eq]. Qed.
Lemma put_code_total g id f cs c :
  NoDup (map rc_id cs) -> code_row id cs = Some c -> total g (put_code id f cs) = total g cs - g c + g (f c).
Proof.
  unfold total, code_row, put_code. induction cs as [|x cs IH]; cbn [map List.find foldr]; [done|]. intros [Hn Hd]%list.NoDup_cons.
  destruct (Z.eqb_spec (rc_id x) id) as [<-|Hx].
  - intros [= ->]. fold (put_code (rc_id c) f cs). rewrite (put_code_absent _ _ _ Hn). lia.
  - intros E. rewrite IH by done. lia.
Qed.
Lemma next_code_id_spec cs c : c ∈ cs -> rc_id c < next_code_id cs.
Proof.
  unfold next_code_id. induction cs as [|x cs IH]; [by intros ?%elem_of_nil|]. cbn. intros [->|Hc]%elem_of_cons; [lia|].
  apply IH in Hc. lia.
Qed.
Lemma find_code_in uid now cs c : find_code uid now cs = Some c -> c ∈ cs.
Proof. induction cs as [|x cs IH]; cbn; [done|]. destruct (open_for _ _ _); [intros [= ->]; by left|]. intros ?%IH. by right. Qed.

Lemma put_code_ok id f cs :
  (forall c, rc_id (f c) = rc_id c) -> (forall c, 0 <= attempts c -> 0 <= attempts (f c)) ->
  codes_ok cs -> codes_ok (put_code id f cs).
Proof.
  intros Hi Ha [Hd Hc]. split.
  - unfold put_code. rewrite map_map. erewrite map_ext; [exact Hd|]. intros c. cbn. by destruct (_ =? _).
  - intros c (x & -> & Hx)%list_elem_of_fmap. destruct (_ =? _); [by apply Ha, Hc|by apply Hc].
Qed.
Lemma close_codes_ok uid cs : codes_ok cs -> codes_ok (close_codes uid cs).
Proof.
  intros [Hd Hc]. split.
  - unfold close_codes. rewrite map_map. erewrite map_ext; [exact Hd|]. intros c. cbn. by destruct (_ =? _), c.
  - intros c (x & -> & Hx)%list_elem_of_fmap. destruct (_ =? _); [by destruct x; apply (Hc _ Hx)|by apply Hc].
Qed.
Lemma create_codes_ok st e otp now : codes_ok (codes st) -> codes_ok (codes (fst (create_password_reset_otp st e otp now))).
Proof.
  intros Hok. unfold create_password_reset_otp. destruct (user_with_email st e) as [[i u]|]; [|done]. destruct (_ || _); [done|].
  destruct (close_codes_ok i _ Hok) as [Hd Hc]. destruct st; cbn in *. split; cbn.
  - apply list.NoDup_cons. split; [|done]. intros (c & E & (x & -> & Hx)%list_elem_of_fmap)%list_elem_of_fmap.
    pose proof (next_code_id_spec _ x Hx). destruct (_ =? _), x; cbn in *; lia.
  - intros c [->|Hx]%elem_of_cons; [done|by apply Hc].
Qed.
Lemma write_codes_ok st p new salt : plan_ok p -> codes_ok (codes st) -> codes_ok (codes (fst (write_reset st p new salt))).
Proof.
  intros Hp Hok. assert (Hch : forall st0 id f r, codes st0 = codes st -> (forall c, rc_id (f c) = rc_id c) ->
    (forall c, 0 <= attempts c -> 0 <= attempts (f c)) -> codes_ok (codes (fst (change_code st0 id f r)))).
  { intros st0 id f r E Hi Ha. unfold change_code. destruct (code_row _ _); cbn [fst]; [|by rewrite E].
    replace (codes (st0 {{ codes := _ }})) with (put_code id f (codes st0)) by (by destruct st0). rewrite E. by apply put_code_ok. }
  destruct p as [|id|id seen|i id seen]; cbn [write_reset].
  - done.
  - apply Hch; [done|by intros []|by intros []].
  - cbn in Hp. apply Hch; [done|..]; intros []; unfold count_wrong; destruct (_ <=? _); cbn; (done || lia).
  - destruct (get_password_hash _ _ _); [|done]. destruct (_ !! i); [|done].
    specialize (Hch st id (fun c => c {{ used := true }}) (WasReset i) eq_refl ltac:(by intros []) ltac:(by intros [])).
    unfold change_code in Hch. destruct (code_row _ _); [|done]. by destruct st.
Qed.
Lemma read_plan_ok st e otp now : codes_ok (codes st) -> plan_ok (read_reset st e otp now).
Proof.
  intros [_ Hc]. unfold read_reset. destruct (user_with_email st e) as [[i u]|]; [|done]. destruct (negb _); [done|].
  destruct (find_code _ _ _) as [c|] eqn:Ef; [|done]. apply find_code_in, Hc in Ef.
  destruct (Z.leb_spec PASSWORD_RESET_MAX_ATTEMPTS (attempts c)); [done|]. destruct (negb _); cbn; lia.
Qed.

Lemma ask_tries uid st e otp now :
  0 <= PASSWORD_RESET_MAX_ATTEMPTS ->
  tries_left uid (fst (create_password_reset_otp st e otp now)) <=
  tries_left uid st + PASSWORD_RESET_MAX_ATTEMPTS * (if asks_for st e uid && snd (create_password_reset_otp st e otp now) then 1 else 0) /\
  (asks_for st e uid && snd (create_password_reset_otp st e otp now) = true ->
   tries_left uid (fst (create_password_reset_otp st e otp now)) = PASSWORD_RESET_MAX_ATTEMPTS).
Proof.
  intros Hm. unfold create_password_reset_otp, asks_for. destruct (user_with_email st e) as [[i u]|]; [|cbn [fst andb]; split; [lia|done]].
  destruct (_ || _); [rewrite andb_false_r; cbn [fst]; split; [lia|done]|]. cbn [snd]. rewrite andb_true_r.
  set (c := ResetCode _ _ _ _ _ _). assert (E : tries_left uid (st {{ codes := c :: close_codes i (codes st) }}) =
    tries uid c + if i =? uid then 0 else tries_left uid st).
  { unfold tries_left. rewrite <- (tries_closed uid i). by destruct st. }
  cbn [fst]. rewrite E. unfold tries, c. cbn. pose proof (total_nonneg uid (codes st)). unfold tries_left in *.
  destruct (Z.eqb_spec i uid); cbn; split; (lia || done).
Qed.

(** A write takes one try from the row it guesses at, or, when it comes too
    late, gives back at most what the row allows. *)
Lemma write_tries uid st p new salt :
  codes_ok (codes st) -> plan_ok p ->
  let st2 := fst (write_reset st p new salt) in
  let g := guess_at st p (snd (write_reset st p new salt)) uid in
  tries_left uid st2 + (if g then 1 else 0)
  <= tries_left uid st + PASSWORD_RESET_MAX_ATTEMPTS * (if g && overtaken st p then 1 else 0).
Proof.
  intros [Hd Hc] Hp. destruct p as [|id|id seen|i id seen]; cbn [write_reset fst snd].
  - cbn. lia.
  - unfold change_code. destruct (code_row id (codes st)) as [c|] eqn:Er; cbn [fst snd guess_at overtaken andb]; [|lia].
    assert (E : tries_left uid (st {{ codes := put_code id (fun c => c {{ used := true }}) (codes st) }})
      = tries_left uid st - tries uid c + tries uid (c {{ used := true }})).
    { unfold tries_left. rewrite <- (put_code_total _ id (fun c => c {{ used := true }})) by done. by destruct st. }
    rewrite E. pose proof (tries_nonneg uid c). destruct c; unfold tries in *; cbn in *. rewrite andb_false_r. lia.
  - cbn in Hp. unfold change_code. destruct (code_row id (codes st)) as [c|] eqn:Er; cbn [fst snd guess_at overtaken]; rewrite ?Er; [|cbn; lia].
    assert (E : tries_left uid (st {{ codes := put_code id (count_wrong seen) (codes st) }})
      = tries_left uid st - tries uid c + tries uid (count_wrong seen c)).
    { unfold tries_left. rewrite <- (put_code_total _ id (count_wrong seen)) by done. by destruct st. }
    rewrite E. unfold count_wrong. destruct c as [ci cu h x a us]; unfold tries; cbn.
    destruct us, (Z.eqb_spec a seen), (Z.leb_spec PASSWORD_RESET_MAX_ATTEMPTS (seen + 1)); cbn; destruct (cu =? uid); cbn; lia.
  - destruct (get_password_hash _ _ _) as [h|]; [|cbn; lia]. destruct (_ !! i) as [u|]; [|cbn; lia].
    destruct (code_row id (codes st)) as [c|] eqn:Er; cbn [fst snd guess_at overtaken]; rewrite ?Er; [|cbn; lia].
    match goal with |- tries_left uid ?s + _ <= _ =>
      assert (E : tries_left uid s = tries_left uid st - tries uid c + tries uid (c {{ used := true }})) end.
    { unfold tries_left. rewrite <- (put_code_total _ id (fun c => c {{ used := true }})) by done. by destruct st. }
    rewrite E. cbn in Hp. destruct c as [ci cu hh x a us]; unfold tries; cbn. rewrite andb_false_r.
    destruct (cu =? uid), us, (Z.eqb_spec a seen); cbn; lia.
Qed.

Lemma guessing_ok uid st t st' flight :
  codes_ok (codes st) -> guessing uid st t st' flight -> codes_ok (codes st') /\ Forall plan_ok flight.
Proof.
  intros Hok. induction 1 as [|n m k st1 fl e otp now _ [H1 H2]|t st1 fl e otp now _ [H1 H2]|n m k st1 bf p af new salt st2 r _ [H1 H2] Ew|t st1 fl st2 _ [H1 H2] E].
  - split; [done|constructor].
  - split; [by apply create_codes_ok|done].
  - split; [done|]. constructor; [by apply read_plan_ok|done].
  - apply list.Forall_app in H2 as [Hb [Hp Ha]%list.Forall_cons]. pose proof (write_codes_ok st1 p new salt Hp H1) as Hw.
    rewrite Ew in Hw. split; [done|]. by apply list.Forall_app.
  - by rewrite E.
Qed.

(** C22: A reset code cannot be guessed for long.  Over any stretch of time,
    with anyone asking for codes and trying them, each try reading before it
    writes and others coming in between: the guesses at an account's codes
    (wrong codes, and right ones that set the password) are at most the tries
    its open codes had left, PASSWORD_RESET_MAX_ATTEMPTS for each code asked
    for in that time, and as many for each guess that was written after the
    row it had read was changed: the count is not locked between the read and
    the write, and tries that follow one another lose nothing.  A new code
    closes the ones before it, so that right after it exactly
    PASSWORD_RESET_MAX_ATTEMPTS tries are left.  A right code with a password
    bcrypt does not take sets nothing, leaves the code open and is no guess. *)
Theorem reset_guesses_bounded uid st n m k st' flight :
  0 <= PASSWORD_RESET_MAX_ATTEMPTS -> codes_ok (codes st) -> guessing uid st (Tally n m k) st' flight ->
  m + tries_left uid st' <= tries_left uid st + PASSWORD_RESET_MAX_ATTEMPTS * (n + k) /\
  (forall e otp now, asks_for st' e uid && snd (create_password_reset_otp st' e otp now) = true ->
    tries_left uid (fst (create_password_reset_otp st' e otp now)) = PASSWORD_RESET_MAX_ATTEMPTS) /\
  (forall e otp now new salt, snd (reset_password_with_otp st' e otp new salt now) = TooLong ->
    fst (reset_password_with_otp st' e otp new salt now) = st').
Proof.
  intros Hm Hok Hg. split; [|split; [intros e otp now; by apply ask_tries|]].
  - cut (forall t, guessing uid st t st' flight ->
      guessed t + tries_left uid st' <= tries_left uid st + PASSWORD_RESET_MAX_ATTEMPTS * (asked_for t + late t)).
    { intros H. apply (H _ Hg). }
    clear Hg. intros t Hg.
    induction Hg as [|n' m' k' st1 fl e otp now Hg IH|t st1 fl e otp now Hg IH|n' m' k' st1 bf p af new salt st2 r Hg IH Ew|t st1 fl st2 Hg IH E];
      cbn [guessed asked_for late] in *; [lia| |done| |].
    + pose proof (proj1 (ask_tries uid st1 e otp now Hm)). destruct (_ && _); lia.
    + destruct (guessing_ok _ _ _ _ _ Hok Hg) as [H1 H2]. apply list.Forall_app in H2 as [_ [Hp _]%list.Forall_cons].
      pose proof (write_tries uid st1 p new salt H1 Hp) as Hw. rewrite Ew in Hw. cbn [fst snd] in Hw.
      cbn [guessed asked_for late]. destruct (guess_at _ _ _ _), (overtaken _ _); cbn [andb] in *; lia.
    + unfold tries_left in *. by rewrite E.
  - intros e otp now new salt. unfold reset_password_with_otp. destruct (read_reset _ _ _ _) as [|id|id seen|i id seen]; cbn [write_reset]; [done|..].
    1-2: unfold change_code; by destruct (code_row _ _).
    destruct (get_password_hash _ _ _); [|done]. destruct (_ !! i); [|done]. by destruct (code_row _ _).
Qed.

(** ** Objects of one user *)

(** An audit session and a hardening action belong to a user. *)
Record audit_session : Type := AuditSession { as_id : Z; as_user : option Z }.
Record hardening_action : Type := HardeningAction { ha_id : Z; ha_user : Z }.
(** [assert_session_access]: [false] is the 404. *)
Definition assert_session_access (s : option audit_session) (uid : Z) (u : user) : bool :=
  match s with
  | None => false
  | Some s => is_admin (role u) || bool_decide (as_user s = Some uid)
  end.
(** [require_own_session], [require_own_result] (of the result's session), [require_own_action] *)
Definition require_own_session (table : gmap Z audit_session) (id : option Z) (uid : Z) (u : user) : res unit (option audit_session) :=
  match id with
  | None => Ok None
  | Some i => if assert_session_access (table !! i) uid u then Ok (table !! i) else Raise tt
  end.
Definition require_own_result (results : gmap Z Z) (table : gmap Z audit_session) (id : option Z) (uid : Z) (u : user) : res unit (option Z) :=
  match id with
  | None => Ok None
  | Some i =>
      match results !! i with
      | None => Raise tt
      | Some sid => if assert_session_access (table !! sid) uid u then Ok (Some i) else Raise tt
      end
  end.
Definition require_own_action (table : gmap Z hardening_action) (id uid : Z) (u : user) : res unit hardening_action :=
  match table !! id with
  | None => Raise tt
  | Some a => if is_admin (role u) || (ha_user a =? uid) then Ok a else Raise tt
  end.
(** [owner_scope], [owned_sessions] *)
Definition owner_scope (uid : Z) (u : user) : option Z := if is_admin (role u) then None else Some uid.
Definition owned_sessions (query : list audit_session) (owner : option Z) : list audit_session :=
  match owner with None => query | Some i => List.filter (fun s => bool_decide (as_user s = Some i)) query end.

(** What is listed is what can be opened. *)
Lemma listed_iff_openable query uid u s :
  s ∈ query -> (s ∈ owned_sessions query (owner_scope uid u) <-> assert_session_access (Some s) uid u = true).
Proof.
  intros Hs. unfold owned_sessions, owner_scope, assert_session_access. destruct (is_admin (role u)); cbn [orb]; [by split|].
  rewrite elem_filter. tauto.
Qed.
End Access.

(** ** A small server *)
Module Demo.
(** Tokens in the clear: a payload as the digits of its number. *)
#[global] Instance payload_eq_dec : EqDecision payload.
Proof. solve_decision. Defined.
#[global] Instance payload_countable : Countable payload :=
  inj_countable' (fun p => (sub p, purpose p, jti p, pwv p, mfv p, (iat p, exp p)))
    (fun '(a, b, c, d, e, (f, g)) => Payload a b c d e f g) (fun p => match p with Payload _ _ _ _ _ _ _ => eq_refl end).
Fixpoint bits (n : positive) : pystr :=
  match n with xH => [] | xO n => "0"%char :: bits n | xI n => "1"%char :: bits n end.
Fixpoint number (s : pystr) : positive :=
  match s with [] => xH | c :: s => if bool_decide (c = "0"%char) then xO (number s) else xI (number s) end.
Lemma number_bits n : number (bits n) = n.
Proof. induction n as [n IH|n IH|]; cbn; by rewrite ?IH. Qed.
Definition show (p : payload) : pystr := py "eyJ" ++ bits (countable.encode p).
Definition read (t : pystr) (now : Z) : res jwt_error payload :=
  if is_prefix (py "eyJ") t then
    match countable.decode (number (drop 3 t)) with
    | Some p => if exp p <=? now then Raise ExpiredSignature else Ok p
    | None => Raise OtherInvalid
    end
  else Raise OtherInvalid.
#[global] Program Instance clear_jwt : Jwt := {| encode := show; decode := read |}.
Next Obligation.
  intros p now _. unfold read, show. change (is_prefix (py "eyJ") (py "eyJ" ++ bits (countable.encode p))) with true.
  change (drop 3 (py "eyJ" ++ bits (countable.encode p))) with (bits (countable.encode p)). by rewrite number_bits, countable.decode_encode.
Qed.
Next Obligation.
  intros t now p. unfold read. destruct (is_prefix _ _); [|done]. destruct (countable.decode _) as [q|]; [|done].
  destruct (Z.leb_spec (exp q) now); [done|]. intros [= <-]. done.
Qed.
Next Obligation.
  intros t now now' p p'. unfold read. destruct (is_prefix _ _); [|done]. destruct (countable.decode _) as [q|]; [|done].
  destruct (_ <=? now); [done|]. destruct (_ <=? now'); [done|]. intros [= <-] [= <-]. done.
Qed.
Next Obligation.
  intros t now p. unfold read. destruct (is_prefix (py "eyJ") t) eqn:E; [|done]. intros _.
  destruct t as [|c t]; [done|]. cbn in E. apply andb_prop in E as [E _]. unfold ApiKeys.is_api_key, ApiKeys.PREFIX. cbn.
  apply bool_decide_eq_true in E as <-. done.
Qed.

(** The hash functions in the clear; no code of the app is ever right; recovery codes as stored. *)
Definition sha256 (s : pystr) : pystr := s.
Definition hmac (k m : list Z) : list Z := [].
Definition key_of (s : pystr) : list Z := [].
Definition same_code (a b : pystr) : bool := bool_decide (a = b).
Definition parse_ip (s : pystr) : option Z := None.
Definition in_network (a : Z) (n : pystr) : bool := false.
Definition no_directory (name : pystr) : res unavailable (option directory_user) := Raise DirectoryUnavailable.
Definition no_password (u : directory_user) (p : pystr) : res unavailable bool := Raise DirectoryUnavailable.
Definition no_groups (u : directory_user) : res unavailable (list pystr) := Raise DirectoryUnavailable.
Notation bcrypt := Users.Demo.bcrypt.
Notation verify_password := Users.Demo.verify_password.
Notation get_user := (get_current_user sha256 parse_ip in_network 30).
Notation sign_in := (login sha256 verify_password 120 no_directory no_password no_groups).
Notation second_step := (login_mfa sha256 hmac key_of same_code 120).
Notation sign_out := (logout sha256 parse_ip in_network 30).
Notation stretch := (history sha256 bcrypt verify_password hmac key_of same_code parse_ip in_network 120 30 10 5).

Definition ann : user := Users.Demo.account "ann" Mfa.User.
(** Ann, with two-step sign-in on and one recovery code left. *)
Definition her_row : Mfa.row := Mfa.Row true (Some (py "K")) None None [py "abcd"] 1 None None.
Definition start : state :=
  State (Db {[ 1 := ann ]} ∅ 2) {[ 1 := her_row ]} (Sessions.Db ∅ ∅) ∅ [] [] (Mfa.Policy [] 7) (false, []) [] ∅.
Definition t1 : Z := 1000 * second.
Definition t2 : Z := 1010 * second.
Definition t3 : Z := 1020 * second.
Definition rid : pystr := py "r1".
Definition step_payload : payload := mfa_payload sha256 ann her_row t1.
Definition after_password : state := fst (sign_in start (py "ann") (py "ann") None [] rid t1).
Definition her_session : payload := access_payload sha256 120 after_password 1 ann rid t2.
Definition after_code : state := fst (second_step after_password (encode step_payload) (py "abcd") None rid t2).
Definition after_logout : state := fst (sign_out after_code (encode her_session) false t3).

Lemma only_ann i u : users (accounts start) !! i = Some u -> i = 1 /\ u = ann.
Proof. change (users (accounts start)) with ({[ 1 := ann ]} : gmap Z user). by intros [<- <-]%lookup_singleton_Some. Qed.
Lemma start_good : good sha256 start.
Proof.
  constructor.
  - by intros i j u v [-> _]%only_ann [-> _]%only_ann _.
  - intros p i u Hp. by apply elem_of_nil in Hp.
  - intros p q j Hp. by apply elem_of_nil in Hp.
  - intros j s Hs. change (Sessions.sessions (web start)) with (∅ : gmap pystr Sessions.session) in Hs. by rewrite lookup_empty in Hs.
  - intros j r Hr. change (Sessions.revoked (web start)) with (∅ : gmap pystr Sessions.revoked_token) in Hr. by rewrite lookup_empty in Hr.
  - intros p i u r Hp. by apply elem_of_nil in Hp.
Qed.
Lemma answers :
  snd (sign_in start (py "ann") (py "ann") None [] rid t1) = StepToken (encode step_payload) /\
  issued after_password = [step_payload] /\
  snd (second_step after_password (encode step_payload) (py "abcd") None rid t2) = NewSession (encode her_session) /\
  issued after_code = [her_session; step_payload] /\
  snd (get_user after_code (encode her_session) None false t3) = Ok (1, ann) /\
  snd (sign_out after_code (encode her_session) false t3) = Done.
Proof. split_and!; by vm_compute. Qed.

(** Only the two tokens read, as themselves. *)
Lemma reads p now : iat p <= now -> now < exp p -> decode (encode p) now = Ok p.
Proof. intros Hi He. rewrite decode_encode by done. by destruct (Z.leb_spec (exp p) now); [lia|]. Qed.
Lemma signed_own st p now : iat p <= now -> now < exp p -> p ∈ issued st -> signed st (encode p) now.
Proof. intros Hi He Hp q Hq. rewrite reads in Hq by done. by injection Hq as <-. Qed.

Lemma signed_in_history : stretch 0 start t2 after_code.
Proof.
  destruct answers as (_ & Hi & _).
  apply (history_step _ _ _ _ _ _ _ _ _ _ _ _ 0 start t1 after_password); [done| |].
  - apply (step_login _ _ _ _ _ _ _ _ _ _ _ _ _ _ no_directory no_password no_groups (py "ann") (py "ann") None [] rid).
    + split; [done|]. intros q Hq. by apply elem_of_nil in Hq.
    + intros i u Hu. left. exists u. split; [|done]. exact Hu.
  - apply (history_step _ _ _ _ _ _ _ _ _ _ _ _ t1 after_password t2 after_code); [done| |apply history_nil].
    apply (step_login_mfa _ _ _ _ _ _ _ _ _ _ _ _ _ after_password (encode step_payload) (py "abcd") None rid).
    split; [done|]. rewrite Hi. intros q ->%list_elem_of_singleton. by vm_compute.
Qed.
Lemma session_signed now : iat her_session <= now -> now < exp her_session -> signed after_code (encode her_session) now.
Proof. intros Hi He. apply signed_own; [done|done|]. destruct answers as (_ & _ & _ & -> & _). left. Qed.

Lemma after_code_good : good sha256 after_code.
Proof.
  apply (history_good sha256 bcrypt verify_password hmac key_of same_code parse_ip in_network 120 30 10 5 0 start t2 after_code);
    [apply start_good|apply signed_in_history].
Qed.
Lemma signs_out : sign_out after_code (encode her_session) false t3 = (after_logout, Done).
Proof. destruct answers as (_ & _ & _ & _ & _ & Ho). unfold after_logout. rewrite <- Ho. apply surjective_pairing. Qed.

(** Signed out, the session is refused an hour later. *)
Lemma ended_stays_ended_witness :
  over sha256 t3 after_logout her_session /\
  exists r, snd (get_user after_logout (encode her_session) None false (t3 + 60 * minute)) = Raise r.
Proof.
  assert (Hs : signed after_code (encode her_session) t3) by (apply session_signed; by vm_compute).
  assert (Hd : decode (encode her_session) t3 = Ok her_session) by (apply reads; by vm_compute).
  assert (Hp : her_session ∈ issued after_code) by (destruct answers as (_ & _ & _ & -> & _); left).
  assert (W : writes sha256 t3 after_code after_logout).
  { apply (logout_writes sha256 bcrypt verify_password hmac key_of same_code parse_ip in_network 30); [apply after_code_good|exact Hs]. }
  assert (Hover : over sha256 t3 after_logout her_session).
  { apply (logout_ends sha256 bcrypt verify_password hmac key_of same_code parse_ip in_network 30 after_code after_logout
      (encode her_session) false t3 her_session rid);
      [apply after_code_good|exact Hs|apply signs_out|exact Hd|by vm_compute]. }
  split; [exact Hover|].
  apply (ended_stays_ended sha256 bcrypt verify_password hmac key_of same_code parse_ip in_network 120 30 10 5
    t3 after_logout t3 after_logout (encode her_session) t3 her_session).
  - apply (writes_good sha256 bcrypt verify_password hmac key_of same_code parse_ip in_network t3 after_code); [apply after_code_good|exact W].
  - apply (writes_issued sha256 t3 after_code after_logout her_session W Hp).
  - by vm_compute.
  - exact Hover.
  - constructor.
  - by vm_compute.
  - exact Hd.
Defined.


Lemma second_factor_required_witness :
  exists p j, decode (encode her_session) t3 = Ok p /\ jti p = Some j /\ j ∈ coded after_code.
Proof.
  destruct answers as (_ & _ & _ & _ & Hg & _).
  apply (second_factor_required sha256 bcrypt verify_password hmac key_of same_code parse_ip in_network 120 30 10 5
    0 start t2 after_code (encode her_session) None false t3 (fst (get_user after_code (encode her_session) None false t3)) 1 ann
    (her_row {{ Mfa.recovery_codes := [] }})).
  - apply start_good.
  - apply signed_in_history.
  - apply session_signed; by vm_compute.
  - by vm_compute.
  - rewrite <- Hg. apply surjective_pairing.
  - by vm_compute.
  - done.
Defined.


(** One code asked for, five wrong tries: the fifth closes it. *)
Definition asked : state := fst (create_password_reset_otp sha256 10 start (py "ann@x.org") (py "123456") t1).
Definition guess (st : state) : reset_plan := read_reset sha256 5 st (py "ann@x.org") (py "000000") t2.
Definition wrong (st : state) : state := fst (write_reset bcrypt 5 st (guess st) (py "New-Pass1") (py "s")).
Lemma reset_guesses_bounded_witness :
  5 + tries_left 5 1 (Nat.iter 5 wrong asked) <= 5 /\
  snd (reset_password_with_otp sha256 bcrypt 5 (Nat.iter 5 wrong asked) (py "ann@x.org") (py "123456") (py "New-Pass1") (py "s") t2) = NoCode.
Proof.
  split; [|by vm_compute].
  assert (H : guessing sha256 bcrypt 10 5 1 start (Tally 1 5 0) (Nat.iter 5 wrong asked) []).
  { pose proof (guessing_ask sha256 bcrypt 10 5 1 start 0 0 0 start [] (py "ann@x.org") (py "123456") t1 (guessing_start _ _ _ _ _ _)) as H0.
    assert (Hstep : forall m st, guessing sha256 bcrypt 10 5 1 start (Tally 1 m 0) st [] ->
      guess_at st (guess st) (snd (write_reset bcrypt 5 st (guess st) (py "New-Pass1") (py "s"))) 1 && negb (overtaken st (guess st)) = true ->
      guessing sha256 bcrypt 10 5 1 start (Tally 1 (m + 1) 0) (wrong st) []).
    { intros m st Hg Hc. apply andb_prop in Hc as [Hc Ho%negb_true_iff].
      pose proof (guessing_read sha256 bcrypt 10 5 1 start _ st [] (py "ann@x.org") (py "000000") t2 Hg) as Hr.
      pose proof (guessing_write sha256 bcrypt 10 5 1 start 1 m 0 st [] _ [] (py "New-Pass1") (py "s") _ _ Hr (surjective_pairing _)) as Ht.
      fold (guess st) in Ht. fold (wrong st) in Ht.
      rewrite Hc, Ho in Ht. exact Ht. }
    assert (Ha : asks_for start (py "ann@x.org") 1 && snd (create_password_reset_otp sha256 10 start (py "ann@x.org") (py "123456") t1) = true) by by vm_compute.
    rewrite Ha in H0. fold asked in H0. change 5 with (0 + 1 + 1 + 1 + 1 + 1) at 2.
    do 5 (apply Hstep; [|by vm_compute]). exact H0. }
  apply (reset_guesses_bounded sha256 bcrypt 10 5 1 start 1 5 0 _ []) in H as [H _]; [|lia|].
  - change (tries_left 5 1 start) with 0 in H. lia.
  - split; [constructor|]. intros c Hc. apply elem_of_nil in Hc. destruct Hc.
Defined.

(** Two tries that overlap count as one: both read the row before either
    writes it. *)
Example overlapping_tries_count_once :
  let p := guess asked in
  let st1 := fst (write_reset bcrypt 5 asked p (py "New-Pass1") (py "s")) in
  let st2 := fst (write_reset bcrypt 5 st1 p (py "New-Pass1") (py "s")) in
  map attempts (codes st1) = [1] /\ map attempts (codes st2) = [1] /\ overtaken st1 p = true.
Proof. by vm_compute. Qed.
End Demo.
