(* ===== verification/Findings.v ===== *)
(** * CVE findings and what to do about them
    (src/app/modules/cve/findings.py, recommend.py and cpe.py)

    The products of every asset against the criteria of the CVE database, joined
    with the distributions' advisories (Advisories) into one row for each asset
    and CVE, most urgent first; the recommended action of each row, and the plan
    of an asset: one upgrade for each product.

    Scores are the decimals the feeds give, in units of 1/100000; comparing two
    such decimals as floating-point numbers gives the same answer.  What an asset's
    own fields suggest ([infer_identities], regular expressions), the products of
    the software inventory ([resolve] of identify.py) and the names of products
    and releases are arguments.  Columns that are only shown, and the texts, links
    and commands of an action, are left out. *)
From stdpp Require Import sorting.
From S2P Require Import Prelude PyStr Orders Advisories Versions.

Notation truthy := Versions.truthy.
(** [x or y] of an optional text. *)
Definition or_text (x y : pystr) : pystr := match x with [] => y | _ => x end.

(** ** The products of an asset (cpe.py) *)
Inductive ident_source : Type := inferred | manual | inventory | advisory_.
#[export] Instance ident_source_dec : EqDecision ident_source.
Proof. solve_decision. Defined.
Record Identity : Type := MkIdentity {
  i_vendor : pystr; i_product : pystr; i_version : option pystr; i_source : ident_source; i_label : pystr; i_software : option Z }.
Record AssetSoftware : Type := MkSoftware { sw_id : Z; sw_asset : Z; sw_vendor : pystr; sw_product : pystr; sw_version : pystr }.
Definition IKey : Type := pystr * pystr * option pystr.
Definition ident_key (i : Identity) : IKey := (i_vendor i, i_product i, i_version i).
Definition pair_of (i : Identity) : pystr * pystr := (i_vendor i, i_product i).
(** An item of the inventory: vendor, product, version, label. *)
Definition InvItem : Type := IKey * pystr.
Definition _APP_PRODUCTS : list (pystr * pystr) :=
  [(py "apache", py "http_server"); (py "mongodb", py "mongodb"); (py "f5", py "nginx"); (py "openbsd", py "openssh");
   (py "oracle", py "mysql"); (py "postgresql", py "postgresql")].

(** [identities_for]; [seen] and [ids] of its loops. *)
Definition add_identity (st : gset IKey * list Identity) (i : Identity) : gset IKey * list Identity :=
  let '(seen, ids) := st in
  if bool_decide (ident_key i ∈ seen) then st else ({[ ident_key i ]} ∪ seen, ids ++ [i]).
Definition from_inventory (x : InvItem) : Identity :=
  let '((vendor, product, version), label) := x in MkIdentity vendor product version inventory label None.
Definition from_row (label_for : pystr -> pystr -> pystr) (s : AssetSoftware) : Identity :=
  MkIdentity (sw_vendor s) (sw_product s) (Some (sw_version s)) manual (label_for (sw_vendor s) (sw_product s)) (Some (sw_id s)).
Definition identities_for (label_for : pystr -> pystr -> pystr) (found : list Identity) (software_rows : list AssetSoftware)
    (inv : list InvItem) (full_inventory : bool) : list Identity :=
  let inv_pairs := map (fun x => fst (fst x)) inv in
  let ids := List.filter (fun i => negb (bool_decide (pair_of i ∈ inv_pairs)) &&
                                   negb (full_inventory && bool_decide (pair_of i ∈ _APP_PRODUCTS))) found in
  let seen : gset IKey := list_to_set (map ident_key ids) in
  snd (foldl add_identity (seen, ids) (map from_inventory inv ++ map (from_row label_for) software_rows)).

(** An inventory item once identified (identify.py), and [nvd_identities]. *)
Record Resolved : Type := MkResolved { rs_known : bool; rs_nvd : bool; rs_cpes : list (pystr * pystr); rs_version : option pystr; rs_label : pystr }.
Definition add_product (r : Resolved) (st : gset IKey * list InvItem) (vp : pystr * pystr) : gset IKey * list InvItem :=
  let '(seen, out) := st in
  let k := (vp, rs_version r) in
  if bool_decide (k ∈ seen) then st else ({[ k ]} ∪ seen, out ++ [(k, rs_label r)]).
Definition nvd_identities (items : list Resolved) : list InvItem :=
  snd (foldl (fun st r => if rs_known r && rs_nvd r then foldl (add_product r) st (rs_cpes r) else st) (∅, []) items).

(** ** Matching (findings.py) *)
Definition UNIT : Z := 100000.
Record CveEntry : Type := MkCve { ce_severity : option pystr; ce_cvss : option Z; ce_kev : bool; ce_epss : option Z }.
Record CveCpeMatch : Type := MkMatch { m_cve : pystr; m_part : option pystr; m_vendor : pystr; m_product : pystr; m_crit : criterion }.
Record Asset : Type := MkAsset { as_id : Z; as_name : option pystr }.

(** [priority], [priority_from_severity] *)
Definition priority (e : CveEntry) : Z :=
  let score := default 0 (ce_cvss e) in
  let epss := default 0 (ce_epss e) in
  if ce_kev e then 1
  else if (9 * UNIT <=? score) || (UNIT / 2 <=? epss) then 2
  else if (7 * UNIT <=? score) || (UNIT / 10 <=? epss) then 3
  else 4.
Definition _SEV_PRIORITY : list (pystr * Z) := [(py "critical", 2); (py "high", 3); (py "medium", 4); (py "low", 4)].
Definition priority_from_severity (sev : option pystr) : Z := default 4 (assoc (default [] sev) _SEV_PRIORITY).
Definition _fixed_in (c : criterion) : option pystr :=
  if truthy (end_excl c) then end_excl c
  else if truthy (end_incl c) then Some (py "after " ++ default [] (end_incl c))
  else None.

Inductive source : Type := nvd | advisory.
#[export] Instance source_dec : EqDecision source.
Proof. solve_decision. Defined.
(** A row of the result. *)
Record Row : Type := MkRow {
  r_asset : Z; r_name : option pystr; r_product : pystr; r_vendor : pystr; r_product_key : pystr; r_installed : option pystr;
  r_identity : ident_source; r_fixed_in : option pystr; r_cve : pystr; r_severity : option pystr; r_cvss : option Z; r_kev : bool;
  r_epss : option Z; r_priority : Z; r_source : source; r_advisories : list pystr; r_package : option pystr;
  r_binaries : list pystr; r_availability : option pystr; r_release : option pystr; r_reboot : bool }.
#[export] Instance Row_dec : EqDecision Row.
Proof. solve_decision. Defined.
Definition RKey : Type := Z * pystr.
Definition row_key (r : Row) : RKey := (r_asset r, r_cve r).

(** The criteria of one identity; [seen] holds the CVEs the asset already has. *)
Definition by_product (criteria : list CveCpeMatch) (i : Identity) : list CveCpeMatch :=
  List.filter (fun m => bool_decide ((m_vendor m, m_product m) = pair_of i)) criteria.
Definition Raw : Type := Identity * CveCpeMatch.
Definition take_match (i : Identity) (st : gset pystr * list Raw) (m : CveCpeMatch) : gset pystr * list Raw :=
  let '(seen, raw) := st in
  if bool_decide (m_cve m ∈ seen) then st
  else if matches (i_version i) (m_crit m) then ({[ m_cve m ]} ∪ seen, raw ++ [(i, m)]) else st.
Definition raw_of (criteria : list CveCpeMatch) (ids : list Identity) : list Raw :=
  snd (foldl (fun st i => foldl (take_match i) st (by_product criteria i)) (∅, []) ids).

Definition nvd_row (a : Asset) (im : Raw) (e : CveEntry) : Row :=
  let '(i, m) := im in
  {| r_asset := as_id a; r_name := as_name a; r_product := i_label i; r_vendor := i_vendor i; r_product_key := i_product i;
     r_installed := i_version i; r_identity := i_source i; r_fixed_in := _fixed_in (m_crit m); r_cve := m_cve m;
     r_severity := ce_severity e; r_cvss := ce_cvss e; r_kev := ce_kev e; r_epss := ce_epss e; r_priority := priority e;
     r_source := nvd; r_advisories := []; r_package := None; r_binaries := []; r_availability := None; r_release := None;
     r_reboot := false |}.
(** The priority of an advisory's finding, with what the database knows of its CVE. *)
Definition advisory_severity (e : option CveEntry) (f : Finding) : option pystr :=
  match e with Some e => if truthy (ce_severity e) then ce_severity e else f_severity f | None => f_severity f end.
Definition advisory_priority (e : option CveEntry) (f : Finding) : Z :=
  let p := priority_from_severity (advisory_severity e f) in
  match e with
  | Some e =>
      if bool_decide (is_Some (ce_cvss e)) || ce_kev e || negb (default 0 (ce_epss e) =? 0) then Z.min (priority e) p else p
  | None => p
  end.
Definition advisory_row (release_label : option pystr -> pystr) (release : option pystr) (a : Asset) (f : Finding)
    (e : option CveEntry) : Row :=
  {| r_asset := as_id a; r_name := as_name a; r_product := f_package f; r_vendor := release_label release;
     r_product_key := f_package f; r_installed := Some (f_installed f); r_identity := advisory_; r_fixed_in := fixed_in f;
     r_cve := f_cve f; r_severity := advisory_severity e f; r_cvss := e ≫= ce_cvss;
     r_kev := match e with Some e => ce_kev e | None => false end; r_epss := e ≫= ce_epss;
     r_priority := advisory_priority e f; r_source := advisory; r_advisories := f_advisories f; r_package := Some (f_package f);
     r_binaries := f_binaries f; r_availability := Some (f_availability f); r_release := release; r_reboot := f_reboot f |}.

(** [findings.remove(prev)]: the first equal row. *)
Fixpoint remove_row (x : Row) (l : list Row) : list Row :=
  match l with [] => [] | y :: l => if bool_decide (y = x) then l else y :: remove_row x l end.
(** One CVE per asset: the row replaces another of its asset and CVE when it is no less urgent. *)
Definition merge_row (st : list Row * gmap RKey Row) (row : Row) : list Row * gmap RKey Row :=
  let '(findings, by_key) := st in
  match by_key !! row_key row with
  | None => (findings ++ [row], <[row_key row := row]> by_key)
  | Some prev =>
      if r_priority row <=? r_priority prev
      then (remove_row prev findings ++ [row], <[row_key row := row]> by_key)
      else st
  end.
Definition by_key (l : list Row) : gmap RKey Row := foldl (fun m r => <[row_key r := r]> m) ∅ l.

(** The order of the list: priority, CVSS, EPSS, name. *)
Definition sort_key (r : Row) : list Z :=
  r_priority r :: - default 0 (r_cvss r) :: - default 0 (r_epss r) :: map ord (default [] (r_name r)).
Definition row_le (x y : Row) : Prop := cmp_on sort_key (lexpad Z.compare (-1)) x y <> Gt.
#[export] Instance row_le_dec : RelDecision row_le.
Proof. intros x y. unfold row_le. apply _. Defined.

Record Summary : Type := MkSummary {
  total : Z; fix_now : Z; affected_assets : Z; from_advisories : Z; from_nvd : Z; reboot_assets : Z; by_severity : list (pystr * Z) }.
Definition SEVERITIES : list pystr := [py "critical"; py "high"; py "medium"; py "low"].
Definition count {A} (p : A -> bool) (l : list A) : Z := Z.of_nat (length (List.filter p l)).
Definition summary_of (adv : gmap Z AssetAdvisories) (l : list Row) : Summary := {|
  total := Z.of_nat (length l);
  fix_now := count (fun f => r_priority f =? 1) l;
  affected_assets := Z.of_nat (size (list_to_set (map r_asset l) : gset Z));
  from_advisories := count (fun f => bool_decide (r_source f = advisory)) l;
  from_nvd := count (fun f => bool_decide (r_source f = nvd)) l;
  reboot_assets := Z.of_nat (size (filter (fun kv => reboot_required (snd kv) = true) adv));
  by_severity := map (fun s => (s, count (fun f => bool_decide (r_severity f = Some s)) l)) SEVERITIES |}.
(** The findings of one asset: [counts]. *)
Definition count_of (l : list Row) (aid : Z) : Z := count (fun f => r_asset f =? aid) l.

Section Compute.
Context (label_for : pystr -> pystr -> pystr) (infer_identities : Asset -> list Identity) (release_label : option pystr -> pystr).
Context (assets : list Asset) (software : list AssetSoftware) (inventory_ : gmap Z (list InvItem)) (full : gset Z).
Context (criteria : list CveCpeMatch) (entries : gmap pystr CveEntry) (adv : gmap Z AssetAdvisories).

Definition per_asset (a : Asset) : list Identity :=
  identities_for label_for (infer_identities a) (List.filter (fun s => sw_asset s =? as_id a) software)
    (default [] (inventory_ !! as_id a)) (bool_decide (as_id a ∈ full)).
Definition raw : list (Asset * Raw) := flat_map (fun a => map (pair a) (raw_of criteria (per_asset a))) assets.
Definition nvd_rows : list Row := omap (fun x => nvd_row (fst x) (snd x) <$> entries !! m_cve (snd (snd x))) raw.
(** What the recommended action needs of a match: its part and last vulnerable version. *)
Definition nvd_info : gmap RKey (option pystr * option pystr) :=
  foldl (fun d x => match entries !! m_cve (snd (snd x)) with
                    | Some _ => <[(as_id (fst x), m_cve (snd (snd x))) := (m_part (snd (snd x)), end_incl (m_crit (snd (snd x))))]> d
                    | None => d
                    end) ∅ raw.
Definition adv_rows : list Row :=
  flat_map (fun a => match adv !! as_id a with
                     | Some r => map (fun f => advisory_row release_label (a_release r) a f (entries !! f_cve f)) (Advisories.findings r)
                     | None => []
                     end) assets.
(** [compute]: the findings in order. *)
Definition compute : list Row := merge_sort row_le (fst (foldl merge_row (nvd_rows, by_key nvd_rows) adv_rows)).
End Compute.

(** ** The recommended action (recommend.py) *)
Inductive act_kind : Type := k_package | k_reboot | k_windows | k_version | k_after | k_advisory.
#[export] Instance act_kind_dec : EqDecision act_kind.
Proof. solve_decision. Defined.
Record Action : Type := MkAction { a_kind : act_kind; a_product : pystr; a_target : option pystr; a_pro : bool; a_check_vendor : bool }.
Definition PRO : pystr := py "pro".
Definition starts_any (ps : list string) (s : pystr) : bool := existsb (fun p => is_prefix (py p) s) ps.
Definition _is_kernel (f : Row) : bool :=
  starts_any ["linux"; "kernel"]%string (default [] (r_package f)) &&
  existsb (starts_any ["linux-image"; "linux-modules"; "kernel"]%string) (r_binaries f).
Definition action_for (f : Row) (end_incl_ : option pystr) : Action :=
  let product := or_text (r_product f) (r_product_key f) in
  let fixed := r_fixed_in f in
  let out := MkAction k_advisory product None false false in
  match r_source f with
  | advisory =>
      if truthy fixed then
        if r_reboot f && _is_kernel f then MkAction k_reboot product fixed false false
        else MkAction k_package product fixed (bool_decide (r_availability f = Some PRO)) false
      else out
  | nvd =>
      if bool_decide (lower (r_vendor f) = py "microsoft") && is_prefix (py "windows") (r_product_key f)
      then MkAction k_windows product fixed false (truthy fixed)
      else if truthy fixed && negb (is_prefix (py "after ") (default [] fixed)) then MkAction k_version product fixed false true
      else if truthy end_incl_ then MkAction k_after product end_incl_ false true
      else out
  end.
(** [annotate] *)
Definition annotate (info : gmap RKey (option pystr * option pystr)) (l : list Row) : list (Row * Action) :=
  map (fun f => (f, action_for f (match r_source f with nvd => info !! row_key f ≫= snd | advisory => None end))) l.

(** ** The plan *)
Definition _later (fam : option Family) (kind : act_kind) (a b : option pystr) : bool :=
  if negb (truthy b) then truthy a
  else if negb (truthy a) then false
  else
    let a := default [] a in
    let b := default [] b in
    match fam with
    | Some f => if bool_decide (kind = k_package \/ kind = k_reboot) then 0 <? cmp f a b else 0 <? Versions.compare a b
    | None => 0 <? Versions.compare a b
    end.
Inductive step_class : Type := c_windows | c_advisory | c_upgrade.
#[export] Instance step_class_dec : EqDecision step_class.
Proof. solve_decision. Defined.
Definition class_of (k : act_kind) : step_class := match k with k_windows => c_windows | k_advisory => c_advisory | _ => c_upgrade end.
Definition PKey : Type := Z * step_class * pystr * option pystr.
Definition plan_key (fa : Row * Action) : PKey :=
  let '(f, a) := fa in
  (r_asset f, class_of (a_kind a), or_text (r_product_key f) (r_product f),
   if bool_decide (a_kind a = k_advisory) then Some (r_cve f) else None).
Record Step : Type := MkStep {
  s_asset : Z; s_name : option pystr; s_product : pystr; s_findings : Z; s_cves : list pystr; s_kev : bool; s_priority : Z;
  s_critical : Z; s_pro : bool; s_best : Action }.
Definition new_step (fa : Row * Action) : Step :=
  let '(f, a) := fa in MkStep (r_asset f) (r_name f) (or_text (a_product a) (r_product f)) 0 [] false 9 0 false a.
Definition family_of (f : Row) : option Family := match r_release f with Some (_ :: _ as r) => family r | _ => None end.
Definition better (fa : Row * Action) (best : Action) : Action :=
  if _later (family_of (fst fa)) (a_kind (snd fa)) (a_target (snd fa)) (a_target best) then snd fa else best.
Definition add_to (fa : Row * Action) (g : Step) : Step :=
  let '(f, a) := fa in
  {| s_asset := s_asset g; s_name := s_name g; s_product := s_product g; s_findings := s_findings g + 1;
     s_cves := s_cves g ++ [r_cve f]; s_kev := s_kev g || r_kev f;
     s_priority := Z.min (s_priority g) (if r_priority f =? 0 then 9 else r_priority f);
     s_critical := s_critical g + (if bool_decide (r_severity f = Some (py "critical")) then 1 else 0);
     s_pro := s_pro g || a_pro a; s_best := better fa (s_best g) |}.
(** [groups]: a dictionary in the order of its keys' first findings. *)
Fixpoint put_group (fa : Row * Action) (groups : list (PKey * Step)) : list (PKey * Step) :=
  match groups with
  | [] => [(plan_key fa, add_to fa (new_step fa))]
  | (k, g) :: groups => if bool_decide (k = plan_key fa) then (k, add_to fa g) :: groups else (k, g) :: put_group fa groups
  end.
Definition groups_of (l : list (Row * Action)) : list (PKey * Step) := foldl (fun gs fa => put_group fa gs) [] l.
Definition step_key (g : Step) : list Z :=
  s_priority g :: (if s_kev g then 0 else 1) :: - s_findings g :: map ord (s_product g).
Definition step_le (x y : Step) : Prop := cmp_on step_key (lexpad Z.compare (-1)) x y <> Gt.
#[export] Instance step_le_dec : RelDecision step_le.
Proof. intros x y. unfold step_le. apply _. Defined.
(** [sorted(set(cves))] *)
#[local] Instance str_le_dec' : RelDecision str_le.
Proof. intros a b. unfold str_le. apply _. Defined.
Definition closed (g : Step) : Step :=
  MkStep (s_asset g) (s_name g) (s_product g) (s_findings g) (merge_sort str_le (remove_dups (s_cves g))) (s_kev g)
    (s_priority g) (s_critical g) (s_pro g) (s_best g).
(** [plan]: the steps of one asset, most urgent first. *)
Definition plan (l : list (Row * Action)) (aid : Z) : list Step :=
  merge_sort step_le (List.filter (fun g => s_asset g =? aid) (map (fun kg => closed (snd kg)) (groups_of l))).

(** ** One row for each asset and CVE *)

(** Which CVEs the criteria give an asset with these products. *)
Definition hit (criteria : list CveCpeMatch) (ids : list Identity) (c : pystr) (im : Raw) : Prop :=
  fst im ∈ ids /\ snd im ∈ criteria /\ (m_vendor (snd im), m_product (snd im)) = pair_of (fst im) /\
  m_cve (snd im) = c /\ matches (i_version (fst im)) (m_crit (snd im)) = true.
Definition cve_of (im : Raw) : pystr := m_cve (snd im).

Lemma foldl_pairs {A B S} (f : A -> S -> B -> S) (g : A -> list B) l st :
  foldl (fun st a => foldl (f a) st (g a)) st l = foldl (fun st ab => f (fst ab) st (snd ab)) st (flat_map (fun a => map (pair a) (g a)) l).
Proof.
  revert st. induction l as [|a l IH]; intros st; cbn; [done|]. rewrite foldl_app, IH. f_equal.
  generalize (g a). intros bs. revert st. induction bs as [|b bs IHb]; intros st; cbn; [done|]. apply IHb.
Qed.

(** The loop over the criteria of all products: every CVE once, at its first match. *)
Lemma take_matches l :
  let '(seen, out) := foldl (fun st im => take_match (fst im) st (snd im)) (∅, []) l in
  (forall c, c ∈ seen <-> c ∈ map cve_of out) /\ NoDup (map cve_of out) /\
  (forall im, im ∈ out -> im ∈ l /\ matches (i_version (fst im)) (m_crit (snd im)) = true) /\
  (forall im, im ∈ l -> matches (i_version (fst im)) (m_crit (snd im)) = true -> cve_of im ∈ seen).
Proof.
  induction l as [|im l IH] using rev_ind.
  - cbn. split_and!; [set_solver|constructor|set_solver|set_solver].
  - rewrite foldl_app. destruct (foldl _ _ l) as [seen out]. destruct IH as (I1 & I2 & I3 & I4). cbn [foldl]. unfold take_match.
    destruct im as [i m]. cbn [fst snd]. case_bool_decide as Hs.
    { split_and!; [done|done|set_solver|]. intros x [Hx| ->%list_elem_of_singleton]%elem_of_app; [by apply I4|done]. }
    destruct (matches _ _) eqn:Em.
    + split_and!.
      * intros c. rewrite map_app, elem_of_app, elem_of_union, I1. cbn. set_solver.
      * rewrite map_app. apply list.NoDup_app. split_and!; [done| |apply NoDup_singleton].
        intros c Hc ->%list_elem_of_singleton. by apply Hs, I1.
      * intros x [Hx| ->%list_elem_of_singleton]%elem_of_app; [|by split; [set_solver|]]. destruct (I3 x Hx). split; [set_solver|done].
      * intros x [Hx| ->%list_elem_of_singleton]%elem_of_app Hm; [|set_solver]. apply elem_of_union_r. by apply I4.
    + split_and!; [done|done| |].
      * intros x Hx. destruct (I3 x Hx). split; [set_solver|done].
      * intros x [Hx| ->%list_elem_of_singleton]%elem_of_app Hm; [by apply I4|]. cbn in Hm. congruence.
Qed.
Lemma raw_spec criteria ids :
  NoDup (map cve_of (raw_of criteria ids)) /\
  (forall im, im ∈ raw_of criteria ids -> hit criteria ids (cve_of im) im) /\
  (forall c im, hit criteria ids c im -> c ∈ map cve_of (raw_of criteria ids)).
Proof.
  unfold raw_of. rewrite foldl_pairs.
  assert (Hin : forall im, im ∈ flat_map (fun a => map (pair a) (by_product criteria a)) ids <->
    fst im ∈ ids /\ snd im ∈ criteria /\ (m_vendor (snd im), m_product (snd im)) = pair_of (fst im)).
  { intros [i m]. rewrite elem_of_flat_map. cbn [fst snd]. split.
    - intros (a & Ha & (b & [= -> ->] & Hb)%list_elem_of_fmap). apply elem_filter in Hb as [Hb E]. by apply bool_decide_eq_true in E.
    - intros (Hi & Hm & E). exists i. split; [done|]. apply list_elem_of_fmap. exists m. split; [done|].
      apply elem_filter. split; [done|]. by apply bool_decide_eq_true. }
  pose proof (take_matches (flat_map (fun a => map (pair a) (by_product criteria a)) ids)) as H.
  destruct (foldl _ _ _) as [seen out]. cbn [snd]. destruct H as (I1 & I2 & I3 & I4). split_and!.
  - done.
  - intros im Him. destruct (I3 im Him) as [(H1 & H2 & H3)%Hin Hm]. by split_and!.
  - intros c im (H1 & H2 & H3 & <- & Hm). apply I1, I4; [by apply Hin|done].
Qed.

(** Merging: no key twice, every candidate's key kept, with a row at least as urgent. *)
Lemma remove_row_spec x l : NoDup l -> NoDup (remove_row x l) /\ forall y, y ∈ remove_row x l <-> y ∈ l /\ y <> x.
Proof.
  induction l as [|z l IH]; intros Hnd; cbn [remove_row]; [split; [done|set_solver]|].
  apply list.NoDup_cons in Hnd as [Hz Hnd]. destruct (IH Hnd) as [H1 H2]. case_bool_decide as E.
  - subst z. split; [done|]. intros y. rewrite elem_of_cons. split; [intros Hy; split; [by right|congruence]|intros [[?|?] ?]; congruence].
  - split; [apply list.NoDup_cons; split; [by rewrite H2; intros [? ?]|done]|]. intros y. rewrite !elem_of_cons, H2.
    split; [intros [->|[? ?]]; auto|intros [[->|?] ?]; auto].
Qed.
Record merged (cands : list Row) (st : list Row * gmap RKey Row) : Prop := {
  mg_keys : NoDup (map row_key (fst st));
  mg_map : forall r, r ∈ fst st <-> snd st !! row_key r = Some r;
  mg_key : forall k r, snd st !! k = Some r -> row_key r = k;
  mg_from : forall r, r ∈ fst st -> r ∈ cands;
  mg_best : forall c, c ∈ cands -> exists r, r ∈ fst st /\ row_key r = row_key c /\ r_priority r <= r_priority c
}.
Lemma NoDup_map_inj {A B} (f : A -> B) l : NoDup (map f l) -> NoDup l /\ forall x y, x ∈ l -> y ∈ l -> f x = f y -> x = y.
Proof.
  induction l as [|a l IH]; cbn; intros Hnd; [split; [constructor|set_solver]|]. apply list.NoDup_cons in Hnd as [Ha Hnd].
  destruct (IH Hnd) as [H1 H2].
  assert (Hn : forall x, x ∈ l -> f x = f a -> False) by (intros x Hx E; apply Ha; rewrite <- E; apply list_elem_of_fmap; by exists x).
  split; [apply list.NoDup_cons; split; [intros Hin; by apply (Hn a)|done]|].
  intros x y [->|Hx]%elem_of_cons [->|Hy]%elem_of_cons E; [done| | |by apply H2]; exfalso; by eapply Hn.
Qed.
Lemma NoDup_map_sub {A B} (f : A -> B) l l' :
  NoDup (map f l) -> NoDup l' -> (forall x, x ∈ l' -> x ∈ l) -> NoDup (map f l').
Proof.
  intros [_ Hinj]%NoDup_map_inj Hnd Hsub. apply NoDup_fmap_2_strong; [|done]. intros x y Hx Hy. apply Hinj; auto.
Qed.
Lemma merge_row_merged cands st row : merged cands st -> merged (cands ++ [row]) (merge_row st row).
Proof.
  destruct st as [fs bk]. intros [M1 M2 M3 M4 M5]. cbn in *. unfold merge_row.
  destruct (bk !! row_key row) as [prev|] eqn:Ep.
  - pose proof (M3 _ _ Ep) as Ek. assert (Hp : prev ∈ fs) by (apply M2; by rewrite Ek).
    destruct (Z.leb_spec (r_priority row) (r_priority prev)) as [Hle|Hgt].
    + destruct (NoDup_map_inj _ _ M1) as [Hnd Hinj]. destruct (remove_row_spec prev fs Hnd) as [R1 R2].
      assert (Hother : forall r, r ∈ remove_row prev fs -> row_key r <> row_key row).
      { intros r [Hr Hne]%R2 E. apply Hne. apply Hinj; [done|done|congruence]. }
      constructor; cbn [fst snd].
      * rewrite map_app. apply list.NoDup_app. split_and!; [by eapply NoDup_map_sub; [exact M1|exact R1|intros x [? ?]%R2]| |apply NoDup_singleton].
        intros k (r & -> & Hr)%list_elem_of_fmap E%list_elem_of_singleton. by apply (Hother r).
      * intros r. rewrite elem_of_app, list_elem_of_singleton, R2. destruct (decide (row_key r = row_key row)) as [E|E].
        -- rewrite E, lookup_insert_eq. split; [|intros [= ->]; by right]. intros [[Hr Hne]| ->]; [|done].
           exfalso. apply Hne, Hinj; [done|done|congruence].
        -- rewrite lookup_insert_ne by congruence. rewrite <- M2. split; [intros [[? ?]| ->]; done|]. intros Hr. left. split; [done|]. congruence.
      * intros k r [[<- <-]|[_ Hk]]%lookup_insert_Some; [done|by apply M3].
      * intros r [[Hr _]%R2| ->%list_elem_of_singleton]%elem_of_app; [apply elem_of_app; left; by apply M4|set_solver].
      * intros c [Hc| ->%list_elem_of_singleton]%elem_of_app.
        -- destruct (M5 c Hc) as (r & Hr & E & Hpr). destruct (decide (r = prev)) as [->|Hne].
           ++ exists row. split_and!; [set_solver|congruence|lia].
           ++ exists r. split_and!; [apply elem_of_app; left; by apply R2|done|done].
        -- exists row. split_and!; [set_solver|done|lia].
    + constructor; cbn [fst snd]; [done|done|done|set_solver|].
      intros c [Hc| ->%list_elem_of_singleton]%elem_of_app; [by apply M5|]. exists prev. split_and!; [done|done|lia].
  - assert (Hno : row_key row ∉ map row_key fs).
    { intros (r & E & Hr)%list_elem_of_fmap. apply M2 in Hr. congruence. }
    constructor; cbn [fst snd].
    + rewrite map_app. apply list.NoDup_app. split_and!; [done| |apply NoDup_singleton]. by intros k Hk ->%list_elem_of_singleton.
    + intros r. rewrite elem_of_app, list_elem_of_singleton. destruct (decide (row_key r = row_key row)) as [E|E].
      * rewrite E, lookup_insert_eq. split; [|intros [= ->]; by right]. intros [Hr| ->]; [|done].
        destruct Hno. apply list_elem_of_fmap. by exists r.
      * rewrite lookup_insert_ne by congruence. rewrite <- M2. split; [intros [?| ->]; done|auto].
    + intros k r [[<- <-]|[_ Hk]]%lookup_insert_Some; [done|by apply M3].
    + set_solver.
    + intros c [Hc| ->%list_elem_of_singleton]%elem_of_app.
      * destruct (M5 c Hc) as (r & Hr & ? & ?). exists r. split_and!; [set_solver|done|done].
      * exists row. split_and!; [set_solver|done|lia].
Qed.
Lemma by_key_spec l : NoDup (map row_key l) ->
  (forall r, r ∈ l <-> by_key l !! row_key r = Some r) /\ forall k r, by_key l !! k = Some r -> row_key r = k.
Proof.
  unfold by_key. induction l as [|x l IH] using rev_ind.
  - intros _. cbn. split; [intros r; rewrite lookup_empty; set_solver|]. intros k r. by rewrite lookup_empty.
  - rewrite map_app, foldl_app. intros (Hnd & Hx & _)%list.NoDup_app. destruct (IH Hnd) as [I1 I2]. cbn [foldl].
    assert (Hno : forall r, r ∈ l -> row_key r <> row_key x).
    { intros r Hr E. apply (Hx (row_key r)); [apply list_elem_of_fmap; by exists r|]. cbn. rewrite E. left. }
    split.
    + intros r. rewrite elem_of_app, list_elem_of_singleton. destruct (decide (row_key r = row_key x)) as [E|E].
      * rewrite E, lookup_insert_eq. split; [intros [Hr| ->]; [by destruct (Hno r Hr)|done]|intros [= ->]; by right].
      * rewrite lookup_insert_ne by congruence. rewrite <- I1. split; [intros [?| ->]; done|auto].
    + intros k r [[<- <-]|[_ Hk]]%lookup_insert_Some; [done|by apply I2].
Qed.
Lemma merge_all l rows : NoDup (map row_key l) -> merged (l ++ rows) (foldl merge_row (l, by_key l) rows).
Proof.
  intros Hnd. induction rows as [|row rows IH] using rev_ind.
  - destruct (by_key_spec l Hnd) as [B1 B2]. rewrite app_nil_r. constructor; cbn; [done|done|done|done|]. intros c Hc. by exists c.
  - rewrite foldl_app, app_assoc. by apply merge_row_merged.
Qed.

Lemma NoDup_omap_key {A B K} (f : A -> option B) (k : A -> K) (k' : B -> K) l :
  NoDup (map k l) -> (forall x y, f x = Some y -> k' y = k x) -> NoDup (map k' (omap f l)).
Proof.
  intros Hnd Hk. induction l as [|x l IH]; [constructor|]. cbn in Hnd. apply list.NoDup_cons in Hnd as [Hx Hnd]. cbn.
  destruct (f x) as [y|] eqn:Ef; [|by apply IH]. cbn. apply list.NoDup_cons. split; [|by apply IH].
  intros (z & E & (w & Hw & Hz)%list_elem_of_omap)%list_elem_of_fmap. apply Hx. apply list_elem_of_fmap. exists w. split; [|done].
  by rewrite <- (Hk x y Ef), E, (Hk w z Hz).
Qed.
Lemma NoDup_flat_map_key {A B K} (g : A -> list B) (key : A -> Z) (k : A -> B -> K) l :
  NoDup (map key l) -> (forall a, NoDup (map (k a) (g a))) ->
  (forall a b x y, a ∈ l -> b ∈ l -> k a x = k b y -> key a = key b) ->
  NoDup (map (fun ab => k (fst ab) (snd ab)) (flat_map (fun a => map (pair a) (g a)) l)).
Proof.
  intros Hnd Hg Hk. induction l as [|a l IH]; cbn; [constructor|]. cbn in Hnd. apply list.NoDup_cons in Hnd as [Ha Hnd].
  rewrite map_app, map_map. cbn [fst snd]. apply list.NoDup_app. split_and!; [apply Hg| |apply IH; [done|intros; eapply Hk; try done; by right]].
  intros c (x & -> & _)%list_elem_of_fmap ([b y] & E & Hy)%list_elem_of_fmap. cbn in E.
  apply elem_of_flat_map in Hy as (b' & Hb & (z & [= <- <-] & _)%list_elem_of_fmap).
  apply Ha, list_elem_of_fmap. exists b. split; [|done]. eapply Hk; [left|by right|exact E].
Qed.

#[local] Instance row_le_total : Total row_le.
Proof.
  intros x y. unfold row_le. rewrite (cmp_flip (cmp_on sort_key (lexpad Z.compare (-1))) x y).
  destruct (cmp_on _ _ x y); [by left|by left|by right].
Qed.
Lemma row_le_priority x y : row_le x y -> r_priority x <= r_priority y.
Proof.
  unfold row_le, cmp_on, sort_key. rewrite lexpad_cons by apply _. destruct (Z.compare_spec (r_priority x) (r_priority y)); [lia|lia|done].
Qed.
Lemma sorted_priorities l : StronglySorted Z.le (map r_priority (merge_sort row_le l)).
Proof.
  apply Sorted_StronglySorted; [intros x y z; lia|]. pose proof (Sorted_merge_sort row_le l) as H.
  induction H as [|x m Hm IH Hx]; cbn; [constructor|]. constructor; [done|]. destruct Hx; cbn; constructor. by apply row_le_priority.
Qed.

(** Counting. *)
Lemma count_cons {A} (p : A -> bool) x l : count p (x :: l) = (if p x then 1 else 0) + count p l.
Proof. unfold count. cbn. destruct (p x); cbn [length]; lia. Qed.
Lemma count_ext {A} (p q : A -> bool) l : (forall x, p x = q x) -> count p l = count q l.
Proof. intros E. unfold count. f_equal. f_equal. by apply filter_ext_elem. Qed.
Lemma count_split {A} (p : A -> bool) l : Z.of_nat (length l) = count p l + count (fun x => negb (p x)) l.
Proof.
  induction l as [|x l IH]; [done|]. rewrite !count_cons. cbn [length]. destruct (p x); cbn [negb]; lia.
Qed.
Lemma sum_add {A} (f g : A -> Z) l : foldr Z.add 0 (map (fun x => f x + g x) l) = foldr Z.add 0 (map f l) + foldr Z.add 0 (map g l).
Proof. induction l as [|x l IH]; cbn; [done|]. rewrite IH. lia. Qed.
Lemma sum_here (z : Z) assets : NoDup (map as_id assets) ->
  foldr Z.add 0 (map (fun a => if z =? as_id a then 1 else 0) assets) = if bool_decide (z ∈ map as_id assets) then 1 else 0.
Proof.
  induction assets as [|a l IH]; cbn; [done|]. intros [Ha Hnd]%list.NoDup_cons. rewrite (IH Hnd).
  destruct (Z.eqb_spec z (as_id a)) as [->|Hne].
  - rewrite (bool_decide_false _ Ha), bool_decide_true by left. done.
  - cbn. apply f_equal with (f := fun b : bool => if b then 1 else 0). apply bool_decide_ext. set_solver.
Qed.
Lemma count_assets l assets : NoDup (map as_id assets) -> (forall r, r ∈ l -> r_asset r ∈ map as_id assets) ->
  foldr Z.add 0 (map (fun a => count_of l (as_id a)) assets) = Z.of_nat (length l).
Proof.
  intros Hnd. unfold count_of. induction l as [|r l IH]; intros Hall.
  - clear. induction assets as [|a assets IH]; cbn; [done|]. by rewrite IH.
  - rewrite (map_ext _ (fun a => (if r_asset r =? as_id a then 1 else 0) + count (fun f => r_asset f =? as_id a) l)) by (intros a; by rewrite count_cons).
    rewrite sum_add, sum_here, IH by (try done; intros; apply Hall; by right). rewrite bool_decide_true by (apply Hall; left).
    cbn [length]. lia.
Qed.
Lemma same_row (l cands : list Row) : NoDup (map row_key l) ->
  (forall c, c ∈ cands -> exists r, r ∈ l /\ row_key r = row_key c /\ r_priority r <= r_priority c) ->
  forall r c, r ∈ l -> c ∈ cands -> row_key c = row_key r -> r_priority r <= r_priority c.
Proof.
  intros [_ Hinj]%NoDup_map_inj Hbest r c Hr Hc E. destruct (Hbest c Hc) as (r' & Hr' & E' & Hle).
  by rewrite (Hinj r r') by congruence.
Qed.

(** ** What grouping gives *)

(** The group of a key, and what grouping a list of findings gives. *)
Lemma put_group_keys fa gs : map fst (put_group fa gs) = if bool_decide (plan_key fa ∈ map fst gs) then map fst gs else map fst gs ++ [plan_key fa].
Proof.
  induction gs as [|[k g] gs IH]; [done|]. cbn [put_group map fst]. destruct (decide (k = plan_key fa)) as [E|E].
  - rewrite (bool_decide_true (k = _)) by done. subst k. by rewrite bool_decide_true by left.
  - rewrite (bool_decide_false (k = _)) by done. cbn [map fst]. rewrite IH. rewrite (bool_decide_ext (plan_key fa ∈ k :: map fst gs) (plan_key fa ∈ map fst gs)) by (rewrite elem_of_cons; naive_solver).
    by case_bool_decide.
Qed.
Lemma put_group_in fa gs k g : NoDup (map fst gs) -> (k, g) ∈ put_group fa gs ->
  (k, g) ∈ gs /\ k <> plan_key fa \/
  k = plan_key fa /\ ((exists g0, (k, g0) ∈ gs /\ g = add_to fa g0) \/ (k ∉ map fst gs /\ g = add_to fa (new_step fa))).
Proof.
  induction gs as [|[k' g'] gs IH]; cbn [put_group].
  - intros _ [= -> ->]%list_elem_of_singleton. right. split; [done|]. right. split; [apply not_elem_of_nil|done].
  - cbn [map fst]. intros [Hk Hnd]%list.NoDup_cons. destruct (decide (k' = plan_key fa)) as [E|E];
      [rewrite bool_decide_true by done|rewrite bool_decide_false by done].
    + subst k'. intros [[= -> ->]|Hin]%elem_of_cons.
      * right. split; [done|]. left. exists g'. by split; [left|].
      * left. split; [by right|]. intros ->. apply Hk, list_elem_of_fmap. by exists (plan_key fa, g).
    + intros [[= -> ->]|Hin]%elem_of_cons; [left; by split; [left|]|].
      destruct (IH Hnd Hin) as [[? ?]|(-> & [(g0 & H0 & ->)|[Hn ->]])].
      * left. by split; [right|].
      * right. split; [done|]. left. exists g0. by split; [right|].
      * right. split; [done|]. right. split; [|done]. rewrite not_elem_of_cons. by split.
Qed.
Definition sum_where (p : PKey -> bool) (gs : list (PKey * Step)) : Z :=
  foldr Z.add 0 (map (fun kg => if p (fst kg) then s_findings (snd kg) else 0) gs).
Lemma put_group_sum p fa gs : sum_where p (put_group fa gs) = (if p (plan_key fa) then 1 else 0) + sum_where p gs.
Proof.
  unfold sum_where. induction gs as [|[k g] gs IH]; [destruct fa; cbn; by destruct (p _)|]. cbn [put_group].
  destruct (decide (k = plan_key fa)) as [->|E]; [rewrite bool_decide_true by done|rewrite bool_decide_false by done].
  - destruct fa. cbn [map foldr fst snd add_to s_findings]. destruct (p _); lia.
  - cbn [map foldr fst snd]. rewrite IH. lia.
Qed.

(** What one group holds of the findings listed so far. *)
Record group_ok (l : list (Row * Action)) (k : PKey) (g : Step) : Prop := {
  go_asset : s_asset g = fst (fst (fst k));
  go_some : exists fa, fa ∈ l /\ plan_key fa = k /\ s_best g = snd fa;
  go_cves : forall fa, fa ∈ l -> plan_key fa = k -> r_cve (fst fa) ∈ s_cves g;
  go_count : s_findings g = count (fun fa => bool_decide (plan_key fa = k)) l
}.
Definition groups_inv (l : list (Row * Action)) (gs : list (PKey * Step)) : Prop :=
  NoDup (map fst gs) /\ (forall k g, (k, g) ∈ gs -> group_ok l k g) /\ (forall fa, fa ∈ l -> plan_key fa ∈ map fst gs).
Lemma count_concat {A} (p : A -> bool) l m : count p (l ++ m) = count p l + count p m.
Proof. unfold count. rewrite filter_app, length_app. lia. Qed.
Lemma count_none {A} (p : A -> bool) l : (forall x, x ∈ l -> p x = false) -> count p l = 0.
Proof. intros H. unfold count. by rewrite (proj2 (filter_is_nil p l) H). Qed.
Lemma add_to_ok l fa k g0 : group_ok l k g0 -> plan_key fa = k -> group_ok (l ++ [fa]) k (add_to fa g0).
Proof.
  intros [G1 (fb & Hb & Kb & Eb) G3 G4] Hk. destruct fa as [f a]. constructor.
  - done.
  - cbn [add_to s_best]. unfold better. destruct (_later _ _ _ _).
    + exists (f, a). split_and!; [set_solver|done|done].
    + exists fb. split_and!; [set_solver|done|done].
  - intros fb' [Hin| ->%list_elem_of_singleton]%elem_of_app E; cbn; apply elem_of_app; [left; by apply G3|right; left].
  - cbn [add_to s_findings]. rewrite count_concat, G4. f_equal. unfold count. cbn [List.filter]. by rewrite bool_decide_true.
Qed.
Lemma other_ok l fa k g : group_ok l k g -> plan_key fa <> k -> group_ok (l ++ [fa]) k g.
Proof.
  intros [G1 (fb & Hb & Kb & Eb) G3 G4] Hk. constructor; [done| | |].
  - exists fb. split_and!; [set_solver|done|done].
  - intros fb' [Hin| ->%list_elem_of_singleton]%elem_of_app E; [by apply G3|done].
  - rewrite count_concat, G4. unfold count at 3. cbn [List.filter]. rewrite bool_decide_false by done. cbn. lia.
Qed.
Lemma new_group_ok l fa : (forall fb, fb ∈ l -> plan_key fb <> plan_key fa) -> group_ok (l ++ [fa]) (plan_key fa) (add_to fa (new_step fa)).
Proof.
  intros Hn. constructor.
  - by destruct fa.
  - exists fa. split_and!; [set_solver|done|]. destruct fa as [f a]. cbn [add_to new_step s_best]. unfold better. by destruct (_later _ _ _ _).
  - intros fb [Hin| ->%list_elem_of_singleton]%elem_of_app E; [by destruct (Hn fb Hin)|]. destruct fa as [f a]. cbn. left.
  - rewrite count_concat, count_none by (intros fb Hb; by apply bool_decide_false, Hn).
    unfold count. cbn [List.filter]. rewrite bool_decide_true by done. by destruct fa.
Qed.
Lemma groups_of_snoc l fa : groups_of (l ++ [fa]) = put_group fa (groups_of l).
Proof. unfold groups_of. by rewrite foldl_app. Qed.
Lemma groups_of_inv l : groups_inv l (groups_of l).
Proof.
  induction l as [|fa l (I1 & I2 & I3)] using rev_ind.
  - split_and!; [constructor|intros k g H; by apply elem_of_nil in H|intros fa H; by apply elem_of_nil in H].
  - rewrite groups_of_snoc. split_and!.
    + rewrite put_group_keys. case_bool_decide as E; [done|]. apply list.NoDup_app.
      split_and!; [done|by intros x Hx ->%list_elem_of_singleton|apply NoDup_singleton].
    + intros k g [[Hin Hne]|(-> & [(g0 & H0 & ->)|[Hn ->]])]%put_group_in; [| | |done].
      * apply other_ok; [by apply I2|congruence].
      * apply add_to_ok; [by apply I2|done].
      * apply new_group_ok. intros fb Hb E. apply Hn. rewrite <- E. by apply I3.
    + intros fb Hb. rewrite put_group_keys. apply elem_of_app in Hb as [Hb| ->%list_elem_of_singleton]; case_bool_decide; set_solver.
Qed.
Lemma groups_sum p l : sum_where p (groups_of l) = count (fun fa => p (plan_key fa)) l.
Proof.
  induction l as [|fa l IH] using rev_ind; [done|]. rewrite groups_of_snoc, put_group_sum, IH, count_concat.
  unfold count at 3. cbn [List.filter]. destruct (p (plan_key fa)); cbn; lia.
Qed.
Lemma sum_perm l m : l ≡ₚ m -> foldr Z.add 0 l = foldr Z.add 0 m.
Proof. induction 1; cbn; lia. Qed.

(** In a group whose findings are compared by one order, no target is beyond the step's. *)
Definition ordered_by (ver : pystr -> pystr -> Z) (fa : Row * Action) : Prop :=
  truthy (a_target (snd fa)) = true /\
  forall a b, truthy (Some a) = true -> truthy (Some b) = true ->
    _later (family_of (fst fa)) (a_kind (snd fa)) (Some a) (Some b) = (0 <? ver a b).
Lemma groups_of_best (ver : pystr -> pystr -> Z) `{!VersionOrder ver} l k g :
  (k, g) ∈ groups_of l -> (forall fa, fa ∈ l -> plan_key fa = k -> ordered_by ver fa) ->
  exists t, a_target (s_best g) = Some t /\ truthy (Some t) = true /\
    forall fa x, fa ∈ l -> plan_key fa = k -> a_target (snd fa) = Some x -> ver x t <= 0.
Proof.
  revert g. induction l as [|fa l IH] using rev_ind; intros g; [intros H; by apply elem_of_nil in H|].
  rewrite groups_of_snoc. destruct (groups_of_inv l) as (I1 & I2 & I3). intros Hg Hall.
  assert (Hl : forall fb, fb ∈ l -> plan_key fb = k -> ordered_by ver fb) by (intros fb Hb; apply Hall; set_solver).
  apply put_group_in in Hg as [[Hin Hne]|(-> & [(g0 & H0 & ->)|[Hn ->]])]; [| | |done].
  - destruct (IH g Hin Hl) as (t & Et & Ht & Hle). exists t. split_and!; [done|done|].
    intros fb x [Hb| ->%list_elem_of_singleton]%elem_of_app E; [by apply Hle|congruence].
  - destruct (IH g0 H0 Hl) as (t & Et & Ht & Hle). destruct (Hall fa) as [Hta Hcmp]; [set_solver|done|].
    destruct fa as [f a]. cbn [fst snd] in Hta, Hcmp. destruct (a_target a) as [x|] eqn:Ex; [|done].
    cbn [add_to s_best]. unfold better. cbn [fst snd]. rewrite Et, Ex, Hcmp by done.
    destruct (Z.ltb_spec 0 (ver x t)) as [Hlt|Hge].
    + exists x. split_and!; [done|done|]. intros fb y [Hb| ->%list_elem_of_singleton]%elem_of_app E Ey.
      * specialize (Hle fb y Hb E Ey). pose proof (vo_flip ver x t). pose proof (vo_trans ver y t x). lia.
      * cbn in Ey. assert (y = x) as -> by congruence. rewrite (vo_refl ver). lia.
    + exists t. split_and!; [done|done|]. intros fb y [Hb| ->%list_elem_of_singleton]%elem_of_app E Ey; [by eapply Hle|].
      cbn in Ey. assert (y = x) as -> by congruence. lia.
  - destruct (Hall fa) as [Hta Hcmp]; [set_solver|done|]. destruct fa as [f a]. cbn [fst snd] in Hta, Hcmp.
    destruct (a_target a) as [x|] eqn:Ex; [|done]. cbn [add_to new_step s_best]. unfold better. cbn [fst snd].
    rewrite Ex. exists x. split_and!; [by destruct (_later _ _ _ _)|done|].
    intros fb y [Hb| ->%list_elem_of_singleton]%elem_of_app E Ey; [|cbn in Ey; assert (y = x) as -> by congruence; rewrite (vo_refl ver); lia].
    destruct Hn. rewrite <- E. by apply I3.
Qed.

(** ** The findings and the plan *)
Section FindingsProofs.
Context (label_for : pystr -> pystr -> pystr) (infer_identities : Asset -> list Identity) (release_label : option pystr -> pystr).
Context (assets : list Asset) (software : list AssetSoftware) (inventory_ : gmap Z (list InvItem)) (full : gset Z).
Context (criteria : list CveCpeMatch) (entries : gmap pystr CveEntry) (adv : gmap Z AssetAdvisories).
Context (distinct : NoDup (map as_id assets)).
Notation products := (per_asset label_for infer_identities software inventory_ full).
Notation raw := (raw label_for infer_identities assets software inventory_ full criteria).
Notation nvd_rows := (nvd_rows label_for infer_identities assets software inventory_ full criteria entries).
Notation adv_rows := (adv_rows release_label assets entries adv).
Notation compute := (compute label_for infer_identities release_label assets software inventory_ full criteria entries adv).

(** The sources of a row: a match of the database, or an advisory. *)
Definition nvd_hit (a : Asset) (c : pystr) (e : CveEntry) : Prop := entries !! c = Some e /\ exists im, hit criteria (products a) c im.
Definition adv_hit (a : Asset) (c : pystr) (f : Finding) : Prop :=
  f_cve f = c /\ exists r, adv !! as_id a = Some r /\ f ∈ Advisories.findings r.

Lemma raw_in a im : (a, im) ∈ raw <-> a ∈ assets /\ im ∈ raw_of criteria (products a).
Proof.
  unfold Findings.raw. rewrite elem_of_flat_map. split.
  - intros (b & Hb & (x & [= -> ->] & Hx)%list_elem_of_fmap). done.
  - intros [Ha Him]. exists a. split; [done|]. apply list_elem_of_fmap. by exists im.
Qed.
Lemma raw_keys : NoDup (map (fun x => (as_id (fst x), cve_of (snd x))) raw).
Proof.
  apply (NoDup_flat_map_key (fun a => raw_of criteria (products a)) as_id (fun a im => (as_id a, cve_of im))); [done| |by intros a b x y _ _ [= ->]].
  intros a. destruct (raw_spec criteria (products a)) as [Hnd _].
  replace (map (fun im => (as_id a, cve_of im)) (raw_of criteria (products a))) with (map (pair (as_id a)) (map cve_of (raw_of criteria (products a)))) by (by rewrite map_map).
  apply NoDup_fmap_2; [by intros x y [=]|done].
Qed.
Lemma nvd_rows_keys : NoDup (map row_key nvd_rows).
Proof.
  unfold Findings.nvd_rows. eapply NoDup_omap_key; [exact raw_keys|]. intros [a [i m]] y. cbn.
  by destruct (entries !! m_cve m); intros [= <-].
Qed.
Lemma nvd_rows_in r : r ∈ nvd_rows <->
  exists a im e, a ∈ assets /\ im ∈ raw_of criteria (products a) /\ entries !! cve_of im = Some e /\ r = nvd_row a im e.
Proof.
  unfold Findings.nvd_rows. rewrite list_elem_of_omap. split.
  - intros ([a im] & [Ha Him]%raw_in & E). cbn in E. destruct (entries !! _) as [e|] eqn:Ee; [|done]. injection E as <-.
    by exists a, im, e.
  - intros (a & im & e & Ha & Him & Ee & ->). exists (a, im). split; [by apply raw_in|]. cbn. by unfold cve_of in Ee; rewrite Ee.
Qed.
Lemma nvd_row_hit a c e : a ∈ assets -> nvd_hit a c e ->
  exists r, r ∈ nvd_rows /\ row_key r = (as_id a, c) /\ r_priority r = priority e.
Proof.
  intros Ha (He & im & Him). destruct (raw_spec criteria (products a)) as (_ & _ & H3).
  apply H3 in Him as ([i m] & -> & Him)%list_elem_of_fmap. exists (nvd_row a (i, m) e). split; [|done].
  apply nvd_rows_in. by exists a, (i, m), e.
Qed.
Lemma adv_rows_in r : r ∈ adv_rows <->
  exists a x f, a ∈ assets /\ adv !! as_id a = Some x /\ f ∈ Advisories.findings x /\
    r = advisory_row release_label (a_release x) a f (entries !! f_cve f).
Proof.
  unfold Findings.adv_rows. rewrite elem_of_flat_map. split.
  - intros (a & Ha & Hr). destruct (adv !! as_id a) as [x|] eqn:Ex; [|by apply elem_of_nil in Hr].
    apply list_elem_of_fmap in Hr as (f & -> & Hf). by exists a, x, f.
  - intros (a & x & f & Ha & Ex & Hf & ->). exists a. split; [done|]. rewrite Ex. apply list_elem_of_fmap. by exists f.
Qed.
Lemma same_asset a b : a ∈ assets -> b ∈ assets -> as_id a = as_id b -> a = b.
Proof. by apply NoDup_map_inj. Qed.

Lemma compute_spec :
  NoDup (map row_key compute) /\ (forall r, r ∈ compute -> r ∈ nvd_rows ++ adv_rows) /\
  forall c, c ∈ nvd_rows ++ adv_rows -> exists r, r ∈ compute /\ row_key r = row_key c /\ r_priority r <= r_priority c.
Proof.
  pose proof (merge_all nvd_rows adv_rows nvd_rows_keys) as [M1 _ _ M4 M5]. unfold Findings.compute. set (l := fst _) in *.
  assert (P : merge_sort row_le l ≡ₚ l) by apply merge_sort_Permutation. split_and!.
  - by rewrite (Permutation_map row_key P).
  - intros r. rewrite P. apply M4.
  - intros c (r & Hr & ?)%M5. exists r. by rewrite P.
Qed.
Lemma row_source r : r ∈ nvd_rows ++ adv_rows -> exists a, a ∈ assets /\ r_asset r = as_id a /\
  ((r_source r = nvd /\ exists e, nvd_hit a (r_cve r) e /\ r_priority r = priority e) \/
   (r_source r = advisory /\ exists f, adv_hit a (r_cve r) f /\ r_priority r = advisory_priority (entries !! r_cve r) f)).
Proof.
  intros [(a & [i m] & e & Ha & Him & Ee & ->)%nvd_rows_in|(a & x & f & Ha & Ex & Hf & ->)%adv_rows_in]%elem_of_app; exists a; (split; [done|]); (split; [done|]).
  - left. split; [done|]. exists e. split; [|done]. split; [done|]. exists (i, m).
    destruct (raw_spec criteria (products a)) as (_ & H2 & _). by apply H2 in Him.
  - right. split; [done|]. exists f. split; [|done]. split; [done|]. by exists x.
Qed.
Lemma adv_row_hit a c f : a ∈ assets -> adv_hit a c f ->
  exists r, r ∈ adv_rows /\ row_key r = (as_id a, c) /\ r_priority r = advisory_priority (entries !! c) f.
Proof.
  intros Ha (<- & x & Ex & Hf). exists (advisory_row release_label (a_release x) a f (entries !! f_cve f)). split; [|done].
  apply adv_rows_in. by exists a, x, f.
Qed.

(** C9: The CVE list of the page, for assets with different ids: (1) it has a row for an asset and a CVE exactly when a
    criterion of the CVE covers the version of one of the asset's products (and the database has the CVE), or an
    advisory of its distribution reports it; never two rows for one asset and CVE; (2) each row comes from one of
    these sources, is as urgent as that source says, and no source is more urgent; (3) the list goes from the most to the
    least urgent; (4) the summary's counts by source and the counts of the assets each add up to the number of rows. *)
Theorem findings_complete :
  (NoDup (map row_key compute) /\
   forall a c, a ∈ assets -> (exists r, r ∈ compute /\ row_key r = (as_id a, c)) <-> (exists e, nvd_hit a c e) \/ (exists f, adv_hit a c f)) /\
  (forall r, r ∈ compute -> exists a, a ∈ assets /\ r_asset r = as_id a /\
     ((r_source r = nvd /\ exists e, nvd_hit a (r_cve r) e /\ r_priority r = priority e) \/
      (r_source r = advisory /\ exists f, adv_hit a (r_cve r) f /\ r_priority r = advisory_priority (entries !! r_cve r) f)) /\
     (forall e, nvd_hit a (r_cve r) e -> r_priority r <= priority e) /\
     (forall f, adv_hit a (r_cve r) f -> r_priority r <= advisory_priority (entries !! r_cve r) f)) /\
  StronglySorted Z.le (map r_priority compute) /\
  (from_advisories (summary_of adv compute) + from_nvd (summary_of adv compute) = total (summary_of adv compute) /\
   foldr Z.add 0 (map (fun a => count_of compute (as_id a)) assets) = total (summary_of adv compute)).
Proof.
  destruct compute_spec as (K1 & K2 & K3). split_and!.
  - done.
  - intros a c Ha. split.
    + intros (r & Hr & [= E1 E2]). destruct (row_source r (K2 r Hr)) as (b & Hb & Eb & Hs).
      assert (a = b) as <- by (apply same_asset; [done|done|congruence]). subst c.
      destruct Hs as [(_ & e & He & _)|(_ & f & Hf & _)]; [left; by exists e|right; by exists f].
    + intros [(e & He)|(f & Hf)].
      * destruct (nvd_row_hit a c e Ha He) as (r & Hr & Ek & _). destruct (K3 r) as (r' & Hr' & Ek' & _); [set_solver|]. exists r'. by rewrite Ek'.
      * destruct (adv_row_hit a c f Ha Hf) as (r & Hr & Ek & _). destruct (K3 r) as (r' & Hr' & Ek' & _); [set_solver|]. exists r'. by rewrite Ek'.
  - intros r Hr. destruct (row_source r (K2 r Hr)) as (a & Ha & Ea & Hs). exists a. split_and!; [done|done|done| |].
    + intros e He. destruct (nvd_row_hit a _ e Ha He) as (c & Hc & Ek & <-). apply (same_row compute (nvd_rows ++ adv_rows) K1 K3 r c); [done|set_solver|].
      rewrite Ek. by unfold row_key; rewrite Ea.
    + intros f Hf. destruct (adv_row_hit a _ f Ha Hf) as (c & Hc & Ek & <-). apply (same_row compute (nvd_rows ++ adv_rows) K1 K3 r c); [done|set_solver|].
      rewrite Ek. by unfold row_key; rewrite Ea.
  - apply sorted_priorities.
  - cbn [from_advisories from_nvd total summary_of]. rewrite (count_split (fun f => bool_decide (r_source f = advisory)) compute). f_equal.
    apply count_ext. intros r. by destruct (r_source r).
  - apply (count_assets compute); [done|]. intros r Hr. destruct (row_source r (K2 r Hr)) as (a & Ha & Ea & _).
    rewrite Ea. apply list_elem_of_fmap. by exists a.
Qed.

(** *** The plan of an asset *)
Notation nvd_info := (nvd_info label_for infer_identities assets software inventory_ full criteria entries).
(** A criterion names a version or a range (src/app/models/cve.py). *)
Context (one_or_range : forall m, m ∈ criteria -> is_known (exact (m_crit m)) = true ->
  truthy (end_excl (m_crit m)) = false /\ truthy (end_incl (m_crit m)) = false).

Lemma info_at a im e : (a, im) ∈ raw -> entries !! cve_of im = Some e ->
  nvd_info !! (as_id a, cve_of im) = Some (m_part (snd im), end_incl (m_crit (snd im))).
Proof.
  unfold Findings.nvd_info. pose proof raw_keys as Hnd. revert Hnd. generalize raw. intros l.
  induction l as [|[b [j n]] l IH] using rev_ind; [intros _ H; by apply elem_of_nil in H|].
  rewrite map_app, foldl_app. intros (Hnd & Hd & _)%list.NoDup_app [Hin|Heq%list_elem_of_singleton]%elem_of_app He; cbn [foldl fst snd].
  - assert (Hne : (as_id b, cve_of (j, n)) <> (as_id a, cve_of im)).
    { intros E. apply (Hd (as_id a, cve_of im)); [apply list_elem_of_fmap; by exists (a, im)|]. cbn. rewrite <- E. left. }
    destruct (entries !! m_cve n); [rewrite lookup_insert_ne by exact Hne|]; by apply IH.
  - injection Heq as <- ->. unfold cve_of in *. cbn [snd] in *. rewrite He. by rewrite lookup_insert_eq.
Qed.
Definition action_of (r : Row) : Action :=
  action_for r (match r_source r with nvd => nvd_info !! row_key r ≫= snd | advisory => None end).
Definition actions : list (Row * Action) := annotate nvd_info compute.
Lemma actions_in fa : fa ∈ actions <-> fst fa ∈ compute /\ snd fa = action_of (fst fa).
Proof.
  unfold actions, annotate. rewrite list_elem_of_fmap. split; [intros (r & -> & Hr); done|].
  destruct fa as [r a]. cbn. intros [Hr ->]. by exists r.
Qed.
(** The match a row of the database reports. *)
Definition reports (r : Row) (im : Raw) : Prop := exists a e, (a, im) ∈ raw /\ entries !! cve_of im = Some e /\ r = nvd_row a im e.
Lemma reported r : r ∈ compute -> r_source r = nvd -> exists im, reports r im.
Proof.
  destruct compute_spec as (_ & K2 & _). intros [(a & im & e & Ha & Him & He & ->)%nvd_rows_in|(a & x & f & _ & _ & _ & ->)%adv_rows_in]%K2%elem_of_app; [|done].
  intros _. exists im, a, e. split_and!; [by apply raw_in|done|done].
Qed.
(** An upgrade's target is the end of the reported range. *)
Lemma nvd_target r im : reports r im -> class_of (a_kind (action_of r)) = c_upgrade ->
  exists b, a_target (action_of r) = Some b /\ truthy (Some b) = true /\ is_known (exact (m_crit (snd im))) = false /\
    (end_excl (m_crit (snd im)) = Some b \/ end_incl (m_crit (snd im)) = Some b) /\
    (a_kind (action_of r) = k_version \/ a_kind (action_of r) = k_after).
Proof.
  intros (a & e & Hr & He & ->). assert (Hm : snd im ∈ criteria).
  { apply raw_in in Hr as [_ Hr]. destruct (raw_spec criteria (products a)) as (_ & H2 & _). by apply H2 in Hr as (_ & ? & _). }
  destruct im as [i m]. unfold action_of. cbn [snd] in *.
  assert (E : nvd_info !! row_key (nvd_row a (i, m) e) = Some (m_part m, end_incl (m_crit m))) by exact (info_at a (i, m) e Hr He).
  change (r_source (nvd_row a (i, m) e)) with nvd. cbv iota. rewrite E. clear E.
  assert (Hex : truthy (end_excl (m_crit m)) = true \/ truthy (end_incl (m_crit m)) = true -> is_known (exact (m_crit m)) = false).
  { intros H. apply not_true_is_false. intros Hk. destruct (one_or_range m Hm Hk) as [E1 E2]. destruct H; congruence. }
  cbn [mbind option_bind snd]. unfold action_for. change (r_source (nvd_row a (i, m) e)) with nvd.
  change (r_fixed_in (nvd_row a (i, m) e)) with (_fixed_in (m_crit m)). cbv iota zeta. cbn [r_vendor r_product_key nvd_row].
  destruct (_ && is_prefix _ (i_product i)); [done|]. unfold _fixed_in.
  destruct (truthy (end_excl (m_crit m))) eqn:E1.
  - destruct (end_excl (m_crit m)) as [b|] eqn:Eb; [|done]. rewrite E1. cbn [andb default from_option id].
    destruct (is_prefix (py "after ") b); cbn [negb].
    + destruct (truthy (end_incl (m_crit m))) eqn:E2; [|done]. destruct (end_incl (m_crit m)) as [x|]; [|done]. intros _. exists x. cbn. auto 8.
    + intros _. exists b. cbn. auto 8.
  - destruct (truthy (end_incl (m_crit m))) eqn:E2; [|done]. destruct (end_incl (m_crit m)) as [x|]; [|done].
    change (truthy (Some (py "after " ++ default [] (Some x)))) with true.
    replace (is_prefix (py "after ") (default [] (Some (py "after " ++ default [] (Some x))))) with true by (by cbn).
    cbn [andb negb]. intros _. exists x. cbn. auto 8.
Qed.
(** A version beyond the end of a range is outside it. *)
Lemma beyond c b v : is_known (exact c) = false -> truthy (Some b) = true -> end_excl c = Some b \/ end_incl c = Some b ->
  0 < Versions.compare v b -> matches (Some v) c = false.
Proof.
  intros He Hb Hc Hv. apply not_true_is_false. intros Hm. apply matches_range in Hm as [_ (_ & _ & H3 & H4)]; [|done|].
  - assert (b <> []) by (by destruct b). destruct Hc as [Hc|Hc]; [specialize (H4 b Hc)|specialize (H3 b Hc)]; intuition lia.
  - destruct Hc as [-> | ->]; rewrite Hb, ?orb_true_r; done.
Qed.
Lemma plan_in g aid : g ∈ plan actions aid <-> exists k g0, (k, g0) ∈ groups_of actions /\ g = closed g0 /\ s_asset g0 = aid.
Proof.
  unfold plan. rewrite merge_sort_Permutation, elem_filter, Z.eqb_eq, list_elem_of_fmap. split.
  - intros [([k g0] & -> & Hg) E]. by exists k, g0.
  - intros (k & g0 & Hg & -> & E). split; [|done]. by exists (k, g0).
Qed.

Lemma plan_sum aid : foldr Z.add 0 (map s_findings (plan actions aid)) = count_of compute aid.
Proof.
  unfold plan. rewrite (sum_perm _ _ (Permutation_map s_findings (merge_sort_Permutation step_le _))).
  transitivity (sum_where (fun k => fst (fst (fst k)) =? aid) (groups_of actions)).
  - destruct (groups_of_inv actions) as (_ & I2 & _). unfold sum_where. revert I2. generalize (groups_of actions). intros gs.
    induction gs as [|[k g] gs IH]; intros I2; [done|]. cbn [map List.filter foldr fst snd].
    rewrite <- (go_asset _ _ _ (I2 k g ltac:(left))). change (s_asset (closed g)) with (s_asset g).
    destruct (s_asset g =? aid); cbn [map foldr]; rewrite IH by (intros k' g' H; apply I2; by right); [done|lia].
  - rewrite groups_sum. unfold actions, annotate, count_of, count. rewrite filter_map_comm, length_map. done.
Qed.
Lemma same_key_class x y : plan_key x = plan_key y -> class_of (a_kind (snd x)) = class_of (a_kind (snd y)).
Proof. by destruct x, y; intros [=]. Qed.
Lemma nvd_ordered r : r ∈ compute -> r_source r = nvd -> class_of (a_kind (action_of r)) = c_upgrade ->
  ordered_by Versions.compare (r, action_of r).
Proof.
  intros Hr Hs Hc. destruct (reported r Hr Hs) as [im Him]. destruct (nvd_target r im Him Hc) as (b & Eb & Hb & _ & _ & Hk).
  destruct Him as (a & e & _ & _ & ->). split; [cbn [snd]; by rewrite Eb|]. intros x y Hx Hy. unfold _later. rewrite Hx, Hy. cbn [negb fst].
  by destruct im.
Qed.
Lemma advisory_ordered r f : r_source r = advisory -> family_of r = Some f -> truthy (r_fixed_in r) = true ->
  ordered_by (cmp f) (r, action_of r) /\ a_target (action_of r) = r_fixed_in r.
Proof.
  intros Hs Hf Ht. unfold action_of, action_for. rewrite Hs, Ht.
  destruct (_ && _); (split; [split; [done|]|done]); intros x y Hx Hy; unfold _later; rewrite Hx, Hy; cbn [negb fst snd a_kind]; by rewrite Hf.
Qed.

End FindingsProofs.

(** ** A firewall and a server *)
Module Demo.
Definition label_for (v p : pystr) : pystr := p.
Definition release_label (r : option pystr) : pystr := default [] r.
Definition firewall : Asset := MkAsset 1 (Some (py "fw-1")).
Definition server : Asset := MkAsset 2 (Some (py "web-1")).
Definition infer (a : Asset) : list Identity :=
  if as_id a =? 1 then [MkIdentity (py "fortinet") (py "fortios") (Some (py "7.2.5")) inferred (py "Fortinet FortiOS") None] else [].
Definition fortios (cve : string) (incl excl : option string) : CveCpeMatch :=
  MkMatch (py cve) (Some (py "o")) (py "fortinet") (py "fortios")
    {| exact := Some (py "*"); start_incl := Some (py "7.2.0"); start_excl := None; end_incl := option_map py incl; end_excl := option_map py excl |}.
Definition criteria : list CveCpeMatch :=
  [fortios "CVE-2024-1" None (Some "7.2.8"%string); fortios "CVE-2024-2" (Some "7.2.8"%string) None].
Definition entries : gmap pystr CveEntry :=
  {[ py "CVE-2024-1" := MkCve (Some (py "critical")) (Some 980000) true (Some 90000);
     py "CVE-2024-2" := MkCve (Some (py "high")) (Some 750000) false None ]}.
Definition adv : gmap Z AssetAdvisories := {[ 2 := Sample.report ]}.
Notation the_findings := (compute label_for infer release_label [firewall; server] [] ∅ ∅ criteria entries adv).
Notation the_actions := (actions label_for infer release_label [firewall; server] [] ∅ ∅ criteria entries adv).

Lemma distinct : NoDup (map as_id [firewall; server]).
Proof. apply (bool_decide_unpack _). by vm_compute. Qed.
Lemma one_or_range m : m ∈ criteria -> is_known (exact (m_crit m)) = true -> truthy (end_excl (m_crit m)) = false /\ truthy (end_incl (m_crit m)) = false.
Proof. intros [->|[->|H]%elem_of_cons]%elem_of_cons; [done|done|by apply elem_of_nil in H]. Qed.

Notation the_action := (action_of label_for infer [firewall; server] [] ∅ ∅ criteria entries).
Definition first_row : Row := nvd_row firewall (hd (MkIdentity [] [] None manual [] None) (infer firewall), fortios "CVE-2024-1" None (Some "7.2.8"%string))
  (MkCve (Some (py "critical")) (Some 980000) true (Some 90000)).

Lemma findings_complete_witness :
  map (fun r => (r_asset r, r_cve r, r_priority r)) the_findings =
    [(1, py "CVE-2024-1", 1); (1, py "CVE-2024-2", 3); (2, py "CVE-2023-2650", 3)] /\
  NoDup (map row_key the_findings).
Proof.
  split; [by vm_compute|].
  apply (findings_complete label_for infer release_label [firewall; server] [] ∅ ∅ criteria entries adv distinct).
Defined.
Lemma first_found : first_row ∈ the_findings.
Proof. apply (bool_decide_unpack _). by vm_compute. Qed.

(** Two ranges with the same end, one without it and one with it: the step says the end itself is
    enough and counts both findings, but the version it names is still in the second range. *)
Example end_of_both_ranges :
  map (fun g => (s_findings g, a_kind (s_best g), a_target (s_best g))) (plan the_actions 1) = [(2, k_version, Some (py "7.2.8"))] /\
  matches (Some (py "7.2.8")) (m_crit (fortios "CVE-2024-2" (Some "7.2.8"%string) None)) = true.
Proof. split; by vm_compute. Qed.
End Demo.
